(* ===== verification/_CoqProject ===== *)
-Q . S2P
Prelude.v
GoStrings.v
Paths.v
Sha256.v
Json.v
Orm.v
OrmState.v
Diff.v
Plan.v
Schema.v
DiffSpec.v
RenameSpec.v
PlanSpec.v
Dialect.v
DialectSpec.v
Migrate.v
MigrateSpec.v
MakeMigrations.v
AuthCore.v
AuthCoreSpec.v
MemoryStore.v
MemoryStoreSpec.v
MemoryStoreInv.v
MemoryStoreSafety.v
Auth.v
AuthSpec.v
AuthHttp.v
AuthHttpSpec.v
AuthServe.v
MigrateCmd.v
Flag.v
Config.v
ConfigSpec.v
Cli.v
CliSpec.v
Health.v
HealthSpec.v
Modules.v
ModulesSpec.v
CollectSpec.v
LifecycleSpec.v
Admin.v
AdminSpec.v
Mail.v
Logging.v
Token.v
SchemaGen.v
SchemaGenSpec.v
VersionSpec.v
LayoutSpec.v
RecordSpec.v
RunSpec.v
Redis.v
AuthRedis.v
RedisSpec.v
AuthRedisSpec.v
AuthRedisInv.v
RedisKeyspace.v
AuthRedisSafety.v
AuthPg.v
AuthPgSpec.v
AuthPgTables.v
AuthRedisFlow.v
AuthRedisExamples.v
ScaffoldTemplates.v
Scaffold.v
ScaffoldSpec.v
ScaffoldModule.v
ScaffoldModuleSpec.v
ScaffoldProject.v
ScaffoldCmd.v
ScaffoldCmdSpec.v
ScaffoldExamples.v
AgentCheck.v
AgentSpec.v
AgentCmd.v
AgentCmdSpec.v
SpecCheck.v
ApiCheck.v
Hello.v
