(* ===== verification/Prelude.v ===== *)
(** * Verification of Fabrin

    Fabrin is a Go web framework: typed modules composed into one application,
    settings, commands, health checks, authentication over HTTP, and a schema
    workflow in which the modules declare their tables, [makemigrations] writes the
    difference between the declared and the recorded schema as Go files, and
    [migrate] runs them in transactions.  This development translates the
    framework's Go code, file by file, and proves what its documentation promises.
    Paths below are relative to the repository's [src/].

    ** How the parts interact

<<
    cli/ execute.go      Cli Flag         command line -> one command
      |-- migrate_cmd.go   MigrateCmd       -> Migrate (engine) -> database
      |-- makemigrations.go MakeMigrations  -> Orm, OrmState (recorded state, JSON)
      |                                     -> Diff, Plan (operations, renames)
      |                                     -> Dialect (SQL) -> files
      `-- serve            Modules.Run      -> module lifecycle, server
    module.go app.go     Modules          selection, construction, collection
    config/              Config Flag      settings the application is built from
    health/              Health           readiness of the running application
    auth/                AuthCore Auth MemoryStore
    authredis/ authpg/   AuthRedis AuthPg stores on a server, behind auth's interfaces
    authhttp/            AuthHttp         requests -> services -> store
    admin/ schema/       Admin SchemaGen  clients of the model metadata (Orm)
    mail/ logging/       Mail Logging
    cmd/fabrin/          ScaffoldCmd Cli  -> new, startapp
      `-- internal/scaffold/ Scaffold ScaffoldModule -> files, edit of main.go
    tools/               AgentCheck AgentCmd ApiCheck SpecCheck
                                          gates over the repository itself
    examples/hello/      Hello            a client of Modules and Migrate
>>

    ** Files

    Shared:
    - [Prelude]: results and their monad, notations, tactics, the hint database
      [fabrin], lemmas on lists, options, maps and strings.
    - [GoStrings], [Token], [Flag], [Json], [Sha256]: the parts of Go's standard
      library the code calls ([strings], [strconv], [utf8]; [go/token] and the
      character classes; [flag]; [encoding/json]; SHA-256, HMAC, base64, hex), written
      out so that definitions evaluate to the bytes the program produces.

    Schema and migrations:
    - [Orm] ([orm/orm.go]): field types, [Model], [validate], the registry.
    - [OrmState] ([orm/state.go]): snapshots, their encoding, parsing and replay.
    - [Diff] ([migratediff/migratediff.go]): [Operation] and the differ.  [Schema]
      is the abstract specification: a schema as a finite map, an operation as a
      partial transformer with a database's preconditions, and [≡] on schemas with
      its [Proper] instances.  [DiffSpec] proves the differ against it.
    - [Plan], [PlanSpec], [RenameSpec] ([makemigrations.go], the planning half):
      inverses, rename questions, per-module states.
    - [Dialect], [DialectSpec] ([migratediff/dialect_*.go]): the SQL, to the byte.
    - [MakeMigrations] ([makemigrations.go], the command over a file store), with
      [VersionSpec] (versions and slugs), [LayoutSpec] (paths, manifests, what
      reading the layout back yields), [RecordSpec] (one module's writes) and
      [RunSpec] (whole runs).
    - [Migrate], [MigrateSpec] ([migrate/migrate.go]): [Run], [Rollback], [Ensure]
      over a transactional database.  [MigrateCmd] ([migrate_cmd.go]): the command.

    Authentication:
    - [AuthCore], [AuthCoreSpec] ([auth/auth.go], [auth/challenge.go] and the values
      of [auth/session.go], [auth/browser.go]).
    - [MemoryStore] ([auth/memory.go]); [MemoryStoreSpec] (histories of operations and
      the budgets), [MemoryStoreInv] (the structural invariant), [MemoryStoreSafety]
      (who is let in and who stays out).
    - [Auth] (the services and managers over the classes [Store], [SessionStore],
      [PreAuthStore], which are the Go interfaces), [AuthSpec] (the law [LawfulStore]
      a store owes the service, its instance for the memory store, the services'
      theorems against the class).
    - [AuthHttp], [AuthHttpSpec] ([authhttp/native.go], [authhttp/browser.go]), and
      [AuthServe], the refinement of HTTP traffic to histories of store operations.

    The application:
    - [Config], [ConfigSpec] ([config/]); [Cli], [CliSpec] ([cli/cli.go] and
      [App.Execute] of [execute.go]); [Modules] ([module.go], [app.go], the rest of
      [execute.go]) with [ModulesSpec] (selection, factories), [CollectSpec] (routes,
      commands, migrations) and [LifecycleSpec] (start, stop, [Run]).
    - [Health], [HealthSpec] ([health/health.go]): evaluations, probes and contexts
      as interleaved atomic steps.
    - [Admin], [AdminSpec] ([admin/admin.go]); [SchemaGen], [SchemaGenSpec]
      ([schema/schema.go]); [Mail] ([mail/mail.go]); [Logging] ([logging/logging.go]).

    Stores on a server:
    - [Redis]: the server as the code sees it, a class with one operation and the
      documented effect of every command; scripts as sequences of commands at one
      instant.  [RedisSpec] reasons about scripts key by key, [RedisKeyspace] is a
      server in memory that keeps the laws.
    - [AuthRedis] ([authredis/authredis.go]): the scripts and the methods;
      [AuthRedisSpec] (the effect of each script), [AuthRedisInv] (histories of
      scripts by any number of clients), [AuthRedisSafety] (what holds of every
      history), [AuthRedisFlow] (the methods), [AuthRedisExamples] (a concrete run).
    - [AuthPg] ([authpg/authpg.go]): the identity schema and [ResolveVerified] as a
      transaction whose calls may fail; [AuthPgSpec] (the contract
      [LawfulIdentities] of the identity port and its theorems), [AuthPgTables]
      (tables in memory).

    The binary and the scaffold:
    - [Paths]: [path/filepath], and what stays below a folder.
    - [ScaffoldTemplates], [Scaffold], [ScaffoldSpec] ([internal/scaffold/scaffold.go]
      and its templates): a new project over a disk whose every call may fail.
    - [ScaffoldModule], [ScaffoldModuleSpec] ([internal/scaffold/module.go]): adding a
      module and the edit of main.go at the places Go's parser reports.
    - [ScaffoldProject] (the edit of a generated main.go, a run of [startapp] over
      the disk), [ScaffoldCmd], [ScaffoldCmdSpec] ([cmd/fabrin/main.go]:
      command lines to disks and exit codes), [ScaffoldExamples].

    The repository's gates:
    - [AgentCheck], [AgentSpec] ([tools/agentcheck/validator.go]), [AgentCmd],
      [AgentCmdSpec] ([tools/cmd/agentcheck/main.go]).
    - [ApiCheck] ([tools/apicheck/main.go]): types as a finite graph.
    - [SpecCheck] ([tools/speccheck/main.go]).

    The example:
    - [Hello] ([examples/hello/]): three modules and their wiring, built and run
      through [Modules] and [Migrate].

    Each operation keeps the name it has in Go; a method [(r *T) M] is [M] in the
    file or module of its component, with the receiver as an argument and, when
    it mutates, as part of the result.

    ** What the theorems show

    - Schema changes.  The operations of a diff, run on the old schema, are never
      refused and end in the new one; inverted and reversed they lead back; confirmed
      renames keep both facts; the SQL rendered from them quotes every name and
      value so that it reads back as data.  A run of [makemigrations] leaves on disk
      exactly the schema the modules declare, each recorded state is where its
      migration's operations lead, the next run finds nothing to do, and a run that
      has what it needs completes.  [migrate] is atomic per migration whatever call
      fails, idempotent, and undone by a rollback.
    - Authentication.  Every history of operations keeps the store's invariant and
      the budgets; a code is accepted once, from the challenge it was mailed for, in
      time; what ended stays ended; the mailed code does sign its reader in; the
      browser handlers reach a manager only through the CSRF gate, and all traffic
      is a history of the store.
    - The application.  Selection builds what it names and its dependencies only;
      what starts is stopped, once, in reverse; settings resolve by the documented
      precedence and errors name the setting; readiness fails closed in every
      interleaving and returns when its context ends.
    - Generators and the rest: generated records register, generation refuses
      exactly the colliding inputs, the admin reads and writes nothing unguarded,
      request ids are printable.
    - Stores on a server.  However clients interleave and repeat the scripts, the
      database keeps its shape, no script fails, the budgets hold, one lease wins a
      challenge, and a revoked session stays out; a matching attempt in time signs
      in, and the identity answered is the one the port binds to the address.  The
      PostgreSQL port keeps one identity per address whatever call fails, and with
      invitations required creates one only by consuming an invitation.
    - The binary.  [fabrin new] and then [fabrin startapp], however their flags are
      ordered, leave the project the templates describe with the module wired in;
      neither writes over a file, a request that is refused writes nothing, and the
      edit of main.go keeps every byte of it in place.
    - The gates.  Results of a dispatch that agentcheck passed changed disjoint files
      inside what each task owns; apicheck reports exactly the third-party types
      within reach of the exported API; speccheck passes exactly when the behaviours,
      the matrix, the requirements and the tests agree.
    - The example.  Its wiring mounts what is selected, opens no database before
      the start and leaves none open after a run; an order that was answered stays.
    Findings, stated as theorems where the model shows them: [NewFromFactories]
    never marks the process as sliced; wrong guesses are not counted once an address
    is rate limited; unmounting a module loses its migration history; [ParseSnapshot]
    ignores what follows its value; the report of a rollback says "applied"; the help
    scan misses [--h]; a command named [help] is unreachable; a quoted dotenv value
    followed by a comment is cut; [Load] without sources is an error; [startapp]
    accepts names main.go cannot import, writes an unexported registration for a
    name that begins with a non-ASCII letter, and reads a comment on go.mod's module
    line as part of the path; a project name may end in a line feed; an argument is
    not always inserted last; the API gate does not see promoted fields, the methods
    of a returned unexported type, or constraints; the spec gate accepts a test
    [go test] does not run; the example's hand-written migration is not the one the
    generator writes for its model.

    ** Conventions

    - Integers are [Z]; where Go's width matters (durations, SHA-256 words, JSON
      literals, levels) the wrap or the range test is written out.  Strings are
      bytes; decoding to runes is written out where Go ranges over a string.
    - Errors are values: [result] for [(T, error)], inductive error types that keep
      what [errors.Is] can see.
    - The world is an argument: clocks, entropy, the environment, files, standard
      input, writers that fail, a database that fails at the nth call, the order in
      which a map is ranged over, the answers of user callbacks.
    - Concurrency: a method that holds its mutex throughout is one atomic step, and
      an interleaving is a list of steps; [Health] splits what the code splits.
    - Map iteration is taken in every order the code could see: by an argument or by
      a theorem for all permutations.
    - Hypotheses on code outside [src/] (the formatter, URL and media-type parsing,
      Unicode tables, Gin's writer) are [Context] of a section or fields of a class,
      and each has a concrete instance in the witnesses.

    ** Fuel

    Recursion that is not structural carries fuel, always from the input, and every
    use starts with enough of it: flag parsing uses the number of arguments (a round
    consumes one, [Flag.parse_rounds_fuel]) and interspersing one more; the JSON
    parser uses the input's length plus one (each call reads a byte; the round trip
    theorem holds at that fuel); durations use the length of their text (each group
    reads a digit), slugs one more (a round of [squeeze] shortens the text), rename
    answers one more (each question reads a line); the dollar-quote tag uses one
    more than the longest value, since a tag cannot occur in a text shorter than
    itself ([DialectSpec.dollarQuoteTag_fresh]).  A template is split with one more
    than its length, since every part consumes a byte; the folders above a path are
    found with the length of the path ([Paths.ancestors_ups]); the walk of the
    type graph uses one more than there are types, since it enters none twice
    ([ApiCheck.offenders_exact]), and a chain of aliases their number.  Versions are bounded by the year
    9999 of their fourteen-digit form: [VersionSpec.canonical n] says a version
    leaves room for [n] bumps, and the theorems on runs assume room for as many
    bumps as there are modules.

    ** Not modelled

    - Inside [authredis] and [authpg]: the Redis server and the SQL engine, which are
      classes with the documented behaviour as laws; URL parsing and [Close], which
      belong to the client library; the contexts, which only decide whether a reply
      arrives.
    - Go's parser, the [go] command, [packages.Load], the printer of types, the YAML
      decoder and the JSON Schema engine are arguments of the definitions that call
      them; [//line] comments and symbolic links are not part of the disk.
    - [router.go] and [doc.go] hold aliases of Gin's types and prose.
    - Tests and scripts are not part of the framework; [main] of the example only
      composes what is modelled.
    - Gin, [net/http], SQL drivers, the OS and [log/slog] are seen only through what
      the code observes of them; panics of [MustLoad] and template output of
      [flag.PrintDefaults] are arguments or left out where noted in each file.
*)

From Stdlib Require Export Ascii String.
From Stdlib Require Export ZArith Lia.
From stdpp Require Export base list gmap strings sorting fin_maps pretty.

#[global] Open Scope Z_scope.
#[global] Open Scope string_scope.
#[global] Open Scope list_scope.
#[global] Open Scope nat_scope.

#[global] Set Default Proof Using "Type".
#[global] Set Warnings "-clear-no-such-hyp,-register-all".

#[global] Arguments String.append !_ _ / : simpl nomatch.

(** ** Results: Go's [(value, error)] pairs.

    A Go function returning [(T, error)] returns either a value or an error the
    caller must look at; [result E A] is that sum, with stdpp's monad notation
    ([x ← m; k]) for the [if err != nil { return ..., err }] chain. *)

Inductive result (E A : Type) : Type :=
| Ok (a : A)
| Err (e : E).
Arguments Ok {E A} a.
Arguments Err {E A} e.

#[global] Instance result_ret {E} : MRet (result E) := λ A a, Ok a.
#[global] Instance result_bind {E} : MBind (result E) := λ A B f m,
  match m with Ok a => f a | Err e => Err e end.
#[global] Instance result_fmap {E} : FMap (result E) := λ A B f m,
  match m with Ok a => Ok (f a) | Err e => Err e end.

Definition is_ok {E A} (r : result E A) : bool :=
  match r with Ok _ => true | Err _ => false end.

Lemma result_bind_ok {E A B} (m : result E A) (f : A → result E B) b :
  m ≫= f = Ok b ↔ ∃ a, m = Ok a ∧ f a = Ok b.
Proof. destruct m as [a|e]; cbn; split; [by eauto|by intros (?&[= ->]&?)|done|by intros (?&[=]&?)]. Qed.

Lemma result_bind_err {E A B} (m : result E A) (f : A → result E B) e :
  m ≫= f = Err e ↔ m = Err e ∨ ∃ a, m = Ok a ∧ f a = Err e.
Proof.
  destruct m as [a|e']; cbn; split; [by eauto|by intros [[=]|(?&[= ->]&?)]| |].
  - intros [= ->]; by left.
  - by intros [[= ->]|(?&[=]&?)].
Qed.

(** [map_result f l] is the loop [for _, x := range l { y, err := f(x); ... }]
    that stops at the first error. *)
Fixpoint map_result {E A B} (f : A → result E B) (l : list A) : result E (list B) :=
  match l with
  | [] => Ok []
  | x :: l' => y ← f x; ys ← map_result f l'; Ok (y :: ys)
  end.

Lemma map_result_ok {E A B} (f : A → result E B) l ys :
  map_result f l = Ok ys ↔ Forall2 (λ x y, f x = Ok y) l ys.
Proof.
  revert ys; induction l as [|x l IH]; intros ys; cbn.
  - split; [intros [= <-]; constructor | inversion 1; done].
  - rewrite result_bind_ok. split.
    + intros (y & Hy & Hk). apply result_bind_ok in Hk as (ys' & Hys & [= <-]).
      constructor; [done | by apply IH].
    + inversion 1 as [|? y ? ys' Hy Hys]; subst. exists y; split; [done|].
      apply IH in Hys. rewrite Hys. done.
Qed.

Lemma map_result_map {E A B} (f : A → result E B) (g : A → B) l :
  (∀ x, x ∈ l → f x = Ok (g x)) → map_result f l = Ok (map g l).
Proof.
  induction l as [|x l IH]; cbn; intros H; [done|].
  rewrite H by set_solver. cbn. rewrite IH by set_solver. done.
Qed.

Lemma map_result_total {E A B} (f : A → result E B) l :
  (∀ x, x ∈ l → ∃ y, f x = Ok y) → ∃ ys, map_result f l = Ok ys.
Proof.
  induction l as [|x l IH]; cbn; intros H; [by eauto|].
  destruct (H x ltac:(set_solver)) as [y ->]. cbn.
  destruct IH as [ys ->]; [intros z Hz; apply H; set_solver|]. cbn. eauto.
Qed.

(** ** Automation *)

Create HintDb fabrin discriminated.
#[export] Hint Constants Transparent : fabrin.
Create Rewrite HintDb gobool.
#[export] Hint Rewrite andb_true_iff andb_false_iff orb_true_iff orb_false_iff
  negb_true_iff negb_false_iff bool_decide_eq_true bool_decide_eq_false
  String.eqb_eq String.eqb_neq Z.eqb_eq Z.eqb_neq Z.ltb_lt Z.ltb_ge Z.leb_le Z.leb_gt
  Nat.eqb_eq Nat.eqb_neq Nat.ltb_lt Nat.ltb_ge Nat.leb_le Nat.leb_gt : gobool.

(** Turn boolean tests of the code into the propositions they decide. *)
Ltac boolify := autorewrite with gobool in *.

(** Case analysis on the innermost [match]/[if] of the goal or a hypothesis. *)
Ltac case_inner t :=
  lazymatch t with
  | context [match ?x with _ => _ end] => case_inner x
  | _ => let E := fresh "E" in destruct t eqn:E
  end.
Ltac split_match :=
  match goal with
  | |- context [match ?x with _ => _ end] => case_inner x
  end.
Ltac split_match_in H :=
  match type of H with
  | context [match ?x with _ => _ end] => case_inner x
  end.

(** Split hypotheses that are conjunctions, existentials or pairs. *)
Ltac destruct_hyps :=
  repeat match goal with
  | H : _ ∧ _ |- _ => destruct H
  | H : ∃ _, _ |- _ => destruct H
  end.

(** ** Byte strings in Go's order

    Go compares strings bytewise and lexicographically; Stdlib's
    [String.compare] is that order on byte lists. *)

Definition str_ltb (a b : string) : bool :=
  match String.compare a b with Lt => true | _ => false end.
Definition str_leb (a b : string) : bool :=
  match String.compare a b with Gt => false | _ => true end.

Lemma ascii_compare_refl a : Ascii.compare a a = Eq.
Proof. unfold Ascii.compare. apply N.compare_refl. Qed.

Lemma ascii_compare_eq a b : Ascii.compare a b = Eq → a = b.
Proof.
  unfold Ascii.compare. intros H%N.compare_eq_iff.
  by rewrite <-(ascii_N_embedding a), <-(ascii_N_embedding b), H.
Qed.

Lemma str_compare_refl s : String.compare s s = Eq.
Proof. induction s; cbn; [done|]. by rewrite ascii_compare_refl. Qed.

Lemma str_compare_lt_trans a b c :
  String.compare a b = Lt → String.compare b c = Lt → String.compare a c = Lt.
Proof.
  revert b c; induction a as [|x a IH]; intros [|y b] [|z c]; cbn; try done.
  destruct (Ascii.compare x y) eqn:Exy; [| |done].
  - apply ascii_compare_eq in Exy as ->. destruct (Ascii.compare y z); eauto.
  - destruct (Ascii.compare y z) eqn:Eyz; [| |done]; intros _ Hc.
    + apply ascii_compare_eq in Eyz as <-. by rewrite Exy.
    + enough (Ascii.compare x z = Lt) as -> by done.
      unfold Ascii.compare in *. rewrite N.compare_lt_iff in *. lia.
Qed.

Lemma str_ltb_irrefl s : str_ltb s s = false.
Proof. unfold str_ltb. by rewrite str_compare_refl. Qed.

Lemma str_ltb_trans a b c : str_ltb a b = true → str_ltb b c = true → str_ltb a c = true.
Proof.
  unfold str_ltb. intros H1 H2.
  rewrite (str_compare_lt_trans a b c); [done| |].
  - by destruct (String.compare a b).
  - by destruct (String.compare b c).
Qed.

Lemma str_leb_ltb a b : str_leb a b = negb (str_ltb b a).
Proof.
  unfold str_leb, str_ltb. rewrite (String.compare_antisym a b).
  by destruct (String.compare b a).
Qed.

Lemma str_ltb_antisym a b : str_ltb a b = true → str_ltb b a = false.
Proof.
  unfold str_ltb. rewrite (String.compare_antisym b a).
  by destruct (String.compare a b).
Qed.

Lemma str_ltb_total a b : str_ltb a b = false → str_ltb b a = false → a = b.
Proof.
  unfold str_ltb. rewrite (String.compare_antisym b a).
  destruct (String.compare a b) eqn:E; [|done|done].
  by intros; apply String.compare_eq_iff.
Qed.

Lemma str_leb_refl a : str_leb a a = true.
Proof. by rewrite str_leb_ltb, str_ltb_irrefl. Qed.

Lemma str_leb_total a b : str_leb a b = true ∨ str_leb b a = true.
Proof.
  rewrite !str_leb_ltb. destruct (str_ltb b a) eqn:E; [|by left].
  right. by rewrite (str_ltb_antisym _ _ E).
Qed.

Lemma str_leb_antisym a b : str_leb a b = true → str_leb b a = true → a = b.
Proof.
  rewrite !str_leb_ltb, !negb_true_iff. intros. by apply str_ltb_total.
Qed.

Lemma str_leb_trans a b c : str_leb a b = true → str_leb b c = true → str_leb a c = true.
Proof.
  rewrite !str_leb_ltb, !negb_true_iff. intros H1 H2.
  destruct (str_ltb c a) eqn:E; [|done].
  destruct (str_ltb a b) eqn:E'.
  - by rewrite (str_ltb_trans _ _ _ E E') in H2.
  - rewrite (str_ltb_total _ _ E' H1) in *. congruence.
Qed.

#[export] Hint Resolve str_leb_refl str_ltb_irrefl str_leb_total str_leb_antisym
  str_leb_trans str_ltb_trans str_ltb_antisym : fabrin.

(** ** Sorting: [slices.SortFunc] and [sort.Slice]

    Both are unstable pattern-defeating quicksorts; all a caller may rely on is
    a sorted permutation of the input.  [sort_by] computes one; [sort_by_unique]
    shows that it is the only one whenever the comparison separates the
    elements, so no choice of algorithm can change what the code computes. *)

Section sort.
Context {A : Type} (leb : A → A → bool).

Fixpoint insert_by (x : A) (l : list A) : list A :=
  match l with
  | [] => [x]
  | y :: l' => if leb x y then x :: l else y :: insert_by x l'
  end.

Fixpoint sort_by (l : list A) : list A :=
  match l with
  | [] => []
  | x :: l' => insert_by x (sort_by l')
  end.

Lemma insert_by_perm x l : insert_by x l ≡ₚ x :: l.
Proof.
  induction l as [|y l IH]; cbn; [done|]. destruct (leb x y); [done|].
  rewrite IH. constructor.
Qed.

Lemma sort_by_perm l : sort_by l ≡ₚ l.
Proof. induction l as [|x l IH]; cbn; [done|]. by rewrite insert_by_perm, IH. Qed.

Lemma elem_of_sort_by x l : x ∈ sort_by l ↔ x ∈ l.
Proof. by rewrite sort_by_perm. Qed.

Lemma length_sort_by l : length (sort_by l) = length l.
Proof. by rewrite sort_by_perm. Qed.

Definition le_by (x y : A) : Prop := leb x y = true.

Hypothesis leb_total : ∀ x y, leb x y = true ∨ leb y x = true.
Hypothesis leb_trans : ∀ x y z, leb x y = true → leb y z = true → leb x z = true.

Lemma insert_by_sorted x l : StronglySorted le_by l → StronglySorted le_by (insert_by x l).
Proof using leb_total leb_trans.
  induction 1 as [|y l Hs IH Hall]; cbn; [repeat constructor|].
  destruct (leb x y) eqn:E.
  - constructor; [by constructor|]. constructor; [done|].
    eapply Forall_impl; [done|]. unfold le_by; eauto.
  - constructor; [done|]. rewrite insert_by_perm. constructor; [|done].
    unfold le_by. destruct (leb_total x y); congruence.
Qed.

Lemma sort_by_sorted l : StronglySorted le_by (sort_by l).
Proof using leb_total leb_trans.
  induction l; cbn; [constructor|]. by apply insert_by_sorted.
Qed.

Lemma sort_by_unique l1 l2 :
  (∀ x y, x ∈ l1 → y ∈ l1 → leb x y = true → leb y x = true → x = y) →
  l1 ≡ₚ l2 → StronglySorted le_by l2 → l2 = sort_by l1.
Proof using leb_total leb_trans.
  intros Hanti Hperm Hs. eapply StronglySorted_unique_strong; [| exact Hs | |].
  - intros x y Hx Hy. apply Hanti; [by rewrite Hperm|by rewrite <-elem_of_sort_by].
  - apply sort_by_sorted.
  - by rewrite sort_by_perm.
Qed.

Lemma sort_by_permutation_invariant l1 l2 :
  (∀ x y, x ∈ l1 → y ∈ l1 → leb x y = true → leb y x = true → x = y) →
  l1 ≡ₚ l2 → sort_by l1 = sort_by l2.
Proof using leb_total leb_trans.
  intros Hanti Hperm. symmetry. apply sort_by_unique; [done| |apply sort_by_sorted].
  by rewrite sort_by_perm.
Qed.

Lemma sort_by_id l : StronglySorted le_by l → sort_by l = l.
Proof.
  induction 1 as [|x l Hs IH Hall]; cbn; [done|]. rewrite IH.
  destruct l as [|y l]; cbn; [done|]. inversion Hall as [|? ? Hxy]; subst.
  unfold le_by in Hxy. by rewrite Hxy.
Qed.
End sort.

(** Sorting commutes with a map that preserves the comparison. *)
Lemma insert_by_map {A B} (f : A → B) (lea : A → A → bool) (leb : B → B → bool) x l :
  (∀ a b, leb (f a) (f b) = lea a b) → insert_by leb (f x) (map f l) = map f (insert_by lea x l).
Proof. intros H. induction l as [|y l IH]; [done|]. cbn. rewrite H. destruct (lea x y); cbn; by rewrite ?IH. Qed.

Lemma sort_by_map {A B} (f : A → B) (lea : A → A → bool) (leb : B → B → bool) l :
  (∀ a b, leb (f a) (f b) = lea a b) → sort_by leb (map f l) = map f (sort_by lea l).
Proof. intros H. induction l as [|x l IH]; [done|]. cbn. rewrite IH. by apply insert_by_map. Qed.

Lemma ssorted_impl {A} (R S : relation A) l :
  (∀ a b, R a b → S a b) → StronglySorted R l → StronglySorted S l.
Proof.
  intros H. induction 1 as [|a l Hs IH Hall]; constructor; [done|].
  eapply Forall_impl; [exact Hall|]. auto.
Qed.

Lemma StronglySorted_filter_bool {A} (R : relation A) (p : A → bool) l :
  StronglySorted R l → StronglySorted R (List.filter p l).
Proof.
  induction 1 as [|x l Hs IH Hall]; cbn; [constructor|].
  destruct (p x); [|done]. constructor; [done|].
  rewrite Forall_forall in *. intros y Hy. apply Hall.
  apply list_elem_of_In, filter_In in Hy as [Hy _]. by apply list_elem_of_In.
Qed.

(** ** Keyed replays

    Many components apply a list of operations, each addressed to one key, to a
    finite map.  If the operations addressed to every single key succeed on that
    key's value, the whole replay succeeds and acts key by key. *)

Section keyed.
Context {O V : Type} (step : O → option V → option (option V)).

(** Replay on one key. *)
Fixpoint replay1 (ops : list O) (v : option V) : option (option V) :=
  match ops with
  | [] => Some v
  | o :: ops' => v' ← step o v; replay1 ops' v'
  end.

Lemma replay1_app l1 l2 v :
  replay1 (l1 ++ l2) v = (v' ← replay1 l1 v; replay1 l2 v').
Proof.
  revert v; induction l1 as [|o l1 IH]; intros v; cbn; [done|].
  destruct (step o v); cbn; [apply IH|done].
Qed.

Context (key : O → string).

Definition key_step (o : O) (m : gmap string V) : option (gmap string V) :=
  v ← step o (m !! key o);
  Some (partial_alter (λ _, v) (key o) m).

Fixpoint key_replay (ops : list O) (m : gmap string V) : option (gmap string V) :=
  match ops with
  | [] => Some m
  | o :: ops' => m' ← key_step o m; key_replay ops' m'
  end.

Definition at_key (k : string) (ops : list O) : list O :=
  List.filter (λ o, String.eqb (key o) k) ops.

Lemma at_key_app k l1 l2 : at_key k (l1 ++ l2) = at_key k l1 ++ at_key k l2.
Proof. apply List.filter_app. Qed.

Lemma key_replay_app l1 l2 m :
  key_replay (l1 ++ l2) m = (m' ← key_replay l1 m; key_replay l2 m').
Proof.
  revert m; induction l1 as [|o l1 IH]; intros m; cbn; [done|].
  destruct (key_step o m); cbn; [apply IH|done].
Qed.

(** A replay that succeeds acts on each key as the operations at that key. *)
Lemma key_replay_lookup ops m m' k :
  key_replay ops m = Some m' → replay1 (at_key k ops) (m !! k) = Some (m' !! k).
Proof.
  revert m; induction ops as [|o ops IH]; cbn; intros m; [by intros [= ->]|].
  intros (m1 & H1 & H2)%bind_Some. unfold key_step in H1.
  apply bind_Some in H1 as (v & Hv & [= <-]).
  specialize (IH _ H2). destruct (String.eqb_spec (key o) k) as [<-|Hne]; cbn.
  - rewrite Hv. cbn. by rewrite lookup_partial_alter_eq in IH.
  - by rewrite lookup_partial_alter_ne in IH.
Qed.

(** Conversely, success at every key makes the whole replay succeed. *)
Lemma key_replay_spec ops m (target : string → option V) :
  (∀ k, replay1 (at_key k ops) (m !! k) = Some (target k)) →
  ∃ m', key_replay ops m = Some m' ∧ ∀ k, m' !! k = target k.
Proof.
  revert m; induction ops as [|o ops IH]; cbn; intros m Hk.
  - exists m; split; [done|]. intros k. specialize (Hk k). congruence.
  - pose proof (Hk (key o)) as Ho. rewrite String.eqb_refl in Ho. cbn in Ho.
    apply bind_Some in Ho as (v & Hv & Hrest). unfold key_step. rewrite Hv. cbn.
    apply IH. intros k. specialize (Hk k).
    destruct (String.eqb_spec (key o) k) as [Heq|Hne].
    + rewrite <-Heq, lookup_partial_alter_eq. exact Hrest.
    + by rewrite lookup_partial_alter_ne.
Qed.
End keyed.

(** ** Small list facts shared by the components *)

Lemma elem_of_filter_bool {A} (p : A → bool) (l : list A) x :
  x ∈ List.filter p l ↔ x ∈ l ∧ p x = true.
Proof. rewrite !list_elem_of_In. apply filter_In. Qed.

Lemma filter_bool_all {A} (p : A → bool) l :
  (∀ x, x ∈ l → p x = true) → List.filter p l = l.
Proof.
  induction l as [|x l IH]; cbn; intros H; [done|].
  rewrite H by set_solver. f_equal. apply IH. set_solver.
Qed.

Lemma filter_bool_none {A} (p : A → bool) l :
  (∀ x, x ∈ l → p x = false) → List.filter p l = [].
Proof.
  induction l as [|x l IH]; cbn; intros H; [done|].
  rewrite H by set_solver. apply IH. set_solver.
Qed.

#[global] Instance filter_bool_perm {A} (p : A → bool) :
  Proper ((≡ₚ) ==> (≡ₚ)) (List.filter p).
Proof.
  intros l1 l2 H. induction H; cbn.
  - done.
  - destruct (p x); [by constructor|done].
  - destruct (p x), (p y); try done. apply Permutation_swap.
  - by etrans.
Qed.

Lemma in_bool_decide (x : string) l : existsb (String.eqb x) l = true ↔ x ∈ l.
Proof.
  rewrite existsb_exists. setoid_rewrite String.eqb_eq. setoid_rewrite <-list_elem_of_In.
  naive_solver.
Qed.

Lemma find_some_elem {A} (p : A → bool) l x :
  List.find p l = Some x → x ∈ l ∧ p x = true.
Proof. rewrite list_elem_of_In. apply find_some. Qed.

(** The entries of a map after a batch of fresh insertions. *)
Lemma map_to_list_batch {V} (l : list (string * V)) (m : gmap string V) :
  NoDup (map fst l) → (∀ kv, kv ∈ l → m !! kv.1 = None) →
  map_to_list (list_to_map l ∪ m) ≡ₚ l ++ map_to_list m.
Proof.
  induction l as [|[k v] l IH]; cbn; intros Hnd Hfr.
  - by rewrite map_empty_union.
  - apply NoDup_cons in Hnd as [Hk Hnd]. rewrite <-insert_union_l, map_to_list_insert.
    + rewrite IH; [done|done|]. intros kv Hkv. apply Hfr. set_solver.
    + apply lookup_union_None. split; [by apply not_elem_of_list_to_map|].
      apply (Hfr (k, v)). set_solver.
Qed.

(** ** Collections indexed by a string key

    Lists whose elements have distinct keys, and the maps Go builds from them. *)

Section index.
Context {A : Type} (key : A → string).

Definition find_key (l : list A) (k : string) : option A :=
  List.find (λ x, String.eqb (key x) k) l.

Lemma find_key_Some l k x : find_key l k = Some x → x ∈ l ∧ key x = k.
Proof. intros [? ?%String.eqb_eq]%find_some_elem. done. Qed.

Lemma find_key_None l k : find_key l k = None ↔ k ∉ map key l.
Proof.
  unfold find_key. induction l as [|x l IH]; cbn; [set_solver|].
  destruct (String.eqb_spec (key x) k); [set_solver|]. rewrite IH. set_solver.
Qed.

Lemma find_key_elem l x : NoDup (map key l) → x ∈ l → find_key l (key x) = Some x.
Proof.
  unfold find_key. induction l as [|y l IH]; cbn; [set_solver|].
  rewrite NoDup_cons, elem_of_cons. intros [Hy Hnd] [->|Hx].
  - by rewrite String.eqb_refl.
  - destruct (String.eqb_spec (key y) (key x)) as [E|_]; [|auto].
    destruct Hy. rewrite E. apply list_elem_of_fmap. eauto.
Qed.

Lemma filter_key_find l k :
  NoDup (map key l) →
  List.filter (λ x, String.eqb (key x) k) l
  = match find_key l k with Some x => [x] | None => [] end.
Proof.
  unfold find_key. induction l as [|y l IH]; cbn; [done|].
  rewrite NoDup_cons. intros [Hy Hnd].
  destruct (String.eqb_spec (key y) k) as [<-|_]; [|auto]. f_equal.
  apply filter_bool_none. intros x Hx. apply String.eqb_neq. intros E.
  apply Hy. rewrite <-E. apply list_elem_of_fmap. eauto.
Qed.

(** [for _, x := range l { m[key(x)] = x }] *)
Lemma lookup_index_from (l : list A) (m : gmap string A) k :
  NoDup (map key l) →
  foldl (λ out x, <[key x := x]> out) m l !! k
  = match find_key l k with Some x => Some x | None => m !! k end.
Proof.
  unfold find_key. revert m; induction l as [|y l IH]; cbn; intros m; [done|].
  rewrite NoDup_cons. intros [Hy Hnd]. rewrite IH by done.
  destruct (String.eqb_spec (key y) k) as [<-|Hne].
  - destruct (List.find _ l) as [x|] eqn:E.
    + apply find_some_elem in E as [Hx Hk%String.eqb_eq].
      destruct Hy. rewrite <-Hk. apply list_elem_of_fmap. eauto.
    + by rewrite lookup_insert_eq.
  - by rewrite lookup_insert_ne.
Qed.

Lemma lookup_list_to_map_key {B} (f : A → B) l k :
  NoDup (map key l) →
  (list_to_map (map (λ x, (key x, f x)) l) : gmap string B) !! k = f <$> find_key l k.
Proof.
  unfold find_key. induction l as [|y l IH]; cbn; [done|].
  rewrite NoDup_cons. intros [Hy Hnd].
  destruct (String.eqb_spec (key y) k) as [<-|Hne].
  - by rewrite lookup_insert_eq.
  - rewrite lookup_insert_ne by done. auto.
Qed.
End index.

(** Filtering by key what each element of a keyed list expands to. *)
Lemma filter_flat_map_key {A B} (key : A → string) (kb : B → string) (g : A → list B) l k :
  (∀ x y, x ∈ l → y ∈ g x → kb y = key x) →
  List.filter (λ y, String.eqb (kb y) k) (flat_map g l)
  = flat_map g (List.filter (λ x, String.eqb (key x) k) l).
Proof.
  induction l as [|x l IH]; cbn; intros H; [done|].
  rewrite List.filter_app, IH by (intros; apply H; set_solver).
  destruct (String.eqb_spec (key x) k) as [E|E]; cbn.
  - rewrite filter_bool_all; [done|]. intros y Hy. apply String.eqb_eq.
    rewrite <-E. apply H; set_solver.
  - rewrite filter_bool_none; [done|]. intros y Hy. apply String.eqb_neq.
    rewrite (H x y); set_solver.
Qed.

Lemma elem_of_flat_map {A B} (g : A → list B) l y :
  y ∈ flat_map g l ↔ ∃ x, x ∈ l ∧ y ∈ g x.
Proof. rewrite list_elem_of_In, in_flat_map. setoid_rewrite list_elem_of_In. done. Qed.

Lemma filter_map_comm {A B} (p : B → bool) (f : A → B) l :
  List.filter p (map f l) = map f (List.filter (λ x, p (f x)) l).
Proof. induction l as [|x l IH]; cbn; [done|]. rewrite IH. by destruct (p (f x)). Qed.

Lemma filter_bool_ext {A} (p q : A → bool) l :
  (∀ x, x ∈ l → p x = q x) → List.filter p l = List.filter q l.
Proof.
  induction l as [|x l IH]; cbn; intros H; [done|].
  rewrite H, IH by set_solver. done.
Qed.

Lemma filter_bool_rev {A} (p : A → bool) l : List.filter p (rev l) = rev (List.filter p l).
Proof.
  induction l as [|x l IH]; cbn; [done|]. rewrite List.filter_app, IH. cbn.
  destruct (p x); cbn; [done|]. by rewrite app_nil_r.
Qed.
