(* ===== verification/GoStrings.v ===== *)
(** * Go's string library, as the modelled code uses it

    A Go string is a byte sequence; it is modelled by Stdlib's [string], whose
    characters are 8-bit [ascii] values.  This file defines the functions of
    [strings], [strconv], [unicode/utf8] and [fmt] the program calls, bytewise,
    with UTF-8 decoding written out where Go decodes runes.  The two Unicode
    tables consulted for runes above 127 are the class [Unicode]; below 128 the
    behaviour is concrete. *)

From Stdlib Require Import DecimalString DecimalZ DecimalFacts DecimalPos.
From S2P Require Import Prelude.

(** ** Bytes *)

Definition byte (c : ascii) : Z := Z.of_N (N_of_ascii c).
Definition of_byte (z : Z) : ascii := ascii_of_N (Z.to_N z).

Definition in_range (lo hi : Z) (c : ascii) : bool := (lo <=? byte c)%Z && (byte c <=? hi)%Z.
Definition is_lower (c : ascii) : bool := in_range 97 122 c.
Definition is_upper (c : ascii) : bool := in_range 65 90 c.
Definition is_digit (c : ascii) : bool := in_range 48 57 c.
Definition lower_ascii (c : ascii) : ascii := if is_upper c then of_byte (byte c + 32)%Z else c.
Definition upper_ascii (c : ascii) : ascii := if is_lower c then of_byte (byte c - 32)%Z else c.

Definition quote_char : ascii := "034".
Definition newline : string := String "010" "".
Definition tab : string := String "009" "".
(** The one-character string holding a double quote. *)
Definition dq : string := String quote_char "".

Fixpoint string_forall (p : ascii → bool) (s : string) : bool :=
  match s with
  | "" => true
  | String c s' => p c && string_forall p s'
  end.

Fixpoint string_map (f : ascii → ascii) (s : string) : string :=
  match s with
  | "" => ""
  | String c s' => String (f c) (string_map f s')
  end.

Lemma string_app_nil_r s : s +:+ "" = s.
Proof. induction s; cbn; congruence. Qed.

Lemma string_app_assoc a b c : (a +:+ b) +:+ c = a +:+ (b +:+ c).
Proof. induction a; cbn; congruence. Qed.

Lemma string_length_app a b : String.length (a +:+ b) = String.length a + String.length b.
Proof. induction a; cbn; congruence. Qed.

Lemma string_forall_app p a b :
  string_forall p (a +:+ b) = string_forall p a && string_forall p b.
Proof. induction a; cbn; [done|]. by rewrite IHa, andb_assoc. Qed.

Lemma string_forall_impl (p q : ascii → bool) s :
  (∀ c, p c = true → q c = true) → string_forall p s = true → string_forall q s = true.
Proof.
  intros Hpq. induction s; cbn; [done|]. rewrite !andb_true_iff. naive_solver.
Qed.

Create Rewrite HintDb gostr.
#[export] Hint Rewrite string_app_nil_r string_app_assoc string_length_app
  string_forall_app : gostr.

(** ** Prefixes, suffixes, search *)

Fixpoint HasPrefix (s prefix : string) : bool :=
  match prefix, s with
  | "", _ => true
  | String c prefix', String d s' => Ascii.eqb c d && HasPrefix s' prefix'
  | String _ _, "" => false
  end.

Fixpoint drop_bytes (n : nat) (s : string) : string :=
  match n, s with
  | S n', String _ s' => drop_bytes n' s'
  | _, _ => s
  end.

Fixpoint take_bytes (n : nat) (s : string) : string :=
  match n, s with
  | S n', String c s' => String c (take_bytes n' s')
  | _, _ => ""
  end.

Definition HasSuffix (s suffix : string) : bool :=
  let n := String.length s - String.length suffix in
  (String.length suffix <=? String.length s)%nat && String.eqb (drop_bytes n s) suffix.

Definition TrimPrefix (s prefix : string) : string :=
  if HasPrefix s prefix then drop_bytes (String.length prefix) s else s.

Fixpoint Contains (s sub : string) : bool :=
  HasPrefix s sub || match s with "" => false | String _ s' => Contains s' sub end.

Fixpoint contains_byte (c : ascii) (s : string) : bool :=
  match s with
  | "" => false
  | String d s' => Ascii.eqb d c || contains_byte c s'
  end.

Definition ContainsAny (s chars : string) : bool :=
  negb (string_forall (λ c, negb (contains_byte c chars)) s).

Lemma HasPrefix_spec s p : HasPrefix s p = true ↔ ∃ r, s = p +:+ r.
Proof.
  revert p; induction s as [|d s IH]; intros [|c p]; cbn.
  - split; [by exists ""|done].
  - split; [done|by intros [r [=]]].
  - split; [by exists (String d s)|done].
  - rewrite andb_true_iff, IH, Ascii.eqb_eq. split.
    + intros [-> [r ->]]. by exists r.
    + intros [r [= -> ->]]. eauto.
Qed.

Lemma Contains_spec s sub : Contains s sub = true ↔ ∃ a b, s = a +:+ (sub +:+ b).
Proof.
  induction s as [|c s IH]; cbn -[HasPrefix]; rewrite orb_true_iff, HasPrefix_spec.
  - split.
    + intros [[r Hr]|]; [|done]. by exists "", r.
    + intros (a & b & H). left. exists b. by destruct a.
  - rewrite IH. split.
    + intros [[r Hr]|(a & b & ->)]; [by exists "", r|by exists (String c a), b].
    + intros ([|d a] & b & H); [left; by exists b|right]. injection H as -> ->. by exists a, b.
Qed.

Lemma Contains_length s sub :
  Contains s sub = true → String.length sub ≤ String.length s.
Proof.
  rewrite Contains_spec. intros (a & b & ->). rewrite !string_length_app. lia.
Qed.

Lemma take_drop_bytes n s : take_bytes n s +:+ drop_bytes n s = s.
Proof. revert n; induction s; intros [|n]; cbn; [done..|]. by rewrite IHs. Qed.

Lemma length_take_bytes n s : String.length (take_bytes n s) = Nat.min n (String.length s).
Proof. revert n; induction s; intros [|n]; cbn; [done..|]. by rewrite IHs. Qed.

Lemma length_drop_bytes n s : String.length (drop_bytes n s) = String.length s - n.
Proof. revert n; induction s; intros [|n]; cbn; [done..|]. by rewrite IHs. Qed.

Lemma string_forall_take p n s :
  string_forall p s = true → string_forall p (take_bytes n s) = true.
Proof.
  revert n; induction s; intros [|n]; cbn; try done.
  rewrite !andb_true_iff. naive_solver.
Qed.

Lemma string_forall_drop p n s :
  string_forall p s = true → string_forall p (drop_bytes n s) = true.
Proof.
  revert n; induction s; intros [|n]; cbn; try done.
  rewrite !andb_true_iff. naive_solver.
Qed.

Definition no_byte (c : ascii) (s : string) : bool := string_forall (λ d, negb (Ascii.eqb d c)) s.

(** [strings.Cut s sep] for a one-byte separator. *)
Fixpoint CutByte (sep : ascii) (s : string) : option (string * string) :=
  match s with
  | "" => None
  | String c s' =>
      if Ascii.eqb c sep then Some ("", s')
      else '(a, b) ← CutByte sep s'; Some (String c a, b)
  end.

(** [strings.Cut]. *)
Fixpoint Cut (s sep : string) : option (string * string) :=
  if HasPrefix s sep then Some ("", drop_bytes (String.length sep) s)
  else match s with
       | "" => None
       | String c s' => '(a, b) ← Cut s' sep; Some (String c a, b)
       end.

(** [strings.Split s sep] for a one-byte separator: never empty. *)
Fixpoint SplitByte (sep : ascii) (s : string) : list string :=
  match s with
  | "" => [""]
  | String c s' =>
      if Ascii.eqb c sep then "" :: SplitByte sep s'
      else match SplitByte sep s' with
           | w :: ws => String c w :: ws
           | [] => [String c ""]
           end
  end.

Fixpoint Join (l : list string) (sep : string) : string :=
  match l with
  | [] => ""
  | [x] => x
  | x :: l' => x +:+ sep +:+ Join l' sep
  end.

(** [strings.ReplaceAll s old new] for a one-byte [old]. *)
Fixpoint ReplaceByte (old : ascii) (new : string) (s : string) : string :=
  match s with
  | "" => ""
  | String c s' =>
      if Ascii.eqb c old then new +:+ ReplaceByte old new s'
      else String c (ReplaceByte old new s')
  end.

(** ** Trimming *)

Fixpoint trim_left (p : ascii → bool) (s : string) : string :=
  match s with
  | String c s' => if p c then trim_left p s' else s
  | "" => ""
  end.

Definition string_rev (s : string) : string :=
  string_of_list_ascii (rev (list_ascii_of_string s)).

Definition trim_right (p : ascii → bool) (s : string) : string :=
  string_rev (trim_left p (string_rev s)).

(** [strings.Trim s cutset] for ASCII cutsets. *)
Definition Trim (s cutset : string) : string :=
  trim_right (λ c, contains_byte c cutset) (trim_left (λ c, contains_byte c cutset) s).

(** [unicode.IsSpace] on the encodings of the white-space runes, of one, two
    and three bytes.  UTF-8 is self-synchronising, so testing the first bytes
    (or, from the right, the last bytes) for these sequences is decoding. *)
Definition space1 (c : ascii) : bool := in_range 9 13 c || (byte c =? 32)%Z.
Definition space2 (c d : ascii) : bool :=
  (byte c =? 194)%Z && ((byte d =? 133)%Z || (byte d =? 160)%Z).
Definition space3 (c d e : ascii) : bool :=
  ((byte c =? 225)%Z && (byte d =? 154)%Z && (byte e =? 128)%Z)
  || ((byte c =? 226)%Z && (byte d =? 128)%Z
      && (in_range 128 138 e || (byte e =? 168)%Z || (byte e =? 169)%Z || (byte e =? 175)%Z))
  || ((byte c =? 226)%Z && (byte d =? 129)%Z && (byte e =? 159)%Z)
  || ((byte c =? 227)%Z && (byte d =? 128)%Z && (byte e =? 128)%Z).

Fixpoint trim_space_left (s : string) : string :=
  match s with
  | "" => ""
  | String c s1 =>
      if space1 c then trim_space_left s1 else
      match s1 with
      | String d s2 =>
          if space2 c d then trim_space_left s2 else
          match s2 with
          | String e s3 => if space3 c d e then trim_space_left s3 else s
          | "" => s
          end
      | "" => s
      end
  end.

(** On the reversed string the bytes of a rune come last first. *)
Fixpoint trim_space_rev (s : string) : string :=
  match s with
  | "" => ""
  | String c s1 =>
      if space1 c then trim_space_rev s1 else
      match s1 with
      | String d s2 =>
          if space2 d c then trim_space_rev s2 else
          match s2 with
          | String e s3 => if space3 e d c then trim_space_rev s3 else s
          | "" => s
          end
      | "" => s
      end
  end.

Definition TrimSpace (s : string) : string :=
  string_rev (trim_space_rev (string_rev (trim_space_left s))).

Definition blank (s : string) : bool := String.eqb (TrimSpace s) "".

(** ** UTF-8

    [utf8.DecodeRuneInString]: the rune and its width; an invalid sequence is
    [RuneError] of width one. *)

Definition RuneError : Z := 65533.
Definition cont (c : ascii) : bool := in_range 128 191 c.

Definition decode_rune (c : ascii) (s : string) : Z * nat :=
  let b0 := byte c in
  let bits (c : ascii) := Z.land (byte c) 63 in
  if (b0 <? 128)%Z then (b0, 1) else
  match s with
  | "" => (RuneError, 1)
  | String c1 s1 =>
      if in_range 194 223 c then
        if cont c1 then (Z.lor (Z.shiftl (Z.land b0 31) 6) (bits c1), 2) else (RuneError, 1)
      else
      match s1 with
      | "" => (RuneError, 1)
      | String c2 s2 =>
          if in_range 224 239 c then
            let lo := if (b0 =? 224)%Z then 160%Z else 128%Z in
            let hi := if (b0 =? 237)%Z then 159%Z else 191%Z in
            if in_range lo hi c1 && cont c2 then
              (Z.lor (Z.shiftl (Z.land b0 15) 12) (Z.lor (Z.shiftl (bits c1) 6) (bits c2)), 3)
            else (RuneError, 1)
          else
          match s2 with
          | "" => (RuneError, 1)
          | String c3 _ =>
              if in_range 240 244 c then
                let lo := if (b0 =? 240)%Z then 144%Z else 128%Z in
                let hi := if (b0 =? 244)%Z then 143%Z else 191%Z in
                if in_range lo hi c1 && cont c2 && cont c3 then
                  (Z.lor (Z.shiftl (Z.land b0 7) 18)
                     (Z.lor (Z.shiftl (bits c1) 12)
                        (Z.lor (Z.shiftl (bits c2) 6) (bits c3))), 4)
                else (RuneError, 1)
              else (RuneError, 1)
          end
      end
  end.

(** [for _, r := range s]: each step yields the rune and its width in bytes; the
    bytes a rune covers are skipped. *)
Fixpoint runes_skip (skip : nat) (s : string) : list (Z * nat) :=
  match s with
  | "" => []
  | String c s' =>
      match skip with
      | S n => runes_skip n s'
      | O => let '(r, w) := decode_rune c s' in (r, w) :: runes_skip (w - 1) s'
      end
  end.
Definition runes (s : string) : list (Z * nat) := runes_skip 0 s.

(** [utf8.AppendRune]. *)
Definition encode_rune (r : Z) : string :=
  let b (z : Z) (rest : string) := String (of_byte z) rest in
  let r := if ((r <? 0) || (1114111 <? r) || ((55296 <=? r) && (r <=? 57343)))%Z
           then RuneError else r in
  if (r <? 128)%Z then b r ""
  else if (r <? 2048)%Z then b (192 + Z.shiftr r 6)%Z (b (128 + Z.land r 63)%Z "")
  else if (r <? 65536)%Z then
    b (224 + Z.shiftr r 12)%Z
      (b (128 + Z.land (Z.shiftr r 6) 63)%Z (b (128 + Z.land r 63)%Z ""))
  else b (240 + Z.shiftr r 18)%Z (b (128 + Z.land (Z.shiftr r 12) 63)%Z
         (b (128 + Z.land (Z.shiftr r 6) 63)%Z (b (128 + Z.land r 63)%Z ""))).

(** Go's Unicode tables, consulted only for runes above 127. *)
Class Unicode := {
  table_to_lower : Z → Z;
  table_is_print : Z → bool;
}.

(** Tables that map every non-ASCII rune to itself and call it printable. *)
Definition identity_tables : Unicode :=
  {| table_to_lower := λ r, r; table_is_print := λ _, true |}.

Definition is_ascii (s : string) : bool := string_forall (λ c, (byte c <? 128)%Z) s.

Section unicode.
Context `{Unicode}.

Definition to_lower (r : Z) : Z :=
  if (r <? 128)%Z then (if ((65 <=? r) && (r <=? 90))%Z then r + 32 else r)%Z
  else table_to_lower r.

(** [strings.ToLower]: the ASCII fast path, and [strings.Map] otherwise. *)
Definition ToLower (s : string) : string :=
  if is_ascii s then string_map lower_ascii s
  else String.concat "" (map (λ '(r, _), encode_rune (to_lower r)) (runes s)).

Definition is_print (r : Z) : bool :=
  if (r <? 128)%Z then ((32 <=? r) && (r <? 127))%Z else table_is_print r.
End unicode.

(** ** Numbers and quoting *)

Definition Itoa (z : Z) : string := NilZero.string_of_int (Z.to_int z).

(** [strconv.ParseInt(s, 10, 64)] on the literals the callers pass (no leading
    plus sign). *)
Definition Atoi (s : string) : option Z :=
  i ← NilZero.int_of_string s;
  let z := Z.of_int i in
  if ((-9223372036854775808 <=? z) && (z <=? 9223372036854775807))%Z then Some z else None.

Definition len (s : string) : Z := Z.of_nat (String.length s).

Definition hex_digit (z : Z) : ascii :=
  if (z <? 10)%Z then of_byte (48 + z)%Z else of_byte (87 + z)%Z.

(** The [n] low hexadecimal digits of [z]. *)
Fixpoint hex_fixed (n : nat) (z : Z) : string :=
  match n with
  | O => ""
  | S n' => hex_fixed n' (Z.shiftr z 4) +:+ String (hex_digit (Z.land z 15)) ""
  end.

Section quote.
Context `{Unicode}.

(** One step of [strconv.Quote]: [raw] is the text of the rune. *)
Definition quote_rune (raw : string) (r : Z) (w : nat) : string :=
  if ((r =? RuneError)%Z && (w =? 1)%nat) then
    "\x" +:+ match raw with String c _ => hex_fixed 2 (byte c) | "" => "" end
  else if (r =? 34)%Z then "\" +:+ dq
  else if (r =? 92)%Z then "\\"
  else if is_print r then raw
  else if (r =? 7)%Z then "\a" else if (r =? 8)%Z then "\b"
  else if (r =? 12)%Z then "\f" else if (r =? 10)%Z then "\n"
  else if (r =? 13)%Z then "\r" else if (r =? 9)%Z then "\t"
  else if (r =? 11)%Z then "\v"
  else if ((r <? 32) || (r =? 127))%Z then "\x" +:+ hex_fixed 2 r
  else if (r <? 65536)%Z then "\u" +:+ hex_fixed 4 r
  else "\U" +:+ hex_fixed 8 r.

Fixpoint quote_skip (skip : nat) (s : string) : string :=
  match s with
  | "" => ""
  | String c s' =>
      match skip with
      | S n => quote_skip n s'
      | O => let '(r, w) := decode_rune c s' in
             quote_rune (take_bytes w s) r w +:+ quote_skip (w - 1) s'
      end
  end.

(** [strconv.Quote], also what [fmt]'s [%q] prints for a string. *)
Definition Quote (s : string) : string := dq +:+ quote_skip 0 s +:+ dq.
End quote.

(** [fmt]'s [%-ns]: padded with spaces to [n] characters. *)
Definition pad_right (n : nat) (s : string) : string :=
  s +:+ string_of_list_ascii (replicate (n - length (runes s)) " "%char).

(** ** Lemmas on trimming and case *)

Lemma string_rev_involutive s : string_rev (string_rev s) = s.
Proof.
  unfold string_rev. rewrite list_ascii_of_string_of_list_ascii, rev_involutive.
  apply string_of_list_ascii_of_string.
Qed.

Lemma string_forall_list p s :
  string_forall p s = forallb p (list_ascii_of_string s).
Proof. induction s; cbn; congruence. Qed.

Lemma string_forall_rev p s : string_forall p (string_rev s) = string_forall p s.
Proof.
  rewrite !string_forall_list. unfold string_rev.
  rewrite list_ascii_of_string_of_list_ascii.
  apply eq_bool_prop_intro. rewrite !Is_true_true, !forallb_forall.
  setoid_rewrite <-in_rev. done.
Qed.

Lemma length_string_rev s : String.length (string_rev s) = String.length s.
Proof.
  assert (∀ l, String.length (string_of_list_ascii l) = length l) as Hl.
  { induction l; cbn; congruence. }
  unfold string_rev. rewrite Hl, length_rev, <-Hl, string_of_list_ascii_of_string. done.
Qed.

Lemma string_forall_trim_left p q s :
  string_forall p s = true → string_forall p (trim_left q s) = true.
Proof.
  induction s; cbn; [done|]. rewrite andb_true_iff. intros [??].
  destruct (q a); [auto|]. cbn. by rewrite andb_true_iff.
Qed.

Lemma string_forall_trim_right p q s :
  string_forall p s = true → string_forall p (trim_right q s) = true.
Proof.
  intros. unfold trim_right. rewrite string_forall_rev.
  apply string_forall_trim_left. by rewrite string_forall_rev.
Qed.

Lemma string_forall_Trim p s cut :
  string_forall p s = true → string_forall p (Trim s cut) = true.
Proof. intros. by apply string_forall_trim_right, string_forall_trim_left. Qed.

Lemma length_trim_left q s : String.length (trim_left q s) ≤ String.length s.
Proof. induction s; cbn; [done|]. destruct (q a); cbn; lia. Qed.

Lemma length_Trim s cut : String.length (Trim s cut) ≤ String.length s.
Proof.
  unfold Trim, trim_right. rewrite length_string_rev.
  etrans; [apply length_trim_left|]. rewrite length_string_rev. apply length_trim_left.
Qed.

Lemma length_hex_fixed n z : String.length (hex_fixed n z) = n.
Proof. revert z; induction n; intros z; cbn; [done|]. rewrite string_length_app, IHn. cbn; lia. Qed.

Lemma Itoa_inj a b : Itoa a = Itoa b → a = b.
Proof.
  intros H. apply DecimalZ.to_int_inj.
  assert (∀ z, NilZero.int_of_string (Itoa z) = Some (Z.to_int z)) as Hi.
  { intros z. unfold Itoa. apply NilZero.isi.
    - destruct z; cbn; [done| |done]. intros [= E]. by apply DecimalPos.Unsigned.to_uint_nonnil in E.
    - destruct z; cbn; [done|done|]. intros [= E]. by apply DecimalPos.Unsigned.to_uint_nonnil in E. }
  pose proof (Hi a) as Ha. rewrite H, Hi in Ha. by injection Ha.
Qed.

Lemma digits_of_uint d : string_forall is_digit (NilEmpty.string_of_uint d) = true.
Proof. induction d; cbn; try done. Qed.

Lemma Itoa_digits z : (0 <= z)%Z → string_forall is_digit (Itoa z) = true.
Proof.
  intros Hz. unfold Itoa. destruct z as [|p|p]; [done| |lia]. cbn.
  unfold NilZero.string_of_uint. destruct (Pos.to_uint p) eqn:E; [done|..];
    rewrite <-E; apply digits_of_uint.
Qed.

Lemma cut_colon d1 d2 x y :
  string_forall is_digit d1 = true → string_forall is_digit d2 = true →
  d1 +:+ String ":" x = d2 +:+ String ":" y → d1 = d2 ∧ x = y.
Proof.
  revert d2; induction d1 as [|a d1 IH]; intros [|b d2]; cbn.
  - by intros _ _ [= ->].
  - rewrite andb_true_iff. intros _ [Hb _] [= <- _]. done.
  - rewrite andb_true_iff. intros [Ha _] _ [= -> _]. done.
  - rewrite !andb_true_iff. intros [_ H1] [_ H2] [= -> H]. destruct (IH d2 H1 H2 H) as [-> ->]. done.
Qed.

Lemma Atoi_Itoa z :
  (-9223372036854775808 <= z <= 9223372036854775807)%Z → Atoi (Itoa z) = Some z.
Proof.
  intros Hz. unfold Atoi, Itoa. rewrite NilZero.isi.
  - cbn. rewrite DecimalZ.of_to.
    rewrite (proj2 (Z.leb_le _ _)) by lia. rewrite (proj2 (Z.leb_le _ _)) by lia. done.
  - destruct z; cbn; [done| |done].
    intros [= H]. by apply Unsigned.to_uint_nonnil in H.
  - destruct z; cbn; [done|done|].
    intros [= H]. by apply Unsigned.to_uint_nonnil in H.
Qed.

(** An ASCII string is its bytes, one rune each. *)
Lemma runes_ascii s : is_ascii s = true → runes s = map (λ c, (byte c, 1%nat)) (list_ascii_of_string s).
Proof.
  unfold is_ascii, runes. induction s as [|c s IH]; [done|]. cbn [string_forall runes_skip].
  intros [Hc Hs]%andb_true_iff. unfold decode_rune. rewrite Hc. cbn [Nat.sub list_ascii_of_string map].
  f_equal. by apply IH.
Qed.

Lemma blank_empty : blank "" = true.
Proof. reflexivity. Qed.

Example TrimSpace_ex : TrimSpace "  a b  " = "a b".
Proof. vm_compute. reflexivity. Qed.
Example Quote_ex : @Quote identity_tables ("a" +:+ dq +:+ newline) = dq +:+ "a\" +:+ dq +:+ "\n" +:+ dq.
Proof. vm_compute. reflexivity. Qed.
Example runes_ex : runes (String "195" (String "169" "a")) = [(233%Z, 2); (97%Z, 1)].
Proof. vm_compute. reflexivity. Qed.
