(* ===== verification/Paths.v ===== *)
(** * Paths: package [path/filepath] on Unix

    [Clean], [Join], [Dir] and [Base], as the generators call them, and what they
    do to names that stay one element of a path. *)

From S2P Require Import Prelude GoStrings.

Fixpoint clean_elems (rooted : bool) (stack : list string) (elems : list string) : list string :=
  match elems with
  | [] => rev stack
  | x :: elems' =>
      if String.eqb x "" || String.eqb x "." then clean_elems rooted stack elems'
      else if String.eqb x ".." then
        match stack with
        | y :: stack' =>
            if String.eqb y ".." then clean_elems rooted (x :: stack) elems'
            else clean_elems rooted stack' elems'
        | [] => clean_elems rooted (if rooted then [] else [x]) elems'
        end
      else clean_elems rooted (x :: stack) elems'
  end.

Definition Clean (path : string) : string :=
  let rooted := HasPrefix path "/" in
  let body := Join (clean_elems rooted [] (SplitByte "/" path)) "/" in
  if rooted then "/" +:+ body else if String.eqb body "" then "." else body.

Definition path_join (elems : list string) : string :=
  match List.filter (λ x, negb (String.eqb x "")) elems with
  | [] => ""
  | l => Clean (Join l "/")
  end.

(** A path up to its last slash, included, and what follows. *)
Fixpoint split_last (s : string) : string * string :=
  match s with
  | "" => ("", "")
  | String c s' =>
      let '(dir, base) := split_last s' in
      if negb (String.eqb dir "") then (String c dir, base)
      else if Ascii.eqb c "/" then ("/", s') else ("", String c s')
  end.

Definition path_Dir (path : string) : string := Clean (fst (split_last path)).
Definition path_Base (path : string) : string :=
  if String.eqb path "" then "."
  else
    let stripped := trim_right (λ c, Ascii.eqb c "/") path in
    if String.eqb stripped "" then "/" else snd (split_last stripped).

(** A name that stays one element of a path. *)
Definition plain (s : string) : Prop :=
  s ≠ "" ∧ s ≠ "." ∧ s ≠ ".." ∧ no_byte "/" s = true.

Lemma SplitByte_single s : no_byte "/" s = true → SplitByte "/" s = [s].
Proof.
  unfold no_byte. induction s as [|c s IH]; [done|]. cbn [string_forall SplitByte].
  intros [Hc Hs]%andb_true_iff. apply negb_true_iff in Hc. by rewrite Hc, IH.
Qed.

Lemma SplitByte_app s t : no_byte "/" s = true → SplitByte "/" (s +:+ String "/" t) = s :: SplitByte "/" t.
Proof.
  unfold no_byte. induction s as [|c s IH]; [done|]. cbn [string_forall String.append SplitByte].
  intros [Hc Hs]%andb_true_iff. apply negb_true_iff in Hc. by rewrite Hc, IH.
Qed.

Lemma SplitByte_Join l :
  l ≠ [] → Forall (λ s, no_byte "/" s = true) l → SplitByte "/" (Join l "/") = l.
Proof.
  intros Hl Hf. induction Hf as [|s l Hs Hf IH]; [done|]. destruct l as [|t l].
  - by apply SplitByte_single.
  - change (Join (s :: t :: l) "/") with (s +:+ String "/" (Join (t :: l) "/")).
    rewrite SplitByte_app by done. by rewrite IH.
Qed.

Lemma Join_inj l l' :
  l ≠ [] → l' ≠ [] → Forall (λ s, no_byte "/" s = true) l → Forall (λ s, no_byte "/" s = true) l' →
  Join l "/" = Join l' "/" → l = l'.
Proof.
  intros H1 H2 Hf Hf' Heq. rewrite <-(SplitByte_Join l), <-(SplitByte_Join l') by done. by rewrite Heq.
Qed.

Lemma clean_elems_plain rooted stack l :
  Forall plain l → clean_elems rooted stack l = rev stack ++ l.
Proof.
  intros Hl. revert stack; induction Hl as [|s l (H1 & H2 & H3 & _) Hl IH]; intros stack; cbn.
  - by rewrite app_nil_r.
  - apply String.eqb_neq in H1, H2, H3. rewrite H1, H2, H3. cbn. rewrite IH. cbn. by rewrite <-app_assoc.
Qed.

Lemma plain_no_slash l : Forall plain l → Forall (λ s, no_byte "/" s = true) l.
Proof. intros H. eapply Forall_impl; [exact H|]. by intros s (_ & _ & _ & ?). Qed.

Lemma Join_head_plain s l :
  plain s → HasPrefix (Join (s :: l) "/") "/" = false ∧ Join (s :: l) "/" ≠ "".
Proof.
  intros (H1 & _ & _ & Hs). destruct s as [|c s]; [done|]. unfold no_byte in Hs.
  cbn [string_forall] in Hs. apply andb_true_iff in Hs as [Hc _]. apply negb_true_iff in Hc.
  assert (∃ x, Join (String c s :: l) "/" = String c x) as [x ->] by (destruct l; cbn; eauto).
  split; [|done]. cbn [HasPrefix]. by rewrite Ascii.eqb_sym, Hc.
Qed.

Lemma Clean_plain l : l ≠ [] → Forall plain l → Clean (Join l "/") = Join l "/".
Proof.
  intros Hne Hl. unfold Clean. rewrite SplitByte_Join by eauto using plain_no_slash.
  rewrite clean_elems_plain by done. cbn [rev app].
  destruct Hl as [|s l Hs Hl]; [done|]. destruct (Join_head_plain s l Hs) as [-> Hj].
  by rewrite (proj2 (String.eqb_neq _ _) Hj).
Qed.

Lemma path_join_plain l : l ≠ [] → Forall plain l → path_join l = Join l "/".
Proof.
  intros Hne Hl. unfold path_join.
  rewrite filter_bool_all; [destruct l; [done|by apply Clean_plain]|].
  intros s Hs. rewrite Forall_forall in Hl. destruct (Hl s Hs) as (H & _).
  by apply negb_true_iff, String.eqb_neq.
Qed.

(** ** Clean paths as lists of elements

    A clean path is a root or none and a list of elements, and the functions of
    [path/filepath] are functions of that list. *)

(** Parent references come first, and only without a root. *)
Definition clean_list (r : bool) (L : list string) : Prop :=
  ∃ n l, L = replicate n ".." ++ l ∧ Forall plain l ∧ (r = true → n = 0).

Definition path_of (r : bool) (L : list string) : string :=
  let body := Join L "/" in
  if r then "/" +:+ body else if String.eqb body "" then "." else body.

Definition rooted (p : string) : bool := HasPrefix p "/".
Definition elems (p : string) : list string := clean_elems (rooted p) [] (SplitByte "/" p).

Lemma Clean_elems p : Clean p = path_of (rooted p) (elems p).
Proof. done. Qed.

Lemma HasPrefix_empty s : HasPrefix s "" = true.
Proof. by destruct s. Qed.
Lemma rooted_slash t : rooted (String "/" t) = true.
Proof. unfold rooted. cbn. apply HasPrefix_empty. Qed.
Lemma rooted_app p t : p ≠ "" → rooted (p +:+ t) = rooted p.
Proof. intros Hp. unfold rooted. destruct p as [|c p]; [done|]. cbn. by rewrite !HasPrefix_empty. Qed.

(** ** Cleaning *)

Definition slashless (s : string) : Prop := no_byte "/" s = true.

Lemma slashless_plain s : plain s → slashless s.
Proof. by intros (_ & _ & _ & ?). Qed.

Lemma SplitByte_slashless s : Forall slashless (SplitByte "/" s).
Proof.
  induction s as [|c s IH]; [by repeat constructor|]. cbn [SplitByte].
  destruct (Ascii.eqb c "/") eqn:Ec; [by constructor|].
  destruct (SplitByte "/" s) as [|w ws]; [constructor; [|done]|].
  - unfold slashless, no_byte. cbn [string_forall]. by rewrite Ec.
  - inversion IH; subst. constructor; [|done]. unfold slashless, no_byte in *. cbn [string_forall].
    by rewrite Ec.
Qed.

Lemma SplitByte_cons_app s t : SplitByte "/" (s +:+ String "/" t) = SplitByte "/" s ++ SplitByte "/" t.
Proof.
  induction s as [|c s IH]; [done|]. cbn [String.append SplitByte]. rewrite IH.
  destruct (Ascii.eqb c "/"); [done|]. destruct (SplitByte "/" s) as [|w ws] eqn:E; [|done].
  exfalso. destruct s; cbn in E; [done|]. repeat case_match; done.
Qed.

Lemma clean_elems_app r s a b :
  clean_elems r s (a ++ b) = clean_elems r (rev (clean_elems r s a)) b.
Proof.
  revert s. induction a as [|x a IH]; intros s; cbn; [by rewrite rev_involutive|].
  repeat case_match; by rewrite IH.
Qed.

Definition dots (n : nat) : list string := replicate n "..".

Lemma clean_dots r n m l :
  (r = true → n = 0 ∧ m = 0) → clean_elems r (dots m) (dots n ++ l) = clean_elems r (dots (n + m)) l.
Proof.
  intros Hr. revert m Hr. induction n as [|n IH]; intros m Hr; [done|].
  destruct r; [by destruct (Hr eq_refl)|]. cbn [dots replicate app clean_elems]. cbn.
  assert (E : clean_elems false (dots (S m)) (dots n ++ l) = clean_elems false (dots (S n + m)) l).
  { rewrite IH by done. by rewrite Nat.add_succ_r. }
  destruct m as [|m]; exact E.
Qed.

Lemma rev_dots n : rev (dots n) = dots n.
Proof.
  unfold dots. induction n as [|n IH]; [done|]. cbn [replicate rev]. rewrite IH.
  by rewrite <-replicate_cons_app.
Qed.

Lemma clean_elems_clean r L : clean_list r L → clean_elems r [] L = L.
Proof.
  intros (n & l & -> & Hl & Hr).
  change [] with (dots 0). fold (dots n). rewrite clean_dots by naive_solver.
  rewrite clean_elems_plain by done. by rewrite rev_dots, Nat.add_0_r.
Qed.

Lemma clean_stack r s xs :
  clean_list r (rev s) → Forall slashless xs → clean_list r (clean_elems r s xs).
Proof.
  intros Hs Hx. revert s Hs. induction Hx as [|x xs Hx _ IH]; intros s Hs; [done|]. cbn [clean_elems].
  destruct (String.eqb_spec x "") as [->|H1]; [by apply IH|].
  destruct (String.eqb_spec x ".") as [->|H2]; [by apply IH|]. cbn [orb].
  destruct (String.eqb_spec x "..") as [->|H3].
  - destruct s as [|y s].
    + destruct r; apply IH; [done|]. exists 1%nat, []. split; [done|]. split; [constructor|done].
    + destruct Hs as (n & l & E & Hl & Hr). destruct l as [|z l _] using rev_ind.
      * rewrite app_nil_r in E. destruct n as [|n]; [cbn in E; by destruct (rev s)|].
        assert (Hy : rev s = dots n ∧ y = "..").
        { cbn [rev] in E. cbn [replicate] in E. rewrite replicate_cons_app in E. by apply app_inj_tail in E. }
        destruct Hy as [Hs ->]. cbn. apply IH. exists (S (S n)), []. rewrite app_nil_r. split_and!; [|done|].
        -- cbn [rev]. rewrite Hs. change (replicate (S (S n)) "..") with (".." :: ".." :: dots n).
           unfold dots. by rewrite replicate_cons_app, app_comm_cons, replicate_cons_app.
        -- intros ->. by specialize (Hr eq_refl).
      * cbn [rev] in E. rewrite app_assoc in E. apply app_inj_tail in E as [Hs ->].
        apply Forall_app in Hl as [Hl Hz]. rewrite Forall_singleton in Hz.
        destruct (String.eqb_spec z "..") as [->|_]; [by destruct Hz as (_ & _ & ? & _)|].
        apply IH. exists n, l. by split_and!.
  - apply IH. destruct Hs as (n & l & E & Hl & Hr). cbn [rev]. rewrite E.
    exists n, (l ++ [x]). rewrite app_assoc. split_and!; [done| |done].
    apply Forall_app. split; [done|]. by repeat constructor.
Qed.

Lemma elems_clean p : clean_list (rooted p) (elems p).
Proof. apply clean_stack; [exists 0, []; by split_and!|apply SplitByte_slashless]. Qed.

(** ** Paths and lists *)

Definition element (s : string) : Prop := s ≠ "" ∧ s ≠ "." ∧ slashless s.
Lemma element_plain s : plain s → element s.
Proof. by intros (? & ? & _ & ?). Qed.

Lemma clean_list_elements r L : clean_list r L → Forall element L.
Proof.
  intros (n & l & -> & Hl & _). apply Forall_app. split.
  - apply Forall_replicate. by split_and!.
  - eapply Forall_impl; [exact Hl|]. apply element_plain.
Qed.

Lemma clean_list_app r L l : clean_list r L → Forall plain l → clean_list r (L ++ l).
Proof.
  intros (n & k & -> & Hk & Hr) Hl. exists n, (k ++ l). rewrite app_assoc. split_and!; [done| |done].
  by apply Forall_app.
Qed.

Lemma clean_list_init r L x : clean_list r (L ++ [x]) → clean_list r L.
Proof.
  intros (n & l & E & Hl & Hr). destruct l as [|z l _] using rev_ind.
  - rewrite app_nil_r in E. destruct n as [|n]; [by destruct L|].
    cbn [replicate] in E. rewrite replicate_cons_app in E. apply app_inj_tail in E as [-> _].
    exists n, []. rewrite app_nil_r. split_and!; [done..|]. intros ->. by specialize (Hr eq_refl).
  - rewrite app_assoc in E. apply app_inj_tail in E as [-> _]. apply Forall_app in Hl as [Hl _].
    exists n, l. by split_and!.
Qed.

Lemma Join_cons_string x L : ∃ t, Join (x :: L) "/" = x +:+ t.
Proof.
  destruct L as [|y L]; [exists ""; by rewrite string_app_nil_r|]. by eexists.
Qed.

Lemma Join_first x L : element x → Join (x :: L) "/" ≠ "" ∧ HasPrefix (Join (x :: L) "/") "/" = false.
Proof.
  intros (H1 & _ & Hs). destruct (Join_cons_string x L) as [t ->]. destruct x as [|c x]; [done|].
  split; [done|]. unfold slashless, no_byte in Hs. cbn [string_forall] in Hs.
  apply andb_true_iff in Hs as [Hc _]. apply negb_true_iff in Hc. cbn [String.append HasPrefix]. by rewrite Ascii.eqb_sym, Hc.
Qed.

Lemma elements_slashless L : Forall element L → Forall slashless L.
Proof. intros H. eapply Forall_impl; [exact H|]. by intros x (_ & _ & ?). Qed.

Lemma path_of_split r L :
  clean_list r L → rooted (path_of r L) = r ∧ elems (path_of r L) = L.
Proof.
  intros Hc. pose proof (clean_list_elements _ _ Hc) as He. unfold path_of. destruct r.
  - change ("/" +:+ Join L "/") with (String "/" (Join L "/")). split; [apply rooted_slash|].
    unfold elems. rewrite rooted_slash. change (String "/" (Join L "/")) with ("" +:+ String "/" (Join L "/")).
    rewrite SplitByte_cons_app, clean_elems_app. cbn [SplitByte clean_elems String.eqb orb rev].
    destruct L as [|x L]; [done|].
    rewrite SplitByte_Join by (done || by apply elements_slashless). by apply clean_elems_clean.
  - destruct L as [|x L]; [done|]. inversion He; subst.
    destruct (Join_first x L) as [Hne Hp]; [done|]. rewrite (proj2 (String.eqb_neq _ _) Hne).
    split; [exact Hp|]. unfold elems, rooted.
    rewrite Hp, SplitByte_Join by (done || by apply elements_slashless). by apply clean_elems_clean.
Qed.

Lemma Clean_path_of r L : clean_list r L → Clean (path_of r L) = path_of r L.
Proof. intros Hc. rewrite Clean_elems. by destruct (path_of_split r L Hc) as [-> ->]. Qed.

Lemma Clean_idem p : Clean (Clean p) = Clean p.
Proof. apply Clean_path_of, elems_clean. Qed.
Lemma Clean_Dir p : Clean (path_Dir p) = path_Dir p.
Proof. apply Clean_idem. Qed.

Lemma path_of_inj r L r' L' :
  clean_list r L → clean_list r' L' → path_of r L = path_of r' L' → r = r' ∧ L = L'.
Proof.
  intros Hc Hc' E. destruct (path_of_split _ _ Hc) as [Hr HL], (path_of_split _ _ Hc') as [Hr' HL'].
  rewrite E in Hr, HL. by rewrite <-Hr, <-HL.
Qed.

(** ** Join, Dir, Base *)

Lemma path_join_below p l :
  p ≠ "" → l ≠ [] → Forall plain l → path_join [p; Join l "/"] = path_of (rooted p) (elems p ++ l).
Proof.
  intros Hp Hl Hf. destruct l as [|x l]; [done|].
  destruct (Join_first x l) as [Hne _]; [inversion Hf; by apply element_plain|].
  rewrite <-(SplitByte_Join (x :: l)) at 2 by (done || by apply elements_slashless, Forall_impl with (1 := Hf), element_plain).
  assert (Hs : Forall plain (SplitByte "/" (Join (x :: l) "/"))).
  { by rewrite SplitByte_Join by (done || by apply elements_slashless, Forall_impl with (1 := Hf), element_plain). }
  revert Hne Hs. generalize (Join (x :: l) "/"). intros j Hne Hs.
  unfold path_join. cbn [List.filter]. rewrite (proj2 (String.eqb_neq _ _) Hp), (proj2 (String.eqb_neq _ _) Hne).
  cbn [negb Join]. change ("/" +:+ j) with (String "/" j).
  rewrite Clean_elems. unfold elems at 1. rewrite rooted_app by done.
  rewrite SplitByte_cons_app, clean_elems_app, (clean_elems_plain _ _ (SplitByte "/" j)) by done.
  by rewrite rev_involutive.
Qed.

Lemma split_last_none b : slashless b → split_last b = ("", b).
Proof.
  unfold slashless, no_byte. induction b as [|c b IH]; [done|]. cbn [string_forall split_last].
  intros [Hc Hb]%andb_true_iff. apply negb_true_iff in Hc. rewrite IH by done. cbn [String.eqb negb]. by rewrite Hc.
Qed.

Lemma split_last_slash a b : slashless b → split_last (a +:+ String "/" b) = (a +:+ "/", b).
Proof.
  intros Hb. induction a as [|c a IH].
  - cbn [String.append split_last]. by rewrite split_last_none.
  - cbn [String.append split_last]. rewrite IH. by destruct a.
Qed.

Lemma Join_snoc L x : L ≠ [] → Join (L ++ [x]) "/" = Join L "/" +:+ String "/" x.
Proof.
  induction L as [|y L IH]; [done|]. intros _. destruct L as [|z L]; [done|].
  change (Join ((y :: z :: L) ++ [x]) "/") with (y +:+ String "/" (Join ((z :: L) ++ [x]) "/")).
  rewrite IH by done. change (Join (y :: z :: L) "/") with (y +:+ String "/" (Join (z :: L) "/")).
  by rewrite string_app_assoc.
Qed.

Lemma Join_nonempty L : L ≠ [] → Forall element L → Join L "/" ≠ "".
Proof. intros Hne He. destruct He as [|y L Hy He]; [done|]. by apply Join_first. Qed.

Lemma path_of_body r L : L ≠ [] → Forall element L → path_of r L = (if r then "/" else "") +:+ Join L "/".
Proof.
  intros Hne He. unfold path_of. destruct r; [done|].
  by rewrite (proj2 (String.eqb_neq _ _) (Join_nonempty L Hne He)).
Qed.

Lemma path_of_snoc r L x :
  L ≠ [] → Forall element (L ++ [x]) → path_of r (L ++ [x]) = path_of r L +:+ String "/" x.
Proof.
  intros Hne He. rewrite path_of_body by (done || by destruct L). apply Forall_app in He as [He _].
  by rewrite path_of_body, Join_snoc, string_app_assoc.
Qed.

Lemma Clean_slash r L : L ≠ [] → clean_list r L → Clean (path_of r L +:+ "/") = path_of r L.
Proof.
  intros Hne Hc. destruct (path_of_split r L Hc) as [Hr HE].
  assert (Hp : path_of r L ≠ "").
  { rewrite path_of_body by eauto using clean_list_elements. destruct r; [done|].
    by apply Join_nonempty; eauto using clean_list_elements. }
  rewrite Clean_elems. unfold elems. rewrite rooted_app, Hr by done.
  change (path_of r L +:+ "/") with (path_of r L +:+ String "/" "").
  rewrite SplitByte_cons_app, clean_elems_app. cbn [SplitByte clean_elems String.eqb orb].
  rewrite rev_involutive. unfold elems in HE. rewrite Hr in HE. by rewrite HE.
Qed.

(** A path and its last element. *)
Lemma path_of_last r L x :
  clean_list r (L ++ [x]) →
  ∃ dir, split_last (path_of r (L ++ [x])) = (dir, x) ∧ Clean dir = path_of r L ∧ path_of r (L ++ [x]) = dir +:+ x.
Proof.
  intros Hc. pose proof (clean_list_init _ _ _ Hc) as HL. pose proof (clean_list_elements _ _ Hc) as He.
  pose proof He as Hx. apply Forall_app in Hx as [_ Hx]. rewrite Forall_singleton in Hx.
  pose proof Hx as (Hx1 & _ & Hx2). destruct (decide (L = [])) as [->|Hne].
  - unfold path_of. cbn [app Join]. rewrite (proj2 (String.eqb_neq _ _) Hx1). destruct r.
    + exists "/". split_and!; [by apply (split_last_slash "" x)|done|done].
    + exists "". split_and!; [by apply split_last_none|done|done].
  - exists (path_of r L +:+ "/"). rewrite path_of_snoc by done. split_and!.
    + by apply split_last_slash.
    + by apply Clean_slash.
    + by rewrite string_app_assoc.
Qed.

Lemma path_Dir_of r L x : clean_list r (L ++ [x]) → path_Dir (path_of r (L ++ [x])) = path_of r L.
Proof. intros Hc. destruct (path_of_last r L x Hc) as (dir & E & Hd & _). unfold path_Dir. by rewrite E. Qed.

(** A list of names given one by one. *)
Ltac all_plain :=
  repeat first [apply Forall_nil_2 | apply Forall_cons_2]; first [assumption | by repeat split | by auto].
