(* ===== verification/Sha256.v ===== *)
(** * SHA-256, HMAC and hexadecimal encodings

    The program calls [crypto/sha256], [crypto/hmac], [encoding/hex] and
    [encoding/binary] from the standard library: in [migratediff] to name
    database objects, in [auth] to protect challenges and credentials.  They are
    written out here (FIPS 180-4, RFC 2104) over 32-bit words kept as [Z] below
    [2^32] and bytes kept as [ascii], so that the definitions that use them
    evaluate to the very names and digests the program computes.  Nothing is
    assumed of the hash: where a theorem needs two digests to differ, it says so
    of those two digests. *)

From S2P Require Import Prelude GoStrings.

#[local] Open Scope Z_scope.

(** ** 32-bit words *)

Definition w32 (z : Z) : Z := z mod 4294967296.
Definition rotr (n x : Z) : Z := w32 (Z.lor (Z.shiftr x n) (Z.shiftl x (32 - n))).
Definition add32 (a b : Z) : Z := w32 (a + b).

Definition ch (x y z : Z) : Z := Z.lxor (Z.land x y) (Z.land (4294967295 - x) z).
Definition maj (x y z : Z) : Z := Z.lxor (Z.lxor (Z.land x y) (Z.land x z)) (Z.land y z).
Definition bsig0 (x : Z) : Z := Z.lxor (Z.lxor (rotr 2 x) (rotr 13 x)) (rotr 22 x).
Definition bsig1 (x : Z) : Z := Z.lxor (Z.lxor (rotr 6 x) (rotr 11 x)) (rotr 25 x).
Definition ssig0 (x : Z) : Z := Z.lxor (Z.lxor (rotr 7 x) (rotr 18 x)) (Z.shiftr x 3).
Definition ssig1 (x : Z) : Z := Z.lxor (Z.lxor (rotr 17 x) (rotr 19 x)) (Z.shiftr x 10).

(** The constants are the first 32 bits of the fractional parts of the cube roots
    of the first 64 primes, and of the square roots of the first eight. *)
Definition is_prime (n : Z) : bool :=
  forallb (λ d, negb (n mod Z.of_nat d =? 0)) (seq 2 (Z.to_nat (Z.sqrt n) - 1)).
Definition first_primes (n : nat) : list Z :=
  take n (List.filter is_prime (map Z.of_nat (seq 2 310))).

(** The integer cube root, bit by bit from [n] bits down. *)
Fixpoint cube_root (n : nat) (x root : Z) : Z :=
  match n with
  | O => root
  | S n' => let r := root + Z.shiftl 1 (Z.of_nat n') in
            cube_root n' x (if r * r * r <=? x then r else root)
  end.

Definition round_constants : list Z := Eval vm_compute in
  map (λ p, w32 (cube_root 36 (Z.shiftl p 96) 0)) (first_primes 64).
Definition initial_hash : list Z := Eval vm_compute in
  map (λ p, w32 (Z.sqrt (Z.shiftl p 64))) (first_primes 8).

(** ** Padding and the message schedule *)

Definition bytes := list Z.

Definition to_bytes (s : string) : bytes := map byte (list_ascii_of_string s).

(** The [n] low-order bytes of [z], most significant first
    ([binary.BigEndian.PutUint64] is [be_bytes 8]). *)
Fixpoint be_bytes (n : nat) (z : Z) : bytes :=
  match n with
  | O => []
  | S n' => be_bytes n' (Z.shiftr z 8) ++ [Z.land z 255]
  end.

Definition pad (m : bytes) : bytes :=
  let n := Z.of_nat (length m) in
  let zeros := Z.to_nat ((55 - n) mod 64) in
  m ++ [128] ++ replicate zeros 0 ++ be_bytes 8 (8 * n).

Fixpoint words (m : bytes) : list Z :=
  match m with
  | a :: b :: c :: d :: m' =>
      Z.lor (Z.shiftl a 24) (Z.lor (Z.shiftl b 16) (Z.lor (Z.shiftl c 8) d)) :: words m'
  | _ => []
  end.

(** The message schedule, kept as a sliding window of the last 16 words. *)
Fixpoint schedule (n : nat) (win : list Z) : list Z :=
  match n with
  | O => win
  | S n' =>
      match win with
      | w0 :: rest =>
          let w1 := nth 1 win 0 in
          let w9 := nth 9 win 0 in
          let w14 := nth 14 win 0 in
          let w := add32 (add32 (ssig1 w14) w9) (add32 (ssig0 w1) w0) in
          w0 :: schedule n' (rest ++ [w])
      | [] => []
      end
  end.

Fixpoint rounds (ks ws : list Z) (a b c d e f g h : Z) : list Z :=
  match ks, ws with
  | k :: ks', w :: ws' =>
      let t1 := add32 (add32 (add32 h (bsig1 e)) (add32 (ch e f g) k)) w in
      let t2 := add32 (bsig0 a) (maj a b c) in
      rounds ks' ws' (add32 t1 t2) a b c (add32 d t1) e f g
  | _, _ => [a; b; c; d; e; f; g; h]
  end.

Definition compress (hash : list Z) (block : list Z) : list Z :=
  match hash with
  | [a; b; c; d; e; f; g; h] =>
      zip_with add32 hash (rounds round_constants (schedule 48 block) a b c d e f g h)
  | _ => hash
  end.

Fixpoint blocks (n : nat) (ws : list Z) (hash : list Z) : list Z :=
  match n with
  | O => hash
  | S n' => blocks n' (drop 16 ws) (compress hash (take 16 ws))
  end.

(** [sha256.Sum256]: 32 bytes. *)
Definition Sum256 (m : bytes) : bytes :=
  let ws := words (pad m) in
  List.concat (map (be_bytes 4) (blocks (Nat.div (length ws) 16) ws initial_hash)).

(** ** HMAC-SHA256 *)

Definition hmac_block : nat := 64.

Definition hmac_key (key : bytes) : bytes :=
  let k := if (hmac_block <? length key)%nat then Sum256 key else key in
  k ++ replicate (hmac_block - length k) 0.

Definition hmac_sha256 (key m : bytes) : bytes :=
  let k := hmac_key key in
  Sum256 (map (Z.lxor 0x5c) k ++ Sum256 (map (Z.lxor 0x36) k ++ m)).

(** ** Hexadecimal *)

(** [hex.EncodeToString], also [fmt]'s [%x] on a byte slice. *)
Fixpoint hex_encode (b : bytes) : string :=
  match b with
  | [] => ""
  | x :: b' => hex_fixed 2 x +:+ hex_encode b'
  end.

Lemma length_hex_encode b : String.length (hex_encode b) = (2 * length b)%nat.
Proof.
  induction b; [done|]. cbn [hex_encode length].
  rewrite string_length_app, length_hex_fixed, IHb. lia.
Qed.

Definition is_hex (c : ascii) : bool := is_digit c || in_range 97 102 c.

Lemma hex_digit_is_hex z : 0 <= z <= 15 → is_hex (hex_digit z) = true.
Proof.
  intros Hz.
  assert (z = 0 ∨ z = 1 ∨ z = 2 ∨ z = 3 ∨ z = 4 ∨ z = 5 ∨ z = 6 ∨ z = 7 ∨ z = 8 ∨ z = 9
    ∨ z = 10 ∨ z = 11 ∨ z = 12 ∨ z = 13 ∨ z = 14 ∨ z = 15) as H by lia.
  repeat (destruct H as [->|H]; [reflexivity|]). by subst.
Qed.

Lemma hex_fixed_is_hex n z : string_forall is_hex (hex_fixed n z) = true.
Proof.
  revert z; induction n as [|n IH]; intros z; [done|].
  cbn [hex_fixed]. rewrite string_forall_app, IH. cbn.
  rewrite hex_digit_is_hex; [done|].
  change (Z.land z 15) with (Z.land z (Z.ones 4)). rewrite Z.land_ones by lia.
  change (2 ^ 4) with 16. pose proof (Z.mod_pos_bound z 16). lia.
Qed.

Lemma hex_encode_is_hex b : string_forall is_hex (hex_encode b) = true.
Proof. induction b; [done|]. cbn [hex_encode]. by rewrite string_forall_app, hex_fixed_is_hex. Qed.

(** ** Lengths *)

Lemma length_be_bytes n z : length (be_bytes n z) = n.
Proof. revert z; induction n; intros; cbn; [done|]. rewrite length_app, IHn. cbn; lia. Qed.

Lemma length_rounds ks ws a b c d e f g h : length (rounds ks ws a b c d e f g h) = 8%nat.
Proof. revert ws a b c d e f g h; induction ks; intros [|w ws] *; cbn; [done..|apply IHks]. Qed.

Lemma length_compress hash block : length hash = 8%nat → length (compress hash block) = 8%nat.
Proof.
  intros H. do 8 (destruct hash as [|? hash]; [done|]). destruct hash; [|done].
  unfold compress. rewrite length_zip_with, length_rounds. done.
Qed.

Lemma length_blocks n ws hash : length hash = 8%nat → length (blocks n ws hash) = 8%nat.
Proof. revert ws hash; induction n; intros; cbn; [done|]. by apply IHn, length_compress. Qed.

Lemma length_Sum256 m : length (Sum256 m) = 32%nat.
Proof.
  unfold Sum256.
  assert (∀ l : list Z, length (List.concat (map (be_bytes 4) l)) = (4 * length l)%nat) as H.
  { induction l as [|x l IH]; [done|].
    cbn [map List.concat]. rewrite length_app, IH, length_be_bytes. cbn [length]. lia. }
  rewrite H, length_blocks by done. done.
Qed.

(** FIPS 180-4 test vectors. *)
Example sha256_abc : hex_encode (Sum256 (to_bytes "abc")) =
  "ba7816bf8f01cfea414140de5dae2223b00361a396177a9cb410ff61f20015ad".
Proof. vm_compute. reflexivity. Qed.

Example sha256_two_blocks :
  hex_encode (Sum256 (to_bytes "abcdbcdecdefdefgefghfghighijhijkijkljklmklmnlmnomnopnopq")) =
  "248d6a61d20638b8e5c026930c3e6039a33ce45964ff2167f6ecedd419db06c1".
Proof. vm_compute. reflexivity. Qed.

(** RFC 4231, test case 2. *)
Example hmac_jefe :
  hex_encode (hmac_sha256 (to_bytes "Jefe") (to_bytes "what do ya want for nothing?")) =
  "5bdcc146bf60754e6a042426089575c75a003f089d2739839dec58b964ec3843".
Proof. vm_compute. reflexivity. Qed.
