(* ===== verification/Json.v ===== *)
(** * JSON: what the program uses of encoding/json

    [Encoder.Encode] with [SetIndent("", "  ")] and [MarshalIndent] print a value
    in Go's indented form; [Decoder.Decode] and [Unmarshal] parse the JSON
    grammar.  Both are written out over a value type that keeps object members in
    order and number literals as text.  The nesting limit of the parser (10000)
    is left out: no value the program decodes is deeper than four levels before
    its type is wrong.

    [parse_print] is the round trip the recorded state and the manifests of
    makemigrations rest on. *)

From Stdlib Require Import DecimalString DecimalZ DecimalFacts DecimalPos.
From S2P Require Import Prelude GoStrings.

Inductive json :=
| JNull
| JBool (b : bool)
| JNum (lit : string)
| JStr (s : string)
| JArr (l : list json)
| JObj (kvs : list (string * json)).

Section json_ind.
Variable P : json → Prop.
Hypothesis HNull : P JNull.
Hypothesis HBool : ∀ b, P (JBool b).
Hypothesis HNum : ∀ l, P (JNum l).
Hypothesis HStr : ∀ s, P (JStr s).
Hypothesis HArr : ∀ l, Forall P l → P (JArr l).
Hypothesis HObj : ∀ kvs, Forall (λ kv, P kv.2) kvs → P (JObj kvs).

Fixpoint json_nested_ind (v : json) : P v :=
  match v with
  | JNull => HNull
  | JBool b => HBool b
  | JNum l => HNum l
  | JStr s => HStr s
  | JArr l => HArr l ((fix go l := match l return Forall P l with
      | [] => List.Forall_nil _
      | x :: l' => List.Forall_cons _ x l' (json_nested_ind x) (go l') end) l)
  | JObj kvs => HObj kvs ((fix go l := match l return Forall (λ kv, P kv.2) l with
      | [] => List.Forall_nil _
      | x :: l' => List.Forall_cons _ x l' (json_nested_ind x.2) (go l') end) kvs)
  end.
End json_ind.

(** ** Printing *)

(** One rune of [appendString] with HTML escaping on; [raw] is its text. *)
Definition escape_rune (raw : string) (r : Z) (w : nat) : string :=
  if (r <? 128)%Z then
    if ((r =? 34) || (r =? 92))%Z then "\" +:+ raw
    else if (r =? 8)%Z then "\b" else if (r =? 12)%Z then "\f"
    else if (r =? 10)%Z then "\n" else if (r =? 13)%Z then "\r"
    else if (r =? 9)%Z then "\t"
    else if ((r <? 32) || (r =? 60) || (r =? 62) || (r =? 38))%Z then "\u00" +:+ hex_fixed 2 r
    else raw
  else if ((r =? RuneError)%Z && (w =? 1)%nat) then "\ufffd"
  else if ((r =? 8232) || (r =? 8233))%Z then "\u202" +:+ hex_fixed 1 r
  else raw.

Fixpoint escape_skip (skip : nat) (s : string) : string :=
  match s with
  | "" => ""
  | String c s' =>
      match skip with
      | S n => escape_skip n s'
      | O => let '(r, w) := decode_rune c s' in
             escape_rune (take_bytes w s) r w +:+ escape_skip (w - 1) s'
      end
  end.

Definition json_string (s : string) : string := dq +:+ escape_skip 0 s +:+ dq.

Fixpoint indent (n : nat) : string :=
  match n with O => "" | S n' => "  " +:+ indent n' end.

(** One line per element or member, [open]ed and closed on lines of their own. *)
Definition block (open close : string) (depth : nat) (lines : list string) : string :=
  match lines with
  | [] => open +:+ close
  | _ =>
      open +:+ newline +:+
      Join (map (λ l, indent (S depth) +:+ l) lines) ("," +:+ newline) +:+
      newline +:+ indent depth +:+ close
  end.

Fixpoint print (depth : nat) (v : json) : string :=
  match v with
  | JNull => "null"
  | JBool true => "true"
  | JBool false => "false"
  | JNum lit => lit
  | JStr s => json_string s
  | JArr l => block "[" "]" depth (map (print (S depth)) l)
  | JObj kvs =>
      block "{" "}" depth
        (map (λ kv, json_string (fst kv) +:+ ": " +:+ print (S depth) (snd kv)) kvs)
  end.

(** ** Parsing *)

Definition is_ws (c : ascii) : bool :=
  (byte c =? 32)%Z || (byte c =? 9)%Z || (byte c =? 13)%Z || (byte c =? 10)%Z.
Definition skip_ws (s : string) : string := trim_left is_ws s.

Definition hex_value (c : ascii) : option Z :=
  if is_digit c then Some (byte c - 48)%Z
  else if in_range 97 102 c then Some (byte c - 87)%Z
  else if in_range 65 70 c then Some (byte c - 55)%Z
  else None.

Definition hex4 (s : string) : option (Z * string) :=
  match s with
  | String a (String b (String c (String d rest))) =>
      x ← hex_value a; y ← hex_value b; z ← hex_value c; t ← hex_value d;
      Some ((((x * 16 + y) * 16 + z) * 16 + t)%Z, rest)
  | _ => None
  end.

Definition is_surrogate (r : Z) : bool := ((55296 <=? r) && (r <? 57344))%Z.

(** The rune of a [\u] escape whose first code unit is [r], and what follows:
    a surrogate pair is one rune, a lone surrogate is [RuneError]. *)
Definition unit_rune (r : Z) (rest : string) : Z * string :=
  if is_surrogate r then
    match rest with
    | String a (String b rest') =>
        if Ascii.eqb a "\" && Ascii.eqb b "u" then
          match hex4 rest' with
          | Some (r2, rest'') =>
              if ((r <? 56320) && (56320 <=? r2) && (r2 <? 57344))%Z
              then ((Z.lor (Z.shiftl (r - 55296) 10) (r2 - 56320) + 65536)%Z, rest'')
              else (RuneError, rest)
          | None => (RuneError, rest)
          end
        else (RuneError, rest)
    | _ => (RuneError, rest)
    end
  else (r, rest).

Definition simple_escape (c : ascii) : option ascii :=
  if Ascii.eqb c quote_char || Ascii.eqb c "\" || Ascii.eqb c "/" then Some c
  else if Ascii.eqb c "b" then Some "008"%char
  else if Ascii.eqb c "f" then Some "012"%char
  else if Ascii.eqb c "n" then Some "010"%char
  else if Ascii.eqb c "r" then Some "013"%char
  else if Ascii.eqb c "t" then Some "009"%char
  else None.

(** The contents of a string literal, from after the opening quote.  A byte
    sequence that is not UTF-8 becomes U+FFFD. *)
Fixpoint unquote (fuel : nat) (s : string) : option (string * string) :=
  match fuel, s with
  | S n, String c s' =>
      if Ascii.eqb c quote_char then Some ("", s')
      else if Ascii.eqb c "\" then
        match s' with
        | String d s'' =>
            if Ascii.eqb d "u" then
              '(r, rest) ← hex4 s'';
              let '(r', rest') := unit_rune r rest in
              '(t, out) ← unquote n rest'; Some (encode_rune r' +:+ t, out)
            else
              e ← simple_escape d;
              '(t, out) ← unquote n s''; Some (String e t, out)
        | "" => None
        end
      else if (byte c <? 32)%Z then None
      else
        let '(r, w) := decode_rune c s' in
        '(t, out) ← unquote n (drop_bytes w s);
        Some ((if ((r =? RuneError)%Z && (w =? 1)%nat) then encode_rune RuneError
               else take_bytes w s) +:+ t, out)
  | _, _ => None
  end.

(** Number literals: an optional minus, an integer without leading zeros, an
    optional fraction and an optional exponent. *)
Fixpoint span_digits (s : string) : string * string :=
  match s with
  | String c s' =>
      if is_digit c then let '(a, b) := span_digits s' in (String c a, b) else ("", s)
  | "" => ("", "")
  end.

Definition number_int (s : string) : option (string * string) :=
  match s with
  | String c s' =>
      if Ascii.eqb c "0" then Some ("0", s')
      else let '(a, b) := span_digits s in if String.eqb a "" then None else Some (a, b)
  | "" => None
  end.

Definition number_frac (s : string) : option (string * string) :=
  match s with
  | String "." s' =>
      let '(a, b) := span_digits s' in if String.eqb a "" then None else Some ("." +:+ a, b)
  | _ => Some ("", s)
  end.

Definition number_exp (s : string) : option (string * string) :=
  match s with
  | String c s' =>
      if Ascii.eqb c "e" || Ascii.eqb c "E" then
        let '(sign, s2) :=
          match s' with
          | String d s2 => if Ascii.eqb d "+" || Ascii.eqb d "-" then (String d "", s2) else ("", s')
          | "" => ("", "")
          end in
        let '(a, b) := span_digits s2 in
        if String.eqb a "" then None else Some (String c (sign +:+ a), b)
      else Some ("", s)
  | "" => Some ("", "")
  end.

Definition parse_number (s : string) : option (string * string) :=
  let '(sign, s1) := match s with String "-" s' => ("-", s') | _ => ("", s) end in
  '(i, s2) ← number_int s1;
  '(f, s3) ← number_frac s2;
  '(e, s4) ← number_exp s3;
  Some (sign +:+ i +:+ f +:+ e, s4).

Definition strip_prefix (p s : string) : option string :=
  if HasPrefix s p then Some (drop_bytes (String.length p) s) else None.

Definition parse_string (s : string) : option (string * string) :=
  match s with
  | String c s' => if Ascii.eqb c quote_char then unquote (String.length s) s' else None
  | "" => None
  end.

(** One value, and the unread rest.  [fuel] bounds the number of values and
    separators read; the length of the input is enough ([parse_fuel]). *)
Fixpoint parse_value (fuel : nat) (s0 : string) : option (json * string) :=
  match fuel with
  | O => None
  | S n =>
      let s := skip_ws s0 in
      match s with
      | "" => None
      | String c s' =>
          if Ascii.eqb c "{" then
            match skip_ws s' with
            | String "}" rest => Some (JObj [], rest)
            | _ => '(kvs, rest) ← parse_members n s'; Some (JObj kvs, rest)
            end
          else if Ascii.eqb c "[" then
            match skip_ws s' with
            | String "]" rest => Some (JArr [], rest)
            | _ => '(l, rest) ← parse_elems n s'; Some (JArr l, rest)
            end
          else if Ascii.eqb c quote_char then
            '(t, rest) ← parse_string s; Some (JStr t, rest)
          else if Ascii.eqb c "n" then rest ← strip_prefix "null" s; Some (JNull, rest)
          else if Ascii.eqb c "t" then rest ← strip_prefix "true" s; Some (JBool true, rest)
          else if Ascii.eqb c "f" then rest ← strip_prefix "false" s; Some (JBool false, rest)
          else '(lit, rest) ← parse_number s; Some (JNum lit, rest)
      end
  end
with parse_elems (fuel : nat) (s : string) : option (list json * string) :=
  match fuel with
  | O => None
  | S n =>
      '(v, s1) ← parse_value n s;
      match skip_ws s1 with
      | String c s2 =>
          if Ascii.eqb c "]" then Some ([v], s2)
          else if Ascii.eqb c "," then '(l, rest) ← parse_elems n s2; Some (v :: l, rest)
          else None
      | "" => None
      end
  end
with parse_members (fuel : nat) (s : string) : option (list (string * json) * string) :=
  match fuel with
  | O => None
  | S n =>
      '(k, s1) ← parse_string (skip_ws s);
      match skip_ws s1 with
      | String c s2 =>
          if Ascii.eqb c ":" then
            '(v, s3) ← parse_value n s2;
            match skip_ws s3 with
            | String d s4 =>
                if Ascii.eqb d "}" then Some ([(k, v)], s4)
                else if Ascii.eqb d "," then
                  '(l, rest) ← parse_members n s4; Some ((k, v) :: l, rest)
                else None
            | "" => None
            end
          else None
      | "" => None
      end
  end.

(** [Decoder.Decode] reads the first value and leaves the rest unread. *)
Definition decode_first (s : string) : option (json * string) :=
  parse_value (S (String.length s)) s.

(** [json.Unmarshal] also requires that nothing but white space follows. *)
Definition unmarshal (s : string) : option json :=
  '(v, rest) ← decode_first s;
  if String.eqb (skip_ws rest) "" then Some v else None.

(** Field-name matching: exact, or equal under [foldName], which folds ASCII
    case and the two non-ASCII runes that fold into it (U+017F and U+212A). *)
Fixpoint fold_name (s : string) : string :=
  match s with
  | "" => ""
  | String a s1 =>
      match s1 with
      | String b s2 =>
          if ((byte a =? 197) && (byte b =? 191))%Z then String "s" (fold_name s2)
          else
            match s2 with
            | String c s3 =>
                if ((byte a =? 226) && (byte b =? 132) && (byte c =? 170))%Z
                then String "k" (fold_name s3)
                else String (lower_ascii a) (fold_name s1)
            | "" => String (lower_ascii a) (fold_name s1)
            end
      | "" => String (lower_ascii a) ""
      end
  end.

(** The field of a struct a key is decoded into. *)
Definition field_for (names : list string) (key : string) : option string :=
  match List.find (String.eqb key) names with
  | Some n => Some n
  | None => List.find (λ n, String.eqb (fold_name n) (fold_name key)) names
  end.

(** Decoding into Go values: [null] leaves the value as it was. *)
Definition dec_string (cur : string) (v : json) : option string :=
  match v with JStr s => Some s | JNull => Some cur | _ => None end.
Definition dec_bool (cur : bool) (v : json) : option bool :=
  match v with JBool b => Some b | JNull => Some cur | _ => None end.
Definition dec_int (cur : Z) (v : json) : option Z :=
  match v with JNum lit => Atoi lit | JNull => Some cur | _ => None end.

(** An array decodes over the elements already there, then truncates; [null]
    empties the slice. *)
Fixpoint dec_elems {A} (dec : A → json → option A) (zero : A) (cur : list A) (l : list json)
    : option (list A) :=
  match l with
  | [] => Some []
  | v :: l' =>
      x ← dec (default zero (head cur)) v;
      xs ← dec_elems dec zero (tail cur) l';
      Some (x :: xs)
  end.
Definition dec_slice {A} (dec : A → json → option A) (zero : A) (cur : list A) (v : json)
    : option (list A) :=
  match v with JArr l => dec_elems dec zero cur l | JNull => Some [] | _ => None end.

(** A struct: members in order, each into the field its key names.  [strict] is
    [DisallowUnknownFields]. *)
Definition dec_struct {A} (strict : bool) (names : list string)
    (set : string → A → json → option A) (cur : A) (v : json) : option A :=
  match v with
  | JObj kvs =>
      foldl (λ acc kv,
               a ← acc;
               match field_for names (fst kv) with
               | Some n => set n a (snd kv)
               | None => if strict then None else Some a
               end) (Some cur) kvs
  | JNull => Some cur
  | _ => None
  end.

(** ** The round trip

    Printable values: ASCII strings and keys, integers as numbers. *)

Inductive printable : json → Prop :=
| pr_null : printable JNull
| pr_bool b : printable (JBool b)
| pr_int z : printable (JNum (Itoa z))
| pr_str s : is_ascii s = true → printable (JStr s)
| pr_arr l : Forall printable l → printable (JArr l)
| pr_obj kvs :
    Forall (λ kv, is_ascii (fst kv) = true ∧ printable (snd kv)) kvs → printable (JObj kvs).

(** What may follow a number without being read as part of it. *)
Definition ends (rest : string) : bool :=
  match rest with
  | "" => true
  | String c _ => negb (is_digit c || Ascii.eqb c "." || Ascii.eqb c "e" || Ascii.eqb c "E")
  end.

Lemma skip_ws_app w s : string_forall is_ws w = true → skip_ws (w +:+ s) = skip_ws s.
Proof.
  unfold skip_ws. induction w as [|c w IH]; cbn; [done|].
  rewrite andb_true_iff. intros [-> Hw]. auto.
Qed.

Lemma skip_ws_head c s : is_ws c = false → skip_ws (String c s) = String c s.
Proof. unfold skip_ws. cbn. by intros ->. Qed.

Lemma indent_ws n : string_forall is_ws (indent n) = true.
Proof. induction n; [done|]. cbn [indent]. by rewrite string_forall_app, IHn. Qed.

Lemma newline_indent_ws n : string_forall is_ws (newline +:+ indent n) = true.
Proof. by rewrite string_forall_app, indent_ws. Qed.

Lemma parse_value_ws n w s :
  string_forall is_ws w = true → parse_value n (w +:+ s) = parse_value n s.
Proof. intros Hw. destruct n; [done|]. cbn [parse_value]. by rewrite skip_ws_app. Qed.

(** *** Numbers *)

Lemma span_digits_uint d rest :
  ends rest = true →
  span_digits (NilEmpty.string_of_uint d +:+ rest) = (NilEmpty.string_of_uint d, rest).
Proof.
  intros He. induction d; cbn; try by rewrite IHd.
  destruct rest as [|c rest]; [done|]. cbn in *.
  rewrite !negb_true_iff, !orb_false_iff in He. destruct He as [[[-> _] _] _]. done.
Qed.

Lemma pos_uint_head p :
  ∃ d, (Pos.to_uint p = Decimal.D1 d ∨ Pos.to_uint p = Decimal.D2 d ∨ Pos.to_uint p = Decimal.D3 d
    ∨ Pos.to_uint p = Decimal.D4 d ∨ Pos.to_uint p = Decimal.D5 d ∨ Pos.to_uint p = Decimal.D6 d
    ∨ Pos.to_uint p = Decimal.D7 d ∨ Pos.to_uint p = Decimal.D8 d ∨ Pos.to_uint p = Decimal.D9 d).
Proof.
  assert (Pos.to_uint p = Decimal.unorm (Pos.to_uint p)) as Hn.
  { pose proof (Unsigned.to_of (Pos.to_uint p)) as H.
    rewrite Unsigned.of_to in H. exact H. }
  destruct (Pos.to_uint p) eqn:E; try (eexists; eauto 20; fail).
  - by apply Unsigned.to_uint_nonnil in E.
  - exfalso. unfold Decimal.unorm in Hn. cbn in Hn.
    destruct (Decimal.nzhead u) eqn:Eh; try done.
    + injection Hn as ->. by apply Unsigned.to_uint_nonzero in E.
    + by apply nzhead_nonzero in Eh.
Qed.

Lemma parse_number_uint d sgn rest :
  ends rest = true → (∃ p, d = Pos.to_uint p) ∨ d = Decimal.D0 Decimal.Nil →
  sgn = "" ∨ sgn = "-" →
  parse_number (sgn +:+ NilEmpty.string_of_uint d +:+ rest) =
  Some (sgn +:+ NilEmpty.string_of_uint d, rest).
Proof.
  intros He Hd Hsgn.
  assert (∃ c t, NilEmpty.string_of_uint d = String c t ∧ c ≠ "-"%char) as (c & t & Hc & Hne).
  { destruct Hd as [[p ->]| ->]; [|by exists "0"%char, ""].
    destruct (pos_uint_head p) as [u H].
    destruct_or! H; rewrite H; cbn; eexists _, _; (split; [reflexivity|done]). }
  assert (number_int (NilEmpty.string_of_uint d +:+ rest) = Some (NilEmpty.string_of_uint d, rest)) as Hi.
  { destruct Hd as [[p ->]| ->]; [|done].
    pose proof (span_digits_uint (Pos.to_uint p) rest He) as Hs.
    destruct (pos_uint_head p) as [u H].
    destruct_or! H; rewrite H in *; cbn [number_int NilEmpty.string_of_uint String.append] in *;
      cbn [Ascii.eqb Bool.eqb]; rewrite Hs; done. }
  assert (number_frac rest = Some ("", rest) ∧ number_exp rest = Some ("", rest)) as [Hf Hx].
  { destruct rest as [|d' rest]; [done|]. cbn in He.
    rewrite !negb_true_iff, !orb_false_iff in He. destruct He as [[[_ H1] H2] H3].
    split; [|cbn; by rewrite H2, H3].
    apply Ascii.eqb_neq in H1. clear -H1.
    destruct d' as [[] [] [] [] [] [] [] []]; try done. }
  unfold parse_number.
  assert (match sgn +:+ NilEmpty.string_of_uint d +:+ rest with
     | String "-" s' => ("-", s') | _ => ("", sgn +:+ NilEmpty.string_of_uint d +:+ rest) end
     = (sgn, NilEmpty.string_of_uint d +:+ rest)) as ->.
  { destruct Hsgn as [->| ->]; [|done]. cbn [String.append]. rewrite Hc. cbn [String.append].
    destruct c as [[] [] [] [] [] [] [] []]; done. }
  rewrite Hi. cbn. rewrite Hf. cbn. rewrite Hx. cbn. by rewrite !string_app_nil_r.
Qed.

Lemma Itoa_shape z :
  ∃ sgn d, Itoa z = sgn +:+ NilEmpty.string_of_uint d ∧ (sgn = "" ∨ sgn = "-")
    ∧ ((∃ p, d = Pos.to_uint p) ∨ d = Decimal.D0 Decimal.Nil).
Proof.
  assert (∀ p, NilZero.string_of_uint (Pos.to_uint p) = NilEmpty.string_of_uint (Pos.to_uint p)) as Hp.
  { intros p. destruct (pos_uint_head p) as [u H]. by destruct_or! H; rewrite H. }
  destruct z as [|p|p]; unfold Itoa; cbn.
  - exists "", (Decimal.D0 Decimal.Nil). split_and!; auto.
  - exists "", (Pos.to_uint p). cbn. rewrite Hp. split_and!; eauto.
  - exists "-", (Pos.to_uint p). cbn. rewrite Hp. split_and!; eauto.
Qed.

Lemma parse_number_Itoa z rest :
  ends rest = true → parse_number (Itoa z +:+ rest) = Some (Itoa z, rest).
Proof.
  intros He. destruct (Itoa_shape z) as (sgn & d & -> & Hs & Hd).
  rewrite string_app_assoc. by apply parse_number_uint.
Qed.

Definition value_head (c : ascii) : bool :=
  is_digit c || Ascii.eqb c "-" || Ascii.eqb c "n" || Ascii.eqb c "t" || Ascii.eqb c "f"
  || Ascii.eqb c quote_char || Ascii.eqb c "[" || Ascii.eqb c "{".

Lemma Itoa_head z : ∃ c t, Itoa z = String c t ∧ (is_digit c || Ascii.eqb c "-") = true.
Proof.
  destruct (Itoa_shape z) as (sgn & d & -> & Hs & Hd).
  destruct Hs as [-> | ->]; [|by eexists _, _].
  destruct Hd as [[p ->]| ->]; [|by eexists _, _].
  destruct (pos_uint_head p) as [u H].
  destruct_or! H; rewrite H; cbn; eexists _, _; (split; [reflexivity|done]).
Qed.

(** *** Strings *)

Lemma decode_rune_ascii c s : (byte c <? 128)%Z = true → decode_rune c s = (byte c, 1).
Proof. intros H. unfold decode_rune. by rewrite H. Qed.

Lemma unquote_escape c n x :
  (byte c <? 128)%Z = true →
  unquote (S n) (escape_rune (String c "") (byte c) 1 +:+ x) =
  ('(t, out) ← unquote n x; Some (String c t, out)).
Proof.
  destruct c as [[] [] [] [] [] [] [] []]; intros H; try (vm_compute in H; discriminate H);
    reflexivity.
Qed.

Lemma unquote_string s n rest :
  is_ascii s = true → String.length s < n →
  unquote n (escape_skip 0 s +:+ (dq +:+ rest)) = Some (s, rest).
Proof.
  revert n; induction s as [|c s IH]; intros [|n]; cbn -[unquote escape_rune decode_rune dq String.append];
    rewrite ?andb_true_iff; try lia.
  - intros _ _. reflexivity.
  - intros [Hc Hs] Hn. rewrite decode_rune_ascii by done. cbn [take_bytes Nat.sub].
    rewrite string_app_assoc, unquote_escape by done.
    rewrite IH by (done || lia). reflexivity.
Qed.

Lemma length_escape_rune c : (byte c <? 128)%Z = true →
  1 ≤ String.length (escape_rune (String c "") (byte c) 1).
Proof.
  destruct c as [[] [] [] [] [] [] [] []]; intros H; try (vm_compute in H; discriminate H);
    vm_compute; lia.
Qed.

Lemma length_escape s : is_ascii s = true → String.length s ≤ String.length (escape_skip 0 s).
Proof.
  induction s as [|c s IH]; [done|]. unfold is_ascii in *. cbn [string_forall escape_skip].
  rewrite andb_true_iff. intros [Hc Hs]. rewrite decode_rune_ascii by done.
  cbn [take_bytes Nat.sub]. rewrite string_length_app. specialize (IH Hs).
  pose proof (length_escape_rune c Hc). cbn [String.length]. lia.
Qed.

Lemma parse_json_string s rest :
  is_ascii s = true → parse_string (json_string s +:+ rest) = Some (s, rest).
Proof.
  intros Hs. unfold json_string, dq. cbn [String.append].
  unfold parse_string. cbn [Ascii.eqb Bool.eqb quote_char].
  rewrite string_app_assoc. apply unquote_string; [done|].
  pose proof (length_escape s Hs). cbn [String.length]. rewrite !string_length_app. lia.
Qed.

(** *** Values *)

Fixpoint jsize (v : json) : nat :=
  match v with
  | JArr l => S (list_sum (map (λ x, S (jsize x)) l))
  | JObj kvs => S (list_sum (map (λ kv, S (jsize (snd kv))) kvs))
  | _ => 1
  end.

Lemma print_head d v : printable v → ∃ c t, print d v = String c t ∧ value_head c = true.
Proof.
  unfold value_head. destruct 1 as [|[]|z| |[|x l]|[|x l]]; cbn; try by eexists _, _.
  destruct (Itoa_head z) as (c & t & -> & Hc). exists c, t. split; [done|]. by rewrite Hc.
Qed.

Lemma value_head_ws c : value_head c = true → is_ws c = false ∧ c ≠ "]"%char ∧ c ≠ "}"%char.
Proof. destruct c as [[] [] [] [] [] [] [] []]; by vm_compute. Qed.

(** Lines joined and followed by the closing of their block. *)
Lemma join_cons x l sep rest :
  Join (x :: l) sep +:+ rest =
  x +:+ match l with [] => rest | _ => sep +:+ (Join l sep +:+ rest) end.
Proof. destruct l; cbn [Join]; [done|]. by rewrite !string_app_assoc. Qed.

Definition lines (d : nat) (l : list string) : string :=
  Join (map (λ l, indent (S d) +:+ l) l) ("," +:+ newline).

Lemma parse_elems_print d l n rest :
  Forall (λ v, printable v ∧ ∀ n d rest, jsize v ≤ n → ends rest = true →
            parse_value n (print d v +:+ rest) = Some (v, rest)) l →
  l ≠ [] → list_sum (map (λ x, S (jsize x)) l) ≤ n →
  parse_elems n (newline +:+ (lines d (map (print (S d)) l)
     +:+ (newline +:+ (indent d +:+ ("]" +:+ rest))))) = Some (l, rest).
Proof.
  revert n; induction l as [|v l IH]; [done|]; intros n Hall _ Hn.
  apply Forall_cons in Hall as [[Hp Hv] Hall].
  cbn [map list_sum foldr] in Hn. destruct n as [|n]; [lia|]. cbn [parse_elems].
  unfold lines. cbn [map]. rewrite join_cons, string_app_assoc.
  rewrite <-string_app_assoc, parse_value_ws by apply newline_indent_ws.
  rewrite Hv; [|lia|by destruct l].
  cbn [mbind option_bind]. destruct l as [|v2 l]; cbn [map].
  - rewrite <-(string_app_assoc newline (indent d)), skip_ws_app by apply newline_indent_ws.
    cbn. done.
  - rewrite string_app_assoc.
    match goal with |- context [skip_ws ("," +:+ ?x)] =>
      change (skip_ws ("," +:+ x)) with (String "," x) end.
    cbn [Ascii.eqb Bool.eqb].
    change (Join _ _) with (lines d (map (print (S d)) (v2 :: l))).
    rewrite IH; [done|done|done|]. cbn in Hn |- *. lia.
Qed.

Lemma parse_members_print d kvs n rest :
  Forall (λ kv, is_ascii (fst kv) = true ∧ printable (snd kv) ∧
            ∀ n d rest, jsize (snd kv) ≤ n → ends rest = true →
            parse_value n (print d (snd kv) +:+ rest) = Some (snd kv, rest)) kvs →
  kvs ≠ [] → list_sum (map (λ kv, S (jsize (snd kv))) kvs) ≤ n →
  parse_members n (newline +:+
     (lines d (map (λ kv, json_string (fst kv) +:+ ": " +:+ print (S d) (snd kv)) kvs)
     +:+ (newline +:+ (indent d +:+ ("}" +:+ rest))))) = Some (kvs, rest).
Proof.
  revert n; induction kvs as [|[k v] kvs IH]; [done|]; intros n Hall _ Hn.
  apply Forall_cons in Hall as [(Hk & Hp & Hv) Hall]. cbn [fst snd] in *.
  cbn [map list_sum foldr snd] in Hn. destruct n as [|n]; [lia|]. cbn [parse_members].
  unfold lines. cbn [map fst snd]. rewrite join_cons, string_app_assoc.
  rewrite <-string_app_assoc, skip_ws_app by apply newline_indent_ws.
  rewrite string_app_assoc.
  assert (∀ x, skip_ws (json_string k +:+ x) = json_string k +:+ x) as -> by done.
  rewrite parse_json_string by done. cbn [mbind option_bind].
  rewrite string_app_assoc.
  match goal with |- context [skip_ws (": " +:+ ?x)] =>
    change (skip_ws (": " +:+ x)) with (String ":" (" " +:+ x)) end.
  cbn [Ascii.eqb Bool.eqb].
  rewrite (parse_value_ws n " ") by done.
  rewrite Hv; [|lia|by destruct kvs].
  cbn [mbind option_bind]. destruct kvs as [|kv2 kvs]; cbn [map].
  - rewrite <-(string_app_assoc newline (indent d)), skip_ws_app by apply newline_indent_ws.
    cbn. done.
  - rewrite string_app_assoc.
    match goal with |- context [skip_ws ("," +:+ ?x)] =>
      change (skip_ws ("," +:+ x)) with (String "," x) end.
    cbn [Ascii.eqb Bool.eqb].
    change (Join _ _) with (lines d (map (λ kv, json_string (fst kv) +:+ ": " +:+ print (S d) (snd kv)) (kv2 :: kvs))).
    rewrite IH; [done|done|done|]. cbn in Hn |- *. lia.
Qed.

Lemma block_cons open close d x l rest :
  block open close d (x :: l) +:+ rest =
  open +:+ (newline +:+ (lines d (x :: l) +:+ (newline +:+ (indent d +:+ (close +:+ rest))))).
Proof. unfold block, lines. by rewrite !string_app_assoc. Qed.

(** Skipping the white space that opens a non-empty block leads to the head of
    its first line, which closes no bracket. *)
Lemma block_not_closed d c t l x :
  value_head c = true →
  ∃ t', skip_ws (newline +:+ (lines d (String c t :: l) +:+ x)) = String c t'.
Proof.
  intros Hc%value_head_ws. unfold lines. cbn [map].
  rewrite join_cons, string_app_assoc, <-string_app_assoc, skip_ws_app by apply newline_indent_ws.
  cbn [String.append]. rewrite skip_ws_head by apply Hc. eauto.
Qed.

Lemma parse_value_print v : printable v → ∀ n d rest,
  jsize v ≤ n → ends rest = true → parse_value n (print d v +:+ rest) = Some (v, rest).
Proof.
  induction v as [|b|lit|s|l IH|kvs IH] using json_nested_ind; intros Hp [|n] d rest Hn He;
    try (cbn in Hn; lia); inversion Hp as [| |z Hz|? Hs|? Hl|? Hl]; subst.
  - cbn. destruct rest; reflexivity.
  - destruct b; cbn; destruct rest; reflexivity.
  - destruct (Itoa_head z) as (c & t & Hi & Hc).
    assert (value_head c = true) as Hh by (unfold value_head; by rewrite Hc).
    pose proof (value_head_ws _ Hh) as (Hws & _).
    cbn [print parse_value]. rewrite Hi. cbn [String.append]. rewrite skip_ws_head by done.
    change (String c (t +:+ rest)) with (String c t +:+ rest). rewrite <-Hi.
    rewrite parse_number_Itoa by done. clear -Hc.
    destruct c as [[] [] [] [] [] [] [] []]; vm_compute in Hc; try discriminate Hc; reflexivity.
  - cbn [print parse_value].
    change (skip_ws (json_string s +:+ rest)) with (json_string s +:+ rest).
    rewrite parse_json_string by done. reflexivity.
  - destruct l as [|v l]; [done|]. cbn [print map]. rewrite block_cons.
    cbn [parse_value].
    assert (∃ c t, print (S d) v = String c t ∧ value_head c = true) as (c & t & Hpv & Hc).
    { apply print_head. by inversion Hl. }
    destruct (block_not_closed d c t (map (print (S d)) l)
                (newline +:+ (indent d +:+ ("]" +:+ rest))) Hc) as [t' Ht'].
    match goal with |- context [skip_ws ("[" +:+ ?x)] =>
      change (skip_ws ("[" +:+ x)) with (String "[" x) end. cbn [Ascii.eqb Bool.eqb].
    rewrite Hpv, Ht', <-Hpv. change (print (S d) v :: map (print (S d)) l) with (map (print (S d)) (v :: l)).
    rewrite parse_elems_print; [|clear -IH Hl|done|cbn in Hn |- *; lia].
    + clear -Hc. destruct c as [[] [] [] [] [] [] [] []]; vm_compute in Hc; try discriminate Hc; reflexivity.
    + rewrite Forall_forall in IH, Hl. apply Forall_forall. auto.
  - destruct kvs as [|[k v] kvs]; [done|]. cbn [print map fst snd]. rewrite block_cons.
    cbn [parse_value].
    destruct (block_not_closed d quote_char (escape_skip 0 k +:+ dq +:+ ": " +:+ print (S d) v)
                (map (λ kv, json_string (fst kv) +:+ ": " +:+ print (S d) (snd kv)) kvs)
                (newline +:+ (indent d +:+ ("}" +:+ rest))) eq_refl) as [t' Ht'].
    assert (String quote_char (escape_skip 0 k +:+ dq +:+ ": " +:+ print (S d) v)
            = json_string k +:+ ": " +:+ print (S d) v) as Hk.
    { unfold json_string. cbn [dq String.append]. by rewrite !string_app_assoc. }
    rewrite Hk in Ht'.
    match goal with |- context [skip_ws ("{" +:+ ?x)] =>
      change (skip_ws ("{" +:+ x)) with (String "{" x) end. cbn [Ascii.eqb Bool.eqb].
    rewrite Ht'.
    change ((json_string k +:+ ": " +:+ print (S d) v) ::
        map (λ kv, json_string (fst kv) +:+ ": " +:+ print (S d) (snd kv)) kvs)
      with (map (λ kv, json_string (fst kv) +:+ ": " +:+ print (S d) (snd kv)) ((k, v) :: kvs)).
    rewrite parse_members_print; [done|clear -IH Hl|done|cbn in Hn |- *; lia].
    rewrite Forall_forall in IH, Hl. apply Forall_forall. intros kv Hkv.
    destruct (Hl kv Hkv). auto.
Qed.

Lemma length_lines d l :
  list_sum (map (λ x, S (String.length x)) l) ≤ S (String.length (lines d l)).
Proof.
  unfold lines. induction l as [|x [|y l] IH].
  - cbn. lia.
  - cbn. rewrite !string_length_app. lia.
  - cbn [map Join] in *. cbn [list_sum foldr] in *.
    rewrite !string_length_app in *. cbn in *. lia.
Qed.

Lemma length_block_sum {A} (f : A → string) (g : A → nat) o c d l :
  String.length o = 1 → String.length c = 1 →
  Forall (λ x, g x ≤ String.length (f x)) l →
  S (list_sum (map (λ x, S (g x)) l)) ≤ String.length (block o c d (map f l)).
Proof.
  intros Ho Hc Hl. destruct l as [|x l]; cbn [map].
  - cbn. rewrite string_length_app. lia.
  - assert (list_sum (map (λ x, S (g x)) (x :: l)) ≤
            list_sum (map (λ x, S (String.length x)) (map f (x :: l)))) as Hs.
    { clear -Hl. induction Hl as [|y l' Hy Hl IHl]; [done|].
      unfold list_sum in *. cbn in *. lia. }
    pose proof (length_lines d (f x :: map f l)) as H. unfold block.
    change (Join _ _) with (lines d (f x :: map f l)). rewrite !string_length_app.
    cbn [map] in Hs |- *. rewrite Ho, Hc. change (String.length newline) with 1. unfold list_sum in *. cbn [foldr map] in *.
    lia.
Qed.

Lemma length_print d v : printable v → jsize v ≤ String.length (print d v).
Proof.
  revert d. induction v as [|b|lit|s|l IH|kvs IH] using json_nested_ind; intros d Hp;
    inversion Hp as [| |z Hz|? Hs|? Hl|? Hl]; subst; cbn [jsize print].
  - cbn; lia.
  - destruct b; cbn; lia.
  - destruct (Itoa_head z) as (c & t & -> & _). cbn; lia.
  - unfold json_string. rewrite string_length_app. cbn; lia.
  - apply length_block_sum; [done|done|]. rewrite Forall_forall in IH, Hl.
    apply Forall_forall. auto.
  - apply (length_block_sum _ (λ kv, jsize (snd kv))); [done|done|].
    rewrite Forall_forall in IH, Hl. apply Forall_forall. intros kv Hkv.
    destruct (Hl kv Hkv) as [_ Hpv]. specialize (IH kv Hkv (S d) Hpv).
    rewrite !string_length_app. lia.
Qed.

(** Decoding what was printed gives the value back, whatever follows it. *)
Lemma parse_print d v rest :
  printable v → ends rest = true → decode_first (print d v +:+ rest) = Some (v, rest).
Proof.
  intros Hp He. unfold decode_first. apply parse_value_print; [done| |done].
  pose proof (length_print d v Hp). rewrite string_length_app. lia.
Qed.

Lemma unmarshal_print d v rest :
  printable v → string_forall is_ws rest = true → unmarshal (print d v +:+ rest) = Some v.
Proof.
  intros Hp Hr. unfold unmarshal. rewrite parse_print; [|done|].
  - cbn. rewrite <-(string_app_nil_r rest), skip_ws_app by done. done.
  - destruct rest as [|c rest]; [done|]. cbn in Hr. apply andb_true_iff in Hr as [Hc _].
    clear -Hc. destruct c as [[] [] [] [] [] [] [] []]; vm_compute in Hc; try discriminate Hc; reflexivity.
Qed.
