(* ===== verification/Orm.v ===== *)
(** * Model metadata: src/orm/orm.go

    The column types, fields, models, the registry that collects them from the
    mounted modules and [validate], the one definition of a valid table that
    registration, recorded state and the admin all share. *)

From S2P Require Import Prelude GoStrings.

(** ** Column types

    Go's [type Type string]: any string is representable, seven are valid. *)

Definition Type_ := string.
Definition TypeString : Type_ := "string".
Definition TypeInt : Type_ := "int".
Definition TypeInt64 : Type_ := "int64".
Definition TypeFloat : Type_ := "float".
Definition TypeBool : Type_ := "bool".
Definition TypeTime : Type_ := "time".
Definition TypeBytes : Type_ := "bytes".

Definition Valid (t : Type_) : bool :=
  existsb (String.eqb t)
    [TypeString; TypeInt; TypeInt64; TypeFloat; TypeBool; TypeTime; TypeBytes].

(** ** Fields, models, registrations *)

Record Field := mkField {
  fName : string;
  fType : Type_;
  fMaxLen : Z;
  fNullable : bool;
  fPrimaryKey : bool;
  fUnique : bool;
  fIndex : bool;
}.

Record Model := mkModel {
  mTable : string;
  mFields : list Field;
}.

Record Registered := mkRegistered {
  rModule : string;
  rModel : Model;
}.

#[export] Instance Field_eq_dec : EqDecision Field.
Proof. solve_decision. Defined.
#[export] Instance Model_eq_dec : EqDecision Model.
Proof. solve_decision. Defined.
#[export] Instance Registered_eq_dec : EqDecision Registered.
Proof. solve_decision. Defined.

(** The table a registration is keyed and sorted by. *)
Definition table_of (r : Registered) : string := mTable (rModel r).

(** ** Errors

    Every error wraps sentinels ([errors.Is] looks for one) and carries the
    arguments its message is formatted from. *)

Inductive sentinel :=
| ErrDuplicateTable | ErrInvalidModel | ErrInvalidField | ErrBadState | ErrBadSteps.

#[export] Instance sentinel_eq_dec : EqDecision sentinel.
Proof. solve_decision. Defined.

Inductive reason :=
| NoTableName
| NoFields (table : string)
| NoFieldName (table : string) (i : nat)
| BadFieldType (table field typ : string)
| FieldTwice (table field : string)
| LengthOnType (table field typ : string) (n : Z)
| NegativeLength (table field : string)
| NullablePrimaryKey (table field : string)
| UniquePrimaryKey (table field : string)
| IndexedPrimaryKey (table field : string)
| UniqueAndIndex (table field : string)
| NoPrimaryKey (table : string)
| CompositeKey (table : string) (n : nat)
| TableTwice (table module1 module2 : string)
| TableTwiceInState (src table : string)
| Undecodable (src : string)
| BadVersion (src : string) (v : Z)
| InSource (src : string) (r : reason)
| StepWithoutVersion
| VersionTwice (v : string)
| VersionOutOfOrder (v prev : string).

Record error := mkError { wraps : list sentinel; why : reason }.

(** [errors.Is]. *)
Definition Is (e : error) (s : sentinel) : bool := bool_decide (s ∈ wraps e).

(** ** [validate] *)

(** The body of the loop's [switch] on the [i]th field: the error it returns, if
    any, given the names seen so far. *)
Definition check_field (table : string) (i : nat) (seen : gset string) (f : Field) : option error :=
  let bad r := Some (mkError [ErrInvalidField] r) in
  if blank (fName f) then bad (NoFieldName table i)
  else if negb (Valid (fType f)) then bad (BadFieldType table (fName f) (fType f))
  else if bool_decide (fName f ∈ seen) then bad (FieldTwice table (fName f))
  else if negb (fMaxLen f =? 0)%Z && negb (String.eqb (fType f) TypeString)
    then bad (LengthOnType table (fName f) (fType f) (fMaxLen f))
  else if (fMaxLen f <? 0)%Z then bad (NegativeLength table (fName f))
  else if fPrimaryKey f && fNullable f then bad (NullablePrimaryKey table (fName f))
  else if fPrimaryKey f && fUnique f then bad (UniquePrimaryKey table (fName f))
  else if fPrimaryKey f && fIndex f then bad (IndexedPrimaryKey table (fName f))
  else if fUnique f && fIndex f then bad (UniqueAndIndex table (fName f))
  else None.

(** The loop: the number of primary keys, or the first error. *)
Fixpoint check_fields (table : string) (i : nat) (seen : gset string) (primaries : nat)
    (fs : list Field) : result error nat :=
  match fs with
  | [] => Ok primaries
  | f :: fs' =>
      match check_field table i seen f with
      | Some e => Err e
      | None => check_fields table (S i) ({[fName f]} ∪ seen)
                  (if fPrimaryKey f then S primaries else primaries) fs'
      end
  end.

Definition validate (m : Model) : option error :=
  if blank (mTable m) then Some (mkError [ErrInvalidModel] NoTableName)
  else match mFields m with
  | [] => Some (mkError [ErrInvalidModel] (NoFields (mTable m)))
  | fs =>
      match check_fields (mTable m) 0 ∅ 0 fs with
      | Err e => Some e
      | Ok primaries =>
          if (primaries =? 0)%nat then Some (mkError [ErrInvalidModel] (NoPrimaryKey (mTable m)))
          else if (1 <? primaries)%nat
            then Some (mkError [ErrInvalidModel] (CompositeKey (mTable m) primaries))
          else None
      end
  end.

(** ** The registry *)

Record Registry := mkRegistry { byTable : gmap string Registered }.

Definition NewRegistry : Registry := mkRegistry ∅.

(** [slices.Clone]: a fresh slice with the same elements, so the identity on
    values. *)
Definition clone (m : Model) : Model := mkModel (mTable m) (map (λ f, f) (mFields m)).

(** [Register] mutates the registry as it goes: the models before the one it
    rejects stay registered. *)
Fixpoint Register (r : Registry) (module : string) (models : list Model)
    : Registry * option error :=
  match models with
  | [] => (r, None)
  | m :: models' =>
      match validate m with
      | Some e => (r, Some e)
      | None =>
          match byTable r !! mTable m with
          | Some prev =>
              (r, Some (mkError [ErrDuplicateTable] (TableTwice (mTable m) (rModule prev) module)))
          | None =>
              Register (mkRegistry (<[mTable m := mkRegistered module (clone m)]> (byTable r)))
                module models'
          end
      end
  end.

(** The comparison of [sort.Slice] by table name. *)
Definition table_leb (a b : Registered) : bool := str_leb (table_of a) (table_of b).

Definition Models (r : Registry) : list Registered :=
  sort_by table_leb
    (map (λ reg, mkRegistered (rModule reg) (clone (rModel reg)))
         (map snd (map_to_list (byTable r)))).

(** ** What a valid table is *)

Definition valid_field (f : Field) : Prop :=
  blank (fName f) = false
  ∧ Valid (fType f) = true
  ∧ (fMaxLen f ≠ 0%Z → fType f = TypeString)
  ∧ (0 <= fMaxLen f)%Z
  ∧ (fPrimaryKey f = true → fNullable f = false ∧ fUnique f = false ∧ fIndex f = false)
  ∧ ¬ (fUnique f = true ∧ fIndex f = true).

Definition primaries (fs : list Field) : list Field := List.filter fPrimaryKey fs.

Definition valid_model (m : Model) : Prop :=
  blank (mTable m) = false
  ∧ NoDup (map fName (mFields m))
  ∧ Forall valid_field (mFields m)
  ∧ length (primaries (mFields m)) = 1.

(** ** Lemmas *)

Lemma clone_id m : clone m = m.
Proof. destruct m; unfold clone; cbn. by rewrite map_id. Qed.

Lemma Is_spec e s : Is e s = true ↔ s ∈ wraps e.
Proof. apply bool_decide_eq_true. Qed.

Lemma check_field_ok table i seen f :
  check_field table i seen f = None ↔ valid_field f ∧ fName f ∉ seen.
Proof.
  unfold check_field, valid_field.
  destruct (blank (fName f)); [naive_solver|].
  destruct (Valid (fType f)); cbn; [|naive_solver].
  case_bool_decide; [naive_solver|].
  destruct (Z.eqb_spec (fMaxLen f) 0), (String.eqb_spec (fType f) TypeString),
    (Z.ltb_spec (fMaxLen f) 0); cbn; try (naive_solver lia);
  destruct (fPrimaryKey f), (fNullable f), (fUnique f), (fIndex f); cbn; naive_solver lia.
Qed.

Lemma check_field_err table i seen f e :
  check_field table i seen f = Some e → wraps e = [ErrInvalidField].
Proof. unfold check_field. repeat case_match; naive_solver. Qed.

Lemma check_fields_ok table i seen n fs k :
  check_fields table i seen n fs = Ok k ↔
  Forall valid_field fs ∧ NoDup (map fName fs) ∧ (∀ f, f ∈ fs → fName f ∉ seen)
  ∧ k = n + length (primaries fs).
Proof.
  revert i seen n; induction fs as [|f fs IH]; intros i seen n; cbn.
  - split; [intros [= ->]|intros (_ & _ & _ & ->)].
    + split_and!; [constructor|constructor|set_solver|lia].
    + f_equal; lia.
  - destruct (check_field table i seen f) as [e|] eqn:E.
    + split; [done|]. intros (Hv & Hnd & Hs & _). exfalso.
      apply Forall_cons in Hv as [Hv _]. specialize (Hs f ltac:(set_solver)).
      by rewrite (proj2 (check_field_ok table i seen f) (conj Hv Hs)) in E.
    + apply check_field_ok in E as [Hv Hf]. rewrite IH, Forall_cons, NoDup_cons.
      assert ((∀ g, g ∈ fs → fName g ∉ {[fName f]} ∪ seen)
              ↔ (∀ g, g ∈ f :: fs → fName g ∉ seen) ∧ fName f ∉ map fName fs) as ->.
      { rewrite list_elem_of_fmap. set_solver. }
      destruct (fPrimaryKey f); cbn; rewrite ?Nat.add_succ_r; naive_solver.
Qed.

Lemma check_fields_err table i seen n fs e :
  check_fields table i seen n fs = Err e → wraps e = [ErrInvalidField].
Proof.
  revert i seen n; induction fs as [|f fs IH]; intros i seen n; cbn; [done|].
  destruct (check_field table i seen f) eqn:E; [|eauto].
  intros [= <-]. eauto using check_field_err.
Qed.

(** [validate] accepts exactly the valid tables. *)
Lemma validate_valid m : validate m = None ↔ valid_model m.
Proof.
  unfold validate, valid_model.
  destruct (blank (mTable m)); [naive_solver|].
  destruct (mFields m) as [|f fs] eqn:Ef; [cbn; naive_solver lia|].
  destruct (check_fields (mTable m) 0 ∅ 0 (f :: fs)) as [k|e] eqn:E.
  - pose proof E as Hk. apply check_fields_ok in Hk as (Hv & Hnd & _ & ->).
    rewrite Nat.add_0_l. destruct (length (primaries (f :: fs))) as [|[|n]]; cbn; naive_solver.
  - split; [done|]. intros (_ & Hnd & Hv & H1). exfalso.
    assert (check_fields (mTable m) 0 ∅ 0 (f :: fs) = Ok (0 + 1)) as E2; [|congruence].
    apply check_fields_ok. rewrite H1. set_solver.
Qed.

Lemma validate_err_is m e :
  validate m = Some e → wraps e = [ErrInvalidModel] ∨ wraps e = [ErrInvalidField].
Proof.
  unfold validate. destruct (blank (mTable m)); [intros [= <-]; by left|].
  destruct (mFields m) as [|f fs]; [intros [= <-]; by left|].
  destruct (check_fields _ _ _ _ _) as [k|e'] eqn:E.
  - repeat case_match; try done; intros [= <-]; by left.
  - intros [= <-]. right. eauto using check_fields_err.
Qed.

#[export] Instance valid_model_dec m : Decision (valid_model m).
Proof.
  destruct (validate m) eqn:E; [right|left].
  - by rewrite <-validate_valid, E.
  - by apply validate_valid.
Defined.

(** The comparison by table name is a total preorder, and separates
    registrations of different tables. *)
Lemma table_leb_total a b : table_leb a b = true ∨ table_leb b a = true.
Proof. apply str_leb_total. Qed.
Lemma table_leb_trans a b c :
  table_leb a b = true → table_leb b c = true → table_leb a c = true.
Proof. apply str_leb_trans. Qed.
#[export] Hint Resolve table_leb_total table_leb_trans : fabrin.

Lemma table_leb_anti (l : list Registered) :
  NoDup (map table_of l) →
  ∀ x y, x ∈ l → y ∈ l → table_leb x y = true → table_leb y x = true → x = y.
Proof.
  intros Hnd x y Hx Hy H1 H2.
  pose proof (str_leb_antisym _ _ H1 H2) as Heq. clear H1 H2.
  revert Hx Hy. induction l as [|z l IH]; [set_solver|].
  cbn in Hnd. apply NoDup_cons in Hnd as [Hz Hnd].
  rewrite !elem_of_cons. intros [->|Hx] [->|Hy]; [done| | |auto].
  - destruct Hz. rewrite Heq. apply list_elem_of_fmap. eauto.
  - destruct Hz. rewrite <-Heq. apply list_elem_of_fmap. eauto.
Qed.

(** Strictly ascending by table: what [Models] and snapshots are. *)
Definition ascending (l : list Registered) : Prop :=
  StronglySorted (λ a b, str_ltb (table_of a) (table_of b) = true) l.

Lemma ascending_nodup l : ascending l → NoDup (map table_of l).
Proof.
  induction 1 as [|a l Hs IH Hall]; cbn; [constructor|].
  constructor; [|done]. rewrite list_elem_of_fmap. intros (b & Hb & Hin).
  rewrite Forall_forall in Hall. specialize (Hall b Hin). rewrite Hb in Hall.
  by rewrite str_ltb_irrefl in Hall.
Qed.

Lemma sorted_nodup_ascending l :
  StronglySorted (le_by table_leb) l → NoDup (map table_of l) → ascending l.
Proof.
  induction 1 as [|a l Hs IH Hall]; cbn; [constructor|].
  rewrite NoDup_cons. intros [Ha Hnd]. constructor; [by apply IH|].
  rewrite Forall_forall in Hall. apply Forall_forall. intros b Hb. specialize (Hall b Hb).
  unfold le_by, table_leb in Hall. rewrite str_leb_ltb, negb_true_iff in Hall.
  destruct (str_ltb (table_of a) (table_of b)) eqn:E; [done|].
  destruct Ha. rewrite (str_ltb_total _ _ E Hall). apply list_elem_of_fmap; eauto.
Qed.

Lemma sort_table_ascending l :
  NoDup (map table_of l) → ascending (sort_by table_leb l).
Proof.
  intros Hnd. apply sorted_nodup_ascending.
  - apply sort_by_sorted; eauto with fabrin.
  - by rewrite sort_by_perm.
Qed.

Lemma ascending_sort_id l : ascending l → sort_by table_leb l = l.
Proof.
  intros H. apply sort_by_id. eapply ssorted_impl; [|exact H].
  intros a b Hab. unfold le_by, table_leb. rewrite str_leb_ltb.
  by rewrite (str_ltb_antisym _ _ Hab).
Qed.

Lemma ascending_unique l1 l2 : ascending l1 → ascending l2 → l1 ≡ₚ l2 → l1 = l2.
Proof.
  intros H1 H2. apply StronglySorted_unique_strong with
    (R := λ a b, str_ltb (table_of a) (table_of b) = true); [|done|done].
  intros a b _ _ Hab Hba. by rewrite (str_ltb_antisym _ _ Hab) in Hba.
Qed.

(** ** Well-formed registries *)

Definition wf_registry (r : Registry) : Prop :=
  map_Forall (λ t reg, table_of reg = t ∧ valid_model (rModel reg)) (byTable r).

Lemma wf_NewRegistry : wf_registry NewRegistry.
Proof. apply map_Forall_empty. Qed.

(** The entries a successful registration adds. *)
Definition registrations (module : string) (ms : list Model) : list (string * Registered) :=
  map (λ m, (mTable m, mkRegistered module m)) ms.

Lemma Register_wf r module ms r' err :
  wf_registry r → Register r module ms = (r', err) → wf_registry r'.
Proof.
  revert r; induction ms as [|m ms IH]; cbn; intros r Hwf; [by intros [= <- _]|].
  destruct (validate m) eqn:Ev; [by intros [= <- _]|].
  destruct (byTable r !! mTable m); [by intros [= <- _]|].
  apply IH. intros t reg. cbn. rewrite lookup_insert_Some.
  intros [[<- <-]|[_ H]]; [|by apply Hwf].
  unfold table_of. cbn. rewrite !clone_id. by rewrite <-validate_valid.
Qed.

Lemma Register_ok r module ms r' :
  Register r module ms = (r', None) ↔
  Forall valid_model ms ∧ NoDup (map mTable ms)
  ∧ (∀ m, m ∈ ms → byTable r !! mTable m = None)
  ∧ byTable r' = list_to_map (registrations module ms) ∪ byTable r.
Proof.
  revert r; induction ms as [|m ms IH]; cbn; intros r.
  - split.
    + intros [= <-]. split_and!; [constructor|constructor|set_solver|].
      by rewrite map_empty_union.
    + intros (_ & _ & _ & H). rewrite map_empty_union in H.
      destruct r, r'; cbn in *; by subst.
  - rewrite Forall_cons, NoDup_cons. destruct (validate m) eqn:Ev.
    { split; [done|]. rewrite <-validate_valid. intros ([H _] & _). congruence. }
    destruct (byTable r !! mTable m) eqn:El.
    { split; [done|]. intros (_ & _ & H & _). specialize (H m ltac:(set_solver)). congruence. }
    rewrite IH, clone_id. cbn. apply validate_valid in Ev.
    assert (∀ (M : gmap string Registered), mTable m ∉ map mTable ms →
      list_to_map (registrations module ms) ∪ <[mTable m:=mkRegistered module m]> M =
      <[mTable m:=mkRegistered module m]> (list_to_map (registrations module ms)) ∪ M) as Hins.
    { intros M Hm. rewrite <-insert_union_r.
      - by rewrite insert_union_l.
      - apply not_elem_of_list_to_map. unfold registrations.
        rewrite <-list_fmap_compose. done. }
    split.
    + intros (Hv & Hnd & Hfr & ->). assert (mTable m ∉ map mTable ms) as Hm.
      { rewrite list_elem_of_fmap. intros (m2 & Heq & H2). specialize (Hfr m2 H2).
        rewrite Heq, lookup_insert_eq in Hfr. done. }
      split_and!; [done|done|done|done| |by apply Hins].
      intros m2. rewrite elem_of_cons. intros [->|H2]; [done|]. specialize (Hfr m2 H2).
      by apply lookup_insert_None in Hfr as [? _].
    + intros ((_ & Hv) & (Hm & Hnd) & Hfr & ->). split_and!; [done|done| |by rewrite Hins].
      intros m2 H2. apply lookup_insert_None. split; [apply Hfr; set_solver|].
      intros Heq. apply Hm. rewrite Heq. apply list_elem_of_fmap. eauto.
Qed.

(** A rejected registration stops at the first model it cannot take, keeping
    those before it. *)
Lemma Register_err r module ms r' e :
  Register r module ms = (r', Some e) →
  ∃ pre m post, ms = pre ++ m :: post ∧ Register r module pre = (r', None)
    ∧ (validate m = Some e
       ∨ ∃ prev, byTable r' !! mTable m = Some prev
           ∧ e = mkError [ErrDuplicateTable] (TableTwice (mTable m) (rModule prev) module)).
Proof.
  revert r; induction ms as [|m ms IH]; cbn; intros r; [done|].
  destruct (validate m) eqn:Ev.
  { intros [= <- <-]. exists [], m, ms. cbn. auto. }
  destruct (byTable r !! mTable m) as [prev|] eqn:El.
  { intros [= <- <-]. exists [], m, ms. cbn. eauto 10. }
  intros H. apply IH in H as (pre & m2 & post & -> & Hpre & Hc).
  exists (m :: pre), m2, post. cbn. rewrite Ev, El. auto.
Qed.

(** [Models] lists exactly the registered models, in ascending table order. *)
Lemma Models_perm r : Models r ≡ₚ map snd (map_to_list (byTable r)).
Proof.
  unfold Models. rewrite sort_by_perm.
  assert (∀ l : list Registered,
    map (λ reg, mkRegistered (rModule reg) (clone (rModel reg))) l = l) as ->; [|done].
  induction l as [|[md mo] l IH]; cbn; [done|]. by rewrite clone_id, IH.
Qed.

Lemma wf_tables r : wf_registry r → NoDup (map table_of (map snd (map_to_list (byTable r)))).
Proof.
  intros Hwf. rewrite List.map_map.
  assert (map (λ x, table_of x.2) (map_to_list (byTable r)) = map fst (map_to_list (byTable r))) as ->.
  { apply map_ext_in. intros [t reg] Hin. cbn. apply list_elem_of_In in Hin.
    by apply elem_of_map_to_list, Hwf in Hin as [? _]. }
  apply NoDup_fst_map_to_list.
Qed.

Lemma Models_ascending r : wf_registry r → ascending (Models r).
Proof.
  intros Hwf. apply sorted_nodup_ascending.
  - apply sort_by_sorted; eauto with fabrin.
  - rewrite Models_perm. by apply wf_tables.
Qed.

Lemma elem_of_Models r reg :
  wf_registry r → reg ∈ Models r ↔ byTable r !! table_of reg = Some reg.
Proof.
  intros Hwf. rewrite Models_perm. rewrite list_elem_of_fmap. split.
  - intros ([t x] & -> & Hin). cbn. apply elem_of_map_to_list in Hin.
    by destruct (Hwf _ _ Hin) as [-> _].
  - intros H. exists (table_of reg, reg). by rewrite elem_of_map_to_list.
Qed.

(** ** Properties *)

(** [validate] accepts exactly the tables that have a name, at least one
    column, distinct column names, columns each of a valid type with a length only
    where it makes sense and without contradictory flags, and exactly one primary
    key; every rejection is identifiable with [errors.Is] as an invalid model or an
    invalid field. *)
Theorem validate_spec (m : Model) :
  (validate m = None ↔ valid_model m)
  ∧ (∀ e, validate m = Some e → Is e ErrInvalidModel = true ∨ Is e ErrInvalidField = true).
Proof.
  split; [apply validate_valid|]. intros e [H|H]%validate_err_is; [left|right];
    apply Is_spec; rewrite H; set_solver.
Qed.

(** A module's registration keeps the registry well formed.  When it
    succeeds every model was valid and claimed a table nobody had, and [Models]
    lists, in ascending table order, what it listed before plus the new models.
    When it fails it names the first offending model, an invalid one or one whose
    table another module (or the same one) already has, and exactly the models
    before it are registered. *)
Theorem Register_spec (r : Registry) (module : string) (ms : list Model) :
  wf_registry r →
  let '(r', err) := Register r module ms in
  wf_registry r' ∧ ascending (Models r') ∧
  match err with
  | None =>
      Forall valid_model ms ∧ NoDup (map mTable ms)
      ∧ (∀ m, m ∈ ms → byTable r !! mTable m = None)
      ∧ Models r' ≡ₚ Models r ++ map (mkRegistered module) ms
  | Some e =>
      ∃ pre m post, ms = pre ++ m :: post ∧ Register r module pre = (r', None)
        ∧ (validate m = Some e
           ∨ ∃ prev, byTable r' !! mTable m = Some prev
               ∧ e = mkError [ErrDuplicateTable] (TableTwice (mTable m) (rModule prev) module))
  end.
Proof.
  intros Hwf. destruct (Register r module ms) as [r' err] eqn:E.
  pose proof (Register_wf _ _ _ _ _ Hwf E) as Hwf'.
  split; [done|]. split; [by apply Models_ascending|]. destruct err as [e|].
  - by apply Register_err in E.
  - apply Register_ok in E as (Hv & Hnd & Hfr & Hr'). split_and!; [done..|].
    rewrite !Models_perm, Hr'. rewrite Permutation_app_comm.
    assert (NoDup (map fst (registrations module ms))) as Hnd'.
    { unfold registrations. by rewrite List.map_map. }
    rewrite map_to_list_batch; [|done|].
    + rewrite map_app. apply Permutation_app; [|done].
      unfold registrations. by rewrite List.map_map.
    + intros [t reg] Hin. unfold registrations in Hin.
      apply list_elem_of_fmap in Hin as (m & [= -> _] & Hm). by apply Hfr.
Qed.

Definition example_model (table : string) : Model :=
  mkModel table [mkField "id" TypeInt64 0 false true false false;
                 mkField "title" TypeString 80 true false false true].

Lemma Register_spec_witness :
  wf_registry NewRegistry ∧
  ascending (Models (fst (Register NewRegistry "blog" [example_model "posts"; example_model "authors"]))).
Proof.
  split; [apply wf_NewRegistry|].
  exact (proj1 (proj2 (Register_spec NewRegistry "blog"
    [example_model "posts"; example_model "authors"] wf_NewRegistry))).
Defined.
