(* ===== verification/OrmState.v ===== *)
(** * Recorded schema state: src/orm/state.go

    A snapshot is the schema a migration leaves behind.  It is built from
    registrations ([NewSnapshot]), written next to the generated migration
    ([EncodeSnapshot]), read back ([ParseSnapshot]) and folded over the recorded
    migrations ([ReplayState]) to give the state the next diff starts from. *)

From S2P Require Import Prelude GoStrings Json Orm.

Record Snapshot := mkSnapshot { models : list Registered }.

#[export] Instance Snapshot_eq_dec : EqDecision Snapshot.
Proof. solve_decision. Defined.

(** ** Building a snapshot *)

Definition snapshotRegistered (reg : Registered) : Registered :=
  mkRegistered (rModule reg)
    (mkModel (mTable (rModel reg))
       (map (λ f, mkField (fName f) (fType f) (fMaxLen f) (fNullable f) (fPrimaryKey f)
                    (fUnique f) (fIndex f)) (mFields (rModel reg)))).

Definition cloneRegistered (reg : Registered) : Registered :=
  mkRegistered (rModule reg) (clone (rModel reg)).

Fixpoint findByTable (l : list Registered) (table : string) : option Registered :=
  match l with
  | [] => None
  | reg :: l' => if String.eqb (table_of reg) table then Some reg else findByTable l' table
  end.

(** The loop of [NewSnapshot]; [out] is what was appended so far. *)
Fixpoint collect (out : list Registered) (ms : list Registered) : result error (list Registered) :=
  match ms with
  | [] => Ok out
  | reg :: ms' =>
      match validate (rModel reg) with
      | Some e => Err e
      | None =>
          match findByTable out (table_of reg) with
          | Some prev =>
              Err (mkError [ErrDuplicateTable]
                     (TableTwice (table_of reg) (rModule prev) (rModule reg)))
          | None => collect (out ++ [snapshotRegistered reg]) ms'
          end
      end
  end.

Definition NewSnapshot (ms : list Registered) : result error Snapshot :=
  out ← collect [] ms; Ok (mkSnapshot (sort_by table_leb out)).

Definition Models (s : Snapshot) : list Registered := map cloneRegistered (models s).

(** ** The wire format *)

Definition wireField := Field.
Record wireModel := mkWireModel { wmModule : string; wmTable : string; wmFields : list wireField }.
Record wireState := mkWireState { wsV : Z; wsModels : list wireModel }.

Definition stateFormatVersion : Z := 1.

(** [omitempty]: a member is left out when its value is the zero value. *)
Definition omitempty (present : bool) (k : string) (v : json) : list (string * json) :=
  if present then [(k, v)] else [].

Definition json_field (f : wireField) : json :=
  JObj ([("name", JStr (fName f)); ("type", JStr (fType f))]
        ++ omitempty (negb (fMaxLen f =? 0)%Z) "max_len" (JNum (Itoa (fMaxLen f)))
        ++ omitempty (fNullable f) "nullable" (JBool (fNullable f))
        ++ omitempty (fPrimaryKey f) "primary_key" (JBool (fPrimaryKey f))
        ++ omitempty (fUnique f) "unique" (JBool (fUnique f))
        ++ omitempty (fIndex f) "index" (JBool (fIndex f))).
Definition json_model (m : wireModel) : json :=
  JObj [("module", JStr (wmModule m)); ("table", JStr (wmTable m));
        ("fields", JArr (map json_field (wmFields m)))].
Definition json_state (w : wireState) : json :=
  JObj (omitempty (negb (wsV w =? 0)%Z) "v" (JNum (Itoa (wsV w)))
        ++ [("models", JArr (map json_model (wsModels w)))]).

Definition wire_of (s : Snapshot) : wireState :=
  mkWireState stateFormatVersion
    (map (λ reg, mkWireModel (rModule reg) (mTable (rModel reg)) (mFields (rModel reg))) (models s)).

(** The encoder's only failures are on types a wire value does not have. *)
Definition EncodeSnapshot (s : Snapshot) : result error string :=
  Ok (print 0 (json_state (wire_of s)) +:+ newline).

(** ** Decoding *)

Definition zero_field : wireField := mkField "" "" 0%Z false false false false.
Definition zero_model : wireModel := mkWireModel "" "" [].
Definition zero_state : wireState := mkWireState 0%Z [].

Definition set_field (k : string) (f : wireField) (v : json) : option wireField :=
  let '(mkField n t l nu pk u i) := f in
  if String.eqb k "name" then x ← dec_string n v; Some (mkField x t l nu pk u i)
  else if String.eqb k "type" then x ← dec_string t v; Some (mkField n x l nu pk u i)
  else if String.eqb k "max_len" then x ← dec_int l v; Some (mkField n t x nu pk u i)
  else if String.eqb k "nullable" then x ← dec_bool nu v; Some (mkField n t l x pk u i)
  else if String.eqb k "primary_key" then x ← dec_bool pk v; Some (mkField n t l nu x u i)
  else if String.eqb k "unique" then x ← dec_bool u v; Some (mkField n t l nu pk x i)
  else x ← dec_bool i v; Some (mkField n t l nu pk u x).
Definition dec_field : wireField → json → option wireField :=
  dec_struct true ["name"; "type"; "max_len"; "nullable"; "primary_key"; "unique"; "index"] set_field.

Definition set_model (k : string) (m : wireModel) (v : json) : option wireModel :=
  let '(mkWireModel md t fs) := m in
  if String.eqb k "module" then x ← dec_string md v; Some (mkWireModel x t fs)
  else if String.eqb k "table" then x ← dec_string t v; Some (mkWireModel md x fs)
  else x ← dec_slice dec_field zero_field fs v; Some (mkWireModel md t x).
Definition dec_model : wireModel → json → option wireModel :=
  dec_struct true ["module"; "table"; "fields"] set_model.

Definition set_state (k : string) (w : wireState) (v : json) : option wireState :=
  let '(mkWireState n ms) := w in
  if String.eqb k "v" then x ← dec_int n v; Some (mkWireState x ms)
  else x ← dec_slice dec_model zero_model ms v; Some (mkWireState n x).
Definition dec_state : wireState → json → option wireState :=
  dec_struct true ["v"; "models"] set_state.

(** Unversioned state was written when every column but the primary key was
    nullable and the flags were withheld. *)
Definition restore_field (legacy : bool) (f : Field) : Field :=
  if legacy && negb (fPrimaryKey f)
  then mkField (fName f) (fType f) (fMaxLen f) true (fPrimaryKey f) (fUnique f) (fIndex f)
  else f.
Definition restore (legacy : bool) (wm : wireModel) : Registered :=
  mkRegistered (wmModule wm) (mkModel (wmTable wm) (map (restore_field legacy) (wmFields wm))).

Fixpoint collect_wire (legacy : bool) (src : string) (out : list Registered) (wms : list wireModel)
    : result error (list Registered) :=
  match wms with
  | [] => Ok out
  | wm :: wms' =>
      let reg := restore legacy wm in
      match validate (rModel reg) with
      | Some e => Err (mkError (ErrBadState :: wraps e) (InSource src (why e)))
      | None =>
          match findByTable out (table_of reg) with
          | Some _ => Err (mkError [ErrBadState] (TableTwiceInState src (table_of reg)))
          | None => collect_wire legacy src (out ++ [reg]) wms'
          end
      end
  end.

Definition ParseSnapshot (data src : string) : result error Snapshot :=
  match ('(v, _) ← decode_first data; dec_state zero_state v) with
  | None => Err (mkError [ErrBadState] (Undecodable src))
  | Some wire =>
      let legacy := (wsV wire =? 0)%Z in
      if negb legacy && negb (wsV wire =? stateFormatVersion)%Z
      then Err (mkError [ErrBadState] (BadVersion src (wsV wire)))
      else out ← collect_wire legacy src [] (wsModels wire);
           Ok (mkSnapshot (sort_by table_leb out))
  end.

(** ** Replaying recorded state *)

Record StateStep := mkStep { stVersion : string; stState : option Snapshot }.

Fixpoint replay_steps (cur : list Registered) (prev : string) (steps : list StateStep)
    : result error (list Registered) :=
  match steps with
  | [] => Ok cur
  | step :: steps' =>
      if String.eqb (stVersion step) "" then Err (mkError [ErrBadSteps] StepWithoutVersion)
      else if negb (String.eqb prev "") && String.eqb (stVersion step) prev
        then Err (mkError [ErrBadSteps] (VersionTwice (stVersion step)))
      else if negb (String.eqb prev "") && str_ltb (stVersion step) prev
        then Err (mkError [ErrBadSteps] (VersionOutOfOrder (stVersion step) prev))
      else
        match stState step with
        | None => replay_steps cur (stVersion step) steps'
        | Some s => replay_steps (map cloneRegistered (models s)) (stVersion step) steps'
        end
  end.

Definition ReplayState (steps : list StateStep) : result error Snapshot :=
  cur ← replay_steps [] "" steps; Ok (mkSnapshot cur).

(** ** Well-formed snapshots *)

Definition wf_snapshot (s : Snapshot) : Prop :=
  ascending (models s) ∧ Forall (λ reg, valid_model (rModel reg)) (models s).

Lemma snapshotRegistered_id reg : snapshotRegistered reg = reg.
Proof.
  destruct reg as [md [t fs]]. unfold snapshotRegistered. cbn. do 2 f_equal.
  induction fs as [|[] fs IH]; cbn; [done|]. by rewrite IH.
Qed.

Lemma cloneRegistered_id reg : cloneRegistered reg = reg.
Proof. destruct reg. unfold cloneRegistered. cbn. by rewrite clone_id. Qed.

Lemma map_cloneRegistered l : map cloneRegistered l = l.
Proof. induction l as [|r l IH]; cbn; [done|]. by rewrite cloneRegistered_id, IH. Qed.

Lemma Models_models s : Models s = models s.
Proof. apply map_cloneRegistered. Qed.

Lemma findByTable_None l t : findByTable l t = None ↔ t ∉ map table_of l.
Proof.
  induction l as [|r l IH]; cbn; [set_solver|].
  destruct (String.eqb_spec (table_of r) t) as [<-|Hne]; [set_solver|].
  rewrite IH. set_solver.
Qed.

Lemma findByTable_Some l t reg :
  findByTable l t = Some reg → reg ∈ l ∧ table_of reg = t.
Proof.
  induction l as [|r l IH]; cbn; [done|].
  destruct (String.eqb_spec (table_of r) t) as [<-|Hne]; [intros [= ->]; set_solver|].
  intros []%IH. set_solver.
Qed.

(** The admissible inputs of [NewSnapshot]: valid models of distinct tables. *)
Definition snapshot_input (l : list Registered) : Prop :=
  Forall (λ reg, valid_model (rModel reg)) l ∧ NoDup (map table_of l).

Lemma fresh_app (out : list Registered) reg ms :
  table_of reg ∉ map table_of out →
  (∀ r, r ∈ ms → table_of r ∉ map table_of (out ++ [reg])) ↔
  (∀ r, r ∈ reg :: ms → table_of r ∉ map table_of out) ∧ table_of reg ∉ map table_of ms.
Proof.
  intros Hreg. rewrite map_app. cbn. split.
  - intros H. split.
    + intros r [->|Hr]%elem_of_cons; [done|]. specialize (H r Hr). set_solver.
    + rewrite list_elem_of_fmap. intros (r & Heq & Hr). specialize (H r Hr). set_solver.
  - intros [H1 H2] r Hr. specialize (H1 r ltac:(set_solver)).
    assert (table_of r ≠ table_of reg); [|set_solver].
    intros Heq. apply H2. rewrite list_elem_of_fmap. eauto.
Qed.

Lemma collect_ok out ms l :
  collect out ms = Ok l ↔
  l = out ++ ms ∧ snapshot_input ms ∧ (∀ r, r ∈ ms → table_of r ∉ map table_of out).
Proof.
  unfold snapshot_input. revert out; induction ms as [|reg ms IH]; intros out; cbn.
  - rewrite app_nil_r. split; [intros [= ->]|by intros (-> & _)].
    split_and!; [done|constructor|constructor|set_solver].
  - rewrite Forall_cons, NoDup_cons. destruct (validate (rModel reg)) eqn:Ev.
    { split; [done|]. rewrite <-validate_valid, Ev. by intros (_ & [[[=] _] _] & _). }
    apply validate_valid in Ev. destruct (findByTable out (table_of reg)) eqn:Ef.
    { split; [done|]. intros (_ & _ & H). apply findByTable_Some in Ef as [Hr Ht].
      destruct (H reg ltac:(set_solver)). rewrite <-Ht. apply list_elem_of_fmap; eauto. }
    apply findByTable_None in Ef.
    rewrite IH, snapshotRegistered_id, <-(app_assoc out), fresh_app by done. naive_solver.
Qed.

Lemma collect_err out ms e :
  collect out ms = Err e → (∃ reg, reg ∈ ms ∧ validate (rModel reg) = Some e)
    ∨ wraps e = [ErrDuplicateTable].
Proof.
  revert out; induction ms as [|reg ms IH]; intros out; cbn; [done|].
  destruct (validate (rModel reg)) eqn:Ev.
  { intros [= ->]. left. exists reg. split; [set_solver|done]. }
  destruct (findByTable out (table_of reg)); [intros [= <-]; by right|].
  intros [(r & Hr & H)|H]%IH; [left; exists r; set_solver|by right].
Qed.

Lemma NewSnapshot_iff ms s :
  NewSnapshot ms = Ok s ↔ snapshot_input ms ∧ s = mkSnapshot (sort_by table_leb ms).
Proof.
  unfold NewSnapshot. rewrite result_bind_ok. setoid_rewrite collect_ok. cbn. split.
  - intros (l & (-> & Hi & _) & [= <-]). done.
  - intros [Hi ->]. exists ms. split; [|done]. split; [done|]. split; [done|]. set_solver.
Qed.

Lemma snapshot_input_sort ms :
  snapshot_input ms → wf_snapshot (mkSnapshot (sort_by table_leb ms)).
Proof.
  intros [Hv Hnd]. split; cbn.
  - by apply sort_table_ascending.
  - by rewrite sort_by_perm.
Qed.

Lemma NewSnapshot_wf ms s : NewSnapshot ms = Ok s → wf_snapshot s.
Proof. intros [Hi ->]%NewSnapshot_iff. by apply snapshot_input_sort. Qed.

Lemma wf_snapshot_input s : wf_snapshot s → snapshot_input (models s).
Proof. intros [Ha Hv]. split; [done|]. by apply ascending_nodup. Qed.

Lemma NewSnapshot_models s : wf_snapshot s → NewSnapshot (models s) = Ok s.
Proof.
  intros Hwf. apply NewSnapshot_iff. split; [by apply wf_snapshot_input|].
  rewrite ascending_sort_id by apply Hwf. by destruct s.
Qed.

Lemma empty_wf : wf_snapshot (mkSnapshot []).
Proof. split; constructor. Qed.
#[export] Hint Resolve empty_wf NewSnapshot_wf : fabrin.

(** Two snapshots of the same registrations are the same snapshot. *)
Lemma sort_table_perm l1 l2 :
  NoDup (map table_of l1) → l1 ≡ₚ l2 → sort_by table_leb l1 = sort_by table_leb l2.
Proof.
  intros Hnd Hp. apply sort_by_permutation_invariant; eauto with fabrin.
  by apply table_leb_anti.
Qed.

(** A registry's models make a snapshot, unchanged. *)
Lemma registry_snapshot r :
  wf_registry r → NewSnapshot (Orm.Models r) = Ok (mkSnapshot (Orm.Models r)).
Proof.
  intros Hwf. apply (NewSnapshot_models (mkSnapshot (Orm.Models r))). split; cbn.
  - by apply Models_ascending.
  - apply Forall_forall. intros reg Hreg. apply elem_of_Models in Hreg; [|done].
    by destruct (Hwf _ _ Hreg).
Qed.

(** ** Decoding what was encoded *)

Lemma dec_elems_map {A} (dec : A → json → option A) zero (enc : A → json) l :
  Forall (λ x, dec zero (enc x) = Some x) l →
  dec_elems dec zero [] (map enc l) = Some l.
Proof.
  induction 1 as [|x l Hx Hl IH]; cbn; [done|]. rewrite Hx. cbn. by rewrite IH.
Qed.

(** The lengths an [int] can hold. *)
Definition int64 (z : Z) : Prop := (-9223372036854775808 <= z < 9223372036854775808)%Z.

Lemma dec_field_json f : int64 (fMaxLen f) → dec_field zero_field (json_field f) = Some f.
Proof.
  intros Hl. destruct f as [n t l nu pk u i]. unfold json_field. cbn [fName fType fMaxLen fNullable fPrimaryKey fUnique fIndex].
  destruct (Z.eqb_spec l 0) as [->|Hne].
  - by destruct nu, pk, u, i.
  - assert (Atoi (Itoa l) = Some l) as Ha by (apply Atoi_Itoa; unfold int64 in Hl; cbn in Hl; lia).
    destruct nu, pk, u, i; cbn -[Atoi Itoa]; rewrite Ha; reflexivity.
Qed.

Lemma dec_model_json m :
  Forall (λ f, int64 (fMaxLen f)) (wmFields m) → dec_model zero_model (json_model m) = Some m.
Proof.
  intros Hf. destruct m as [md t fs]. cbn -[dec_elems dec_field].
  rewrite dec_elems_map; [done|].
  eapply Forall_impl; [exact Hf|]. apply dec_field_json.
Qed.

Lemma dec_state_json w :
  wsV w = stateFormatVersion →
  Forall (λ m, Forall (λ f, int64 (fMaxLen f)) (wmFields m)) (wsModels w) →
  dec_state zero_state (json_state w) = Some w.
Proof.
  intros Hv Hm. destruct w as [v ms]. cbn in Hv. subst v. cbn -[dec_elems dec_model].
  rewrite dec_elems_map; [done|].
  eapply Forall_impl; [exact Hm|]. apply dec_model_json.
Qed.

(** The text and lengths the codec carries without loss. *)
Definition portable_field (f : Field) : Prop :=
  is_ascii (fName f) = true ∧ is_ascii (fType f) = true ∧ int64 (fMaxLen f).
Definition portable (s : Snapshot) : Prop :=
  Forall (λ reg, is_ascii (rModule reg) = true ∧ is_ascii (table_of reg) = true
                 ∧ Forall portable_field (mFields (rModel reg))) (models s).

Lemma printable_field f : portable_field f → printable (json_field f).
Proof.
  intros (Hn & Ht & _). constructor. rewrite !Forall_app.
  repeat split; unfold omitempty; repeat case_match; repeat constructor; done.
Qed.

Lemma Forall_map_impl {A B} (P : A → Prop) (Q : B → Prop) (f : A → B) l :
  (∀ x, P x → Q (f x)) → Forall P l → Forall Q (map f l).
Proof. intros H. induction 1; cbn; constructor; auto. Qed.

Lemma printable_state s : portable s → printable (json_state (wire_of s)).
Proof.
  intros Hp. constructor. repeat constructor. cbn. rewrite List.map_map.
  eapply Forall_map_impl; [|exact Hp]. intros reg (Hm & Ht & Hf). cbn.
  constructor. repeat constructor; cbn; [done|done|].
  eapply Forall_map_impl; [apply printable_field|done].
Qed.

Lemma restore_current wm :
  restore false wm = mkRegistered (wmModule wm) (mkModel (wmTable wm) (wmFields wm)).
Proof.
  unfold restore. do 2 f_equal. induction (wmFields wm); cbn; [done|]. by f_equal.
Qed.

Lemma collect_wire_ok legacy src out wms l :
  collect_wire legacy src out wms = Ok l ↔ collect out (map (restore legacy) wms) = Ok l.
Proof.
  revert out; induction wms as [|wm wms IH]; intros out; cbn; [done|].
  destruct (validate _); [done|]. destruct (findByTable _ _); [done|].
  by rewrite IH, snapshotRegistered_id.
Qed.

Lemma collect_wire_err legacy src out wms e :
  collect_wire legacy src out wms = Err e → ErrBadState ∈ wraps e.
Proof.
  revert out; induction wms as [|wm wms IH]; intros out; cbn; [done|].
  destruct (validate _); [intros [= <-]; set_solver|].
  destruct (findByTable _ _); [intros [= <-]; set_solver|]. apply IH.
Qed.

Lemma wire_of_restore s : map (restore false) (wsModels (wire_of s)) = models s.
Proof.
  destruct s as [ms]. cbn. rewrite List.map_map. induction ms as [|reg ms IH]; [done|].
  cbn [map]. rewrite IH, restore_current. by destruct reg as [? []].
Qed.

Lemma ParseSnapshot_encoded s junk src :
  wf_snapshot s → portable s →
  ParseSnapshot (print 0 (json_state (wire_of s)) +:+ (newline +:+ junk)) src = Ok s.
Proof.
  intros Hwf Hp. unfold ParseSnapshot. rewrite parse_print; [|by apply printable_state|done].
  cbn [mbind option_bind]. rewrite dec_state_json; [|done|].
  - cbn -[sort_by collect_wire wire_of]. change (wsV (wire_of s)) with 1%Z. cbn -[sort_by collect_wire wire_of].
    rewrite (proj2 (collect_wire_ok _ _ _ _ (models s))).
    + cbn. rewrite ascending_sort_id by apply Hwf. by destruct s.
    + rewrite wire_of_restore. apply collect_ok.
      split; [done|]. split; [by apply wf_snapshot_input|]. set_solver.
  - cbn. eapply Forall_map_impl; [|exact Hp]. intros reg (_ & _ & Hf). cbn.
    eapply Forall_impl; [exact Hf|]. by intros f (_ & _ & ?).
Qed.

(** A replay prefix: every step has a version, and versions ascend. *)
Definition ascending_from (prev : string) (steps : list StateStep) : Prop :=
  StronglySorted (λ a b, str_ltb a b = true) (map stVersion steps)
  ∧ Forall (λ v, v ≠ "") (map stVersion steps)
  ∧ (prev ≠ "" → Forall (λ v, str_ltb prev v = true) (map stVersion steps)).

(** The last state recorded, [cur] when there is none. *)
Definition last_state (cur : list Registered) (steps : list StateStep) : list Registered :=
  foldl (λ cur step, match stState step with Some s => models s | None => cur end) cur steps.

Lemma replay_steps_spec cur prev steps :
  (ascending_from prev steps ∧ replay_steps cur prev steps = Ok (last_state cur steps))
  ∨ (¬ ascending_from prev steps
     ∧ ∃ e, replay_steps cur prev steps = Err e ∧ wraps e = [ErrBadSteps]).
Proof.
  unfold ascending_from. revert cur prev.
  induction steps as [|step steps IH]; intros cur prev; cbn.
  { left. repeat split; constructor. }
  destruct (String.eqb_spec (stVersion step) "") as [E|Hne].
  { right. split; [|eauto]. intros (_ & Hall & _). by inversion Hall. }
  destruct (String.eqb_spec prev "") as [->|Hp]; cbn.
  2: destruct (String.eqb_spec (stVersion step) prev) as [E|Hd].
  2:{ right. split; [|eauto]. intros (_ & _ & H). specialize (H Hp).
      apply Forall_cons in H as [Hx _]. by rewrite E, str_ltb_irrefl in Hx. }
  2: destruct (str_ltb (stVersion step) prev) eqn:Elt.
  2:{ right. split; [|eauto]. intros (_ & _ & H). specialize (H Hp).
      apply Forall_cons in H as [Hx _]. by rewrite (str_ltb_antisym _ _ Elt) in Hx. }
  all: set (cur' := match stState step with Some s => models s | None => cur end).
  all: assert (match stState step with
               | Some s => replay_steps (map cloneRegistered (models s)) (stVersion step) steps
               | None => replay_steps cur (stVersion step) steps end
               = replay_steps cur' (stVersion step) steps) as ->
    by (unfold cur'; destruct (stState step); rewrite ?map_cloneRegistered; done).
  all: change (foldl _ cur' steps) with (last_state cur' steps).
  all: destruct (IH cur' (stVersion step)) as [[(Hs & Hn & Hf) Hr]|[Hno Hr]].
  all: try (right; split; [|done]; intros (Hs & Hn & Hf); apply Hno;
    inversion Hs; inversion Hn; subst; split_and!; done).
  - left. split; [|done]. split_and!; [constructor; auto|by constructor|done].
  - left. split; [|done]. specialize (Hf Hne).
    assert (str_ltb prev (stVersion step) = true) as Hlt.
    { destruct (str_ltb prev (stVersion step)) eqn:E; [done|]. by destruct Hd; apply str_ltb_total. }
    split_and!; [by constructor|by constructor|]. intros _. constructor; [done|].
    eapply Forall_impl; [exact Hf|]. eauto with fabrin.
Qed.

Lemma ReplayState_wf steps s :
  Forall (λ st, ∀ s, stState st = Some s → wf_snapshot s) steps →
  ReplayState steps = Ok s → wf_snapshot s.
Proof.
  intros Hall. unfold ReplayState. rewrite result_bind_ok. intros (l & Hl & [= <-]).
  destruct (replay_steps_spec [] "" steps) as [[_ H]|[_ (e & H & _)]]; [|congruence].
  rewrite H in Hl. injection Hl as <-. clear H.
  assert (∀ cur, wf_snapshot (mkSnapshot cur) → wf_snapshot (mkSnapshot (last_state cur steps))) as Hg;
    [|apply Hg, empty_wf].
  induction steps as [|st steps IH]; cbn; [done|]. apply Forall_cons in Hall as [H1 H2].
  intros cur Hc. apply IH; [done|]. destruct (stState st) as [[ms]|]; [by apply H1|done].
Qed.

Lemma ParseSnapshot_inv data src s :
  ParseSnapshot data src = Ok s →
  ∃ v rest wire, decode_first data = Some (v, rest) ∧ dec_state zero_state v = Some wire
    ∧ (wsV wire = 0 ∨ wsV wire = stateFormatVersion)%Z
    ∧ NewSnapshot (map (restore (wsV wire =? 0)%Z) (wsModels wire)) = Ok s.
Proof.
  unfold ParseSnapshot. destruct (decode_first data) as [[v rest]|]; cbn [mbind option_bind]; [|done].
  destruct (dec_state zero_state v) as [wire|] eqn:Ew; [|done].
  destruct (negb _ && _) eqn:Eb; [done|]. rewrite result_bind_ok.
  intros (out & Hc & [= <-]). exists v, rest, wire. split_and!; [done|done| |].
  - boolify. destruct (Z.eqb_spec (wsV wire) 0); [by left|]. right. naive_solver.
  - apply collect_wire_ok in Hc. unfold NewSnapshot. by rewrite Hc.
Qed.

Lemma ParseSnapshot_wf data src s : ParseSnapshot data src = Ok s → wf_snapshot s.
Proof. intros (? & ? & ? & _ & _ & _ & H)%ParseSnapshot_inv. eauto with fabrin. Qed.
#[export] Hint Resolve ParseSnapshot_wf : fabrin.

(** ** Properties *)

(** [NewSnapshot] succeeds exactly on valid models of pairwise distinct
    tables; the snapshot holds those models in strictly ascending table order, and
    is the same for every order the models are given in; a rejection carries the
    model's own validation error or [ErrDuplicateTable]. *)
Theorem NewSnapshot_spec (ms : list Registered) :
  match NewSnapshot ms with
  | Ok s =>
      snapshot_input ms ∧ ascending (Models s) ∧ Models s ≡ₚ ms
      ∧ ∀ ms', ms' ≡ₚ ms → NewSnapshot ms' = Ok s
  | Err e =>
      ¬ snapshot_input ms
      ∧ ((∃ reg, reg ∈ ms ∧ validate (rModel reg) = Some e) ∨ Is e ErrDuplicateTable = true)
  end.
Proof.
  destruct (NewSnapshot ms) as [s|e] eqn:E.
  - apply NewSnapshot_iff in E as [Hi ->]. rewrite Models_models. cbn.
    split_and!; [done|apply (snapshot_input_sort ms Hi)|apply sort_by_perm|].
    intros ms' Hp. apply NewSnapshot_iff. split.
    + destruct Hi. split; by rewrite Hp.
    + f_equal. apply sort_table_perm; [|done]. apply Hi.
  - split.
    + intros Hi. rewrite (proj2 (NewSnapshot_iff ms _) (conj Hi eq_refl)) in E. done.
    + unfold NewSnapshot in E. apply result_bind_err in E as [[H|H]%collect_err|(?&?&?)];
        [by left| |done]. right. apply Is_spec. rewrite H. set_solver.
Qed.

(** C29: recorded state survives the trip through its file.  For every
    well-formed snapshot whose names are ASCII and whose lengths fit a Go [int],
    encoding succeeds and parsing the bytes gives back the identical snapshot. *)
Theorem EncodeSnapshot_ParseSnapshot (s : Snapshot) (src : string) :
  wf_snapshot s → portable s →
  ∃ data, EncodeSnapshot s = Ok data ∧ ParseSnapshot data src = Ok s.
Proof.
  intros Hwf Hp. eexists; split; [reflexivity|].
  rewrite <-(string_app_nil_r newline). by apply ParseSnapshot_encoded.
Qed.

Definition example_snapshot : Snapshot :=
  mkSnapshot [mkRegistered "blog" (example_model "authors");
              mkRegistered "blog" (example_model "posts")].

Lemma example_snapshot_wf : wf_snapshot example_snapshot.
Proof. apply (NewSnapshot_wf (models example_snapshot)). reflexivity. Qed.

Lemma example_snapshot_portable : portable example_snapshot.
Proof. repeat constructor; cbn; unfold int64; lia. Qed.

Lemma EncodeSnapshot_ParseSnapshot_witness :
  ∃ data, EncodeSnapshot example_snapshot = Ok data ∧ ParseSnapshot data "state" = Ok example_snapshot.
Proof.
  exact (EncodeSnapshot_ParseSnapshot example_snapshot "state"
           example_snapshot_wf example_snapshot_portable).
Defined.

(** Whatever bytes a state file holds, parsing either yields a
    well-formed snapshot (valid tables, distinct, ascending) that restores the
    decoded tables, every non-key column of unversioned state made nullable, or an
    error that wraps [ErrBadState]. *)
Theorem ParseSnapshot_safe (data src : string) :
  match ParseSnapshot data src with
  | Ok s =>
      wf_snapshot s ∧
      ∃ v rest wire, decode_first data = Some (v, rest) ∧ dec_state zero_state v = Some wire
        ∧ Models s ≡ₚ map (restore (wsV wire =? 0)%Z) (wsModels wire)
        ∧ (wsV wire = 0%Z → ∀ reg f, reg ∈ Models s → f ∈ mFields (rModel reg) →
             fPrimaryKey f = false → fNullable f = true)
  | Err e => Is e ErrBadState = true
  end.
Proof.
  destruct (ParseSnapshot data src) as [s|e] eqn:E.
  - split; [eauto with fabrin|]. apply ParseSnapshot_inv in E as (v & rest & wire & Hd & Hs & _ & Hn).
    apply NewSnapshot_iff in Hn as [_ ->]. exists v, rest, wire. rewrite Models_models. cbn.
    split_and!; [done|done|apply sort_by_perm|]. intros -> reg f.
    rewrite elem_of_sort_by, list_elem_of_fmap. intros (wm & -> & _). cbn.
    rewrite list_elem_of_fmap. intros (g & -> & _). unfold restore_field. cbn.
    destruct (fPrimaryKey g) eqn:Eg; cbn; [congruence|done].
  - apply Is_spec. unfold ParseSnapshot in E.
    destruct (_ ≫= _) as [wire|]; [|injection E as <-; set_solver].
    destruct (_ && _); [injection E as <-; set_solver|].
    apply result_bind_err in E as [H|(? & _ & [=])]. by apply collect_wire_err in H.
Qed.

(** [ReplayState] accepts exactly the chains whose versions are non-empty
    and strictly ascending, and returns the state of the last step that recorded
    one (the empty schema when none did); any other chain is refused as
    [ErrBadSteps]. *)
Theorem ReplayState_spec (steps : list StateStep) :
  let good := StronglySorted (λ a b, str_ltb a b = true) (map stVersion steps)
              ∧ Forall (λ v, v ≠ "") (map stVersion steps) in
  match ReplayState steps with
  | Ok s => good ∧ models s = last_state [] steps
  | Err e => ¬ good ∧ Is e ErrBadSteps = true
  end.
Proof.
  cbn zeta. unfold ReplayState.
  destruct (replay_steps_spec [] "" steps) as [[(Hs & Hn & _) ->]|[Hno (e & -> & He)]]; cbn.
  - done.
  - split; [|by apply Is_spec; rewrite He; set_solver]. intros [Hs Hn]. apply Hno.
    split_and!; done.
Qed.

(** Parsing stops after the first JSON value: a state file followed by
    arbitrary bytes is accepted as if they were not there. *)
Theorem ParseSnapshot_ignores_trailing (s : Snapshot) (junk src : string) :
  wf_snapshot s → portable s →
  ∃ data, EncodeSnapshot s = Ok data ∧ ParseSnapshot (data +:+ junk) src = Ok s.
Proof.
  intros Hwf Hp. eexists; split; [reflexivity|].
  rewrite string_app_assoc. by apply ParseSnapshot_encoded.
Qed.

Lemma ParseSnapshot_ignores_trailing_witness :
  ∃ data, EncodeSnapshot example_snapshot = Ok data
    ∧ ParseSnapshot (data +:+ "<<<<<<< conflict") "state" = Ok example_snapshot.
Proof.
  exact (ParseSnapshot_ignores_trailing example_snapshot "<<<<<<< conflict" "state"
           example_snapshot_wf example_snapshot_portable).
Defined.
