(* ===== verification/Diff.v ===== *)
(** * The differ: src/migratediff/migratediff.go

    The operations a migration is made of, and [Diff], which computes the
    operations that turn one recorded schema into another, in the order they have
    to run. *)

From S2P Require Import Prelude GoStrings Orm OrmState.

(** ** Operations

    The concrete operation types; each value is one schema change. *)

Inductive Operation :=
| CreateTable (model : Model)
| DropTable (table : string)
| AddColumn (table : string) (field : Field)
| DropColumn (table column : string)
| RenameColumn (table from to : string)
| ChangeType (table column : string) (to : Field)
| ChangeNullability (table column : string) (nullable : bool)
| AddUnique (table column : string)
| DropUnique (table column : string)
| AddIndex (table column : string)
| DropIndex (table column : string)
| AddPrimaryKey (table column : string)
| DropPrimaryKey (table column : string).

#[export] Instance Operation_eq_dec : EqDecision Operation.
Proof. solve_decision. Defined.

Definition Describe (op : Operation) : string :=
  match op with
  | CreateTable m => "create table " +:+ mTable m
  | DropTable t => "drop table " +:+ t
  | AddColumn t f => "add column " +:+ t +:+ "." +:+ fName f
  | DropColumn t c => "drop column " +:+ t +:+ "." +:+ c
  | RenameColumn t a b => "rename column " +:+ t +:+ "." +:+ a +:+ " to " +:+ b
  | ChangeType t c _ => "change type of " +:+ t +:+ "." +:+ c
  | ChangeNullability t c _ => "change nullability of " +:+ t +:+ "." +:+ c
  | AddUnique t c => "add unique " +:+ t +:+ "." +:+ c
  | DropUnique t c => "drop unique " +:+ t +:+ "." +:+ c
  | AddIndex t c => "add index " +:+ t +:+ "." +:+ c
  | DropIndex t c => "drop index " +:+ t +:+ "." +:+ c
  | AddPrimaryKey t c => "add primary key " +:+ t +:+ "." +:+ c
  | DropPrimaryKey t c => "drop primary key " +:+ t +:+ "." +:+ c
  end.

(** ** [Diff] *)

(** A later entry of the same name replaces an earlier one. *)
Definition index (ms : list Registered) : gmap string Registered :=
  foldl (λ out reg, <[table_of reg := reg]> out) ∅ ms.
Definition indexFields (fs : list Field) : gmap string Field :=
  foldl (λ out f, <[fName f := f]> out) ∅ fs.

(** An alteration with the keys it is sorted by. *)
Record ranked := mkRanked { rkColumn : string; rkRank : Z; rkOp : Operation }.

(** [add] under the condition of its [if]. *)
Definition when (b : bool) (r : ranked) : list ranked := if b then [r] else [].

(** The body of the loop over the fields of the new table. *)
Definition alter_field (table : string) (beforeFields : gmap string Field) (f : Field) : list ranked :=
  let add rank op := mkRanked (fName f) rank op in
  match beforeFields !! fName f with
  | None => [add 6%Z (AddColumn table f)]
  | Some prev =>
      when (fIndex prev && negb (fIndex f)) (add 0%Z (DropIndex table (fName f)))
      ++ when (fUnique prev && negb (fUnique f)) (add 1%Z (DropUnique table (fName f)))
      ++ when (fPrimaryKey prev && negb (fPrimaryKey f)) (add 2%Z (DropPrimaryKey table (fName f)))
      ++ when (negb (String.eqb (fType prev) (fType f)) || negb (fMaxLen prev =? fMaxLen f)%Z)
           (add 4%Z (ChangeType table (fName f) f))
      ++ when (negb (Bool.eqb (fNullable prev) (fNullable f)))
           (add 5%Z (ChangeNullability table (fName f) (fNullable f)))
      ++ when (negb (fPrimaryKey prev) && fPrimaryKey f) (add 7%Z (AddPrimaryKey table (fName f)))
      ++ when (negb (fUnique prev) && fUnique f) (add 8%Z (AddUnique table (fName f)))
      ++ when (negb (fIndex prev) && fIndex f) (add 9%Z (AddIndex table (fName f)))
  end.

(** The body of the loop over the fields of the old table. *)
Definition drop_field (table : string) (afterFields : gmap string Field) (f : Field) : list ranked :=
  match afterFields !! fName f with
  | Some _ => []
  | None => [mkRanked (fName f) 3%Z (DropColumn table (fName f))]
  end.

Definition alters (table : string) (was now : list Field) : list ranked :=
  flat_map (alter_field table (indexFields was)) now
  ++ flat_map (drop_field table (indexFields now)) was.

(** The comparison: rank, then column. *)
Definition ranked_leb (a b : ranked) : bool :=
  (rkRank a <? rkRank b)%Z || ((rkRank a =? rkRank b)%Z && str_leb (rkColumn a) (rkColumn b)).

Definition alter_table (was reg : Registered) : list Operation :=
  map rkOp (sort_by ranked_leb
    (alters (table_of reg) (mFields (rModel was)) (mFields (rModel reg)))).

Definition Diff (before after : Snapshot) : list Operation :=
  let beforeByTable := index (Models before) in
  let afterByTable := index (Models after) in
  flat_map (λ reg, match beforeByTable !! table_of reg with
                   | None => [CreateTable (rModel reg)]
                   | Some _ => [] end) (Models after)
  ++ flat_map (λ reg, match beforeByTable !! table_of reg with
                      | Some was => alter_table was reg
                      | None => [] end) (Models after)
  ++ flat_map (λ reg, match afterByTable !! table_of reg with
                      | None => [DropTable (table_of reg)]
                      | Some _ => [] end) (Models before).
