(* ===== verification/Plan.v ===== *)
(** * Planning migrations: src/makemigrations.go, the part that touches no file

    What makemigrations does with the operations of a diff: which table and which
    module an operation belongs to, the inverse a Down is rendered from, the
    questions about renames, and the state recorded beside each module's
    migration. *)

From S2P Require Import Prelude GoStrings Orm OrmState Diff.

(** A type switch over every operation type; its default is for types that do
    not exist in the program. *)
Definition operationTable (op : Operation) : string :=
  match op with
  | CreateTable m => mTable m
  | DropTable t => t
  | AddColumn t _ => t
  | DropColumn t _ => t
  | RenameColumn t _ _ => t
  | ChangeType t _ _ => t
  | ChangeNullability t _ _ => t
  | AddUnique t _ => t
  | DropUnique t _ => t
  | AddIndex t _ => t
  | DropIndex t _ => t
  | AddPrimaryKey t _ => t
  | DropPrimaryKey t _ => t
  end.

(** ** Inverses *)

(** The loops of [invert] and [snapshotField] that look a field up in recorded
    state: every model of that table, every field of that name, the first hit. *)
Fixpoint find_field (fs : list Field) (column : string) : option Field :=
  match fs with
  | [] => None
  | f :: fs' => if String.eqb (fName f) column then Some f else find_field fs' column
  end.

Fixpoint find_in_models (ms : list Registered) (table column : string) : option Field :=
  match ms with
  | [] => None
  | reg :: ms' =>
      if negb (String.eqb (table_of reg) table) then find_in_models ms' table column
      else match find_field (mFields (rModel reg)) column with
           | Some f => Some f
           | None => find_in_models ms' table column
           end
  end.

Definition snapshotField (state : Snapshot) (table column : string) : option Field :=
  find_in_models (Models state) table column.

Inductive invert_error :=
| NoRecordedSchema (table : string)
| NoRecordedField (table column : string).

Definition invert (op : Operation) (before : Snapshot) : result invert_error Operation :=
  match op with
  | CreateTable m => Ok (DropTable (mTable m))
  | DropTable t =>
      match findByTable (Models before) t with
      | Some reg => Ok (CreateTable (rModel reg))
      | None => Err (NoRecordedSchema t)
      end
  | AddColumn t f => Ok (DropColumn t (fName f))
  | DropColumn t c =>
      match find_in_models (Models before) t c with
      | Some f => Ok (AddColumn t f)
      | None => Err (NoRecordedField t c)
      end
  | RenameColumn t a b => Ok (RenameColumn t b a)
  | ChangeType t c _ =>
      match find_in_models (Models before) t c with
      | Some f => Ok (ChangeType t c f)
      | None => Err (NoRecordedField t c)
      end
  | ChangeNullability t c _ =>
      match find_in_models (Models before) t c with
      | Some f => Ok (ChangeNullability t c (fNullable f))
      | None => Err (NoRecordedField t c)
      end
  | AddUnique t c => Ok (DropUnique t c)
  | DropUnique t c => Ok (AddUnique t c)
  | AddIndex t c => Ok (DropIndex t c)
  | DropIndex t c => Ok (AddIndex t c)
  | AddPrimaryKey t c => Ok (DropPrimaryKey t c)
  | DropPrimaryKey t c => Ok (AddPrimaryKey t c)
  end.

(** ** Renames *)

Definition renameCompatible (before after : Field) : bool :=
  String.eqb (fType before) (fType after)
  && (fMaxLen before =? fMaxLen after)%Z
  && Bool.eqb (fNullable before) (fNullable after)
  && Bool.eqb (fPrimaryKey before) (fPrimaryKey after)
  && Bool.eqb (fUnique before) (fUnique after)
  && Bool.eqb (fIndex before) (fIndex after).

Record renameCandidate := mkCandidate {
  cDrop : nat;
  cAdd : nat;
  cTable : string;
  cFrom : string;
  cTo : string;
  cField : Field;
}.

(** The inner loop: the additions a dropped column could have become. *)
Definition candidates_for (ops : list Operation) (after : Snapshot)
    (dropIndex : nat) (table column : string) (oldField : Field) : list renameCandidate :=
  flat_map (λ '(addIndex, possible),
    match possible with
    | AddColumn t f =>
        if negb (String.eqb t table) || negb (renameCompatible oldField f) then []
        else match snapshotField after t (fName f) with
             | Some _ => [mkCandidate dropIndex addIndex table column (fName f) oldField]
             | None => []
             end
    | _ => []
    end) (imap pair ops).

Definition candidates (ops : list Operation) (before after : Snapshot) : list renameCandidate :=
  flat_map (λ '(dropIndex, op),
    match op with
    | DropColumn t c =>
        match snapshotField before t c with
        | Some oldField => candidates_for ops after dropIndex t c oldField
        | None => []
        end
    | _ => []
    end) (imap pair ops).

Section ask.
Context `{Unicode}.

(** [bufio.Reader.ReadString]: through the delimiter, or all that is left with
    [io.EOF].  The reader is the text not read yet. *)
Definition read_line (input : string) : string * bool * string :=
  match CutByte "010" input with
  | Some (a, b) => (a +:+ newline, false, b)
  | None => (input, true, "")
  end.

Inductive answer := Yes | No | Unclear.
Definition classify (line : string) : answer :=
  let a := ToLower (TrimSpace line) in
  if String.eqb a "y" || String.eqb a "yes" then Yes
  else if String.eqb a "" || String.eqb a "n" || String.eqb a "no" then No
  else Unclear.

(** The question loop: each round reads one line, so the length of the input
    bounds the rounds ([askRename_answers]).  Writing to [out] and reading a line
    do not fail here. *)
Fixpoint ask_loop (fuel : nat) (input : string) : option (bool * string) :=
  match fuel with
  | O => None
  | S n =>
      let '(line, eof, rest) := read_line input in
      match classify line with
      | Yes => Some (true, rest)
      | No => Some (false, rest)
      | Unclear => if eof then Some (false, rest) else ask_loop n rest
      end
  end.
Definition askRename (input : string) : option (bool * string) :=
  ask_loop (S (String.length input)) input.

Inductive rename_error :=
| NeedsAnswer (table from to : string)
| ConstrainedRename (table from to : string).

(** The state of the second loop: the replacements by drop index and the
    consumed operation indexes. *)
Record choices := mkChoices {
  replacements : gmap nat Operation;
  consumed : gset nat;
}.

Fixpoint resolve (cands : list renameCandidate) (input : string) (ch : choices)
    : option (result rename_error choices) :=
  match cands with
  | [] => Some (Ok ch)
  | c :: cands' =>
      if bool_decide (cDrop c ∈ consumed ch) || bool_decide (cAdd c ∈ consumed ch)
      then resolve cands' input ch
      else
        '(yes, rest) ← askRename input;
        if negb yes then resolve cands' rest ch
        else if fPrimaryKey (cField c) || fUnique (cField c) || fIndex (cField c)
          then Some (Err (ConstrainedRename (cTable c) (cFrom c) (cTo c)))
        else resolve cands' rest
          (mkChoices (<[cDrop c := RenameColumn (cTable c) (cFrom c) (cTo c)]> (replacements ch))
                     ({[cAdd c]} ∪ ({[cDrop c]} ∪ consumed ch)))
  end.

(** The third loop. *)
Definition apply_choices (ops : list Operation) (ch : choices) : list Operation :=
  flat_map (λ '(i, op),
    match replacements ch !! i with
    | Some rename => [rename]
    | None => if bool_decide (i ∈ consumed ch) then [] else [op]
    end) (imap pair ops).

Definition resolveRenames (ops : list Operation) (before after : Snapshot)
    (input : string) (interactive : bool) : option (result rename_error (list Operation)) :=
  match candidates ops before after with
  | [] => Some (Ok ops)
  | c :: cands =>
      if negb interactive then Some (Err (NeedsAnswer (cTable c) (cFrom c) (cTo c)))
      else
        r ← resolve (c :: cands) input (mkChoices ∅ ∅);
        Some (ch ← r; Ok (apply_choices ops ch))
  end.
End ask.

(** ** Grouping by module *)

Definition ownerOf (live : list Registered) (table : string) (before : Snapshot) : string :=
  match findByTable live table with
  | Some reg => rModule reg
  | None =>
      match findByTable (Models before) table with
      | Some reg => rModule reg
      | None => "(unknown)"
      end
  end.

(** The operations of one module, in the order of the diff. *)
Definition module_ops (owner : string → string) (ops : list Operation) (module : string) : list Operation :=
  List.filter (λ op, String.eqb (owner (operationTable op)) module) ops.

(** [order]: the owners, each once, sorted. *)
Definition module_order (owner : string → string) (ops : list Operation) : list string :=
  sort_by str_leb
    (foldl (λ order op, let m := owner (operationTable op) in
                        if existsb (String.eqb m) order then order else order ++ [m]) [] ops).

(** ** The state recorded beside a module's migration *)

Definition snapshotAfterOperations (current final : Snapshot) (ops : list Operation)
    : result error Snapshot :=
  let changed : gset string := list_to_set (map operationTable ops) in
  NewSnapshot
    (List.filter (λ reg, negb (bool_decide (table_of reg ∈ changed))) (Models current)
     ++ List.filter (λ reg, bool_decide (table_of reg ∈ changed)) (Models final)).
