(* ===== verification/Schema.v ===== *)
(** * What operations do to a schema

    The specification the differ is measured against: a schema maps tables to
    columns and columns to their attributes, and each operation is a partial
    transformation with the preconditions a database enforces: a table or column
    must exist to be changed or dropped and must not to be created, a constraint
    must exist to be dropped and must not to be added, a table has at most one
    primary key, and a primary key is never nullable.  Column order and module
    ownership are not part of it. *)

From S2P Require Import Prelude GoStrings Orm OrmState Diff Plan.

Record attrs := mkAttrs {
  aType : Type_;
  aMaxLen : Z;
  aNullable : bool;
  aPrimaryKey : bool;
  aUnique : bool;
  aIndex : bool;
}.

#[export] Instance attrs_eq_dec : EqDecision attrs.
Proof. solve_decision. Defined.

Definition attrs_of (f : Field) : attrs :=
  mkAttrs (fType f) (fMaxLen f) (fNullable f) (fPrimaryKey f) (fUnique f) (fIndex f).

Definition columns := gmap string attrs.
Definition schema := gmap string columns.

Definition columns_of (fs : list Field) : columns :=
  list_to_map (map (λ f, (fName f, attrs_of f)) fs).
Definition schema_of (s : Snapshot) : schema :=
  list_to_map (map (λ reg, (table_of reg, columns_of (mFields (rModel reg)))) (Models s)).

(** ** One column *)

Definition op_column (op : Operation) : string :=
  match op with
  | AddColumn _ f => fName f
  | DropColumn _ c | ChangeType _ c _ | ChangeNullability _ c _
  | AddUnique _ c | DropUnique _ c | AddIndex _ c | DropIndex _ c
  | AddPrimaryKey _ c | DropPrimaryKey _ c => c
  | _ => ""
  end.

Definition col_step (op : Operation) (col : option attrs) : option (option attrs) :=
  match op, col with
  | AddColumn _ f, None =>
      if fPrimaryKey f && fNullable f then None else Some (Some (attrs_of f))
  | DropColumn _ _, Some _ => Some None
  | ChangeType _ _ to, Some (mkAttrs _ _ n p u i) =>
      Some (Some (mkAttrs (fType to) (fMaxLen to) n p u i))
  | ChangeNullability _ _ b, Some (mkAttrs t l n p u i) =>
      if b && p then None else Some (Some (mkAttrs t l b p u i))
  | AddUnique _ _, Some (mkAttrs t l n p false i) => Some (Some (mkAttrs t l n p true i))
  | DropUnique _ _, Some (mkAttrs t l n p true i) => Some (Some (mkAttrs t l n p false i))
  | AddIndex _ _, Some (mkAttrs t l n p u false) => Some (Some (mkAttrs t l n p u true))
  | DropIndex _ _, Some (mkAttrs t l n p u true) => Some (Some (mkAttrs t l n p u false))
  | AddPrimaryKey _ _, Some (mkAttrs t l false false u i) =>
      Some (Some (mkAttrs t l false true u i))
  | DropPrimaryKey _ _, Some (mkAttrs t l n true u i) => Some (Some (mkAttrs t l n false u i))
  | _, _ => None
  end.

(** ** One table *)

Definition adds_pk (op : Operation) : bool :=
  match op with AddColumn _ f => fPrimaryKey f | AddPrimaryKey _ _ => true | _ => false end.
Definition clears_pk (op : Operation) : bool :=
  match op with DropColumn _ _ | DropPrimaryKey _ _ => true | _ => false end.
Definition pk_free (t : columns) : bool :=
  bool_decide (map_Forall (λ _ a, aPrimaryKey a = false) t).

Definition is_column_op (op : Operation) : bool :=
  match op with CreateTable _ | DropTable _ | RenameColumn _ _ _ => false | _ => true end.

Definition columns_step (op : Operation) (t : columns) : option columns :=
  match op with
  | CreateTable _ | DropTable _ => None
  | RenameColumn _ from to =>
      match t !! from, t !! to with
      | Some a, None => Some (<[to := a]> (delete from t))
      | _, _ => None
      end
  | _ => if adds_pk op && negb (pk_free t) then None else key_step col_step op_column op t
  end.

Definition creatable (m : Model) : bool :=
  bool_decide (mFields m ≠ []) && bool_decide (NoDup (map fName (mFields m)))
  && (length (primaries (mFields m)) <=? 1)
  && forallb (λ f, negb (fPrimaryKey f && fNullable f)) (mFields m).

Definition table_step (op : Operation) (t : option columns) : option (option columns) :=
  match op, t with
  | CreateTable m, None => if creatable m then Some (Some (columns_of (mFields m))) else None
  | CreateTable _, Some _ => None
  | DropTable _, Some _ => Some None
  | _, Some t => t' ← columns_step op t; Some (Some t')
  | _, None => None
  end.

(** ** A schema *)

(** Running operations in order; [None] when a statement would be refused. *)
Definition execute (ops : list Operation) (s : schema) : option schema :=
  key_replay table_step operationTable ops s.

(** ** Column operations of one table, as a keyed replay *)

Fixpoint run_columns (ops : list Operation) (t : columns) : option columns :=
  match ops with
  | [] => Some t
  | op :: ops' => t' ← columns_step op t; run_columns ops' t'
  end.

Lemma run_columns_app l1 l2 t :
  run_columns (l1 ++ l2) t = (t' ← run_columns l1 t; run_columns l2 t').
Proof.
  revert t; induction l1 as [|op l1 IH]; intros t; cbn; [done|].
  destruct (columns_step op t); cbn; [apply IH|done].
Qed.

Definition is_table_op (op : Operation) : bool :=
  match op with CreateTable _ | DropTable _ => true | _ => false end.

Lemma replay_columns ops t :
  Forall (λ op, is_table_op op = false) ops →
  replay1 table_step ops (Some t) = (t' ← run_columns ops t; Some (Some t')).
Proof.
  intros H. revert t; induction H as [|op ops Hop Hops IH]; intros t; cbn; [done|].
  destruct op; try done; cbn [table_step]; destruct (columns_step _ t); cbn; auto.
Qed.

Lemma columns_step_key op t :
  is_column_op op = true →
  columns_step op t =
  if adds_pk op && negb (pk_free t) then None else key_step col_step op_column op t.
Proof. by destruct op. Qed.

Local Notation "'keyed'" := (key_replay col_step op_column).

Lemma run_columns_keyed ops t t' :
  Forall (λ op, is_column_op op = true) ops → keyed ops t = Some t' →
  (∀ pre op post t1, ops = pre ++ op :: post → adds_pk op = true →
     keyed pre t = Some t1 → pk_free t1 = true) →
  run_columns ops t = Some t'.
Proof.
  intros Hall. revert t; induction Hall as [|op ops Hop Hops IH]; intros t; cbn; [done|].
  intros (t1 & H1 & H2)%bind_Some Hpk. rewrite columns_step_key by done.
  assert (adds_pk op && negb (pk_free t) = false) as ->.
  { destruct (adds_pk op) eqn:Ea; [|done]. by rewrite (Hpk [] op ops t eq_refl Ea eq_refl). }
  rewrite H1. cbn. apply IH; [done|]. intros pre o post t2 -> Ho Ht2.
  eapply (Hpk (op :: pre) o post t2); [done|done|]. cbn. by rewrite H1.
Qed.

(** Where a primary key comes from. *)
Lemma col_step_pk op v a :
  col_step op v = Some (Some a) → aPrimaryKey a = true →
  adds_pk op = true
  ∨ ∃ a0, v = Some a0 ∧ aPrimaryKey a0 = true ∧ clears_pk op = false.
Proof.
  intros H Hp. destruct op, v as [[? ? n0 p u i]|]; cbn in *; try done;
    repeat (case_match; try done); simplify_eq; cbn in *; subst; eauto 10.
Qed.

Lemma pk_origin pre t t1 c a :
  keyed pre t = Some t1 → t1 !! c = Some a → aPrimaryKey a = true →
  (∃ a0, t !! c = Some a0 ∧ aPrimaryKey a0 = true
         ∧ ∀ o, o ∈ pre → op_column o = c → clears_pk o = false)
  ∨ ∃ o, o ∈ pre ∧ adds_pk o = true.
Proof.
  revert t1 a. induction pre as [|op pre IH] using rev_ind; intros t1 a.
  - intros [= ->] Hc Ha. left. exists a. set_solver.
  - rewrite key_replay_app. intros (t0 & H0 & H1)%bind_Some Hc Ha.
    cbn in H1. apply bind_Some in H1 as (t2 & H2 & [= ->]).
    unfold key_step in H2. apply bind_Some in H2 as (v & Hv & [= <-]).
    destruct (decide (op_column op = c)) as [<-|Hne].
    + rewrite lookup_partial_alter_eq in Hc. subst v.
      destruct (col_step_pk _ _ _ Hv Ha) as [Hadd|(a0 & Ha0 & Hp0 & Hcl)].
      { right. exists op. set_solver. }
      destruct (IH _ _ H0 Ha0 Hp0) as [(a1 & ? & ? & Hno)|(o & ? & ?)]; [left|right; set_solver].
      exists a1. split_and!; [done|done|]. intros o [Ho|Ho%list_elem_of_singleton]%elem_of_app; [auto|by subst].
    + rewrite lookup_partial_alter_ne in Hc by done.
      destruct (IH _ _ H0 Hc Ha) as [(a1 & ? & ? & Hno)|(o & ? & ?)]; [left|right; set_solver].
      exists a1. split_and!; [done|done|]. intros o [Ho|Ho%list_elem_of_singleton]%elem_of_app; [auto|by subst].
Qed.

(** Operations in an order that never adds a second primary key. *)
Definition pk_ordered (t : columns) (ops : list Operation) : Prop :=
  ∀ pre op post, ops = pre ++ op :: post → adds_pk op = true →
    (∀ o, o ∈ pre → adds_pk o = false)
    ∧ ∀ c a, t !! c = Some a → aPrimaryKey a = true →
        ∃ o, o ∈ pre ∧ op_column o = c ∧ clears_pk o = true.

Lemma run_columns_ok ops (t : columns) (target : string → option attrs) :
  Forall (λ op, is_column_op op = true) ops → pk_ordered t ops →
  (∀ k, replay1 col_step (at_key op_column k ops) (t !! k) = Some (target k)) →
  ∃ t', run_columns ops t = Some t' ∧ ∀ k, t' !! k = target k.
Proof.
  intros Hc Hpk Hk. apply key_replay_spec in Hk as (t' & Hr & Ht').
  exists t'. split; [|done]. apply run_columns_keyed; [done|done|].
  intros pre op post t1 Heq Hadd H1. apply bool_decide_eq_true. intros c a Hca.
  destruct (aPrimaryKey a) eqn:Ea; [|done]. exfalso.
  destruct (Hpk _ _ _ Heq Hadd) as [Hno Hcl].
  destruct (pk_origin _ _ _ _ _ H1 Hca Ea) as [(a0 & H0 & Hp0 & Hnc)|(o & Ho & Ha)].
  - destruct (Hcl _ _ H0 Hp0) as (o & Ho & Hoc & Hcc). rewrite (Hnc o Ho Hoc) in Hcc. done.
  - rewrite (Hno o Ho) in Ha. done.
Qed.
