(* ===== verification/DiffSpec.v ===== *)
(** * The differ is correct

    [Diff] against the schema semantics: the operations it returns run on the old
    schema without being refused and end in the new one; reversed and inverted
    they run on the new schema and restore the old one; and it returns none
    exactly when the schemas agree. *)

From S2P Require Import Prelude GoStrings Orm OrmState Diff Plan Schema.

(** ** The columns of a table, looked up by name *)

Definition field (fs : list Field) (c : string) : option Field := find_key fName fs c.

Lemma indexFields_lookup fs c : NoDup (map fName fs) → indexFields fs !! c = field fs c.
Proof.
  intros H. unfold indexFields. rewrite (lookup_index_from fName) by done.
  fold (field fs c). destruct (field fs c); [done|]. by rewrite lookup_empty.
Qed.

Lemma columns_of_lookup fs c : NoDup (map fName fs) → columns_of fs !! c = attrs_of <$> field fs c.
Proof. intros H. unfold columns_of. by apply lookup_list_to_map_key. Qed.

Lemma find_field_field fs c : find_field fs c = field fs c.
Proof. induction fs as [|f fs IH]; cbn; [done|]. by rewrite IH. Qed.

Lemma field_elem fs c f : field fs c = Some f → f ∈ fs ∧ fName f = c.
Proof. apply find_key_Some. Qed.

Lemma elem_field fs f : NoDup (map fName fs) → f ∈ fs → field fs (fName f) = Some f.
Proof. apply find_key_elem. Qed.

(** ** What a table's alterations are, column by column *)

Definition column_ops (table : string) (was now : list Field) (c : string) : list Operation :=
  match field now c with
  | Some f => map rkOp (alter_field table (indexFields was) f)
  | None => match field was c with Some _ => [DropColumn table c] | None => [] end
  end.

Definition op_rank (op : Operation) : Z :=
  match op with
  | DropIndex _ _ => 0 | DropUnique _ _ => 1 | DropPrimaryKey _ _ => 2 | DropColumn _ _ => 3
  | ChangeType _ _ _ => 4 | ChangeNullability _ _ _ => 5 | AddColumn _ _ => 6
  | AddPrimaryKey _ _ => 7 | AddUnique _ _ => 8 | AddIndex _ _ => 9
  | _ => 10
  end.

(** What holds of every alteration. *)
Definition alteration (table : string) (r : ranked) : Prop :=
  op_column (rkOp r) = rkColumn r ∧ operationTable (rkOp r) = table
  ∧ rkRank r = op_rank (rkOp r) ∧ is_column_op (rkOp r) = true.

Lemma elem_of_when b r x : x ∈ when b r ↔ b = true ∧ x = r.
Proof. destruct b; cbn; set_solver. Qed.

Lemma alter_field_alteration table was f r :
  r ∈ alter_field table was f → alteration table r ∧ rkColumn r = fName f.
Proof.
  unfold alter_field. destruct (was !! fName f); [|by intros ->%list_elem_of_singleton].
  rewrite !elem_of_app, !elem_of_when. unfold alteration.
  intros H. destruct_or! H; destruct H as [_ ->]; done.
Qed.

Lemma drop_field_alteration table now f r :
  r ∈ drop_field table now f → alteration table r ∧ rkColumn r = fName f.
Proof.
  unfold drop_field. destruct (now !! fName f); [by intros ?%elem_of_nil|].
  by intros ->%list_elem_of_singleton.
Qed.

Lemma alters_alteration table was now r : r ∈ alters table was now → alteration table r.
Proof.
  unfold alters. rewrite elem_of_app, !elem_of_flat_map.
  intros [(f & _ & [? _]%alter_field_alteration)|(f & _ & [? _]%drop_field_alteration)]; done.
Qed.

Lemma ranked_leb_total a b : ranked_leb a b = true ∨ ranked_leb b a = true.
Proof.
  unfold ranked_leb. destruct (str_leb_total (rkColumn a) (rkColumn b)) as [H|H]; rewrite H;
    rewrite !orb_true_iff, !andb_true_iff, !Z.ltb_lt, !Z.eqb_eq; lia.
Qed.
Lemma ranked_leb_trans a b c :
  ranked_leb a b = true → ranked_leb b c = true → ranked_leb a c = true.
Proof.
  unfold ranked_leb. rewrite !orb_true_iff, !andb_true_iff, !Z.ltb_lt, !Z.eqb_eq.
  intros [H1|[H1 H1']] [H2|[H2 H2']]; [left; lia..|]. right. split; [lia|].
  eauto using str_leb_trans.
Qed.
#[export] Hint Resolve ranked_leb_total ranked_leb_trans : fabrin.

(** The alterations of one column come in strictly ascending rank. *)
Definition rank_ascending : list ranked → Prop :=
  StronglySorted (λ a b, (rkRank a < rkRank b)%Z).

Lemma when_ascending b r l :
  rank_ascending l → Forall (λ x, (rkRank r < rkRank x)%Z) l → rank_ascending (when b r ++ l).
Proof. intros Hl Hr. destruct b; cbn; [by constructor|done]. Qed.

Lemma Forall_when (P : ranked → Prop) b r l :
  P r → Forall P l → Forall P (when b r ++ l).
Proof. intros Hr Hl. destruct b; cbn; auto. Qed.

Lemma alter_field_ascending table was f : rank_ascending (alter_field table was f).
Proof.
  unfold alter_field. destruct (was !! fName f); [|repeat constructor].
  rewrite <-(app_nil_r (when _ (mkRanked _ 9%Z _))).
  repeat first [apply when_ascending | apply Forall_when; [cbn; lia|] | constructor].
Qed.

Lemma ascending_sorted (c : string) l :
  rank_ascending l → (∀ r, r ∈ l → rkColumn r = c) →
  StronglySorted (le_by ranked_leb) l.
Proof.
  intros Hs Hc. eapply ssorted_impl; [|exact Hs]. intros a b Hab.
  unfold le_by, ranked_leb. rewrite (proj2 (Z.ltb_lt _ _) Hab). done.
Qed.

Lemma ascending_anti l x y :
  rank_ascending l → x ∈ l → y ∈ l → rkRank x = rkRank y → x = y.
Proof.
  induction 1 as [|a l Hs IH Hall]; [set_solver|]. rewrite Forall_forall in Hall.
  rewrite !elem_of_cons. intros [->|Hx] [->|Hy] Hr; [done| | |auto].
  - specialize (Hall y Hy). lia.
  - specialize (Hall x Hx). lia.
Qed.

Section table.
Context (table : string) (was now : list Field).
Hypothesis Hwas : NoDup (map fName was).
Hypothesis Hnow : NoDup (map fName now).

Definition plan : list Operation :=
  map rkOp (sort_by ranked_leb (alters table was now)).

Definition column_alters (c : string) : list ranked :=
  match field now c with
  | Some f => alter_field table (indexFields was) f
  | None => match field was c with
            | Some _ => [mkRanked c 3%Z (DropColumn table c)]
            | None => [] end
  end.

Lemma alters_at c :
  List.filter (λ r, String.eqb (rkColumn r) c) (alters table was now) = column_alters c.
Proof using Hwas Hnow.
  unfold alters, column_alters. rewrite List.filter_app.
  rewrite (filter_flat_map_key fName rkColumn) by (intros ? ? _ ?; by eapply alter_field_alteration).
  rewrite (filter_flat_map_key fName rkColumn) by (intros ? ? _ ?; by eapply drop_field_alteration).
  rewrite !(filter_key_find fName) by done. fold (field now c) (field was c).
  destruct (field now c) as [f|] eqn:En, (field was c) as [g|] eqn:Ew; cbn; rewrite ?app_nil_r.
  - apply field_elem in Ew as [_ <-]. unfold drop_field.
    rewrite indexFields_lookup by done. rewrite En. by rewrite app_nil_r.
  - done.
  - apply field_elem in Ew as [_ <-]. unfold drop_field.
    by rewrite indexFields_lookup, En by done.
  - done.
Qed.

Lemma column_alters_column c r : r ∈ column_alters c → rkColumn r = c.
Proof.
  unfold column_alters. destruct (field now c) as [f|] eqn:En.
  - intros [_ ->]%alter_field_alteration. by apply field_elem in En as [_ <-].
  - destruct (field was c); [by intros ->%list_elem_of_singleton|by intros ?%elem_of_nil].
Qed.

Lemma column_alters_ascending c : rank_ascending (column_alters c).
Proof.
  unfold column_alters. destruct (field now c); [apply alter_field_ascending|].
  destruct (field was c); repeat constructor.
Qed.

(** Sorting keeps each column's alterations in their order. *)
Lemma plan_at c : at_key op_column c plan = column_ops table was now c.
Proof using Hwas Hnow.
  unfold at_key, plan. rewrite filter_map_comm.
  rewrite (filter_bool_ext _ (λ r, String.eqb (rkColumn r) c)).
  2:{ intros r Hr%elem_of_sort_by. by destruct (alters_alteration _ _ _ _ Hr) as [-> _]. }
  transitivity (map rkOp (column_alters c)).
  2:{ unfold column_alters, column_ops. by repeat case_match. }
  f_equal. transitivity (sort_by ranked_leb (column_alters c)).
  - apply sort_by_unique; eauto with fabrin.
    + intros x y Hx Hy H1 H2.
      eapply ascending_anti; [apply column_alters_ascending|done|done|].
      unfold ranked_leb in *. boolify. lia.
    + rewrite sort_by_perm. by rewrite alters_at.
    + apply StronglySorted_filter_bool, sort_by_sorted; eauto with fabrin.
  - apply sort_by_id. eapply ascending_sorted; [apply column_alters_ascending|].
    apply column_alters_column.
Qed.

Lemma plan_elem op : op ∈ plan → ∃ c, op ∈ column_ops table was now c ∧ op_column op = c.
Proof using Hwas Hnow.
  intros Hop. exists (op_column op). split; [|done]. rewrite <-plan_at.
  apply elem_of_filter_bool. split; [done|]. apply String.eqb_refl.
Qed.

Lemma column_ops_plan c op : op ∈ column_ops table was now c → op ∈ plan ∧ op_column op = c.
Proof using Hwas Hnow.
  rewrite <-plan_at. intros [? ?%String.eqb_eq]%elem_of_filter_bool. done.
Qed.

Lemma plan_alteration op :
  op ∈ plan → operationTable op = table ∧ is_column_op op = true.
Proof.
  unfold plan. rewrite list_elem_of_fmap. intros (r & -> & Hr%elem_of_sort_by).
  by destruct (alters_alteration _ _ _ _ Hr) as (_ & ? & _ & ?).
Qed.

Lemma plan_ranks : StronglySorted (λ a b, (op_rank a <= op_rank b)%Z) plan.
Proof.
  unfold plan. assert (Forall (alteration table) (sort_by ranked_leb (alters table was now))) as Ha.
  { apply Forall_forall. intros r Hr%elem_of_sort_by. by eapply alters_alteration. }
  assert (StronglySorted (le_by ranked_leb) (sort_by ranked_leb (alters table was now))) as Hs.
  { apply sort_by_sorted; eauto with fabrin. }
  induction Hs as [|r l Hs IH Hall]; cbn; [constructor|].
  apply Forall_cons in Ha as [Hr Ha]. constructor; [auto|].
  rewrite Forall_forall in Hall, Ha. apply Forall_forall. intros op (r' & -> & Hr')%list_elem_of_fmap.
  specialize (Hall r' Hr'). specialize (Ha r' Hr'). unfold le_by, ranked_leb in Hall.
  destruct Hr as (_ & _ & <- & _), Ha as (_ & _ & <- & _). boolify. lia.
Qed.
End table.

(** ** One column: forward and back *)

(** The inverse of an alteration, given the old columns of its table. *)
Definition inverse_in (was : list Field) (op : Operation) : Operation :=
  match op with
  | AddColumn t f => DropColumn t (fName f)
  | DropColumn t c => match field was c with Some f => AddColumn t f | None => op end
  | RenameColumn t a b => RenameColumn t b a
  | ChangeType t c _ => match field was c with Some f => ChangeType t c f | None => op end
  | ChangeNullability t c _ =>
      match field was c with Some f => ChangeNullability t c (fNullable f) | None => op end
  | AddUnique t c => DropUnique t c
  | DropUnique t c => AddUnique t c
  | AddIndex t c => DropIndex t c
  | DropIndex t c => AddIndex t c
  | AddPrimaryKey t c => DropPrimaryKey t c
  | DropPrimaryKey t c => AddPrimaryKey t c
  | CreateTable _ | DropTable _ => op
  end.

(** What [valid_field] says about flags. *)
Definition flags_ok (f : Field) : Prop :=
  fPrimaryKey f = true → fNullable f = false ∧ fUnique f = false ∧ fIndex f = false.

Lemma valid_flags f : valid_field f → flags_ok f.
Proof. unfold valid_field, flags_ok. naive_solver. Qed.

Lemma alter_field_forward table was prev f :
  was !! fName f = Some prev → flags_ok prev → flags_ok f →
  replay1 col_step (map rkOp (alter_field table was f)) (Some (attrs_of prev))
  = Some (Some (attrs_of f)).
Proof.
  unfold alter_field, flags_ok, attrs_of. intros -> Hp Hf.
  destruct prev as [n0 t0 l0 nu0 pk0 u0 i0], f as [n t l nu pk u i]. cbn in *.
  destruct (String.eqb_spec t0 t) as [->|Ht], (Z.eqb_spec l0 l) as [->|Hl];
    destruct pk0; try destruct (Hp eq_refl) as (-> & -> & ->);
    destruct pk; try destruct (Hf eq_refl) as (-> & -> & ->); clear Hp Hf;
    try destruct nu0; try destruct nu; try destruct u0; try destruct u; try destruct i0; try destruct i; reflexivity.
Qed.

Lemma alter_field_backward table was prev f :
  NoDup (map fName was) → field was (fName f) = Some prev → flags_ok prev → flags_ok f →
  replay1 col_step (rev (map (inverse_in was) (map rkOp (alter_field table (indexFields was) f))))
    (Some (attrs_of f))
  = Some (Some (attrs_of prev)).
Proof.
  unfold alter_field, flags_ok, attrs_of. intros Hnd Hfd Hp Hf.
  rewrite indexFields_lookup, Hfd by done.
  destruct prev as [n0 t0 l0 nu0 pk0 u0 i0], f as [n t l nu pk u i]. cbn in *.
  destruct (String.eqb_spec t0 t) as [->|Ht], (Z.eqb_spec l0 l) as [->|Hl];
    destruct pk0; try destruct (Hp eq_refl) as (-> & -> & ->);
    destruct pk; try destruct (Hf eq_refl) as (-> & -> & ->); clear Hp Hf;
    try destruct nu0; try destruct nu; try destruct u0; try destruct u; try destruct i0;
    try destruct i; cbn -[field]; rewrite ?Hfd; reflexivity.
Qed.

Section columns.
Context (table : string) (was now : list Field).
Hypothesis Hwas : NoDup (map fName was).
Hypothesis Hnow : NoDup (map fName now).
Hypothesis Fwas : Forall flags_ok was.
Hypothesis Fnow : Forall flags_ok now.

Lemma field_flags fs c f : Forall flags_ok fs → field fs c = Some f → flags_ok f.
Proof. intros H [Hf _]%field_elem. rewrite Forall_forall in H. auto. Qed.

Lemma column_ops_forward c :
  replay1 col_step (column_ops table was now c) (columns_of was !! c)
  = Some (columns_of now !! c).
Proof using Hwas Hnow Fwas Fnow.
  unfold column_ops. rewrite !columns_of_lookup by done.
  destruct (field now c) as [f|] eqn:En; cbn.
  - pose proof (field_flags _ _ _ Fnow En) as Hf. apply field_elem in En as [_ <-].
    destruct (field was (fName f)) as [prev|] eqn:Ew; cbn.
    + apply alter_field_forward; [by rewrite indexFields_lookup| |done].
      eapply field_flags; [exact Fwas|done].
    + unfold alter_field. rewrite indexFields_lookup, Ew by done. cbn.
      destruct (fPrimaryKey f) eqn:Ep; cbn; [|done]. by destruct (Hf Ep) as [-> _].
  - by destruct (field was c).
Qed.

Lemma column_ops_backward c :
  replay1 col_step (rev (map (inverse_in was) (column_ops table was now c))) (columns_of now !! c)
  = Some (columns_of was !! c).
Proof using Hwas Hnow Fwas Fnow.
  unfold column_ops. rewrite !columns_of_lookup by done.
  destruct (field now c) as [f|] eqn:En; cbn.
  - pose proof (field_flags _ _ _ Fnow En) as Hf. apply field_elem in En as [_ <-].
    destruct (field was (fName f)) as [prev|] eqn:Ew; cbn.
    + apply alter_field_backward; [done|done| |done].
      eapply field_flags; [exact Fwas|done].
    + unfold alter_field. rewrite indexFields_lookup, Ew by done. done.
  - destruct (field was c) as [prev|] eqn:Ew; [|done]. cbn. rewrite Ew. cbn.
    destruct (fPrimaryKey prev) eqn:Ep; cbn; [|done].
    by destruct (field_flags _ _ _ Fwas Ew Ep) as [-> _].
Qed.
End columns.

(** ** Primary keys *)

Lemma primaries_unique fs f g :
  length (primaries fs) = 1 → f ∈ fs → g ∈ fs → fPrimaryKey f = true → fPrimaryKey g = true → f = g.
Proof.
  intros H Hf Hg Pf Pg.
  assert (f ∈ primaries fs) as Hf' by (apply elem_of_filter_bool; done).
  assert (g ∈ primaries fs) as Hg' by (apply elem_of_filter_bool; done).
  destruct (primaries fs) as [|x [|y l]]; [done| |done]. set_solver.
Qed.

Lemma primaries_exists fs : length (primaries fs) = 1 → ∃ f, f ∈ fs ∧ fPrimaryKey f = true.
Proof.
  intros H. destruct (primaries fs) as [|f l] eqn:E; [done|]. exists f.
  apply elem_of_filter_bool. change (List.filter fPrimaryKey fs) with (primaries fs).
  rewrite E. set_solver.
Qed.

Lemma filter_at_key (p : Operation → bool) c ops :
  (∀ o, o ∈ ops → p o = true → op_column o = c) →
  List.filter p (at_key op_column c ops) = List.filter p ops.
Proof.
  intros H. unfold at_key. induction ops as [|o ops IH]; cbn; [done|].
  rewrite <-IH by (intros; apply H; set_solver).
  destruct (p o) eqn:Ep.
  - rewrite (proj2 (String.eqb_eq _ _) (H o ltac:(set_solver) Ep)). cbn. by rewrite Ep.
  - destruct (String.eqb (op_column o) c); cbn; rewrite ?Ep; done.
Qed.

(** A list with at most one key-adding operation, preceded by a key-clearing one
    for the key there is, is [pk_ordered]. *)
Lemma pk_ordered_intro (t : columns) ops cadd :
  (∀ o, o ∈ ops → adds_pk o = true → op_column o = cadd) →
  length (List.filter adds_pk (at_key op_column cadd ops)) ≤ 1 →
  (∀ pre o post, ops = pre ++ o :: post → adds_pk o = true →
     ∀ c a, t !! c = Some a → aPrimaryKey a = true →
     ∃ o', o' ∈ ops ∧ op_column o' = c ∧ clears_pk o' = true ∧ o' ∉ o :: post) →
  pk_ordered t ops.
Proof.
  intros Hcol Hlen Hcl pre o post Heq Ho. rewrite filter_at_key in Hlen by done. split.
  - intros o1 Ho1. destruct (adds_pk o1) eqn:E1; [|done]. exfalso.
    apply list_elem_of_split in Ho1 as (l1 & l2 & ->). subst ops.
    rewrite !List.filter_app in Hlen. cbn in Hlen. rewrite E1, Ho in Hlen.
    repeat (rewrite length_app in Hlen; cbn in Hlen). lia.
  - intros c a Ht Ha. destruct (Hcl _ _ _ Heq Ho c a Ht Ha) as (o' & Ho' & Hc & Hcp & Hno).
    exists o'. split_and!; [|done|done]. rewrite Heq in Ho'.
    apply elem_of_app in Ho' as [?|?]; [done|]. by destruct Hno.
Qed.

Lemma sorted_split {A} (R : relation A) pre x post y :
  StronglySorted R (pre ++ x :: post) → y ∈ x :: post → R x x → R x y.
Proof.
  intros H Hy Hxx. induction pre as [|a pre IH]; cbn in H.
  - inversion H as [|? ? _ Hall]; subst. rewrite Forall_forall in Hall.
    apply elem_of_cons in Hy as [->|Hy]; auto.
  - inversion H; auto.
Qed.

Section keys.
Context (table : string) (was now : list Field).
Hypothesis Hwas : NoDup (map fName was).

(** The key-adding alteration is for the new key, which was not the old one. *)
Lemma adds_pk_column c op :
  op ∈ column_ops table was now c → adds_pk op = true →
  ∃ f, field now c = Some f ∧ fPrimaryKey f = true
       ∧ ∀ g, field was c = Some g → fPrimaryKey g = false.
Proof using Hwas.
  unfold column_ops. destruct (field now c) as [f|] eqn:En.
  - intros (r & -> & Hr)%list_elem_of_fmap. apply field_elem in En as [_ <-].
    unfold alter_field in Hr. rewrite indexFields_lookup in Hr by done.
    destruct (field was (fName f)) as [g|].
    + rewrite !elem_of_app, !elem_of_when in Hr. destruct_or! Hr; destruct Hr as [Hb ->]; try done.
      intros _. exists f. boolify. naive_solver.
    + apply list_elem_of_singleton in Hr as ->. cbn. intros Hp. exists f. naive_solver.
  - destruct (field was c); [by intros ->%list_elem_of_singleton|by intros ?%elem_of_nil].
Qed.

(** The key-clearing alterations: the old key, when it is not the new one. *)
Lemma clears_old_key c g :
  field was c = Some g → fPrimaryKey g = true →
  (∀ f, field now c = Some f → fPrimaryKey f = false) →
  ∃ op, op ∈ column_ops table was now c ∧ clears_pk op = true ∧ (op_rank op <= 3)%Z
        ∧ adds_pk (inverse_in was op) = true.
Proof using Hwas.
  intros Hg Pg Hno. unfold column_ops. destruct (field now c) as [f|] eqn:En.
  - specialize (Hno f eq_refl). apply field_elem in En as [_ <-].
    exists (DropPrimaryKey table (fName f)). split_and!; [|done|cbn; lia|done].
    apply list_elem_of_fmap. eexists (mkRanked _ 2%Z _). split; [done|].
    unfold alter_field. rewrite indexFields_lookup, Hg by done.
    rewrite !elem_of_app, !elem_of_when. rewrite Pg, Hno. tauto.
  - rewrite Hg. exists (DropColumn table c). split_and!; [set_solver|done|cbn; lia|].
    cbn. by rewrite Hg.
Qed.

(** The additions of the new key, when it is not the old one. *)
Lemma adds_new_key c f :
  field now c = Some f → fPrimaryKey f = true →
  (∀ g, field was c = Some g → fPrimaryKey g = false) →
  ∃ op, op ∈ column_ops table was now c ∧ clears_pk (inverse_in was op) = true
        ∧ (6 <= op_rank op)%Z.
Proof using Hwas.
  intros Hf Pf Hno. unfold column_ops. rewrite Hf. apply field_elem in Hf as [_ <-].
  unfold alter_field. rewrite indexFields_lookup by done.
  destruct (field was (fName f)) as [g|] eqn:Hg.
  - exists (AddPrimaryKey table (fName f)). split_and!; [|done|cbn; lia].
    apply list_elem_of_fmap. eexists (mkRanked _ 7%Z _). split; [done|].
    rewrite !elem_of_app, !elem_of_when. rewrite Pf, (Hno g eq_refl). tauto.
  - exists (AddColumn table f). split_and!; [set_solver|done|cbn; lia].
Qed.
Lemma column_adds_one c : length (List.filter adds_pk (column_ops table was now c)) ≤ 1.
Proof using Hwas.
  unfold column_ops. destruct (field now c) as [f|].
  - unfold alter_field. destruct (indexFields was !! fName f); [|cbn; case_match; cbn; lia].
    rewrite !map_app, !List.filter_app. unfold when. repeat case_match; cbn; lia.
  - destruct (field was c); cbn; lia.
Qed.

(** An alteration whose inverse adds a key touches the old key only. *)
Lemma inverse_adds_pk c op :
  op ∈ column_ops table was now c → adds_pk (inverse_in was op) = true →
  ∃ g, field was c = Some g ∧ fPrimaryKey g = true
       ∧ ∀ f, field now c = Some f → fPrimaryKey f = false.
Proof using Hwas.
  unfold column_ops. destruct (field now c) as [f|] eqn:En.
  - intros (r & -> & Hr)%list_elem_of_fmap. apply field_elem in En as [_ <-].
    unfold alter_field in Hr. rewrite indexFields_lookup in Hr by done.
    destruct (field was (fName f)) as [g|] eqn:Hg.
    + rewrite !elem_of_app, !elem_of_when in Hr.
      destruct_or! Hr; destruct Hr as [Hb ->]; cbn; rewrite ?Hg; try done.
      intros _. exists g. boolify. naive_solver.
    + apply list_elem_of_singleton in Hr as ->. done.
  - destruct (field was c) as [g|] eqn:Hg; [|by intros ?%elem_of_nil].
    intros ->%list_elem_of_singleton. cbn. rewrite Hg. cbn. intros Pg. exists g. naive_solver.
Qed.

Lemma column_inverse_adds_one c :
  length (List.filter adds_pk (map (inverse_in was) (column_ops table was now c))) ≤ 1.
Proof using Hwas.
  unfold column_ops. destruct (field now c) as [f|] eqn:Hf.
  - apply field_elem in Hf as [_ <-]. unfold alter_field. rewrite indexFields_lookup by done.
    destruct (field was (fName f)) as [g|] eqn:Hg; [|cbn; lia].
    rewrite !map_app, !List.filter_app. unfold when.
    repeat case_match; cbn; rewrite ?Hg; cbn; lia.
  - destruct (field was c) as [g|] eqn:Hg; cbn; rewrite ?Hg; cbn; [|lia].
    case_match; cbn; lia.
Qed.
End keys.

(** Drops come first, additions last. *)
Definition phase (op : Operation) : Z :=
  match op with
  | DropIndex _ _ | DropUnique _ _ | DropPrimaryKey _ _ | DropColumn _ _ => 0
  | AddIndex _ _ | AddUnique _ _ | AddPrimaryKey _ _ | AddColumn _ _ => 2
  | _ => 1
  end.

Lemma op_rank_phase a b : (op_rank a <= op_rank b)%Z → is_column_op b = true → (phase a <= phase b)%Z.
Proof. destruct a, b; cbn; lia || done. Qed.

Lemma column_op_inverse was op :
  is_column_op op = true → (phase op = 0 → is_Some (field was (op_column op)))%Z →
  op_column (inverse_in was op) = op_column op
  ∧ is_column_op (inverse_in was op) = true
  ∧ (phase (inverse_in was op) = 2 - phase op)%Z.
Proof.
  destruct op; cbn; intros Hop Hf; try done;
    try (destruct (field was column) as [f|] eqn:E; cbn; [apply field_elem in E as [_ ?]; done|done]).
  destruct (Hf eq_refl) as [f E]. rewrite E. cbn. by apply field_elem in E as [_ ?].
Qed.

Lemma StronglySorted_rev {A} (R : relation A) l :
  StronglySorted R l → StronglySorted (flip R) (rev l).
Proof.
  induction 1 as [|a l Hs IH Hall]; cbn; [constructor|].
  clear Hs. assert (Forall (λ x, flip R x a) (rev l)) as Hr.
  { rewrite Forall_forall in Hall. apply Forall_forall. intros x Hx. apply Hall.
    apply list_elem_of_In. apply in_rev. by apply list_elem_of_In. }
  clear Hall. induction IH as [|x l' Hs' IH' Hall']; cbn.
  - repeat constructor.
  - apply Forall_cons in Hr as [Hx Hr]. constructor; [auto|].
    apply Forall_app. split; [done|]. by constructor.
Qed.

(** The column operations of a plan, and of its inverse, add keys in order. *)
Section plan_keys.
Context (table : string) (was now : list Field).
Hypothesis Hwas : NoDup (map fName was).
Hypothesis Hnow : NoDup (map fName now).

Lemma field_key_unique fs c c' f f' :
  length (primaries fs) = 1 → field fs c = Some f → field fs c' = Some f' →
  fPrimaryKey f = true → fPrimaryKey f' = true → c = c'.
Proof.
  intros H [Hf <-]%field_elem [Hf' <-]%field_elem P P'. by rewrite (primaries_unique fs f f').
Qed.

Lemma columns_key fs c a :
  NoDup (map fName fs) → columns_of fs !! c = Some a → aPrimaryKey a = true →
  ∃ f, field fs c = Some f ∧ fPrimaryKey f = true.
Proof.
  intros Hnd. rewrite columns_of_lookup by done.
  destruct (field fs c) as [f|]; cbn; [|done]. intros [= <-]. eauto.
Qed.

(** The columns a plan drops something of were there before. *)
Lemma plan_old_column op :
  op ∈ plan table was now → phase op = 0%Z → is_Some (field was (op_column op)).
Proof using Hwas Hnow.
  intros Hin Hph. destruct (plan_elem table was now Hwas Hnow op Hin) as (c & Ho & <-).
  revert Ho. generalize (op_column op). intros c. unfold column_ops.
  destruct (field now c) as [f|] eqn:En.
  - intros (r & -> & Hr)%list_elem_of_fmap. apply field_elem in En as [_ <-].
    unfold alter_field in Hr. rewrite indexFields_lookup in Hr by done.
    destruct (field was (fName f)) as [g|]; [done|].
    apply list_elem_of_singleton in Hr as ->. done.
  - destruct (field was c); [done|by intros ?%elem_of_nil].
Qed.

Lemma plan_inverse op :
  op ∈ plan table was now →
  op_column (inverse_in was op) = op_column op
  ∧ is_column_op (inverse_in was op) = true
  ∧ (phase (inverse_in was op) = 2 - phase op)%Z.
Proof using Hwas Hnow.
  intros Hin. apply column_op_inverse; [by eapply plan_alteration|]. by apply plan_old_column.
Qed.

Definition back_plan : list Operation := rev (map (inverse_in was) (plan table was now)).

Lemma elem_of_back o : o ∈ back_plan ↔ ∃ op, o = inverse_in was op ∧ op ∈ plan table was now.
Proof.
  unfold back_plan. rewrite list_elem_of_In, <-in_rev, <-list_elem_of_In.
  apply list_elem_of_fmap.
Qed.

Lemma back_at c :
  at_key op_column c back_plan = rev (map (inverse_in was) (column_ops table was now c)).
Proof using Hwas Hnow.
  unfold at_key, back_plan. rewrite filter_bool_rev, filter_map_comm. do 2 f_equal.
  rewrite <-plan_at by done. apply filter_bool_ext. intros op Hop.
  by destruct (plan_inverse op Hop) as [-> _].
Qed.

Lemma back_phases : StronglySorted (λ a b, (phase a <= phase b)%Z) back_plan.
Proof using Hwas Hnow.
  assert (StronglySorted (λ a b, (phase b <= phase a)%Z) (map (inverse_in was) (plan table was now))) as H.
  { assert (∀ op, op ∈ plan table was now → is_column_op op = true
              ∧ (phase (inverse_in was op) = 2 - phase op)%Z) as Hall.
    { intros op Hop. split; [by eapply plan_alteration|by apply plan_inverse]. }
    pose proof (plan_ranks table was now) as Hs.
    induction Hs as [|o l Hs IH Ho]; cbn; [constructor|].
    constructor; [apply IH; set_solver|]. rewrite Forall_forall in Ho.
    apply Forall_forall. intros x (y & -> & Hy)%list_elem_of_fmap.
    destruct (Hall o ltac:(set_solver)) as [_ ->], (Hall y ltac:(set_solver)) as [Hc ->].
    pose proof (op_rank_phase _ _ (Ho y Hy) Hc). lia. }
  apply StronglySorted_rev in H. eapply ssorted_impl; [|exact H]. done.
Qed.

Hypothesis Kwas : length (primaries was) = 1.
Hypothesis Know : length (primaries now) = 1.

Lemma plan_pk_ordered : pk_ordered (columns_of was) (plan table was now).
Proof using Hwas Hnow Kwas Know.
  destruct (primaries_exists now Know) as (fn & Hfn & Pn).
  apply (pk_ordered_intro _ _ (fName fn)).
  - intros o Hin Hadd. destruct (plan_elem table was now Hwas Hnow o Hin) as (c & Ho & <-).
    destruct (adds_pk_column _ _ _ Hwas _ _ Ho Hadd) as (f & Hf & Pf & _).
    apply (field_key_unique now _ _ f fn); [done|done|by apply elem_field|done|done].
  - rewrite plan_at by done. by apply column_adds_one.
  - intros pre o post Heq Hadd c a Hc Pa.
    destruct (columns_key was c a Hwas Hc Pa) as (g & Hg & Pg).
    assert (o ∈ plan table was now) as Hin by (rewrite Heq; set_solver).
    destruct (plan_elem table was now Hwas Hnow o Hin) as (c' & Ho & Hc').
    destruct (adds_pk_column _ _ _ Hwas _ _ Ho Hadd) as (f & Hf & Pf & Hnot). assert (c ≠ c') as Hne.
    { intros ->. by rewrite (Hnot g Hg) in Pg. }
    destruct (clears_old_key table was now Hwas c g Hg Pg) as (o' & Ho' & Hcl & Hr & _).
    { intros f' Hf'. destruct (fPrimaryKey f') eqn:P'; [|done]. destruct Hne.
      by apply (field_key_unique now _ _ f' f). }
    destruct (column_ops_plan table was now Hwas Hnow c o' Ho') as [Hin' Hoc].
    exists o'. split_and!; [done|done|done|]. intros Hpost.
    pose proof (plan_ranks table was now) as Hs. rewrite Heq in Hs.
    apply (sorted_split _ _ _ _ o') in Hs; [|done|lia].
    destruct o; cbn in Hadd, Hs; try done; lia.
Qed.

Lemma back_pk_ordered : pk_ordered (columns_of now) back_plan.
Proof using Hwas Hnow Kwas Know.
  destruct (primaries_exists was Kwas) as (fw & Hfw & Pw).
  apply (pk_ordered_intro _ _ (fName fw)).
  - intros o (op & -> & Hin)%elem_of_back Hadd.
    destruct (plan_elem table was now Hwas Hnow op Hin) as (c & Ho & Hc).
    destruct (plan_inverse op Hin) as [-> _].
    destruct (inverse_adds_pk _ _ _ Hwas _ _ Ho Hadd) as (g & Hg & Pg & _). subst c.
    apply (field_key_unique was _ _ g fw); [done|done|by apply elem_field|done|done].
  - rewrite back_at. rewrite filter_bool_rev, length_rev. by apply column_inverse_adds_one.
  - intros pre o post Heq Hadd c a Hc Pa.
    destruct (columns_key now c a Hnow Hc Pa) as (f & Hf & Pf).
    assert (o ∈ back_plan) as Hin by (rewrite Heq; set_solver).
    apply elem_of_back in Hin as (op & -> & Hin).
    destruct (plan_elem table was now Hwas Hnow op Hin) as (c' & Ho & Hc').
    destruct (inverse_adds_pk _ _ _ Hwas _ _ Ho Hadd) as (g & Hg & Pg & Hnot).
    assert (c ≠ c') as Hne by (intros ->; by rewrite (Hnot f Hf) in Pf).
    destruct (adds_new_key table was now Hwas c f Hf Pf) as (op' & Ho' & Hcl & Hr).
    { intros g' Hg'. destruct (fPrimaryKey g') eqn:P'; [|done]. destruct Hne.
      by apply (field_key_unique was _ _ g' g). }
    destruct (column_ops_plan table was now Hwas Hnow c op' Ho') as [Hin' Hoc].
    exists (inverse_in was op'). destruct (plan_inverse op' Hin') as (Hc1 & _ & Hp1).
    split_and!; [apply elem_of_back; eauto|congruence|done|]. intros Hpost.
    pose proof back_phases as Hs. rewrite Heq in Hs.
    apply (sorted_split _ _ _ _ (inverse_in was op')) in Hs; [|done|lia].
    assert (phase (inverse_in was op) = 2%Z) as Hp2 by (destruct (inverse_in was op); done).
    destruct (plan_alteration _ _ _ _ Hin') as [_ Hcol'].
    assert (phase op' = 2%Z) by (destruct op'; cbn in Hr, Hcol' |- *; done || lia).
    cbv beta in Hs. lia.
Qed.
End plan_keys.

(** ** One table: forward and back *)

Definition good_fields (fs : list Field) : Prop :=
  NoDup (map fName fs) ∧ Forall flags_ok fs ∧ length (primaries fs) = 1.

Lemma valid_good m : valid_model m → good_fields (mFields m).
Proof.
  intros (_ & Hnd & Hv & Hp). split_and!; [done| |done].
  eapply Forall_impl; [exact Hv|]. apply valid_flags.
Qed.

Lemma columns_ext (t1 t2 : columns) : (∀ k, t1 !! k = t2 !! k) → t1 = t2.
Proof. apply map_eq. Qed.

Lemma plan_forward table was now :
  good_fields was → good_fields now →
  run_columns (plan table was now) (columns_of was) = Some (columns_of now).
Proof.
  intros (Hw & Fw & Kw) (Hn & Fn & Kn).
  destruct (run_columns_ok (plan table was now) (columns_of was) (λ k, columns_of now !! k))
    as (t' & Hr & Ht').
  - apply Forall_forall. intros op Hop. by eapply plan_alteration.
  - by apply plan_pk_ordered.
  - intros k. rewrite plan_at by done. by apply column_ops_forward.
  - rewrite Hr. f_equal. by apply columns_ext.
Qed.

Lemma plan_backward table was now :
  good_fields was → good_fields now →
  run_columns (back_plan table was now) (columns_of now) = Some (columns_of was).
Proof.
  intros (Hw & Fw & Kw) (Hn & Fn & Kn).
  destruct (run_columns_ok (back_plan table was now) (columns_of now) (λ k, columns_of was !! k))
    as (t' & Hr & Ht').
  - apply Forall_forall. intros o (op & -> & Hop)%elem_of_back. by eapply plan_inverse.
  - by apply back_pk_ordered.
  - intros k. rewrite back_at by done. by apply column_ops_backward.
  - rewrite Hr. f_equal. by apply columns_ext.
Qed.

(** ** Whole schemas *)

Definition reg_at (s : Snapshot) (t : string) : option Registered := find_key table_of (models s) t.

Lemma findByTable_key l t : findByTable l t = find_key table_of l t.
Proof. induction l as [|r l IH]; cbn; [done|]. by rewrite IH. Qed.

Lemma wf_nodup s : wf_snapshot s → NoDup (map table_of (models s)).
Proof. intros [H _]. by apply ascending_nodup. Qed.
#[export] Hint Resolve wf_nodup : fabrin.

Lemma index_lookup s t : wf_snapshot s → index (Models s) !! t = reg_at s t.
Proof.
  intros Hwf. rewrite Models_models. unfold index.
  rewrite (lookup_index_from table_of) by eauto with fabrin.
  fold (reg_at s t). destruct (reg_at s t); [done|]. by rewrite lookup_empty.
Qed.

Definition reg_columns (reg : Registered) : columns := columns_of (mFields (rModel reg)).

Lemma schema_of_lookup s t : wf_snapshot s → schema_of s !! t = reg_columns <$> reg_at s t.
Proof.
  intros Hwf. unfold schema_of. rewrite Models_models.
  by apply (lookup_list_to_map_key table_of reg_columns), wf_nodup.
Qed.

Lemma reg_at_elem s t reg : reg_at s t = Some reg → reg ∈ models s ∧ table_of reg = t.
Proof. apply find_key_Some. Qed.

Lemma reg_at_valid s t reg : wf_snapshot s → reg_at s t = Some reg → valid_model (rModel reg).
Proof. intros [_ H] [Hin _]%reg_at_elem. rewrite Forall_forall in H. auto. Qed.

(** What [Diff] does to one table. *)
Definition table_ops (before after : Snapshot) (t : string) : list Operation :=
  match reg_at before t, reg_at after t with
  | None, Some reg => [CreateTable (rModel reg)]
  | Some was, Some reg => plan t (mFields (rModel was)) (mFields (rModel reg))
  | Some _, None => [DropTable t]
  | None, None => []
  end.

Lemma alter_table_plan was reg :
  alter_table was reg = plan (table_of reg) (mFields (rModel was)) (mFields (rModel reg)).
Proof. done. Qed.

Lemma diff_at before after t :
  wf_snapshot before → wf_snapshot after →
  at_key operationTable t (Diff before after) = table_ops before after t.
Proof.
  intros Hb Ha. unfold at_key, Diff. rewrite !List.filter_app.
  rewrite !(filter_flat_map_key table_of operationTable).
  - rewrite !Models_models, !(filter_key_find table_of) by eauto with fabrin.
    fold (reg_at after t) (reg_at before t). rewrite <-!Models_models. unfold table_ops.
    destruct (reg_at before t) as [was|] eqn:Eb, (reg_at after t) as [reg|] eqn:Ea; cbn.
    + apply reg_at_elem in Eb as Hb', Ea as Ha'. destruct Hb' as [_ Tb], Ha' as [_ Ta].
      rewrite !index_lookup, Tb, Ta, Eb, Ea by done. cbn. rewrite !app_nil_r.
      by rewrite alter_table_plan, Ta.
    + apply reg_at_elem in Eb as Hb'. destruct Hb' as [_ Tb].
      by rewrite !index_lookup, Tb, Ea by done.
    + apply reg_at_elem in Ea as Ha'. destruct Ha' as [_ Ta].
      by rewrite !index_lookup, Ta, Eb by done.
    + done.
  - intros reg op _. destruct (_ !! _); [by intros ?%elem_of_nil|].
    by intros ->%list_elem_of_singleton.
  - intros reg op _. destruct (_ !! _); [|by intros ?%elem_of_nil].
    rewrite alter_table_plan. by intros [-> _]%plan_alteration.
  - intros reg op _. destruct (_ !! _); [by intros ?%elem_of_nil|].
    by intros ->%list_elem_of_singleton.
Qed.

(** The inverse makemigrations renders a Down from, where it has one. *)
Definition inverse (before : Snapshot) (op : Operation) : Operation :=
  match invert op before with Ok o => o | Err _ => op end.

Lemma find_in_models_other ms t c :
  t ∉ map table_of ms → find_in_models ms t c = None.
Proof.
  induction ms as [|r ms IH]; cbn; [done|].
  destruct (String.eqb_spec (table_of r) t) as [E|E]; cbn; set_solver.
Qed.

Lemma snapshotField_lookup s t c :
  wf_snapshot s →
  snapshotField s t c = (reg ← reg_at s t; field (mFields (rModel reg)) c).
Proof.
  intros Hnd%wf_nodup. unfold snapshotField, reg_at. rewrite Models_models.
  induction (models s) as [|r ms IH]; cbn; [done|]. cbn in Hnd.
  apply NoDup_cons in Hnd as [Hr Hnd].
  destruct (String.eqb_spec (table_of r) t) as [E|E]; cbn.
  - rewrite find_field_field. destruct (field _ c); [done|].
    apply find_in_models_other. by rewrite <-E.
  - by apply IH.
Qed.

Lemma invert_plan before t was now op :
  wf_snapshot before → reg_at before t = Some was → NoDup (map fName now) →
  op ∈ plan t (mFields (rModel was)) now →
  invert op before = Ok (inverse_in (mFields (rModel was)) op).
Proof.
  intros Hb Hr Hnow Hop. pose proof (valid_good _ (reg_at_valid _ _ _ Hb Hr)) as (Hw & _ & _).
  destruct (plan_alteration _ _ _ _ Hop) as [Ht Hc].
  pose proof (plan_elem _ _ _ Hw Hnow _ Hop) as (c & Hcop & Hcc).
  assert (∀ c, find_in_models (Models before) t c = field (mFields (rModel was)) c) as Hfind.
  { intros c0. change (find_in_models (Models before) t c0) with (snapshotField before t c0).
    rewrite snapshotField_lookup, Hr by done. done. }
  assert (op_rank op < 6 → is_Some (field (mFields (rModel was)) c))%Z as Hold.
  { unfold column_ops in Hcop. destruct (field now c) as [f|] eqn:En.
    - apply list_elem_of_fmap in Hcop as (r & -> & Hr'). apply field_elem in En as [_ <-].
      unfold alter_field in Hr'. rewrite indexFields_lookup in Hr' by done.
      destruct (field (mFields (rModel was)) (fName f)) as [g|]; [done|].
      apply list_elem_of_singleton in Hr' as ->. cbn. lia.
    - destruct (field (mFields (rModel was)) c); [done|by apply elem_of_nil in Hcop]. }
  destruct op; cbn in *; subst; try done; rewrite Hfind;
    destruct (Hold ltac:(lia)) as [f ->]; done.
Qed.

(** ** Lists of operations that take one schema to another, and back

    [moves] is about one table; [migration] about all of them. *)

Definition moves (before after : Snapshot) (t : string) (ops : list Operation) : Prop :=
  Forall (λ op, ∃ o, invert op before = Ok o ∧ operationTable o = t) ops
  ∧ replay1 table_step ops (schema_of before !! t) = Some (schema_of after !! t)
  ∧ replay1 table_step (rev (map (inverse before) ops)) (schema_of after !! t)
    = Some (schema_of before !! t).

Definition migration (before after : Snapshot) (ops : list Operation) : Prop :=
  ∀ t, moves before after t (at_key operationTable t ops).

Lemma valid_creatable m : valid_model m → creatable m = true.
Proof.
  intros (_ & Hnd & Hv & Hp). unfold creatable.
  rewrite !andb_true_iff, !bool_decide_eq_true, Nat.leb_le, forallb_forall. split_and!.
  - intros E. by rewrite E in Hp.
  - done.
  - lia.
  - intros f Hf%list_elem_of_In. rewrite Forall_forall in Hv. specialize (Hv f Hf).
    apply valid_flags in Hv. unfold flags_ok in Hv. destruct (fPrimaryKey f); [|done].
    by destruct Hv as [-> _].
Qed.

Lemma is_column_not_table op : is_column_op op = true → is_table_op op = false.
Proof. by destruct op. Qed.

Lemma map_ext_elem {A B} (f g : A → B) l : (∀ x, x ∈ l → f x = g x) → map f l = map g l.
Proof. intros H. apply map_ext_in. intros x Hx%list_elem_of_In. auto. Qed.

Lemma inverse_in_table was op : operationTable (inverse_in was op) = operationTable op.
Proof. destruct op; cbn; try done; by destruct (field was column). Qed.

Lemma table_ops_moves before after t :
  wf_snapshot before → wf_snapshot after → moves before after t (table_ops before after t).
Proof.
  intros Hb Ha. unfold moves, table_ops. rewrite !schema_of_lookup by done.
  destruct (reg_at before t) as [was|] eqn:Eb, (reg_at after t) as [reg|] eqn:Ea; cbn.
  - pose proof (valid_good _ (reg_at_valid _ _ _ Hb Eb)) as Gw.
    pose proof (valid_good _ (reg_at_valid _ _ _ Ha Ea)) as Gn.
    assert (∀ op, op ∈ plan t (mFields (rModel was)) (mFields (rModel reg)) →
              invert op before = Ok (inverse_in (mFields (rModel was)) op)) as Hinv.
    { intros op. apply invert_plan; [done|done|apply Gn]. }
    split_and!.
    + apply Forall_forall. intros op Hop. eexists. split; [by apply Hinv|].
      rewrite inverse_in_table. by eapply plan_alteration.
    + rewrite replay_columns.
      * unfold reg_columns. by rewrite plan_forward.
      * apply Forall_forall. intros op Hop. apply is_column_not_table. by eapply plan_alteration.
    + assert (map (inverse before) (plan t (mFields (rModel was)) (mFields (rModel reg)))
        = map (inverse_in (mFields (rModel was))) (plan t (mFields (rModel was)) (mFields (rModel reg)))) as ->.
      { apply map_ext_elem. intros op Hop. unfold inverse. by rewrite Hinv. }
      change (rev _) with (back_plan t (mFields (rModel was)) (mFields (rModel reg))).
      rewrite replay_columns.
      * unfold reg_columns. by rewrite plan_backward.
      * apply Forall_forall. intros o (op & -> & Hop)%elem_of_back. apply is_column_not_table.
        by apply (plan_inverse t _ (mFields (rModel reg))); [apply Gw|apply Gn|].
  - assert (invert (DropTable t) before = Ok (CreateTable (rModel was))) as Hi.
    { cbn. rewrite Models_models, findByTable_key. fold (reg_at before t). by rewrite Eb. }
    apply reg_at_elem in Eb as Hw. destruct Hw as [_ Tw].
    split_and!; [|done|].
    + constructor; [|constructor]. eexists. split; [exact Hi|done].
    + unfold inverse. rewrite Hi. cbn. rewrite valid_creatable; [done|].
      exact (reg_at_valid _ _ _ Hb Eb).
  - apply reg_at_elem in Ea as Hw. destruct Hw as [_ Tw]. split_and!; [| |done].
    + constructor; [|constructor]. eexists. split; [reflexivity|done].
    + rewrite valid_creatable; [done|]. exact (reg_at_valid _ _ _ Ha Ea).
  - split_and!; [constructor|done|done].
Qed.

Lemma Diff_migration before after :
  wf_snapshot before → wf_snapshot after → migration before after (Diff before after).
Proof. intros Hb Ha t. rewrite diff_at by done. by apply table_ops_moves. Qed.

(** The operations of some of the tables, run on a schema where those tables are
    as they were before, take exactly those tables to what they are after. *)
Definition only (p : string → bool) (ops : list Operation) : list Operation :=
  List.filter (λ op, p (operationTable op)) ops.

Lemma at_key_only p t ops :
  at_key operationTable t (only p ops) = if p t then at_key operationTable t ops else [].
Proof.
  unfold at_key, only. induction ops as [|op ops IH]; cbn; [by destruct (p t)|].
  destruct (String.eqb (operationTable op) t) eqn:E.
  - apply String.eqb_eq in E as Et. rewrite Et in *. destruct (p t) eqn:Ep; [|exact IH].
    cbn. by rewrite Et, String.eqb_refl, IH.
  - rewrite <-IH. destruct (p (operationTable op)); cbn; [|done]. by rewrite E.
Qed.

Lemma at_key_inverse before ops t :
  (∀ op, op ∈ ops → ∃ o, invert op before = Ok o ∧ operationTable o = operationTable op) →
  at_key operationTable t (rev (map (inverse before) ops))
  = rev (map (inverse before) (at_key operationTable t ops)).
Proof.
  intros H. unfold at_key. rewrite filter_bool_rev, filter_map_comm. do 2 f_equal.
  apply filter_bool_ext. intros op Hop. destruct (H op Hop) as (o & Ho & Ht).
  unfold inverse. by rewrite Ho, Ht.
Qed.

Lemma migration_invert before after ops op :
  migration before after ops → op ∈ ops →
  ∃ o, invert op before = Ok o ∧ operationTable o = operationTable op.
Proof.
  intros H Hop. destruct (H (operationTable op)) as [Hi _]. rewrite Forall_forall in Hi.
  apply Hi. apply elem_of_filter_bool. split; [done|]. apply String.eqb_refl.
Qed.

Lemma execute_only before after ops p (s : schema) :
  migration before after ops →
  (∀ t, p t = true → s !! t = schema_of before !! t) →
  ∃ s', execute (only p ops) s = Some s'
    ∧ ∀ t, s' !! t = if p t then schema_of after !! t else s !! t.
Proof.
  intros Hm Hs. apply key_replay_spec. intros t. rewrite at_key_only.
  destruct (p t) eqn:Ep; [|done]. rewrite Hs by done. apply (Hm t).
Qed.

Lemma execute_back before after ops p (s : schema) :
  migration before after ops →
  (∀ t, p t = true → s !! t = schema_of after !! t) →
  ∃ s', execute (rev (map (inverse before) (only p ops))) s = Some s'
    ∧ ∀ t, s' !! t = if p t then schema_of before !! t else s !! t.
Proof.
  intros Hm Hs. apply key_replay_spec. intros t. rewrite at_key_inverse.
  - rewrite at_key_only. destruct (p t) eqn:Ep; [|done]. rewrite Hs by done. apply (Hm t).
  - intros op [Hop _]%elem_of_filter_bool. by eapply migration_invert.
Qed.

Lemma only_all ops : only (λ _, true) ops = ops.
Proof. unfold only. by apply filter_bool_all. Qed.

Lemma execute_all before after ops :
  migration before after ops → execute ops (schema_of before) = Some (schema_of after).
Proof.
  intros Hm. destruct (execute_only _ _ _ (λ _, true) (schema_of before) Hm ltac:(done)) as (s' & He & Hs').
  rewrite only_all in He. rewrite He. f_equal. by apply map_eq.
Qed.

(** Equal schemas leave nothing to do. *)
Lemma alter_field_nil table was f prev :
  was !! fName f = Some prev → attrs_of prev = attrs_of f → alter_field table was f = [].
Proof.
  unfold alter_field, attrs_of. intros ->. intros [= -> -> -> -> -> ->].
  rewrite String.eqb_refl, Z.eqb_refl, Bool.eqb_reflx. cbn.
  by destruct (fIndex f), (fUnique f), (fPrimaryKey f).
Qed.

Lemma plan_nil table was now :
  NoDup (map fName was) → NoDup (map fName now) → columns_of was = columns_of now →
  plan table was now = [].
Proof.
  intros Hw Hn Heq.
  assert (∀ op, op ∈ plan table was now → False) as Hno.
  { intros op (c & Hop & _)%plan_elem; [|done..].
    pose proof (f_equal (.!! c) Heq) as Hc. cbn in Hc. rewrite !columns_of_lookup in Hc by done.
    unfold column_ops in Hop. destruct (field now c) as [f|] eqn:En.
    - destruct (field was c) as [g|] eqn:Ew; [|done]. cbn in Hc. injection Hc as Hc.
      rewrite (alter_field_nil _ _ f g) in Hop; [by apply elem_of_nil in Hop| |].
      + rewrite indexFields_lookup by done. apply field_elem in En as [_ <-]. done.
      + unfold attrs_of. by f_equal.
    - destruct (field was c); [done|by apply elem_of_nil in Hop]. }
  destruct (plan table was now) as [|op l]; [done|]. destruct (Hno op). set_solver.
Qed.

Lemma Diff_nil before after :
  wf_snapshot before → wf_snapshot after →
  Diff before after = [] ↔ schema_of before = schema_of after.
Proof.
  intros Hb Ha. split.
  - intros Hd. pose proof (execute_all _ _ _ (Diff_migration _ _ Hb Ha)) as He.
    rewrite Hd in He. cbn in He. by injection He.
  - intros Heq. assert (∀ op, op ∈ Diff before after → False) as Hno.
    { intros op Hop. assert (op ∈ at_key operationTable (operationTable op) (Diff before after)) as H.
      { apply elem_of_filter_bool. split; [done|]. apply String.eqb_refl. }
      rewrite diff_at in H by done. revert H. generalize (operationTable op). intros t.
      pose proof (f_equal (.!! t) Heq) as Ht. cbn in Ht. rewrite !schema_of_lookup in Ht by done.
      unfold table_ops. destruct (reg_at before t) as [was|] eqn:Eb, (reg_at after t) as [reg|] eqn:Ea;
        cbn in Ht; try done; [|by intros ?%elem_of_nil]. injection Ht as Ht.
      rewrite plan_nil; [by intros ?%elem_of_nil| | |done].
      - by apply (valid_good _ (reg_at_valid _ _ _ Hb Eb)).
      - by apply (valid_good _ (reg_at_valid _ _ _ Ha Ea)). }
    destruct (Diff before after) as [|op l]; [done|]. destruct (Hno op). set_solver.
Qed.

(** ** Properties *)

(** C1: the differ is sound.  For any two well-formed recorded schemas, the
    operations [Diff] returns, run in their order on the old schema, are never
    refused (no missing or duplicate table, column or constraint, no second primary
    key, no nullable key at any step) and end in exactly the new schema. *)
Theorem Diff_sound (before after : Snapshot) :
  wf_snapshot before → wf_snapshot after →
  execute (Diff before after) (schema_of before) = Some (schema_of after).
Proof. intros Hb Ha. by apply execute_all, Diff_migration. Qed.

(** A schema with a renamed key, a changed type, a dropped and an added column, a
    dropped and a created table. *)
Definition example_before : Snapshot := mkSnapshot
  [mkRegistered "blog" (mkModel "authors" [mkField "id" TypeInt64 0 false true false false]);
   mkRegistered "blog" (mkModel "posts"
     [mkField "id" TypeInt64 0 false true false false; mkField "slug" TypeString 40 true false false true;
      mkField "draft" TypeBool 0 false false false false])].
Definition example_after : Snapshot := mkSnapshot
  [mkRegistered "blog" (mkModel "posts"
     [mkField "slug" TypeString 80 false true false false; mkField "body" TypeString 0 true false false false;
      mkField "id" TypeInt64 0 false false true false]);
   mkRegistered "shop" (mkModel "orders" [mkField "id" TypeInt64 0 false true false false])].
Definition example_after' : Snapshot :=
  mkSnapshot (sort_by table_leb (models example_after)).

Lemma example_before_wf : wf_snapshot example_before.
Proof. apply (NewSnapshot_wf (models example_before)). reflexivity. Qed.
Lemma example_after_wf : wf_snapshot example_after'.
Proof. apply (NewSnapshot_wf (models example_after)). reflexivity. Qed.

Lemma Diff_sound_witness :
  execute (Diff example_before example_after') (schema_of example_before)
  = Some (schema_of example_after').
Proof. exact (Diff_sound example_before example_after' example_before_wf example_after_wf). Defined.

(** C2: the generated rollback is exact.  Every operation of a diff can be
    inverted from the recorded old schema, and the inverses, in reverse order, run
    on the new schema without being refused and restore exactly the old one. *)
Theorem Diff_reversible (before after : Snapshot) :
  wf_snapshot before → wf_snapshot after →
  ∃ inverses, map_result (λ op, invert op before) (Diff before after) = Ok inverses
    ∧ execute (rev inverses) (schema_of after) = Some (schema_of before).
Proof.
  intros Hb Ha. pose proof (Diff_migration _ _ Hb Ha) as Hm.
  exists (map (inverse before) (Diff before after)). split.
  - apply map_result_map. intros op Hop. destruct (migration_invert _ _ _ _ Hm Hop) as (o & Ho & _).
    unfold inverse. by rewrite Ho.
  - destruct (execute_back _ _ _ (λ _, true) (schema_of after) Hm ltac:(done)) as (s' & He & Hs').
    rewrite only_all in He. rewrite He. f_equal. by apply map_eq.
Qed.

Lemma Diff_reversible_witness :
  ∃ inverses, map_result (λ op, invert op example_before) (Diff example_before example_after') = Ok inverses
    ∧ execute (rev inverses) (schema_of example_after') = Some (schema_of example_before).
Proof. exact (Diff_reversible example_before example_after' example_before_wf example_after_wf). Defined.

(** The differ is complete and quiet: it returns no operation exactly
    when the two schemas have the same tables, columns and attributes; reordering
    columns or moving a table to another module is no change. *)
Theorem Diff_empty (before after : Snapshot) :
  wf_snapshot before → wf_snapshot after →
  (Diff before after = [] ↔ schema_of before = schema_of after).
Proof. apply Diff_nil. Qed.

Lemma Diff_empty_witness :
  Diff example_before example_before = [] ↔ schema_of example_before = schema_of example_before.
Proof. exact (Diff_empty example_before example_before example_before_wf example_before_wf). Defined.
