(* ===== verification/RenameSpec.v ===== *)
(** * Confirmed renames are migrations too

    [resolveRenames] replaces a dropped and an added column by a rename when the
    user confirms it.  The result takes the old schema to the new one and back
    exactly as the diff did: renaming a column is dropping it and adding the new
    one with the same attributes, and no other operation of the diff touches
    either name. *)

From S2P Require Import Prelude GoStrings Orm OrmState Diff Plan Schema DiffSpec.

(** ** Items: a diff with renames marked *)

Inductive item :=
| Plain (op : Operation)
| Ren (table : string) (fa fb : Field).

Definition compact1 (i : item) : Operation :=
  match i with Plain op => op | Ren t fa fb => RenameColumn t (fName fa) (fName fb) end.
Definition expand1 (i : item) : list Operation :=
  match i with Plain op => [op] | Ren t fa fb => [DropColumn t (fName fa); AddColumn t fb] end.
Definition compact (l : list item) : list Operation := map compact1 l.
Definition expand (l : list item) : list Operation := flat_map expand1 l.

(** Renames of columns with the same attributes, none of them a key. *)
Definition rename_ok (i : item) : Prop :=
  match i with
  | Plain op => is_column_op op = true
  | Ren _ fa fb => attrs_of fa = attrs_of fb ∧ fPrimaryKey fb = false ∧ fName fa ≠ fName fb
  end.

Lemma run_columns_lookup ops t t' c :
  Forall (λ op, is_column_op op = true) ops → run_columns ops t = Some t' →
  replay1 col_step (at_key op_column c ops) (t !! c) = Some (t' !! c).
Proof.
  intros Hall Hr. apply key_replay_lookup. revert t Hr.
  induction Hall as [|op ops Hop Hops IH]; intros t; cbn; [done|].
  intros (t1 & H1 & H2)%bind_Some. rewrite columns_step_key in H1 by done.
  destruct (_ && _); [done|]. rewrite H1. cbn. auto.
Qed.

Lemma expand_columns l : Forall rename_ok l → Forall (λ op, is_column_op op = true) (expand l).
Proof.
  induction 1 as [|[op|t fa fb] l Hi Hl IH]; cbn; [constructor|by constructor|].
  repeat constructor; done.
Qed.

(** A drop immediately followed by an addition is a rename. *)
Lemma drop_add_rename (t : columns) tb fa fb x :
  rename_ok (Ren tb fa fb) → t !! fName fa = Some x → x = attrs_of fa →
  run_columns [DropColumn tb (fName fa); AddColumn tb fb] t
  = run_columns [RenameColumn tb (fName fa) (fName fb)] t.
Proof.
  intros (Ha & Hp & Hne) Hx ->. unfold columns in *.
  assert (columns_step (DropColumn tb (fName fa)) t = Some (delete (fName fa) t)) as Hd.
  { unfold columns_step, key_step. cbn. by rewrite Hx. }
  assert (columns_step (AddColumn tb fb) (delete (fName fa) t)
          = match t !! fName fb with
            | None => Some (<[fName fb := attrs_of fb]> (delete (fName fa) t))
            | Some _ => None end) as Had.
  { unfold columns_step, key_step. cbn. rewrite Hp, lookup_delete_ne by done. cbn.
    by destruct (t !! fName fb). }
  cbn [run_columns]. rewrite Hd. cbn [mbind option_bind]. rewrite Had.
  unfold columns_step, columns in *. rewrite Hx, Ha. by destruct (t !! fName fb).
Qed.

Lemma run_compact l (t t' : columns) :
  Forall rename_ok l → run_columns (expand l) t = Some t' →
  (∀ pre tb fa fb post, l = pre ++ Ren tb fa fb :: post →
     t !! fName fa = Some (attrs_of fa) ∧ at_key op_column (fName fa) (expand pre) = []) →
  run_columns (compact l) t = Some t'.
Proof.
  intros Hok. revert t. induction Hok as [|i l Hi Hl IH]; intros t; [done|].
  change (expand (i :: l)) with (expand1 i ++ expand l). rewrite run_columns_app.
  intros (t1 & H1 & H2)%bind_Some Hren.
  change (compact (i :: l)) with ([compact1 i] ++ compact l). rewrite run_columns_app.
  assert (run_columns [compact1 i] t = Some t1) as ->.
  { destruct i as [op|tb fa fb]; [exact H1|].
    destruct (Hren [] tb fa fb l eq_refl) as [Ht _].
    cbn [expand1] in H1. by rewrite (drop_add_rename t tb fa fb _ Hi Ht eq_refl) in H1. }
  cbn. apply IH; [done|]. intros pre tb fa fb post ->.
  destruct (Hren (i :: pre) tb fa fb post eq_refl) as [Ht Hat].
  change (expand (i :: pre)) with (expand1 i ++ expand pre) in Hat.
  rewrite at_key_app in Hat. apply app_nil in Hat as [Hi0 Hpre]. split; [|done].
  rewrite <-Ht. assert (Forall rename_ok [i]) as Hcols%expand_columns by (by constructor).
  change (expand [i]) with (expand1 i ++ []) in Hcols. rewrite app_nil_r in Hcols.
  pose proof (run_columns_lookup _ _ _ (fName fa) Hcols H1) as H. rewrite Hi0 in H. by injection H.
Qed.

(** Keeping the order of the operations that add or clear keys keeps the order of
    keys. *)
Lemma filter_split {A} (q : A → bool) l pre' o post' :
  List.filter q l = pre' ++ o :: post' →
  ∃ pre post, l = pre ++ o :: post ∧ List.filter q pre = pre'.
Proof.
  revert pre'; induction l as [|x l IH]; intros pre'; cbn.
  - by destruct pre'.
  - destruct (q x) eqn:Eq.
    + destruct pre' as [|y pre']; cbn; [intros [= -> _]; by exists [], l|].
      intros [= -> H]. apply IH in H as (pre & post & -> & <-).
      exists (y :: pre), post. cbn. by rewrite Eq.
    + intros H. apply IH in H as (pre & post & -> & <-).
      exists (x :: pre), post. cbn. by rewrite Eq.
Qed.

Lemma pk_ordered_filter (q : Operation → bool) (t : columns) base l :
  List.filter q l = List.filter q base → pk_ordered t base →
  (∀ o, o ∈ l → adds_pk o = true → q o = true) →
  (∀ c a o, t !! c = Some a → aPrimaryKey a = true → op_column o = c → q o = true) →
  pk_ordered t l.
Proof.
  intros Hf Hpk Ha Hk pre o post -> Ho. rewrite List.filter_app in Hf. cbn in Hf.
  rewrite (Ha o) in Hf by (done || set_solver). symmetry in Hf.
  apply filter_split in Hf as (bpre & bpost & -> & Hpre).
  destruct (Hpk bpre o bpost eq_refl Ho) as [Hno Hcl]. split.
  - intros o' Ho'. destruct (adds_pk o') eqn:E; [|done]. exfalso.
    assert (o' ∈ List.filter q pre) as H.
    { apply elem_of_filter_bool. split; [done|]. apply Ha; [set_solver|done]. }
    rewrite <-Hpre in H. apply elem_of_filter_bool in H as [H _]. by rewrite (Hno o' H) in E.
  - intros c a Hc Pa. destruct (Hcl c a Hc Pa) as (o' & Ho' & Hoc & Hcc). exists o'.
    split_and!; [|done|done]. assert (o' ∈ List.filter q bpre) as H.
    { apply elem_of_filter_bool. split; [done|]. by eapply Hk. }
    rewrite Hpre in H. by apply elem_of_filter_bool in H as [H _].
Qed.

Lemma renamed_run (l : list item) (t t' : columns) (base : list Operation) (q : Operation → bool) :
  Forall rename_ok l →
  (∀ k, replay1 col_step (at_key op_column k (expand l)) (t !! k) = Some (t' !! k)) →
  pk_ordered t base → List.filter q (expand l) = List.filter q base →
  (∀ o, o ∈ expand l → adds_pk o = true → q o = true) →
  (∀ c a o, t !! c = Some a → aPrimaryKey a = true → op_column o = c → q o = true) →
  (∀ tb fa fb, Ren tb fa fb ∈ l → t !! fName fa = Some (attrs_of fa)
     ∧ length (at_key op_column (fName fa) (expand l)) ≤ 1) →
  run_columns (compact l) t = Some t'.
Proof.
  intros Hok Hk Hpk Hf Ha Hc Hren. apply run_compact; [done| |].
  - destruct (run_columns_ok (expand l) t (λ k, t' !! k)) as (t2 & -> & Ht2); [| |done|].
    + by apply expand_columns.
    + by eapply pk_ordered_filter.
    + f_equal. by apply columns_ext.
  - intros pre tb fa fb post ->. destruct (Hren tb fa fb ltac:(set_solver)) as [Ht Hlen].
    split; [done|]. unfold expand in Hlen |- *. rewrite flat_map_app in Hlen. cbn in Hlen.
    rewrite at_key_app in Hlen. cbn in Hlen. rewrite String.eqb_refl, length_app in Hlen. cbn in Hlen.
    apply length_zero_iff_nil. lia.
Qed.

(** ** Filtering indexed lists *)

Lemma filter_flat_map {A B} (p : B → bool) (g : A → list B) l :
  List.filter p (flat_map g l) = flat_map (λ x, List.filter p (g x)) l.
Proof. induction l as [|x l IH]; cbn; [done|]. by rewrite List.filter_app, IH. Qed.

Definition indexed {A} (k : nat) (l : list A) : list (nat * A) := imap (λ i x, (k + i, x)) l.

Lemma indexed_cons {A} k (x : A) l : indexed k (x :: l) = (k, x) :: indexed (S k) l.
Proof.
  unfold indexed. cbn. rewrite Nat.add_0_r. f_equal. apply imap_ext. intros i y _. cbn.
  by rewrite Nat.add_succ_r.
Qed.

Lemma indexed_pair {A} (l : list A) : imap pair l = indexed 0 l.
Proof. by apply imap_ext. Qed.

Lemma elem_of_indexed {A} k (l : list A) i x :
  (i, x) ∈ indexed k l ↔ k ≤ i ∧ l !! (i - k) = Some x.
Proof.
  unfold indexed. rewrite elem_of_lookup_imap. split.
  - intros (j & y & [= -> ->] & H). split; [lia|]. by replace (k + j - k) with j by lia.
  - intros [H1 H2]. exists (i - k), x. split; [|done]. f_equal. lia.
Qed.

Lemma flat_map_ext_elem {A B} (f g : A → list B) l :
  (∀ x, x ∈ l → f x = g x) → flat_map f l = flat_map g l.
Proof.
  induction l as [|x l IH]; cbn; intros H; [done|]. rewrite H, IH by set_solver. done.
Qed.

Lemma flat_map_indexed_snd {A B} (f : A → list B) k l :
  flat_map (λ ix, f ix.2) (indexed k l) = flat_map f l.
Proof. revert k; induction l as [|x l IH]; intros k; [done|]. rewrite indexed_cons. cbn. by rewrite IH. Qed.

Lemma filter_as_flat_map {A} (p : A → bool) l :
  List.filter p l = flat_map (λ x, List.filter p [x]) l.
Proof. induction l as [|x l IH]; cbn; [done|]. rewrite IH. by destruct (p x). Qed.

(** A filter that sees the same in every element's expansion. *)
Lemma filter_local {A} (p : A → bool) (g : nat * A → list A) l :
  (∀ i x, l !! i = Some x → List.filter p (g (i, x)) = List.filter p [x]) →
  List.filter p (flat_map g (indexed 0 l)) = List.filter p l.
Proof.
  intros H. rewrite filter_flat_map, (filter_as_flat_map p l), <-(flat_map_indexed_snd _ 0 l).
  apply flat_map_ext_elem. intros [i x] [_ Hi]%elem_of_indexed. rewrite Nat.sub_0_r in Hi. auto.
Qed.

Lemma flat_map_single {A B} (G : nat * A → list B) (y : B) i0 l :
  (∀ i x, l !! i = Some x → G (i, x) = if (i =? i0)%nat then [y] else []) →
  i0 < length l → flat_map G (indexed 0 l) = [y].
Proof.
  intros H Hlt.
  assert (∀ k, (∀ i x, l !! i = Some x → G (k + i, x) = if (k + i =? i0)%nat then [y] else []) →
    flat_map G (indexed k l) = if ((k <=? i0) && (i0 <? k + length l))%nat then [y] else []) as Hg.
  { clear. induction l as [|x l IH]; intros k Hk; cbn [length].
    - destruct (k <=? i0) eqn:E1, (i0 <? k + 0) eqn:E2; boolify; [lia|done..].
    - rewrite indexed_cons. cbn [flat_map].
      pose proof (Hk 0 x eq_refl) as H0. rewrite Nat.add_0_r in H0. rewrite H0. rewrite IH.
      + destruct (Nat.eqb_spec k i0), (k <=? i0) eqn:E1, (S k <=? i0) eqn:E2,
          (i0 <? S k + length l) eqn:E3, (i0 <? k + S (length l)) eqn:E4;
          boolify; try lia; done.
      + intros i z Hi. specialize (Hk (S i) z Hi). by rewrite Nat.add_succ_r in Hk. }
  rewrite Hg by done. destruct (0 <=? i0) eqn:E1, (i0 <? 0 + length l) eqn:E2; boolify; try lia. done.
Qed.

Lemma filter_one_index {A} (p : A → bool) l i j x y :
  length (List.filter p l) ≤ 1 → l !! i = Some x → l !! j = Some y →
  p x = true → p y = true → i = j.
Proof.
  revert i j; induction l as [|z l IH]; intros [|i] [|j]; cbn; try done.
  - intros Hlen [= ->] Hy Px Py. rewrite Px in Hlen. cbn in Hlen.
    assert (y ∈ List.filter p l) as Hin.
    { apply elem_of_filter_bool. split; [by eapply list_elem_of_lookup_2|done]. }
    destruct (List.filter p l); [by apply elem_of_nil in Hin|cbn in Hlen; lia].
  - intros Hlen Hx [= ->] Px Py. rewrite Py in Hlen. cbn in Hlen.
    assert (x ∈ List.filter p l) as Hin.
    { apply elem_of_filter_bool. split; [by eapply list_elem_of_lookup_2|done]. }
    destruct (List.filter p l); [by apply elem_of_nil in Hin|cbn in Hlen; lia].
  - intros Hlen Hx Hy Px Py. f_equal. eapply IH; [|done..]. destruct (p z); cbn in Hlen; lia.
Qed.

Lemma expand_flat_map {A} (g : A → list item) l :
  expand (flat_map g l) = flat_map (λ x, expand (g x)) l.
Proof.
  unfold expand. induction l as [|x l IH]; cbn; [done|]. by rewrite flat_map_app, IH.
Qed.

(** ** Candidates *)

Definition candidate_of (ops : list Operation) (before : Snapshot) (c : renameCandidate) (f : Field) : Prop :=
  ops !! cDrop c = Some (DropColumn (cTable c) (cFrom c))
  ∧ ops !! cAdd c = Some (AddColumn (cTable c) f)
  ∧ fName f = cTo c
  ∧ snapshotField before (cTable c) (cFrom c) = Some (cField c)
  ∧ renameCompatible (cField c) f = true.

Lemma candidates_spec ops before after c :
  c ∈ candidates ops before after → ∃ f, candidate_of ops before c f.
Proof.
  unfold candidates. rewrite indexed_pair, elem_of_flat_map.
  intros ([i op] & [_ Hi]%elem_of_indexed & Hc). rewrite Nat.sub_0_r in Hi.
  destruct op as [| | |t col| | | | | | | | |]; try by apply elem_of_nil in Hc.
  destruct (snapshotField before t col) as [old|] eqn:Eo; [|by apply elem_of_nil in Hc].
  unfold candidates_for in Hc. rewrite indexed_pair in Hc. apply elem_of_flat_map in Hc as ([j op] & Hj & Hc).
  apply elem_of_indexed in Hj as [_ Hj]. rewrite Nat.sub_0_r in Hj.
  destruct op as [| |t' f| | | | | | | | | |]; try by apply elem_of_nil in Hc.
  destruct (String.eqb_spec t' t) as [->|]; cbn in Hc; [|by apply elem_of_nil in Hc].
  destruct (renameCompatible old f) eqn:Er; cbn in Hc; [|by apply elem_of_nil in Hc].
  destruct (snapshotField after t (fName f)); [|by apply elem_of_nil in Hc].
  apply list_elem_of_singleton in Hc as ->. exists f. split_and!; done.
Qed.

Lemma compatible_attrs f g : renameCompatible f g = true → attrs_of f = attrs_of g.
Proof.
  unfold renameCompatible, attrs_of. rewrite !andb_true_iff, !Bool.eqb_true_iff, String.eqb_eq, Z.eqb_eq.
  intros (((((-> & ->) & ->) & ->) & ->) & ->). done.
Qed.

(** ** Accepted candidates *)

Definition accept (c : renameCandidate) (ch : choices) : choices :=
  mkChoices (<[cDrop c := RenameColumn (cTable c) (cFrom c) (cTo c)]> (replacements ch))
            ({[cAdd c]} ∪ ({[cDrop c]} ∪ consumed ch)).
Definition accepted (cs : list renameCandidate) : choices := foldr accept (mkChoices ∅ ∅) cs.

Definition touched (cs : list renameCandidate) : list nat := flat_map (λ c, [cDrop c; cAdd c]) cs.

Definition unconstrained (f : Field) : Prop :=
  fPrimaryKey f = false ∧ fUnique f = false ∧ fIndex f = false.

Lemma accepted_consumed cs i : i ∈ consumed (accepted cs) ↔ i ∈ touched cs.
Proof. induction cs as [|c cs IH]; cbn; [set_solver|]. set_solver. Qed.

Lemma accepted_replacements cs i :
  replacements (accepted cs) !! i =
  (λ c, RenameColumn (cTable c) (cFrom c) (cTo c)) <$> List.find (λ c, (cDrop c =? i)%nat) cs.
Proof.
  induction cs as [|c cs IH]; cbn; [done|].
  destruct (Nat.eqb_spec (cDrop c) i) as [<-|Hne].
  - by rewrite lookup_insert_eq.
  - by rewrite lookup_insert_ne.
Qed.

Lemma touched_elem cs i : i ∈ touched cs ↔ ∃ c, c ∈ cs ∧ (i = cDrop c ∨ i = cAdd c).
Proof. unfold touched. rewrite elem_of_flat_map. set_solver. Qed.

Lemma touched_unique cs c c' :
  NoDup (touched cs) → c ∈ cs → c' ∈ cs → cDrop c = cDrop c' ∨ cAdd c = cAdd c' → c = c'.
Proof.
  induction cs as [|x cs IH]; cbn; [set_solver|]. rewrite !NoDup_cons, !elem_of_cons.
  intros (Hx & Hx' & Hnd). rewrite touched_elem in Hx, Hx'.
  intros [->|Hc] [->|Hc'] Heq; [done| | |auto].
  - exfalso. destruct Heq; [apply Hx; right|apply Hx']; exists c'; tauto.
  - exfalso. destruct Heq; [apply Hx; right|apply Hx']; exists c; rewrite <-?H; auto.
Qed.

Section resolve.
Context `{Unicode}.

Lemma resolve_accepted (P : renameCandidate → Prop) cands input cs ch :
  Forall P cands → Forall (λ c, cDrop c ≠ cAdd c) cands →
  Forall (λ c, P c ∧ unconstrained (cField c)) cs → NoDup (touched cs) →
  resolve cands input (accepted cs) = Some (Ok ch) →
  ∃ cs', ch = accepted cs' ∧ NoDup (touched cs')
         ∧ Forall (λ c, P c ∧ unconstrained (cField c)) cs'.
Proof.
  intros HP Hda. revert input cs. induction cands as [|c cands IH]; intros input cs Hcs Hnd.
  - cbn. intros [= <-]. eauto.
  - apply Forall_cons in HP as [Hc HP]. apply Forall_cons in Hda as [Hd Hda].
    specialize (IH HP Hda). cbn. destruct (bool_decide _ || bool_decide _) eqn:Eb; [by apply IH|].
    rewrite orb_false_iff, !bool_decide_eq_false, !accepted_consumed in Eb. destruct Eb as [E1 E2].
    intros ([yes rest] & _ & Hk)%bind_Some. destruct yes; cbn in Hk; [|by apply IH in Hk].
    destruct (_ || _) eqn:Ef in Hk; [done|]. rewrite !orb_false_iff in Ef.
    apply (IH rest (c :: cs)); [constructor; [|done]| |done].
    + split; [done|]. unfold unconstrained. naive_solver.
    + cbn. rewrite !NoDup_cons. set_solver.
Qed.
End resolve.

(** ** From accepted candidates to items *)

Section items.
Context (ops : list Operation) (before : Snapshot) (cs : list renameCandidate).
Hypothesis Hcs : Forall (λ c, (∃ f, candidate_of ops before c f) ∧ unconstrained (cField c)) cs.
Hypothesis Hnd : NoDup (touched cs).

Definition added_field (j : nat) : Field :=
  match ops !! j with Some (AddColumn _ f) => f | _ => zero_field end.

(** The old field under the name it had: recorded fields carry their name. *)
Definition item_at (ix : nat * Operation) : list item :=
  match List.find (λ c, (cDrop c =? ix.1)%nat) cs with
  | Some c => [Ren (cTable c) (cField c) (added_field (cAdd c))]
  | None => if bool_decide (ix.1 ∈ map cAdd cs) then [] else [Plain ix.2]
  end.
Definition items : list item := flat_map item_at (indexed 0 ops).

Lemma added_candidate c f : candidate_of ops before c f → added_field (cAdd c) = f.
Proof. intros (_ & Ha & _). unfold added_field. by rewrite Ha. Qed.

Lemma elem_candidate c :
  c ∈ cs → candidate_of ops before c (added_field (cAdd c)) ∧ unconstrained (cField c).
Proof using Hcs.
  intros Hc. rewrite Forall_forall in Hcs. destruct (Hcs c Hc) as [[f Hf] Hu].
  by rewrite (added_candidate c f Hf).
Qed.

Lemma find_drop i c :
  List.find (λ c, (cDrop c =? i)%nat) cs = Some c → c ∈ cs ∧ cDrop c = i.
Proof. intros [? ?%Nat.eqb_eq]%find_some_elem. done. Qed.

Lemma drop_not_add c c' : c ∈ cs → c' ∈ cs → cDrop c ≠ cAdd c'.
Proof using Hcs.
  intros [(H1 & _) _]%elem_candidate [(_ & H2 & _) _]%elem_candidate Heq.
  rewrite Heq in H1. congruence.
Qed.

Lemma apply_choices_items :
  (∀ c, c ∈ cs → fName (cField c) = cFrom c) →
  apply_choices ops (accepted cs) = compact items.
Proof using Hcs.
  intros Hname. unfold apply_choices, items, compact. rewrite indexed_pair, flat_map_concat_map.
  rewrite (flat_map_concat_map item_at), concat_map, List.map_map. f_equal.
  apply map_ext_elem. intros [i op] _. unfold item_at. cbn.
  rewrite accepted_replacements. destruct (List.find _ cs) as [c|] eqn:Ef; cbn.
  - apply find_drop in Ef as [Hc <-]. destruct (elem_candidate c Hc) as [(_ & _ & Hto & _) _].
    by rewrite Hto, Hname.
  - assert (i ∈ consumed (accepted cs) ↔ i ∈ map cAdd cs) as Hiff.
    { rewrite accepted_consumed, touched_elem, list_elem_of_fmap. split; [|naive_solver].
      intros (c & Hc & [->| ->]); [|eauto]. eapply find_none in Ef; [|by apply list_elem_of_In].
      by rewrite Nat.eqb_refl in Ef. }
    case_bool_decide; case_bool_decide; try done; naive_solver.
Qed.

(** What an operation list, its items and their expansion have in common. *)
Definition item_table (i : item) : string :=
  match i with Plain op => operationTable op | Ren t _ _ => t end.
Definition items_of (T : string) : list item :=
  List.filter (λ i, String.eqb (item_table i) T) items.

Lemma expand_items_of T : expand (items_of T) = at_key operationTable T (expand items).
Proof.
  unfold expand, items_of, at_key.
  rewrite (filter_flat_map_key item_table operationTable); [done|].
  intros [op|t fa fb] o _; cbn; [by intros ->%list_elem_of_singleton|].
  intros [->|[->|[]%elem_of_nil]%elem_of_cons]%elem_of_cons; done.
Qed.

Lemma compact_items_of T : compact (items_of T) = at_key operationTable T (compact items).
Proof.
  unfold compact, items_of, at_key. rewrite filter_map_comm. f_equal.
  apply filter_bool_ext. by intros [op|t fa fb] _.
Qed.

Lemma elem_of_items i :
  i ∈ items → (∃ op, i = Plain op ∧ op ∈ ops)
    ∨ ∃ c, c ∈ cs ∧ i = Ren (cTable c) (cField c) (added_field (cAdd c)).
Proof.
  unfold items. rewrite elem_of_flat_map. intros ([k op] & Hk & Hi). unfold item_at in Hi.
  destruct (List.find _ cs) as [c|] eqn:Ef.
  - apply list_elem_of_singleton in Hi as ->. right. exists c. by apply find_drop in Ef as [? _].
  - case_bool_decide; [by apply elem_of_nil in Hi|]. apply list_elem_of_singleton in Hi as ->.
    left. exists op. split; [done|]. apply elem_of_indexed in Hk as [_ Hk].
    by eapply list_elem_of_lookup_2.
Qed.

Definition is_target (T c : string) : Prop := ∃ x, x ∈ cs ∧ cTable x = T ∧ cTo x = c.

(** A filter that sees neither the columns renamed to nor, of the columns renamed
    from, anything but their drop. *)
Lemma filter_expand_items (p : Operation → bool) :
  (∀ c, c ∈ cs → fName (cField c) = cFrom c) →
  (∀ x, x ∈ cs → p (AddColumn (cTable x) (added_field (cAdd x))) = false) →
  List.filter p (expand items) = List.filter p ops.
Proof using Hcs.
  intros Hname Hp. unfold items. rewrite expand_flat_map.
  apply filter_local. intros i op Hi. unfold item_at. cbn.
  destruct (List.find _ cs) as [c|] eqn:Ef.
  - apply find_drop in Ef as [Hc <-]. destruct (elem_candidate c Hc) as [(Hd & _) _].
    rewrite Hi in Hd. injection Hd as ->. unfold expand. cbn. rewrite (Hp c Hc), (Hname c Hc). done.
  - case_bool_decide as Hadd; [|done]. cbn.
    apply list_elem_of_fmap in Hadd as (c & -> & Hc).
    destruct (elem_candidate c Hc) as [(_ & Ha & _) _]. rewrite Hi in Ha. injection Ha as ->.
    by rewrite (Hp c Hc).
Qed.
End items.

(** ** Renames of a diff *)

Lemma plan_drop t was now c :
  NoDup (map fName was) → NoDup (map fName now) →
  DropColumn t c ∈ plan t was now → field now c = None.
Proof.
  intros Hw Hn Hop. destruct (plan_elem _ _ _ Hw Hn _ Hop) as (c' & Hc & Hc'). cbn in Hc'. subst c'.
  unfold column_ops in Hc. destruct (field now c) as [f|] eqn:En; [|done].
  apply list_elem_of_fmap in Hc as (r & Hr & Hin). unfold alter_field in Hin.
  destruct (indexFields was !! fName f); [|apply list_elem_of_singleton in Hin as ->; done].
  rewrite !elem_of_app, !elem_of_when in Hin. destruct_or! Hin; destruct Hin as [_ ->]; done.
Qed.

Lemma plan_add t was now f :
  NoDup (map fName was) → NoDup (map fName now) →
  AddColumn t f ∈ plan t was now → field was (fName f) = None ∧ field now (fName f) = Some f.
Proof.
  intros Hw Hn Hop. destruct (plan_elem _ _ _ Hw Hn _ Hop) as (c' & Hc & Hc'). cbn in Hc'. subst c'.
  unfold column_ops in Hc. destruct (field now (fName f)) as [g|] eqn:En.
  - apply list_elem_of_fmap in Hc as (r & Hr & Hin). unfold alter_field in Hin.
    rewrite indexFields_lookup in Hin by done. apply field_elem in En as [_ Hg].
    rewrite Hg in Hin. destruct (field was (fName f)) as [prev|] eqn:Ew.
    + rewrite !elem_of_app, !elem_of_when in Hin. destruct_or! Hin; destruct Hin as [_ ->]; done.
    + apply list_elem_of_singleton in Hin as ->. cbn in Hr. by injection Hr as ->.
  - destruct (field was (fName f)); [by apply list_elem_of_singleton in Hc|by apply elem_of_nil in Hc].
Qed.

Lemma column_ops_added t was now f :
  NoDup (map fName was) → field was (fName f) = None → field now (fName f) = Some f →
  column_ops t was now (fName f) = [AddColumn t f].
Proof.
  intros Hw H1 H2. unfold column_ops, alter_field. rewrite H2, indexFields_lookup, H1 by done. done.
Qed.

Lemma column_ops_dropped t was now c :
  field now c = None → is_Some (field was c) → column_ops t was now c = [DropColumn t c].
Proof. intros H1 [g H2]. unfold column_ops. by rewrite H1, H2. Qed.

Lemma at_key_at_key T c ops :
  at_key op_column c (at_key operationTable T ops)
  = List.filter (λ op, String.eqb (operationTable op) T && String.eqb (op_column op) c) ops.
Proof.
  unfold at_key. induction ops as [|op ops IH]; cbn; [done|].
  destruct (String.eqb (operationTable op) T); cbn; rewrite IH; done.
Qed.

Section diff_renames.
Context (before after : Snapshot) (cs : list renameCandidate).
Hypothesis Hb : wf_snapshot before.
Hypothesis Ha : wf_snapshot after.
Let ops := Diff before after.
Hypothesis Hcs : Forall (λ c, (∃ f, candidate_of ops before c f) ∧ unconstrained (cField c)) cs.
Hypothesis Hnd : NoDup (touched cs).

(** A renamed column belongs to a table both schemas have. *)
Lemma rename_table c :
  c ∈ cs → ∃ was reg, reg_at before (cTable c) = Some was ∧ reg_at after (cTable c) = Some reg
    ∧ DropColumn (cTable c) (cFrom c) ∈ plan (cTable c) (mFields (rModel was)) (mFields (rModel reg))
    ∧ AddColumn (cTable c) (added_field ops (cAdd c))
        ∈ plan (cTable c) (mFields (rModel was)) (mFields (rModel reg))
    ∧ field (mFields (rModel was)) (cFrom c) = Some (cField c)
    ∧ fName (added_field ops (cAdd c)) = cTo c.
Proof using Hcs Ha Hb.
  intros Hc. destruct (elem_candidate _ _ _ Hcs c Hc) as [(Hd & Hadd & Hto & Hsf & _) _].
  assert (∀ op, op ∈ ops → operationTable op = cTable c → op ∈ table_ops before after (cTable c)) as Hin.
  { intros op Hop Ht. rewrite <-diff_at by done. apply elem_of_filter_bool.
    split; [done|]. by apply String.eqb_eq. }
  apply list_elem_of_lookup_2 in Hd, Hadd.
  specialize (Hin _ Hd eq_refl) as H1. specialize (Hin _ Hadd eq_refl) as H2. clear Hin.
  rewrite snapshotField_lookup in Hsf by done. unfold table_ops in H1, H2.
  destruct (reg_at before (cTable c)) as [was|]; [|done]. cbn in Hsf.
  destruct (reg_at after (cTable c)) as [reg|]; [|by apply list_elem_of_singleton in H1].
  exists was, reg. split_and!; done.
Qed.

Lemma candidate_name c : c ∈ cs → fName (cField c) = cFrom c.
Proof using Hcs Ha Hb.
  intros (was & reg & _ & _ & _ & _ & Hf & _)%rename_table. by apply field_elem in Hf as [_ ?].
Qed.

Context (T : string) (was reg : Registered).
Hypothesis Tb : reg_at before T = Some was.
Hypothesis Ta : reg_at after T = Some reg.
Let fw := mFields (rModel was).
Let fn := mFields (rModel reg).

Lemma fw_good : good_fields fw.
Proof using Hb Tb. exact (valid_good _ (reg_at_valid _ _ _ Hb Tb)). Qed.
Lemma fn_good : good_fields fn.
Proof using Ha Ta. exact (valid_good _ (reg_at_valid _ _ _ Ha Ta)). Qed.

Lemma ops_at : at_key operationTable T ops = plan T fw fn.
Proof using Ha Hb Ta Tb. unfold ops. rewrite diff_at by done. unfold table_ops. by rewrite Tb, Ta. Qed.

(** The fields behind a rename of this table. *)
Lemma rename_fields c :
  c ∈ cs → cTable c = T →
  field fw (cFrom c) = Some (cField c) ∧ field fn (cFrom c) = None
  ∧ field fw (cTo c) = None ∧ field fn (cTo c) = Some (added_field ops (cAdd c))
  ∧ fName (cField c) = cFrom c ∧ fName (added_field ops (cAdd c)) = cTo c
  ∧ attrs_of (cField c) = attrs_of (added_field ops (cAdd c))
  ∧ unconstrained (added_field ops (cAdd c)) ∧ unconstrained (cField c).
Proof using Hcs Ha Hb Ta Tb.
  intros Hc HT. destruct (rename_table c Hc) as (w & r & Hw & Hr & Hd & Hadd & Hf & Hto).
  rewrite HT in *. rewrite Tb in Hw. injection Hw as <-. rewrite Ta in Hr. injection Hr as <-.
  destruct fw_good as [Nw _], fn_good as [Nn _].
  apply plan_drop in Hd; [|done..]. apply plan_add in Hadd as [H1 H2]; [|done..].
  rewrite Hto in H1, H2. apply field_elem in Hf as Hfe. destruct Hfe as [_ Hn].
  destruct (elem_candidate _ _ _ Hcs c Hc) as [(_ & _ & _ & _ & Hcomp%compatible_attrs) Hu].
  split_and!; try done. unfold unconstrained, attrs_of in *. injection Hcomp as _ _ _ E1 E2 E3.
  rewrite <-E1, <-E2, <-E3. done.
Qed.

Lemma filter_table_column c :
  List.filter (λ op, String.eqb (operationTable op) T && String.eqb (op_column op) c) ops
  = column_ops T fw fn c.
Proof using Ha Hb Ta Tb.
  rewrite <-at_key_at_key, ops_at. apply plan_at; [apply fw_good|apply fn_good].
Qed.

(** Column by column, the expanded items are the diff. *)
Lemma expand_target x :
  x ∈ cs → cTable x = T →
  at_key op_column (cTo x) (expand (items_of ops cs T)) = column_ops T fw fn (cTo x).
Proof using Hcs Hnd Ha Hb Ta Tb.
  intros Hx HT. destruct (rename_fields x Hx HT) as (Hf & Hn & H1 & H2 & Hna & Hto & _).
  rewrite <-Hto. rewrite column_ops_added; [|apply fw_good|by rewrite Hto|by rewrite Hto].
  rewrite expand_items_of, at_key_at_key. unfold items. rewrite expand_flat_map, filter_flat_map.
  destruct (elem_candidate _ _ _ Hcs x Hx) as [(Hd & Hadd & _) _].
  apply (flat_map_single _ _ (cDrop x)); [|by eapply lookup_lt_Some].
  intros i op Hi. unfold item_at. cbn [fst snd].
  assert (∀ j y, ops !! j = Some y → operationTable y = T → op_column y = cTo x → j = cAdd x) as Huniq.
  { intros j y Hj Ht Hc. eapply (filter_one_index
      (λ op, String.eqb (operationTable op) T && String.eqb (op_column op) (cTo x)) ops); [|done|exact Hadd| |].
    - rewrite filter_table_column, <-Hto. rewrite column_ops_added; [done|apply fw_good|by rewrite Hto|by rewrite Hto].
    - by rewrite Ht, Hc, !String.eqb_refl.
    - cbn. by rewrite HT, Hto, !String.eqb_refl. }
  destruct (List.find _ cs) as [c|] eqn:Ef.
  - apply find_drop in Ef as [Hc <-]. unfold expand. cbn.
    destruct (elem_candidate _ _ _ Hcs c Hc) as [(_ & Hcadd & _) _].
    destruct (String.eqb_spec (cTable c) T) as [HcT|HcT]; cbn.
    + destruct (rename_fields c Hc HcT) as (Hcf & _ & _ & _ & Hcna & Hcto & _).
      rewrite Hto. destruct (String.eqb_spec (fName (cField c)) (cTo x)) as [E|_]; [congruence|].
      destruct (String.eqb_spec (fName (added_field ops (cAdd c))) (cTo x)) as [E|E].
      * assert (c = x) as ->.
        { apply (touched_unique cs); [done|done|done|]. right. by eapply Huniq. }
        rewrite Nat.eqb_refl. by rewrite HT.
      * destruct (Nat.eqb_spec (cDrop c) (cDrop x)) as [E'|_]; [|done].
        assert (c = x) as -> by (apply (touched_unique cs); auto). done.
    + destruct (Nat.eqb_spec (cDrop c) (cDrop x)) as [E'|_]; [|done].
      assert (c = x) as -> by (apply (touched_unique cs); auto). done.
  - assert ((i =? cDrop x)%nat = false) as ->.
    { apply Nat.eqb_neq. intros ->. eapply find_none in Ef; [|by apply list_elem_of_In].
      by rewrite Nat.eqb_refl in Ef. }
    case_bool_decide as Hin; [done|]. unfold expand. cbn.
    destruct (String.eqb_spec (operationTable op) T) as [Ht|]; cbn; [|done].
    destruct (String.eqb_spec (op_column op) (fName (added_field ops (cAdd x)))) as [Hc|]; [|done].
    destruct Hin. apply list_elem_of_fmap. exists x. split; [|done].
    eapply Huniq; [done|done|]. by rewrite Hc.
Qed.

Lemma expand_at c :
  at_key op_column c (expand (items_of ops cs T)) = column_ops T fw fn c.
Proof using Hcs Hnd Ha Hb Ta Tb.
  destruct (decide (Exists (λ x, cTable x = T ∧ cTo x = c) cs)) as [He|Hno].
  - apply Exists_exists in He as (x & Hx & HT & <-). by apply expand_target.
  - rewrite expand_items_of, at_key_at_key, <-filter_table_column.
    apply (filter_expand_items _ before); [done|apply candidate_name|].
    intros x Hx. cbn. destruct (String.eqb_spec (cTable x) T) as [HT|]; [|done]. cbn.
    apply String.eqb_neq. intros E. apply Hno, Exists_exists. exists x. split; [done|]. split; [done|].
    rewrite <-E. symmetry. by apply rename_fields.
Qed.

Lemma elem_expand op : op ∈ expand (items_of ops cs T) ↔ op ∈ plan T fw fn.
Proof using Hcs Hnd Ha Hb Ta Tb.
  assert (∀ l, op ∈ l ↔ op ∈ at_key op_column (op_column op) l) as Hat.
  { intros l. unfold at_key. rewrite elem_of_filter_bool, String.eqb_refl. tauto. }
  rewrite (Hat (expand _)), (Hat (plan T fw fn)), expand_at, plan_at; [done|apply fw_good|apply fn_good].
Qed.

(** Operations on columns no rename involves. *)
Definition untouched (op : Operation) : bool :=
  negb (existsb (λ c, String.eqb (cTable c) T
          && (String.eqb (op_column op) (cFrom c) || String.eqb (op_column op) (cTo c))) cs).

Lemma untouched_false op :
  untouched op = false ↔
  ∃ c, c ∈ cs ∧ cTable c = T ∧ (op_column op = cFrom c ∨ op_column op = cTo c).
Proof.
  unfold untouched. rewrite negb_false_iff, existsb_exists.
  setoid_rewrite andb_true_iff. setoid_rewrite orb_true_iff. setoid_rewrite String.eqb_eq.
  setoid_rewrite <-list_elem_of_In. naive_solver.
Qed.

Lemma filter_untouched :
  List.filter untouched (expand (items_of ops cs T)) = List.filter untouched (plan T fw fn).
Proof using Hcs Hnd Ha Hb Ta Tb.
  assert (∀ l, List.filter untouched (at_key operationTable T l)
               = List.filter (λ op, String.eqb (operationTable op) T && untouched op) l) as Hl.
  { intros l. unfold at_key. induction l as [|op l IH]; cbn; [done|].
    destruct (String.eqb (operationTable op) T); cbn; rewrite IH; done. }
  rewrite expand_items_of, <-ops_at, !Hl.
  apply (filter_expand_items _ before); [done|apply candidate_name|].
  intros x Hx. cbn. destruct (String.eqb_spec (cTable x) T) as [HT|]; [|done]. cbn.
  apply untouched_false. exists x. split_and!; [done|done|]. right. by apply rename_fields.
Qed.

(** No key is renamed. *)
Lemma key_untouched c :
  (∀ x, x ∈ cs → cTable x = T → c ≠ cFrom x ∧ c ≠ cTo x) →
  ∀ o, op_column o = c → untouched o = true.
Proof.
  intros H o Ho. destruct (untouched o) eqn:E; [done|].
  apply untouched_false in E as (x & Hx & HT & Hor). rewrite Ho in Hor.
  destruct (H x Hx HT), Hor; done.
Qed.

Lemma renamed_not_key x f :
  x ∈ cs → cTable x = T →
  (field fw (cFrom x) = Some f ∨ field fw (cTo x) = Some f
   ∨ field fn (cFrom x) = Some f ∨ field fn (cTo x) = Some f) → fPrimaryKey f = false.
Proof using Hcs Ha Hb Ta Tb.
  intros Hx HT. destruct (rename_fields x Hx HT) as (-> & -> & -> & -> & _ & _ & _ & Hu & Hu').
  intros H. destruct_or! H; try done; injection H as <-; [apply Hu'|apply Hu].
Qed.

Lemma items_of_ok : Forall rename_ok (items_of ops cs T).
Proof using Hcs Ha Hb Ta Tb.
  apply Forall_forall. intros i [Hi Ht%String.eqb_eq]%elem_of_filter_bool.
  apply elem_of_items in Hi as [(op & -> & Hop)|(c & Hc & ->)]; cbn in *.
  - apply (plan_alteration T fw fn). rewrite <-ops_at. apply elem_of_filter_bool.
    split; [done|]. by apply String.eqb_eq.
  - destruct (rename_fields c Hc Ht) as (H1 & _ & H2 & _ & E1 & E2 & Hat & (Hp & _) & _).
    split_and!; [done|done|]. rewrite E1, E2. intros E. congruence.
Qed.

Lemma elem_of_items_of tb fa fb :
  Ren tb fa fb ∈ items_of ops cs T →
  ∃ c, c ∈ cs ∧ cTable c = T ∧ tb = T ∧ fa = cField c ∧ fb = added_field ops (cAdd c).
Proof.
  intros [Hi Ht%String.eqb_eq]%elem_of_filter_bool. cbn in Ht.
  apply elem_of_items in Hi as [(op & [=] & _)|(c & Hc & [= -> -> ->])]. exists c. done.
Qed.

Lemma columns_flag (fs : list Field) c a :
  good_fields fs → columns_of fs !! c = Some a → aPrimaryKey a = true →
  ∃ f, field fs c = Some f ∧ fPrimaryKey f = true.
Proof. intros (Hnd' & _). by apply columns_key. Qed.

Lemma renamed_forward :
  run_columns (compact (items_of ops cs T)) (columns_of fw) = Some (columns_of fn).
Proof using Hcs Hnd Ha Hb Ta Tb.
  pose proof fw_good as (Nw & Fw & Kw). pose proof fn_good as (Nn & Fn & Kn).
  apply (renamed_run _ _ _ (plan T fw fn) untouched).
  - apply items_of_ok.
  - intros k. rewrite expand_at. by apply column_ops_forward.
  - by apply plan_pk_ordered.
  - apply filter_untouched.
  - intros o Ho%elem_expand Hadd. destruct (plan_elem T fw fn Nw Nn o Ho) as (c & Hc & Hoc).
    destruct (adds_pk_column T fw fn Nw c o Hc Hadd) as (f & Hf & Pf & _).
    apply (key_untouched c); [|done]. intros x Hx HT.
    split; intros ->; rewrite (renamed_not_key x f) in Pf; auto; done.
  - intros c a o Hc Pa Ho. destruct (columns_flag fw c a fw_good Hc Pa) as (f & Hf & Pf).
    apply (key_untouched c); [|done]. intros x Hx HT.
    split; intros ->; rewrite (renamed_not_key x f) in Pf; auto; done.
  - intros tb fa fb (c & Hc & HT & -> & -> & ->)%elem_of_items_of.
    destruct (rename_fields c Hc HT) as (H1 & H2 & _ & _ & E1 & _). split.
    + rewrite columns_of_lookup, E1, H1 by done. done.
    + rewrite expand_at, E1, column_ops_dropped; [cbn; lia|done|by rewrite H1].
Qed.

Definition inverse_item (i : item) : item :=
  match i with Plain op => Plain (inverse_in fw op) | Ren t fa fb => Ren t fb fa end.
Definition back_items : list item := rev (map inverse_item (items_of ops cs T)).

Lemma expand_back : expand back_items = rev (map (inverse_in fw) (expand (items_of ops cs T))).
Proof using Hcs Ha Hb Ta Tb.
  unfold back_items, expand.
  assert (∀ tb fa fb, Ren tb fa fb ∈ items_of ops cs T → field fw (fName fa) = Some fa) as Hr.
  { intros tb fa fb (c & Hc & HT & -> & -> & ->)%elem_of_items_of.
    by destruct (rename_fields c Hc HT) as (H1 & _ & _ & _ & -> & _). }
  induction (items_of ops cs T) as [|i l IH]; cbn; [done|].
  rewrite flat_map_app, IH by (intros tb fa fb ?; apply (Hr tb fa fb), elem_of_cons; by right). clear IH.
  rewrite map_app, rev_app_distr. f_equal. destruct i as [op|tb fa fb]; cbn; [done|].
  by rewrite (Hr tb fa fb) by (apply elem_of_cons; by left).
Qed.

Lemma back_items_at c :
  at_key op_column c (expand back_items) = rev (map (inverse_in fw) (column_ops T fw fn c)).
Proof using Hcs Hnd Ha Hb Ta Tb.
  rewrite expand_back. unfold at_key. rewrite filter_bool_rev, filter_map_comm. do 2 f_equal.
  rewrite <-expand_at. apply filter_bool_ext. intros op Hop%elem_expand.
  by destruct (plan_inverse T fw fn (proj1 fw_good) (proj1 fn_good) op Hop) as [-> _].
Qed.

Lemma filter_untouched_back :
  List.filter untouched (expand back_items) = List.filter untouched (back_plan T fw fn).
Proof using Hcs Hnd Ha Hb Ta Tb.
  rewrite expand_back. unfold back_plan. rewrite !filter_bool_rev, !filter_map_comm. f_equal.
  assert (∀ op, op ∈ plan T fw fn → untouched (inverse_in fw op) = untouched op) as Hu.
  { intros op Hop. unfold untouched.
    by destruct (plan_inverse T fw fn (proj1 fw_good) (proj1 fn_good) op Hop) as [-> _]. }
  rewrite (filter_bool_ext _ untouched (expand _)) by (intros op Hop%elem_expand; auto).
  rewrite (filter_bool_ext _ untouched (plan _ _ _)) by auto. by rewrite filter_untouched.
Qed.

Lemma back_items_ok : Forall rename_ok back_items.
Proof using Hcs Ha Hb Ta Tb.
  apply Forall_forall. intros i Hi. unfold back_items in Hi.
  rewrite list_elem_of_In, <-in_rev, <-list_elem_of_In in Hi.
  apply list_elem_of_fmap in Hi as (j & -> & Hj).
  pose proof items_of_ok as Hok. rewrite Forall_forall in Hok. specialize (Hok j Hj).
  destruct j as [op|tb fa fb]; cbn in *.
  - apply elem_of_filter_bool in Hj as [Hj Ht%String.eqb_eq]. cbn in Ht.
    apply elem_of_items in Hj as [(op' & [= <-] & Hop)|(c & _ & [=])].
    apply (plan_inverse T fw fn (proj1 fw_good) (proj1 fn_good)). rewrite <-ops_at.
    apply elem_of_filter_bool. split; [done|]. by apply String.eqb_eq.
  - destruct Hok as (E & Hp & Hne). split_and!; [done| |done].
    unfold attrs_of in E. injection E as _ _ _ -> _ _. done.
Qed.

Lemma elem_back_items tb fb fa :
  Ren tb fb fa ∈ back_items → Ren tb fa fb ∈ items_of ops cs T.
Proof.
  unfold back_items. rewrite list_elem_of_In, <-in_rev, <-list_elem_of_In.
  intros (j & Hj & Hin)%list_elem_of_fmap. destruct j; [done|]. by injection Hj as -> -> ->.
Qed.

Lemma renamed_backward :
  run_columns (compact back_items) (columns_of fn) = Some (columns_of fw).
Proof using Hcs Hnd Ha Hb Ta Tb.
  pose proof fw_good as (Nw & Fw & Kw). pose proof fn_good as (Nn & Fn & Kn).
  apply (renamed_run _ _ _ (back_plan T fw fn) untouched).
  - apply back_items_ok.
  - intros k. rewrite back_items_at. by apply column_ops_backward.
  - by apply back_pk_ordered.
  - apply filter_untouched_back.
  - intros o Ho Hadd. rewrite expand_back, list_elem_of_In, <-in_rev, <-list_elem_of_In in Ho.
    apply list_elem_of_fmap in Ho as (op & -> & Hop%elem_expand).
    destruct (plan_elem T fw fn Nw Nn op Hop) as (c & Hc & Hoc).
    destruct (inverse_adds_pk T fw fn Nw c op Hc Hadd) as (f & Hf & Pf & _).
    apply (key_untouched c).
    + intros x Hx HT. split; intros ->; rewrite (renamed_not_key x f) in Pf; auto; done.
    + rewrite <-Hoc. by apply (plan_inverse T fw fn Nw Nn).
  - intros c a o Hc Pa Ho. destruct (columns_flag fn c a fn_good Hc Pa) as (f & Hf & Pf).
    apply (key_untouched c); [|done]. intros x Hx HT.
    split; intros ->; rewrite (renamed_not_key x f) in Pf; auto; done.
  - intros tb fb fa (c & Hc & HT & -> & -> & ->)%elem_back_items%elem_of_items_of.
    destruct (rename_fields c Hc HT) as (_ & _ & H1 & H2 & _ & E2 & _). split.
    + rewrite columns_of_lookup, E2, H2 by done. done.
    + rewrite back_items_at, length_rev, length_map, column_ops_added;
        [cbn; lia|done|by rewrite E2..].
Qed.

Lemma compact_back :
  rev (map (inverse before) (compact (items_of ops cs T))) = compact back_items.
Proof using Hcs Ha Hb Ta Tb.
  unfold compact, back_items. rewrite map_rev, !List.map_map. f_equal. apply map_ext_elem.
  intros i [Hi Ht%String.eqb_eq]%elem_of_filter_bool.
  destruct i as [op|tb fa fb]; cbn; [|done].
  apply elem_of_items in Hi as [(op' & [= <-] & Hop)|(c & _ & [=])].
  unfold inverse. rewrite (invert_plan before T was fn); [done|done|done|apply fn_good|].
  fold fw. rewrite <-ops_at. apply elem_of_filter_bool. split; [done|]. by apply String.eqb_eq.
Qed.

Lemma renamed_moves :
  moves before after T (compact (items_of ops cs T)).
Proof using Hcs Hnd Ha Hb Ta Tb.
  assert (∀ l, Forall rename_ok l → Forall (λ op, is_table_op op = false) (compact l)) as Hnt.
  { intros l Hl. apply Forall_forall. intros op (i & -> & Hi)%list_elem_of_fmap.
    rewrite Forall_forall in Hl. specialize (Hl i Hi).
    destruct i as [o|]; [by apply is_column_not_table|done]. }
  split_and!.
  - apply Forall_forall. intros o (i & -> & Hi)%list_elem_of_fmap.
    apply elem_of_filter_bool in Hi as [Hi Ht%String.eqb_eq].
    destruct i as [op|tb fa fb]; cbn in Ht; [|subst; eexists; split; [reflexivity|done]].
    apply elem_of_items in Hi as [(op' & [= <-] & Hop)|(c & _ & [=])].
    exists (inverse_in fw op). split; [|by rewrite inverse_in_table].
    apply (invert_plan before T was fn); [done|done|apply fn_good|].
    fold fw. rewrite <-ops_at. apply elem_of_filter_bool. split; [done|]. by apply String.eqb_eq.
  - rewrite !schema_of_lookup, Tb, Ta by done. cbn. rewrite replay_columns by apply Hnt, items_of_ok.
    unfold reg_columns. fold fw fn. by rewrite renamed_forward.
  - rewrite compact_back. rewrite !schema_of_lookup, Tb, Ta by done. cbn.
    rewrite replay_columns by apply Hnt, back_items_ok.
    unfold reg_columns. fold fw fn. by rewrite renamed_backward.
Qed.
End diff_renames.

(** Whatever is confirmed, the resolved operations are a migration. *)
Lemma accepted_migration before after cs :
  wf_snapshot before → wf_snapshot after →
  Forall (λ c, (∃ f, candidate_of (Diff before after) before c f) ∧ unconstrained (cField c)) cs →
  NoDup (touched cs) →
  migration before after (apply_choices (Diff before after) (accepted cs)).
Proof.
  intros Hb Ha Hcs Hnd T.
  assert (∀ c, c ∈ cs → fName (cField c) = cFrom c) as Hname
    by (intros c; by apply (candidate_name before after cs)).
  rewrite (apply_choices_items _ before _ Hcs Hname), <-compact_items_of.
  destruct (reg_at before T) as [was|] eqn:Tb, (reg_at after T) as [reg|] eqn:Ta.
  1: by eapply renamed_moves.
  all: assert (compact (items_of (Diff before after) cs T) = at_key operationTable T (Diff before after)) as ->;
    [|by rewrite diff_at by done; apply table_ops_moves].
  all: assert (∀ i, i ∈ items_of (Diff before after) cs T → ∃ op, i = Plain op) as Hplain.
  1,3,5: intros i [Hi Ht%String.eqb_eq]%elem_of_filter_bool;
    apply elem_of_items in Hi as [(op & -> & _)|(c & Hc & ->)]; [by eexists|];
    cbn in Ht; destruct (rename_table before after cs Hb Ha Hcs c Hc) as (w & r & H1 & H2 & _);
    rewrite Ht in *; congruence.
  all: transitivity (expand (items_of (Diff before after) cs T)).
  1,3,5: unfold compact, expand; clear -Hplain;
    induction (items_of _ cs T) as [|i l IH]; cbn; [done|];
    rewrite IH by (intros; apply Hplain; set_solver);
    destruct (Hplain i ltac:(set_solver)) as [op ->]; done.
  all: rewrite expand_items_of; apply (filter_expand_items _ before); [done|done|];
    intros x Hx; cbn; apply String.eqb_neq; intros E;
    destruct (rename_table before after cs Hb Ha Hcs x Hx) as (w & r & H1 & H2 & _);
    rewrite E in *; congruence.
Qed.
