(* ===== verification/PlanSpec.v ===== *)
(** * Planning is correct

    The questions about renames always end in an answer; whatever is answered,
    the operations kept are a migration; and splitting them by owning module
    gives a chain of migrations whose recorded states are exactly the schemas the
    migrations leave behind. *)

From S2P Require Import Prelude GoStrings Orm OrmState Diff Plan Schema DiffSpec RenameSpec.

(** ** Asking *)

Lemma CutByte_length sep s a b :
  CutByte sep s = Some (a, b) → String.length b < String.length s.
Proof.
  revert a; induction s as [|c s IH]; intros a; cbn; [done|].
  destruct (Ascii.eqb c sep); [intros [= <- <-]; lia|].
  destruct (CutByte sep s) as [[x y]|]; [|done]. intros [= <- <-]. specialize (IH x eq_refl). lia.
Qed.

Section ask.
Context `{Unicode}.

Lemma ask_loop_answers n input :
  String.length input < n → ∃ yes rest, ask_loop n input = Some (yes, rest).
Proof.
  revert input; induction n as [|n IH]; intros input Hn; [lia|]. cbn. unfold read_line.
  destruct (CutByte "010" input) as [[a b]|] eqn:E.
  - apply CutByte_length in E. destruct (classify _); [by eauto|by eauto|]. apply IH. lia.
  - destruct (classify _); eauto.
Qed.

Lemma askRename_answers input : ∃ yes rest, askRename input = Some (yes, rest).
Proof. apply ask_loop_answers. lia. Qed.

Lemma resolve_total cands input ch : ∃ r, resolve cands input ch = Some r.
Proof.
  revert input ch; induction cands as [|c cands IH]; intros input ch; cbn [resolve]; [by eauto|].
  destruct (_ || _); [by apply IH|]. destruct (askRename_answers input) as (yes & rest & ->).
  cbn [mbind option_bind]. destruct yes; cbn [negb]; [|by apply IH].
  destruct (_ || _); [by eauto|apply IH].
Qed.

Lemma resolveRenames_total ops before after input interactive :
  ∃ r, resolveRenames ops before after input interactive = Some r.
Proof.
  unfold resolveRenames. destruct (candidates ops before after) as [|c cs]; [by eauto|].
  destruct interactive; cbn [negb]; [|by eauto].
  destruct (resolve_total (c :: cs) input (mkChoices ∅ ∅)) as [r ->].
  cbn [mbind option_bind]. eauto.
Qed.

Lemma resolveRenames_migration before after input interactive ops :
  wf_snapshot before → wf_snapshot after →
  resolveRenames (Diff before after) before after input interactive = Some (Ok ops) →
  migration before after ops.
Proof.
  intros Hb Ha. unfold resolveRenames.
  destruct (candidates (Diff before after) before after) as [|c cs] eqn:Ec.
  { intros [= <-]. by apply Diff_migration. }
  destruct interactive; cbn [negb]; [|done].
  intros (r & Hr & [= Hch])%bind_Some. apply result_bind_ok in Hch as (ch & -> & [= <-]).
  change (mkChoices ∅ ∅) with (accepted []) in Hr.
  apply (resolve_accepted (λ c, ∃ f, candidate_of (Diff before after) before c f)) in Hr.
  - destruct Hr as (cs' & -> & Hnd & Hcs'). by apply accepted_migration.
  - rewrite <-Ec. apply Forall_forall. apply candidates_spec.
  - rewrite <-Ec. apply Forall_forall. intros x (f & H1 & H2 & _)%candidates_spec E.
    rewrite E in H1. congruence.
  - constructor.
  - constructor.
Qed.
End ask.

(** ** Recorded state per module *)

Lemma NoDup_map_filter (p : Registered → bool) l :
  NoDup (map table_of l) → NoDup (map table_of (List.filter p l)).
Proof.
  induction l as [|x l IH]; cbn; [done|]. rewrite NoDup_cons. intros [Hx Hnd].
  destruct (p x); [|auto]. cbn. apply NoDup_cons. split; [|auto].
  rewrite list_elem_of_fmap in *. intros (y & Hy & [Hin _]%elem_of_filter_bool). eauto.
Qed.

Lemma find_key_filter {A} (key : A → string) (p : string → bool) l k :
  find_key key (List.filter (λ x, p (key x)) l) k = if p k then find_key key l k else None.
Proof.
  unfold find_key. induction l as [|x l IH]; cbn; [by destruct (p k)|].
  destruct (String.eqb_spec (key x) k) as [<-|Hne].
  - destruct (p (key x)) eqn:E; cbn; [by rewrite String.eqb_refl|]. by rewrite IH.
  - destruct (p (key x)); cbn; [|done]. by rewrite (proj2 (String.eqb_neq _ _) Hne).
Qed.

Lemma find_key_app {A} (key : A → string) l1 l2 k :
  find_key key (l1 ++ l2) k =
  match find_key key l1 k with Some x => Some x | None => find_key key l2 k end.
Proof. unfold find_key. induction l1 as [|x l1 IH]; cbn; [done|]. by destruct (String.eqb _ _). Qed.

Lemma find_key_perm {A} (key : A → string) l1 l2 k :
  NoDup (map key l1) → l1 ≡ₚ l2 → find_key key l1 k = find_key key l2 k.
Proof.
  intros Hnd Hp. assert (NoDup (map key l2)) as Hnd2 by (by rewrite <-Hp).
  destruct (find_key key l1 k) as [x|] eqn:E.
  - apply find_key_Some in E as [Hx <-]. symmetry. apply find_key_elem; [done|]. by rewrite <-Hp.
  - apply find_key_None in E. symmetry. apply find_key_None. by rewrite <-Hp.
Qed.

Definition changed (ops : list Operation) (t : string) : bool :=
  bool_decide (t ∈ (list_to_set (map operationTable ops) : gset string)).

(** The next state has the changed tables of the final one and the others of the
    current one. *)
Lemma snapshotAfter_ok current final ops :
  wf_snapshot current → wf_snapshot final →
  ∃ next, snapshotAfterOperations current final ops = Ok next ∧ wf_snapshot next
    ∧ ∀ t, reg_at next t = if changed ops t then reg_at final t else reg_at current t.
Proof.
  intros Hc Hf. unfold snapshotAfterOperations. rewrite !Models_models.
  set (l := List.filter (λ reg, negb (changed ops (table_of reg))) (models current)
            ++ List.filter (λ reg, changed ops (table_of reg)) (models final)).
  assert (snapshot_input l) as Hi.
  { split.
    - apply Forall_app. destruct Hc as [_ Vc], Hf as [_ Vf]. rewrite Forall_forall in Vc, Vf.
      split; apply Forall_forall; intros x [Hx _]%elem_of_filter_bool; auto.
    - unfold l. rewrite map_app. apply NoDup_app. split_and!.
      + by apply NoDup_map_filter, wf_nodup.
      + intros t. rewrite !list_elem_of_fmap. intros (x & -> & [_ Hx]%elem_of_filter_bool)
          (y & Ht & [_ Hy]%elem_of_filter_bool). rewrite Ht, Hy in Hx. done.
      + by apply NoDup_map_filter, wf_nodup. }
  exists (mkSnapshot (sort_by table_leb l)).
  split; [|split]; [by apply NewSnapshot_iff|by apply snapshot_input_sort|].
  intros t. unfold reg_at. cbn [models].
  rewrite (find_key_perm table_of (sort_by table_leb l) l).
  - unfold l. rewrite find_key_app, (find_key_filter table_of (λ t, negb (changed ops t))),
      (find_key_filter table_of (changed ops)).
    destruct (changed ops t); cbn; [done|]. by destruct (find_key _ _ _).
  - rewrite sort_by_perm. apply Hi.
  - apply sort_by_perm.
Qed.

(** [cur] is the schema in which the tables [p] selects are as after, the others
    as before. *)
Definition between (before after : Snapshot) (p : string → bool) (cur : Snapshot) : Prop :=
  wf_snapshot cur ∧ ∀ t, schema_of cur !! t = if p t then schema_of after !! t else schema_of before !! t.

Lemma changed_only p ops t : changed (only p ops) t = true → p t = true.
Proof.
  unfold changed. rewrite bool_decide_eq_true, elem_of_list_to_set, list_elem_of_fmap.
  by intros (op & -> & [_ ?]%elem_of_filter_bool).
Qed.

Lemma unchanged_only p ops t :
  changed (only p ops) t = false → p t = true → at_key operationTable t ops = [].
Proof.
  unfold changed. rewrite bool_decide_eq_false, elem_of_list_to_set, list_elem_of_fmap.
  intros Hno Hp. apply filter_bool_none. intros op Hop. apply String.eqb_neq. intros <-.
  apply Hno. exists op. split; [done|]. by apply elem_of_filter_bool.
Qed.

(** One module's migration: the state recorded for it is the schema it leaves
    behind, and its Down leads back. *)
Lemma stage before after ops done p cur :
  wf_snapshot before → wf_snapshot after → migration before after ops →
  between before after done cur → (∀ t, p t = true → done t = false) →
  ∃ next, snapshotAfterOperations cur after (only p ops) = Ok next
    ∧ between before after (λ t, done t || p t) next
    ∧ execute (only p ops) (schema_of cur) = Some (schema_of next)
    ∧ execute (rev (map (inverse before) (only p ops))) (schema_of next) = Some (schema_of cur).
Proof.
  intros Hb Ha Hm [Hc Hcur] Hdis.
  destruct (snapshotAfter_ok cur after (only p ops) Hc Ha) as (next & Hn & Hwf & Hreg).
  assert (∀ t, schema_of next !! t = if p t then schema_of after !! t else schema_of cur !! t) as Hsch.
  { intros t. rewrite (schema_of_lookup next), Hreg by done.
    destruct (changed (only p ops) t) eqn:Ec.
    - rewrite (changed_only _ _ _ Ec). by rewrite schema_of_lookup.
    - rewrite <-schema_of_lookup by done. destruct (p t) eqn:Ep; [|done].
      rewrite Hcur, (Hdis t Ep). destruct (Hm t) as (_ & Hfwd & _).
      rewrite (unchanged_only _ _ _ Ec Ep) in Hfwd. by injection Hfwd. }
  exists next. split; [done|]. split; [|split].
  - split; [done|]. intros t. rewrite Hsch, Hcur. by destruct (p t), (done t).
  - destruct (execute_only _ _ _ p (schema_of cur) Hm) as (s & -> & Hs).
    + intros t Hp. by rewrite Hcur, (Hdis t Hp).
    + f_equal. apply map_eq. intros t. by rewrite Hs, Hsch.
  - destruct (execute_back _ _ _ p (schema_of next) Hm) as (s & -> & Hs).
    + intros t Hp. by rewrite Hsch, Hp.
    + f_equal. apply map_eq. intros t. rewrite Hs, Hsch. destruct (p t) eqn:Ep; [|done].
      by rewrite Hcur, (Hdis t Ep).
Qed.

(** ** Properties *)


