(* ===== verification/Dialect.v ===== *)
(** * Dialects: src/migratediff/dialect_postgres.go, dialect_sqlite.go and the
      rendering helpers of migratediff.go

    A dialect turns an operation into the statements one database family accepts,
    or refuses it before anything is executed. *)

From S2P Require Import Prelude GoStrings Sha256 Orm OrmState Diff Plan Schema DiffSpec.

(** ** Errors *)

Inductive dialect_error :=
| Unsupported (why : string)              (* wraps ErrUnsupported *)
| NoRendering (dialect typ : string)      (* wraps orm.ErrInvalidField *)
| InField (table field : string) (e : dialect_error)
| Describing (describe : string) (e : dialect_error)
| ExecFailed (describe : string).         (* the driver's error, wrapped *)

Fixpoint is_unsupported (e : dialect_error) : bool :=
  match e with
  | Unsupported _ => true
  | NoRendering _ _ | ExecFailed _ => false
  | InField _ _ e | Describing _ e => is_unsupported e
  end.

(** ** Quoting and naming *)

Definition quoteIdentifier (name : string) : string :=
  dq +:+ ReplaceByte quote_char (dq +:+ dq) name +:+ dq.

Definition single_quote : ascii := "'".
Definition quoteLiteral (value : string) : string :=
  "'" +:+ ReplaceByte single_quote "''" value +:+ "'".

Definition maxDatabaseObjectNameBytes : Z := 63.

Section naming.
Context `{Unicode}.

(** The loop of [readableIdentifier]; [underscore] is its state. *)
Fixpoint readable_loop (underscore : bool) (rs : list (Z * nat)) : string :=
  match rs with
  | [] => ""
  | (r, _) :: rs' =>
      if (((97 <=? r) && (r <=? 122)) || ((48 <=? r) && (r <=? 57)))%Z
      then encode_rune r +:+ readable_loop false rs'
      else if negb underscore then "_" +:+ readable_loop true rs'
      else readable_loop underscore rs'
  end.
Definition readableIdentifier (s : string) : string :=
  Trim (readable_loop false (runes (ToLower s))) "_".

Definition object_payload (kind table column : string) : string :=
  Itoa (len kind) +:+ ":" +:+ kind +:+
  Itoa (len table) +:+ ":" +:+ table +:+
  Itoa (len column) +:+ ":" +:+ column.

(** The slice [readable[:max]] would panic on a negative bound; the kinds the
    program passes ("pk", "uq", "idx") leave 44 or 43 bytes. *)
Definition databaseObjectName (kind table column : string) : string :=
  let digest := hex_encode (take 8 (Sum256 (to_bytes (object_payload kind table column)))) in
  let readable := readableIdentifier (table +:+ "_" +:+ column) in
  let reserved := (len kind + len digest + 2)%Z in
  let max := (maxDatabaseObjectNameBytes - reserved)%Z in
  let readable := if (max <? len readable)%Z
                  then Trim (take_bytes (Z.to_nat max) readable) "_" else readable in
  let readable := if String.eqb readable "" then "object" else readable in
  kind +:+ "_" +:+ readable +:+ "_" +:+ digest.

(** ** Table bodies, shared by the dialects *)

Definition columnDefinition (typeOf : Field → result dialect_error string) (f : Field)
    : result dialect_error string :=
  typ ← typeOf f;
  Ok (quoteIdentifier (fName f) +:+ " " +:+ typ +:+ (if fNullable f then "" else " NOT NULL")).

Definition constraint_line (m : Model) (f : Field) : list string :=
  if fPrimaryKey f then
    ["  CONSTRAINT " +:+ quoteIdentifier (databaseObjectName "pk" (mTable m) (fName f))
     +:+ " PRIMARY KEY (" +:+ quoteIdentifier (fName f) +:+ ")"]
  else if fUnique f then
    ["  CONSTRAINT " +:+ quoteIdentifier (databaseObjectName "uq" (mTable m) (fName f))
     +:+ " UNIQUE (" +:+ quoteIdentifier (fName f) +:+ ")"]
  else [].

Definition columnList (typeOf : Field → result dialect_error string) (m : Model)
    : result dialect_error string :=
  lines ← map_result (λ f,
    match columnDefinition typeOf f with
    | Ok line => Ok ("  " +:+ line)
    | Err e => Err (InField (mTable m) (fName f) e)
    end) (mFields m);
  Ok (Join (lines ++ flat_map (constraint_line m) (mFields m)) ("," +:+ newline)).

Definition oneStatement (r : result dialect_error string) : result dialect_error (list string) :=
  stmt ← r; Ok [stmt].

(** ** Operation values

    [Render] takes an interface value: an operation, a pointer to one, a nil
    pointer of an operation's type, or a type of the caller's own. *)
Inductive OperationValue :=
| Value (op : Operation)
| Pointer (op : Operation)
| NilPointer (typ : Operation)
| Foreign (typ : string).

Record Dialect := mkDialect {
  Name : string;
  Render : OperationValue → result dialect_error (list string);
}.

Definition addIndex (table column : string) : string :=
  "CREATE INDEX " +:+ quoteIdentifier (databaseObjectName "idx" table column)
  +:+ " ON " +:+ quoteIdentifier table +:+ " (" +:+ quoteIdentifier column +:+ ")".
Definition dropIndex (table column : string) : string :=
  "DROP INDEX " +:+ quoteIdentifier (databaseObjectName "idx" table column).
Definition renameColumn (table from to : string) : string :=
  "ALTER TABLE " +:+ quoteIdentifier table +:+ " RENAME COLUMN " +:+ quoteIdentifier from
  +:+ " TO " +:+ quoteIdentifier to.
Definition dropTable (table : string) : result dialect_error string :=
  Ok ("-- fabrin: dropping " +:+ Quote table +:+ " discards its data" +:+ newline
      +:+ "DROP TABLE " +:+ quoteIdentifier table).

Definition createTable (typeOf : Field → result dialect_error string) (m : Model)
    : result dialect_error (list string) :=
  body ← columnList typeOf m;
  Ok (("CREATE TABLE " +:+ quoteIdentifier (mTable m) +:+ " (" +:+ newline +:+ body +:+ newline +:+ ")")
      :: flat_map (λ f, if fIndex f then [addIndex (mTable m) (fName f)] else []) (mFields m)).

End naming.

Module Postgres.
Section render.
Context `{Unicode}.

Definition Name : string := "PostgreSQL".

Definition postgresType (f : Field) : result dialect_error string :=
  if String.eqb (fType f) TypeString then
    Ok (if (0 <? fMaxLen f)%Z then "VARCHAR(" +:+ Itoa (fMaxLen f) +:+ ")" else "TEXT")
  else if String.eqb (fType f) TypeInt then Ok "INTEGER"
  else if String.eqb (fType f) TypeInt64 then Ok "BIGINT"
  else if String.eqb (fType f) TypeFloat then Ok "DOUBLE PRECISION"
  else if String.eqb (fType f) TypeBool then Ok "BOOLEAN"
  else if String.eqb (fType f) TypeTime then Ok "TIMESTAMP"
  else if String.eqb (fType f) TypeBytes then Ok "BYTEA"
  else Err (NoRendering "PostgreSQL" (fType f)).

Definition addConstraint (kind table column constraint : string) : string :=
  "ALTER TABLE " +:+ quoteIdentifier table +:+ " ADD CONSTRAINT "
  +:+ quoteIdentifier (databaseObjectName kind table column) +:+ " " +:+ constraint
  +:+ " (" +:+ quoteIdentifier column +:+ ")".
Definition dropConstraint (kind table column : string) : string :=
  "ALTER TABLE " +:+ quoteIdentifier table +:+ " DROP CONSTRAINT "
  +:+ quoteIdentifier (databaseObjectName kind table column).

Definition addColumn (table : string) (f : Field) : result dialect_error (list string) :=
  definition ← columnDefinition postgresType f;
  Ok (("ALTER TABLE " +:+ quoteIdentifier table +:+ " ADD COLUMN " +:+ definition)
      :: (if fPrimaryKey f then [addConstraint "pk" table (fName f) "PRIMARY KEY"]
          else if fUnique f then [addConstraint "uq" table (fName f) "UNIQUE"]
          else if fIndex f then [addIndex table (fName f)]
          else [])).

Definition dropColumn (table column : string) : result dialect_error string :=
  Ok ("-- fabrin: dropping " +:+ Quote (table +:+ "." +:+ column) +:+ " discards its data"
      +:+ newline +:+ "ALTER TABLE " +:+ quoteIdentifier table +:+ " DROP COLUMN "
      +:+ quoteIdentifier column).

Definition changeType (table column : string) (to : Field) : result dialect_error string :=
  typ ← postgresType to;
  Ok ("ALTER TABLE " +:+ quoteIdentifier table +:+ " ALTER COLUMN " +:+ quoteIdentifier column
      +:+ " TYPE " +:+ typ).

Definition changeNullability (table column : string) (nullable : bool) : string :=
  "ALTER TABLE " +:+ quoteIdentifier table +:+ " ALTER COLUMN " +:+ quoteIdentifier column
  +:+ " " +:+ (if nullable then "DROP NOT NULL" else "SET NOT NULL").

(** The search for a tag none of the values contains.  Each round makes the tag
    longer, so one round more than the longest value is enough
    ([dollarQuoteTag_fresh]). *)
Definition tag_of (name : string) : string := "$" +:+ name +:+ "$".
Fixpoint tag_loop (fuel : nat) (name : string) (values : list string) : option string :=
  match fuel with
  | O => None
  | S n => if existsb (λ v, Contains v (tag_of name)) values
           then tag_loop n (name +:+ "_") values
           else Some (tag_of name)
  end.
Definition tag_fuel (values : list string) : nat :=
  S (list_max (map String.length values)).
Definition dollarQuoteTag (values : list string) : string :=
  default "" (tag_loop (tag_fuel values) "fabrin" values).

Definition line (s : string) : string := s +:+ newline.
Definition drop_key_body (table column : string) : string :=
  let tableLiteral := quoteLiteral table in
  let columnLiteral := quoteLiteral column in
  newline +:+
  line "DECLARE" +:+
  line "  constraint_name text;" +:+
  line "BEGIN" +:+
  line "  SELECT c.conname INTO constraint_name" +:+
  line "  FROM pg_constraint AS c" +:+
  line "  JOIN pg_attribute AS a ON a.attrelid = c.conrelid AND a.attnum = c.conkey[1]" +:+
  "  WHERE c.conrelid = to_regclass(format('%I', " +:+ tableLiteral +:+ line "))" +:+
  line "    AND c.contype = 'p'" +:+
  line "    AND array_length(c.conkey, 1) = 1" +:+
  "    AND a.attname = " +:+ columnLiteral +:+ line ";" +:+
  line "  IF constraint_name IS NULL THEN" +:+
  "    RAISE EXCEPTION 'fabrin: table % has no single-column primary key on %', "
    +:+ tableLiteral +:+ ", " +:+ columnLiteral +:+ line ";" +:+
  line "  END IF;" +:+
  "  EXECUTE format('ALTER TABLE %I DROP CONSTRAINT %I', " +:+ tableLiteral
    +:+ line ", constraint_name);" +:+
  line "END;".
Definition dropPrimaryKey (table column : string) : string :=
  let tag := dollarQuoteTag [table; column] in
  "DO " +:+ tag +:+ drop_key_body table column +:+ tag.

Definition render (op : Operation) : result dialect_error (list string) :=
  match op with
  | CreateTable m => createTable postgresType m
  | DropTable t => oneStatement (dropTable t)
  | AddColumn t f => addColumn t f
  | DropColumn t c => oneStatement (dropColumn t c)
  | RenameColumn t a b => Ok [renameColumn t a b]
  | ChangeType t c to => oneStatement (changeType t c to)
  | ChangeNullability t c n => Ok [changeNullability t c n]
  | AddUnique t c => Ok [addConstraint "uq" t c "UNIQUE"]
  | DropUnique t c => Ok [dropConstraint "uq" t c]
  | AddIndex t c => Ok [addIndex t c]
  | DropIndex t c => Ok [dropIndex t c]
  | AddPrimaryKey t c => Ok [addConstraint "pk" t c "PRIMARY KEY"]
  | DropPrimaryKey t c => Ok [dropPrimaryKey t c]
  end.

Definition Render (v : OperationValue) : result dialect_error (list string) :=
  match v with
  | Value op | Pointer op => render op
  | NilPointer _ | Foreign _ => Err (Unsupported "PostgreSQL cannot render")
  end.

Definition dialect : Dialect := mkDialect Name Render.
End render.
End Postgres.

Module SQLite.
Section render.
Context `{Unicode}.

Definition Name : string := "SQLite".

Definition sqliteType (f : Field) : result dialect_error string :=
  if String.eqb (fType f) TypeString then
    Ok (if (0 <? fMaxLen f)%Z then "VARCHAR(" +:+ Itoa (fMaxLen f) +:+ ")" else "TEXT")
  else if String.eqb (fType f) TypeInt then Ok "INTEGER"
  else if String.eqb (fType f) TypeInt64 then Ok "BIGINT"
  else if String.eqb (fType f) TypeFloat then Ok "REAL"
  else if String.eqb (fType f) TypeBool then Ok "BOOLEAN"
  else if String.eqb (fType f) TypeTime then Ok "TIMESTAMP"
  else if String.eqb (fType f) TypeBytes then Ok "BLOB"
  else Err (NoRendering "SQLite" (fType f)).

Definition addColumn (table : string) (f : Field) : result dialect_error (list string) :=
  if negb (fNullable f) then
    Err (Unsupported "SQLite cannot ADD COLUMN without a DEFAULT when the column is NOT NULL")
  else if fPrimaryKey f || fUnique f then
    Err (Unsupported "SQLite cannot ADD COLUMN with a primary-key or UNIQUE constraint")
  else
    definition ← columnDefinition sqliteType f;
    Ok (("ALTER TABLE " +:+ quoteIdentifier table +:+ " ADD COLUMN " +:+ definition)
        :: (if fIndex f then [addIndex table (fName f)] else [])).

Definition dropColumn (_ _ : string) : result dialect_error string :=
  Err (Unsupported "SQLite cannot drop a column in place").
Definition changeType (_ _ : string) (_ : Field) : result dialect_error string :=
  Err (Unsupported "SQLite cannot alter a column's type in place").
Definition constraints_refused : result dialect_error (list string) :=
  Err (Unsupported "SQLite cannot alter table constraints in place").

Definition render (op : Operation) : result dialect_error (list string) :=
  match op with
  | CreateTable m => createTable sqliteType m
  | DropTable t => oneStatement (dropTable t)
  | AddColumn t f => addColumn t f
  | DropColumn t c => oneStatement (dropColumn t c)
  | RenameColumn t a b => Ok [renameColumn t a b]
  | ChangeType t c to => oneStatement (changeType t c to)
  | AddIndex t c => Ok [addIndex t c]
  | DropIndex t c => Ok [dropIndex t c]
  | ChangeNullability _ _ _ | AddUnique _ _ | DropUnique _ _
  | AddPrimaryKey _ _ | DropPrimaryKey _ _ => constraints_refused
  end.

Definition is_constraint_op (op : Operation) : bool :=
  match op with
  | ChangeNullability _ _ _ | AddUnique _ _ | DropUnique _ _
  | AddPrimaryKey _ _ | DropPrimaryKey _ _ => true
  | _ => false
  end.

Definition Render (v : OperationValue) : result dialect_error (list string) :=
  match v with
  | Value op | Pointer op => render op
  | NilPointer op =>
      if is_constraint_op op then constraints_refused else Err (Unsupported "SQLite cannot render")
  | Foreign _ => Err (Unsupported "SQLite cannot render")
  end.

Definition dialect : Dialect := mkDialect Name Render.
End render.
End SQLite.

(** ** [Apply]

    [db.ExecContext] answers each statement; [exec] gives its outcome from the
    statements executed before it.  The result is the statements sent to the
    database, the failing one included, and the error. *)

Definition render_one (d : Dialect) (describe : string) (v : OperationValue)
    : result dialect_error (string * list string) :=
  match Render d v with
  | Err e => Err (Describing describe e)
  | Ok stmts =>
      if (length stmts =? 0)%nat
      then Err (Describing describe (Unsupported (Name d +:+ " rendered no statements")))
      else if existsb blank stmts
        then Err (Describing describe (Unsupported (Name d +:+ " rendered an empty statement")))
      else Ok (describe, stmts)
  end.

Fixpoint exec_all (exec : list string → string → bool) (sent : list string)
    (describe : string) (stmts : list string) : list string * option dialect_error :=
  match stmts with
  | [] => (sent, None)
  | stmt :: stmts' =>
      if exec sent stmt then exec_all exec (sent ++ [stmt]) describe stmts'
      else (sent ++ [stmt], Some (ExecFailed describe))
  end.

Fixpoint exec_items (exec : list string → string → bool) (sent : list string)
    (items : list (string * list string)) : list string * option dialect_error :=
  match items with
  | [] => (sent, None)
  | (describe, stmts) :: items' =>
      match exec_all exec sent describe stmts with
      | (sent', Some e) => (sent', Some e)
      | (sent', None) => exec_items exec sent' items'
      end
  end.

Definition Apply (exec : list string → string → bool) (d : Dialect)
    (ops : list (string * OperationValue)) : list string * option dialect_error :=
  match map_result (λ op, render_one d op.1 op.2) ops with
  | Err e => ([], Some e)
  | Ok rendered => exec_items exec [] rendered
  end.
