(* ===== verification/DialectSpec.v ===== *)
(** * Rendering is safe

    Names and values of the models reach the database as data, never as SQL:
    quoted identifiers and literals read back as exactly the text they quote, the
    dollar-quoted block that drops a primary key cannot be closed by the names in
    it, and generated object names fit PostgreSQL's limit and can only collide
    where SHA-256 does.  What the differ produces always renders, and [Apply]
    sends nothing unless everything renders. *)

From Stdlib Require Import DecimalString DecimalZ.
From S2P Require Import Prelude GoStrings Sha256 Json Orm OrmState Diff Plan Schema DiffSpec.
From S2P Require Import RenameSpec PlanSpec Dialect.

(** ** Strings *)

Lemma string_app_inj a b x y :
  String.length a = String.length b → a +:+ x = b +:+ y → a = b ∧ x = y.
Proof.
  revert b; induction a as [|c a IH]; intros [|d b]; cbn; try done.
  intros [= Hl] [= -> H]. destruct (IH b Hl H) as [-> ->]. done.
Qed.

Lemma string_app_inj_r a b x y :
  String.length x = String.length y → a +:+ x = b +:+ y → a = b ∧ x = y.
Proof.
  intros Hl H. apply string_app_inj; [|done].
  pose proof (f_equal String.length H) as E. rewrite !string_length_app in E. lia.
Qed.

(** ** Quoting reads back *)

(** The rest of a quoted token: a doubled quote stands for one, a single one ends
    the token. *)
Fixpoint lex_quoted (q : ascii) (s : string) : option (string * string) :=
  match s with
  | "" => None
  | String c s1 =>
      if Ascii.eqb c q then
        match s1 with
        | String d s2 =>
            if Ascii.eqb d q then '(t, rest) ← lex_quoted q s2; Some (String c t, rest)
            else Some ("", s1)
        | "" => Some ("", "")
        end
      else '(t, rest) ← lex_quoted q s1; Some (String c t, rest)
  end.
Definition lex_token (q : ascii) (s : string) : option (string * string) :=
  match s with
  | String c s' => if Ascii.eqb c q then lex_quoted q s' else None
  | "" => None
  end.

Definition starts_with (q : ascii) (s : string) : bool :=
  match s with String c _ => Ascii.eqb c q | "" => false end.

Lemma lex_quoted_replace q name rest :
  starts_with q rest = false →
  lex_quoted q (ReplaceByte q (String q (String q "")) name +:+ String q rest) = Some (name, rest).
Proof.
  intros Hr. induction name as [|c name IH]; cbn.
  - rewrite Ascii.eqb_refl. destruct rest as [|d rest]; [done|]. cbn in Hr. by rewrite Hr.
  - destruct (Ascii.eqb c q) eqn:E; cbn.
    + apply Ascii.eqb_eq in E as ->. rewrite !Ascii.eqb_refl. by rewrite IH.
    + rewrite E. by rewrite IH.
Qed.

Lemma lex_quoteIdentifier name rest :
  starts_with quote_char rest = false →
  lex_token quote_char (quoteIdentifier name +:+ rest) = Some (name, rest).
Proof.
  intros Hr. unfold quoteIdentifier, dq. cbn [String.append lex_token].
  rewrite Ascii.eqb_refl, string_app_assoc. by apply lex_quoted_replace.
Qed.

Lemma lex_quoteLiteral value rest :
  starts_with single_quote rest = false →
  lex_token single_quote (quoteLiteral value +:+ rest) = Some (value, rest).
Proof.
  intros Hr. unfold quoteLiteral. cbn [String.append lex_token].
  rewrite string_app_assoc. apply (lex_quoted_replace single_quote). done.
Qed.

(** ** Dollar quotes *)


Lemma Contains_false s t : Contains s t = false ↔ ∀ a b, s ≠ a +:+ (t +:+ b).
Proof.
  rewrite <-not_true_iff_false, Contains_spec. naive_solver.
Qed.

(** A text without [c] inside a concatenation joined by [c] is in one part. *)
Lemma split_at_byte c (tag a b x y : string) :
  no_byte c tag = true → x +:+ String c y = a +:+ (tag +:+ b) →
  (∃ b', x = a +:+ (tag +:+ b')) ∨ (∃ a', y = a' +:+ (tag +:+ b)) ∨ (tag = "").
Proof.
  intros Ht. revert a; induction x as [|d x IH]; intros a; cbn.
  - destruct a as [|e a]; cbn.
    + destruct tag as [|f tag]; [auto|]. cbn. intros [= -> ->].
      unfold no_byte in Ht. cbn in Ht. by rewrite Ascii.eqb_refl in Ht.
    + intros [= -> ->]. right. left. by exists a.
  - destruct a as [|e a]; cbn.
    + intros H. destruct (decide (String.length tag ≤ S (String.length x))) as [Hle|Hgt].
      * left. assert (String d x = tag +:+ drop_bytes (String.length tag) (String d x)) as E.
        { rewrite <-(take_drop_bytes (String.length tag) (String d x)) at 1.
          pose proof (take_drop_bytes (String.length tag) (String d x)) as Hs.
          change (String d (x +:+ String c y)) with (String d x +:+ String c y) in H.
          rewrite <-Hs, string_app_assoc in H. apply string_app_inj in H as [-> _]; [done|].
          rewrite length_take_bytes. cbn [String.length]. lia. }
        eexists. exact E.
      * exfalso. change (String d (x +:+ String c y)) with (String d x +:+ String c y) in H.
        assert (tag = take_bytes (S (String.length x)) tag +:+ drop_bytes (S (String.length x)) tag) as Hs
          by (by rewrite take_drop_bytes).
        rewrite Hs, string_app_assoc in H. apply string_app_inj in H as [_ H].
        -- destruct (drop_bytes (S (String.length x)) tag) as [|f r] eqn:Ed.
           { pose proof (length_drop_bytes (S (String.length x)) tag) as Hl. rewrite Ed in Hl.
             cbn in Hl. lia. }
           cbn in H. injection H as -> _. unfold no_byte in Ht.
           apply (string_forall_drop _ (S (String.length x))) in Ht. rewrite Ed in Ht.
           cbn in Ht. by rewrite Ascii.eqb_refl in Ht.
        -- rewrite length_take_bytes. cbn [String.length]. lia.
    + intros [= -> H]. destruct (IH a H) as [[b' ->]|[[a' ->]| ->]]; [left; by exists b'| |auto].
      right. left. by exists a'.
Qed.

Definition dollar : ascii := "$".

Section clean.
Context (tag : string).
Hypothesis Hstart : starts_with dollar tag = true.
Hypothesis Hquote : no_byte single_quote tag = true.

Definition clean (s : string) : Prop := Contains s tag = false.

Lemma clean_byte c s : Ascii.eqb c dollar = false → clean s → clean (String c s).
Proof using Hstart Hquote.
  unfold clean. intros Hc Hs. rewrite Contains_false in *. intros [|d a] b; cbn.
  - destruct tag as [|d t]; [done|]. cbn in Hstart |- *. intros [= -> _].
    rewrite Hstart in Hc. done.
  - intros [= -> H]. by apply (Hs a b).
Qed.

Lemma clean_prefix f s : no_byte dollar f = true → clean s → clean (f +:+ s).
Proof using Hstart Hquote.
  intros Hf Hs. induction f as [|c f IH]; cbn; [done|].
  unfold no_byte in Hf. cbn in Hf. apply andb_true_iff in Hf as [Hc Hf].
  apply clean_byte; [by apply negb_true_iff|auto].
Qed.

Lemma clean_join x y : clean x → clean y → clean (x +:+ String single_quote y).
Proof using Hstart Hquote.
  unfold clean. rewrite !Contains_false. intros Hx Hy a b H.
  destruct (split_at_byte _ _ _ _ _ _ Hquote H) as [[b' ?]|[[a' ?]|E]].
  - by apply (Hx a b').
  - by apply (Hy a' b).
  - by rewrite E in Hstart.
Qed.

Lemma clean_replace v s : clean v → clean s →
  clean (ReplaceByte single_quote "''" v +:+ String single_quote s).
Proof using Hstart Hquote.
  intros Hv Hs.
  assert (∀ p, clean (p +:+ v) →
    clean (p +:+ (ReplaceByte single_quote "''" v +:+ String single_quote s))) as H; [|exact (H "" Hv)].
  - clear Hv. induction v as [|c v IH]; intros p Hp; cbn.
    + rewrite string_app_nil_r in Hp. by apply clean_join.
    + destruct (Ascii.eqb c single_quote) eqn:E; cbn.
      * apply Ascii.eqb_eq in E as ->. apply clean_join.
        -- clear -Hp Hstart. unfold clean in *. rewrite Contains_false in *. intros a b ->.
           apply (Hp a (b +:+ String single_quote v)). by rewrite !string_app_assoc.
        -- change (String "'" ?x) with ("" +:+ String single_quote x).
           apply clean_join; [unfold clean; destruct tag; done|].
           apply (IH ""). clear -Hp Hstart. unfold clean in *. rewrite Contains_false in *.
           intros a b E. cbn in E. subst v.
           apply (Hp (p +:+ String single_quote a) b). by rewrite string_app_assoc.
      * specialize (IH (p +:+ String c "")). rewrite !string_app_assoc in IH. by apply IH.
Qed.

Lemma clean_literal v s : clean v → clean s → clean (quoteLiteral v +:+ s).
Proof using Hstart Hquote.
  intros Hv Hs. unfold quoteLiteral.
  change (("'" +:+ ?x +:+ "'") +:+ s) with ("'" +:+ ((x +:+ "'") +:+ s)).
  apply clean_prefix; [done|]. rewrite string_app_assoc. by apply clean_replace.
Qed.
End clean.

(** The tag search ends with a tag no value contains. *)
Lemma tag_loop_fresh n name values :
  (∀ v, v ∈ values → String.length v < S (S (String.length name)) + n) →
  no_byte single_quote name = true → no_byte "010" name = true →
  ∃ tag, Postgres.tag_loop (S n) name values = Some tag
    ∧ starts_with dollar tag = true ∧ no_byte single_quote tag = true ∧ no_byte "010" tag = true
    ∧ ∀ v, v ∈ values → Contains v tag = false.
Proof.
  revert name; induction n as [|n IH]; intros name Hlen Hq Hnl.
  - cbn [Postgres.tag_loop]. destruct (existsb _ values) eqn:E.
    + exfalso. apply existsb_exists in E as (v & Hv & Hc). apply Contains_length in Hc.
      apply list_elem_of_In in Hv. specialize (Hlen v Hv). unfold Postgres.tag_of in Hc.
      rewrite !string_length_app in Hc. cbn in Hc. lia.
    + exists (Postgres.tag_of name). unfold no_byte, Postgres.tag_of in *.
      rewrite !string_forall_app, Hq, Hnl. split_and!; try done.
      intros v Hv. destruct (Contains v _) eqn:Ec; [|done].
      rewrite <-not_true_iff_false in E. destruct E. apply existsb_exists. exists v.
      split; [by apply list_elem_of_In|done].
  - cbn [Postgres.tag_loop] in *. destruct (existsb _ values) eqn:E.
    + apply IH.
      * intros v Hv. specialize (Hlen v Hv). rewrite string_length_app. cbn [String.length]. lia.
      * unfold no_byte in *. by rewrite string_forall_app, Hq.
      * unfold no_byte in *. by rewrite string_forall_app, Hnl.
    + exists (Postgres.tag_of name). unfold no_byte, Postgres.tag_of in *.
      rewrite !string_forall_app, Hq, Hnl. split_and!; try done.
      intros v Hv. destruct (Contains v _) eqn:Ec; [|done].
      rewrite <-not_true_iff_false in E. destruct E. apply existsb_exists. exists v.
      split; [by apply list_elem_of_In|done].
Qed.

Lemma list_max_le l x : x ∈ l → x ≤ list_max l.
Proof.
  intros Hx%list_elem_of_In. pose proof (proj1 (list_max_le l (list_max l)) (Nat.le_refl _)) as H.
  rewrite List.Forall_forall in H. auto.
Qed.

Lemma dollarQuoteTag_fresh values :
  starts_with dollar (Postgres.dollarQuoteTag values) = true
  ∧ no_byte single_quote (Postgres.dollarQuoteTag values) = true
  ∧ no_byte "010" (Postgres.dollarQuoteTag values) = true
  ∧ ∀ v, v ∈ values → Contains v (Postgres.dollarQuoteTag values) = false.
Proof.
  unfold Postgres.dollarQuoteTag, Postgres.tag_fuel.
  destruct (tag_loop_fresh (list_max (map String.length values)) "fabrin" values)
    as (tag & -> & H); [|done|done|exact H].
  intros v Hv. assert (String.length v ≤ list_max (map String.length values)); [|cbn; lia].
  apply list_max_le, list_elem_of_fmap. eauto.
Qed.

Lemma drop_key_body_clean tag table column :
  starts_with dollar tag = true → no_byte single_quote tag = true →
  Contains table tag = false → Contains column tag = false →
  Contains (Postgres.drop_key_body table column) tag = false.
Proof.
  intros Hs Hq Ht Hc. unfold Postgres.drop_key_body.
  repeat first
    [ apply (clean_literal tag Hs Hq); [done|]
    | apply (clean_prefix tag Hs Hq); [reflexivity|] ].
  rewrite <-(string_app_nil_r newline).
  apply (clean_prefix tag Hs Hq); [reflexivity|]. unfold clean. by destruct tag.
Qed.

Lemma drop_key_body_ends table column : ∃ b, Postgres.drop_key_body table column = b +:+ newline.
Proof.
  unfold Postgres.drop_key_body. eexists. unfold Postgres.line. rewrite <-!string_app_assoc. reflexivity.
Qed.

(** The first occurrence of a text after one that does not contain it. *)
Lemma first_occurrence body tag b0 a b :
  Contains body tag = false → body = b0 +:+ newline → no_byte "010" tag = true →
  body +:+ tag = a +:+ (tag +:+ b) → a = body ∧ b = "".
Proof.
  intros Hc Hb Hn H. rewrite Contains_false in Hc.
  assert (tag ≠ "") as Hne by (intros ->; by apply (Hc "" body)).
  subst body. unfold newline in *. rewrite string_app_assoc in H. cbn in H.
  destruct (split_at_byte _ _ _ _ _ _ Hn H) as [[b' E]|[[a' E]|E]]; [| |done].
  - exfalso. apply (Hc a (b' +:+ String "010" "")). rewrite E. by rewrite !string_app_assoc.
  - assert (a' = "" ∧ b = "") as [-> ->].
    { pose proof (f_equal String.length E) as El. rewrite !string_length_app in El.
      split; [destruct a'|destruct b]; try done; cbn in El; lia. }
    split; [|done]. rewrite string_app_nil_r in H.
    assert ((b0 +:+ String "010" "") +:+ tag = a +:+ tag) as H'.
    { rewrite string_app_assoc. exact H. }
    by apply string_app_inj_r in H' as [-> _].
Qed.

(** ** Object names *)

Definition ident_byte (c : ascii) : bool := is_lower c || is_digit c || Ascii.eqb c "_".

Lemma encode_ident r :
  (((97 <=? r) && (r <=? 122)) || ((48 <=? r) && (r <=? 57)))%Z = true →
  string_forall ident_byte (encode_rune r) = true.
Proof.
  intros H. assert (forallb (λ n, string_forall ident_byte (encode_rune (Z.of_nat n)))
    (seq 97 26 ++ seq 48 10) = true) as Hall by (vm_compute; reflexivity).
  rewrite forallb_forall in Hall. specialize (Hall (Z.to_nat r)).
  rewrite orb_true_iff, !andb_true_iff, !Z.leb_le in H.
  rewrite Z2Nat.id in Hall by lia. apply Hall. apply in_app_iff. rewrite !in_seq. lia.
Qed.

Section names.
Context `{Unicode}.

Lemma readable_loop_ident u rs : string_forall ident_byte (readable_loop u rs) = true.
Proof.
  revert u; induction rs as [|[r w] rs IH]; intros u; [done|]. cbn [readable_loop].
  destruct (_ || _)%Z eqn:E.
  - rewrite string_forall_app, encode_ident by done. apply IH.
  - destruct u; cbn [negb]; [apply IH|]. rewrite string_forall_app, IH. done.
Qed.

Lemma readableIdentifier_ident s : string_forall ident_byte (readableIdentifier s) = true.
Proof. unfold readableIdentifier. apply string_forall_Trim, readable_loop_ident. Qed.

Definition digest_of (kind table column : string) : string :=
  hex_encode (take 8 (Sum256 (to_bytes (object_payload kind table column)))).

Lemma length_digest k t c : String.length (digest_of k t c) = 16.
Proof.
  unfold digest_of. rewrite length_hex_encode, length_take, length_Sum256. done.
Qed.

(** The readable middle part. *)
Definition middle (kind table column : string) : string :=
  let readable := readableIdentifier (table +:+ "_" +:+ column) in
  let max := (maxDatabaseObjectNameBytes - (len kind + 16 + 2))%Z in
  let readable := if (max <? len readable)%Z
                  then Trim (take_bytes (Z.to_nat max) readable) "_" else readable in
  if String.eqb readable "" then "object" else readable.

Lemma databaseObjectName_parts k t c :
  databaseObjectName k t c = k +:+ "_" +:+ middle k t c +:+ "_" +:+ digest_of k t c.
Proof.
  unfold databaseObjectName, middle. fold (digest_of k t c).
  assert (len (digest_of k t c) = 16%Z) as -> by (unfold len; by rewrite length_digest). done.
Qed.

Lemma middle_ident k t c : string_forall ident_byte (middle k t c) = true.
Proof.
  unfold middle. set (r := readableIdentifier _).
  assert (string_forall ident_byte r = true) as Hr by apply readableIdentifier_ident.
  destruct (_ <? _)%Z.
  - destruct (String.eqb _ ""); [done|]. by apply string_forall_Trim, string_forall_take.
  - by destruct (String.eqb _ "").
Qed.

Lemma middle_length k t c :
  String.length k ≤ 39 → String.length (middle k t c) + String.length k ≤ 45.
Proof.
  intros Hk. unfold middle, len, maxDatabaseObjectNameBytes. set (r := readableIdentifier _).
  destruct (_ <? _)%Z eqn:E; boolify.
  - destruct (String.eqb _ ""); [cbn; lia|].
    match goal with |- context [Trim ?x ?y] => pose proof (length_Trim x y) as Ht end.
    rewrite length_take_bytes in Ht. lia.
  - destruct (String.eqb r ""); [cbn; lia|]. lia.
Qed.

Lemma is_hex_ident c : is_hex c = true → ident_byte c = true.
Proof. destruct c as [[] [] [] [] [] [] [] []]; vm_compute; done. Qed.

End names.

(** ** The payload determines the object *)

Lemma netstring_inj a b x y :
  Itoa (len a) +:+ (":" +:+ (a +:+ x)) = Itoa (len b) +:+ (":" +:+ (b +:+ y)) → a = b ∧ x = y.
Proof.
  intros H. cbn in H. apply cut_colon in H as [H1%Itoa_inj H2]; [|apply Itoa_digits; unfold len; lia..].
  apply string_app_inj in H2 as [-> ->]; [done|]. unfold len in H1. lia.
Qed.

Lemma object_payload_inj k t c k' t' c' :
  object_payload k t c = object_payload k' t' c' → k = k' ∧ t = t' ∧ c = c'.
Proof.
  unfold object_payload. intros [-> H]%netstring_inj. apply netstring_inj in H as [-> H].
  rewrite <-(string_app_nil_r c), <-(string_app_nil_r c') in H.
  rewrite !(string_app_nil_r) in H. split; [done|]. split; [done|].
  assert (Itoa (len c) +:+ (":" +:+ (c +:+ "")) = Itoa (len c') +:+ (":" +:+ (c' +:+ ""))) as H'
    by (by rewrite !string_app_nil_r).
  by apply netstring_inj in H' as [-> _].
Qed.

(** ** Rendered statements are never blank *)

Definition plain_head (s : string) : bool :=
  match s with String c _ => (byte c <? 128)%Z && negb (space1 c) | "" => false end.

Lemma ascii_not_space c d e :
  (byte c <? 128)%Z = true → space2 c d = false ∧ space3 c d e = false ∧ space3 d c e = false.
Proof.
  intros H. apply Z.ltb_lt in H. unfold space2, space3.
  split_and!; repeat first [rewrite (proj2 (Z.eqb_neq (byte c) _)) by lia]; rewrite ?andb_false_r; done.
Qed.

Lemma ascii_not_space_last c d e :
  (byte c <? 128)%Z = true → space2 d c = false ∧ space3 d e c = false.
Proof.
  intros H. apply Z.ltb_lt in H. unfold space2, space3, in_range.
  rewrite !(proj2 (Z.eqb_neq (byte c) _)) by lia.
  rewrite (proj2 (Z.leb_gt 128 (byte c))) by lia. cbn. by rewrite !andb_false_r.
Qed.

Lemma trim_space_left_head c s :
  plain_head (String c s) = true → trim_space_left (String c s) = String c s.
Proof.
  cbn. rewrite andb_true_iff, negb_true_iff. intros [Hc ->].
  destruct s as [|d [|e s]]; [done|..]; rewrite (proj1 (ascii_not_space c d "000" Hc)); [done|].
  by rewrite (proj1 (proj2 (ascii_not_space c d e Hc))).
Qed.

Lemma trim_space_rev_last c t n :
  plain_head (String c "") = true → String.length t ≤ n →
  trim_space_rev (t +:+ String c "") ≠ "".
Proof.
  cbn. rewrite andb_true_iff, negb_true_iff. intros [Hc Hsp].
  revert t; induction n as [|n IH]; intros t Hn.
  - destruct t; [|cbn in Hn; lia]. cbn. by rewrite Hsp.
  - destruct t as [|d t]; [cbn; by rewrite Hsp|]. cbn in Hn.
    destruct t as [|e t]; cbn.
    + destruct (space1 d); [by rewrite Hsp|]. by rewrite (proj1 (ascii_not_space c d "000" Hc)).
    + cbn in Hn. destruct (space1 d); [apply (IH (String e t)); cbn; lia|].
      destruct (space2 e d); [apply IH; lia|].
      destruct t as [|f t]; cbn.
      * by rewrite (proj1 (proj2 (ascii_not_space c e d Hc))).
      * cbn in Hn. destruct (space3 f e d); [apply IH; lia|done].
Qed.

Lemma string_rev_cons c s : string_rev (String c s) = string_rev s +:+ String c "".
Proof.
  unfold string_rev. cbn. induction (rev (list_ascii_of_string s)) as [|d l IH]; [done|].
  cbn. by rewrite IH.
Qed.

Lemma plain_head_not_blank s : plain_head s = true → blank s = false.
Proof.
  destruct s as [|c s]; [done|]. intros H. unfold blank, TrimSpace.
  rewrite trim_space_left_head by done. apply String.eqb_neq. intros E.
  apply (f_equal string_rev) in E. rewrite string_rev_involutive in E.
  change (string_rev "") with "" in E.
  rewrite string_rev_cons in E. revert E. eapply trim_space_rev_last; [|reflexivity].
  exact H.
Qed.

Definition good_stmts (stmts : list string) : Prop :=
  stmts ≠ [] ∧ Forall (λ s, plain_head s = true) stmts.

(** ** What renders *)

(** Operations whose field types are valid. *)
Definition typed_op (op : Operation) : Prop :=
  match op with
  | CreateTable m => Forall (λ f, Valid (fType f) = true) (mFields m)
  | AddColumn _ f | ChangeType _ _ f => Valid (fType f) = true
  | _ => True
  end.

Section render.
Context `{Unicode}.

Lemma postgresType_valid f : Valid (fType f) = true → ∃ t, Postgres.postgresType f = Ok t.
Proof.
  unfold Valid, Postgres.postgresType. cbn.
  repeat (destruct (String.eqb _ _); [cbn; by eauto|cbn]). done.
Qed.

Lemma sqliteType_valid f : Valid (fType f) = true → ∃ t, SQLite.sqliteType f = Ok t.
Proof.
  unfold Valid, SQLite.sqliteType. cbn.
  repeat (destruct (String.eqb _ _); [cbn; by eauto|cbn]). done.
Qed.

Lemma columnList_ok typeOf m :
  (∀ f, f ∈ mFields m → ∃ t, typeOf f = Ok t) → ∃ body, columnList typeOf m = Ok body.
Proof.
  intros Hf. unfold columnList.
  destruct (map_result_total (λ f, match columnDefinition typeOf f with
      | Ok line => Ok ("  " +:+ line)
      | Err e => Err (InField (mTable m) (fName f) e) end) (mFields m)) as [lines ->]; [|cbn; by eauto].
  intros f [t Ht]%Hf. unfold columnDefinition. rewrite Ht. cbn. eauto.
Qed.

Lemma createTable_ok typeOf m :
  (∀ f, f ∈ mFields m → ∃ t, typeOf f = Ok t) →
  ∃ stmts, createTable typeOf m = Ok stmts ∧ good_stmts stmts.
Proof.
  intros [body Hb]%columnList_ok. unfold createTable. rewrite Hb. cbn. eexists. split; [done|].
  split; [done|]. constructor; [done|]. apply Forall_forall. intros s (f & _ & Hs)%elem_of_flat_map.
  destruct (fIndex f); [|by apply elem_of_nil in Hs]. by apply list_elem_of_singleton in Hs as ->.
Qed.

Lemma postgres_renders op :
  typed_op op → ∃ stmts, Postgres.render op = Ok stmts ∧ good_stmts stmts.
Proof.
  unfold good_stmts.
  destruct op as [m| |t f| | |t c f| | | | | | |]; cbn [typed_op Postgres.render]; intros Ht;
    try (eexists; split; [reflexivity|]; split; [done|by repeat constructor]).
  - apply createTable_ok. rewrite Forall_forall in Ht. intros g Hg. by apply postgresType_valid, Ht.
  - destruct (postgresType_valid f Ht) as [ty Hty].
    unfold Postgres.addColumn, columnDefinition. rewrite Hty. cbn. eexists. split; [reflexivity|].
    split; [done|]. destruct (fPrimaryKey f), (fUnique f), (fIndex f); by repeat constructor.
  - destruct (postgresType_valid f Ht) as [ty Hty]. unfold Postgres.changeType. rewrite Hty. cbn.
    eexists. split; [reflexivity|]. split; [done|by repeat constructor].
Qed.

(** SQLite renders, or states its refusal. *)
Lemma sqlite_renders op :
  typed_op op →
  (∃ stmts, SQLite.render op = Ok stmts ∧ good_stmts stmts)
  ∨ ∃ e, SQLite.render op = Err e ∧ is_unsupported e = true.
Proof.
  unfold good_stmts.
  destruct op as [m| |t f| | | | | | | | | |]; cbn [typed_op SQLite.render]; intros Ht;
    try (left; eexists; split; [reflexivity|]; split; [done|by repeat constructor]);
    try (right; eexists; split; [reflexivity|done]).
  - left. apply createTable_ok. rewrite Forall_forall in Ht. intros g Hg. by apply sqliteType_valid, Ht.
  - unfold SQLite.addColumn. destruct (fNullable f); cbn; [|right; by eexists].
    destruct (_ || _); [right; by eexists|]. left. unfold columnDefinition.
    destruct (sqliteType_valid f Ht) as [ty ->]. cbn. eexists. split; [reflexivity|]. split; [done|].
    destruct (fIndex f); by repeat constructor.
Qed.
End render.

(** The operations of a diff, and their inverses, have valid types. *)
Lemma wf_field_type s t c f :
  wf_snapshot s → snapshotField s t c = Some f → Valid (fType f) = true.
Proof.
  intros Hwf. rewrite snapshotField_lookup by done. intros (reg & Hr & [Hin _]%field_elem)%bind_Some.
  destruct (reg_at_valid _ _ _ Hwf Hr) as (_ & _ & Hv & _). rewrite Forall_forall in Hv.
  by destruct (Hv f Hin) as (_ & ? & _).
Qed.

Lemma valid_model_typed m : valid_model m → Forall (λ f, Valid (fType f) = true) (mFields m).
Proof. intros (_ & _ & Hv & _). eapply Forall_impl; [exact Hv|]. by intros f (_ & ? & _). Qed.

Lemma plan_typed t was now op :
  NoDup (map fName was) → NoDup (map fName now) → Forall (λ f, Valid (fType f) = true) now →
  op ∈ plan t was now → typed_op op.
Proof.
  intros Hw Hn Hv Hop. destruct (plan_elem _ _ _ Hw Hn _ Hop) as (c & Hc & _).
  unfold column_ops in Hc. destruct (field now c) as [f|] eqn:En.
  - apply field_elem in En as [Hf _]. rewrite Forall_forall in Hv. specialize (Hv f Hf).
    apply list_elem_of_fmap in Hc as (r & -> & Hr). unfold alter_field in Hr.
    destruct (indexFields was !! fName f); [|by apply list_elem_of_singleton in Hr as ->].
    rewrite !elem_of_app, !elem_of_when in Hr. destruct_or! Hr; destruct Hr as [_ ->]; done.
  - destruct (field was c); [by apply list_elem_of_singleton in Hc as ->|by apply elem_of_nil in Hc].
Qed.

Lemma Diff_typed before after op :
  wf_snapshot before → wf_snapshot after → op ∈ Diff before after → typed_op op.
Proof.
  intros Hb Ha Hop.
  assert (op ∈ at_key operationTable (operationTable op) (Diff before after)) as H.
  { apply elem_of_filter_bool. split; [done|]. apply String.eqb_refl. }
  rewrite diff_at in H by done. revert H. generalize (operationTable op). intros t.
  unfold table_ops. destruct (reg_at before t) as [was|] eqn:Eb, (reg_at after t) as [reg|] eqn:Ea.
  - apply plan_typed.
    + apply (valid_good _ (reg_at_valid _ _ _ Hb Eb)).
    + apply (valid_good _ (reg_at_valid _ _ _ Ha Ea)).
    + apply valid_model_typed, (reg_at_valid _ _ _ Ha Ea).
  - by intros ->%list_elem_of_singleton.
  - intros ->%list_elem_of_singleton. apply valid_model_typed, (reg_at_valid _ _ _ Ha Ea).
  - by intros ?%elem_of_nil.
Qed.

Lemma invert_typed before op o :
  wf_snapshot before → invert op before = Ok o → typed_op o.
Proof.
  intros Hb. destruct op; cbn; try (by intros [= <-]).
  - destruct (findByTable (Models before) table) as [reg|] eqn:E; [|done]. intros [= <-]. cbn.
    rewrite Models_models, findByTable_key in E.
    apply valid_model_typed, (reg_at_valid before table); done.
  - destruct (find_in_models (Models before) table column) as [f|] eqn:E; [|done]. intros [= <-].
    by eapply (wf_field_type before).
  - destruct (find_in_models (Models before) table column) as [f|] eqn:E; [|done]. intros [= <-].
    by eapply (wf_field_type before).
  - destruct (find_in_models (Models before) table column) as [f|] eqn:E; [|done]. by intros [= <-].
Qed.

(** ** [Apply] *)

Lemma exec_all_spec exec sent d stmts :
  exists pre, pre `prefix_of` stmts ∧
  match exec_all exec sent d stmts with
  | (sent', None) => sent' = sent ++ stmts
  | (sent', Some e) => e = ExecFailed d ∧ sent' = sent ++ pre
  end.
Proof.
  revert sent; induction stmts as [|s stmts IH]; intros sent; cbn.
  - exists []. split; [done|]. by rewrite app_nil_r.
  - destruct (exec sent s).
    + destruct (IH (sent ++ [s])) as (pre & Hpre & H). exists (s :: pre).
      split; [by apply prefix_cons|].
      destruct (exec_all _ _ _ _) as [sent' [e|]]; [destruct H as [-> ->]|subst sent'];
        by rewrite <-app_assoc.
    + exists [s]. split; [|done]. apply prefix_cons, prefix_nil.
Qed.

Definition statements (items : list (string * list string)) : list string := flat_map snd items.

Lemma exec_items_spec exec sent items :
  ∃ pre, pre `prefix_of` statements items ∧
  match exec_items exec sent items with
  | (sent', None) => sent' = sent ++ statements items
  | (sent', Some e) => sent' = sent ++ pre ∧ ∃ d, e = ExecFailed d ∧ d ∈ map fst items
  end.
Proof.
  revert sent; induction items as [|[d stmts] items IH]; intros sent; cbn.
  - exists []. split; [done|]. by rewrite app_nil_r.
  - destruct (exec_all_spec exec sent d stmts) as (pre & Hpre & H).
    destruct (exec_all exec sent d stmts) as [sent1 [e|]].
    + destruct H as [-> ->]. exists pre. split; [by apply prefix_app_r|].
      split; [done|]. exists d. set_solver.
    + subst sent1. destruct (IH (sent ++ stmts)) as (pre2 & Hpre2 & H2).
      exists (stmts ++ pre2). split; [by apply prefix_app|].
      destruct (exec_items _ _ _) as [sent' [e|]].
      * destruct H2 as [-> (d' & -> & Hd)]. rewrite app_assoc. split; [done|]. set_solver.
      * by rewrite H2, app_assoc.
Qed.

(** ** Properties *)

(** A quoted identifier or literal is read back by SQL's own rule (a
    doubled quote stands for one) as exactly the name or value it quotes, wherever
    it is followed by anything but another quote: no table, column or value can
    escape its quotes. *)
Theorem quoting_roundtrip (s rest : string) :
  (starts_with quote_char rest = false →
     lex_token quote_char (quoteIdentifier s +:+ rest) = Some (s, rest))
  ∧ (starts_with single_quote rest = false →
     lex_token single_quote (quoteLiteral s +:+ rest) = Some (s, rest)).
Proof. split; [apply lex_quoteIdentifier|apply lex_quoteLiteral]. Qed.

(** Generated constraint and index names fit PostgreSQL's 63-byte limit
    and consist of lower-case letters, digits and underscores, for every kind, table
    and column, whatever bytes the names hold. *)
Theorem databaseObjectName_bounded `{Unicode} (kind table column : string) :
  kind ∈ ["pk"; "uq"; "idx"] →
  String.length (databaseObjectName kind table column) ≤ 63
  ∧ string_forall ident_byte (databaseObjectName kind table column) = true.
Proof.
  intros Hk. assert (String.length kind ≤ 39 ∧ string_forall ident_byte kind = true) as [Hl Hi].
  { rewrite !elem_of_cons in Hk. destruct_or! Hk; subst; split; try done; cbn; try lia.
    by apply elem_of_nil in Hk. by apply elem_of_nil in Hk. }
  rewrite databaseObjectName_parts. split.
  - rewrite !string_length_app, length_digest. pose proof (middle_length kind table column Hl).
    cbn. lia.
  - rewrite !string_forall_app, Hi, middle_ident. cbn.
    eapply string_forall_impl; [apply is_hex_ident|apply hex_encode_is_hex].
Qed.

Lemma databaseObjectName_bounded_witness :
  String.length (@databaseObjectName identity_tables "uq" "posts" "slug") ≤ 63
  ∧ string_forall ident_byte (@databaseObjectName identity_tables "uq" "posts" "slug") = true.
Proof.
  apply (@databaseObjectName_bounded identity_tables "uq" "posts" "slug").
  rewrite !elem_of_cons. tauto.
Defined.

(** Two objects get the same generated name only if they are the same kind
    of object on the same table and column, or the first eight bytes of the SHA-256
    digests of their two different payloads coincide. *)
Theorem databaseObjectName_collision `{Unicode} (k t c k' t' c' : string) :
  databaseObjectName k t c = databaseObjectName k' t' c' →
  (k = k' ∧ t = t' ∧ c = c')
  ∨ (object_payload k t c ≠ object_payload k' t' c'
     ∧ hex_encode (take 8 (Sum256 (to_bytes (object_payload k t c))))
       = hex_encode (take 8 (Sum256 (to_bytes (object_payload k' t' c'))))).
Proof.
  rewrite !databaseObjectName_parts. intros E.
  destruct (decide (object_payload k t c = object_payload k' t' c')) as [Hp|Hp].
  - left. by apply object_payload_inj.
  - right. split; [done|]. rewrite <-!string_app_assoc in E.
    apply string_app_inj_r in E as [_ E]; [done|]. by rewrite !length_digest.
Qed.

Lemma databaseObjectName_collision_witness :
  let k := "pk" in
  (k = "pk" ∧ "a" = "a" ∧ "b" = "b")
  ∨ (object_payload k "a" "b" ≠ object_payload "pk" "a" "b"
     ∧ hex_encode (take 8 (Sum256 (to_bytes (object_payload k "a" "b"))))
       = hex_encode (take 8 (Sum256 (to_bytes (object_payload "pk" "a" "b"))))).
Proof. exact (@databaseObjectName_collision identity_tables "pk" "a" "b" "pk" "a" "b" eq_refl). Defined.

(** The search for a dollar-quote tag terminates with a tag neither name
    contains, and the block that drops a primary key is delimited by it: the first
    occurrence of the tag after the opening one is the closing one, whatever the
    table and the column are called. *)
Theorem dropPrimaryKey_delimited (table column : string) :
  ∃ tag, Postgres.tag_loop (Postgres.tag_fuel [table; column]) "fabrin" [table; column] = Some tag
    ∧ Postgres.dropPrimaryKey table column
      = "DO " +:+ tag +:+ Postgres.drop_key_body table column +:+ tag
    ∧ Contains table tag = false ∧ Contains column tag = false
    ∧ ∀ a b, Postgres.drop_key_body table column +:+ tag = a +:+ (tag +:+ b) →
        a = Postgres.drop_key_body table column ∧ b = "".
Proof.
  exists (Postgres.dollarQuoteTag [table; column]).
  destruct (dollarQuoteTag_fresh [table; column]) as (Hs & Hq & Hn & Hf).
  pose proof (Hf table ltac:(set_solver)) as Ht. pose proof (Hf column ltac:(set_solver)) as Hc.
  split_and!; [|done|done|done|].
  - unfold Postgres.dollarQuoteTag in *. destruct (Postgres.tag_loop _ _ _); [done|]. by cbn in Hs.
  - destruct (drop_key_body_ends table column) as [b0 Hb0]. intros a b.
    by apply (first_occurrence _ _ b0); [apply drop_key_body_clean| |].
Qed.

(** PostgreSQL renders every operation a diff of two well-formed schemas
    contains, and every inverse, into at least one statement, none of them blank;
    SQLite renders it likewise or refuses it as [ErrUnsupported], so [Apply] can
    only fail before the first statement with a stated refusal. *)
Theorem dialects_render `{Unicode} (before after : Snapshot) (op : Operation) :
  wf_snapshot before → wf_snapshot after →
  (op ∈ Diff before after ∨ ∃ o, o ∈ Diff before after ∧ invert o before = Ok op) →
  (∃ stmts, Render Postgres.dialect (Value op) = Ok stmts ∧ stmts ≠ [] ∧ existsb blank stmts = false)
  ∧ match Render SQLite.dialect (Value op) with
    | Ok stmts => stmts ≠ [] ∧ existsb blank stmts = false
    | Err e => is_unsupported e = true
    end.
Proof.
  intros Hb Ha Hop. assert (typed_op op) as Ht.
  { destruct Hop as [Hop|(o & Ho & Hi)]; [exact (Diff_typed before after op Hb Ha Hop)|exact (invert_typed before o op Hb Hi)]. }
  assert (∀ stmts, good_stmts stmts → stmts ≠ [] ∧ existsb blank stmts = false) as Hg.
  { intros stmts [Hne Hall]. split; [done|]. rewrite <-not_true_iff_false, existsb_exists.
    intros (s & Hs%list_elem_of_In & Hbl). rewrite Forall_forall in Hall.
    by rewrite (plain_head_not_blank s (Hall s Hs)) in Hbl. }
  split.
  - destruct (postgres_renders op Ht) as (stmts & Hr & Hgs). exists stmts. split; [exact Hr|auto].
  - change (Render SQLite.dialect (Value op)) with (SQLite.render op).
    destruct (sqlite_renders op Ht) as [(stmts & -> & Hgs)|(e & -> & He)]; auto.
Qed.

Lemma dialects_render_witness :
  ∃ stmts, Render (@Postgres.dialect identity_tables) (Value (DropTable "authors")) = Ok stmts
    ∧ stmts ≠ [] ∧ existsb blank stmts = false.
Proof.
  refine (proj1 (@dialects_render identity_tables example_before example_after' (DropTable "authors")
    example_before_wf example_after_wf (or_introl _))).
  vm_compute. repeat constructor.
Defined.

(** [Apply] renders everything before it executes anything.  If any
    operation does not render, or renders to nothing or to a blank statement, no
    statement reaches the database; otherwise the statements sent are a prefix of
    the rendered ones in order, all of them exactly when no error is returned. *)
Theorem Apply_preflight (exec : list string → string → bool) (d : Dialect)
    (ops : list (string * OperationValue)) :
  match map_result (λ op, render_one d op.1 op.2) ops with
  | Err e => Apply exec d ops = ([], Some e)
  | Ok rendered =>
      Forall (λ it, it.2 ≠ [] ∧ existsb blank it.2 = false) rendered
      ∧ match Apply exec d ops with
        | (sent, None) => sent = statements rendered
        | (sent, Some e) => sent `prefix_of` statements rendered ∧ ∃ desc, e = ExecFailed desc
        end
  end.
Proof.
  unfold Apply. destruct (map_result _ ops) as [rendered|e] eqn:E; [|done]. split.
  - apply map_result_ok in E. induction E as [|op it ops' rendered' Hop Hops IH]; constructor; [|done].
    unfold render_one in Hop. destruct (Render d op.2) as [stmts|]; [|done].
    destruct (length stmts =? 0)%nat eqn:El; [done|]. destruct (existsb blank stmts) eqn:Eb; [done|].
    injection Hop as <-. cbn. split; [|done]. by destruct stmts.
  - destruct (exec_items_spec exec [] rendered) as (pre & Hpre & H).
    destruct (exec_items exec [] rendered) as [sent [e|]]; [|done].
    destruct H as [-> (desc & -> & _)]. split; [done|eauto].
Qed.
