(* ===== verification/Migrate.v ===== *)
(** * The migration engine: src/migrate/migrate.go

    [Run] and [Rollback] over a database the application hands in.  The database
    is its durable state: whether the applied-state table exists, its rows, and
    the application's own data, of any type [T], which migration bodies
    transform.  Every call to it can fail: [fails n] says whether the [n]th call
    does, and [performed n] whether a commit that reports a failure took effect
    all the same.  A transaction works on a copy and replaces the durable state
    when it commits; that the database rolls DDL back is the assumption the
    package documents. *)

From S2P Require Import Prelude GoStrings.

Inductive sentinel := ErrDuplicateVersion | ErrInvalidMigration | ErrOutOfOrder | ErrMissingMigration.

(** The stages at which the database or a body can fail. *)
Inductive stage := CreateTable | ReadTable | Begin | Body | Commit.

Inductive engine_error :=
| Refused (s : sentinel) (version : string)
| Failed (st : stage) (version : string).

Section engine.
Context {T : Type}.

(** A body maps the data it sees to new data, or fails ([None]). *)
Definition body := T → option T.

Record M := mkM {
  Version : string;
  Name : string;
  Up : option body;     (* None is Go's nil *)
  Down : option body;
}.

(** The applied-state table maps a version to the name recorded with it; the
    timestamp is left out. *)
Record db := mkDb {
  table_exists : bool;
  rows : gmap string string;
  data : T;
}.

Record world := mkWorld { durable : db; calls : nat }.

Context (fails performed : nat → bool).

(** One call: its number, and the world with the counter advanced. *)
Definition tick (w : world) : nat * world := (calls w, mkWorld (durable w) (1 + calls w)).

Definition ensureTable (w : world) : option engine_error * world :=
  let '(n, w) := tick w in
  if fails n then (Some (Failed CreateTable ""), w)
  else (None, mkWorld (mkDb true (rows (durable w)) (data (durable w))) (calls w)).

Definition Ensure := ensureTable.

Definition appliedVersions (w : world) : result engine_error (list string) * world :=
  let '(n, w) := tick w in
  if fails n || negb (table_exists (durable w)) then (Err (Failed ReadTable ""), w)
  else (Ok (sort_by str_leb (map fst (map_to_list (rows (durable w))))), w).

(** [inTx]: [fn] runs on the transaction's view and returns the view it leaves, or
    an error.  A rollback that fails changes nothing durable. *)
Definition inTx (m : M) (fn : db → world → option db * world) (w : world)
    : option engine_error * world :=
  let '(n, w) := tick w in
  if fails n then (Some (Failed Begin (Version m)), w)
  else
    match fn (durable w) w with
    | (None, w) => let '(_, w) := tick w in (Some (Failed Body (Version m)), w)
    | (Some view, w) =>
        let '(n, w) := tick w in
        if fails n then
          (Some (Failed Commit (Version m)),
           if performed n then mkWorld view (calls w) else w)
        else (None, mkWorld view (calls w))
    end.

(** [ExecContext] inside the transaction. *)
Definition exec (w : world) (view : option db) : option db * world :=
  let '(n, w) := tick w in if fails n then (None, w) else (view, w).

(** A nil body would panic; [prepare] rejects it first. *)
Definition run_body (b : option body) (s : T) : option T := b ≫= λ f, f s.

Definition insert_row (m : M) (view : db) : option db :=
  match rows view !! Version m with
  | Some _ => None      (* the primary key *)
  | None => Some (mkDb (table_exists view) (<[Version m := Name m]> (rows view)) (data view))
  end.

Definition apply (m : M) (w : world) : option engine_error * world :=
  inTx m (λ view w,
    match run_body (Up m) (data view) with
    | None => (None, w)
    | Some s => exec w (insert_row m (mkDb (table_exists view) (rows view) s))
    end) w.

Definition revert (m : M) (w : world) : option engine_error * world :=
  inTx m (λ view w,
    match run_body (Down m) (data view) with
    | None => (None, w)
    | Some s => exec w (Some (mkDb (table_exists view) (delete (Version m) (rows view)) s))
    end) w.

(** ** [prepare] *)

Fixpoint check_set (width : nat) (seen : gset string) (ms : list M) : option engine_error :=
  match ms with
  | [] => None
  | m :: ms' =>
      if String.eqb (Version m) "" then Some (Refused ErrInvalidMigration (Version m))
      else match Up m, Down m with
      | None, _ => Some (Refused ErrInvalidMigration (Version m))
      | _, None => Some (Refused ErrInvalidMigration (Version m))
      | Some _, Some _ =>
          if bool_decide (Version m ∈ seen) then Some (Refused ErrDuplicateVersion (Version m))
          else if negb (String.length (Version m) =? width)%nat
            then Some (Refused ErrInvalidMigration (Version m))
          else check_set width ({[Version m]} ∪ seen) ms'
      end
  end.

Definition version_leb (a b : M) : bool := str_leb (Version a) (Version b).

Definition first_width (ms : list M) : nat :=
  match ms with m :: _ => String.length (Version m) | [] => 0 end.

Definition prepare (ms : list M) (w : world) : result engine_error (list M) * world :=
  match check_set (first_width ms) ∅ ms with
  | Some e => (Err e, w)
  | None =>
      match ensureTable w with
      | (Some e, w) => (Err e, w)
      | (None, w) => (Ok (sort_by version_leb ms), w)
      end
  end.

(** ** [Run] *)

Definition highest_of (applied : list string) : string :=
  foldl (λ highest v, if str_ltb highest v then v else highest) "" applied.

Definition contains (l : list string) (v : string) : bool := existsb (String.eqb v) l.

Fixpoint pending_of (applied : list string) (highest : string) (sorted : list M)
    : result engine_error (list M) :=
  match sorted with
  | [] => Ok []
  | m :: sorted' =>
      if contains applied (Version m) then pending_of applied highest sorted'
      else if str_ltb (Version m) highest then Err (Refused ErrOutOfOrder (Version m))
      else rest ← pending_of applied highest sorted'; Ok (m :: rest)
  end.

(** The final loop of [Run] and [Rollback]: those done, and the error that
    stopped it. *)
Fixpoint each (step : M → world → option engine_error * world) (ms : list M) (w : world)
    : list M * option engine_error * world :=
  match ms with
  | [] => ([], None, w)
  | m :: ms' =>
      match step m w with
      | (Some e, w) => ([], Some e, w)
      | (None, w) => let '(done, err, w) := each step ms' w in (m :: done, err, w)
      end
  end.

Definition Run (ms : list M) (w : world) : list M * option engine_error * world :=
  match prepare ms w with
  | (Err e, w) => ([], Some e, w)
  | (Ok sorted, w) =>
      match appliedVersions w with
      | (Err e, w) => ([], Some e, w)
      | (Ok applied, w) =>
          match pending_of applied (highest_of applied) sorted with
          | Err e => ([], Some e, w)
          | Ok pending => each apply pending w
          end
      end
  end.

(** ** [Rollback] *)

Definition targets_of (applied : list string) (toVersion : string) : list string :=
  rev (sort_by str_leb (List.filter (λ v, str_ltb toVersion v) applied)).

Definition undo_of (sorted : list M) (targets : list string) : result engine_error (list M) :=
  let byVersion := foldl (λ out m, <[Version m := m]> out) (∅ : gmap string M) sorted in
  map_result (λ v, match byVersion !! v with
                   | Some m => Ok m
                   | None => Err (Refused ErrMissingMigration v) end) targets.

Definition Rollback (ms : list M) (toVersion : string) (w : world)
    : list M * option engine_error * world :=
  match prepare ms w with
  | (Err e, w) => ([], Some e, w)
  | (Ok sorted, w) =>
      match appliedVersions w with
      | (Err e, w) => ([], Some e, w)
      | (Ok applied, w) =>
          match undo_of sorted (targets_of applied toVersion) with
          | Err e => ([], Some e, w)
          | Ok undo => each revert undo w
          end
      end
  end.

(** ** What a migration does to the durable state *)

Definition applied_to (m : M) (d d' : db) : Prop :=
  ∃ s, run_body (Up m) (data d) = Some s ∧ rows d !! Version m = None
    ∧ d' = mkDb (table_exists d) (<[Version m := Name m]> (rows d)) s.
Definition reverted_to (m : M) (d d' : db) : Prop :=
  ∃ s, run_body (Down m) (data d) = Some s
    ∧ d' = mkDb (table_exists d) (delete (Version m) (rows d)) s.

Inductive steps (R : M → db → db → Prop) : list M → db → db → Prop :=
| steps_nil d : steps R [] d d
| steps_cons m ms d d' d'' : R m d d' → steps R ms d' d'' → steps R (m :: ms) d d''.

(** Either nothing happened, or the whole migration did; an error leaves the
    former, except for a commit that took effect although it reported failing. *)
Definition atomic (R : M → db → db → Prop) (step : M → world → option engine_error * world) : Prop :=
  ∀ m w, match step m w with
         | (None, w') => R m (durable w) (durable w')
         | (Some e, w') =>
             durable w' = durable w
             ∨ (e = Failed Commit (Version m) ∧ R m (durable w) (durable w'))
         end.

Lemma apply_atomic : atomic applied_to apply.
Proof.
  intros m w. unfold apply, inTx, exec, tick, applied_to, insert_row. cbn.
  destruct (fails (calls w)); cbn; [by left|].
  destruct (run_body (Up m) (data (durable w))) as [s|] eqn:Es; cbn; [|by left].
  destruct (fails _); cbn; [by left|].
  destruct (rows (durable w) !! Version m) eqn:Er; cbn; [by left|].
  destruct (fails _); cbn; [|eauto 10].
  destruct (performed _); cbn; [right|by left]. split; [done|]. eauto 10.
Qed.

Lemma revert_atomic : atomic reverted_to revert.
Proof.
  intros m w. unfold revert, inTx, exec, tick, reverted_to. cbn.
  destruct (fails (calls w)); cbn; [by left|].
  destruct (run_body (Down m) (data (durable w))) as [s|] eqn:Es; cbn; [|by left].
  destruct (fails _); cbn; [by left|].
  destruct (fails _); cbn; [|eauto 10].
  destruct (performed _); cbn; [right|by left]. split; [done|]. eauto 10.
Qed.

Lemma inTx_failed m fn w e w' : inTx m fn w = (Some e, w') → ∃ st, e = Failed st (Version m).
Proof.
  unfold inTx, tick. destruct (fails (calls w)); [intros [= <- _]; by eexists|].
  destruct (fn _ _) as [[view|] w1]; [|intros [= <- _]; by eexists].
  destruct (fails (calls w1)); [intros [= <- _]; by eexists|done].
Qed.

(** The loop does a prefix of its list, and reports it: the durable state is the
    result of exactly the migrations done, or of one more when the last commit
    reported a failure and took effect. *)
Lemma each_spec R step ms w done err w' :
  atomic R step → each step ms w = (done, err, w') →
  ∃ rest, ms = done ++ rest ∧
  match err with
  | None => rest = [] ∧ steps R done (durable w) (durable w')
  | Some e =>
      ∃ m rest', rest = m :: rest' ∧ ∃ d, steps R done (durable w) d
        ∧ (durable w' = d ∨ (e = Failed Commit (Version m) ∧ R m d (durable w')))
  end.
Proof.
  intros Hat. revert w done err w'. induction ms as [|m ms IH]; intros w done err w'; cbn.
  - intros [= <- <- <-]. exists []. split; [done|]. split; [done|constructor].
  - pose proof (Hat m w) as Hm. destruct (step m w) as [[e|] w1].
    + intros [= <- <- <-]. exists (m :: ms). split; [done|]. exists m, ms. split; [done|].
      exists (durable w). split; [constructor|]. exact Hm.
    + destruct (each step ms w1) as [[done1 err1] w2] eqn:E. intros [= <- <- <-].
      destruct (IH _ _ _ _ E) as (rest & -> & H). exists rest. split; [done|].
      destruct err1 as [e|].
      * destruct H as (m' & rest' & -> & d & Hs & Hd). exists m', rest'. split; [done|].
        exists d. split; [by econstructor|done].
      * destruct H as [-> Hs]. split; [done|]. by econstructor.
Qed.

End engine.

Arguments M : clear implicits.
Arguments db : clear implicits.
Arguments world : clear implicits.

(** ** Sets of migrations *)

Section sets.
Context {T : Type}.
Implicit Types ms sorted pending : list (M T).
Implicit Types m a b c : M T.


Definition usable (ms : list (M T)) : Prop :=
  Forall (λ m, Version m ≠ "" ∧ is_Some (Up m) ∧ is_Some (Down m)
               ∧ String.length (Version m) = first_width ms) ms
  ∧ NoDup (map Version ms).

Lemma check_set_ok width seen ms :
  check_set width seen ms = None ↔
  Forall (λ m, Version m ≠ "" ∧ is_Some (Up m) ∧ is_Some (Down m)
               ∧ String.length (Version m) = width) ms
  ∧ NoDup (map Version ms) ∧ (∀ m, m ∈ ms → Version m ∉ seen).
Proof.
  revert seen; induction ms as [|m ms IH]; intros seen; cbn.
  - split; [intros _|done]. split_and!; [constructor|constructor|set_solver].
  - rewrite Forall_cons, NoDup_cons.
    destruct (String.eqb_spec (Version m) ""); [naive_solver|].
    destruct (Up m), (Down m); try (unfold is_Some; naive_solver).
    case_bool_decide as Hs; [naive_solver set_solver|].
    destruct (Nat.eqb_spec (String.length (Version m)) width) as [Hw|Hw]; cbn; [|naive_solver].
    rewrite IH.
    assert ((∀ m0, m0 ∈ ms → Version m0 ∉ {[Version m]} ∪ seen)
            ↔ (∀ m0, m0 ∈ m :: ms → Version m0 ∉ seen) ∧ Version m ∉ map Version ms) as ->.
    { rewrite list_elem_of_fmap. set_solver. }
    unfold is_Some. naive_solver.
Qed.

Lemma check_set_usable ms : check_set (first_width ms) ∅ ms = None ↔ usable ms.
Proof. rewrite check_set_ok. unfold usable. set_solver. Qed.

Lemma check_set_err width seen ms e :
  check_set width seen ms = Some e →
  ∃ s v, e = Refused s v ∧ (s = ErrInvalidMigration ∨ s = ErrDuplicateVersion).
Proof.
  revert seen; induction ms as [|m ms IH]; intros seen; cbn; [done|].
  repeat case_match; try (by intros [= <-]; eauto 10); auto. apply IH.
Qed.

Lemma version_leb_total a b : version_leb a b = true ∨ version_leb b a = true.
Proof. apply str_leb_total. Qed.
Lemma version_leb_trans a b c :
  version_leb a b = true → version_leb b c = true → version_leb a c = true.
Proof. apply str_leb_trans. Qed.

Lemma highest_of_spec applied h :
  let r := foldl (λ highest v, if str_ltb highest v then v else highest) h applied in
  (∀ v, v ∈ applied → str_ltb r v = false) ∧ (str_ltb r h = false) ∧ (r = h ∨ r ∈ applied).
Proof.
  revert h; induction applied as [|v l IH]; intros h; cbn.
  - split_and!; [set_solver|apply str_ltb_irrefl|by left].
  - set (h' := if str_ltb h v then v else h). destruct (IH h') as (H1 & H2 & H3).
    set (r := foldl _ h' l) in *.
    assert (str_ltb h' v = false ∧ str_ltb h' h = false) as [Hv Hh].
    { unfold h'. destruct (str_ltb h v) eqn:E; [|by rewrite str_ltb_irrefl].
      split; [apply str_ltb_irrefl|by apply str_ltb_antisym]. }
    assert (∀ x, str_ltb h' x = false → str_ltb r x = false) as Htr.
    { intros x Hx. rewrite <-negb_true_iff, <-str_leb_ltb in Hx, H2 |- *.
      eauto using str_leb_trans. }
    split_and!; [|by apply Htr|].
    + intros x [->|Hx]%elem_of_cons; [by apply Htr|by apply H1].
    + destruct H3 as [H3|H3]; [|right; set_solver]. rewrite H3. unfold h'.
      destruct (str_ltb h v); [right; set_solver|by left].
Qed.

Lemma contains_spec l v : contains l v = true ↔ v ∈ l.
Proof. apply in_bool_decide. Qed.

(** The pending migrations: the declared ones not yet applied, in order, when none
    of them sorts before an applied one. *)
Lemma pending_of_ok applied highest sorted pending :
  pending_of applied highest sorted = Ok pending ↔
  pending = List.filter (λ m, negb (contains applied (Version m))) sorted
  ∧ Forall (λ m, str_ltb (Version m) highest = false) pending.
Proof.
  revert pending; induction sorted as [|m l IH]; intros pending; cbn.
  - split; [intros [= <-]; split; [done|constructor]|by intros [-> _]].
  - destruct (contains applied (Version m)) eqn:Ec; cbn; [apply IH|].
    destruct (str_ltb (Version m) highest) eqn:El.
    + split; [done|]. intros [-> Hf]. by apply Forall_cons in Hf as [Hf _]; rewrite El in Hf.
    + rewrite result_bind_ok. split.
      * intros (rest & Hr & [= <-]). apply IH in Hr as [-> Hf]. split; [done|]. by constructor.
      * intros [-> Hf]. apply Forall_cons in Hf as [_ Hf]. eexists. split; [|done]. by apply IH.
Qed.

Lemma pending_of_err applied highest sorted e :
  pending_of applied highest sorted = Err e → ∃ v, e = Refused ErrOutOfOrder v.
Proof.
  induction sorted as [|m l IH]; cbn; [done|].
  destruct (contains _ _); [apply IH|]. destruct (str_ltb _ _); [intros [= <-]; eauto|].
  rewrite result_bind_err. intros [H|(? & _ & [=])]. auto.
Qed.

End sets.
