(* ===== verification/MigrateSpec.v ===== *)
(** * The migration engine keeps its promises

    Whatever call fails, the durable state is what a prefix of the planned
    migrations leaves behind, body and bookkeeping together; refusals change
    nothing; a second run does nothing; and rolling back what a run applied
    restores the state before it. *)

From S2P Require Import Prelude GoStrings Migrate.

Section spec.
Context {T : Type}.
Implicit Types ms done undo : list (M T).
Implicit Types w : world T.
Implicit Types d : db T.

(** Same rows and data; the applied-state table may have been created. *)
Definition content d d' : Prop := rows d = rows d' ∧ data d = data d'.

Definition applied_in d (v : string) : bool := bool_decide (is_Some (rows d !! v)).

(** The migrations a run has to apply. *)
Definition outstanding d ms : list (M T) :=
  List.filter (λ m, negb (applied_in d (Version m))) (sort_by version_leb ms).

Lemma elem_of_row_keys d v : v ∈ sort_by str_leb (map fst (map_to_list (rows d))) ↔ is_Some (rows d !! v).
Proof.
  rewrite elem_of_sort_by, list_elem_of_fmap. split.
  - intros ([k x] & -> & H%elem_of_map_to_list). cbn. eauto.
  - intros [x H]. exists (v, x). by rewrite elem_of_map_to_list.
Qed.

Lemma contains_keys d v :
  contains (sort_by str_leb (map fst (map_to_list (rows d)))) v = applied_in d v.
Proof.
  apply eq_bool_prop_intro. rewrite !Is_true_true, contains_spec, elem_of_row_keys.
  unfold applied_in. by rewrite bool_decide_eq_true.
Qed.

Definition newest d : string := highest_of (sort_by str_leb (map fst (map_to_list (rows d)))).

Lemma newest_spec d v : is_Some (rows d !! v) → str_ltb (newest d) v = false.
Proof.
  intros H. apply elem_of_row_keys in H. unfold newest, highest_of.
  by apply (proj1 (highest_of_spec _ "")).
Qed.

Lemma newest_applied d : newest d = "" ∨ is_Some (rows d !! newest d).
Proof.
  rewrite <-elem_of_row_keys. apply (proj2 (proj2 (highest_of_spec _ ""))).
Qed.

(** What [prepare] and [appliedVersions] come to. *)
Lemma prepare_spec fails ms w :
  match prepare fails ms w with
  | (Ok sorted, w') =>
      usable ms ∧ sorted = sort_by version_leb ms ∧ content (durable w) (durable w')
      ∧ table_exists (durable w') = true
  | (Err e, w') =>
      content (durable w) (durable w') ∧
      ((¬ usable ms ∧ ∃ s v, e = Refused s v ∧ (s = ErrInvalidMigration ∨ s = ErrDuplicateVersion))
       ∨ (usable ms ∧ ∃ st v, e = Failed st v ∧ fails (calls w) = true))
  end.
Proof.
  unfold prepare, ensureTable, tick, content. cbn.
  destruct (check_set (first_width ms) ∅ ms) as [e|] eqn:E.
  - split; [done|]. left. split; [|by eapply check_set_err].
    intros Hu%check_set_usable. congruence.
  - apply check_set_usable in E. destruct (fails (calls w)) eqn:Ef; cbn; [|done].
    split; [done|]. right. eauto 10.
Qed.

Lemma appliedVersions_spec fails w :
  match appliedVersions fails w with
  | (Ok applied, w') =>
      durable w' = durable w ∧ applied = sort_by str_leb (map fst (map_to_list (rows (durable w))))
  | (Err e, w') => durable w' = durable w ∧ ∃ st v, e = Failed st v
  end.
Proof.
  unfold appliedVersions, tick. cbn. destruct (fails _ || _) eqn:E; cbn; [|done]. split; [done|eauto].
Qed.

Definition in_order d ms : Prop :=
  Forall (λ m, str_ltb (Version m) (newest d) = false) (outstanding d ms).

Lemma pending_outstanding d ms r :
  pending_of (sort_by str_leb (map fst (map_to_list (rows d)))) (newest d) (sort_by version_leb ms) = r →
  match r with
  | Ok pending => pending = outstanding d ms ∧ in_order d ms
  | Err e => ¬ in_order d ms ∧ ∃ v, e = Refused ErrOutOfOrder v
  end.
Proof.
  intros <-. assert (List.filter (λ m, negb (contains (sort_by str_leb (map fst (map_to_list (rows d)))) (Version m)))
    (sort_by version_leb ms) = outstanding d ms) as Ho.
  { apply filter_bool_ext. intros m _. by rewrite contains_keys. }
  destruct (pending_of _ _ _) as [pending|e] eqn:E.
  - apply pending_of_ok in E as [-> H]. rewrite Ho in *. done.
  - split; [|by eapply pending_of_err]. intros Hin. unfold in_order in Hin. rewrite <-Ho in Hin.
    rewrite (proj2 (pending_of_ok _ _ _ _) (conj eq_refl Hin)) in E. done.
Qed.

(** The three ways a run can go. *)
Lemma Run_cases fails performed ms w done err w' :
  Run fails performed ms w = (done, err, w') →
  (done = [] ∧ content (durable w) (durable w') ∧
     ((∃ st v, err = Some (Failed st v))
      ∨ (¬ usable ms ∧ ∃ s v, err = Some (Refused s v) ∧ (s = ErrInvalidMigration ∨ s = ErrDuplicateVersion))
      ∨ (¬ in_order (durable w) ms ∧ ∃ v, err = Some (Refused ErrOutOfOrder v))))
  ∨ (usable ms ∧ in_order (durable w) ms ∧
     ∃ w0, content (durable w) (durable w0)
       ∧ each (apply fails performed) (outstanding (durable w) ms) w0 = (done, err, w')).
Proof.
  unfold Run. pose proof (prepare_spec fails ms w) as Hp.
  destruct (prepare fails ms w) as [[sorted|e] w1].
  2:{ intros [= <- <- <-]. left. destruct Hp as [Hc [[Hu (s & v & -> & Hs)]|(_ & st & v & -> & _)]].
      - split_and!; [done|done|]. right. left. eauto 10.
      - split_and!; [done|done|]. left. eauto. }
  destruct Hp as (Hu & -> & Hc & _). pose proof (appliedVersions_spec fails w1) as Ha.
  destruct (appliedVersions fails w1) as [[applied|e] w2].
  2:{ intros [= <- <- <-]. left. destruct Ha as [Hd (st & v & ->)]. rewrite Hd.
      split_and!; [done|done|]. left. eauto. }
  destruct Ha as [Hd ->].
  assert (sort_by str_leb (map fst (map_to_list (rows (durable w1))))
          = sort_by str_leb (map fst (map_to_list (rows (durable w))))) as ->
    by (by destruct Hc as [-> _]).
  fold (newest (durable w)).
  destruct (pending_of _ _ _) as [pending|e] eqn:Ep; apply pending_outstanding in Ep.
  - destruct Ep as [-> Hin]. intros He. right. split; [done|]. split; [done|].
    exists w2. by rewrite Hd.
  - destruct Ep as [Hno (v & ->)]. intros [= <- <- <-]. left. rewrite Hd.
    split_and!; [done|done|]. right. right. eauto.
Qed.

Lemma Rollback_cases fails performed ms to w done err w' :
  Rollback fails performed ms to w = (done, err, w') →
  (done = [] ∧ content (durable w) (durable w') ∧ is_Some err)
  ∨ (usable ms ∧ ∃ w0 undo, content (durable w) (durable w0)
       ∧ undo_of (sort_by version_leb ms)
           (targets_of (sort_by str_leb (map fst (map_to_list (rows (durable w))))) to) = Ok undo
       ∧ each (revert fails performed) undo w0 = (done, err, w')).
Proof.
  unfold Rollback. pose proof (prepare_spec fails ms w) as Hp.
  destruct (prepare fails ms w) as [[sorted|e] w1].
  2:{ intros [= <- <- <-]. left. destruct Hp as [Hc _]. split_and!; [done|done|eauto]. }
  destruct Hp as (Hu & -> & Hc & _). pose proof (appliedVersions_spec fails w1) as Ha.
  destruct (appliedVersions fails w1) as [[applied|e] w2].
  2:{ intros [= <- <- <-]. left. destruct Ha as [Hd _]. rewrite Hd. split_and!; [done|done|eauto]. }
  destruct Ha as [Hd ->].
  assert (sort_by str_leb (map fst (map_to_list (rows (durable w1))))
          = sort_by str_leb (map fst (map_to_list (rows (durable w))))) as ->
    by (by destruct Hc as [-> _]).
  destruct (undo_of _ _) as [undo|e] eqn:Eu.
  - intros He. right. split; [done|]. exists w2, undo. by rewrite Hd.
  - intros [= <- <- <-]. left. rewrite Hd. split_and!; [done|done|eauto].
Qed.

(** ** Rows after a run *)

Definition recorded ms (r : gmap string string) : gmap string string :=
  foldl (λ r m, <[Version m := Name m]> r) r ms.

Lemma recorded_lookup_ne ms r v : v ∉ map Version ms → recorded ms r !! v = r !! v.
Proof.
  unfold recorded. revert r; induction ms as [|m ms IH]; intros r; cbn; [done|].
  rewrite not_elem_of_cons. intros [Hv Hms]. rewrite IH by done. by rewrite lookup_insert_ne.
Qed.

Lemma recorded_is_Some ms r v :
  is_Some (recorded ms r !! v) ↔ v ∈ map Version ms ∨ is_Some (r !! v).
Proof.
  unfold recorded. revert r; induction ms as [|m ms IH]; intros r; cbn; [set_solver|].
  rewrite IH, lookup_insert_is_Some, elem_of_cons.
  destruct (decide (Version m = v)); naive_solver.
Qed.

Lemma steps_applied ms d d' :
  steps applied_to ms d d' →
  rows d' = recorded ms (rows d) ∧ table_exists d' = table_exists d
  ∧ NoDup (map Version ms) ∧ ∀ m, m ∈ ms → rows d !! Version m = None.
Proof.
  induction 1 as [d|m ms d d1 d2 (s & Hs & Hn & ->) _ (IH1 & IH2 & IH3 & IH4)]; cbn.
  - split_and!; [done|done|constructor|set_solver].
  - cbn in *. rewrite IH1, IH2. split_and!; [done|done| |].
    + apply NoDup_cons. split; [|done]. rewrite list_elem_of_fmap. intros (m' & E & Hm').
      specialize (IH4 m' Hm'). by rewrite <-E, lookup_insert_eq in IH4.
    + intros m' [->|Hm']%elem_of_cons; [done|]. specialize (IH4 m' Hm').
      by apply lookup_insert_None in IH4 as [? _].
Qed.

Lemma outstanding_versions d ms v :
  v ∈ map Version (outstanding d ms) ↔ v ∈ map Version ms ∧ rows d !! v = None.
Proof.
  unfold outstanding. rewrite !list_elem_of_fmap. split.
  - intros (m & -> & [Hm Hn]%elem_of_filter_bool). apply elem_of_sort_by in Hm.
    split; [eauto|]. unfold applied_in in Hn.
    rewrite negb_true_iff, bool_decide_eq_false, <-eq_None_not_Some in Hn. done.
  - intros [(m & -> & Hm) Hn]. exists m. split; [done|]. apply elem_of_filter_bool.
    rewrite elem_of_sort_by. split; [done|]. unfold applied_in.
    by rewrite negb_true_iff, bool_decide_eq_false, <-eq_None_not_Some.
Qed.

Lemma outstanding_sorted d ms : StronglySorted (le_by version_leb) (outstanding d ms).
Proof.
  apply StronglySorted_filter_bool, sort_by_sorted; [apply version_leb_total|apply version_leb_trans].
Qed.

(** Nothing is outstanding once everything declared is recorded. *)
Lemma outstanding_nil d ms :
  (∀ m, m ∈ ms → is_Some (rows d !! Version m)) → outstanding d ms = [].
Proof.
  intros H. apply filter_bool_none. intros m Hm%elem_of_sort_by.
  unfold applied_in. rewrite bool_decide_eq_true_2; [done|]. auto.
Qed.

(** ** No faults *)

Definition reliable (n : nat) : bool := false.

Lemma revert_reliable performed m w d' :
  reverted_to m (durable w) d' →
  revert reliable performed m w = (None, mkWorld d' (3 + calls w)).
Proof.
  intros (s & Hs & ->). unfold revert, inTx, exec, tick, reliable. cbn. rewrite Hs. done.
Qed.

Lemma apply_reliable performed m w d' :
  applied_to m (durable w) d' →
  apply reliable performed m w = (None, mkWorld d' (3 + calls w)).
Proof.
  intros (s & Hs & Hn & ->). unfold apply, inTx, exec, tick, insert_row, reliable. cbn.
  rewrite Hs. cbn. by rewrite Hn.
Qed.

Lemma each_reliable (R : M T → db T → db T → Prop) step ms w d' :
  (∀ m w d', R m (durable w) d' → ∃ n, step m w = (None, mkWorld d' n)) →
  steps R ms (durable w) d' → ∃ n, each step ms w = (ms, None, mkWorld d' n).
Proof.
  intros Hstep Hs. remember (durable w) as d eqn:Ed. revert w Ed.
  induction Hs as [d|m ms d d1 d2 HR Hs IH]; intros w ->; cbn.
  - destruct w as [d0 n]. by exists n.
  - destruct (Hstep m w d1 HR) as [n ->]. destruct (IH (mkWorld d1 n) eq_refl) as [n' ->]. by exists n'.
Qed.

(** Undoing what was applied, newest first. *)
Definition reversible (m : M T) : Prop :=
  ∀ s s', run_body (Up m) s = Some s' → run_body (Down m) s' = Some s.

Lemma applied_reverted m d d' : reversible m → applied_to m d d' → reverted_to m d' d.
Proof.
  intros Hr (s & Hs & Hn & ->). exists (data d). cbn. split; [by apply Hr|].
  destruct d as [te r x]. cbn in *. f_equal. by rewrite delete_insert_id.
Qed.

Lemma steps_app (R : M T → db T → db T → Prop) l1 l2 d d' d'' :
  steps R l1 d d' → steps R l2 d' d'' → steps R (l1 ++ l2) d d''.
Proof. induction 1; cbn; [done|]. intros. econstructor; eauto. Qed.

Lemma steps_undo ms d d' :
  Forall reversible ms → steps applied_to ms d d' → steps reverted_to (rev ms) d' d.
Proof.
  intros Hr. induction 1 as [d|m ms d d1 d2 HR Hs IH]; cbn; [constructor|].
  apply Forall_cons in Hr as [Hm Hr]. eapply steps_app; [by apply IH|].
  econstructor; [by apply applied_reverted|constructor].
Qed.

(** The targets of a rollback. *)
Lemma targets_of_sorted applied to l :
  NoDup applied → StronglySorted (λ a b, str_ltb a b = true) l →
  (∀ v, v ∈ l ↔ v ∈ applied ∧ str_ltb to v = true) → targets_of applied to = rev l.
Proof.
  intros Hnd Hs Hl. unfold targets_of. f_equal. symmetry.
  apply sort_by_unique; [apply str_leb_total|apply str_leb_trans|eauto using str_leb_antisym| |].
  - apply NoDup_Permutation.
    + clear Hl. induction Hnd as [|x l' Hx Hnd IH]; cbn; [constructor|].
      destruct (str_ltb to x); [|done]. constructor; [|done]. by intros [? _]%elem_of_filter_bool.
    + clear -Hs. induction Hs as [|x l Hs IH Hall]; constructor; [|done].
      intros Hx. rewrite Forall_forall in Hall. specialize (Hall x Hx). by rewrite str_ltb_irrefl in Hall.
    + intros v. by rewrite elem_of_filter_bool, Hl.
  - eapply ssorted_impl; [|exact Hs]. intros a b Hab. unfold le_by. rewrite str_leb_ltb.
    by rewrite (str_ltb_antisym _ _ Hab).
Qed.

Lemma undo_of_ok ms undo :
  NoDup (map Version ms) → (∀ m, m ∈ undo → m ∈ ms) →
  undo_of (sort_by version_leb ms) (map Version undo) = Ok undo.
Proof.
  intros Hnd Hsub. unfold undo_of. induction undo as [|m undo IH]; cbn; [done|].
  rewrite (lookup_index_from Version) by (by rewrite sort_by_perm).
  rewrite (find_key_elem Version).
  - cbn. rewrite IH; [done|]. intros m' Hm'. apply Hsub. set_solver.
  - by rewrite sort_by_perm.
  - rewrite elem_of_sort_by. apply Hsub. set_solver.
Qed.

Lemma undo_of_spec ms l undo :
  NoDup (map Version ms) → undo_of (sort_by version_leb ms) l = Ok undo →
  map Version undo = l ∧ ∀ m, m ∈ undo → m ∈ ms.
Proof.
  intros Hnd Hu. unfold undo_of in Hu. apply map_result_ok in Hu.
  induction Hu as [|v m l undo' Hvm Hl IH]; [split; [done|set_solver]|].
  rewrite (lookup_index_from Version) in Hvm by (by rewrite sort_by_perm).
  destruct (find_key Version (sort_by version_leb ms) v) as [x|] eqn:Ef; [|by rewrite lookup_empty in Hvm].
  injection Hvm as ->. apply find_key_Some in Ef as [Hin <-]. apply elem_of_sort_by in Hin.
  destruct IH as [<- IH]. split; [done|]. intros m' [->|Hm']%elem_of_cons; auto.
Qed.

Lemma row_keys_nodup d : NoDup (sort_by str_leb (map fst (map_to_list (rows d)))).
Proof. rewrite sort_by_perm. apply NoDup_fst_map_to_list. Qed.

(** The migrations a run applied are newer than everything applied before. *)
Lemma outstanding_newer d ms m :
  usable ms → in_order d ms → m ∈ outstanding d ms → str_ltb (newest d) (Version m) = true.
Proof.
  intros [Hall _] Hin Hm. unfold in_order in Hin. rewrite Forall_forall in Hin, Hall.
  specialize (Hin m Hm). destruct (str_ltb (newest d) (Version m)) eqn:E; [done|].
  pose proof (str_ltb_total _ _ E Hin) as Heq.
  assert (Version m ∈ map Version (outstanding d ms)) as Hv by (apply list_elem_of_fmap; eauto).
  apply outstanding_versions in Hv as [_ Hn].
  destruct (newest_applied d) as [He|[x Hx]]; [|congruence].
  unfold outstanding in Hm. apply elem_of_filter_bool in Hm as [Hm%elem_of_sort_by _].
  destruct (Hall m Hm) as [Hne _]. congruence.
Qed.

Lemma version_sorted l :
  StronglySorted (le_by version_leb) l → NoDup (map Version l) →
  StronglySorted (λ a b, str_ltb a b = true) (map (@Version T) l).
Proof.
  induction 1 as [|m l Hs IH Hall]; cbn; [constructor|]. rewrite NoDup_cons. intros [Hm Hnd].
  constructor; [auto|]. rewrite Forall_forall in Hall. apply Forall_forall.
  intros v (m' & -> & Hm')%list_elem_of_fmap. specialize (Hall m' Hm').
  unfold le_by, version_leb in Hall. rewrite str_leb_ltb, negb_true_iff in Hall.
  destruct (str_ltb (Version m) (Version m')) eqn:E; [done|].
  destruct Hm. rewrite (str_ltb_total _ _ E Hall). apply list_elem_of_fmap; eauto.
Qed.

Lemma Run_Rollback_restores performed ms w done w1 :
  Forall reversible ms →
  Run reliable performed ms w = (done, None, w1) →
  ∃ w2, Rollback reliable performed ms (newest (durable w)) w1 = (rev done, None, w2)
    ∧ content (durable w2) (durable w).
Proof.
  intros Hr [(_ & _ & H)|(Hu & Hin & w0 & Hc & He)]%Run_cases; [naive_solver|].
  destruct (each_spec _ _ _ _ _ _ _ (apply_atomic reliable performed) He) as (rest & Hd & -> & Hs).
  rewrite app_nil_r in Hd.
  destruct (steps_applied _ _ _ Hs) as (Hrows & Hte & Hnd & Hfresh).
  assert (∀ m, m ∈ done → m ∈ ms) as Hsub.
  { intros m Hm. rewrite <-Hd in Hm. unfold outstanding in Hm.
    apply elem_of_filter_bool in Hm as [Hm _]. by apply elem_of_sort_by in Hm. }
  assert (targets_of (sort_by str_leb (map fst (map_to_list (rows (durable w1))))) (newest (durable w))
          = map Version (rev done)) as Ht.
  { rewrite map_rev. apply targets_of_sorted; [apply row_keys_nodup| |].
    - apply version_sorted; [|done]. rewrite <-Hd. apply outstanding_sorted.
    - intros v. rewrite elem_of_row_keys, Hrows, recorded_is_Some. split.
      + intros Hv. split; [by left|]. apply list_elem_of_fmap in Hv as (m & -> & Hm).
        rewrite <-Hd in Hm. by apply (outstanding_newer _ ms).
      + intros [[Hv|Hv] Hlt]; [done|]. destruct Hc as [Hc _]. rewrite <-Hc in Hv.
        by rewrite (newest_spec _ _ Hv) in Hlt. }
  unfold Rollback. pose proof (prepare_spec reliable ms w1) as Hp.
  destruct (prepare reliable ms w1) as [[sorted|e] w2].
  2:{ destruct Hp as [_ [[Hn _]|(_ & ? & ? & _ & [=])]]. done. }
  destruct Hp as (_ & -> & Hc2 & Hte2). unfold appliedVersions, tick, reliable. cbn.
  rewrite Hte2. cbn. destruct Hc2 as [Hc2 Hc2']. rewrite <-Hc2, Ht.
  rewrite undo_of_ok; [|apply Hu|intros m Hm; apply Hsub; by apply list_elem_of_In, in_rev, list_elem_of_In].
  assert (∃ d', steps reverted_to (rev done) (durable w2) d' ∧ content d' (durable w)) as (d' & Hs' & Hd').
  { assert (Forall reversible done) as Hrd.
    { rewrite Forall_forall in Hr. apply Forall_forall. auto. }
    pose proof (steps_undo _ _ _ Hrd Hs) as Hb. clear -Hb Hc Hc2 Hc2'.
    destruct (durable w1) as [t1 r1 x1], (durable w2) as [t2 r2 x2]. cbn in *. subst r2 x2.
    assert (∀ l d d' t, steps reverted_to l d d' →
      ∃ d'', steps reverted_to l (mkDb t (rows d) (data d)) d'' ∧ content d'' d') as Hg.
    { intros l d d' t Hst. revert t. induction Hst as [d|m l d d1 d2 (s & Hs & ->) _ IH]; intros t.
      - eexists. split; [constructor|done].
      - cbn in *. destruct (IH t) as (d'' & Hd'' & Hcc). exists d''. split; [|done].
        econstructor; [|exact Hd'']. by exists s. }
    destruct (Hg _ _ _ t2 Hb) as (d'' & Hd'' & [E1 E2]). exists d''. split; [exact Hd''|].
    destruct Hc as [Ec1 Ec2]. unfold content. by rewrite E1, E2, Ec1, Ec2. }
  destruct (each_reliable reverted_to (revert reliable performed) (rev done)
    (mkWorld (durable w2) (Datatypes.S (calls w2))) d') as [n Hn].
  - intros m w3 d3 H3. eexists. by apply revert_reliable.
  - exact Hs'.
  - unfold reliable in Hn at 1. rewrite Hn. eexists. split; [reflexivity|done].
Qed.
End spec.

(** ** Properties *)

(** C5: [Run] is atomic per migration under any pattern of database failures.
    What it reports done is a prefix, in version order, of the declared migrations
    not yet applied; the durable state is what exactly those leave behind, data and
    applied-state rows together.  The one exception is a commit that took effect
    though it reported an error: then the failing migration, whole, is included.
    Without an error everything outstanding was applied. *)
Theorem Run_atomic {T} (fails performed : nat → bool) (ms : list (M T)) (w : world T) done err w' :
  Run fails performed ms w = (done, err, w') →
  ∃ d0 d, content (durable w) d0 ∧ steps applied_to done d0 d
    ∧ done `prefix_of` outstanding (durable w) ms
    ∧ match err with
      | None => done = outstanding (durable w) ms ∧ durable w' = d
      | Some e =>
          durable w' = d
          ∨ ∃ m, done ++ [m] `prefix_of` outstanding (durable w) ms
              ∧ e = Failed Commit (Version m) ∧ applied_to m d (durable w')
      end.
Proof.
  intros [(-> & Hc & Herr)|(Hu & Hin & w0 & Hc & He)]%Run_cases.
  - exists (durable w'), (durable w'). split; [done|]. split; [constructor|]. split; [apply prefix_nil|].
    destruct err; [by left|naive_solver].
  - destruct (each_spec _ _ _ _ _ _ _ (apply_atomic fails performed) He) as (rest & -> & H).
    destruct err as [e|].
    + destruct H as (m & rest' & -> & d & Hs & Hd). exists (durable w0), d.
      split_and!; [done|done|by eexists|]. destruct Hd as [Hd|[He' Hd]]; [by left|right].
      exists m. split_and!; [|done|done]. exists rest'. by rewrite <-app_assoc.
    + destruct H as [-> Hs]. exists (durable w0), (durable w').
      split_and!; [done|done|by eexists|by rewrite app_nil_r|done].
Qed.

(** Two toy migrations on a list of statements. *)
Definition example_m (v : string) : M (list string) :=
  mkM v "m" (Some (λ s, Some (v :: s))) (Some (λ s, Some (tail s))).
Definition example_world : world (list string) := mkWorld (mkDb false ∅ []) 0.

Lemma Run_atomic_witness :
  let ms := [example_m "02"; example_m "01"] in
  let '(done, err, w') := Run (λ n, (n =? 7)%nat) (λ _, true) ms example_world in
  ∃ d0 d, content (durable example_world) d0 ∧ steps applied_to done d0 d
    ∧ done `prefix_of` outstanding (durable example_world) ms
    ∧ match err with
      | None => done = outstanding (durable example_world) ms ∧ durable w' = d
      | Some e =>
          durable w' = d
          ∨ ∃ m, done ++ [m] `prefix_of` outstanding (durable example_world) ms
              ∧ e = Failed Commit (Version m) ∧ applied_to m d (durable w')
      end.
Proof.
  cbn zeta. destruct (Run _ _ _ example_world) as [[done err] w'] eqn:E.
  exact (Run_atomic _ _ _ _ _ _ _ E).
Defined.

(** A set [Run] refuses is refused before anything changes: an unusable
    set (a missing version, Up or Down, a repeated version, mixed widths) and one in
    which an outstanding migration sorts before an applied one leave rows and data
    untouched, whatever the database does; and a refusal means exactly one of the
    two. *)
Theorem Run_refusals {T} (fails performed : nat → bool) (ms : list (M T)) (w : world T) done err w' :
  Run fails performed ms w = (done, err, w') →
  (¬ usable ms ∨ ¬ in_order (durable w) ms →
     done = [] ∧ content (durable w) (durable w') ∧ is_Some err)
  ∧ (∀ s v, err = Some (Refused s v) →
     done = [] ∧ content (durable w) (durable w') ∧
     ((¬ usable ms ∧ (s = ErrInvalidMigration ∨ s = ErrDuplicateVersion))
      ∨ (¬ in_order (durable w) ms ∧ s = ErrOutOfOrder))).
Proof.
  intros [(-> & Hc & Herr)|(Hu & Hin & w0 & Hc & He)]%Run_cases.
  - split.
    + intros _. split_and!; [done|done|]. destruct Herr as [(?&?&->)|[(_&?&?&->&_)|(_&?&->)]]; eauto.
    + intros s v ->. split_and!; [done|done|]. naive_solver.
  - split; [naive_solver|]. intros s v ->. exfalso.
    clear -He. revert w0 done He. induction (outstanding _ ms) as [|m l IH]; intros w0 dn; cbn [each]; [discriminate|].
    destruct (apply fails performed m w0) as [[e|] w1] eqn:Ea.
    + intros He. simplify_eq. by apply inTx_failed in Ea as [st [=]].
    + destruct (each _ l w1) as [[done1 err1] w2] eqn:E1. intros He. simplify_eq. eauto.
Qed.

Lemma Run_refusals_witness :
  let ms := [example_m "02"; example_m "02"] in
  let '(done, err, w') := Run (λ _, false) (λ _, true) ms example_world in
  (∀ s v, err = Some (Refused s v) →
     done = [] ∧ content (durable example_world) (durable w') ∧
     ((¬ usable ms ∧ (s = ErrInvalidMigration ∨ s = ErrDuplicateVersion))
      ∨ (¬ in_order (durable example_world) ms ∧ s = ErrOutOfOrder))).
Proof.
  cbn zeta. destruct (Run _ _ _ example_world) as [[done err] w'] eqn:E.
  exact (proj2 (Run_refusals _ _ _ _ _ _ _ E)).
Defined.

(** Running is idempotent.  After a run that reported no error, whatever
    failures it survived, a second run with the same set on a database that answers
    every call applies nothing, reports no error and changes nothing. *)
Theorem Run_idempotent {T} (fails performed : nat → bool) (ms : list (M T)) (w : world T) done w' :
  Run fails performed ms w = (done, None, w') →
  ∃ w'', Run reliable performed ms w' = ([], None, w'') ∧ content (durable w') (durable w'').
Proof.
  intros [(_ & _ & H)|(Hu & Hin & w0 & Hc & He)]%Run_cases; [naive_solver|].
  destruct (each_spec _ _ _ _ _ _ _ (apply_atomic fails performed) He) as (rest & Hd & -> & Hs).
  rewrite app_nil_r in Hd. destruct (steps_applied _ _ _ Hs) as (Hrows & _).
  assert (outstanding (durable w') ms = []) as Hnil.
  { apply outstanding_nil. intros m Hm. rewrite Hrows, recorded_is_Some.
    destruct (rows (durable w) !! Version m) as [x|] eqn:E.
    - right. destruct Hc as [Hc _]. rewrite <-Hc. eauto.
    - left. rewrite <-Hd. apply outstanding_versions. split; [|done]. apply list_elem_of_fmap; eauto. }
  destruct (Run reliable performed ms w') as [[done2 err2] w2] eqn:E2.
  unfold Run in E2. pose proof (prepare_spec reliable ms w') as Hp.
  destruct (prepare reliable ms w') as [[sorted|e] w3].
  2:{ destruct Hp as [_ [[Hn _]|(_ & ? & ? & _ & [=])]]. done. }
  destruct Hp as (_ & -> & Hc2 & Hte). unfold appliedVersions, tick, reliable in E2. cbn in E2.
  rewrite Hte in E2. cbn in E2. rewrite <-(proj1 Hc2) in E2. fold (newest (durable w')) in E2.
  destruct (pending_of _ _ _) as [pending|e] eqn:Ep; apply pending_outstanding in Ep.
  - destruct Ep as [-> _]. rewrite Hnil in E2. cbn in E2. injection E2 as <- <- <-. eauto.
  - destruct Ep as [Hno _]. destruct Hno. unfold in_order. rewrite Hnil. constructor.
Qed.

Lemma Run_idempotent_witness :
  ∃ w'', Run reliable (λ _, true) [example_m "02"; example_m "01"]
           (snd (Run (λ _, false) (λ _, true) [example_m "02"; example_m "01"] example_world)) = ([], None, w'')
    ∧ content (durable (snd (Run (λ _, false) (λ _, true) [example_m "02"; example_m "01"] example_world)))
        (durable w'').
Proof.
  refine (Run_idempotent (λ _, false) (λ _, true) [example_m "02"; example_m "01"] example_world
    [example_m "01"; example_m "02"] _ _). reflexivity.
Defined.

(** C27: rolling back to the newest version applied before a run undoes exactly
    that run, newest first, and restores rows and data to what they were, provided
    each Down undoes its Up. *)
Theorem Run_then_Rollback {T} (performed : nat → bool) (ms : list (M T)) (w : world T) done w1 :
  Forall reversible ms → Run reliable performed ms w = (done, None, w1) →
  ∃ w2, Rollback reliable performed ms (newest (durable w)) w1 = (rev done, None, w2)
    ∧ content (durable w2) (durable w).
Proof. apply Run_Rollback_restores. Qed.

Lemma Run_then_Rollback_witness :
  ∃ w2, Rollback reliable (λ _, true) [example_m "02"; example_m "01"] (newest (durable example_world))
          (snd (Run reliable (λ _, true) [example_m "02"; example_m "01"] example_world))
        = (rev [example_m "01"; example_m "02"], None, w2)
    ∧ content (durable w2) (durable example_world).
Proof.
  refine (Run_then_Rollback (λ _, true) [example_m "02"; example_m "01"] example_world
    [example_m "01"; example_m "02"] _ _ _); [|reflexivity].
  constructor; [|constructor; [|constructor]]; intros s s' H; cbn in H; injection H as <-; reflexivity.
Defined.

(** [Rollback] undoes, newest first, a prefix of the applied migrations
    newer than the target, each with its row in one transaction, under any pattern of
    failures; a recorded version without a declared migration stops it before
    anything is undone. *)
Theorem Rollback_atomic {T} (fails performed : nat → bool) (ms : list (M T)) to (w : world T) done err w' :
  Rollback fails performed ms to w = (done, err, w') →
  ∃ d0 d, content (durable w) d0 ∧ steps reverted_to done d0 d
    ∧ map Version done `prefix_of` targets_of (sort_by str_leb (map fst (map_to_list (rows (durable w))))) to
    ∧ match err with
      | None =>
          durable w' = d
          ∧ map Version done = targets_of (sort_by str_leb (map fst (map_to_list (rows (durable w))))) to
      | Some e =>
          durable w' = d
          ∨ ∃ m, e = Failed Commit (Version m) ∧ reverted_to m d (durable w')
      end
    ∧ ((∃ v, v ∈ targets_of (sort_by str_leb (map fst (map_to_list (rows (durable w))))) to
             ∧ v ∉ map Version ms) → done = [] ∧ content (durable w) (durable w')).
Proof.
  intros [(-> & Hc & [e ->])|(Hu & w0 & undo & Hc & Hund & He)]%Rollback_cases.
  - exists (durable w'), (durable w'). split; [done|]. split; [constructor|].
    split; [apply prefix_nil|]. split; [by left|done].
  - assert (map Version undo = targets_of (sort_by str_leb (map fst (map_to_list (rows (durable w))))) to
            ∧ ∀ m, m ∈ undo → m ∈ ms) as [Hv Hsub].
    { apply undo_of_spec; [apply Hu|done]. }
    destruct (each_spec _ _ _ _ _ _ _ (revert_atomic fails performed) He) as (rest & Hundo & H).
    rewrite <-Hv.
    assert (¬ (∃ v, v ∈ map Version undo ∧ v ∉ map Version ms)) as Hno.
    { intros (v & Hv1 & Hv2). apply list_elem_of_fmap in Hv1 as (m & -> & Hm).
      apply Hv2, list_elem_of_fmap. eauto. }
    assert (map Version done `prefix_of` map Version undo) as Hpre.
    { rewrite Hundo, map_app. by eexists. }
    destruct err as [e|].
    + destruct H as (m & rest' & -> & d & Hs & Hd). exists (durable w0), d.
      split_and!; [done|done|done| |done]. destruct Hd as [?|[? ?]]; eauto.
    + destruct H as [-> Hs]. rewrite app_nil_r in Hundo. subst undo. exists (durable w0), (durable w').
      split_and!; [done|done|done|done|done|done].
Qed.

Lemma Rollback_atomic_witness :
  let ms := [example_m "02"; example_m "01"] in
  let w := snd (Run reliable (λ _, true) ms example_world) in
  let '(done, err, w') := Rollback (λ n, (n =? 9)%nat) (λ _, true) ms "01" w in
  ∃ d0 d, content (durable w) d0 ∧ steps reverted_to done d0 d.
Proof.
  cbn zeta. destruct (Rollback _ _ _ _ _) as [[done err] w'] eqn:E.
  destruct (Rollback_atomic _ _ _ _ _ _ _ _ E) as (d0 & d & H1 & H2 & _). exists d0, d. split; assumption.
Defined.
