(* ===== verification/MakeMigrations.v ===== *)
(** * makemigrations: src/makemigrations.go

    The command: reconstruct the recorded schema from the manifests and state
    files on disk, diff it against the live models, and write one migration per
    changed module.  The file system maps paths to contents; every call that can
    fail consults [fails] with its number.  [format] is go/format's [Source]. *)

From S2P Require Import Prelude GoStrings Paths Json Orm OrmState Diff Plan Dialect.

(** ** Errors, effects *)

Inductive mm_error :=
| Sliced (catalog names : list string)
| NoDatabase
| NoDialect (driver : string)
| CannotRead (path : string)
| CannotParse (path : string)
| SameVersion (version dir1 dir2 : string)
| Recorded (e : Orm.error)
| Declared (e : Orm.error)
| Rename (e : rename_error)
| NotTimestamp (version : string)
| NoVersionAbove (version : string)
| CannotGenerate (module : string) (e : dialect_error)
| CannotInvert (module : string) (e : invert_error)
| CannotReverse (module : string) (e : dialect_error)
| CumulativeState (module : string) (e : Orm.error)
| CannotFormat (version : string)
| CannotWrite (path : string)
| CannotPrint
| NoPositionalArguments
| NoAnswer.

Record env := mkEnv {
  files : gmap string string;
  out : list string;
  calls : nat;
}.

Definition IO (A : Type) : Type := env → result mm_error A * env.

#[export] Instance IO_ret : MRet IO := λ A a e, (Ok a, e).
#[export] Instance IO_bind : MBind IO := λ A B f m e,
  match m e with
  | (Ok a, e') => f a e'
  | (Err x, e') => (Err x, e')
  end.

Definition fail {A} (x : mm_error) : IO A := λ e, (Err x, e).
Definition lift {X A} (wrap : X → mm_error) (r : result X A) : IO A := λ e,
  match r with Ok a => (Ok a, e) | Err x => (Err (wrap x), e) end.

Section io.
Context (fails : nat → bool).

(** [os.ReadFile]: [None] is [os.ErrNotExist]. *)
Definition read_file (path : string) : IO (option string) := λ e,
  let e' := mkEnv (files e) (out e) (S (calls e)) in
  match files e !! path with
  | None => (Ok None, e')
  | Some data => if fails (calls e) then (Err (CannotRead path), e') else (Ok (Some data), e')
  end.

Definition write_file (path data : string) : IO () := λ e,
  if fails (calls e) then (Err (CannotWrite path), mkEnv (files e) (out e) (S (calls e)))
  else (Ok (), mkEnv (<[path := data]> (files e)) (out e) (S (calls e))).

(** [os.MkdirAll]: directories exist implicitly. *)
Definition mkdir_all (dir : string) : IO () := λ e,
  (if fails (calls e) then Err (CannotWrite dir) else Ok (), mkEnv (files e) (out e) (S (calls e))).

Definition print_line (line : string) : IO () := λ e,
  if fails (calls e) then (Err CannotPrint, mkEnv (files e) (out e) (S (calls e)))
  else (Ok (), mkEnv (files e) (out e ++ [line]) (S (calls e))).
End io.

(** ** Manifests *)

Record manifestEntry := mkEntry {
  eVersion : string;
  eFile : string;
  eVar : string;
  eState : string;
}.

Definition zero_entry : manifestEntry := mkEntry "" "" "" "".

Definition set_entry (k : string) (e : manifestEntry) (v : json) : option manifestEntry :=
  let '(mkEntry ver f var st) := e in
  if String.eqb k "version" then x ← dec_string ver v; Some (mkEntry x f var st)
  else if String.eqb k "file" then x ← dec_string f v; Some (mkEntry ver x var st)
  else if String.eqb k "var" then x ← dec_string var v; Some (mkEntry ver f x st)
  else x ← dec_string st v; Some (mkEntry ver f var x).

Definition dec_entry : manifestEntry → json → option manifestEntry :=
  dec_struct false ["version"; "file"; "var"; "state"] set_entry.

Definition json_entry (e : manifestEntry) : json :=
  JObj ([("version", JStr (eVersion e)); ("file", JStr (eFile e)); ("var", JStr (eVar e))]
        ++ omitempty (negb (String.eqb (eState e) "")) "state" (JStr (eState e))).

Section commands.
Context `{Unicode}.
Context (fails : nat → bool).
Context (format : string → option string).

Definition loadManifest (dir : string) : IO (list manifestEntry) :=
  let path := path_join [dir; "manifest.json"] in
  raw ← read_file fails path;
  match raw with
  | None => mret []
  | Some raw =>
      match (v ← unmarshal raw; dec_slice dec_entry zero_entry [] v) with
      | Some entries => mret entries
      | None => fail (CannotParse path)
      end
  end.

Definition writeManifest (dir : string) (entries : list manifestEntry) : IO () :=
  write_file fails (path_join [dir; "manifest.json"])
    (print 0 (JArr (map json_entry entries)) +:+ newline).

Definition all_go (entries : list manifestEntry) : string :=
  "// Code generated by fabrin makemigrations. DO NOT EDIT." +:+ newline +:+
  "package migrations" +:+ newline +:+ newline +:+
  "import " +:+ dq +:+ "github.com/usefabrin/fabrin/migrate" +:+ dq +:+ newline +:+ newline +:+
  "// All is every migration this module declares, in version order. A module's" +:+ newline +:+
  "// Migrator returns this slice." +:+ newline +:+
  "var All = []migrate.M{" +:+ newline +:+
  Join (map (λ e, tab +:+ eVar e +:+ ",") entries) newline +:+ newline +:+
  "}" +:+ newline.

Definition writeAll (dir : string) (entries : list manifestEntry) : IO () :=
  write_file fails (path_join [dir; "all.go"]) (all_go entries).

(** ** The recorded chain *)

Record step := mkStepSrc { sVersion : string; sSrc : string }.

(** The versions of one manifest, against those seen in earlier ones. *)
Fixpoint note_entries (dir : string) (seen : gmap string string) (steps : list step)
    (entries : list manifestEntry) : result mm_error (gmap string string * list step) :=
  match entries with
  | [] => Ok (seen, steps)
  | e :: entries' =>
      match seen !! eVersion e with
      | Some prev => Err (SameVersion (eVersion e) prev dir)
      | None =>
          note_entries dir (<[eVersion e := dir]> seen)
            (steps ++ [mkStepSrc (eVersion e) (path_join [dir; eFile e])]) entries'
      end
  end.

Fixpoint load_manifests (names : list string) (seen : gmap string string) (steps : list step)
    (manifests : gmap string (list manifestEntry))
    : IO (list step * gmap string (list manifestEntry)) :=
  match names with
  | [] => mret (steps, manifests)
  | module :: names' =>
      let dir := path_join [module; "migrations"] in
      entries ← loadManifest dir;
      '(seen, steps) ← lift id (note_entries dir seen steps entries);
      load_manifests names' seen steps (<[module := entries]> manifests)
  end.

Definition step_leb (a b : step) : bool := str_leb (sVersion a) (sVersion b).

(** The state file listed for a version: the last entry that names one. *)
Definition state_path (names : list string) (manifests : gmap string (list manifestEntry))
    (version : string) : string :=
  foldl (λ path module,
    foldl (λ path e,
      if String.eqb (eVersion e) version && negb (String.eqb (eState e) "")
      then path_join [module; "migrations"; eState e] else path)
      path (default [] (manifests !! module))) "" names.

Definition load_step (names : list string) (manifests : gmap string (list manifestEntry))
    (s : step) : IO StateStep :=
  let path := state_path names manifests (sVersion s) in
  if String.eqb path "" then mret (mkStep (sVersion s) None)
  else
    raw ← read_file fails path;
    match raw with
    | None => fail (CannotRead path)
    | Some raw =>
        snap ← lift Recorded (ParseSnapshot raw path);
        mret (mkStep (sVersion s) (Some snap))
    end.

Fixpoint load_steps (names : list string) (manifests : gmap string (list manifestEntry))
    (steps : list step) : IO (list StateStep) :=
  match steps with
  | [] => mret []
  | s :: steps' =>
      x ← load_step names manifests s;
      xs ← load_steps names manifests steps';
      mret (x :: xs)
  end.

Definition replayRecordedState (names : list string)
    : IO (Snapshot * gmap string (list manifestEntry)) :=
  '(steps, manifests) ← load_manifests names ∅ [] ∅;
  chain ← load_steps names manifests (sort_by step_leb steps);
  replayed ← lift Recorded (ReplayState chain);
  mret (replayed, manifests).

(** ** Versions *)

(** The fields of a timestamp in the layout 20060102150405. *)
Record civil := mkCivil { year : Z; month : Z; day : Z; hour : Z; minute : Z; second : Z }.

Definition leap (y : Z) : bool := ((y mod 4 =? 0) && (negb (y mod 100 =? 0) || (y mod 400 =? 0)))%Z.
Definition days_in (y m : Z) : Z :=
  if (m =? 2)%Z then (if leap y then 29 else 28)%Z
  else if ((m =? 4) || (m =? 6) || (m =? 9) || (m =? 11))%Z then 30%Z else 31%Z.

Definition digit (c : ascii) : option Z := if is_digit c then Some (byte c - 48)%Z else None.
Fixpoint digits (n : nat) (acc : Z) (s : string) : option (Z * string) :=
  match n, s with
  | O, _ => Some (acc, s)
  | S n', String c s' => d ← digit c; digits n' (acc * 10 + d)%Z s'
  | S _, "" => None
  end.

(** A fraction of a second is accepted after the seconds even though the layout has
    none. *)
Definition skip_fraction (s : string) : string :=
  match s with
  | String c (String d s') =>
      if (Ascii.eqb c "." || Ascii.eqb c ",") && is_digit d then trim_left is_digit s' else s
  | _ => s
  end.

Definition parse_time (v : string) : option civil :=
  '(y, v) ← digits 4 0 v; '(mo, v) ← digits 2 0 v; '(d, v) ← digits 2 0 v;
  '(h, v) ← digits 2 0 v; '(mi, v) ← digits 2 0 v; '(s, v) ← digits 2 0 v;
  if ((1 <=? mo) && (mo <=? 12) && (1 <=? d) && (d <=? days_in y mo)
      && (h <? 24) && (mi <? 60) && (s <? 60))%Z && String.eqb (skip_fraction v) ""
  then Some (mkCivil y mo d h mi s) else None.

Definition padded (n : nat) (z : Z) : string :=
  let s := Itoa z in String.concat "" (replicate (n - String.length s) "0") +:+ s.

Definition format_time (t : civil) : string :=
  padded 4 (year t) +:+ padded 2 (month t) +:+ padded 2 (day t) +:+ padded 2 (hour t)
  +:+ padded 2 (minute t) +:+ padded 2 (second t).

(** [Add(time.Second)] on a civil time in UTC. *)
Definition add_second (t : civil) : civil :=
  let '(mkCivil y mo d h mi s) := t in
  if (s <? 59)%Z then mkCivil y mo d h mi (s + 1)
  else if (mi <? 59)%Z then mkCivil y mo d h (mi + 1) 0
  else if (h <? 23)%Z then mkCivil y mo d (h + 1) 0 0
  else if (d <? days_in y mo)%Z then mkCivil y mo (d + 1) 0 0 0
  else if (mo <? 12)%Z then mkCivil y (mo + 1) 1 0 0 0
  else mkCivil (y + 1) 1 1 0 0 0.

Definition bumpVersion (v : string) : string :=
  match parse_time v with
  | Some t => format_time (add_second t)
  | None => v
  end.

Definition highest_version (manifests : gmap string (list manifestEntry)) : string :=
  foldl (λ highest e, if str_ltb highest (eVersion e) then eVersion e else highest) ""
    (flat_map snd (map_to_list manifests)).

(** [now] is the clock's second in the layout of a version. *)
Definition nextVersion (now : string) (manifests : gmap string (list manifestEntry))
    : result mm_error string :=
  let highest := highest_version manifests in
  candidate ←
    (if str_leb now highest then
       match parse_time highest with
       | Some t => Ok (format_time (add_second t))
       | None => Err (NotTimestamp highest)
       end
     else Ok now);
  if str_leb candidate highest then Err (NoVersionAbove highest) else Ok candidate.

(** ** Names and sources *)

Fixpoint slug_runes (rs : list (Z * nat)) : string :=
  match rs with
  | [] => ""
  | (r, _) :: rs' =>
      if (((97 <=? r) && (r <=? 122)) || ((48 <=? r) && (r <=? 57)))%Z
      then encode_rune r +:+ slug_runes rs' else "_" +:+ slug_runes rs'
  end.

(** [strings.ReplaceAll(out, "__", "_")]. *)
Fixpoint replace_pairs (s : string) : string :=
  match s with
  | String a s1 =>
      match s1 with
      | String b s2 =>
          if Ascii.eqb a "_" && Ascii.eqb b "_" then String "_" (replace_pairs s2)
          else String a (replace_pairs s1)
      | "" => String a ""
      end
  | "" => ""
  end.

(** Every round that finds a pair shortens the text. *)
Fixpoint squeeze (fuel : nat) (s : string) : string :=
  match fuel with
  | O => s
  | S n => if Contains s "__" then squeeze n (replace_pairs s) else s
  end.

Definition migrationSlug (s : string) : string :=
  let raw := slug_runes (runes (ToLower s)) in
  Trim (squeeze (S (String.length raw)) raw) "_".

(** The parts of a slug are ASCII, so upper-casing the first byte is
    [strings.ToUpper]. *)
Definition slugIdent (slug : string) : string :=
  String.concat "" (map (λ p, match p with "" => "" | String c p' => String (upper_ascii c) p' end)
                        (SplitByte "_" slug)).

Definition q_lines (stmts : list string) : string :=
  Join (map (λ s, tab +:+ tab +:+ tab +:+ Quote s +:+ ",") stmts) newline.

Definition ln (s : string) : string := s +:+ newline.

Definition body_go (field : string) (stmts : list string) : string :=
  ln (tab +:+ field +:+ ": func(ctx context.Context, h migrate.Handle) error {") +:+
  ln (tab +:+ tab +:+ "for _, stmt := range []string{") +:+
  ln (q_lines stmts) +:+
  ln (tab +:+ tab +:+ "} {") +:+
  ln (tab +:+ tab +:+ tab +:+ "if _, err := h.ExecContext(ctx, stmt); err != nil {") +:+
  ln (tab +:+ tab +:+ tab +:+ tab +:+ "return err") +:+
  ln (tab +:+ tab +:+ tab +:+ "}") +:+
  ln (tab +:+ tab +:+ "}") +:+
  ln (tab +:+ tab +:+ "return nil") +:+
  ln (tab +:+ "},").

Definition migration_go (varName version name : string) (up down : list string) : string :=
  ln "// Code generated by fabrin makemigrations. Editing Up or Down by hand is" +:+
  ln "// expected; editing the recorded state is not — rerun makemigrations instead," +:+
  ln "// or the next diff will be taken against a state that never existed." +:+
  ln "package migrations" +:+ newline +:+
  ln "import (" +:+
  ln (tab +:+ dq +:+ "context" +:+ dq) +:+ newline +:+
  ln (tab +:+ dq +:+ "github.com/usefabrin/fabrin/migrate" +:+ dq) +:+
  ln ")" +:+ newline +:+
  ln ("var " +:+ varName +:+ " = migrate.M{") +:+
  ln (tab +:+ "Version: " +:+ Quote version +:+ ",") +:+
  ln (tab +:+ "Name:    " +:+ Quote name +:+ ",") +:+
  body_go "Up" up +:+ body_go "Down" down +:+
  ln "}".

Definition renderMigrationGo (varName version name : string) (up down : list string)
    : result mm_error string :=
  match format (migration_go varName version name up down) with
  | Some src => Ok src
  | None => Err (CannotFormat version)
  end.

Definition encodeSnapshotBytes (s : Snapshot) : result mm_error string :=
  match EncodeSnapshot s with Ok data => Ok data | Err e => Err (Recorded e) end.

Definition quoteSQLIdentifier (name : string) : string :=
  dq +:+ ReplaceByte quote_char (dq +:+ dq) name +:+ dq.

Definition rawInverse (op : Operation) : option string :=
  match op with
  | AddColumn t f =>
      Some ("ALTER TABLE " +:+ quoteSQLIdentifier t +:+ " DROP COLUMN "
            +:+ quoteSQLIdentifier (fName f) +:+ ";")
  | _ => None
  end.

(** The driver's package path and displayed type name. *)
Record driver := mkDriver { PkgPath : string; TypeString : string }.

Definition dialectFor (d : driver) : result mm_error Dialect :=
  let detected := PkgPath d +:+ "." +:+ TypeString d in
  if Contains detected "sqlite" then Ok SQLite.dialect
  else if Contains detected "pgx" || Contains detected "postgres" then Ok Postgres.dialect
  else Err (NoDialect detected).

(** ** The command *)

(** What it reads of the application. *)
Record App := mkApp {
  sliced : bool;
  catalog : list string;
  names : list string;
  live : list Registered;
  DB : option driver;
}.

(** One operation of a module: its statements, those of its inverse and its
    description. *)
Definition render_pair (dialect : Dialect) (before : Snapshot) (module : string) (op : Operation)
    : result mm_error (list string * list string * string) :=
  match Render dialect (Value op) with
  | Err e => Err (CannotGenerate module e)
  | Ok stmts =>
      match invert op before with
      | Err e => Err (CannotInvert module e)
      | Ok inv =>
          match Render dialect (Value inv) with
          | Ok down => Ok (stmts, down, Describe op)
          | Err e =>
              if is_unsupported e then
                match rawInverse op with
                | Some raw =>
                    Ok (stmts,
                        ["-- fabrin: emitted directly; the dialect refuses this operation when" +:+ newline
                         +:+ "-- rendered live (older SQLite needs the table-rebuild dance)." +:+ newline +:+ raw],
                        Describe op)
                | None => Err (CannotReverse module e)
                end
              else Err (CannotReverse module e)
          end
      end
  end.

(** One round of the loop over the changed modules. *)
Definition write_module (dialect : Dialect) (before after cumulative : Snapshot)
    (manifests : gmap string (list manifestEntry)) (version module : string) (moduleOps : list Operation)
    : IO (Snapshot * gmap string (list manifestEntry)) :=
  rendered ← lift id (map_result (render_pair dialect before module) moduleOps);
  let upStmts := flat_map (λ r, r.1.1) rendered in
  let downStmts := flat_map (λ r, r.1.2) (rev rendered) in
  let describe := map snd rendered in
  let name := migrationSlug (Join describe " ") in
  let base := version +:+ "_" +:+ name in
  let dir := path_join [module; "migrations"] in
  let varName := "M" +:+ version +:+ "_" +:+ slugIdent name in
  cumulative ← lift (CumulativeState module) (snapshotAfterOperations cumulative after moduleOps);
  stateBytes ← lift id (encodeSnapshotBytes cumulative);
  goSrc ← lift id (renderMigrationGo varName version (Join describe "; ") upStmts downStmts);
  _ ← mkdir_all fails dir;
  let migPath := path_join [dir; base +:+ ".go"] in
  _ ← write_file fails migPath goSrc;
  let statePath := path_join [dir; base +:+ ".state.json"] in
  _ ← write_file fails statePath stateBytes;
  let entries := default [] (manifests !! module)
                 ++ [mkEntry version (base +:+ ".go") varName (base +:+ ".state.json")] in
  _ ← writeManifest dir entries;
  _ ← writeAll dir entries;
  _ ← print_line fails ("wrote " +:+ migPath);
  _ ← print_line fails ("wrote " +:+ statePath);
  _ ← print_line fails (version +:+ ": " +:+ Join describe "; ");
  mret (cumulative, <[module := entries]> manifests).

Fixpoint write_modules (dialect : Dialect) (before after cumulative : Snapshot)
    (manifests : gmap string (list manifestEntry)) (version : string) (ops : string → list Operation)
    (order : list string) : IO () :=
  match order with
  | [] => mret ()
  | module :: order' =>
      '(cumulative, manifests) ←
        write_module dialect before after cumulative manifests version module (ops module);
      write_modules dialect before after cumulative manifests (bumpVersion version) ops order'
  end.

Definition runMakemigrations (a : App) (now input : string) (interactive : bool) : IO () :=
  if sliced a then fail (Sliced (catalog a) (names a))
  else
    match DB a with
    | None => fail NoDatabase
    | Some d =>
        dialect ← lift id (dialectFor d);
        '(before, manifests) ← replayRecordedState (names a);
        after ← lift Declared (NewSnapshot (live a));
        match resolveRenames (Diff before after) before after input interactive with
        | None => fail NoAnswer
        | Some r =>
            ops ← lift Rename r;
            match ops with
            | [] => print_line fails "no changes detected in any module's models"
            | _ =>
                let owner t := ownerOf (live a) t before in
                version ← lift id (nextVersion now manifests);
                write_modules dialect before after before manifests version
                  (module_ops owner ops) (module_order owner ops)
            end
        end
    end.

(** The command's [Run] closure; [terminal] is whether standard input is one. *)
Definition makemigrationsCommand (a : App) (noInput terminal : bool) (args : list string)
    (now input : string) : IO () :=
  if negb (length args =? 0)%nat then fail NoPositionalArguments
  else runMakemigrations a now input (negb noInput && terminal).
End commands.
