(* ===== verification/AuthCore.v ===== *)
(** * Authentication: values, credentials and challenges

    [auth/auth.go], [auth/challenge.go] and the value types of [auth/session.go]
    and [auth/browser.go]: errors and what [errors.Is] sees of them, the records
    that cross the store interface, base64url credentials, canonical addresses,
    the HMAC verifier of a code and the private challenge state machine.

    Instants are nanoseconds since the Unix epoch in [Z]; a context is the
    sequence of answers its [Err] method gives; entropy is the sequence of what
    [crypto/rand] delivers, each read of which may fail. *)

From S2P Require Import Prelude GoStrings Sha256.

#[local] Open Scope Z_scope.

(** ** Errors and contexts *)

Inductive sentinel :=
| ErrAuthentication | ErrRateLimited | ErrUnavailable | ErrDelivery | ErrUnsafeProduction
| ErrSession | ErrPreAuth | Canceled | DeadlineExceeded.

#[global] Instance sentinel_eq_dec : EqDecision sentinel.
Proof. solve_decision. Defined.

(** An error value: one of the sentinels, one made by [errors.New] or without
    [%w], or another error wrapped with a message. *)
Inductive error :=
| Sentinel (s : sentinel)
| NewError (msg : string)
| Wrapped (msg : string) (e : error).

#[global] Instance error_eq_dec : EqDecision error.
Proof. solve_decision. Defined.

Fixpoint errors_Is (e : error) (s : sentinel) : bool :=
  match e with
  | Sentinel s' => bool_decide (s' = s)
  | NewError _ => false
  | Wrapped _ e' => errors_Is e' s
  end.

(** What the [n]th call of [ctx.Err()] answers. *)
Definition Context := nat → option error.
Definition Background : Context := λ _, None.
Definition polled (ctx : Context) : Context := λ n, ctx (S n).

(** ** Time *)

Abbreviation Time := Z (only parsing).
Abbreviation Duration := Z (only parsing).
Definition Second : Duration := 1000000000.
Definition Minute : Duration := 60 * Second.
Definition Hour : Duration := 60 * Minute.

(** The zero [time.Time] is the first instant of the year 1. *)
Definition zero_time : Time := -62135596800 * Second.
(** [t.Sub(u)] saturates at the range of an [int64]. *)
Definition Sub (t u : Time) : Duration :=
  Z.max (- 2 ^ 63) (Z.min (2 ^ 63 - 1) (t - u)).
Definition Before (t u : Time) : bool := t <? u.
Definition After (t u : Time) : bool := u <? t.

(** ** Entropy *)

(** What the [i]th read of [crypto/rand] delivers: an error, or a stream whose
    prefix of the size asked for is returned. *)
Definition Entropy := nat → option (nat → Z).

Definition rand_Read (e : Entropy) (i : nat) (size : nat) : result error bytes :=
  match e i with
  | Some f => Ok (map (λ j, f j mod 256) (seq 0 size))
  | None => Err (NewError "entropy source failed")
  end.

(** [rand.Int(rand.Reader, max)]. *)
Definition rand_Int (e : Entropy) (i : nat) (max : Z) : result error Z :=
  match e i with
  | Some f => Ok (f 0%nat mod max)
  | None => Err (NewError "entropy source failed")
  end.

Lemma rand_Read_length e i n b : rand_Read e i n = Ok b → length b = n.
Proof. unfold rand_Read. destruct (e i); intros [= <-]. by rewrite length_map, length_seq. Qed.

Definition is_byte (z : Z) : Prop := 0 <= z < 256.

Lemma rand_Read_bytes e i n b : rand_Read e i n = Ok b → Forall is_byte b.
Proof.
  unfold rand_Read. destruct (e i) as [f|]; intros [= <-].
  apply Forall_forall. intros x (j & -> & _)%list_elem_of_fmap.
  apply Z.mod_pos_bound. lia.
Qed.

Definition randomHex (e : Entropy) (i : nat) (size : nat) : result error string :=
  value ← rand_Read e i size; Ok (hex_encode value).

(** ** Base64 for URLs, without padding *)

Definition base64_char (v : Z) : ascii :=
  if v <? 26 then of_byte (65 + v)
  else if v <? 52 then of_byte (97 + (v - 26))
  else if v <? 62 then of_byte (48 + (v - 52))
  else if v =? 62 then "-" else "_".

Definition base64_value (c : ascii) : option Z :=
  if is_upper c then Some (byte c - 65)
  else if is_lower c then Some (byte c - 97 + 26)
  else if is_digit c then Some (byte c - 48 + 52)
  else if Ascii.eqb c "-" then Some 62
  else if Ascii.eqb c "_" then Some 63
  else None.

(** [base64.RawURLEncoding.EncodeToString]. *)
Fixpoint EncodeToString (b : bytes) : string :=
  match b with
  | [] => ""
  | [x] => String (base64_char (Z.shiftr x 2))
             (String (base64_char (Z.shiftl (Z.land x 3) 4)) "")
  | [x; y] => String (base64_char (Z.shiftr x 2))
                (String (base64_char (Z.lor (Z.shiftl (Z.land x 3) 4) (Z.shiftr y 4)))
                   (String (base64_char (Z.shiftl (Z.land y 15) 2)) ""))
  | x :: y :: z :: b' =>
      String (base64_char (Z.shiftr x 2))
        (String (base64_char (Z.lor (Z.shiftl (Z.land x 3) 4) (Z.shiftr y 4)))
           (String (base64_char (Z.lor (Z.shiftl (Z.land y 15) 2) (Z.shiftr z 6)))
              (String (base64_char (Z.land z 63)) (EncodeToString b'))))
  end.

(** The six-bit values of the text; carriage returns and line feeds are skipped. *)
Fixpoint base64_values (s : string) : option (list Z) :=
  match s with
  | "" => Some []
  | String c s' =>
      if Ascii.eqb c "010" || Ascii.eqb c "013" then base64_values s'
      else v ← base64_value c; vs ← base64_values s'; Some (v :: vs)
  end.

(** Quanta of four values; the bits that do not fill a byte are not looked at. *)
Fixpoint base64_bytes (vs : list Z) : option bytes :=
  match vs with
  | [] => Some []
  | [_] => None
  | [a; b] => Some [Z.lor (Z.shiftl a 2) (Z.shiftr b 4)]
  | [a; b; c] => Some [Z.lor (Z.shiftl a 2) (Z.shiftr b 4);
                       Z.lor (Z.shiftl (Z.land b 15) 4) (Z.shiftr c 2)]
  | a :: b :: c :: d :: vs' =>
      rest ← base64_bytes vs';
      Some (Z.lor (Z.shiftl a 2) (Z.shiftr b 4)
            :: Z.lor (Z.shiftl (Z.land b 15) 4) (Z.shiftr c 2)
            :: Z.lor (Z.shiftl (Z.land c 3) 6) d :: rest)
  end.

(** [base64.RawURLEncoding.DecodeString]; [None] is a [CorruptInputError]. *)
Definition DecodeString (s : string) : option bytes := base64_values s ≫= base64_bytes.

Definition randomEncoded (e : Entropy) (i : nat) (size : nat) : result error string :=
  value ← rand_Read e i size; Ok (EncodeToString value).

(** ** Values that cross the interfaces *)

Definition Digest := bytes.
Definition zero_digest : Digest := replicate 32 0.
(** [hmac.Equal], and [==] on [[32]byte]. *)
Definition digest_eqb (a b : Digest) : bool := bool_decide (a = b).

Definition Purpose := string.
Definition PurposeBrowser : Purpose := "browser".
Definition PurposeNative : Purpose := "native".

Record Identity := { identity_ID : string; identity_Email : string; identity_CreatedAt : Time }.
Definition no_identity : Identity :=
  {| identity_ID := ""; identity_Email := ""; identity_CreatedAt := zero_time |}.

(** Durable identity input after an ephemeral store proved mailbox possession. *)
Record IdentityResolution := {
  resolution_Email : string; resolution_ProposedID : string; resolution_VerifiedAt : Time;
}.

Record Challenge := { challenge_ID : string; challenge_ExpiresAt : Time }.

Record Reservation := {
  reservation_ID : string; reservation_Email : string; reservation_KeyID : string;
  reservation_Purpose : Purpose;
  reservation_Verifier : Digest; reservation_Binding : Digest;
  reservation_IssuedAt : Time; reservation_ExpiresAt : Time;
  reservation_Source : string;
}.

Record SessionRecord := {
  session_ID : string; session_IdentityID : string;
  session_Digest : Digest; session_CSRFDigest : Digest;
  session_CreatedAt : Time; session_LastSeenAt : Time; session_ExpiresAt : Time;
}.

Record Verification := {
  attempt_ID : string; attempt_Email : string; attempt_KeyID : string;
  attempt_Purpose : Purpose;
  attempt_Verifier : Digest; attempt_Binding : Digest;
  attempt_Now : Time; attempt_Source : string;
  attempt_IdentityID : string; attempt_Session : SessionRecord;
}.

Record Session := { Credential : string; CSRFToken : string; session_expiry : Time }.
Record Authentication := { authenticated : Identity; issued_session : Session }.

Record SessionProof := {
  proof_ID : string; proof_Digest : Digest; proof_CSRFDigest : Digest; proof_Now : Time;
}.

Record PreAuth := { pre_Credential : string; pre_CSRFToken : string; pre_ExpiresAt : Time }.
Record PreAuthRecord := {
  pre_ID : string; pre_Source : string; pre_Digest : Digest; pre_CSRFDigest : Digest;
  pre_IssuedAt : Time; pre_record_ExpiresAt : Time;
}.
Record PreAuthProof := {
  pproof_ID : string; pproof_Digest : Digest; pproof_CSRFDigest : Digest; pproof_Now : Time;
}.

Record Message := { To : string; Subject : string; Text : string }.

(** ** Canonical addresses *)

(** [net/mail]'s [isAtext] with dots allowed, on the printable ASCII characters
    [canonicalEmail] lets through. *)
Definition isAtext (c : ascii) : bool :=
  in_range 33 126 c && negb (contains_byte c ("()<>[]:;@\," +:+ dq)).
Definition isDtext (c : ascii) : bool :=
  in_range 33 126 c && negb (contains_byte c "[]\").

Fixpoint span (p : ascii → bool) (s : string) : string * string :=
  match s with
  | String c s' => if p c then let '(a, b) := span p s' in (String c a, b) else ("", s)
  | "" => ("", "")
  end.

(** [consumeAtom(true, false)]: the atom and what follows it. *)
Definition consumeAtom (s : string) : option (string * string) :=
  let '(atom, rest) := span isAtext s in
  if String.eqb atom "" || HasPrefix atom "." || Contains atom ".." || HasSuffix atom "."
  then None else Some (atom, rest).

(** [net.ParseIP] on a text without a zone: dotted decimal, or hexadecimal
    groups with at most one [::] and an optional dotted-decimal tail. *)
Definition ipv4_field (s : string) : bool :=
  negb (String.eqb s "") && string_forall is_digit s
  && (String.eqb s "0" || negb (HasPrefix s "0"))
  && (len s <=? 3) && match Atoi s with Some z => z <=? 255 | None => false end.
Definition parseIPv4 (s : string) : bool :=
  let fields := SplitByte "." s in
  (length fields =? 4)%nat && forallb ipv4_field fields.

Definition is_hex_any (c : ascii) : bool := is_digit c || in_range 97 102 c || in_range 65 70 c.

Fixpoint parse_groups (groups : nat) (i : nat) (ellipsis : bool) (s : string) : bool :=
  let finish i ellipsis := if (i <? 16)%nat then ellipsis else negb ellipsis in
  match groups with
  | O => false
  | S groups' =>
      let '(digits, rest) := span is_hex_any s in
      let off := String.length digits in
      if (off =? 0)%nat || (4 <? off)%nat then false
      else if HasPrefix rest "." then
        (ellipsis || (i =? 12)%nat) && (i + 4 <=? 16)%nat && parseIPv4 s && finish (i + 4)%nat ellipsis
      else match rest with
           | "" => finish (i + 2)%nat ellipsis
           | String ":" "" => false
           | String ":" (String ":" rest') =>
               negb ellipsis &&
               (if String.eqb rest' "" then finish (i + 2)%nat true
                else parse_groups groups' (i + 2)%nat true rest')
           | String ":" rest' => parse_groups groups' (i + 2)%nat ellipsis rest'
           | _ => false
           end
  end.
Definition parseIPv6 (s : string) : bool :=
  if HasPrefix s "::" then
    String.eqb (drop_bytes 2 s) "" || parse_groups 8 0 true (drop_bytes 2 s)
  else parse_groups 8 0 false s.
Definition ParseIP (s : string) : bool :=
  let '(_, rest) := span (λ c, negb (contains_byte c ".:%")) s in
  if HasPrefix rest "." then parseIPv4 s else if HasPrefix rest ":" then parseIPv6 s else false.

(** [consumeDomainLiteral]. *)
Definition consumeDomainLiteral (s : string) : option (string * string) :=
  match s with
  | String "[" s' =>
      match span isDtext s' with
      | (dtext, String "]" rest) =>
          if ParseIP dtext then Some ("[" +:+ dtext +:+ "]", rest) else None
      | _ => None
      end
  | _ => None
  end.

(** [mail.ParseAddress] on a text of visible ASCII characters, as far as
    [canonicalEmail] can tell its answers apart: a bare [addr-spec] that spans the
    whole text, whose [Name] is empty and whose [Address] is the text.  Every
    other form (an angle address, a display name, a comment, a group, a quoted
    local part) yields an error, a name or an address shorter than the text. *)
Definition ParseAddress (s : string) : option (string * string) :=
  '(local, rest) ← consumeAtom s;
  match rest with
  | String "@" rest' =>
      '(domain, rest'') ←
        (if HasPrefix rest' "[" then consumeDomainLiteral rest' else consumeAtom rest');
      if String.eqb rest'' "" then Some ("", local +:+ "@" +:+ domain) else None
  | _ => None
  end.

Fixpoint LastIndexByte (s : string) (c : ascii) : Z :=
  match s with
  | "" => -1
  | String x s' =>
      let i := LastIndexByte s' c in
      if 0 <=? i then i + 1 else if Ascii.eqb x c then 0 else -1
  end.

(** The value is ASCII when [strings.ToLower] is reached. *)
Definition canonicalEmail (value : string) : result error string :=
  let invalid := Err (NewError "auth: invalid email address") in
  if (len value =? 0) || (254 <? len value) then invalid
  else if existsb (λ '(r, _), (r <=? 32) || (127 <=? r)) (runes value) then invalid
  else match ParseAddress value with
       | None => invalid
       | Some (name, address) =>
           if negb (String.eqb name "") || negb (String.eqb address value) then invalid
           else
             let at' := LastIndexByte value "@" in
             if (at' <=? 0) || (at' =? len value - 1) then invalid
             else Ok (take_bytes (Z.to_nat (at' + 1)) value
                      +:+ string_map lower_ascii (drop_bytes (Z.to_nat (at' + 1)) value))
       end.

(** ** The verifier of a code *)

(** What [verifier] writes to the HMAC: each field after its 8-byte length. *)
Fixpoint frame (fields : list string) : bytes :=
  match fields with
  | [] => []
  | f :: fields' => be_bytes 8 (len f) ++ to_bytes f ++ frame fields'
  end.

Definition verifier (key : bytes) (fields : list string) : Digest :=
  hmac_sha256 key (frame fields).

(** ** The private challenge *)

Record challenge := {
  id : string; email : string; digest : Digest;
  issued : Time; expires : Time; attempts : Z; spent : bool;
}.

(** The [n] low decimal digits of [z]; [fmt.Sprintf("%08d", z)] is eight of them
    for [0 <= z < 10^8], the range the code is drawn from. *)
Fixpoint dec_fixed (n : nat) (z : Z) : string :=
  match n with
  | O => ""
  | S n' => dec_fixed n' (z / 10) +:+ String (of_byte (48 + z mod 10)) ""
  end.
Definition sprintf_08d (n : Z) : string := dec_fixed 8 n.

(** Reads number [i] and [i + 1] of the entropy source. *)
Definition newChallenge (e : Entropy) (i : nat) (key : bytes) (email purpose : string) (now : Time)
    : result error (challenge * string) :=
  if (Z.of_nat (length key) <? 32)
     || (negb (String.eqb purpose "native") && negb (String.eqb purpose "browser"))
  then Err (NewError "auth: invalid challenge configuration")
  else
    canonical ← canonicalEmail email;
    match rand_Read e i 32 with
    | Err err => Err (Wrapped "auth: generate challenge ID" err)
    | Ok idb =>
        match rand_Int e (S i) 100000000 with
        | Err err => Err (Wrapped "auth: generate code" err)
        | Ok n =>
            let code := sprintf_08d n in
            let cid := hex_encode idb in
            Ok ({| id := cid; email := canonical;
                   digest := verifier key [purpose; cid; canonical; code];
                   issued := now; expires := now + 5 * Minute; attempts := 5; spent := false |},
                code)
        end
    end.

(** [consume] under the challenge's lock: the answer and the state it leaves. *)
Definition consume (c : challenge) (key : bytes) (purpose cid mailbox code : string) (now : Time)
    : bool * challenge :=
  if spent c || (attempts c <=? 0) || Before now (issued c) || negb (Before now (expires c))
  then (false, c)
  else
    let c := {| id := id c; email := email c; digest := digest c; issued := issued c;
                expires := expires c; attempts := attempts c - 1; spent := spent c |} in
    if (Z.of_nat (length key) <? 32) || negb (len code =? 8) then (false, c)
    else if existsb (λ '(r, _), (r <? 48) || (57 <? r)) (runes code) then (false, c)
    else
      let candidate := verifier key [purpose; cid; mailbox; code] in
      if negb (digest_eqb candidate (digest c)) then (false, c)
      else (true, {| id := id c; email := email c; digest := digest c; issued := issued c;
                     expires := expires c; attempts := attempts c; spent := true |}).

(** ** Bindings and credentials *)

Record challengeSettings := { binding : Digest; valid : bool }.

(** [WithBinding value] applied to the settings. *)
Definition WithBinding (value : string) (settings : challengeSettings) : challengeSettings :=
  if String.eqb value "" || (256 <? len value)
  then {| binding := binding settings; valid := false |}
  else {| binding := Sum256 (to_bytes value); valid := valid settings |}.

(** An option is [None] when the caller passed [nil]. *)
Fixpoint apply_options (options : list (option (challengeSettings → challengeSettings)))
    (settings : challengeSettings) : result error challengeSettings :=
  match options with
  | [] => Ok settings
  | None :: _ => Err (Sentinel ErrAuthentication)
  | Some option :: options' => apply_options options' (option settings)
  end.
Definition challengeBinding (options : list (option (challengeSettings → challengeSettings)))
    : result error Digest :=
  settings ← apply_options options {| binding := zero_digest; valid := true |};
  if negb (valid settings) then Err (Sentinel ErrAuthentication) else Ok (binding settings).

Definition validKeyID (value : string) : bool :=
  negb ((len value =? 0) || (64 <? len value))
  && forallb (λ '(r, _),
       negb (((r <? 97) || (122 <? r)) && ((r <? 65) || (90 <? r)) && ((r <? 48) || (57 <? r))
             && negb (r =? 45) && negb (r =? 95) && negb (r =? 46))) (runes value).

Definition sessionAbsoluteTTL : Duration := 7 * 24 * Hour.
Definition sessionIdleTTL : Duration := 24 * Hour.
Definition preAuthTTL : Duration := 10 * Minute.

(** Reads [i] to [i + 2] of the entropy source. *)
Definition newSession (e : Entropy) (i : nat) (now : Time) : result error (Session * SessionRecord) :=
  idb ← rand_Read e i 32;
  secret ← rand_Read e (S i) 32;
  csrf ← rand_Read e (S (S i)) 32;
  let encodedID := EncodeToString idb in
  let encodedSecret := EncodeToString secret in
  let encodedCSRF := EncodeToString csrf in
  let expires := now + sessionAbsoluteTTL in
  Ok ({| Credential := encodedID +:+ "." +:+ encodedSecret; CSRFToken := encodedCSRF;
         session_expiry := expires |},
      {| session_ID := encodedID; session_IdentityID := "";
         session_Digest := Sum256 secret; session_CSRFDigest := Sum256 csrf;
         session_CreatedAt := now; session_LastSeenAt := now; session_ExpiresAt := expires |}).

Fixpoint CountByte (s : string) (c : ascii) : Z :=
  match s with
  | "" => 0
  | String x s' => (if Ascii.eqb x c then 1 else 0) + CountByte s' c
  end.

Definition decode_32 (s : string) : option bytes :=
  b ← DecodeString s; if (length b =? 32)%nat then Some b else None.

Definition sessionProof (credential : string) (now : Time) : result error SessionProof :=
  if negb (len credential =? 87) || negb (CountByte credential "." =? 1)
  then Err (Sentinel ErrSession)
  else
    let '(cid, encodedSecret) := default (credential, "") (CutByte "." credential) in
    match decode_32 cid with
    | None => Err (Sentinel ErrSession)
    | Some _ =>
        match decode_32 encodedSecret with
        | None => Err (Sentinel ErrSession)
        | Some secret => Ok {| proof_ID := cid; proof_Digest := Sum256 secret;
                               proof_CSRFDigest := zero_digest; proof_Now := now |}
        end
    end.

Definition sessionCSRFProof (credential csrf : string) (now : Time) : result error SessionProof :=
  proof ← sessionProof credential now;
  match DecodeString csrf with
  | Some value =>
      if negb (len csrf =? 43) || negb (length value =? 32)%nat then Err (Sentinel ErrSession)
      else Ok {| proof_ID := proof_ID proof; proof_Digest := proof_Digest proof;
                 proof_CSRFDigest := Sum256 value; proof_Now := proof_Now proof |}
  | None => Err (Sentinel ErrSession)
  end.

Definition preAuthProof (credential csrf : string) (now : Time) : result error PreAuthProof :=
  proof ← sessionProof credential now;
  match DecodeString csrf with
  | Some csrfBytes =>
      if negb (length csrfBytes =? 32)%nat || negb (len csrf =? 43) then Err (Sentinel ErrPreAuth)
      else Ok {| pproof_ID := proof_ID proof; pproof_Digest := proof_Digest proof;
                 pproof_CSRFDigest := Sum256 csrfBytes; pproof_Now := now |}
  | None => Err (Sentinel ErrPreAuth)
  end.

(** ** What managers report of a store's errors *)

Definition storeError (err : error) : error :=
  if errors_Is err ErrAuthentication || errors_Is err ErrRateLimited
     || errors_Is err Canceled || errors_Is err DeadlineExceeded
  then err else Sentinel ErrUnavailable.

Definition sessionStoreError (err : option error) : option error :=
  match err with
  | None => None
  | Some e => if errors_Is e ErrSession || errors_Is e Canceled || errors_Is e DeadlineExceeded
              then Some e else Some (Sentinel ErrUnavailable)
  end.

Definition preAuthError (err : option error) : option error :=
  match err with
  | None => None
  | Some e => if errors_Is e ErrPreAuth || errors_Is e ErrRateLimited
                 || errors_Is e Canceled || errors_Is e DeadlineExceeded
              then Some e else Some (Sentinel ErrUnavailable)
  end.
