(* ===== verification/AuthCoreSpec.v ===== *)
(** * Credentials, verifiers and the private challenge: correctness

    Base64url credentials survive their round trip, the bytes an HMAC verifier
    covers determine the fields it covers, and the private challenge accepts one
    correct code, once, within its five attempts and five minutes. *)

From S2P Require Import Prelude GoStrings Sha256 AuthCore.

#[local] Open Scope Z_scope.

(** ** Finite checks *)

Lemma Z_forall_below (n : nat) (P : Z → bool) :
  forallb P (map Z.of_nat (seq 0 n)) = true → ∀ z, 0 <= z < Z.of_nat n → P z = true.
Proof.
  intros H z Hz. rewrite forallb_forall in H. apply H. apply in_map_iff.
  exists (Z.to_nat z). split; [lia|]. apply in_seq. lia.
Qed.

(** ** Base64 *)

Definition plain_base64 (v : Z) : bool :=
  let c := base64_char v in
  bool_decide (base64_value c = Some v)
  && negb (Ascii.eqb c "010") && negb (Ascii.eqb c "013") && negb (Ascii.eqb c ".").

Lemma base64_char_plain v : 0 <= v < 64 → plain_base64 v = true.
Proof. apply (Z_forall_below 64). vm_compute. done. Qed.

Lemma base64_values_char v s :
  0 <= v < 64 →
  base64_values (String (base64_char v) s) = (vs ← base64_values s; Some (v :: vs)).
Proof.
  intros Hv. pose proof (base64_char_plain v Hv) as H. unfold plain_base64 in H. boolify.
  cbn [base64_values].
  destruct H as [[[Hv' ->] ->] _]. cbn [orb]. by rewrite Hv'.
Qed.

Lemma testbit_byte x n : is_byte x → 8 <= n → Z.testbit x n = false.
Proof.
  intros [H0 H] Hn. destruct (Z.eq_dec x 0) as [->|]; [apply Z.testbit_0_l|].
  apply Z.bits_above_log2; [done|].
  apply Z.lt_le_trans with 8; [|done]. apply Z.log2_lt_pow2; [lia|]. done.
Qed.

(** Equalities between bytes assembled from the bits of other bytes: compare the
    eight low bits one by one and discard the others. *)
Ltac bit_specs :=
  repeat first
    [ rewrite Z.lor_spec | rewrite Z.land_spec
    | rewrite Z.shiftr_spec by lia | rewrite Z.shiftl_spec by lia ].
Ltac bit_indices :=
  repeat match goal with
  | |- context [Z.testbit (Zpos ?p) ?n] =>
      let v := eval vm_compute in (Z.testbit (Zpos p) n) in
      first [constr_eq v true | constr_eq v false]; change (Z.testbit (Zpos p) n) with v
  | |- context [Z.testbit ?a ?n] =>
      let v := eval vm_compute in n in
      lazymatch v with Z0 => idtac | Zpos _ => idtac | Zneg _ => idtac end;
      progress change (Z.testbit a n) with (Z.testbit a v)
  end.
Ltac high_bits :=
  repeat match goal with
  | |- context [Z.testbit ?a ?n] =>
      first [ rewrite (Z.testbit_neg_r a n) by lia
            | rewrite (testbit_byte a n) by (first [done | lia])
            | lazymatch a with Zpos _ => rewrite (Z.bits_above_log2 a n) by (cbn; lia) end ]
  end; rewrite ?andb_false_r; cbn [andb orb].
Ltac bit_equation :=
  let n := fresh "n" in let Hn := fresh "Hn" in
  apply Z.bits_inj'; intros n Hn; bit_specs;
  let Hc := fresh in
  assert (Hc : n = 0 ∨ n = 1 ∨ n = 2 ∨ n = 3 ∨ n = 4 ∨ n = 5 ∨ n = 6 ∨ n = 7 ∨ 8 <= n) by lia;
  destruct_or! Hc; subst;
  do 2 (bit_specs; bit_indices; high_bits);
  rewrite ?andb_true_r, ?andb_false_r, ?orb_false_r, ?orb_diag; try done.

Lemma base64_first x y :
  is_byte x → is_byte y →
  Z.lor (Z.shiftl (Z.shiftr x 2) 2)
    (Z.shiftr (Z.lor (Z.shiftl (Z.land x 3) 4) (Z.shiftr y 4)) 4) = x.
Proof. intros. bit_equation. Qed.

Lemma base64_second x y z :
  is_byte x → is_byte y → is_byte z →
  Z.lor (Z.shiftl (Z.land (Z.lor (Z.shiftl (Z.land x 3) 4) (Z.shiftr y 4)) 15) 4)
    (Z.shiftr (Z.lor (Z.shiftl (Z.land y 15) 2) (Z.shiftr z 6)) 2) = y.
Proof. intros. bit_equation. Qed.

Lemma base64_third y z :
  is_byte y → is_byte z →
  Z.lor (Z.shiftl (Z.land (Z.lor (Z.shiftl (Z.land y 15) 2) (Z.shiftr z 6)) 3) 6) (Z.land z 63) = z.
Proof. intros. bit_equation. Qed.

Lemma base64_first_last x :
  is_byte x →
  Z.lor (Z.shiftl (Z.shiftr x 2) 2) (Z.shiftr (Z.shiftl (Z.land x 3) 4) 4) = x.
Proof. intros. bit_equation. Qed.

Lemma base64_second_last x y :
  is_byte x → is_byte y →
  Z.lor (Z.shiftl (Z.land (Z.lor (Z.shiftl (Z.land x 3) 4) (Z.shiftr y 4)) 15) 4)
    (Z.shiftr (Z.shiftl (Z.land y 15) 2) 2) = y.
Proof. intros. bit_equation. Qed.

(** Every value handed to [base64_char] has six bits. *)
Lemma six_bits v : (∀ n, 6 <= n → Z.testbit v n = false) → 0 <= v → 0 <= v < 64.
Proof.
  intros H Hv. split; [done|]. destruct (Z.eq_dec v 0) as [->|]; [done|].
  destruct (Z.lt_ge_cases v 64) as [|Hge]; [done|].
  assert (Hl : 6 <= Z.log2 v) by (apply Z.log2_le_pow2; lia).
  pose proof (H _ Hl) as H'. rewrite Z.bit_log2 in H' by lia. done.
Qed.

Ltac six_bit :=
  apply six_bits;
  [ let n := fresh "n" in let Hn := fresh "Hn" in intros n Hn; bit_specs; high_bits;
    done
  | repeat first [apply Z.lor_nonneg; split | apply Z.shiftl_nonneg | apply Z.shiftr_nonneg
                 | apply Z.land_nonneg; right | lia]; unfold is_byte in *; lia ].

Lemma DecodeString_Encode b : Forall is_byte b → DecodeString (EncodeToString b) = Some b.
Proof.
  assert (Hind : ∀ n b, (length b <= n)%nat → Forall is_byte b →
            ∃ vs, base64_values (EncodeToString b) = Some vs ∧ base64_bytes vs = Some b).
  { clear. induction n as [|n IH]; intros b Hn Hb; [destruct b; [by exists []|cbn in *; lia]|].
    destruct b as [|x [|y [|z b]]]; [by exists []| | |]; cbn [EncodeToString];
      repeat (apply Forall_cons in Hb as [? Hb]).
    - rewrite !base64_values_char by six_bit. cbn [base64_values mbind option_bind].
      eexists; split; [done|]. cbn [base64_bytes]. by rewrite base64_first_last.
    - rewrite !base64_values_char by six_bit. cbn [base64_values mbind option_bind].
      eexists; split; [done|]. cbn [base64_bytes]. by rewrite base64_first, base64_second_last.
    - destruct (IH b) as (vs & Hvs & Hbs); [cbn in *; lia|done|].
      rewrite !base64_values_char by six_bit. rewrite Hvs. cbn [mbind option_bind].
      eexists; split; [done|]. cbn [base64_bytes]. rewrite Hbs. cbn [mbind option_bind].
      by rewrite base64_first, base64_second, base64_third. }
  intros Hb. destruct (Hind (length b) b) as (vs & Hvs & Hbs); [done|done|].
  unfold DecodeString. by rewrite Hvs.
Qed.

Definition dot_free (s : string) : bool := string_forall (λ c, negb (Ascii.eqb c ".")) s.

Lemma base64_char_dot v : 0 <= v < 64 → negb (Ascii.eqb (base64_char v) ".") = true.
Proof. intros Hv. pose proof (base64_char_plain v Hv) as H. unfold plain_base64 in H. boolify. by destruct H as [_ ->]. Qed.

(** Encoded text is dot free, and 32 bytes are 43 characters. *)
Lemma EncodeToString_shape b :
  Forall is_byte b →
  dot_free (EncodeToString b) = true
  ∧ len (EncodeToString b) = (8 * Z.of_nat (length b) + 5) / 6.
Proof.
  assert (Hind : ∀ n b, (length b <= n)%nat → Forall is_byte b →
    dot_free (EncodeToString b) = true ∧ len (EncodeToString b) = (8 * Z.of_nat (length b) + 5) / 6).
  { clear. induction n as [|n IH]; intros b Hn Hb; [destruct b; [done|cbn in *; lia]|].
    unfold dot_free, len in *.
    destruct b as [|x [|y [|z b]]]; [done| | |]; cbn [EncodeToString];
      repeat (apply Forall_cons in Hb as [? Hb]); cbn [string_forall String.length length];
      rewrite !base64_char_dot by six_bit; try done.
    destruct (IH b) as [Hd Hl]; [cbn in *; lia|done|]. split; [done|].
    replace (8 * Z.of_nat (S (S (S (length b)))) + 5) with (4 * 6 + (8 * Z.of_nat (length b) + 5)) by lia.
    rewrite Z.div_add_l by lia. lia. }
  intros Hb. by apply (Hind (length b)).
Qed.

Lemma EncodeToString_32 b :
  Forall is_byte b → length b = 32%nat →
  dot_free (EncodeToString b) = true ∧ len (EncodeToString b) = 43
  ∧ decode_32 (EncodeToString b) = Some b.
Proof.
  intros Hb Hl. destruct (EncodeToString_shape b Hb) as [Hd Hlen].
  rewrite Hl in Hlen. repeat split; [done|done|].
  unfold decode_32. rewrite DecodeString_Encode by done. cbn. by rewrite Hl.
Qed.

Lemma CountByte_app a b c : CountByte (a +:+ b) c = CountByte a c + CountByte b c.
Proof. induction a as [|x a IH]; cbn [String.append CountByte]; [done|]. rewrite IH. lia. Qed.

Lemma CountByte_dot_free s : dot_free s = true → CountByte s "." = 0.
Proof.
  unfold dot_free. induction s as [|c s IH]; cbn; [done|].
  intros [Hc Hs]%andb_true_iff. apply negb_true_iff in Hc. rewrite Hc. by rewrite IH.
Qed.

Lemma CutByte_dot a b : dot_free a = true → CutByte "." (a +:+ "." +:+ b) = Some (a, b).
Proof.
  unfold dot_free. induction a as [|c a IH]; [done|]. cbn [string_forall].
  intros [Hc Ha]%andb_true_iff. apply negb_true_iff in Hc.
  change (String c a +:+ "." +:+ b) with (String c (a +:+ "." +:+ b)).
  cbn [CutByte]. rewrite Hc, IH by done. done.
Qed.

Lemma len_app a b : len (a +:+ b) = len a + len b.
Proof. unfold len. rewrite string_length_app. lia. Qed.

(** A credential made of two encoded 32-byte values is accepted, and its proof
    names the first and carries the digest of the second. *)
Lemma sessionProof_encoded idb secret now :
  Forall is_byte idb → length idb = 32%nat → Forall is_byte secret → length secret = 32%nat →
  sessionProof (EncodeToString idb +:+ "." +:+ EncodeToString secret) now =
  Ok {| proof_ID := EncodeToString idb; proof_Digest := Sum256 secret;
        proof_CSRFDigest := zero_digest; proof_Now := now |}.
Proof.
  intros Hi Hil Hs Hsl.
  destruct (EncodeToString_32 idb Hi Hil) as (Hdi & Hli & Hdec).
  destruct (EncodeToString_32 secret Hs Hsl) as (Hds & Hls & Hdecs).
  unfold sessionProof. rewrite !len_app, Hli, Hls, !CountByte_app.
  rewrite (CountByte_dot_free _ Hdi), (CountByte_dot_free _ Hds), CutByte_dot by done.
  cbn -[Sum256 EncodeToString decode_32]. by rewrite Hdec, Hdecs.
Qed.

Lemma newSession_ok e i now session record :
  newSession e i now = Ok (session, record) →
  ∃ idb secret csrf,
    (Forall is_byte idb ∧ length idb = 32%nat) ∧ (Forall is_byte secret ∧ length secret = 32%nat)
    ∧ (Forall is_byte csrf ∧ length csrf = 32%nat)
    ∧ session = {| Credential := EncodeToString idb +:+ "." +:+ EncodeToString secret;
                   CSRFToken := EncodeToString csrf; session_expiry := now + sessionAbsoluteTTL |}
    ∧ record = {| session_ID := EncodeToString idb; session_IdentityID := "";
         session_Digest := Sum256 secret; session_CSRFDigest := Sum256 csrf;
         session_CreatedAt := now; session_LastSeenAt := now;
         session_ExpiresAt := now + sessionAbsoluteTTL |}.
Proof.
  unfold newSession. intros (idb & Hi & H)%result_bind_ok.
  apply result_bind_ok in H as (secret & Hs & H). apply result_bind_ok in H as (csrf & Hc & H).
  injection H as <- <-. exists idb, secret, csrf.
  repeat split; eauto using rand_Read_bytes, rand_Read_length.
Qed.

(** A fresh session hands the client secrets that lead back to its record:
    the credential parses to a proof with the record's ID and digest, the CSRF
    token to the record's CSRF digest, and the record expires seven days after
    its creation with no identity attached yet. *)
Theorem newSession_proofs e i now session record t :
  newSession e i now = Ok (session, record) →
  sessionProof (Credential session) t =
    Ok {| proof_ID := session_ID record; proof_Digest := session_Digest record;
          proof_CSRFDigest := zero_digest; proof_Now := t |}
  ∧ sessionCSRFProof (Credential session) (CSRFToken session) t =
    Ok {| proof_ID := session_ID record; proof_Digest := session_Digest record;
          proof_CSRFDigest := session_CSRFDigest record; proof_Now := t |}
  ∧ session_IdentityID record = "" ∧ session_CreatedAt record = now
  ∧ session_ExpiresAt record = now + sessionAbsoluteTTL.
Proof.
  intros (idb & secret & csrf & [Hi Hil] & [Hs Hsl] & [Hc Hcl] & -> & ->)%newSession_ok.
  cbn [Credential CSRFToken session_ID session_Digest session_CSRFDigest].
  rewrite sessionProof_encoded by done. split; [done|].
  unfold sessionCSRFProof. rewrite sessionProof_encoded by done. cbn [mbind result_bind].
  destruct (EncodeToString_32 csrf Hc Hcl) as (_ & Hl & _).
  rewrite DecodeString_Encode by done. rewrite Hl, Hcl. done.
Qed.

(** Entropy whose [j]th byte of read [i] is [i + j]. *)
Definition counting : Entropy := λ i, Some (λ j, Z.of_nat (i + j)).

Lemma newSession_proofs_witness :
  ∃ session record, newSession counting 3 1000 = Ok (session, record)
  ∧ sessionProof (Credential session) 2000 =
    Ok {| proof_ID := session_ID record; proof_Digest := session_Digest record;
          proof_CSRFDigest := zero_digest; proof_Now := 2000 |}.
Proof.
  destruct (newSession counting 3 1000) as [[session record]|err] eqn:E; [|discriminate E].
  exists session, record. split; [done|].
  exact (proj1 (newSession_proofs counting 3 1000 session record 2000 E)).
Defined.

(** ** Verifiers *)

Lemma be_bytes_inj n a b :
  0 <= a < 2 ^ (8 * Z.of_nat n) → 0 <= b < 2 ^ (8 * Z.of_nat n) →
  be_bytes n a = be_bytes n b → a = b.
Proof.
  revert a b; induction n as [|n IH]; intros a b Ha Hb; [cbn in *; lia|].
  cbn [be_bytes]. intros [Hhi Hlo]%app_inj_tail_iff.
  change 255 with (Z.ones 8) in Hlo. rewrite !Z.land_ones in Hlo by lia.
  assert (Hs : 2 ^ (8 * Z.of_nat (S n)) = 2 ^ (8 * Z.of_nat n) * 2 ^ 8).
  { rewrite <-Z.pow_add_r by lia. f_equal. lia. }
  rewrite Hs in Ha, Hb.
  apply IH in Hhi; rewrite !Z.shiftr_div_pow2 in * by lia.
  - rewrite (Z.div_mod a (2 ^ 8)), (Z.div_mod b (2 ^ 8)), Hhi, Hlo by lia. done.
  - split; [apply Z.div_pos; lia|apply Z.div_lt_upper_bound; lia].
  - split; [apply Z.div_pos; lia|apply Z.div_lt_upper_bound; lia].
Qed.

Lemma byte_inj c d : byte c = byte d → c = d.
Proof.
  unfold byte. intros H%N2Z.inj. by rewrite <-(ascii_N_embedding c), <-(ascii_N_embedding d), H.
Qed.

Lemma to_bytes_inj a b : to_bytes a = to_bytes b → a = b.
Proof.
  unfold to_bytes. intros H. rewrite <-(string_of_list_ascii_of_string a), <-(string_of_list_ascii_of_string b).
  f_equal. revert H. generalize (list_ascii_of_string a) as l, (list_ascii_of_string b) as k.
  induction l as [|c l IH]; intros [|d k]; cbn; [done..|].
  intros [= H%byte_inj Hr]. f_equal; auto.
Qed.

Lemma length_to_bytes s : length (to_bytes s) = String.length s.
Proof. unfold to_bytes. rewrite length_map. induction s; cbn; auto. Qed.

(** The bytes the verifier feeds to HMAC determine its fields: two sequences
    of fields (each shorter than 2^64 bytes, as every Go string is) are framed
    alike only when they are equal, so a digest for one purpose, challenge,
    address and code is never computed over the bytes of another. *)
Theorem frame_injective fields fields' :
  Forall (λ f, len f < 2 ^ 64) fields → Forall (λ f, len f < 2 ^ 64) fields' →
  frame fields = frame fields' → fields = fields'.
Proof.
  revert fields'; induction fields as [|f fields IH]; intros [|g fields'] Hf Hg; cbn [frame].
  - done.
  - intros H%(f_equal length). rewrite !length_app, length_be_bytes in H. cbn in H. lia.
  - intros H%(f_equal length). rewrite !length_app, length_be_bytes in H. cbn in H. lia.
  - apply Forall_cons in Hf as [Hf Hfs]. apply Forall_cons in Hg as [Hg Hgs].
    intros [Hlen H]%app_inj_1; [|by rewrite !length_be_bytes].
    assert (Hl : len f = len g) by (apply be_bytes_inj in Hlen; unfold len in *; lia).
    apply app_inj_1 in H as [Hb H]; [|rewrite !length_to_bytes; unfold len in Hl; lia].
    apply to_bytes_inj in Hb as ->. f_equal. by apply IH.
Qed.

Lemma frame_injective_witness :
  frame ["native"; "ab"; "c"] ≠ frame ["native"; "a"; "bc"] ∧ ["native"; "a"] = ["native"; "a"].
Proof.
  split; [intros H; apply frame_injective in H; [discriminate|..]
         |apply (frame_injective ["native"; "a"] ["native"; "a"]); [..|reflexivity]];
    repeat (apply Forall_cons; split; [vm_compute; reflexivity|]); apply Forall_nil; exact I.
Defined.

(** ** The private challenge *)

Lemma byte_of_byte z : 0 <= z < 256 → byte (of_byte z) = z.
Proof. intros Hz. unfold byte, of_byte. rewrite N_ascii_embedding by lia. lia. Qed.

Lemma dec_fixed_digits n z :
  String.length (dec_fixed n z) = n ∧ string_forall is_digit (dec_fixed n z) = true.
Proof.
  revert z; induction n as [|n IH]; intros z; [done|].
  cbn [dec_fixed]. destruct (IH (z / 10)) as [Hl Hd].
  rewrite string_length_app, string_forall_app, Hl, Hd. cbn [String.length string_forall].
  split; [lia|]. pose proof (Z.mod_pos_bound z 10 ltac:(lia)).
  unfold is_digit, in_range. rewrite byte_of_byte by lia. rewrite andb_true_r. cbn [andb].
  apply andb_true_iff. split; apply Z.leb_le; lia.
Qed.

Lemma digits_runes s :
  string_forall is_digit s = true → existsb (λ '(r, _), (r <? 48) || (57 <? r)) (runes s) = false.
Proof.
  intros Hd. rewrite runes_ascii.
  - induction s as [|c s IH]; [done|]. cbn [string_forall] in Hd. apply andb_true_iff in Hd as [Hc Hs].
    cbn [list_ascii_of_string map existsb]. rewrite IH by done.
    unfold is_digit, in_range in Hc. rewrite orb_false_r. apply orb_false_iff. boolify. lia.
  - unfold is_ascii. eapply string_forall_impl; [|exact Hd].
    intros c Hc. unfold is_digit, in_range in Hc. boolify. lia.
Qed.

Definition attempt : Type := (string * string * string * string) * Time.

(** The state after a sequence of attempts, and their answers. *)
Fixpoint consumes (key : bytes) (c : challenge) (ats : list attempt) : list bool * challenge :=
  match ats with
  | [] => ([], c)
  | ((purpose, cid, mailbox, code), now) :: ats' =>
      let '(b, c) := consume c key purpose cid mailbox code now in
      let '(bs, c) := consumes key c ats' in (b :: bs, c)
  end.

#[local] Opaque verifier.

Definition in_window (c : challenge) (a : attempt) : bool :=
  (issued c <=? a.2) && (a.2 <? expires c).

(** One attempt: what never changes, what is counted, and what success needs. *)
Lemma consume_step key c purpose cid mailbox code now b c' :
  consume c key purpose cid mailbox code now = (b, c') →
  issued c' = issued c ∧ expires c' = expires c ∧ digest c' = digest c
  ∧ (spent c' = spent c || b)
  ∧ attempts c - (if in_window c ((purpose, cid, mailbox, code), now) then 1 else 0) <= attempts c'
  ∧ attempts c' <= attempts c
  ∧ (spent c = false → 0 < attempts c → in_window c ((purpose, cid, mailbox, code), now) = true →
     attempts c' = attempts c - 1)
  ∧ (b = true → spent c = false ∧ 0 < attempts c ∧ issued c <= now < expires c
       ∧ verifier key [purpose; cid; mailbox; code] = digest c).
Proof.
  unfold consume, in_window, Before, digest_eqb. cbn [snd].
  destruct (spent c || (attempts c <=? 0) || (now <? issued c) || negb (now <? expires c)) eqn:G.
  - intros [= <- <-]. rewrite orb_false_r. repeat split; try done; try (destruct (_ && _); lia).
    intros Hs Ha Hw. rewrite Hs in G. boolify. cbn in G. destruct G as [[[G|G]|G]|G]; [done|lia..].
  - rewrite !orb_false_iff in G. destruct G as (((Gs & Ga) & Gi) & Ge). boolify.
    assert (Hw : (issued c <=? now) && (now <? expires c) = true)
      by (apply andb_true_iff; rewrite Z.leb_le, Z.ltb_lt; lia).
    rewrite Hw.
    destruct (_ || _); [intros [= <- <-]; cbn; rewrite ?orb_false_r; repeat split; try done; lia|].
    destruct (existsb _ _); [intros [= <- <-]; cbn; rewrite ?orb_false_r; repeat split; try done; lia|].
    cbn [digest]. case_bool_decide as Hv; cbn [negb]; intros [= <- <-]; cbn [issued expires digest spent attempts];
      rewrite ?orb_true_r, ?orb_false_r; repeat split; try done; lia.
Qed.

Lemma consumes_spent key c ats :
  spent c = true → Forall (λ b, b = false) (fst (consumes key c ats)).
Proof.
  revert c; induction ats as [|[[[[p i] m] code] now] ats IH]; intros c Hs; cbn [consumes]; [constructor|].
  destruct (consume c key p i m code now) as [b c'] eqn:E.
  apply consume_step in E as (_ & _ & _ & Hs' & _ & _ & _ & Hb).
  specialize (IH c'). destruct (consumes key c' ats) as [bs c''] eqn:E'. cbn [fst] in *.
  constructor; [destruct b; [|done]; destruct Hb as [Hb _]; [done|congruence]|].
  apply IH. by rewrite Hs', Hs.
Qed.

(** Soundness of every accepted attempt, and that there is at most one. *)
Lemma consumes_sound key c ats k :
  fst (consumes key c ats) !! k = Some true →
  (∀ j, fst (consumes key c ats) !! j = Some true → j = k)
  ∧ ∃ p i m code now, ats !! k = Some ((p, i, m, code), now)
    ∧ issued c <= now < expires c ∧ verifier key [p; i; m; code] = digest c.
Proof.
  revert c k; induction ats as [|[[[[p i] m] code] now] ats IH]; intros c k; cbn [consumes]; [done|].
  destruct (consume c key p i m code now) as [b c'] eqn:E.
  pose proof (consumes_spent key c' ats) as Hspent.
  apply consume_step in E as (Hi & He & Hd & Hs' & _ & _ & _ & Hb).
  specialize (IH c'). destruct (consumes key c' ats) as [bs c''] eqn:E'. cbn [fst] in *.
  assert (Hlater : b = true → ∀ j, bs !! j ≠ Some true).
  { intros -> j Hj. rewrite orb_true_r in Hs'. specialize (Hspent Hs').
    rewrite Forall_lookup in Hspent. by specialize (Hspent j _ Hj). }
  destruct k as [|k]; cbn [lookup list_lookup].
  - intros [= ->]. destruct (Hb eq_refl) as (_ & _ & Hw & Hv). split; [|by eauto 10].
    intros [|j]; [done|]. cbn. intros Hj. by destruct (Hlater eq_refl j).
  - intros Hk. destruct (IH k Hk) as [Huniq Hex]. rewrite Hi, He, Hd in Hex. split; [|done].
    intros [|j]; cbn; [intros [= ->]; by destruct (Hlater eq_refl k)|]. intros Hj. f_equal. by apply Huniq.
Qed.

(** The attempts a challenge can spend bound the attempts made in its window. *)
Lemma consumes_budget key c ats k :
  fst (consumes key c ats) !! k = Some true →
  Z.of_nat (length (List.filter (in_window c) (take k ats))) < attempts c.
Proof.
  revert c k; induction ats as [|[[[[p i] m] code] now] ats IH]; intros c k; cbn [consumes]; [done|].
  destruct (consume c key p i m code now) as [b c'] eqn:E.
  pose proof (consumes_spent key c' ats) as Hspent.
  apply consume_step in E as (Hi & He & Hd & Hs' & Hlo & Hup & Hcount & Hb).
  specialize (IH c'). destruct (consumes key c' ats) as [bs c''] eqn:E'. cbn [fst] in *.
  destruct k as [|k]; cbn [lookup list_lookup take].
  - intros [= ->]. destruct (Hb eq_refl) as (_ & H & _). cbn. lia.
  - intros Hk. specialize (IH k Hk). cbn [List.filter].
    assert (Hext : List.filter (in_window c') (take k ats) = List.filter (in_window c) (take k ats)).
    { apply filter_ext. intros a. unfold in_window. by rewrite Hi, He. }
    rewrite Hext in IH.
    destruct (in_window c _) eqn:Hw; cbn [length]; [|lia].
    destruct (spent c) eqn:Hs.
    { rewrite orb_true_l in Hs'. specialize (Hspent Hs'). rewrite Forall_lookup in Hspent.
      by specialize (Hspent k _ Hk). }
    destruct (Z.lt_ge_cases 0 (attempts c)); [rewrite Hcount in IH by done; lia|lia].
Qed.

(** An attempt with the right code succeeds while the challenge is unspent and
    has an attempt left. *)
Lemma consumes_accepts key c purpose cid mailbox code ats now :
  Forall (λ b, b = false) (fst (consumes key c ats)) → spent c = false →
  (Z.of_nat (length ats) < attempts c) → issued c <= now < expires c →
  32 <= Z.of_nat (length key) → String.length code = 8%nat → string_forall is_digit code = true →
  verifier key [purpose; cid; mailbox; code] = digest c →
  fst (consumes key c (ats ++ [((purpose, cid, mailbox, code), now)])) !! length ats = Some true.
Proof.
  intros Hf Hs Ha Hw Hkey Hl Hdig Hv. revert c Hf Hs Ha Hw Hv.
  induction ats as [|[[[[p i] m] co] t] ats IH]; intros c Hf Hs Ha Hw Hv.
  - cbn [app consumes length] in *. unfold consume, Before, digest_eqb.
    rewrite Hs, digits_runes by done. unfold len. rewrite Hl. cbn [digest].
    rewrite (proj2 (Z.leb_gt _ _)), (proj2 (Z.ltb_ge _ _)), (proj2 (Z.ltb_lt _ _)), (proj2 (Z.ltb_ge _ _)) by lia.
    cbn [orb negb]. rewrite Hv, bool_decide_true by done. done.
  - cbn [app consumes length] in *. destruct (consume c key p i m co t) as [b c'] eqn:E.
    apply consume_step in E as (Hi & He & Hd & Hs' & Hlo & Hup & Hcount & Hb).
    specialize (IH c'). destruct (consumes key c' ats) as [bs c''] eqn:E'. cbn [fst] in *.
    apply Forall_cons in Hf as [-> Hf].
    destruct (consumes key c' (ats ++ _)) as [bs' c3]. cbn [fst lookup list_lookup] in *.
    apply IH; [done| by rewrite Hs', Hs| |by rewrite Hi, He|by rewrite Hd].
    destruct (in_window c _); lia.
Qed.

Lemma newChallenge_ok e i key mailbox purpose now c code :
  newChallenge e i key mailbox purpose now = Ok (c, code) →
  32 <= Z.of_nat (length key) ∧ (purpose = PurposeNative ∨ purpose = PurposeBrowser)
  ∧ String.length (id c) = 64%nat
  ∧ canonicalEmail mailbox = Ok (email c)
  ∧ issued c = now ∧ expires c = now + 5 * Minute ∧ attempts c = 5 ∧ spent c = false
  ∧ String.length code = 8%nat ∧ string_forall is_digit code = true
  ∧ digest c = verifier key [purpose; id c; email c; code].
Proof.
  unfold newChallenge. destruct (_ || _) eqn:G; [done|]. apply orb_false_iff in G as [Gk Gp].
  intros (canonical & Hc & H)%result_bind_ok.
  destruct (rand_Read e i 32) as [idb|] eqn:Ei; [|done].
  destruct (rand_Int e (S i) 100000000) as [n|] eqn:En; [|done]. injection H as <- <-.
  cbn [id email issued expires attempts spent digest].
  destruct (dec_fixed_digits 8 n). apply rand_Read_length in Ei.
  rewrite length_hex_encode, Ei. apply Z.ltb_ge in Gk.
  apply andb_false_iff in Gp. rewrite !negb_false_iff, !String.eqb_eq in Gp.
  unfold PurposeNative, PurposeBrowser. by repeat split.
Qed.

(** The private challenge state machine.  A challenge made for a key, address
    and purpose answers yes at most once, only to its own code (by digest), within
    the five minutes from its issue, and only while fewer than five attempts were
    made in that window; and until then it does accept the code that was mailed. *)
Theorem challenge_protocol e i key mailbox purpose now c code ats :
  newChallenge e i key mailbox purpose now = Ok (c, code) →
  (∀ k, fst (consumes key c ats) !! k = Some true →
     (∀ j, fst (consumes key c ats) !! j = Some true → j = k)
     ∧ Z.of_nat (length (List.filter (in_window c) (take k ats))) < 5
     ∧ ∃ p cid m co t, ats !! k = Some ((p, cid, m, co), t) ∧ now <= t < now + 5 * Minute
         ∧ verifier key [p; cid; m; co] = verifier key [purpose; id c; email c; code])
  ∧ (∀ t, Forall (λ b, b = false) (fst (consumes key c ats)) → (length ats < 5)%nat →
     now <= t < now + 5 * Minute →
     fst (consumes key c (ats ++ [((purpose, id c, email c, code), t)])) !! length ats = Some true).
Proof.
  intros (Hkey & _ & _ & _ & Hi & He & Ha & Hs & Hl & Hd & Hv)%newChallenge_ok. split.
  - intros k Hk. destruct (consumes_sound key c ats k Hk) as (Hu & p & cid & m & co & t & Hat & Hw & Hver).
    pose proof (consumes_budget key c ats k Hk). rewrite Hi, He, Hv in *. repeat split; eauto 10; lia.
  - intros t Hf Hlen Hw. apply consumes_accepts; try done; rewrite ?Hi, ?He; lia.
Qed.

Lemma challenge_protocol_witness :
  ∃ c code, newChallenge counting 0 (replicate 32 7) "ada@Example.com" "native" 0 = Ok (c, code)
  ∧ fst (consumes (replicate 32 7) c [(("native", id c, email c, code), 10)]) !! 0%nat = Some true.
Proof.
  destruct (newChallenge counting 0 (replicate 32 7) "ada@Example.com" "native" 0)
    as [[c code]|err] eqn:E; [|discriminate E].
  exists c, code. split; [reflexivity|].
  apply (proj2 (challenge_protocol counting 0 (replicate 32 7) "ada@Example.com" "native" 0 c code [] E)).
  - constructor.
  - cbn. lia.
  - unfold Minute, Second. lia.
Defined.
