(* ===== verification/MemoryStore.v ===== *)
(** * The in-process authentication store

    [auth/memory.go].  The store is a record of maps; every method runs under its
    mutex, so a method is a function from the store it finds to the store it
    leaves and its answer.  The pointers the maps hold are reachable only through
    the maps, so an update through one is an update of its entry.

    Three methods make room by deleting the first stale entry their [range] loop
    meets.  Go leaves the order of that loop open; the extra argument [seed]
    chooses which stale entry is met first, so a statement for every [seed] is a
    statement for every order. *)

From S2P Require Import Prelude GoStrings Sha256 AuthCore.

#[local] Open Scope Z_scope.

Definition addressSendLimit : Z := 5.
Definition sourceSendLimit : Z := 20.
Definition challengeAttempts : Z := 5.
Definition addressVerifyLimit : Z := 20.
Definition sourceVerifyLimit : Z := 100.
(** The literal in [CreatePreAuth]. *)
Definition bootstrapLimit : Z := 20.
Definition budgetWindow : Duration := Hour.
Definition minimumSendGap : Duration := Minute.

Record storedChallenge := {
  reservation : Reservation;
  failed : Z;  (** the field [attempts] *)
  live : bool;  (** the field [active] *)
}.
Record storedSession := { record : SessionRecord; identity : Identity; session_active : bool }.

Abbreviation Budget := (gmap string (list Time)).

Record MemoryStore := {
  capacity : Z;
  challenges : gmap string storedChallenge;
  active : gmap string string;
  identities : gmap string Identity;
  sessions : gmap string storedSession;
  browserStates : gmap string PreAuthRecord;
  addressSends : Budget; sourceSends : Budget;
  browserBootstraps : Budget;
  addressFailures : Budget; sourceVerifications : Budget;
}.

Definition NewMemoryStore (capacity : Z) : result error MemoryStore :=
  if capacity <=? 0 then Err (NewError "auth: memory-store capacity must be positive")
  else Ok {| capacity := capacity; challenges := ∅; active := ∅; identities := ∅; sessions := ∅;
             browserStates := ∅; addressSends := ∅; sourceSends := ∅; browserBootstraps := ∅;
             addressFailures := ∅; sourceVerifications := ∅ |}.

(** ** Assignments to one field *)

Definition set_challenges (s : MemoryStore) (x : gmap string storedChallenge) : MemoryStore :=
  {| capacity := capacity s; challenges := x; active := active s; identities := identities s;
     sessions := sessions s; browserStates := browserStates s; addressSends := addressSends s;
     sourceSends := sourceSends s; browserBootstraps := browserBootstraps s;
     addressFailures := addressFailures s; sourceVerifications := sourceVerifications s |}.
Definition set_active (s : MemoryStore) (x : gmap string string) : MemoryStore :=
  {| capacity := capacity s; challenges := challenges s; active := x; identities := identities s;
     sessions := sessions s; browserStates := browserStates s; addressSends := addressSends s;
     sourceSends := sourceSends s; browserBootstraps := browserBootstraps s;
     addressFailures := addressFailures s; sourceVerifications := sourceVerifications s |}.
Definition set_identities (s : MemoryStore) (x : gmap string Identity) : MemoryStore :=
  {| capacity := capacity s; challenges := challenges s; active := active s; identities := x;
     sessions := sessions s; browserStates := browserStates s; addressSends := addressSends s;
     sourceSends := sourceSends s; browserBootstraps := browserBootstraps s;
     addressFailures := addressFailures s; sourceVerifications := sourceVerifications s |}.
Definition set_sessions (s : MemoryStore) (x : gmap string storedSession) : MemoryStore :=
  {| capacity := capacity s; challenges := challenges s; active := active s; identities := identities s;
     sessions := x; browserStates := browserStates s; addressSends := addressSends s;
     sourceSends := sourceSends s; browserBootstraps := browserBootstraps s;
     addressFailures := addressFailures s; sourceVerifications := sourceVerifications s |}.
Definition set_browserStates (s : MemoryStore) (x : gmap string PreAuthRecord) : MemoryStore :=
  {| capacity := capacity s; challenges := challenges s; active := active s; identities := identities s;
     sessions := sessions s; browserStates := x; addressSends := addressSends s;
     sourceSends := sourceSends s; browserBootstraps := browserBootstraps s;
     addressFailures := addressFailures s; sourceVerifications := sourceVerifications s |}.
Definition set_budgets (s : MemoryStore) (address source bootstraps failures verifications : Budget)
    : MemoryStore :=
  {| capacity := capacity s; challenges := challenges s; active := active s; identities := identities s;
     sessions := sessions s; browserStates := browserStates s; addressSends := address;
     sourceSends := source; browserBootstraps := bootstraps;
     addressFailures := failures; sourceVerifications := verifications |}.

(** ** Budgets *)

(** [values[first:]] where [first] is the first index after the cutoff. *)
Fixpoint drop_until (cutoff : Time) (values : list Time) : list Time :=
  match values with
  | v :: values' => if negb (After v cutoff) then drop_until cutoff values' else values
  | [] => []
  end.
Definition recent (values : list Time) (now : Time) : list Time :=
  drop_until (now - budgetWindow) values.

(** One loop of [prune]: keep what is recent, delete the keys left empty. *)
Definition prune_budget (now : Time) (b : Budget) : Budget :=
  omap (λ values, match recent values now with [] => None | kept => Some kept end) b.

Definition prune (now : Time) (s : MemoryStore) : MemoryStore :=
  set_budgets s (prune_budget now (addressSends s)) (prune_budget now (sourceSends s))
    (prune_budget now (browserBootstraps s)) (prune_budget now (addressFailures s))
    (prune_budget now (sourceVerifications s)).

(** [b[key]] of a map of slices: the nil slice when the key is missing. *)
Definition spent_of (b : Budget) (key : string) : list Time := default [] (b !! key).
Definition count {A} (l : list A) : Z := Z.of_nat (length l).
Definition full {A} (s : MemoryStore) (m : gmap string A) : bool := capacity s <=? Z.of_nat (size m).
(** [_, exists := m[key]; !exists && len(m) >= s.capacity]. *)
Definition no_room {A} (s : MemoryStore) (m : gmap string A) (key : string) : bool :=
  bool_decide (m !! key = None) && full s m.

(** ** Making room *)

(** The entry the loop deletes, if any entry is stale. *)
Definition first_stale {A} (seed : nat) (stale : A → bool) (m : gmap string A) : option (string * A) :=
  let found := List.filter (λ kv, stale kv.2) (map_to_list m) in
  found !! (seed mod length found)%nat.

Definition activeKey (r : Reservation) : string :=
  reservation_Purpose r +:+ String "000" (reservation_Email r).

Definition delete_if (key id : string) (m : gmap string string) : gmap string string :=
  if bool_decide (m !! key = Some id) then delete key m else m.

Definition reclaimChallenge (seed : nat) (now : Time) (s : MemoryStore) : option MemoryStore :=
  match first_stale seed (λ c, negb (live c) || negb (Before now (reservation_ExpiresAt (reservation c))))
          (challenges s) with
  | Some (id, stored) =>
      let s := set_challenges s (delete id (challenges s)) in
      Some (set_active s (delete_if (activeKey (reservation stored)) id (active s)))
  | None => None
  end.

Definition idle_deadline (r : SessionRecord) : Time := session_LastSeenAt r + sessionIdleTTL.

Definition reclaimSession (seed : nat) (now : Time) (s : MemoryStore) : option MemoryStore :=
  match first_stale seed (λ x, negb (session_active x) || negb (Before now (session_ExpiresAt (record x)))
                            || negb (Before now (idle_deadline (record x)))) (sessions s) with
  | Some (id, _) => Some (set_sessions s (delete id (sessions s)))
  | None => None
  end.

Definition reclaimBrowserState (seed : nat) (now : Time) (s : MemoryStore) : option MemoryStore :=
  match first_stale seed (λ r, negb (Before now (pre_record_ExpiresAt r))) (browserStates s) with
  | Some (id, _) => Some (set_browserStates s (delete id (browserStates s)))
  | None => None
  end.

(** [exists || (len(m) >= s.capacity && !s.reclaim(now))]: [None] refuses. *)
Definition make_room {A} (m : gmap string A) (id : string) (reclaim : option MemoryStore)
    (s : MemoryStore) : option MemoryStore :=
  if bool_decide (is_Some (m !! id)) then None else if full s m then reclaim else Some s.

(** ** Browser pre-authentication *)

Definition CreatePreAuth (seed : nat) (ctx : Context) (r : PreAuthRecord) (s : MemoryStore)
    : option error * MemoryStore :=
  match ctx 0%nat with
  | Some err => (Some err, s)
  | None =>
      if String.eqb (pre_ID r) "" || String.eqb (pre_Source r) "" || (256 <? len (pre_Source r))
         || (pre_IssuedAt r =? zero_time)
         || negb (Sub (pre_record_ExpiresAt r) (pre_IssuedAt r) =? preAuthTTL)
      then (Some (Sentinel ErrUnavailable), s)
      else
        let s := prune (pre_IssuedAt r) s in
        let budget := spent_of (browserBootstraps s) (pre_Source r) in
        if bootstrapLimit <=? count budget then (Some (Sentinel ErrRateLimited), s)
        else if no_room s (browserBootstraps s) (pre_Source r) then (Some (Sentinel ErrUnavailable), s)
        else
          match make_room (browserStates s) (pre_ID r) (reclaimBrowserState seed (pre_IssuedAt r) s) s with
          | None => (Some (Sentinel ErrUnavailable), s)
          | Some s =>
              let s := set_budgets s (addressSends s) (sourceSends s)
                         (<[pre_Source r := budget ++ [pre_IssuedAt r]]> (browserBootstraps s))
                         (addressFailures s) (sourceVerifications s) in
              (None, set_browserStates s (<[pre_ID r := r]> (browserStates s)))
          end
  end.

Definition authenticateBrowserState (p : PreAuthProof) (s : MemoryStore) : option error :=
  match browserStates s !! pproof_ID p with
  | None => Some (Sentinel ErrPreAuth)
  | Some r =>
      if Before (pproof_Now p) (pre_IssuedAt r) || negb (Before (pproof_Now p) (pre_record_ExpiresAt r))
         || negb (digest_eqb (pre_Digest r) (pproof_Digest p))
         || negb (digest_eqb (pre_CSRFDigest r) (pproof_CSRFDigest p))
      then Some (Sentinel ErrPreAuth) else None
  end.

Definition AuthenticatePreAuth (ctx : Context) (p : PreAuthProof) (s : MemoryStore)
    : option error * MemoryStore :=
  match ctx 0%nat with
  | Some err => (Some err, s)
  | None => (authenticateBrowserState p s, s)
  end.

Definition ConsumePreAuth (ctx : Context) (p : PreAuthProof) (s : MemoryStore)
    : option error * MemoryStore :=
  match ctx 0%nat with
  | Some err => (Some err, s)
  | None =>
      match authenticateBrowserState p s with
      | Some err => (Some err, s)
      | None => (None, set_browserStates s (delete (pproof_ID p) (browserStates s)))
      end
  end.

(** ** Challenges *)

Definition deactivate (c : storedChallenge) : storedChallenge :=
  {| reservation := reservation c; failed := failed c; live := false |}.

(** [now.Sub(address[len(address)-1]) < minimumSendGap] when there is one. *)
Definition too_soon (now : Time) (address : list Time) : bool :=
  match last address with
  | Some t => Sub now t <? minimumSendGap
  | None => false
  end.

Definition Reserve (seed : nat) (ctx : Context) (r : Reservation) (s : MemoryStore)
    : option error * MemoryStore :=
  match ctx 0%nat with
  | Some err => (Some err, s)
  | None =>
      let now := reservation_IssuedAt r in
      let s := prune now s in
      let key := activeKey r in
      let address := spent_of (addressSends s) (reservation_Email r) in
      let source := spent_of (sourceSends s) (reservation_Source r) in
      if (addressSendLimit <=? count address) || (sourceSendLimit <=? count source)
         || too_soon now address
      then (Some (Sentinel ErrRateLimited), s)
      else
        match make_room (challenges s) (reservation_ID r) (reclaimChallenge seed now s) s with
        | None => (Some (Sentinel ErrUnavailable), s)
        | Some s =>
            if no_room s (addressSends s) (reservation_Email r) then (Some (Sentinel ErrUnavailable), s)
            else if no_room s (sourceSends s) (reservation_Source r) then (Some (Sentinel ErrUnavailable), s)
            else
              let s := set_budgets s
                         (<[reservation_Email r := address ++ [now]]> (addressSends s))
                         (<[reservation_Source r := source ++ [now]]> (sourceSends s))
                         (browserBootstraps s) (addressFailures s) (sourceVerifications s) in
              let previousID := default "" (active s !! key) in
              let s := if negb (String.eqb previousID "")
                       then set_challenges s (alter deactivate previousID (challenges s)) else s in
              let s := set_challenges s
                         (<[reservation_ID r := {| reservation := r; failed := 0; live := true |}]>
                            (challenges s)) in
              (None, set_active s (<[key := reservation_ID r]> (active s)))
        end
  end.

(** The comparison of a stored reservation with what an attempt presents. *)
Definition matches (r : Reservation) (a : Verification) : bool :=
  String.eqb (reservation_Email r) (attempt_Email a)
  && String.eqb (reservation_Purpose r) (attempt_Purpose a)
  && String.eqb (reservation_KeyID r) (attempt_KeyID a)
  && digest_eqb (reservation_Verifier r) (attempt_Verifier a)
  && digest_eqb (reservation_Binding r) (attempt_Binding a).

Definition with_identity (r : SessionRecord) (id : string) : SessionRecord :=
  {| session_ID := session_ID r; session_IdentityID := id; session_Digest := session_Digest r;
     session_CSRFDigest := session_CSRFDigest r; session_CreatedAt := session_CreatedAt r;
     session_LastSeenAt := session_LastSeenAt r; session_ExpiresAt := session_ExpiresAt r |}.

(** The part of [Verify] after the credentials matched. *)
Definition accept (seed : nat) (a : Verification) (stored : storedChallenge) (s : MemoryStore)
    : result error Identity * MemoryStore :=
  let session := attempt_Session a in
  if String.eqb (session_ID session) "" || negb (session_CreatedAt session =? attempt_Now a)
     || negb (session_LastSeenAt session =? attempt_Now a)
     || negb (After (session_ExpiresAt session) (attempt_Now a))
  then (Err (Sentinel ErrUnavailable), s)
  else
    match make_room (sessions s) (session_ID session) (reclaimSession seed (attempt_Now a) s) s with
    | None => (Err (Sentinel ErrUnavailable), s)
    | Some s =>
        let mailbox := reservation_Email (reservation stored) in
        let known := default no_identity (identities s !! mailbox) in
        let fresh := {| identity_ID := attempt_IdentityID a; identity_Email := mailbox;
                        identity_CreatedAt := attempt_Now a |} in
        if String.eqb (identity_ID known) "" && full s (identities s)
        then (Err (Sentinel ErrUnavailable), s)
        else
          let who := if String.eqb (identity_ID known) "" then fresh else known in
          let s := if String.eqb (identity_ID known) ""
                   then set_identities s (<[mailbox := fresh]> (identities s)) else s in
          let s := set_sessions s
                     (<[session_ID session :=
                        {| record := with_identity session (identity_ID who); identity := who;
                           session_active := true |}]> (sessions s)) in
          let s := set_challenges s (alter deactivate (attempt_ID a) (challenges s)) in
          (Ok who, set_active s (delete (activeKey (reservation stored)) (active s)))
    end.

(** A wrong credential for a live challenge. *)
Definition reject (a : Verification) (stored : storedChallenge) (s : MemoryStore)
    : result error Identity * MemoryStore :=
  let mailbox := reservation_Email (reservation stored) in
  if no_room s (addressFailures s) mailbox then (Err (Sentinel ErrRateLimited), s)
  else
    let failures := spent_of (addressFailures s) mailbox in
    if addressVerifyLimit <=? count failures then (Err (Sentinel ErrRateLimited), s)
    else
      let s := set_budgets s (addressSends s) (sourceSends s) (browserBootstraps s)
                 (<[mailbox := failures ++ [attempt_Now a]]> (addressFailures s))
                 (sourceVerifications s) in
      (Err (Sentinel ErrAuthentication),
       set_challenges s
         (alter (λ c, {| reservation := reservation c; failed := failed c + 1; live := live c |})
            (attempt_ID a) (challenges s))).

Definition Verify (seed : nat) (ctx : Context) (a : Verification) (s : MemoryStore)
    : result error Identity * MemoryStore :=
  match ctx 0%nat with
  | Some err => (Err err, s)
  | None =>
      let s := prune (attempt_Now a) s in
      if no_room s (sourceVerifications s) (attempt_Source a) then (Err (Sentinel ErrRateLimited), s)
      else
        let source := spent_of (sourceVerifications s) (attempt_Source a) in
        if sourceVerifyLimit <=? count source then (Err (Sentinel ErrRateLimited), s)
        else
          let s := set_budgets s (addressSends s) (sourceSends s) (browserBootstraps s)
                     (addressFailures s)
                     (<[attempt_Source a := source ++ [attempt_Now a]]> (sourceVerifications s)) in
          match challenges s !! attempt_ID a with
          | None => (Err (Sentinel ErrAuthentication), s)
          | Some stored =>
              if negb (live stored) || (challengeAttempts <=? failed stored)
                 || Before (attempt_Now a) (reservation_IssuedAt (reservation stored))
                 || negb (Before (attempt_Now a) (reservation_ExpiresAt (reservation stored)))
              then (Err (Sentinel ErrAuthentication), s)
              else if negb (matches (reservation stored) a) then reject a stored s
              else accept seed a stored s
          end
  end.

Definition Invalidate (ctx : Context) (id : string) (s : MemoryStore) : option error * MemoryStore :=
  match ctx 0%nat with
  | Some err => (Some err, s)
  | None =>
      match challenges s !! id with
      | None => (None, s)
      | Some stored =>
          let s := set_challenges s (alter deactivate id (challenges s)) in
          (None, set_active s (delete_if (activeKey (reservation stored)) id (active s)))
      end
  end.

(** ** Sessions *)

Definition within (x : storedSession) (now : Time) : bool :=
  negb (Before now (session_CreatedAt (record x))) && Before now (session_ExpiresAt (record x))
  && Before now (idle_deadline (record x)).

Definition seen (now : Time) (x : storedSession) : storedSession :=
  {| record := {| session_ID := session_ID (record x); session_IdentityID := session_IdentityID (record x);
       session_Digest := session_Digest (record x); session_CSRFDigest := session_CSRFDigest (record x);
       session_CreatedAt := session_CreatedAt (record x); session_LastSeenAt := now;
       session_ExpiresAt := session_ExpiresAt (record x) |};
     identity := identity x; session_active := session_active x |}.

Definition AuthenticateSession (ctx : Context) (p : SessionProof) (s : MemoryStore)
    : result error Identity * MemoryStore :=
  match ctx 0%nat with
  | Some err => (Err err, s)
  | None =>
      match sessions s !! proof_ID p with
      | None => (Err (Sentinel ErrSession), s)
      | Some x =>
          if negb (session_active x) || negb (within x (proof_Now p))
             || negb (digest_eqb (session_Digest (record x)) (proof_Digest p))
             || (negb (digest_eqb (proof_CSRFDigest p) zero_digest)
                 && negb (digest_eqb (session_CSRFDigest (record x)) (proof_CSRFDigest p)))
          then (Err (Sentinel ErrSession), s)
          else (Ok (identity x), set_sessions s (alter (seen (proof_Now p)) (proof_ID p) (sessions s)))
      end
  end.

Definition end_session (x : storedSession) : storedSession :=
  {| record := record x; identity := identity x; session_active := false |}.

Definition RevokeSession (ctx : Context) (p : SessionProof) (s : MemoryStore)
    : option error * MemoryStore :=
  match ctx 0%nat with
  | Some err => (Some err, s)
  | None =>
      match sessions s !! proof_ID p with
      | None => (Some (Sentinel ErrSession), s)
      | Some x =>
          if negb (session_active x) || negb (digest_eqb (session_Digest (record x)) (proof_Digest p))
          then (Some (Sentinel ErrSession), s)
          else (None, set_sessions s (alter end_session (proof_ID p) (sessions s)))
      end
  end.

(** [for _, candidate := range s.sessions { if candidate.identity.ID == id ... }]. *)
Definition end_sessions_of (id : string) (m : gmap string storedSession) : gmap string storedSession :=
  (λ x, if String.eqb (identity_ID (identity x)) id then end_session x else x) <$> m.

Definition RevokeAllSessions (ctx : Context) (p : SessionProof) (s : MemoryStore)
    : option error * MemoryStore :=
  match ctx 0%nat with
  | Some err => (Some err, s)
  | None =>
      match sessions s !! proof_ID p with
      | None => (Some (Sentinel ErrSession), s)
      | Some x =>
          if negb (session_active x) || negb (within x (proof_Now p))
             || negb (digest_eqb (session_Digest (record x)) (proof_Digest p))
          then (Some (Sentinel ErrSession), s)
          else (None, set_sessions s (end_sessions_of (identity_ID (identity x)) (sessions s)))
      end
  end.

Definition RevokeIdentitySessions (ctx : Context) (id : string) (s : MemoryStore)
    : option error * MemoryStore :=
  match ctx 0%nat with
  | Some err => (Some err, s)
  | None => (None, set_sessions s (end_sessions_of id (sessions s)))
  end.
