(* ===== verification/MemoryStoreSpec.v ===== *)
(** * The in-process store: invariants over every history

    An operation of the store is a value of [op]; a history is a list of them,
    and [history] runs it and collects the answers.  The theorems say what holds
    of every history: the structural invariant, the sliding-window budgets, that a
    challenge is won once, and that revoked or expired sessions stay dead. *)

From S2P Require Import Prelude GoStrings Sha256 AuthCore MemoryStore.

#[local] Open Scope Z_scope.

(** ** Operations and histories *)

Inductive op :=
| OReserve (seed : nat) (ctx : Context) (r : Reservation)
| OVerify (seed : nat) (ctx : Context) (a : Verification)
| OInvalidate (ctx : Context) (id : string)
| OAuthenticate (ctx : Context) (p : SessionProof)
| ORevoke (ctx : Context) (p : SessionProof)
| ORevokeAll (ctx : Context) (p : SessionProof)
| ORevokeIdentity (ctx : Context) (id : string)
| OCreatePreAuth (seed : nat) (ctx : Context) (r : PreAuthRecord)
| OAuthenticatePreAuth (ctx : Context) (p : PreAuthProof)
| OConsumePreAuth (ctx : Context) (p : PreAuthProof).

(** What an operation answers: an identity for the two that return one. *)
Definition answer := result error (option Identity).
Definition plain (x : option error * MemoryStore) : answer * MemoryStore :=
  (match x.1 with None => Ok None | Some e => Err e end, x.2).
Definition returning (x : result error Identity * MemoryStore) : answer * MemoryStore :=
  (match x.1 with Ok i => Ok (Some i) | Err e => Err e end, x.2).

Definition exec (o : op) (s : MemoryStore) : answer * MemoryStore :=
  match o with
  | OReserve seed ctx r => plain (Reserve seed ctx r s)
  | OVerify seed ctx a => returning (Verify seed ctx a s)
  | OInvalidate ctx id => plain (Invalidate ctx id s)
  | OAuthenticate ctx p => returning (AuthenticateSession ctx p s)
  | ORevoke ctx p => plain (RevokeSession ctx p s)
  | ORevokeAll ctx p => plain (RevokeAllSessions ctx p s)
  | ORevokeIdentity ctx id => plain (RevokeIdentitySessions ctx id s)
  | OCreatePreAuth seed ctx r => plain (CreatePreAuth seed ctx r s)
  | OAuthenticatePreAuth ctx p => plain (AuthenticatePreAuth ctx p s)
  | OConsumePreAuth ctx p => plain (ConsumePreAuth ctx p s)
  end.

Fixpoint history (ops : list op) (s : MemoryStore) : list (op * answer) * MemoryStore :=
  match ops with
  | [] => ([], s)
  | o :: ops' =>
      let '(ans, s) := exec o s in
      let '(events, s) := history ops' s in ((o, ans) :: events, s)
  end.

Lemma history_app ops ops' s :
  history (ops ++ ops') s =
  (fst (history ops s) ++ fst (history ops' (snd (history ops s))),
   snd (history ops' (snd (history ops s)))).
Proof.
  revert s; induction ops as [|o ops IH]; intros s; cbn [history app].
  - cbn. by destruct (history ops' s).
  - destruct (exec o s) as [ans s1]. rewrite IH.
    destruct (history ops s1) as [ev s2]. cbn [fst snd]. by destruct (history ops' s2).
Qed.

Lemma history_snoc ops o s :
  history (ops ++ [o]) s =
  (fst (history ops s) ++ [(o, fst (exec o (snd (history ops s))))], snd (exec o (snd (history ops s)))).
Proof.
  rewrite history_app. cbn [history]. by destruct (exec o (snd (history ops s))).
Qed.

(** ** Sliding windows *)

(** [t] is not before any time of the log. *)
Definition after_all (t : Time) (log : list Time) : Prop := Forall (λ u, u <= t) log.

Definition in_hour (t : Time) (u : Time) : bool := (t - budgetWindow <? u) && (u <=? t).
Definition windowed (limit : Z) (log : list Time) : Prop :=
  ∀ t, count (List.filter (in_hour t) log) <= limit.

Lemma drop_until_le c c' log : c <= c' → drop_until c' (drop_until c log) = drop_until c' log.
Proof.
  intros Hc. induction log as [|u log IH]; [done|]. cbn. unfold After.
  destruct (c <? u) eqn:E; cbn [negb]; [done|]. rewrite IH. apply Z.ltb_ge in E.
  by rewrite (proj2 (Z.ltb_ge c' u)) by lia.
Qed.

Lemma drop_until_snoc c log t : c < t → drop_until c (log ++ [t]) = drop_until c log ++ [t].
Proof.
  intros Hc. induction log as [|u log IH]; cbn; unfold After in *.
  - by rewrite (proj2 (Z.ltb_lt c t)).
  - destruct (c <? u); cbn [negb]; [done|]. apply IH.
Qed.

Lemma count_in_hour_drop t u log :
  u <= t → after_all u log →
  count (List.filter (in_hour t) log) <= count (drop_until (u - budgetWindow) log).
Proof.
  intros Hu Hall. unfold count. induction log as [|v log IH]; [done|].
  apply Forall_cons in Hall as [Hv Hall]. cbn [drop_until]. unfold After.
  destruct (u - budgetWindow <? v) eqn:E; cbn [negb].
  - apply inj_le, List.filter_length_le.
  - cbn [List.filter]. apply Z.ltb_ge in E. unfold in_hour at 1.
    rewrite (proj2 (Z.ltb_ge (t - budgetWindow) v)) by lia. cbn [andb]. by apply IH.
Qed.

(** Admitting [t] when fewer than [limit] recent entries are known keeps every
    window within the limit. *)
Lemma windowed_snoc limit log t :
  windowed limit log → after_all t log → 0 <= limit →
  count (drop_until (t - budgetWindow) log) < limit → windowed limit (log ++ [t]).
Proof.
  intros Hw Hall Hl Hc t'. rewrite List.filter_app. unfold count. rewrite length_app. cbn [List.filter].
  destruct (in_hour t' t) eqn:E; cbn [length].
  - unfold in_hour in E. apply andb_true_iff in E as [_ E%Z.leb_le].
    pose proof (count_in_hour_drop t' t log E Hall) as H. unfold count in *. lia.
  - specialize (Hw t'). unfold count in *. lia.
Qed.

Lemma windowed_sublist limit log log' : sublist log' log → windowed limit log → windowed limit log'.
Proof.
  intros Hs Hw t. etransitivity; [|apply (Hw t)]. apply inj_le.
  clear Hw. induction Hs as [|u l k _ IH|u l k _ IH]; cbn; [done| |].
  - destruct (in_hour t u); cbn; lia.
  - destruct (in_hour t u); cbn; lia.
Qed.

(** What one operation at time [t] does to the entries under one key. *)
Inductive budget_step (limit : Z) (t : option Time) : list Time → list Time → Prop :=
| budget_same vs : budget_step limit t vs vs
| budget_prune vs now : t = Some now → budget_step limit t vs (recent vs now)
| budget_charge vs now : t = Some now → count (recent vs now) < limit →
    budget_step limit t vs (recent vs now ++ [now]).

(** The entries under one key are the recent part of a log of all charges. *)
Record tracked (limit : Z) (T : Time) (log vs : list Time) : Prop := {
  tracked_recent : ∃ cutoff, cutoff <= T - budgetWindow ∧ vs = drop_until cutoff log;
  tracked_past : after_all T log;
  tracked_windowed : windowed limit log;
}.

Lemma tracked_later limit T T' log vs : T <= T' → tracked limit T log vs → tracked limit T' log vs.
Proof.
  intros HT [(c & Hc & ->) Hp Hw]. split; [exists c; split; [lia|done]| |done].
  eapply Forall_impl; [exact Hp|]. intros; cbn in *; lia.
Qed.

Lemma tracked_pruned limit T log vs now :
  T <= now → tracked limit T log vs → recent vs now = drop_until (now - budgetWindow) log.
Proof. intros HT [(c & Hc & ->) _ _]. unfold recent. apply drop_until_le. lia. Qed.

Lemma tracked_prune limit T log vs now :
  T <= now → tracked limit T log vs → tracked limit now log (recent vs now).
Proof.
  intros HT Htr. pose proof (tracked_pruned _ _ _ _ _ HT Htr) as Heq.
  destruct (tracked_later _ _ now _ _ HT Htr) as [_ Hp Hw].
  split; [exists (now - budgetWindow); split; [lia|done]|done|done].
Qed.

Lemma tracked_charge limit T log vs now :
  0 <= limit → T <= now → tracked limit T log vs → count (recent vs now) < limit →
  tracked limit now (log ++ [now]) (recent vs now ++ [now]).
Proof.
  intros Hl HT Htr Hc. rewrite (tracked_pruned _ _ _ _ _ HT Htr) in Hc |- *.
  destruct (tracked_later _ _ now _ _ HT Htr) as [_ Hp Hw]. split.
  - exists (now - budgetWindow). split; [lia|]. rewrite drop_until_snoc; [done|].
    unfold budgetWindow, Hour, Minute, Second. lia.
  - apply Forall_app. split; [done|]. repeat constructor. lia.
  - by apply windowed_snoc.
Qed.

(** ** What making room does *)

Lemma first_stale_Some {A} seed (stale : A → bool) (m : gmap string A) id x :
  first_stale seed stale m = Some (id, x) → m !! id = Some x ∧ stale x = true.
Proof.
  unfold first_stale. intros H%list_elem_of_lookup_2.
  apply list_elem_of_In, filter_In in H as [Hin Hs]. split; [|done].
  by apply list_elem_of_In, elem_of_map_to_list in Hin.
Qed.

Lemma first_stale_None {A} seed (stale : A → bool) (m : gmap string A) :
  first_stale seed stale m = None → ∀ id x, m !! id = Some x → stale x = false.
Proof.
  unfold first_stale. intros H id x Hx.
  destruct (stale x) eqn:E; [|done]. exfalso.
  assert (Hin : In (id, x) (List.filter (λ kv, stale kv.2) (map_to_list m))).
  { apply filter_In. split; [|done]. by apply list_elem_of_In, elem_of_map_to_list. }
  set (l := List.filter _ _) in *. apply lookup_ge_None in H.
  assert (length l ≠ 0%nat) by (destruct l; [by destruct Hin|done]).
  pose proof (Nat.mod_upper_bound seed (length l)). lia.
Qed.

Definition stale_challenge (now : Time) (c : storedChallenge) : bool :=
  negb (live c) || negb (Before now (reservation_ExpiresAt (reservation c))).
Definition stale_session (now : Time) (x : storedSession) : bool :=
  negb (session_active x) || negb (Before now (session_ExpiresAt (record x)))
  || negb (Before now (idle_deadline (record x))).

Lemma room_challenge seed now id s s' :
  make_room (challenges s) id (reclaimChallenge seed now s) s = Some s' →
  challenges s !! id = None ∧
  ((full s (challenges s) = false ∧ s' = s) ∨
   ∃ old c, challenges s !! old = Some c ∧ stale_challenge now c = true
     ∧ s' = set_active (set_challenges s (delete old (challenges s)))
              (delete_if (activeKey (reservation c)) old (active s))).
Proof.
  unfold make_room, reclaimChallenge. case_bool_decide as Hid; [done|]. rewrite <-eq_None_not_Some in Hid.
  destruct (full s (challenges s)); [|intros [= <-]; auto].
  destruct (first_stale _ _ _) as [[old c]|] eqn:E; [|done].
  intros [= <-]. apply first_stale_Some in E as [Hc Hs]. split; [done|]. right. by exists old, c.
Qed.

Lemma room_session seed now id s s' :
  make_room (sessions s) id (reclaimSession seed now s) s = Some s' →
  sessions s !! id = None ∧
  ((full s (sessions s) = false ∧ s' = s) ∨
   ∃ old x, sessions s !! old = Some x ∧ stale_session now x = true
     ∧ s' = set_sessions s (delete old (sessions s))).
Proof.
  unfold make_room, reclaimSession. case_bool_decide as Hid; [done|]. rewrite <-eq_None_not_Some in Hid.
  destruct (full s (sessions s)); [|intros [= <-]; auto].
  destruct (first_stale _ _ _) as [[old c]|] eqn:E; [|done].
  intros [= <-]. apply first_stale_Some in E as [Hc Hs]. split; [done|]. right. by exists old, c.
Qed.

Lemma room_browser seed now id s s' :
  make_room (browserStates s) id (reclaimBrowserState seed now s) s = Some s' →
  browserStates s !! id = None ∧
  ((full s (browserStates s) = false ∧ s' = s) ∨
   ∃ old r, browserStates s !! old = Some r ∧ negb (Before now (pre_record_ExpiresAt r)) = true
     ∧ s' = set_browserStates s (delete old (browserStates s))).
Proof.
  unfold make_room, reclaimBrowserState. case_bool_decide as Hid; [done|]. rewrite <-eq_None_not_Some in Hid.
  destruct (full s (browserStates s)); [|intros [= <-]; auto].
  destruct (first_stale _ _ _) as [[old c]|] eqn:E; [|done].
  intros [= <-]. apply first_stale_Some in E as [Hc Hs]. split; [done|]. right. by exists old, c.
Qed.

(** ** Budgets over a history *)

Definition op_time (o : op) : option Time :=
  match o with
  | OReserve _ _ r => Some (reservation_IssuedAt r)
  | OVerify _ _ a => Some (attempt_Now a)
  | OCreatePreAuth _ _ r => Some (pre_IssuedAt r)
  | _ => None
  end.

Lemma recent_nil now : recent [] now = [].
Proof. done. Qed.

Lemma spent_of_prune now b k : spent_of (prune_budget now b) k = recent (spent_of b k) now.
Proof.
  unfold spent_of, prune_budget. rewrite lookup_omap.
  destruct (b !! k) as [vs|]; [|done]. cbn [mbind option_bind default].
  change (Datatypes.id vs) with vs. by destruct (recent vs now).
Qed.

Lemma spent_of_insert b k k' vs :
  spent_of (<[k := vs]> b) k' = if bool_decide (k = k') then vs else spent_of b k'.
Proof.
  unfold spent_of. case_bool_decide as E; [subst; by rewrite lookup_insert_eq|].
  by rewrite lookup_insert_ne.
Qed.

(** The four budgets that bound requests, with the key an operation charges. *)
Inductive ledger := AddressSends | SourceSends | SourceVerifications | Bootstraps.
Definition limit_of (l : ledger) : Z :=
  match l with
  | AddressSends => addressSendLimit | SourceSends => sourceSendLimit
  | SourceVerifications => sourceVerifyLimit | Bootstraps => bootstrapLimit
  end.
Definition budget_of (l : ledger) (s : MemoryStore) : Budget :=
  match l with
  | AddressSends => addressSends s | SourceSends => sourceSends s
  | SourceVerifications => sourceVerifications s | Bootstraps => browserBootstraps s
  end.

Definition rate_limited (ans : answer) : bool :=
  match ans with Err (Sentinel ErrRateLimited) => true | _ => false end.

(** The requests a ledger counts: reservations that succeeded, by address and by
    source; bootstraps that succeeded; verifications that were not turned away as
    rate limited or by their context. *)
Definition counted (l : ledger) (k : string) (event : op * answer) : option Time :=
  match l, event with
  | AddressSends, (OReserve _ _ r, Ok _) =>
      if bool_decide (reservation_Email r = k) then Some (reservation_IssuedAt r) else None
  | SourceSends, (OReserve _ _ r, Ok _) =>
      if bool_decide (reservation_Source r = k) then Some (reservation_IssuedAt r) else None
  | SourceVerifications, (OVerify _ ctx a, ans) =>
      if bool_decide (attempt_Source a = k) && bool_decide (ctx 0%nat = None)
         && negb (rate_limited ans)
      then Some (attempt_Now a) else None
  | Bootstraps, (OCreatePreAuth _ _ r, Ok _) =>
      if bool_decide (pre_Source r = k) then Some (pre_IssuedAt r) else None
  | _, _ => None
  end.

(** Case analysis on an operation: split every test it makes, keep the equations. *)
Ltac split_op H :=
  repeat (split_match_in H; try discriminate H); try (injection H as <- <-).

Lemma no_room_frame {A} (m : gmap string A) k s : no_room s m k = full s m && bool_decide (m !! k = None).
Proof. unfold no_room. apply andb_comm. Qed.

Lemma Reserve_budgets seed ctx r s ans s' :
  Reserve seed ctx r s = (ans, s') →
  (ans ≠ None ∧ s' = s) ∨
  (let now := reservation_IssuedAt r in
   let charged := bool_decide (ans = None) in
   (charged = true →
      count (recent (spent_of (addressSends s) (reservation_Email r)) now) < addressSendLimit
      ∧ count (recent (spent_of (sourceSends s) (reservation_Source r)) now) < sourceSendLimit
      ∧ too_soon now (recent (spent_of (addressSends s) (reservation_Email r)) now) = false) ∧
   (∀ k, spent_of (addressSends s') k = recent (spent_of (addressSends s) k) now
           ++ (if charged && bool_decide (reservation_Email r = k) then [now] else [])) ∧
   (∀ k, spent_of (sourceSends s') k = recent (spent_of (sourceSends s) k) now
           ++ (if charged && bool_decide (reservation_Source r = k) then [now] else [])) ∧
   (∀ k, spent_of (browserBootstraps s') k = recent (spent_of (browserBootstraps s) k) now) ∧
   (∀ k, spent_of (sourceVerifications s') k = recent (spent_of (sourceVerifications s) k) now)).
Proof.
  unfold Reserve. destruct (ctx 0%nat); [intros [= <- <-]; left; done|]. cbv zeta.
  destruct ((_ <=? _) || _ || _) eqn:G.
  { intros [= <- <-]. right. rewrite bool_decide_false by done. cbn [andb].
    split; [done|]. repeat split; intros k; cbn; by rewrite spent_of_prune, ?app_nil_r. }
  rewrite !orb_false_iff, !Z.leb_gt in G. destruct G as [[G1 G2] G3].
  destruct (make_room _ _ _ _) as [s1|] eqn:R.
  2:{ intros [= <- <-]. right. rewrite bool_decide_false by done. cbn [andb].
    split; [done|]. repeat split; intros k; cbn; by rewrite spent_of_prune, ?app_nil_r. }
  apply room_challenge in R as [_ R].
  assert (Hb : addressSends s1 = prune_budget (reservation_IssuedAt r) (addressSends s)
    ∧ sourceSends s1 = prune_budget (reservation_IssuedAt r) (sourceSends s)
    ∧ browserBootstraps s1 = prune_budget (reservation_IssuedAt r) (browserBootstraps s)
    ∧ sourceVerifications s1 = prune_budget (reservation_IssuedAt r) (sourceVerifications s)).
  { by destruct R as [[_ ->]|(old & c & _ & _ & ->)]. }
  destruct Hb as (Ha & Hs & Hp & Hv).
  destruct (no_room s1 (addressSends s1) _).
  { intros [= <- <-]. right. rewrite bool_decide_false by done. cbn [andb].
    split; [done|]. rewrite Ha, Hs, Hp, Hv. repeat split; intros k; by rewrite spent_of_prune, ?app_nil_r. }
  destruct (no_room s1 (sourceSends s1) _).
  { intros [= <- <-]. right. rewrite bool_decide_false by done. cbn [andb].
    split; [done|]. rewrite Ha, Hs, Hp, Hv. repeat split; intros k; by rewrite spent_of_prune, ?app_nil_r. }
  intros [= <- <-]. right. rewrite bool_decide_true by done. cbn [andb].
  cbn [prune addressSends sourceSends set_budgets] in G1, G2, G3. rewrite !spent_of_prune in *.
  split; [done|].
  destruct (negb _); cbn; rewrite Ha, Hs, Hp, Hv;
    repeat split; intros k; rewrite ?spent_of_insert, ?spent_of_prune; try done;
    case_bool_decide; subst; rewrite ?app_nil_r; done.
Qed.

(** The four request budgets of a store. *)
Definition requests_of (s : MemoryStore) : Budget * Budget * Budget * Budget :=
  (addressSends s, sourceSends s, browserBootstraps s, sourceVerifications s).

Lemma requests_ledger l s s' : requests_of s = requests_of s' → budget_of l s = budget_of l s'.
Proof. intros [= ? ? ? ?]. by destruct l. Qed.

Lemma accept_requests seed a stored s ans s' :
  accept seed a stored s = (ans, s') → requests_of s' = requests_of s.
Proof.
  unfold accept. destruct (_ || _); [by intros [= <- <-]|].
  destruct (make_room _ _ _ _) as [s1|] eqn:R; [|by intros [= <- <-]].
  apply room_session in R as [_ R].
  assert (Hr : requests_of s1 = requests_of s) by (by destruct R as [[_ ->]|(? & ? & _ & _ & ->)]).
  destruct (_ && _); [by intros [= <- <-]|]. intros [= <- <-].
  by destruct (String.eqb _ _).
Qed.

Lemma reject_requests a stored s ans s' :
  reject a stored s = (ans, s') → requests_of s' = requests_of s.
Proof.
  unfold reject. destruct (no_room _ _ _); [by intros [= <- <-]|].
  destruct (_ <=? _); by intros [= <- <-].
Qed.

Lemma Verify_budgets seed ctx a s ans s' :
  Verify seed ctx a s = (ans, s') →
  (ctx 0%nat ≠ None ∧ s' = s) ∨
  ∃ charged : bool,
    (charged = false → ans = Err (Sentinel ErrRateLimited)) ∧
    (charged = true → count (recent (spent_of (sourceVerifications s) (attempt_Source a)) (attempt_Now a))
                      < sourceVerifyLimit) ∧
    (∀ k, spent_of (addressSends s') k = recent (spent_of (addressSends s) k) (attempt_Now a)) ∧
    (∀ k, spent_of (sourceSends s') k = recent (spent_of (sourceSends s) k) (attempt_Now a)) ∧
    (∀ k, spent_of (browserBootstraps s') k = recent (spent_of (browserBootstraps s) k) (attempt_Now a)) ∧
    (∀ k, spent_of (sourceVerifications s') k = recent (spent_of (sourceVerifications s) k) (attempt_Now a)
            ++ (if charged && bool_decide (attempt_Source a = k) then [attempt_Now a] else [])).
Proof.
  unfold Verify. destruct (ctx 0%nat); [intros [= <- <-]; by left|]. cbv zeta. intros H. right.
  destruct (no_room _ _ _).
  { injection H as <- <-. exists false.
    repeat split; try done; intros k; cbn; by rewrite spent_of_prune, ?app_nil_r. }
  destruct (sourceVerifyLimit <=? _) eqn:G.
  { injection H as <- <-. exists false.
    repeat split; try done; intros k; cbn; by rewrite spent_of_prune, ?app_nil_r. }
  cbn [prune sourceVerifications set_budgets] in G. rewrite spent_of_prune in G. apply Z.leb_gt in G.
  match type of H with context [challenges ?x !! attempt_ID a] => set (s1 := x) in * end.
  assert (Hr : requests_of s' = requests_of s1).
  { destruct (challenges s1 !! attempt_ID a) as [stored|]; [|by injection H as <- <-].
    destruct (_ || _ || _ || _); [by injection H as <- <-|].
    destruct (negb _); eauto using accept_requests, reject_requests. }
  exists true. injection Hr as -> -> -> ->. unfold s1. cbn [prune set_budgets addressSends sourceSends
    browserBootstraps sourceVerifications].
  repeat split; try done; intros k; rewrite ?spent_of_insert, !spent_of_prune; try done.
  cbn [andb]. case_bool_decide; subst; by rewrite ?app_nil_r.
Qed.

Lemma CreatePreAuth_budgets seed ctx r s ans s' :
  CreatePreAuth seed ctx r s = (ans, s') →
  (ans ≠ None ∧ s' = s) ∨
  ((ans = None → count (recent (spent_of (browserBootstraps s) (pre_Source r)) (pre_IssuedAt r))
                 < bootstrapLimit) ∧
   (∀ k, spent_of (addressSends s') k = recent (spent_of (addressSends s) k) (pre_IssuedAt r)) ∧
   (∀ k, spent_of (sourceSends s') k = recent (spent_of (sourceSends s) k) (pre_IssuedAt r)) ∧
   (∀ k, spent_of (sourceVerifications s') k = recent (spent_of (sourceVerifications s) k) (pre_IssuedAt r)) ∧
   (∀ k, spent_of (browserBootstraps s') k = recent (spent_of (browserBootstraps s) k) (pre_IssuedAt r)
            ++ (if bool_decide (ans = None) && bool_decide (pre_Source r = k) then [pre_IssuedAt r] else []))).
Proof.
  unfold CreatePreAuth. destruct (ctx 0%nat); [intros [= <- <-]; by left|].
  destruct (_ || _ || _ || _ || _); [intros [= <- <-]; by left|]. cbv zeta. intros H. right.
  destruct (bootstrapLimit <=? _) eqn:G.
  { injection H as <- <-. split; [done|].
    repeat split; intros k; cbn; by rewrite spent_of_prune, ?app_nil_r. }
  cbn [prune browserBootstraps set_budgets] in G. rewrite spent_of_prune in G. apply Z.leb_gt in G.
  destruct (no_room _ _ _).
  { injection H as <- <-. split; [done|].
    repeat split; intros k; cbn; by rewrite spent_of_prune, ?app_nil_r. }
  destruct (make_room _ _ _ _) as [s1|] eqn:R.
  2:{ injection H as <- <-. split; [done|].
    repeat split; intros k; cbn; by rewrite spent_of_prune, ?app_nil_r. }
  apply room_browser in R as [_ R].
  assert (Hr : requests_of s1 = requests_of (prune (pre_IssuedAt r) s))
    by (by destruct R as [[_ ->]|(? & ? & _ & _ & ->)]).
  injection Hr as Ha Hs Hb Hv. injection H as <- <-. rewrite bool_decide_true by done.
  cbn [set_browserStates set_budgets addressSends sourceSends browserBootstraps sourceVerifications].
  rewrite Ha, Hs, Hb, Hv. cbn [prune set_budgets addressSends sourceSends browserBootstraps sourceVerifications].
  repeat split; try done; intros k; rewrite ?spent_of_insert, ?spent_of_prune; try done.
  cbn [andb]. case_bool_decide; subst; by rewrite ?app_nil_r.
Qed.

(** The other operations leave the budgets alone. *)
Lemma timeless_budgets o s : op_time o = None → requests_of (snd (exec o s)) = requests_of s.
Proof.
  destruct o; cbn [op_time]; try done; intros _; cbn [exec];
    unfold plain, returning, Invalidate, AuthenticateSession, RevokeSession, RevokeAllSessions,
      RevokeIdentitySessions, AuthenticatePreAuth, ConsumePreAuth; cbn [snd];
    destruct (ctx 0%nat); try done; repeat (case_match; try done).
Qed.

(** An operation that prunes the entries of a key and perhaps charges it. *)
Lemma ledger_case limit now vs vs' (b : bool) (c : option Time) :
  vs' = recent vs now ++ (if b then [now] else []) → (b = true → count (recent vs now) < limit) →
  (∀ t, c = Some t → b = true ∧ t = now) →
  budget_step limit (Some now) vs vs'
  ∧ (∀ t, c = Some t → Some now = Some t ∧ count (recent vs t) < limit ∧ vs' = recent vs t ++ [t]).
Proof.
  intros -> Hb Hc. destruct b.
  - split; [by apply budget_charge; auto|]. intros t [_ ->]%Hc. auto.
  - rewrite app_nil_r. split; [by apply budget_prune|]. by intros t [? _]%Hc.
Qed.

(** One operation on one ledger. *)
Lemma exec_ledger l k o s ans s' :
  exec o s = (ans, s') →
  budget_step (limit_of l) (op_time o) (spent_of (budget_of l s) k) (spent_of (budget_of l s') k)
  ∧ (∀ t, counted l k (o, ans) = Some t →
       op_time o = Some t ∧ count (recent (spent_of (budget_of l s) k) t) < limit_of l
       ∧ spent_of (budget_of l s') k = recent (spent_of (budget_of l s) k) t ++ [t]).
Proof.
  intros H. destruct (op_time o) as [now|] eqn:Ht.
  2:{ assert (Hs : s' = snd (exec o s)) by (by rewrite H).
      rewrite Hs, (requests_ledger l _ _ (timeless_budgets o s Ht)). split; [constructor|].
      by destruct o, l. }
  destruct o; try discriminate Ht; cbn [op_time] in Ht; injection Ht as <-; cbn [exec] in H.
  - unfold plain in H. destruct (Reserve seed ctx r s) as [e s1] eqn:E. cbn [fst snd] in H. injection H as <- <-.
    apply Reserve_budgets in E as [[He ->]|(Hc & Ha & Hs & Hb & Hv)].
    { split; [constructor|]. by destruct e, l. }
    destruct l; cbn [budget_of limit_of counted].
    + eapply ledger_case; [apply Ha| |].
      * intros [He <-%bool_decide_eq_true]%andb_true_iff. by apply Hc.
      * intros t. destruct e; [done|]. destruct (bool_decide (_ = k)); intros ?; by simplify_eq.
    + eapply ledger_case; [apply Hs| |].
      * intros [He <-%bool_decide_eq_true]%andb_true_iff. by apply Hc.
      * intros t. destruct e; [done|]. destruct (bool_decide (_ = k)); intros ?; by simplify_eq.
    + apply (ledger_case _ _ _ _ false); [by rewrite app_nil_r|done|done].
    + apply (ledger_case _ _ _ _ false); [by rewrite app_nil_r|done|by destruct e].
  - unfold returning in H. destruct (Verify seed ctx a s) as [e s1] eqn:E. cbn [fst snd] in H. injection H as <- <-.
    apply Verify_budgets in E as [[Hctx ->]|(charged & Hno & Hc & Ha & Hs & Hb & Hv)].
    { split; [constructor|]. destruct l; try done. cbn [counted].
      rewrite (bool_decide_false (ctx 0%nat = None)) by done. by rewrite andb_false_r. }
    destruct l; cbn [budget_of limit_of counted];
      try (apply (ledger_case _ _ _ _ false); [by rewrite app_nil_r|done|done]).
    eapply ledger_case; [apply Hv| |].
    + intros [He <-%bool_decide_eq_true]%andb_true_iff. by apply Hc.
    + intros t. destruct (_ && _) eqn:G; [|done]. intros [= <-].
      apply andb_true_iff in G as [[-> _]%andb_true_iff G]. rewrite andb_true_r. split; [|done].
      destruct charged; [done|]. by rewrite Hno in G.
  - unfold plain in H. destruct (CreatePreAuth seed ctx r s) as [e s1] eqn:E. cbn [fst snd] in H. injection H as <- <-.
    apply CreatePreAuth_budgets in E as [[He ->]|(Hc & Ha & Hs & Hv & Hb)].
    { split; [constructor|]. by destruct e, l. }
    destruct l; cbn [budget_of limit_of counted];
      try (apply (ledger_case _ _ _ _ false); [by rewrite app_nil_r|done|by destruct e]).
    eapply ledger_case; [apply Hb| |].
    + intros [He%bool_decide_eq_true <-%bool_decide_eq_true]%andb_true_iff. by apply Hc.
    + intros t. destruct e; [done|]. destruct (bool_decide (_ = k)); intros ?; by simplify_eq.
Qed.

(** A history whose clock does not run backwards. *)
Fixpoint clock_from (T : Time) (ops : list op) : Prop :=
  match ops with
  | [] => True
  | o :: ops' =>
      match op_time o with
      | Some t => T <= t ∧ clock_from t ops'
      | None => clock_from T ops'
      end
  end.

Definition counted_times (l : ledger) (k : string) (events : list (op * answer)) : list Time :=
  omap (counted l k) events.

Lemma history_tracked l k ops s T log :
  clock_from T ops → tracked (limit_of l) T log (spent_of (budget_of l s) k) →
  ∃ T' log' more, T <= T' ∧ log' = log ++ more
    ∧ sublist (counted_times l k (fst (history ops s))) more
    ∧ tracked (limit_of l) T' log' (spent_of (budget_of l (snd (history ops s))) k).
Proof.
  revert s T log; induction ops as [|o ops IH]; intros s T log Hclk Htr; cbn [history].
  { exists T, log, []. rewrite app_nil_r. split_and!; done. }
  destruct (exec o s) as [ans s1] eqn:E. destruct (exec_ledger l k o s ans s1 E) as [Hstep Hcount].
  cbn [clock_from] in Hclk.
  assert (Hl : 0 <= limit_of l) by (by destruct l).
  assert (∃ T1 log1 more1, T <= T1 ∧ clock_from T1 ops ∧ log1 = log ++ more1
    ∧ sublist (omap (counted l k) [(o, ans)]) more1
    ∧ tracked (limit_of l) T1 log1 (spent_of (budget_of l s1) k))
    as (T1 & log1 & more1 & HT1 & Hclk1 & -> & Hsub1 & Htr1).
  { cbn [omap list_omap]. destruct (counted l k (o, ans)) as [t|] eqn:Ec.
    - destruct (Hcount t eq_refl) as (Ht & Hlt & ->). rewrite Ht in Hclk. destruct Hclk as [HT Hclk].
      exists t, (log ++ [t]), [t]. split_and!; try done. by apply (tracked_charge _ T).
    - destruct Hstep as [vs|vs now Hnow|vs now Hnow Hlt].
      + destruct (op_time o) as [t|]; [destruct Hclk as [HT Hclk]|].
        * exists t, log, []. rewrite app_nil_r. split_and!; try done. by apply (tracked_later _ T).
        * exists T, log, []. rewrite app_nil_r. by split_and!.
      + rewrite Hnow in Hclk. destruct Hclk as [HT Hclk].
        exists now, log, []. rewrite app_nil_r. split_and!; try done. by apply (tracked_prune _ T).
      + rewrite Hnow in Hclk. destruct Hclk as [HT Hclk].
        exists now, (log ++ [now]), [now]. split_and!; try done; [by apply sublist_nil_l|].
        by apply (tracked_charge _ T). }
  destruct (IH s1 T1 (log ++ more1) Hclk1 Htr1) as (T' & log' & more & HT' & -> & Hsub & Htr').
  destruct (history ops s1) as [events s2]. cbn [fst snd] in *.
  exists T', ((log ++ more1) ++ more), (more1 ++ more). split; [lia|]. split; [by rewrite app_assoc|].
  split; [|done].
  change ((o, ans) :: events) with ([(o, ans)] ++ events). unfold counted_times.
  rewrite omap_app. by apply sublist_app.
Qed.

(** ** The gap between messages to one address *)

(** One operation on the messages of one address: pruned, or charged no sooner
    than a minute after the last one known, and only by a counted event. *)
Lemma exec_address k o s ans s' :
  exec o s = (ans, s') →
  let vs := spent_of (addressSends s) k in
  match counted AddressSends k (o, ans) with
  | Some t => op_time o = Some t ∧ spent_of (addressSends s') k = recent vs t ++ [t]
              ∧ too_soon t (recent vs t) = false
  | None => spent_of (addressSends s') k = vs
            ∨ ∃ t, op_time o = Some t ∧ spent_of (addressSends s') k = recent vs t
  end.
Proof.
  intros H vs. destruct (counted AddressSends k (o, ans)) as [t|] eqn:Ec.
  - destruct (exec_ledger AddressSends k o s ans s' H) as [_ Hc].
    destruct (Hc t Ec) as (Ht & _ & Hs). split_and!; [done|done|].
    destruct o; try discriminate Ec. cbn [exec] in H. unfold plain in H.
    destruct (Reserve seed ctx r s) as [e s1] eqn:E. cbn [fst snd] in H. injection H as <- <-.
    destruct e; [discriminate Ec|]. cbn [counted] in Ec. case_bool_decide; [|done]. simplify_eq.
    apply Reserve_budgets in E as [[? _]|(Hc' & _)]; [done|]. by apply Hc'.
  - destruct (op_time o) as [now|] eqn:Ht.
    2:{ left. assert (Hs : s' = snd (exec o s)) by (by rewrite H). unfold vs.
        by rewrite Hs, (requests_ledger AddressSends _ _ (timeless_budgets o s Ht) : addressSends _ = _). }
    destruct o; try discriminate Ht; cbn [op_time] in Ht; injection Ht as <-; cbn [exec] in H.
    + unfold plain in H. destruct (Reserve seed ctx r s) as [e s1] eqn:E. cbn [fst snd] in H. injection H as <- <-.
      apply Reserve_budgets in E as [[He ->]|(_ & Ha & _)]; [by left|]. right. eexists; split; [done|].
      rewrite Ha. destruct e; [by rewrite app_nil_r|]. cbn [counted] in Ec.
      destruct (bool_decide (_ = k)); [done|]. by rewrite app_nil_r.
    + unfold returning in H. destruct (Verify seed ctx a s) as [e s1] eqn:E. cbn [fst snd] in H. injection H as <- <-.
      apply Verify_budgets in E as [[Hctx ->]|(charged & _ & _ & Ha & _)]; [by left|]. right. eauto.
    + unfold plain in H. destruct (CreatePreAuth seed ctx r s) as [e s1] eqn:E. cbn [fst snd] in H. injection H as <- <-.
      apply CreatePreAuth_budgets in E as [[He ->]|(_ & Ha & _)]; [by left|]. right. eauto.
Qed.

(** Consecutive times are at least a minute apart. *)
Definition spaced (log : list Time) : Prop :=
  ∀ i t u, log !! i = Some t → log !! S i = Some u → t + minimumSendGap <= u.

Lemma spaced_snoc log t :
  spaced log → (∀ u, last log = Some u → u + minimumSendGap <= t) → spaced (log ++ [t]).
Proof.
  intros Hs Hl i u v Hu Hv.
  destruct (decide (S i < length log)%nat) as [Hlt|Hge].
  - rewrite lookup_app_l in Hu by lia. rewrite lookup_app_l in Hv by lia. eauto.
  - assert (Hi : S i = length log).
    { apply lookup_lt_Some in Hv. rewrite length_app in Hv. cbn in Hv. lia. }
    rewrite lookup_app_l in Hu by lia. rewrite Hi, lookup_app_r, Nat.sub_diag in Hv by lia.
    injection Hv as <-. apply Hl. rewrite last_lookup, <-Hi. done.
Qed.

Lemma drop_until_last c log u : last log = Some u → c < u → last (drop_until c log) = Some u.
Proof.
  induction log as [|v log IH]; [done|]. intros Hl Hc. cbn [drop_until]. unfold After.
  destruct (c <? v) eqn:E; cbn [negb]; [done|]. apply Z.ltb_ge in E.
  destruct log as [|w log]; [cbn in Hl; injection Hl as ->; lia|]. by apply IH.
Qed.

Lemma history_spaced k ops s T log :
  clock_from T ops → (∃ c, c <= T - budgetWindow ∧ spent_of (addressSends s) k = drop_until c log) →
  spaced log → spaced (log ++ counted_times AddressSends k (fst (history ops s))).
Proof.
  revert s T log; induction ops as [|o ops IH]; intros s T log Hclk (c & Hc & Hlog) Hsp; cbn [history].
  { cbn. by rewrite app_nil_r. }
  destruct (exec o s) as [ans s1] eqn:E. pose proof (exec_address k o s ans s1 E) as Hstep.
  cbn [clock_from] in Hclk. specialize (IH s1).
  destruct (history ops s1) as [events s2]. cbn [fst] in *. unfold counted_times in *. cbn [omap list_omap].
  destruct (counted AddressSends k (o, ans)) as [t|]; cbv zeta in Hstep.
  - destruct Hstep as (Ht & Hs & Hsoon). rewrite Ht in Hclk. destruct Hclk as [HT Hclk].
    unfold recent in Hs, Hsoon. rewrite Hlog, drop_until_le in Hs, Hsoon by lia.
    assert (Hw : minimumSendGap < budgetWindow ∧ 0 < minimumSendGap) by (vm_compute; done).
    change (t :: omap (counted AddressSends k) events) with ([t] ++ omap (counted AddressSends k) events).
    rewrite app_assoc. apply (IH t); [done| |].
    + exists (t - budgetWindow). split; [lia|]. rewrite drop_until_snoc by lia. done.
    + apply spaced_snoc; [done|]. intros u Hu.
      destruct (Z.lt_ge_cases (t - budgetWindow) u) as [Hlt|Hge]; [|lia].
      unfold too_soon in Hsoon. rewrite (drop_until_last _ _ _ Hu Hlt) in Hsoon.
      apply Z.ltb_ge in Hsoon. unfold Sub in Hsoon. unfold minimumSendGap, Minute, Second in *. lia.
  - destruct Hstep as [Hs|(t & Ht & Hs)].
    + destruct (op_time o) as [t|]; [destruct Hclk as [HT Hclk]|].
      * apply (IH t); [done| |done]. exists c. split; [lia|congruence].
      * apply (IH T); [done| |done]. exists c. split; [lia|congruence].
    + rewrite Ht in Hclk. destruct Hclk as [HT Hclk]. apply (IH t); [done| |done].
      exists (t - budgetWindow). split; [lia|]. rewrite Hs, Hlog. unfold recent. apply drop_until_le. lia.
Qed.

(** C22: The abuse budgets hold over every history of the store whose clock does
    not run backwards: in any hour at most five challenges are reserved for an
    address and twenty from a source, at most twenty browser bootstraps succeed
    for a source, and at most a hundred verifications from a source are answered
    with anything but "rate limited"; replacing, verifying, invalidating or
    evicting challenges in between does not refill a budget.  Two challenges for
    one address are at least a minute apart. *)
Theorem budgets_respected cap s ops T l k t :
  NewMemoryStore cap = Ok s → clock_from T ops →
  count (List.filter (in_hour t) (counted_times l k (fst (history ops s)))) <= limit_of l
  ∧ spaced (counted_times AddressSends k (fst (history ops s))).
Proof.
  unfold NewMemoryStore. destruct (cap <=? 0); [done|]. intros [= <-] Hclk.
  match goal with |- context [history ops ?s0] => set (s := s0) end. split.
  - destruct (history_tracked l k ops s T []) as (T' & log' & more & _ & -> & Hsub & Htr); [done| |].
    + split; [exists (T - budgetWindow); split; [lia|by destruct l]|constructor|].
      intros t'. cbn. by destruct l.
    + apply (windowed_sublist _ more); [done|]. apply Htr.
  - apply (history_spaced k ops s T []); [done| |by intros ???].
    exists (T - budgetWindow). split; [lia|done].
Qed.

Definition example_reservation (id email : string) (now : Time) : Reservation :=
  {| reservation_ID := id; reservation_Email := email; reservation_KeyID := "k1";
     reservation_Purpose := PurposeNative; reservation_Verifier := replicate 32 1;
     reservation_Binding := zero_digest; reservation_IssuedAt := now;
     reservation_ExpiresAt := now + 5 * Minute; reservation_Source := "192.0.2.1" |}.

Definition empty_store (cap : Z) : MemoryStore :=
  {| capacity := cap; challenges := ∅; active := ∅; identities := ∅; sessions := ∅;
     browserStates := ∅; addressSends := ∅; sourceSends := ∅; browserBootstraps := ∅;
     addressFailures := ∅; sourceVerifications := ∅ |}.

Lemma budgets_respected_witness :
  let ops := [OReserve 0 Background (example_reservation "a" "ada@example.com" 0);
              OReserve 0 Background (example_reservation "b" "ada@example.com" Second);
              OReserve 0 Background (example_reservation "c" "ada@example.com" Minute)] in
  counted_times AddressSends "ada@example.com" (fst (history ops (empty_store 10))) = [0; Minute]
  ∧ count (List.filter (in_hour Minute)
      (counted_times AddressSends "ada@example.com" (fst (history ops (empty_store 10))))) <= 5.
Proof.
  intros ops. split; [vm_compute; reflexivity|].
  apply (budgets_respected 10 (empty_store 10) ops 0 AddressSends "ada@example.com" Minute).
  - reflexivity.
  - cbn. unfold Minute, Second. lia.
Defined.
