(* ===== verification/MemoryStoreInv.v ===== *)
(** * The in-process store: its structural invariant

    [wf] ties the maps of the store together: the index of active challenges
    agrees with the challenges it points to, a session belongs to a recorded
    identity, counters and collections stay within their bounds.  Every operation
    preserves it, and what it says of credentials is what makes them single use. *)

From S2P Require Import Prelude GoStrings Sha256 AuthCore MemoryStore MemoryStoreSpec.

#[local] Open Scope Z_scope.

(** ** The invariant, map by map *)

(** The index and the challenges: each index entry points to a live challenge
    filed under its own ID whose purpose and address are the key, and each live
    challenge is the one its key points to. *)
Definition index_ok (cs : gmap string storedChallenge) (ix : gmap string string) : Prop :=
  (∀ key id, ix !! key = Some id →
     id ≠ "" ∧ ∃ c, cs !! id = Some c ∧ live c = true ∧ activeKey (reservation c) = key)
  ∧ (∀ id c, cs !! id = Some c → live c = true → ix !! activeKey (reservation c) = Some id).

Definition challenge_ok (id : string) (c : storedChallenge) : Prop :=
  reservation_ID (reservation c) = id ∧ 0 <= failed c <= challengeAttempts.

Definition identity_ok (e : string) (i : Identity) : Prop := identity_ID i ≠ "" ∧ identity_Email i = e.

Definition session_ok (ids : gmap string Identity) (id : string) (x : storedSession) : Prop :=
  session_ID (record x) = id ∧ session_IdentityID (record x) = identity_ID (identity x)
  ∧ ids !! identity_Email (identity x) = Some (identity x)
  ∧ session_CreatedAt (record x) <= session_LastSeenAt (record x) < session_ExpiresAt (record x).

Definition browser_ok (id : string) (r : PreAuthRecord) : Prop :=
  pre_ID r = id ∧ pre_record_ExpiresAt r = pre_IssuedAt r + preAuthTTL.

Definition budget_ok (limit : Z) (_ : string) (vs : list Time) : Prop := 0 < count vs <= limit.

Definition within_capacity {A} (cap : Z) (m : gmap string A) : Prop := Z.of_nat (size m) <= cap.

Record wf (s : MemoryStore) : Prop := {
  wf_index : index_ok (challenges s) (active s);
  wf_challenges : map_Forall challenge_ok (challenges s);
  wf_identities : map_Forall identity_ok (identities s);
  wf_sessions : map_Forall (session_ok (identities s)) (sessions s);
  wf_browser : map_Forall browser_ok (browserStates s);
  wf_budgets :
    map_Forall (budget_ok addressSendLimit) (addressSends s)
    ∧ map_Forall (budget_ok sourceSendLimit) (sourceSends s)
    ∧ map_Forall (budget_ok bootstrapLimit) (browserBootstraps s)
    ∧ map_Forall (budget_ok addressVerifyLimit) (addressFailures s)
    ∧ map_Forall (budget_ok sourceVerifyLimit) (sourceVerifications s);
  wf_capacity :
    0 < capacity s ∧ within_capacity (capacity s) (challenges s)
    ∧ within_capacity (capacity s) (identities s) ∧ within_capacity (capacity s) (sessions s)
    ∧ within_capacity (capacity s) (browserStates s);
  wf_budget_capacity :
    within_capacity (capacity s) (addressSends s) ∧ within_capacity (capacity s) (sourceSends s)
    ∧ within_capacity (capacity s) (browserBootstraps s)
    ∧ within_capacity (capacity s) (addressFailures s)
    ∧ within_capacity (capacity s) (sourceVerifications s);
}.

(** What the callers of the store guarantee: the identifiers they draw are not
    empty. *)
Definition op_ok (o : op) : Prop :=
  match o with
  | OReserve _ _ r => reservation_ID r ≠ ""
  | OVerify _ _ a => attempt_IdentityID a ≠ ""
  | _ => True
  end.

(** ** Sizes *)

Lemma size_delete_le {A} (m : gmap string A) i : (size (delete i m) <= size m)%nat.
Proof. rewrite map_size_delete. destruct (m !! i); unfold Datatypes.id; lia. Qed.

Lemma size_insert_le {A} (m : gmap string A) i x : (size (<[i := x]> m) <= S (size m))%nat.
Proof. rewrite map_size_insert. destruct (m !! i); unfold Datatypes.id; cbn; lia. Qed.

Lemma size_alter {A} (f : A → A) i (m : gmap string A) : size (alter f i m) = size m.
Proof.
  destruct (m !! i) as [x|] eqn:E.
  - rewrite <-(insert_id m i x E) at 1. rewrite alter_insert_eq. by rewrite map_size_insert_Some by eauto.
  - f_equal. apply map_eq. intros j. rewrite lookup_alter. case_decide; [subst; by rewrite E|done].
Qed.

Lemma size_omap_le {A} (f : A → option A) (m : gmap string A) : (size (omap f m) <= size m)%nat.
Proof.
  rewrite <-(size_dom (omap f m)), <-(size_dom m). apply subseteq_size. intros i.
  rewrite !elem_of_dom, lookup_omap. intros [y Hy].
  destruct (m !! i); [eauto|done].
Qed.

Lemma within_delete {A} cap (m : gmap string A) i :
  within_capacity cap m → within_capacity cap (delete i m).
Proof. unfold within_capacity. pose proof (size_delete_le m i). lia. Qed.

Lemma within_alter {A} cap (f : A → A) i (m : gmap string A) :
  within_capacity cap m → within_capacity cap (alter f i m).
Proof. unfold within_capacity. by rewrite size_alter. Qed.

Lemma within_prune cap now b : within_capacity cap b → within_capacity cap (prune_budget now b).
Proof.
  unfold within_capacity, prune_budget. intros H.
  match goal with |- context [omap ?f b] => pose proof (size_omap_le f b) end. lia.
Qed.

(** Filling an entry when there is room for a new one. *)
Lemma within_insert {A} s (m : gmap string A) i x :
  no_room s m i = false → within_capacity (capacity s) m → within_capacity (capacity s) (<[i := x]> m).
Proof.
  unfold no_room, full, within_capacity. intros Hr Hm.
  destruct (m !! i) as [y|] eqn:E; [by rewrite map_size_insert_Some by eauto|].
  rewrite map_size_insert_None by done. rewrite bool_decide_true in Hr by done. cbn in Hr.
  apply Z.leb_gt in Hr. lia.
Qed.

(** ** Budgets *)

Lemma recent_le vs now : count (recent vs now) <= count vs.
Proof.
  unfold count, recent. induction vs as [|v vs IH]; [done|]. cbn [drop_until].
  destruct (negb _); cbn [length]; lia.
Qed.

Lemma budget_prune_ok limit now b :
  map_Forall (budget_ok limit) b → map_Forall (budget_ok limit) (prune_budget now b).
Proof.
  intros H k vs. unfold prune_budget. rewrite lookup_omap. destruct (b !! k) as [vs0|] eqn:E; [|done].
  cbn [mbind option_bind]. specialize (H k vs0 E). pose proof (recent_le vs0 now) as Hr.
  unfold budget_ok, count in *. destruct (recent vs0 now) as [|v r]; [done|]. intros [= <-].
  cbn [length] in *. lia.
Qed.

Lemma budget_charge_ok limit b k t :
  map_Forall (budget_ok limit) b → count (spent_of b k) < limit →
  map_Forall (budget_ok limit) (<[k := spent_of b k ++ [t]]> b).
Proof.
  intros H Hc. apply map_Forall_insert_2; [|done].
  unfold budget_ok, count in *. rewrite length_app. cbn [length]. lia.
Qed.

(** ** The index of active challenges *)

Lemma delete_if_indexed cs ix id c :
  index_ok cs ix → cs !! id = Some c → live c = true →
  delete_if (activeKey (reservation c)) id ix = delete (activeKey (reservation c)) ix.
Proof.
  intros [_ H] Hc Hl. unfold delete_if. by rewrite (H id c Hc Hl), bool_decide_true.
Qed.

Lemma delete_if_dead cs ix id c :
  index_ok cs ix → cs !! id = Some c → live c = false → delete_if (activeKey (reservation c)) id ix = ix.
Proof.
  intros [H _] Hc Hl. unfold delete_if. case_bool_decide as E; [|done].
  destruct (H _ _ E) as (_ & c' & Hc' & Hl' & _). congruence.
Qed.

(** Two live challenges under one key are the same. *)
Lemma live_unique cs ix id id' c c' :
  index_ok cs ix → cs !! id = Some c → cs !! id' = Some c' → live c = true → live c' = true →
  activeKey (reservation c) = activeKey (reservation c') → id = id'.
Proof. intros [_ H] Hc Hc' Hl Hl' He. apply H in Hc, Hc'; [|done..]. congruence. Qed.

(** Replacing a live challenge by a dead one, or removing it, together with its
    index entry. *)
Lemma index_retire cs cs' ix id c :
  index_ok cs ix → cs !! id = Some c → live c = true →
  (∀ j, j ≠ id → cs' !! j = cs !! j) → (∀ c', cs' !! id = Some c' → live c' = false) →
  index_ok cs' (delete (activeKey (reservation c)) ix).
Proof.
  intros Hok Hc Hl Hother Hdead. destruct (Hok) as [Hix Hlive]. split.
  - intros key j [Hne Hj]%lookup_delete_Some. destruct (Hix key j Hj) as (Hj0 & c' & Hc' & Hl' & Hk).
    split; [done|]. exists c'. rewrite Hother; [done|]. intros ->.
    rewrite Hc in Hc'. injection Hc' as ->. done.
  - intros j c' Hc' Hl'. destruct (decide (j = id)) as [->|Hne]; [by rewrite (Hdead _ Hc') in Hl'|].
    rewrite Hother in Hc' by done. rewrite lookup_delete_ne; [by apply Hlive|].
    intros He. apply Hne. by eapply live_unique.
Qed.

(** Changing a challenge without changing whether or where it is live. *)
Lemma index_frame cs ix id f :
  index_ok cs ix → (∀ c, cs !! id = Some c → live (f c) = live c ∧ reservation (f c) = reservation c) →
  index_ok (alter f id cs) ix.
Proof.
  intros [Hix Hlive] Hf. split.
  - intros key j Hj. destruct (Hix key j Hj) as (Hj0 & c & Hc & Hl & Hk). split; [done|].
    destruct (decide (id = j)) as [->|Hne].
    + destruct (Hf c Hc) as [E1 E2]. exists (f c). rewrite lookup_alter_eq, Hc, E1, E2. done.
    + exists c. rewrite lookup_alter_ne by done. done.
  - intros j c'. destruct (decide (id = j)) as [->|Hne].
    + rewrite lookup_alter_eq. destruct (cs !! j) as [c|] eqn:Hc; [|done]. cbn. intros [= <-].
      destruct (Hf c eq_refl) as [E1 E2]. rewrite E1, E2. by apply Hlive.
    + rewrite lookup_alter_ne by done. by apply Hlive.
Qed.

(** Retiring by ID, whether the challenge was live or not. *)
Lemma index_deactivate cs ix id c :
  index_ok cs ix → cs !! id = Some c →
  index_ok (alter deactivate id cs) (delete_if (activeKey (reservation c)) id ix).
Proof.
  intros Hok Hc. destruct (live c) eqn:Hl.
  - rewrite (delete_if_indexed cs) by done. eapply index_retire; [done..| |].
    + intros j Hj. by rewrite lookup_alter_ne.
    + intros c'. rewrite lookup_alter_eq, Hc. by intros [= <-].
  - rewrite (delete_if_dead cs) by done. apply index_frame; [done|].
    intros c' Hc'. rewrite Hc in Hc'. injection Hc' as <-. cbn. by rewrite Hl.
Qed.

Lemma index_remove cs ix id c :
  index_ok cs ix → cs !! id = Some c →
  index_ok (delete id cs) (delete_if (activeKey (reservation c)) id ix).
Proof.
  intros Hok Hc. destruct (live c) eqn:Hl.
  - rewrite (delete_if_indexed cs) by done. eapply index_retire; [done..| |].
    + intros j Hj. by rewrite lookup_delete_ne.
    + intros c'. by rewrite lookup_delete_eq.
  - rewrite (delete_if_dead cs) by done. destruct Hok as [Hix Hlive]. split.
    + intros key j Hj. destruct (Hix key j Hj) as (Hj0 & c' & Hc' & Hl' & Hk). split; [done|].
      exists c'. rewrite lookup_delete_ne; [done|]. intros <-. congruence.
    + intros j c' [_ Hc']%lookup_delete_Some. by apply Hlive.
Qed.

(** Filing a new live challenge under a fresh ID, after its predecessor under the
    same key was retired. *)
Lemma index_install cs ix r :
  index_ok cs ix → reservation_ID r ≠ "" → cs !! reservation_ID r = None →
  let previous := default "" (ix !! activeKey r) in
  let cs' := if negb (String.eqb previous "") then alter deactivate previous cs else cs in
  index_ok (<[reservation_ID r := {| reservation := r; failed := 0; live := true |}]> cs')
           (<[activeKey r := reservation_ID r]> ix).
Proof.
  intros Hok Hid Hfresh previous cs'. destruct Hok as [Hix Hlive].
  assert (Hfresh' : cs' !! reservation_ID r = None).
  { unfold cs'. destruct (negb _); [|done]. rewrite lookup_alter. case_decide as Hp; [|done].
    by rewrite Hp, Hfresh. }
  assert (Hcs' : ∀ j c, cs' !! j = Some c → live c = true →
    cs !! j = Some c ∧ activeKey (reservation c) ≠ activeKey r).
  { intros j c Hc Hl. unfold cs' in Hc.
    destruct (ix !! activeKey r) as [id|] eqn:E.
    - assert (Hp : previous = id) by (unfold previous; rewrite ?E; done). rewrite Hp in Hc.
      destruct (Hix _ _ E) as (Hne & c0 & Hc0 & Hl0 & Hk0).
      rewrite (proj2 (String.eqb_neq id "")) in Hc by done. cbn [negb] in Hc.
      rewrite lookup_alter in Hc. case_decide as Hij.
      + rewrite Hc0 in Hc. injection Hc as <-. done.
      + split; [done|]. intros Hk. apply Hij. specialize (Hlive j c Hc Hl). congruence.
    - assert (Hp : previous = "") by (unfold previous; rewrite ?E; done). rewrite Hp in Hc. split; [done|].
      intros Hk. specialize (Hlive j c Hc Hl). congruence. }
  split.
  - intros key j [[<- <-]|[Hne Hj]]%lookup_insert_Some.
    + split; [done|]. eexists. rewrite lookup_insert_eq. by split_and!.
    + destruct (Hix key j Hj) as (Hj0 & c & Hc & Hl & Hk). split; [done|]. exists c.
      rewrite lookup_insert_ne by congruence. split_and!; [|done..].
      unfold cs'. destruct (negb _) eqn:Hp; [|done]. rewrite lookup_alter_ne; [done|].
      intros Hpj. destruct (ix !! activeKey r) as [id|] eqn:E.
      2:{ unfold previous in Hp. rewrite ?E in Hp. done. }
      assert (Hp' : previous = id) by (unfold previous; rewrite ?E; done).
      destruct (Hix _ _ E) as (_ & c1 & Hc1 & _ & Hk1). congruence.
  - intros j c [[<- <-]|[Hne Hc]]%lookup_insert_Some.
    + intros _. cbn. by rewrite lookup_insert_eq.
    + intros Hl. destruct (Hcs' j c Hc Hl) as [Hc0 Hk]. rewrite lookup_insert_ne by done. by apply Hlive.
Qed.

(** ** Every operation preserves the invariant *)

Lemma wf_prune now s : wf s → wf (prune now s).
Proof.
  intros [Hix Hc Hi Hs Hb (B1 & B2 & B3 & B4 & B5) Hcap (C1 & C2 & C3 & C4 & C5)].
  split; cbn; try done; split_and!; first [by apply budget_prune_ok|by apply within_prune].
Qed.

Lemma wf_room_challenge seed now id s s' :
  wf s → make_room (challenges s) id (reclaimChallenge seed now s) s = Some s' →
  wf s' ∧ challenges s' !! id = None ∧ full s' (challenges s') = false
  ∧ capacity s' = capacity s
  ∧ addressSends s' = addressSends s ∧ sourceSends s' = sourceSends s.
Proof.
  intros Hwf [Hid [[Hf ->]|(old & c & Hold & _ & ->)]]%room_challenge; [done|].
  destruct Hwf as [Hix Hc Hi Hs Hb HB (P & C1 & C2 & C3 & C4) HC].
  split_and!; try done.
  - split; cbn; try done.
    + by apply index_remove.
    + by apply map_Forall_delete.
    + split_and!; try done. by apply within_delete.
  - cbn. by apply lookup_delete_None; right.
  - unfold full, within_capacity in *. cbn. apply Z.leb_gt.
    rewrite map_size_delete_Some by eauto.
    assert (size (challenges s) ≠ 0%nat) by (intros H%map_size_empty_inv; rewrite H in Hold; done). lia.
Qed.

Lemma wf_room_session seed now id s s' :
  wf s → make_room (sessions s) id (reclaimSession seed now s) s = Some s' →
  wf s' ∧ sessions s' !! id = None ∧ full s' (sessions s') = false
  ∧ capacity s' = capacity s ∧ challenges s' = challenges s ∧ active s' = active s
  ∧ identities s' = identities s.
Proof.
  intros Hwf [Hid [[Hf ->]|(old & x & Hold & _ & ->)]]%room_session; [done|].
  destruct Hwf as [Hix Hc Hi Hs Hb HB (P & C1 & C2 & C3 & C4) HC].
  split_and!; try done.
  - split; cbn; try done.
    + by apply map_Forall_delete.
    + split_and!; try done. by apply within_delete.
  - cbn. by apply lookup_delete_None; right.
  - unfold full, within_capacity in *. cbn. apply Z.leb_gt.
    rewrite map_size_delete_Some by eauto.
    assert (size (sessions s) ≠ 0%nat) by (intros H%map_size_empty_inv; rewrite H in Hold; done). lia.
Qed.

Lemma wf_room_browser seed now id s s' :
  wf s → make_room (browserStates s) id (reclaimBrowserState seed now s) s = Some s' →
  wf s' ∧ browserStates s' !! id = None ∧ full s' (browserStates s') = false
  ∧ capacity s' = capacity s ∧ browserBootstraps s' = browserBootstraps s.
Proof.
  intros Hwf [Hid [[Hf ->]|(old & x & Hold & _ & ->)]]%room_browser; [done|].
  destruct Hwf as [Hix Hc Hi Hs Hb HB (P & C1 & C2 & C3 & C4) HC].
  split_and!; try done.
  - split; cbn; try done.
    + by apply map_Forall_delete.
    + split_and!; try done. by apply within_delete.
  - cbn. by apply lookup_delete_None; right.
  - unfold full, within_capacity in *. cbn. apply Z.leb_gt.
    rewrite map_size_delete_Some by eauto.
    assert (size (browserStates s) ≠ 0%nat) by (intros H%map_size_empty_inv; rewrite H in Hold; done). lia.
Qed.

Lemma map_Forall_alter {A} (P : string → A → Prop) f i (m : gmap string A) :
  map_Forall P m → (∀ x, m !! i = Some x → P i x → P i (f x)) → map_Forall P (alter f i m).
Proof.
  intros H Hf j y. rewrite lookup_alter. case_decide as E; [subst|by apply H].
  destruct (m !! j) as [x|] eqn:Hx; [|done]. cbn. intros [= <-]. apply Hf; [done|]. by apply H.
Qed.

Lemma within_new {A} s (m : gmap string A) i x :
  full s m = false → within_capacity (capacity s) m → within_capacity (capacity s) (<[i := x]> m).
Proof.
  intros Hf. apply within_insert. unfold no_room. by rewrite Hf, andb_false_r.
Qed.

Lemma wf_Reserve seed ctx r s : reservation_ID r ≠ "" → wf s → wf (snd (Reserve seed ctx r s)).
Proof.
  intros Hid Hwf. unfold Reserve. destruct (ctx 0%nat); [done|]. cbv zeta.
  pose proof (wf_prune (reservation_IssuedAt r) s Hwf) as Hwf0. set (s0 := prune _ s) in *.
  destruct (_ || _ || _) eqn:G; [done|]. rewrite !orb_false_iff, !Z.leb_gt in G. destruct G as [[G1 G2] _].
  destruct (make_room _ _ _ _) as [s1|] eqn:R; [|done].
  destruct (wf_room_challenge _ _ _ _ _ Hwf0 R) as (Hwf1 & Hfresh & Hfull & Hcap & Ha & Hs).
  rewrite <-Ha in G1 |- *. rewrite <-Hs in G2 |- *.
  destruct (no_room s1 (addressSends s1) _) eqn:N1; [done|].
  destruct (no_room s1 (sourceSends s1) _) eqn:N2; [done|]. cbn [snd].
  destruct Hwf1 as [Hix Hc Hi Hs' Hb (B1 & B2 & B3 & B4 & B5) (P & C1 & C2 & C3 & C4) (D1 & D2 & D3 & D4 & D5)].
  pose proof (index_install (challenges s1) (active s1) r Hix Hid Hfresh) as Hnew. cbv zeta in Hnew.
  assert (Hcs : map_Forall challenge_ok (if negb (String.eqb (default "" (active s1 !! activeKey r)) "")
     then alter deactivate (default "" (active s1 !! activeKey r)) (challenges s1) else challenges s1)
     ∧ size (if negb (String.eqb (default "" (active s1 !! activeKey r)) "")
     then alter deactivate (default "" (active s1 !! activeKey r)) (challenges s1) else challenges s1)
     = size (challenges s1)).
  { destruct (negb _); [|done]. rewrite size_alter. split; [|done].
    apply map_Forall_alter; [done|]. by intros c _ [? ?]. }
  destruct Hcs as [Hcs Hsize].
  cbn [active set_budgets set_challenges]. destruct (negb _); cbn in *.
  all: split; cbn; try done; split_and?; try done;
    first [ by apply budget_charge_ok | by apply within_insert
          | by apply map_Forall_insert_2; [split; cbn; [done|unfold challengeAttempts; lia]|]
          | unfold within_capacity, full in *; apply Z.leb_gt in Hfull;
            etransitivity; [apply inj_le, size_insert_le|]; lia ].
Qed.

Lemma wf_accept seed a stored s :
  attempt_IdentityID a ≠ "" → wf s → challenges s !! attempt_ID a = Some stored → live stored = true →
  wf (snd (accept seed a stored s)).
Proof.
  intros Hid Hwf Hst Hl. unfold accept. destruct (_ || _ || _ || _) eqn:G; [done|].
  rewrite !orb_false_iff, !negb_false_iff, !Z.eqb_eq in G. unfold After in G. rewrite Z.ltb_lt in G.
  destruct G as (((_ & G1) & G2) & G3).
  destruct (make_room _ _ _ _) as [s1|] eqn:R; [|done].
  destruct (wf_room_session _ _ _ _ _ Hwf R) as (Hwf1 & Hfresh & Hfull & Hcap & Hcs & Hac & His).
  rewrite <-Hcs in Hst. clear Hwf R.
  destruct Hwf1 as [Hix Hc Hi Hs Hb HB (P & C1 & C2 & C3 & C4) HD].
  pose proof (index_deactivate _ _ _ _ Hix Hst) as Hix'.
  rewrite (delete_if_indexed (challenges s1)) in Hix' by done.
  assert (Hc' : map_Forall challenge_ok (alter deactivate (attempt_ID a) (challenges s1))).
  { apply map_Forall_alter; [done|]. by intros c _ [? ?]. }
  destruct (String.eqb (identity_ID (default no_identity (identities s1 !! reservation_Email (reservation stored)))) "") eqn:K;
    cbn [andb].
  - destruct (full s1 (identities s1)) eqn:F; [done|]. cbn [snd].
    assert (Hnone : identities s1 !! reservation_Email (reservation stored) = None).
    { destruct (identities s1 !! reservation_Email (reservation stored)) as [i|] eqn:E; [|done].
      apply String.eqb_eq in K. cbn in K. by destruct (Hi _ _ E). }
    split; cbn; try done.
    + by apply map_Forall_insert_2.
    + apply map_Forall_insert_2.
      * split_and!; cbn; [done|done|by rewrite lookup_insert_eq|lia|lia].
      * eapply map_Forall_impl; [exact Hs|]. intros id x (S1 & S2 & S3 & S4). split_and!; try done; try lia.
        rewrite lookup_insert_ne; [done|]. intros E. rewrite <-E in S3. congruence.
    + split_and!; try done; [by apply within_alter|by apply within_new..].
  - cbn [snd]. destruct (identities s1 !! reservation_Email (reservation stored)) as [i|] eqn:E; [|done].
    change (default no_identity (Some i)) with i in *. destruct (Hi _ _ E) as [Hi1 Hi2].
    split; cbn; try done.
    + apply map_Forall_insert_2; [|done]. split_and!; cbn; [done|done|by rewrite Hi2|lia|lia].
    + split_and!; try done; [by apply within_alter|by apply within_new].
Qed.

Lemma wf_reject a stored s :
  wf s → challenges s !! attempt_ID a = Some stored → failed stored < challengeAttempts →
  wf (snd (reject a stored s)).
Proof.
  intros Hwf Hst Hf. unfold reject. destruct (no_room _ _ _) eqn:N; [done|]. cbv zeta.
  destruct (_ <=? _) eqn:G; [done|]. apply Z.leb_gt in G. cbn [snd].
  destruct Hwf as [Hix Hc Hi Hs Hb (B1 & B2 & B3 & B4 & B5) (P & C1 & C2 & C3 & C4) (D1 & D2 & D3 & D4 & D5)].
  split; cbn; try done; split_and?; try done.
  - by apply index_frame.
  - apply map_Forall_alter; [done|]. intros c Hc'. rewrite Hst in Hc'. injection Hc' as <-.
    intros [? ?]. split; cbn; [done|lia].
  - by apply budget_charge_ok.
  - by apply within_alter.
  - by apply within_insert.
Qed.

Lemma wf_Verify seed ctx a s : attempt_IdentityID a ≠ "" → wf s → wf (snd (Verify seed ctx a s)).
Proof.
  intros Hid Hwf. unfold Verify. destruct (ctx 0%nat); [done|]. cbv zeta.
  pose proof (wf_prune (attempt_Now a) s Hwf) as Hwf0. set (s0 := prune _ s) in *.
  destruct (no_room _ _ _) eqn:N; [done|]. destruct (_ <=? _) eqn:G; [done|]. apply Z.leb_gt in G.
  match goal with |- context [challenges ?x !! attempt_ID a] => set (s1 := x) in * end.
  assert (Hwf1 : wf s1).
  { destruct Hwf0 as [Hix Hc Hi Hs Hb (B1 & B2 & B3 & B4 & B5) HC (D1 & D2 & D3 & D4 & D5)].
    split; cbn -[prune]; try done; split_and!; try done.
    - by apply budget_charge_ok.
    - by apply within_insert. }
  destruct (challenges s1 !! attempt_ID a) as [stored|] eqn:E; [|done].
  destruct (_ || _ || _ || _) eqn:K; [done|]. rewrite !orb_false_iff, !negb_false_iff, !Z.leb_gt in K.
  destruct K as (((K1 & K2) & _) & _).
  destruct (negb _); [by apply wf_reject|by apply wf_accept].
Qed.

Lemma wf_Invalidate ctx id s : wf s → wf (snd (Invalidate ctx id s)).
Proof.
  intros Hwf. unfold Invalidate. destruct (ctx 0%nat); [done|].
  destruct (challenges s !! id) as [stored|] eqn:E; [|done].
  destruct Hwf as [Hix Hc Hi Hs Hb HB (P & C1 & C2 & C3 & C4) HD].
  split; cbn; try done; split_and?; try done.
  - by apply index_deactivate.
  - apply map_Forall_alter; [done|]. by intros c _ [? ?].
  - by apply within_alter.
Qed.

(** Operations on sessions only. *)
Lemma wf_set_sessions s m :
  wf s → map_Forall (session_ok (identities s)) m → size m = size (sessions s) → wf (set_sessions s m).
Proof.
  intros [Hix Hc Hi Hs Hb HB (P & C1 & C2 & C3 & C4) HD] Hm Hsize.
  split; cbn; try done; split_and!; try done. unfold within_capacity in *. by rewrite Hsize.
Qed.

Lemma wf_AuthenticateSession ctx p s : wf s → wf (snd (AuthenticateSession ctx p s)).
Proof.
  intros Hwf. unfold AuthenticateSession. destruct (ctx 0%nat); [done|].
  destruct (sessions s !! proof_ID p) as [x|] eqn:E; [|done].
  destruct (_ || _ || _ || _) eqn:G; [done|]. rewrite !orb_false_iff, !negb_false_iff in G.
  destruct G as (((_ & G) & _) & _). unfold within, Before in G. boolify.
  apply wf_set_sessions; [done| |apply size_alter].
  apply map_Forall_alter; [apply Hwf|]. intros y Hy (S1 & S2 & S3 & S4).
  rewrite E in Hy. injection Hy as <-. split_and!; cbn; try done; lia.
Qed.

Lemma session_ok_end ids id x : session_ok ids id x → session_ok ids id (end_session x).
Proof. done. Qed.

Lemma wf_end_sessions id s : wf s → wf (set_sessions s (end_sessions_of id (sessions s))).
Proof.
  intros Hwf. apply wf_set_sessions; [done| |apply map_size_fmap].
  intros k y. unfold end_sessions_of. rewrite lookup_fmap.
  destruct (sessions s !! k) as [x|] eqn:E; [|done]. cbn. intros [= <-].
  pose proof (wf_sessions s Hwf k x E) as Hx. by destruct (String.eqb _ _).
Qed.

Lemma wf_CreatePreAuth seed ctx r s : wf s → wf (snd (CreatePreAuth seed ctx r s)).
Proof.
  intros Hwf. unfold CreatePreAuth. destruct (ctx 0%nat); [done|]. 
  destruct (_ || _ || _ || _ || _) eqn:G; [done|]. cbv zeta.
  rewrite !orb_false_iff, negb_false_iff, Z.eqb_eq in G. destruct G as [_ G].
  pose proof (wf_prune (pre_IssuedAt r) s Hwf) as Hwf0. set (s0 := prune _ s) in *.
  destruct (_ <=? _) eqn:K; [done|]. apply Z.leb_gt in K.
  destruct (no_room _ _ _) eqn:N; [done|].
  destruct (make_room _ _ _ _) as [s1|] eqn:R; [|done].
  destruct (wf_room_browser _ _ _ _ _ Hwf0 R) as (Hwf1 & Hfresh & Hfull & Hcap & Hbb).
  rewrite <-Hbb in K, N |- *. cbn [snd].
  assert (N1 : no_room s1 (browserBootstraps s1) (pre_Source r) = false).
  { unfold no_room, full in *. by rewrite Hcap. }
  destruct Hwf1 as [Hix Hc Hi Hs Hb (B1 & B2 & B3 & B4 & B5) (P & C1 & C2 & C3 & C4) (D1 & D2 & D3 & D4 & D5)].
  split; cbn; try done; split_and?; try done.
  - apply map_Forall_insert_2; [|done]. split; cbn; [done|].
    unfold Sub, preAuthTTL, Minute, Second in *. lia.
  - by apply budget_charge_ok.
  - by apply within_new.
  - by apply within_insert.
Qed.

Lemma wf_ConsumePreAuth ctx p s : wf s → wf (snd (ConsumePreAuth ctx p s)).
Proof.
  intros Hwf. unfold ConsumePreAuth. destruct (ctx 0%nat); [done|].
  destruct (authenticateBrowserState p s); [done|].
  destruct Hwf as [Hix Hc Hi Hs Hb HB (P & C1 & C2 & C3 & C4) HD].
  split; cbn; try done; split_and?; try done.
  - by apply map_Forall_delete.
  - by apply within_delete.
Qed.

Lemma wf_exec o s : op_ok o → wf s → wf (snd (exec o s)).
Proof.
  intros Hok Hwf. destruct o; cbn [exec plain returning snd op_ok] in *.
  - by apply wf_Reserve.
  - by apply wf_Verify.
  - by apply wf_Invalidate.
  - by apply wf_AuthenticateSession.
  - unfold RevokeSession. destruct (ctx 0%nat); [done|]. destruct (sessions s !! _) eqn:E; [|done].
    destruct (_ || _); [done|]. apply wf_set_sessions; [done| |apply size_alter].
    apply map_Forall_alter; [apply Hwf|]. intros x _. apply session_ok_end.
  - unfold RevokeAllSessions. destruct (ctx 0%nat); [done|]. destruct (sessions s !! _) eqn:E; [|done].
    destruct (_ || _ || _); [done|]. by apply wf_end_sessions.
  - unfold RevokeIdentitySessions. destruct (ctx 0%nat); [done|]. by apply wf_end_sessions.
  - by apply wf_CreatePreAuth.
  - unfold AuthenticatePreAuth. by destruct (ctx 0%nat).
  - by apply wf_ConsumePreAuth.
Qed.

Lemma wf_history ops s : Forall op_ok ops → wf s → wf (snd (history ops s)).
Proof.
  revert s; induction ops as [|o ops IH]; intros s Hok Hwf; [done|]. cbn [history].
  apply Forall_cons in Hok as [Ho Hok]. pose proof (wf_exec o s Ho Hwf) as Hwf1.
  destruct (exec o s) as [ans s1]. cbn [snd] in Hwf1. specialize (IH s1 Hok Hwf1).
  by destruct (history ops s1).
Qed.

Lemma wf_new cap s : NewMemoryStore cap = Ok s → wf s.
Proof.
  unfold NewMemoryStore. destruct (cap <=? 0) eqn:E; [done|]. intros [= <-]. apply Z.leb_gt in E.
  split; cbn.
  1: split; intros ??; by rewrite ?lookup_empty.
  1-4: apply map_Forall_empty.
  1: split_and!; apply map_Forall_empty.
  all: unfold within_capacity; rewrite ?map_size_empty; split_and!; lia.
Qed.

(** C6: After any history of a new store, whatever the order in which it evicts
    stale entries, the store is well formed: counters, windows and all collections
    are within their limits and the capacity, the index agrees with the challenges,
    every session belongs to a recorded identity; in particular at most one
    challenge is live for a purpose and address. *)
Theorem store_invariant cap s ops :
  NewMemoryStore cap = Ok s → Forall op_ok ops →
  let s' := snd (history ops s) in
  wf s' ∧
  ∀ id id' c c', challenges s' !! id = Some c → challenges s' !! id' = Some c' →
    live c = true → live c' = true →
    reservation_Purpose (reservation c) = reservation_Purpose (reservation c') →
    reservation_Email (reservation c) = reservation_Email (reservation c') → id = id'.
Proof.
  intros Hnew Hok s'. assert (Hwf : wf s') by (apply wf_history; [done|by apply (wf_new cap)]).
  split; [done|]. intros id id' c c' Hc Hc' Hl Hl' Hp He.
  eapply live_unique; [apply Hwf|done..|]. unfold activeKey. by rewrite Hp, He.
Qed.

Lemma store_invariant_witness :
  wf (snd (history [OReserve 0 Background (example_reservation "a" "ada@example.com" 0);
                    OReserve 0 Background (example_reservation "b" "ada@example.com" Minute)]
             (empty_store 10))).
Proof.
  apply (store_invariant 10 (empty_store 10)); [reflexivity|].
  repeat (apply Forall_cons; split; [cbn; discriminate|]). apply Forall_nil. exact I.
Defined.
