(* ===== verification/MemoryStoreSafety.v ===== *)
(** * The in-process store: what its answers mean

    Verification, sessions and browser states over the histories of
    [MemoryStoreSpec]: who is let in, once, and who stays out. *)

From S2P Require Import Prelude GoStrings Sha256 AuthCore MemoryStore MemoryStoreSpec MemoryStoreInv.

#[local] Open Scope Z_scope.

(** ** Histories that preserve a predicate *)

Lemma history_preserves (P : MemoryStore → Prop) (Q : op → Prop) ops s :
  (∀ o s, Q o → P s → P (snd (exec o s))) → Forall Q ops → P s →
  P (snd (history ops s)) ∧
  ∀ o ans, (o, ans) ∈ fst (history ops s) → Q o ∧ ∃ s', P s' ∧ ans = fst (exec o s').
Proof.
  intros Hstep. revert s; induction ops as [|o ops IH]; intros s HQ HP; cbn [history].
  { split; [done|]. intros o ans H. by apply elem_of_nil in H. }
  apply Forall_cons in HQ as [Ho HQ]. pose proof (Hstep o s Ho HP) as HP1.
  destruct (exec o s) as [ans s1] eqn:E. cbn [snd] in HP1. destruct (IH s1 HQ HP1) as [HP2 Hev].
  destruct (history ops s1) as [events s2]. cbn [fst snd] in *. split; [done|].
  intros o' ans' [[= -> ->]|Hin]%elem_of_cons; [|by apply Hev].
  split; [done|]. exists s. split; [done|]. by rewrite E.
Qed.

(** ** Verification *)

(** The store an attempt is judged in: budgets pruned, the source charged. *)
Definition judged (a : Verification) (s : MemoryStore) : MemoryStore :=
  let s := prune (attempt_Now a) s in
  set_budgets s (addressSends s) (sourceSends s) (browserBootstraps s) (addressFailures s)
    (<[attempt_Source a := spent_of (sourceVerifications s) (attempt_Source a) ++ [attempt_Now a]]>
       (sourceVerifications s)).

(** The source may make another attempt. *)
Definition source_free (a : Verification) (s : MemoryStore) : Prop :=
  let s := prune (attempt_Now a) s in
  no_room s (sourceVerifications s) (attempt_Source a) = false
  ∧ count (spent_of (sourceVerifications s) (attempt_Source a)) < sourceVerifyLimit.

(** The challenge is open at the time of the attempt. *)
Definition open_at (now : Time) (c : storedChallenge) : Prop :=
  live c = true ∧ failed c < challengeAttempts
  ∧ reservation_IssuedAt (reservation c) <= now < reservation_ExpiresAt (reservation c).

Lemma Verify_open seed ctx a s c :
  ctx 0%nat = None → source_free a s → challenges s !! attempt_ID a = Some c → open_at (attempt_Now a) c →
  Verify seed ctx a s =
  if matches (reservation c) a then accept seed a c (judged a s) else reject a c (judged a s).
Proof.
  intros Hctx [Hroom Hlim] Hc (Hl & Hf & Hw). unfold Verify. rewrite Hctx. cbv zeta.
  rewrite Hroom, (proj2 (Z.leb_gt _ _) Hlim).
  change (challenges (set_budgets _ _ _ _ _ _)) with (challenges s). rewrite Hc.
  unfold Before. rewrite Hl, (proj2 (Z.leb_gt _ _) Hf), (proj2 (Z.ltb_ge _ _)), (proj2 (Z.ltb_lt _ _)) by lia.
  cbn [negb orb]. by destruct (matches _ _).
Qed.

(** An accepted attempt was made on an open challenge it matches. *)
Lemma Verify_Ok_open seed ctx a s i s' :
  Verify seed ctx a s = (Ok i, s') →
  ctx 0%nat = None ∧ source_free a s ∧
  ∃ c, challenges s !! attempt_ID a = Some c ∧ open_at (attempt_Now a) c
    ∧ matches (reservation c) a = true ∧ accept seed a c (judged a s) = (Ok i, s').
Proof.
  unfold Verify. destruct (ctx 0%nat); [done|]. cbv zeta.
  destruct (no_room _ _ _) eqn:N; [done|]. destruct (_ <=? _) eqn:G; [done|]. apply Z.leb_gt in G.
  change (challenges (set_budgets _ _ _ _ _ _)) with (challenges s).
  destruct (challenges s !! attempt_ID a) as [c|] eqn:E; [|done].
  destruct (_ || _ || _ || _) eqn:K; [done|]. unfold Before in K.
  rewrite !orb_false_iff, !negb_false_iff, Z.leb_gt, Z.ltb_ge, Z.ltb_lt in K. destruct K as (((K1 & K2) & K3) & K4).
  destruct (matches _ _) eqn:M; cbn [negb].
  - intros H. split_and!; [done..|]. exists c. by split_and!.
  - intros H. exfalso. unfold reject in H. destruct (no_room _ (addressFailures _) _); [done|].
    cbv zeta in H. by destruct (_ <=? _).
Qed.

(** What [accept] leaves when it answers an identity. *)
Lemma accept_Ok seed a c s i s' :
  wf s → accept seed a c s = (Ok i, s') →
  let sid := session_ID (attempt_Session a) in
  let mailbox := reservation_Email (reservation c) in
  sid ≠ "" ∧ session_CreatedAt (attempt_Session a) = attempt_Now a
  ∧ attempt_Now a < session_ExpiresAt (attempt_Session a)
  ∧ sessions s !! sid = None
  ∧ identity_Email i = mailbox
  ∧ (∀ known, identities s !! mailbox = Some known → i = known)
  ∧ (identities s !! mailbox = None →
      i = {| identity_ID := attempt_IdentityID a; identity_Email := mailbox; identity_CreatedAt := attempt_Now a |})
  ∧ identities s' !! mailbox = Some i
  ∧ sessions s' !! sid = Some {| record := with_identity (attempt_Session a) (identity_ID i);
                                 identity := i; session_active := true |}
  ∧ challenges s' = alter deactivate (attempt_ID a) (challenges s)
  ∧ (∀ k x, k ≠ sid → sessions s' !! k = Some x → sessions s !! k = Some x)
  ∧ (∀ k x, sessions s !! k = Some x → stale_session (attempt_Now a) x = false → sessions s' !! k = Some x).
Proof.
  intros Hwf. unfold accept. destruct (_ || _ || _ || _) eqn:G; [done|]. unfold After in G.
  rewrite !orb_false_iff, !negb_false_iff, !Z.eqb_eq, String.eqb_neq, Z.ltb_lt in G.
  destruct G as (((G0 & G1) & G2) & G3).
  destruct (make_room _ _ _ _) as [s1|] eqn:R; [|done].
  destruct (wf_room_session _ _ _ _ _ Hwf R) as (Hwf1 & Hfresh & _ & _ & Hcs & _ & His).
  apply room_session in R as [Hnone R].
  assert (Hold : ∀ k x, sessions s1 !! k = Some x → sessions s !! k = Some x).
  { destruct R as [[_ ->]|(old & y & _ & _ & ->)]; [done|]. cbn. by intros k x [_ ?]%lookup_delete_Some. }
  assert (Hkeep : ∀ k x, sessions s !! k = Some x → stale_session (attempt_Now a) x = false →
                    sessions s1 !! k = Some x).
  { destruct R as [[_ ->]|(old & y & Hy & Hst & ->)]; [done|]. cbn. intros k x Hx Hf.
    rewrite lookup_delete_ne; [done|]. intros ->. congruence. }
  destruct (_ && _) eqn:F; [done|]. rewrite His in *.
  assert (Hid : ∀ known, identities s !! reservation_Email (reservation c) = Some known →
            identity_ID known ≠ "" ∧ identity_Email known = reservation_Email (reservation c))
    by (intros known Hk; by apply (wf_identities s Hwf)).
  destruct (identities s !! reservation_Email (reservation c)) as [known|] eqn:E.
  - destruct (Hid known eq_refl) as [Hn He]. change (default no_identity (Some known)) with known.
    rewrite (proj2 (String.eqb_neq _ _) Hn). intros [= <- <-]. cbn -[alter insert lookup]. rewrite His, Hcs.
    split_and!; try done.
    + by intros k [= ->].
    + by rewrite lookup_insert_eq.
    + intros k x Hk. rewrite lookup_insert_ne by done. apply Hold.
    + intros k x Hx Hf. rewrite lookup_insert_ne; [by apply Hkeep|]. intros <-. congruence.
  - change (identity_ID (default no_identity None)) with "". cbn [String.eqb]. intros [= <- <-].
    cbn -[alter insert lookup]. rewrite Hcs.
    split_and!; try done.
    + by rewrite lookup_insert_eq.
    + by rewrite lookup_insert_eq.
    + intros k x Hk. rewrite lookup_insert_ne by done. apply Hold.
    + intros k x Hx Hf. rewrite lookup_insert_ne; [by apply Hkeep|]. intros <-. congruence.
Qed.

Lemma wf_judged a s : wf s → source_free a s → wf (judged a s).
Proof.
  intros Hwf [Hroom Hlim]. unfold judged.
  pose proof (wf_prune (attempt_Now a) s Hwf) as Hwf0. cbv zeta in *. set (s0 := prune _ s) in *.
  destruct Hwf0 as [Hix Hc Hi Hs Hb (B1 & B2 & B3 & B4 & B5) HC (D1 & D2 & D3 & D4 & D5)].
  split; cbn -[prune]; try done; split_and!; try done; [by apply budget_charge_ok|by apply within_insert].
Qed.

(** An attempt that carries a proper new session and finds room in the store. *)
Definition well_prepared (a : Verification) (s : MemoryStore) : Prop :=
  let session := attempt_Session a in
  session_ID session ≠ "" ∧ session_CreatedAt session = attempt_Now a
  ∧ session_LastSeenAt session = attempt_Now a ∧ attempt_Now a < session_ExpiresAt session
  ∧ sessions s !! session_ID session = None
  ∧ Z.of_nat (size (sessions s)) < capacity s ∧ Z.of_nat (size (identities s)) < capacity s.

(** A matching attempt on an open challenge is accepted where there is room. *)
Lemma Verify_complete seed ctx a s c :
  ctx 0%nat = None → source_free a s → well_prepared a s →
  challenges s !! attempt_ID a = Some c → open_at (attempt_Now a) c →
  matches (reservation c) a = true → ∃ i s', Verify seed ctx a s = (Ok i, s').
Proof.
  intros Hctx Hfree (P1 & P2 & P3 & P4 & P5 & P6 & P7) Hc Ho Hm.
  rewrite (Verify_open _ _ _ _ c) by done. rewrite Hm. unfold accept.
  rewrite (proj2 (String.eqb_neq _ _) P1), (proj2 (Z.eqb_eq _ _) P2), (proj2 (Z.eqb_eq _ _) P3).
  unfold After. rewrite (proj2 (Z.ltb_lt _ _) P4). cbn [negb orb].
  unfold make_room. rewrite bool_decide_false by (intros [? Hx]; cbn in Hx; congruence).
  assert (Hf : full (judged a s) (sessions (judged a s)) = false) by (apply Z.leb_gt; cbn; lia).
  assert (Hf' : full (judged a s) (identities (judged a s)) = false) by (apply Z.leb_gt; cbn; lia).
  rewrite Hf, Hf', andb_false_r. eauto.
Qed.

(** What an accepted attempt was and what it leaves. *)
Lemma Verify_sound seed ctx a s i s' :
  wf s → Verify seed ctx a s = (Ok i, s') →
  ∃ c, challenges s !! attempt_ID a = Some c ∧ open_at (attempt_Now a) c
    ∧ matches (reservation c) a = true
    ∧ identity_Email i = attempt_Email a
    ∧ (∀ known, identities s !! attempt_Email a = Some known → i = known)
    ∧ identities s' !! attempt_Email a = Some i
    ∧ sessions s' !! session_ID (attempt_Session a) =
        Some {| record := with_identity (attempt_Session a) (identity_ID i);
                identity := i; session_active := true |}
    ∧ (∀ k x, k ≠ session_ID (attempt_Session a) → sessions s' !! k = Some x → sessions s !! k = Some x)
    ∧ challenges s' = alter deactivate (attempt_ID a) (challenges s).
Proof.
  intros Hwf H. apply Verify_Ok_open in H as (Hctx & Hfree & c & Hc & Ho & Hm & Ha).
  apply accept_Ok in Ha; [|by apply wf_judged].
  destruct Ha as (_ & _ & _ & _ & He & Hk & _ & Hi & Hs & Hch & Hold & _).
  assert (Hmail : reservation_Email (reservation c) = attempt_Email a).
  { unfold matches in Hm. rewrite !andb_true_iff in Hm. destruct Hm as [[[[Hm _] _] _] _]. by apply String.eqb_eq. }
  rewrite Hmail in *. exists c. by split_and!.
Qed.


Definition example_attempt (id email : string) (digit : Z) (now : Time) : Verification :=
  {| attempt_ID := id; attempt_Email := email; attempt_KeyID := "k1"; attempt_Purpose := PurposeNative;
     attempt_Verifier := replicate 32 digit; attempt_Binding := zero_digest; attempt_Now := now;
     attempt_Source := "192.0.2.1"; attempt_IdentityID := "identity-1";
     attempt_Session := {| session_ID := "session-1"; session_IdentityID := "";
       session_Digest := replicate 32 8; session_CSRFDigest := replicate 32 9;
       session_CreatedAt := now; session_LastSeenAt := now;
       session_ExpiresAt := now + sessionAbsoluteTTL |} |}.

Definition example_store : MemoryStore :=
  snd (Reserve 0 Background (example_reservation "a" "ada@example.com" 0) (empty_store 10)).

Lemma example_store_wf : wf example_store.
Proof. apply wf_Reserve; [done|]. by apply (wf_new 10). Qed.


(** ** A challenge is won once *)

Definition dead (id : string) (s : MemoryStore) : Prop :=
  ∀ c, challenges s !! id = Some c → live c = false.

Definition no_new_challenge (id : string) (o : op) : Prop :=
  match o with OReserve _ _ r => reservation_ID r ≠ id | _ => True end.

Lemma dead_alter id f (cs : gmap string storedChallenge) j :
  (∀ c, live (f c) = true → live c = true) →
  (∀ c, cs !! j = Some c → live c = false) →
  ∀ c, alter f id cs !! j = Some c → live c = false.
Proof.
  intros Hf Hd c. rewrite lookup_alter. case_decide as E; [|apply Hd]. subst.
  destruct (cs !! j) as [c0|] eqn:E; [|done]. cbn. intros [= <-].
  specialize (Hd c0 eq_refl). destruct (live (f c0)) eqn:L; [|done]. apply Hf in L. congruence.
Qed.

Lemma dead_room id seed now j s s' :
  dead id s → make_room (challenges s) j (reclaimChallenge seed now s) s = Some s' → dead id s'.
Proof.
  intros Hd [_ [[_ ->]|(old & c & _ & _ & ->)]]%room_challenge; [done|].
  intros c'. cbn. intros [_ H]%lookup_delete_Some. by apply Hd.
Qed.

Lemma accept_challenges seed a c s :
  challenges (snd (accept seed a c s)) = challenges s
  ∨ challenges (snd (accept seed a c s)) = alter deactivate (attempt_ID a) (challenges s).
Proof.
  unfold accept. destruct (_ || _ || _ || _); [by left|].
  destruct (make_room _ _ _ _) as [s1|] eqn:R; [|by left].
  assert (Hcs : challenges s1 = challenges s).
  { apply room_session in R as [_ R]. by destruct R as [[_ ->]|(? & ? & _ & _ & ->)]. }
  destruct (_ && _); [by left|]. right. cbn. by destruct (String.eqb _ _); cbn; rewrite Hcs.
Qed.

(** What a verification may change of the challenges. *)
Lemma Verify_challenges seed ctx a s :
  let cs := challenges (snd (Verify seed ctx a s)) in
  cs = challenges s ∨ cs = alter deactivate (attempt_ID a) (challenges s)
  ∨ cs = alter (λ c, {| reservation := reservation c; failed := failed c + 1; live := live c |})
           (attempt_ID a) (challenges s).
Proof.
  unfold Verify. destruct (ctx 0%nat); [by left|]. cbv zeta.
  destruct (no_room _ _ _); [by left|]. destruct (_ <=? _); [by left|].
  change (challenges (set_budgets _ _ _ _ _ _)) with (challenges s).
  destruct (challenges s !! attempt_ID a) as [c|]; [|by left].
  destruct (_ || _ || _ || _); [by left|]. destruct (negb _).
  - unfold reject. destruct (no_room _ _ _); [by left|]. cbv zeta. destruct (_ <=? _); [by left|]. by right; right.
  - match goal with |- context [accept seed a c ?s1] =>
      destruct (accept_challenges seed a c s1) as [H|H] end; rewrite H; auto.
Qed.

Lemma dead_exec id o s : no_new_challenge id o → dead id s → dead id (snd (exec o s)).
Proof.
  intros Ho Hd. destruct o; cbn [exec plain returning snd no_new_challenge] in *.
  - unfold Reserve. destruct (ctx 0%nat); [done|]. cbv zeta. destruct (_ || _ || _); [done|].
    destruct (make_room _ _ _ _) as [s1|] eqn:R; [|done].
    apply (dead_room id) in R; [|done]. destruct (no_room s1 _ _); [done|].
    destruct (no_room s1 _ _); [done|]. intros c'. cbn.
    rewrite lookup_insert_ne by done. destruct (negb _); [|apply R]. by apply dead_alter.
  - destruct (Verify_challenges seed ctx a s) as [H|[H|H]]; intros c; rewrite H; [apply Hd|..];
      apply dead_alter; try done; by intros [].
  - unfold Invalidate. destruct (ctx 0%nat); [done|]. destruct (challenges s !! id0) eqn:E; [|done].
    intros c. cbn. by apply dead_alter.
  - unfold AuthenticateSession. destruct (ctx 0%nat); [done|]. destruct (_ !! _); [|done]. by destruct (_ || _).
  - unfold RevokeSession. destruct (ctx 0%nat); [done|]. destruct (_ !! _); [|done]. by destruct (_ || _).
  - unfold RevokeAllSessions. destruct (ctx 0%nat); [done|]. destruct (_ !! _); [|done]. by destruct (_ || _).
  - unfold RevokeIdentitySessions. by destruct (ctx 0%nat).
  - unfold CreatePreAuth. destruct (ctx 0%nat); [done|]. destruct (_ || _ || _); [done|]. cbv zeta.
    destruct (_ <=? _); [done|]. destruct (no_room _ _ _); [done|].
    destruct (make_room _ _ _ _) as [s1|] eqn:R; [|done].
    apply room_browser in R as [_ [[_ ->]|(? & ? & _ & _ & ->)]]; done.
  - unfold AuthenticatePreAuth. by destruct (ctx 0%nat).
  - unfold ConsumePreAuth. destruct (ctx 0%nat); [done|]. by destruct (authenticateBrowserState _ _).
Qed.

Lemma dead_not_verified seed ctx a s i s' : dead (attempt_ID a) s → Verify seed ctx a s ≠ (Ok i, s').
Proof.
  intros Hd (_ & _ & c & Hc & (Hl & _) & _)%Verify_Ok_open. by rewrite (Hd c Hc) in Hl.
Qed.

(** The operation that ends a challenge: winning it, invalidating it, or
    reserving a newer one for its purpose and address. *)
Definition ends_challenge (id : string) (o : op) (s : MemoryStore) : Prop :=
  match o, fst (exec o s) with
  | OVerify _ _ a, Ok _ => attempt_ID a = id
  | OInvalidate _ j, Ok _ => j = id
  | OReserve _ _ r, Ok _ =>
      reservation_ID r ≠ id ∧
      ∀ c, challenges s !! id = Some c → live c = true → activeKey (reservation c) = activeKey r
  | _, _ => False
  end.

Lemma ends_dead id o s : wf s → ends_challenge id o s → dead id (snd (exec o s)).
Proof.
  intros Hwf. unfold ends_challenge. destruct o; try done; cbn [exec plain returning fst snd].
  - pose proof (wf_prune (reservation_IssuedAt r) s Hwf) as Hwf0.
    unfold Reserve. destruct (ctx 0%nat); [done|]. cbv zeta. destruct (_ || _ || _); [done|].
    destruct (make_room _ _ _ _) as [s1|] eqn:R; [|done].
    destruct (wf_room_challenge _ _ _ _ _ Hwf0 R) as (Hwf1 & _).
    apply room_challenge in R as [_ R]. cbn [prune challenges set_budgets] in R.
    destruct (no_room s1 _ _); [done|]. destruct (no_room s1 _ _); [done|]. cbn [fst snd].
    intros [Hne Hkey] c. cbn. rewrite lookup_insert_ne by done.
    assert (Hs1 : ∀ c, challenges s1 !! id = Some c → live c = true → active s1 !! activeKey r = Some id ∧ id ≠ "").
    { intros c' Hc' Hl'. rewrite <-(Hkey c').
      - pose proof (proj2 (wf_index s1 Hwf1) _ _ Hc' Hl') as Hix. split; [done|].
        by destruct (proj1 (wf_index s1 Hwf1) _ _ Hix).
      - destruct R as [[_ ->]|(old & c0 & _ & _ & ->)]; [done|]. cbn in Hc'.
        by apply lookup_delete_Some in Hc' as [_ ?].
      - done. }
    intros Hc. destruct (live c) eqn:Hl; [|done]. exfalso. revert Hc.
    destruct (active s1 !! activeKey r) as [previous|] eqn:E.
    + change (default "" (Some previous)) with previous. destruct (String.eqb previous "") eqn:P; cbn [negb challenges set_challenges set_budgets].
      * intros Hc. destruct (Hs1 c Hc Hl) as [[= ->] Hid]. by apply String.eqb_eq in P.
      * rewrite lookup_alter. case_decide as Hp.
        -- destruct (challenges s1 !! previous); cbn; [|done]. intros [= <-]. cbn in Hl. done.
        -- intros Hc. destruct (Hs1 c Hc Hl) as [[= ->] Hid]. done.
    + intros Hc. by destruct (Hs1 c Hc Hl).
  - destruct (Verify seed ctx a s) as [[i|e] s'] eqn:E; [|done]. cbn [fst snd]. intros <-.
    apply Verify_Ok_open in E as (_ & Hfree & c & Hc & _ & _ & Ha).
    apply accept_Ok in Ha; [|by apply wf_judged]. destruct Ha as (_ & _ & _ & _ & _ & _ & _ & _ & _ & Hch & _).
    intros c'. rewrite Hch. cbn. rewrite lookup_alter_eq, Hc. by intros [= <-].
  - unfold Invalidate. destruct (ctx 0%nat); [done|].
    destruct (challenges s !! id0) as [c|] eqn:E; cbn [fst snd]; intros <-.
    + intros c'. cbn. rewrite lookup_alter_eq, E. by intros [= <-].
    + intros c'. by rewrite E.
Qed.

(** Challenges are single use.  Once a challenge was won, invalidated, or
    replaced by a newer one for its purpose and address, no later verification of
    its ID succeeds, whatever else happens to the store in between, unless that
    same ID is reserved again (IDs are 32 random bytes). *)
Theorem ended_challenge_never_verifies id o s ops :
  wf s → ends_challenge id o s → Forall (no_new_challenge id) ops →
  ∀ seed ctx a ans, (OVerify seed ctx a, ans) ∈ fst (history ops (snd (exec o s))) →
    attempt_ID a = id → ∀ i, ans ≠ Ok i.
Proof.
  intros Hwf Hend Hops seed ctx a ans Hin Hid i ->.
  destruct (history_preserves (dead id) (no_new_challenge id) ops (snd (exec o s))) as [_ H];
    [by intros; apply dead_exec|done|by apply ends_dead|].
  destruct (H _ _ Hin) as [_ (s' & Hd & Hans)]. cbn in Hans.
  destruct (Verify seed ctx a s') as [[j|e] s''] eqn:E; [|done].
  subst id. by apply dead_not_verified in E.
Qed.

Lemma ended_challenge_never_verifies_witness :
  let o := OVerify 0 Background (example_attempt "a" "ada@example.com" 1 Second) in
  let again := OVerify 0 Background (example_attempt "a" "ada@example.com" 1 (2 * Second)) in
  ∃ ans, fst (history [again] (snd (exec o example_store))) = [(again, ans)] ∧ ∀ i, ans ≠ Ok i.
Proof.
  intros o again. eexists. split; [reflexivity|].
  apply (ended_challenge_never_verifies "a" o example_store [again] example_store_wf) with
    (seed := 0%nat) (ctx := Background) (a := example_attempt "a" "ada@example.com" 1 (2 * Second)).
  - vm_compute. reflexivity.
  - apply Forall_cons. split; [exact I|apply Forall_nil; exact I].
  - apply list_elem_of_here.
  - reflexivity.
Defined.

(** ** Sessions *)

(** The session named by a proof is in force for it. *)
Definition in_force (p : SessionProof) (x : storedSession) : Prop :=
  session_active x = true
  ∧ session_CreatedAt (record x) <= proof_Now p < session_ExpiresAt (record x)
  ∧ proof_Now p < session_LastSeenAt (record x) + sessionIdleTTL
  ∧ session_Digest (record x) = proof_Digest p
  ∧ (proof_CSRFDigest p = zero_digest ∨ session_CSRFDigest (record x) = proof_CSRFDigest p).

Lemma AuthenticateSession_Ok ctx p s i s' :
  AuthenticateSession ctx p s = (Ok i, s') →
  ctx 0%nat = None ∧
  ∃ x, sessions s !! proof_ID p = Some x ∧ in_force p x ∧ i = identity x
    ∧ s' = set_sessions s (alter (seen (proof_Now p)) (proof_ID p) (sessions s)).
Proof.
  unfold AuthenticateSession, in_force, within, idle_deadline, digest_eqb, Before.
  destruct (ctx 0%nat); [done|]. destruct (sessions s !! proof_ID p) as [x|] eqn:E; [|done].
  destruct (_ || _ || _ || _) eqn:G; [done|]. intros [= <- <-]. split; [done|]. exists x.
  boolify. destruct G as (((G1 & (G2 & G3) & G4) & G5) & G6).
  split_and!; try done; lia.
Qed.

(** A session is authenticated exactly when its credential digest matches, its
    CSRF digest matches if one is presented, it was not revoked, and the time is
    within both its absolute expiry and the day since it was last seen; the answer
    is the identity it was opened for, and the only thing that changes is that it
    was seen now. *)
Theorem AuthenticateSession_spec ctx p s i s' :
  AuthenticateSession ctx p s = (Ok i, s') ↔
  ctx 0%nat = None ∧
  ∃ x, sessions s !! proof_ID p = Some x ∧ in_force p x ∧ i = identity x
    ∧ s' = set_sessions s (alter (seen (proof_Now p)) (proof_ID p) (sessions s)).
Proof.
  split; [apply AuthenticateSession_Ok|].
  intros (Hctx & x & E & (H1 & H2 & H3 & H4 & H5) & -> & ->).
  unfold AuthenticateSession, within, idle_deadline, digest_eqb, Before. rewrite Hctx, E.
  rewrite H1, H4, (proj2 (Z.ltb_ge _ _)), (proj2 (Z.ltb_lt _ _)), (proj2 (Z.ltb_lt _ _)) by lia.
  rewrite (bool_decide_true (proof_Digest p = _)) by done. cbn [negb andb orb].
  destruct H5 as [->| ->]; [by rewrite bool_decide_true|].
  rewrite (bool_decide_true (proof_CSRFDigest p = proof_CSRFDigest p)) by done. by rewrite andb_false_r.
Qed.

Definition no_new_session (id : string) (o : op) : Prop :=
  match o with OVerify _ _ a => session_ID (attempt_Session a) ≠ id | _ => True end.

(** What a verification may change of the session [id] it does not open. *)
Lemma Verify_sessions id seed ctx a s x :
  session_ID (attempt_Session a) ≠ id →
  sessions (snd (Verify seed ctx a s)) !! id = Some x → sessions s !! id = Some x.
Proof.
  intros Hne. unfold Verify. destruct (ctx 0%nat); [done|]. cbv zeta.
  destruct (no_room _ _ _); [done|]. destruct (_ <=? _); [done|].
  change (challenges (set_budgets _ _ _ _ _ _)) with (challenges s).
  destruct (challenges s !! attempt_ID a) as [c|]; [|done].
  destruct (_ || _ || _ || _); [done|]. destruct (negb _).
  - unfold reject. destruct (no_room _ _ _); [done|]. cbv zeta. by destruct (_ <=? _).
  - unfold accept. destruct (_ || _ || _ || _); [done|].
    destruct (make_room _ _ _ _) as [s1|] eqn:R; [|done].
    apply room_session in R as [_ R].
    assert (Hold : ∀ k x, sessions s1 !! k = Some x → sessions s !! k = Some x).
    { destruct R as [[_ ->]|(old & y & _ & _ & ->)]; [done|]. cbn. by intros k y' [_ ?]%lookup_delete_Some. }
    destruct (_ && _); [apply Hold|]. destruct (String.eqb _ _); cbn; rewrite lookup_insert_ne by done; apply Hold.
Qed.

(** An operation that does not open session [id] at most marks it seen or ends it. *)
Lemma exec_session id o s x :
  no_new_session id o → sessions (snd (exec o s)) !! id = Some x →
  ∃ x0, sessions s !! id = Some x0
    ∧ session_CreatedAt (record x) = session_CreatedAt (record x0)
    ∧ session_ExpiresAt (record x) = session_ExpiresAt (record x0)
    ∧ session_Digest (record x) = session_Digest (record x0)
    ∧ identity x = identity x0
    ∧ (session_active x0 = false → session_active x = false).
Proof.
  intros Ho. assert (Hsame : sessions s !! id = Some x → ∃ x0, sessions s !! id = Some x0
    ∧ session_CreatedAt (record x) = session_CreatedAt (record x0)
    ∧ session_ExpiresAt (record x) = session_ExpiresAt (record x0)
    ∧ session_Digest (record x) = session_Digest (record x0)
    ∧ identity x = identity x0
    ∧ (session_active x0 = false → session_active x = false)) by (intros H; by exists x).
  assert (Hall : ∀ who, end_sessions_of who (sessions s) !! id = Some x → ∃ x0, sessions s !! id = Some x0
    ∧ session_CreatedAt (record x) = session_CreatedAt (record x0)
    ∧ session_ExpiresAt (record x) = session_ExpiresAt (record x0)
    ∧ session_Digest (record x) = session_Digest (record x0)
    ∧ identity x = identity x0
    ∧ (session_active x0 = false → session_active x = false)).
  { intros who. unfold end_sessions_of. rewrite lookup_fmap.
    destruct (sessions s !! id) as [x0|]; [|done]. cbn. intros [= <-]. exists x0.
    by destruct (String.eqb _ _). }
  destruct o; cbn [exec plain returning snd no_new_session] in *.
  - unfold Reserve. destruct (ctx 0%nat); [done|]. cbv zeta. destruct (_ || _ || _); [done|].
    destruct (make_room _ _ _ _) as [s1|] eqn:R; [|done].
    assert (Hs : sessions s1 = sessions s).
    { apply room_challenge in R as [_ R]. by destruct R as [[_ ->]|(? & ? & _ & _ & ->)]. }
    rewrite <-Hs in Hsame |- *. destruct (no_room s1 _ _); [done|]. destruct (no_room s1 _ _); [done|].
    cbn. by destruct (negb _).
  - intros H. apply Hsame. by eapply Verify_sessions.
  - unfold Invalidate. destruct (ctx 0%nat); [done|]. by destruct (challenges s !! id0).
  - unfold AuthenticateSession. destruct (ctx 0%nat); [done|].
    destruct (sessions s !! proof_ID p) eqn:E; [|done]. destruct (_ || _); [done|].
    cbn. rewrite lookup_alter. case_decide; [subst|done].
    rewrite E. cbn. intros [= <-]. by eexists.
  - unfold RevokeSession. destruct (ctx 0%nat); [done|].
    destruct (sessions s !! proof_ID p) eqn:E; [|done]. destruct (_ || _); [done|].
    cbn. rewrite lookup_alter. case_decide; [subst|done].
    rewrite E. cbn. intros [= <-]. by eexists.
  - unfold RevokeAllSessions. destruct (ctx 0%nat); [done|].
    destruct (sessions s !! proof_ID p) eqn:E; [|done]. destruct (_ || _); [done|]. apply Hall.
  - unfold RevokeIdentitySessions. destruct (ctx 0%nat); [done|]. apply Hall.
  - unfold CreatePreAuth. destruct (ctx 0%nat); [done|]. destruct (_ || _ || _); [done|]. cbv zeta.
    destruct (_ <=? _); [done|]. destruct (no_room _ _ _); [done|].
    destruct (make_room _ _ _ _) as [s1|] eqn:R; [|done].
    apply room_browser in R as [_ [[_ ->]|(? & ? & _ & _ & ->)]]; done.
  - unfold AuthenticatePreAuth. by destruct (ctx 0%nat).
  - unfold ConsumePreAuth. destruct (ctx 0%nat); [done|]. by destruct (authenticateBrowserState _ _).
Qed.

(** Session [id], if it is still filed, is this one, and possibly ended. *)
Definition descends (id : string) (x0 : storedSession) (s : MemoryStore) : Prop :=
  ∀ x, sessions s !! id = Some x →
    session_CreatedAt (record x) = session_CreatedAt (record x0)
    ∧ session_ExpiresAt (record x) = session_ExpiresAt (record x0)
    ∧ session_Digest (record x) = session_Digest (record x0)
    ∧ identity x = identity x0
    ∧ (session_active x0 = false → session_active x = false).

Lemma descends_exec id x0 o s : no_new_session id o → descends id x0 s → descends id x0 (snd (exec o s)).
Proof.
  intros Ho Hd x Hx. destruct (exec_session id o s x Ho Hx) as (x1 & Hx1 & -> & -> & -> & -> & Ha).
  destruct (Hd x1 Hx1) as (-> & -> & -> & -> & Ha1). split_and!; auto.
Qed.

(** The operation that ends session [id]: revoking it, or revoking every session
    of its identity. *)
Definition ends_session (id : string) (o : op) (s : MemoryStore) : Prop :=
  match o, fst (exec o s) with
  | ORevoke _ p, Ok _ => proof_ID p = id
  | ORevokeAll _ p, Ok _ =>
      ∃ x y, sessions s !! proof_ID p = Some x ∧ sessions s !! id = Some y
        ∧ identity_ID (identity x) = identity_ID (identity y)
  | ORevokeIdentity _ who, Ok _ =>
      ∃ y, sessions s !! id = Some y ∧ identity_ID (identity y) = who
  | _, _ => False
  end.

Lemma end_sessions_dead who id s y :
  sessions s !! id = Some y → identity_ID (identity y) = who →
  descends id (end_session y) (set_sessions s (end_sessions_of who (sessions s))).
Proof.
  intros Hy <- x. cbn. unfold end_sessions_of. rewrite lookup_fmap, Hy. cbn.
  rewrite String.eqb_refl. by intros [= <-].
Qed.

Lemma ends_session_descends id o s :
  ends_session id o s → ∃ x0, session_active x0 = false ∧ descends id x0 (snd (exec o s)).
Proof.
  unfold ends_session. destruct o; try done; cbn [exec plain fst snd].
  - unfold RevokeSession. destruct (ctx 0%nat); [done|].
    destruct (sessions s !! proof_ID p) as [y|] eqn:E; [|done].
    destruct (_ || _); [done|]. cbn [fst snd]. intros <-. exists (end_session y). split; [done|].
    intros x. cbn. rewrite lookup_alter_eq, E. by intros [= <-].
  - unfold RevokeAllSessions. destruct (ctx 0%nat); [done|].
    destruct (sessions s !! proof_ID p) as [z|] eqn:E; [|done].
    destruct (_ || _ || _); [done|]. cbn [fst snd]. intros (x & y & [= <-] & Hy & He).
    exists (end_session y). split; [done|]. by apply end_sessions_dead.
  - unfold RevokeIdentitySessions. destruct (ctx 0%nat); [done|]. cbn [fst snd]. intros (y & Hy & He).
    exists (end_session y). split; [done|]. by apply end_sessions_dead.
Qed.

Lemma authenticated_descends id x0 ops s ctx p i :
  descends id x0 s → Forall (no_new_session id) ops →
  (OAuthenticate ctx p, Ok (Some i)) ∈ fst (history ops s) → proof_ID p = id →
  session_active x0 = true ∧ session_CreatedAt (record x0) <= proof_Now p < session_ExpiresAt (record x0)
  ∧ proof_Digest p = session_Digest (record x0) ∧ i = identity x0.
Proof.
  intros Hd Hops Hin Hid.
  destruct (history_preserves (descends id x0) (no_new_session id) ops s) as [_ H];
    [by intros; apply descends_exec|done|done|].
  destruct (H _ _ Hin) as [_ (s' & Hd' & Hans)]. cbn [exec returning fst] in Hans.
  destruct (AuthenticateSession ctx p s') as [[j|e] s''] eqn:E; [|done]. injection Hans as ->.
  apply AuthenticateSession_Ok in E as (_ & x & Hx & (Hact & Hw & _ & Hdig & _) & -> & _). rewrite Hid in Hx.
  destruct (Hd' x Hx) as (Hc & He & Hg & Hi & Ha). rewrite Hc, He in Hw. rewrite <-Hdig, Hg, Hi.
  split_and!; try done; try lia. destruct (session_active x0); [done|]. by rewrite Ha in Hact.
Qed.

(** C23: A revoked session stays out.  After a session was revoked by its holder, or
    with every session of its identity, no later authentication with its ID
    succeeds, whatever happens in between, unless a verification files a new
    session under that same ID. *)
Theorem revoked_session_stays_out id o s ops :
  ends_session id o s → Forall (no_new_session id) ops →
  ∀ ctx p ans, (OAuthenticate ctx p, ans) ∈ fst (history ops (snd (exec o s))) →
    proof_ID p = id → ∀ i, ans ≠ Ok (Some i).
Proof.
  intros (x0 & Hx0 & Hd)%ends_session_descends Hops ctx p ans Hin Hid i ->.
  destruct (authenticated_descends id x0 ops _ ctx p i Hd Hops Hin Hid) as [H _]. congruence.
Qed.

(** A session lives at most as long as it was opened for, and serves only its
    holder: after a verification opened a session, every later authentication that
    succeeds with its ID presents the same secret, happens no earlier than the
    opening and before the recorded expiry, and yields the identity that the
    verification answered, unless a later verification reuses the ID. *)
Theorem opened_session_lifetime seed ctx a s i s' ops :
  wf s → Verify seed ctx a s = (Ok i, s') →
  let id := session_ID (attempt_Session a) in
  Forall (no_new_session id) ops →
  ∀ ctx' p j, (OAuthenticate ctx' p, Ok (Some j)) ∈ fst (history ops s') → proof_ID p = id →
    j = i ∧ attempt_Now a <= proof_Now p < session_ExpiresAt (attempt_Session a)
    ∧ proof_Digest p = session_Digest (attempt_Session a).
Proof.
  intros Hwf (_ & Hfree & c & Hc & _ & _ & Ha)%Verify_Ok_open id Hops ctx' p j Hin Hid.
  apply accept_Ok in Ha; [|by apply wf_judged].
  destruct Ha as (_ & Hcr & _ & _ & _ & _ & _ & _ & Hs & _). fold id in Hs.
  destruct (authenticated_descends id {| record := with_identity (attempt_Session a) (identity_ID i);
              identity := i; session_active := true |} ops s' ctx' p j) as (_ & Hw & Hd & Hj); try done.
  - intros x. rewrite Hs. by intros [= <-].
  - cbn in Hw, Hd, Hj. rewrite Hcr in Hw. done.
Qed.

Definition example_proof (now : Time) : SessionProof :=
  {| proof_ID := "session-1"; proof_Digest := replicate 32 8; proof_CSRFDigest := zero_digest;
     proof_Now := now |}.

Definition signed_in : MemoryStore :=
  snd (Verify 0 Background (example_attempt "a" "ada@example.com" 1 Second) example_store).

Lemma revoked_session_stays_out_witness :
  let o := ORevoke Background (example_proof Minute) in
  let again := OAuthenticate Background (example_proof (2 * Minute)) in
  fst (exec again signed_in) ≠ Err (Sentinel ErrSession)
  ∧ ∃ ans, fst (history [again] (snd (exec o signed_in))) = [(again, ans)] ∧ ∀ i, ans ≠ Ok (Some i).
Proof.
  intros o again. split; [vm_compute; intros H; discriminate H|]. eexists. split; [reflexivity|].
  apply (revoked_session_stays_out "session-1" o signed_in [again])
    with (ctx := Background) (p := example_proof (2 * Minute)).
  - vm_compute. reflexivity.
  - apply Forall_cons. split; [exact I|apply Forall_nil; exact I].
  - apply list_elem_of_here.
  - reflexivity.
Defined.

Lemma opened_session_lifetime_witness :
  ∃ i, fst (history [OAuthenticate Background (example_proof Minute)] signed_in)
       = [(OAuthenticate Background (example_proof Minute), Ok (Some i))]
  ∧ identity_Email i = "ada@example.com" ∧ Second <= Minute.
Proof.
  destruct (Verify 0 Background (example_attempt "a" "ada@example.com" 1 Second) example_store)
    as [[i|e] s'] eqn:E; [|vm_compute in E; discriminate E].
  assert (Hs : s' = signed_in) by (unfold signed_in; rewrite E; reflexivity).
  exists i. split; [vm_compute in E; injection E as <- _; vm_compute; reflexivity|].
  assert (Hi : identity_Email i = "ada@example.com") by (vm_compute in E; injection E as <- _; reflexivity).
  split; [exact Hi|].
  apply (opened_session_lifetime 0 Background (example_attempt "a" "ada@example.com" 1 Second) example_store i s'
           [OAuthenticate Background (example_proof Minute)] example_store_wf E)
    with (ctx' := Background) (p := example_proof Minute) (j := i).
  - apply Forall_cons. split; [exact I|apply Forall_nil; exact I].
  - rewrite Hs. vm_compute in E. injection E as <- _. vm_compute. apply list_elem_of_here.
  - reflexivity.
Defined.

(** ** Browser states *)

Definition no_new_preauth (id : string) (o : op) : Prop :=
  match o with OCreatePreAuth _ _ r => pre_ID r ≠ id | _ => True end.

(** Browser state [id] is this one or gone. *)
Definition only_state (id : string) (r0 : option PreAuthRecord) (s : MemoryStore) : Prop :=
  browserStates s !! id = None ∨ browserStates s !! id = r0.

Lemma only_state_exec id r0 o s : no_new_preauth id o → only_state id r0 s → only_state id r0 (snd (exec o s)).
Proof.
  intros Ho Hr. destruct o; cbn [exec plain returning snd no_new_preauth] in *.
  - unfold Reserve. destruct (ctx 0%nat); [done|]. cbv zeta. destruct (_ || _ || _); [done|].
    destruct (make_room _ _ _ _) as [s1|] eqn:R; [|done].
    assert (Hs : browserStates s1 = browserStates s).
    { apply room_challenge in R as [_ R]. by destruct R as [[_ ->]|(? & ? & _ & _ & ->)]. }
    unfold only_state in *. rewrite <-Hs in Hr. destruct (no_room s1 _ _); [done|]. destruct (no_room s1 _ _); [done|].
    cbn. by destruct (negb _).
  - assert (Hs : browserStates (snd (Verify seed ctx a s)) = browserStates s); [|unfold only_state; by rewrite Hs].
    unfold Verify. destruct (ctx 0%nat); [done|]. cbv zeta.
    destruct (no_room _ _ _); [done|]. destruct (_ <=? _); [done|].
    destruct (_ !! _) as [c|]; [|done]. destruct (_ || _ || _ || _); [done|]. destruct (negb _).
    + unfold reject. destruct (no_room _ _ _); [done|]. cbv zeta. by destruct (_ <=? _).
    + unfold accept. destruct (_ || _ || _ || _); [done|].
      destruct (make_room _ _ _ _) as [s1|] eqn:R; [|done]. apply room_session in R as [_ R].
      assert (Hs : browserStates s1 = browserStates s) by (by destruct R as [[_ ->]|(? & ? & _ & _ & ->)]).
      destruct (_ && _); [done|]. by destruct (String.eqb _ _).
  - unfold Invalidate. destruct (ctx 0%nat); [done|]. by destruct (challenges s !! id0).
  - unfold AuthenticateSession. destruct (ctx 0%nat); [done|]. destruct (_ !! _); [|done]. by destruct (_ || _).
  - unfold RevokeSession. destruct (ctx 0%nat); [done|]. destruct (_ !! _); [|done]. by destruct (_ || _).
  - unfold RevokeAllSessions. destruct (ctx 0%nat); [done|]. destruct (_ !! _); [|done]. by destruct (_ || _).
  - unfold RevokeIdentitySessions. by destruct (ctx 0%nat).
  - unfold CreatePreAuth. destruct (ctx 0%nat); [done|]. destruct (_ || _ || _); [done|]. cbv zeta.
    destruct (_ <=? _); [done|]. destruct (no_room _ _ _); [done|].
    destruct (make_room _ _ _ _) as [s1|] eqn:R; [|done].
    unfold only_state. cbn [snd set_browserStates browserStates set_budgets]. rewrite lookup_insert_ne by done.
    apply room_browser in R as [_ [[_ ->]|(old & y & _ & _ & ->)]]; [done|]. cbn [set_browserStates browserStates].
    destruct (decide (old = id)) as [->|Hne]; [left; apply lookup_delete_eq|]. by rewrite lookup_delete_ne.
  - unfold AuthenticatePreAuth. by destruct (ctx 0%nat).
  - unfold ConsumePreAuth. destruct (ctx 0%nat); [done|]. destruct (authenticateBrowserState _ _); [done|].
    unfold only_state. cbn [snd set_browserStates browserStates].
    destruct (decide (pproof_ID p = id)) as [->|Hne]; [left; apply lookup_delete_eq|]. by rewrite lookup_delete_ne.
Qed.

(** The operation presents this proof of a browser state. *)
Definition presents_preauth (o : op) : option PreAuthProof :=
  match o with OAuthenticatePreAuth _ p | OConsumePreAuth _ p => Some p | _ => None end.

(** Browser pre-authentication state is bound and consumed once.  After a state
    was created, a later validation or consumption with its ID succeeds only with
    its two secrets and within its ten minutes; and once it was consumed none
    succeeds again; in both cases unless the ID is created anew. *)
Theorem preauth_single_use seed ctx r s s' ops :
  CreatePreAuth seed ctx r s = (None, s') → Forall (no_new_preauth (pre_ID r)) ops →
  (∀ o p ans, (o, ans) ∈ fst (history ops s') → presents_preauth o = Some p → pproof_ID p = pre_ID r →
     is_ok ans = true →
     pproof_Digest p = pre_Digest r ∧ pproof_CSRFDigest p = pre_CSRFDigest r
     ∧ pre_IssuedAt r <= pproof_Now p < pre_IssuedAt r + preAuthTTL)
  ∧ (∀ ctx' p, pproof_ID p = pre_ID r → fst (ConsumePreAuth ctx' p (snd (history ops s'))) = None →
     ∀ later o q ans, Forall (no_new_preauth (pre_ID r)) later →
       (o, ans) ∈ fst (history later (snd (ConsumePreAuth ctx' p (snd (history ops s'))))) →
       presents_preauth o = Some q → pproof_ID q = pre_ID r → is_ok ans = false).
Proof.
  intros Hcreate Hops.
  assert (Hs' : browserStates s' !! pre_ID r = Some r ∧ pre_record_ExpiresAt r = pre_IssuedAt r + preAuthTTL).
  { revert Hcreate. unfold CreatePreAuth. destruct (ctx 0%nat); [done|].
    destruct (_ || _ || _ || _ || _) eqn:G; [done|]. cbv zeta.
    rewrite !orb_false_iff, negb_false_iff, Z.eqb_eq in G. destruct G as [_ G].
    destruct (_ <=? _); [done|]. destruct (no_room _ _ _); [done|].
    destruct (make_room _ _ _ _) as [s1|]; [|done]. intros [= <-]. cbn. rewrite lookup_insert_eq. split; [done|].
    unfold Sub, preAuthTTL, Minute, Second in *. lia. }
  destruct Hs' as [Hr Hexp].
  assert (Hauth : ∀ o p st, presents_preauth o = Some p → is_ok (fst (exec o st)) = true →
            authenticateBrowserState p st = None).
  { intros o p st. destruct o; try done; cbn [presents_preauth exec plain fst]; intros [= ->];
      unfold AuthenticatePreAuth, ConsumePreAuth; destruct (ctx0 0%nat); try done; cbn [fst];
      by destruct (authenticateBrowserState p st). }
  split.
  - intros o p ans Hin Hp Hid Hok.
    destruct (history_preserves (only_state (pre_ID r) (Some r)) (no_new_preauth (pre_ID r)) ops s') as [_ H];
      [by intros; apply only_state_exec|done|by right|].
    destruct (H _ _ Hin) as [_ (st & Hst & ->)]. specialize (Hauth o p st Hp Hok).
    unfold authenticateBrowserState in Hauth. rewrite Hid in Hauth.
    destruct Hst as [Hst|Hst]; rewrite Hst in Hauth; [done|].
    destruct (_ || _) eqn:G; [done|]. unfold Before, digest_eqb in G. boolify.
    rewrite Hexp in G. destruct G as (((G1 & G2) & G3) & G4). split_and!; try done; lia.
  - intros ctx' p Hid Hc later o q ans Hlater Hin Hq Hqid.
    destruct (is_ok ans) eqn:Hok; [|done]. exfalso.
    set (s2 := snd (history ops s')) in *.
    assert (Hgone : only_state (pre_ID r) None (snd (ConsumePreAuth ctx' p s2))).
    { left. revert Hc. unfold ConsumePreAuth. destruct (ctx' 0%nat); [done|].
      destruct (authenticateBrowserState p s2); [done|]. intros _. cbn. rewrite Hid. apply lookup_delete_eq. }
    destruct (history_preserves (only_state (pre_ID r) None) (no_new_preauth (pre_ID r)) later
                (snd (ConsumePreAuth ctx' p s2))) as [_ H];
      [by intros; apply only_state_exec|done|done|].
    destruct (H _ _ Hin) as [_ (st & Hst & ->)]. specialize (Hauth o q st Hq Hok).
    unfold authenticateBrowserState in Hauth. rewrite Hqid in Hauth.
    by destruct Hst as [Hst|Hst]; rewrite Hst in Hauth.
Qed.

Definition example_preauth : PreAuthRecord :=
  {| pre_ID := "p"; pre_Source := "192.0.2.1"; pre_Digest := replicate 32 1; pre_CSRFDigest := replicate 32 2;
     pre_IssuedAt := Minute; pre_record_ExpiresAt := Minute + preAuthTTL |}.
Definition example_preproof : PreAuthProof :=
  {| pproof_ID := "p"; pproof_Digest := replicate 32 1; pproof_CSRFDigest := replicate 32 2;
     pproof_Now := 2 * Minute |}.

Lemma preauth_single_use_witness :
  let s' := snd (CreatePreAuth 0 Background example_preauth (empty_store 10)) in
  let s2 := snd (ConsumePreAuth Background example_preproof s') in
  fst (ConsumePreAuth Background example_preproof s') = None
  ∧ is_ok (fst (exec (OConsumePreAuth Background example_preproof) s2)) = false.
Proof.
  intros s' s2. split; [vm_compute; reflexivity|].
  refine (proj2 (preauth_single_use 0 Background example_preauth (empty_store 10) s' [] _ _)
            Background example_preproof _ _ [OConsumePreAuth Background example_preproof]
            (OConsumePreAuth Background example_preproof) example_preproof _ _ _ _ _).
  - vm_compute. reflexivity.
  - apply Forall_nil. exact I.
  - reflexivity.
  - vm_compute. reflexivity.
  - apply Forall_cons. split; [exact I|apply Forall_nil; exact I].
  - apply list_elem_of_here.
  - reflexivity.
  - reflexivity.
Defined.

(** ** Attempts that are not counted *)

Lemma recent_later vs now later :
  now <= later → recent (recent vs now) later = recent vs later.
Proof. intros H. unfold recent. apply drop_until_le. lia. Qed.

(** A wrong attempt that comes while the address has used up its failures. *)
Lemma Verify_wrong_limited seed ctx a s c t :
  challenges s !! attempt_ID a = Some c → matches (reservation c) a = false → attempt_Now a <= t →
  addressVerifyLimit <= count (recent (spent_of (addressFailures s) (reservation_Email (reservation c))) t) →
  let s' := snd (Verify seed ctx a s) in
  challenges s' = challenges s
  ∧ recent (spent_of (addressFailures s') (reservation_Email (reservation c))) t
    = recent (spent_of (addressFailures s) (reservation_Email (reservation c))) t.
Proof.
  intros Hc Hm Hnow Hlim. unfold Verify. destruct (ctx 0%nat); [done|]. cbv zeta.
  set (mailbox := reservation_Email (reservation c)) in *.
  assert (Hsp : spent_of (prune_budget (attempt_Now a) (addressFailures s)) mailbox
                = recent (spent_of (addressFailures s) mailbox) (attempt_Now a)) by apply spent_of_prune.
  assert (Hpr : recent (spent_of (prune_budget (attempt_Now a) (addressFailures s)) mailbox) t
                = recent (spent_of (addressFailures s) mailbox) t)
    by (rewrite Hsp; by apply recent_later).
  destruct (no_room _ _ _); [by split|]. destruct (_ <=? _); [by split|].
  change (challenges (set_budgets _ _ _ _ _ _)) with (challenges s). rewrite Hc.
  destruct (_ || _ || _ || _); [by split|]. rewrite Hm. cbn [negb].
  unfold reject. fold mailbox. destruct (no_room _ _ _); [by split|]. cbv zeta.
  destruct (addressVerifyLimit <=? _) eqn:G; [by split|]. exfalso.
  cbn [addressFailures set_budgets prune] in G. rewrite Hsp in G. apply Z.leb_gt in G.
  pose proof (recent_le (recent (spent_of (addressFailures s) mailbox) (attempt_Now a)) t) as H.
  rewrite recent_later in H by done. lia.
Qed.

(** The five-attempt limit of a challenge does not hold once its address has
    twenty failures in the hour: from then on, any number of wrong attempts, from
    any sources, leaves the challenge as it was.  None of them counts as an attempt
    (only the hundred-an-hour source budget bounds them), and the right code is
    still accepted after them as it was before. *)
Theorem wrong_guesses_uncounted id c s guesses t :
  challenges s !! id = Some c →
  addressVerifyLimit <= count (recent (spent_of (addressFailures s) (reservation_Email (reservation c))) t) →
  Forall (λ o, ∃ seed ctx a, o = OVerify seed ctx a ∧ attempt_ID a = id
               ∧ matches (reservation c) a = false ∧ attempt_Now a <= t) guesses →
  challenges (snd (history guesses s)) = challenges s.
Proof.
  intros Hc Hlim Hg.
  set (mailbox := reservation_Email (reservation c)) in *.
  destruct (history_preserves
    (λ s', challenges s' = challenges s ∧
       recent (spent_of (addressFailures s') mailbox) t = recent (spent_of (addressFailures s) mailbox) t)
    (λ o, ∃ seed ctx a, o = OVerify seed ctx a ∧ attempt_ID a = id
               ∧ matches (reservation c) a = false ∧ attempt_Now a <= t) guesses s) as [[H _] _]; try done.
  intros o s1 (seed & ctx & a & -> & Hid & Hm & Ht) [Hcs Hrec]. subst id.
  rewrite <-Hcs in Hc. rewrite <-Hrec in Hlim |- *.
  destruct (Verify_wrong_limited seed ctx a s1 c t Hc Hm Ht Hlim) as [H1 H2]. cbn [exec returning snd].
  fold mailbox in H2. rewrite H1, H2. by split.
Qed.

(** A store in which twenty wrong codes were tried for an address, over four
    challenges, before the fifth challenge was reserved. *)
Definition wrong (id : string) (now : Time) : op :=
  OVerify 0 Background (example_attempt id "ada@example.com" 3 now).
Definition exhausted_store : MemoryStore :=
  snd (history (concat (map (λ n : nat,
         OReserve 0 Background (example_reservation (Itoa (Z.of_nat n)) "ada@example.com" (Z.of_nat n * Minute))
         :: replicate 5 (wrong (Itoa (Z.of_nat n)) (Z.of_nat n * Minute + Second))) (seq 0 4))
       ++ [OReserve 0 Background (example_reservation "e" "ada@example.com" (4 * Minute))]) (empty_store 10)).

Lemma wrong_guesses_uncounted_witness :
  challenges (snd (history (replicate 30 (wrong "e" (5 * Minute))) exhausted_store)) = challenges exhausted_store
  ∧ is_ok (fst (exec (OVerify 0 Background (example_attempt "e" "ada@example.com" 1 (6 * Minute)))
       (snd (history (replicate 30 (wrong "e" (5 * Minute))) exhausted_store)))) = true.
Proof.
  split; [|vm_compute; reflexivity].
  destruct (challenges exhausted_store !! "e") as [c|] eqn:E; [|vm_compute in E; discriminate E].
  apply (wrong_guesses_uncounted "e" c exhausted_store (replicate 30 (wrong "e" (5 * Minute))) (5 * Minute) E).
  - vm_compute in E. injection E as <-. vm_compute. intros H; discriminate H.
  - apply Forall_replicate. exists 0%nat, Background, (example_attempt "e" "ada@example.com" 3 (5 * Minute)).
    split_and!; [reflexivity|reflexivity| |reflexivity || (vm_compute; intros H; discriminate H)].
    vm_compute in E. injection E as <-. vm_compute. reflexivity.
Defined.
