(* ===== verification/Auth.v ===== *)
(** * The authentication service and its managers

    [Service] ([auth/auth.go]), [SessionManager] ([auth/session.go]) and
    [PreAuthManager] ([auth/browser.go]), written against the store interfaces.
    The interfaces are type classes over the store's state; the in-process store
    is their instance.

    Each call of a service method is given what the world answers during it: the
    clock, the context, the entropy it reads and what the mail sender returns. *)

From S2P Require Import Prelude GoStrings Sha256 AuthCore MemoryStore.

#[local] Open Scope Z_scope.

(** ** The store interfaces *)

(** [SessionStore]. *)
Class SessionStore (S : Type) := {
  store_AuthenticateSession : Context → SessionProof → S → result error Identity * S;
  store_RevokeSession : Context → SessionProof → S → option error * S;
  store_RevokeAllSessions : Context → SessionProof → S → option error * S;
  store_RevokeIdentitySessions : Context → string → S → option error * S;
}.

(** [Store], which embeds [SessionStore].  The seed is the iteration order of the
    maps an implementation may range over. *)
Class Store (S : Type) := {
  store_sessions :: SessionStore S;
  store_Reserve : nat → Context → Reservation → S → option error * S;
  store_Verify : nat → Context → Verification → S → result error Identity * S;
  store_Invalidate : Context → string → S → option error * S;
}.

(** [PreAuthStore]. *)
Class PreAuthStore (S : Type) := {
  store_CreatePreAuth : nat → Context → PreAuthRecord → S → option error * S;
  store_AuthenticatePreAuth : Context → PreAuthProof → S → option error * S;
  store_ConsumePreAuth : Context → PreAuthProof → S → option error * S;
}.

(** [IdentityStore]. *)
Class IdentityStore (I : Type) := {
  ResolveVerified : IdentityResolution → I → result error Identity * I;
}.

#[global] Instance memory_sessions : SessionStore MemoryStore := {|
  store_AuthenticateSession := AuthenticateSession;
  store_RevokeSession := RevokeSession;
  store_RevokeAllSessions := RevokeAllSessions;
  store_RevokeIdentitySessions := RevokeIdentitySessions;
|}.
#[global] Instance memory_store : Store MemoryStore := {|
  store_Reserve := Reserve; store_Verify := Verify; store_Invalidate := Invalidate;
|}.
#[global] Instance memory_preauth : PreAuthStore MemoryStore := {|
  store_CreatePreAuth := CreatePreAuth;
  store_AuthenticatePreAuth := AuthenticatePreAuth;
  store_ConsumePreAuth := ConsumePreAuth;
|}.

(** ** The service *)

(** What [New] can tell of the store and the sender it is given: [nil], Fabrin's
    own in-process implementation, or another one. *)
Inductive implementation := Nil | InProcess | External.

Record Service := { keyID : string; key : bytes }.

Record settings := { production : bool }.
Definition WithProduction (_ : settings) : settings := {| production := true |}.

Fixpoint apply_settings (i : nat) (options : list (option (settings → settings))) (s : settings)
    : result error settings :=
  match options with
  | [] => Ok s
  | None :: _ => Err (NewError ("auth: option " +:+ Itoa (Z.of_nat i) +:+ " is nil"))
  | Some option :: options' => apply_settings (S i) options' (option s)
  end.

Definition New (store sender : implementation) (keyID : string) (key : bytes)
    (options : list (option (settings → settings))) : result error Service :=
  if match store with Nil => true | _ => false end || match sender with Nil => true | _ => false end
     || negb (validKeyID keyID) || (Z.of_nat (length key) <? 32)
  then Err (NewError "auth: store, sender, key ID and a 32-byte key are required")
  else
    settings ← apply_settings 0 options {| production := false |};
    if production settings
       && (match store with InProcess => true | _ => false end
           || match sender with InProcess => true | _ => false end)
    then Err (Sentinel ErrUnsafeProduction)
    else Ok {| keyID := keyID; key := key |}.

Section service.
Context {S : Type} `{Store S}.

(** What the world does during one call of [Request]. *)
Record RequestWorld := {
  request_clock : Time;
  request_ctx : Context;
  request_entropy : Entropy;
  request_seed : nat;
  request_send : Message → option error;  (** what the sender answers *)
  request_cleanup : Context;  (** the context of the clean-up, detached from the caller's *)
}.

(** The message is the one handed to the sender, when one was. *)
Definition Request (svc : Service) (w : RequestWorld) (mailbox : string) (purpose : Purpose)
    (source : string) (options : list (option (challengeSettings → challengeSettings))) (s : S)
    : result error Challenge * option Message * S :=
  match request_ctx w 0%nat with
  | Some err => (Err err, None, s)
  | None =>
      if String.eqb source "" || (256 <? len source) then (Err (Sentinel ErrRateLimited), None, s)
      else
        match challengeBinding options with
        | Err _ => (Err (Sentinel ErrAuthentication), None, s)
        | Ok binding =>
            let now := request_clock w in
            match newChallenge (request_entropy w) 0 (key svc) mailbox purpose now with
            | Err _ => (Err (Sentinel ErrAuthentication), None, s)
            | Ok (c, code) =>
                let reservation :=
                  {| reservation_ID := id c; reservation_Email := email c; reservation_KeyID := keyID svc;
                     reservation_Purpose := purpose; reservation_Verifier := digest c;
                     reservation_Binding := binding; reservation_IssuedAt := issued c;
                     reservation_ExpiresAt := expires c; reservation_Source := source |} in
                match store_Reserve (request_seed w) (polled (request_ctx w)) reservation s with
                | (Some err, s) => (Err (storeError err), None, s)
                | (None, s) =>
                    let message := {| To := email c; Subject := "Your Fabrin sign-in code";
                                      Text := "Your Fabrin sign-in code is: " +:+ code |} in
                    match request_send w message with
                    | Some err =>
                        if negb (errors_Is err Canceled) && negb (errors_Is err DeadlineExceeded)
                        then
                          let '(_, s) := store_Invalidate (request_cleanup w) (id c) s in
                          (Err (Sentinel ErrDelivery), Some message, s)
                        else (Err (Sentinel ErrDelivery), Some message, s)
                    | None => (Ok {| challenge_ID := id c; challenge_ExpiresAt := expires c |}, Some message, s)
                    end
                end
            end
        end
  end.

Record VerifyWorld := {
  verify_clock : Time;
  verify_ctx : Context;
  verify_entropy : Entropy;
  verify_seed : nat;
}.

(** Read 0 of the entropy proposes an identity; reads 1 to 3 make the session. *)
Definition service_Verify (svc : Service) (w : VerifyWorld) (cid mailbox code : string) (purpose : Purpose)
    (source : string) (options : list (option (challengeSettings → challengeSettings))) (s : S)
    : result error Authentication * S :=
  match verify_ctx w 0%nat with
  | Some err => (Err err, s)
  | None =>
      if String.eqb source "" || (256 <? len source) then (Err (Sentinel ErrRateLimited), s)
      else
        match challengeBinding options with
        | Err _ => (Err (Sentinel ErrAuthentication), s)
        | Ok binding =>
            let canonical := match canonicalEmail mailbox with Ok c => c | Err _ => "" end in
            match randomHex (verify_entropy w) 0 32 with
            | Err err => (Err (Wrapped "auth: generate identity ID" err), s)
            | Ok identityID =>
                let now := verify_clock w in
                match newSession (verify_entropy w) 1 now with
                | Err err => (Err (Wrapped "auth: generate session" err), s)
                | Ok (session, record) =>
                    let request :=
                      {| attempt_ID := cid; attempt_Email := canonical; attempt_KeyID := keyID svc;
                         attempt_Purpose := purpose;
                         attempt_Verifier := verifier (key svc) [purpose; cid; canonical; code];
                         attempt_Binding := binding; attempt_Now := now; attempt_Source := source;
                         attempt_IdentityID := identityID; attempt_Session := record |} in
                    match store_Verify (verify_seed w) (polled (verify_ctx w)) request s with
                    | (Err err, s) => (Err (storeError err), s)
                    | (Ok i, s) => (Ok {| authenticated := i; issued_session := session |}, s)
                    end
                end
            end
        end
  end.
End service.

(** ** Sessions *)

Section session_manager.
Context {S : Type} `{SessionStore S}.

Definition NewSessionManager (store : option S) : result error S :=
  match store with
  | None => Err (NewError "auth: session store is required")
  | Some s => Ok s
  end.

Definition Current (ctx : Context) (now : Time) (credential : string) (s : S) : result error Identity * S :=
  match ctx 0%nat with
  | Some err => (Err err, s)
  | None =>
      match sessionProof credential now with
      | Err _ => (Err (Sentinel ErrSession), s)
      | Ok proof =>
          match store_AuthenticateSession (polled ctx) proof s with
          | (Err err, s) => (Err (default err (sessionStoreError (Some err))), s)
          | (Ok i, s) => (Ok i, s)
          end
      end
  end.

Definition ValidateCSRF (ctx : Context) (now : Time) (credential csrf : string) (s : S) : option error * S :=
  match ctx 0%nat with
  | Some err => (Some err, s)
  | None =>
      match sessionCSRFProof credential csrf now with
      | Err _ => (Some (Sentinel ErrSession), s)
      | Ok proof =>
          match store_AuthenticateSession (polled ctx) proof s with
          | (Err err, s) => (sessionStoreError (Some err), s)
          | (Ok _, s) => (None, s)
          end
      end
  end.

Definition Logout (ctx : Context) (now : Time) (credential : string) (s : S) : option error * S :=
  match ctx 0%nat with
  | Some err => (Some err, s)
  | None =>
      match sessionProof credential now with
      | Err _ => (Some (Sentinel ErrSession), s)
      | Ok proof => let '(err, s) := store_RevokeSession (polled ctx) proof s in (sessionStoreError err, s)
      end
  end.

Definition LogoutAll (ctx : Context) (now : Time) (credential : string) (s : S) : option error * S :=
  match ctx 0%nat with
  | Some err => (Some err, s)
  | None =>
      match sessionProof credential now with
      | Err _ => (Some (Sentinel ErrSession), s)
      | Ok proof => let '(err, s) := store_RevokeAllSessions (polled ctx) proof s in (sessionStoreError err, s)
      end
  end.

Definition RevokeIdentity (ctx : Context) (identityID : string) (s : S) : option error * S :=
  match ctx 0%nat with
  | Some err => (Some err, s)
  | None =>
      if String.eqb identityID "" || (128 <? len identityID) then (Some (Sentinel ErrUnavailable), s)
      else let '(err, s) := store_RevokeIdentitySessions (polled ctx) identityID s in (sessionStoreError err, s)
  end.
End session_manager.

(** ** Browser pre-authentication *)

Section preauth_manager.
Context {S : Type} `{PreAuthStore S}.

Definition NewPreAuthManager (store : option S) : result error S :=
  match store with
  | None => Err (NewError "auth: browser state store is required")
  | Some s => Ok s
  end.

(** Reads 0 to 2 of the entropy are the ID, the secret and the CSRF token. *)
Definition Bootstrap (ctx : Context) (e : Entropy) (seed : nat) (now : Time) (source : string) (s : S)
    : result error PreAuth * S :=
  match ctx 0%nat with
  | Some err => (Err err, s)
  | None =>
      if String.eqb source "" || (256 <? len source) then (Err (Sentinel ErrRateLimited), s)
      else
        match randomEncoded e 0 32, randomEncoded e 1 32, randomEncoded e 2 32 with
        | Ok cid, Ok secret, Ok csrf =>
            let secretBytes := default [] (DecodeString secret) in
            let csrfBytes := default [] (DecodeString csrf) in
            let state := {| pre_Credential := cid +:+ "." +:+ secret; pre_CSRFToken := csrf;
                            pre_ExpiresAt := now + preAuthTTL |} in
            let record := {| pre_ID := cid; pre_Source := source; pre_Digest := Sum256 secretBytes;
                             pre_CSRFDigest := Sum256 csrfBytes; pre_IssuedAt := now;
                             pre_record_ExpiresAt := pre_ExpiresAt state |} in
            match store_CreatePreAuth seed (polled ctx) record s with
            | (Some err, s) => (Err (default err (preAuthError (Some err))), s)
            | (None, s) => (Ok state, s)
            end
        | _, _, _ => (Err (Sentinel ErrUnavailable), s)
        end
  end.

Definition Authenticate (ctx : Context) (now : Time) (credential csrf : string) (s : S) : option error * S :=
  match ctx 0%nat with
  | Some err => (Some err, s)
  | None =>
      match preAuthProof credential csrf now with
      | Err _ => (Some (Sentinel ErrPreAuth), s)
      | Ok proof => let '(err, s) := store_AuthenticatePreAuth (polled ctx) proof s in (preAuthError err, s)
      end
  end.

Definition Consume (ctx : Context) (now : Time) (credential csrf : string) (s : S) : option error * S :=
  match ctx 0%nat with
  | Some err => (Some err, s)
  | None =>
      match preAuthProof credential csrf now with
      | Err _ => (Some (Sentinel ErrPreAuth), s)
      | Ok proof => let '(err, s) := store_ConsumePreAuth (polled ctx) proof s in (preAuthError err, s)
      end
  end.
End preauth_manager.

(** ** Identities in a context

    The chain of [context.WithValue]s, newest first; only the entries under
    Fabrin's private key matter here. *)

Definition WithIdentity (values : list Identity) (i : Identity) : list Identity := i :: values.
Definition IdentityFromContext (values : list Identity) : Identity * bool :=
  match values with
  | i :: _ => (i, true)
  | [] => (no_identity, false)
  end.
