(* ===== verification/AuthSpec.v ===== *)
(** * The authentication service: its contract and the sign-in flow

    [LawfulStore] is what the service needs of a store, in terms of the challenges
    that can still be won and the sessions in force.  The service's theorems are
    proved against it; the in-process store satisfies it, and the last theorem puts
    the two together: the code that was mailed signs its reader in. *)

From S2P Require Import Prelude GoStrings Sha256 AuthCore AuthCoreSpec MemoryStore MemoryStoreSpec.
From S2P Require Import MemoryStoreInv MemoryStoreSafety Auth.

#[local] Open Scope Z_scope.
#[local] Opaque verifier Sum256.

(** ** The contract of a store *)

Class LawfulStore (S : Type) `{Store S} := {
  store_inv : S → Prop;
  (** the challenges that can still be won *)
  pending : S → string → option Reservation;
  (** the sessions in force, with their identities *)
  in_session : S → string → option (SessionRecord * Identity);

  law_reserve : ∀ seed ctx r s err s',
    store_inv s → reservation_ID r ≠ "" → store_Reserve seed ctx r s = (err, s') →
    store_inv s' ∧ (err = None → pending s' (reservation_ID r) = Some r);
  law_verify : ∀ seed ctx a s i s',
    store_inv s → attempt_IdentityID a ≠ "" → store_Verify seed ctx a s = (Ok i, s') →
    store_inv s' ∧ identity_Email i = attempt_Email a ∧ pending s' (attempt_ID a) = None
    ∧ in_session s' (session_ID (attempt_Session a))
        = Some (with_identity (attempt_Session a) (identity_ID i), i)
    ∧ ∃ r, pending s (attempt_ID a) = Some r ∧ matches r a = true
        ∧ reservation_IssuedAt r <= attempt_Now a < reservation_ExpiresAt r;
  law_invalidate : ∀ ctx cid s err s',
    store_inv s → store_Invalidate ctx cid s = (err, s') →
    store_inv s' ∧ (err = None → pending s' cid = None)
    ∧ ∀ j, j ≠ cid → pending s' j = pending s j;
  law_authenticate : ∀ (ctx : Context) p s r i,
    ctx 0%nat = None → in_session s (proof_ID p) = Some (r, i) →
    session_Digest r = proof_Digest p → proof_CSRFDigest p = zero_digest →
    session_CreatedAt r <= proof_Now p < session_ExpiresAt r →
    proof_Now p < session_LastSeenAt r + sessionIdleTTL →
    fst (store_AuthenticateSession ctx p s) = Ok i;
}.

(** ** The in-process store is lawful *)

Definition memory_pending (s : MemoryStore) (cid : string) : option Reservation :=
  c ← challenges s !! cid;
  if live c && (failed c <? challengeAttempts) then Some (reservation c) else None.
Definition memory_session (s : MemoryStore) (sid : string) : option (SessionRecord * Identity) :=
  x ← sessions s !! sid; if session_active x then Some (record x, identity x) else None.

Lemma Reserve_installs seed ctx r s s' :
  Reserve seed ctx r s = (None, s') →
  challenges s' !! reservation_ID r = Some {| reservation := r; failed := 0; live := true |}.
Proof.
  unfold Reserve. destruct (ctx 0%nat); [done|]. cbv zeta. destruct (_ || _ || _); [done|].
  destruct (make_room _ _ _ _) as [s1|]; [|done].
  destruct (no_room s1 _ _); [done|]. destruct (no_room s1 _ _); [done|]. intros [= <-].
  cbn. by rewrite lookup_insert_eq.
Qed.

Lemma memory_law_invalidate ctx cid s err s' :
  wf s → Invalidate ctx cid s = (err, s') →
  wf s' ∧ (err = None → memory_pending s' cid = None)
  ∧ ∀ j, j ≠ cid → memory_pending s' j = memory_pending s j.
Proof.
  intros Hwf Hi. assert (Hwf' : wf s') by (pose proof (wf_Invalidate ctx cid s Hwf) as Hw; by rewrite Hi in Hw).
  split; [done|]. revert Hi. unfold Invalidate. destruct (ctx 0%nat); [by intros [= <- <-]|].
  destruct (challenges s !! cid) as [c|] eqn:E; intros [= <- <-]; unfold memory_pending; cbn.
  - rewrite lookup_alter_eq, E. split; [done|]. intros j Hj. by rewrite lookup_alter_ne.
  - by rewrite E.
Qed.

Lemma memory_law_verify seed ctx a s i s' :
  wf s → attempt_IdentityID a ≠ "" → Verify seed ctx a s = (Ok i, s') →
  wf s' ∧ identity_Email i = attempt_Email a ∧ memory_pending s' (attempt_ID a) = None
  ∧ memory_session s' (session_ID (attempt_Session a))
      = Some (with_identity (attempt_Session a) (identity_ID i), i)
  ∧ ∃ r, memory_pending s (attempt_ID a) = Some r ∧ matches r a = true
      ∧ reservation_IssuedAt r <= attempt_Now a < reservation_ExpiresAt r.
Proof.
  intros Hwf Hid Hv. assert (Hwf' : wf s') by (pose proof (wf_Verify seed ctx a s Hid Hwf) as Hw; by rewrite Hv in Hw).
  destruct (Verify_sound _ _ _ _ _ _ Hwf Hv) as (c & Hc & (Hl & Hf & Hw) & Hm & He & _ & _ & Hs & _ & Hch).
  unfold memory_pending, memory_session. rewrite Hch, Hs, lookup_alter_eq, Hc. cbn.
  split_and!; try done. exists (reservation c). rewrite Hl, (proj2 (Z.ltb_lt _ _) Hf). done.
Qed.

#[global] Instance memory_lawful : LawfulStore MemoryStore.
Proof.
  refine {| store_inv := wf; pending := memory_pending; in_session := memory_session |}.
  - intros seed ctx r s err s' Hwf Hid Hr. cbn in Hr.
    pose proof (wf_Reserve seed ctx r s Hid Hwf) as Hw. rewrite Hr in Hw. split; [done|]. intros ->.
    unfold memory_pending. by rewrite (Reserve_installs _ _ _ _ _ Hr).
  - exact memory_law_verify.
  - exact memory_law_invalidate.
  - intros ctx p s r i Hctx Hs Hd Hz Hw Hidle. unfold memory_session in Hs.
    destruct (sessions s !! proof_ID p) as [x|] eqn:E; [|done]. cbn in Hs.
    destruct (session_active x) eqn:Ha; [|done]. injection Hs as <- <-.
    cbn. unfold AuthenticateSession, within, idle_deadline, digest_eqb, Before. rewrite Hctx, E.
    rewrite Ha, Hd, Hz, (proj2 (Z.ltb_ge _ _)), (proj2 (Z.ltb_lt _ _)), (proj2 (Z.ltb_lt _ _)) by lia.
    by rewrite bool_decide_true, bool_decide_true by done.
Defined.

(** ** Requests *)

Lemma newChallenge_id e i k mailbox purpose now c code :
  newChallenge e i k mailbox purpose now = Ok (c, code) → id c ≠ "".
Proof. intros (_ & _ & Hl & _)%newChallenge_ok E. rewrite E in Hl. done. Qed.

Definition sign_in_message (to code : string) : Message :=
  {| To := to; Subject := "Your Fabrin sign-in code"; Text := "Your Fabrin sign-in code is: " +:+ code |}.

(** The challenge [cid] is pending for the mailed code. *)
Definition awaits {S} `{LawfulStore S} (svc : Service) (purpose : Purpose) (to code cid : string)
    (now : Time) (s : S) : Prop :=
  ∃ r, pending s cid = Some r ∧ reservation_Email r = to ∧ reservation_Purpose r = purpose
    ∧ reservation_KeyID r = keyID svc ∧ reservation_IssuedAt r = now
    ∧ reservation_ExpiresAt r = now + 5 * Minute
    ∧ reservation_Verifier r = verifier (key svc) [purpose; cid; to; code].

Section service.
Context {S : Type} `{LawfulStore S}.

Lemma Request_inv svc w mailbox purpose source options s :
  store_inv s → store_inv (snd (Request svc w mailbox purpose source options s)).
Proof.
  intros Hinv. unfold Request. destruct (request_ctx w 0%nat); [done|].
  destruct (_ || _); [done|]. destruct (challengeBinding options) as [b|]; [|done].
  destruct (newChallenge _ _ _ _ _ _) as [[c code]|] eqn:Ec; [|done].
  apply newChallenge_id in Ec. cbv zeta.
  destruct (store_Reserve _ _ _ s) as [[err|] s1] eqn:Er;
    (apply law_reserve in Er as [Hinv1 _]; [|done..]); [done|].
  destruct (request_send w _) as [err|]; [|done].
  destruct (_ && _); [|done]. destruct (store_Invalidate _ _ s1) as [ierr s2] eqn:Ei.
  by apply law_invalidate in Ei as (? & _).
Qed.

(** What a request for a code does, over any lawful store.  When a message is
    handed to the sender it goes to the canonical address and carries eight digits,
    and the challenge for exactly that code was reserved first, for five minutes.
    If the sender takes the message the caller gets the challenge's ID and expiry
    and the challenge is pending; if delivery ended in cancellation or a deadline
    the caller gets [ErrDelivery] and the challenge stays pending; if the sender
    rejected the message the caller gets [ErrDelivery] and the challenge can no
    longer be won once the clean-up succeeded.  Without a message there is no
    challenge in the answer. *)
Theorem Request_outcomes svc w mailbox purpose source options s res msg s' :
  store_inv s → Request svc w mailbox purpose source options s = (res, msg, s') →
  store_inv s' ∧
  match msg with
  | None => is_ok res = false
  | Some m => ∃ to code cid,
      canonicalEmail mailbox = Ok to ∧ m = sign_in_message to code
      ∧ String.length code = 8%nat ∧ string_forall is_digit code = true
      ∧ match request_send w m with
        | None =>
            res = Ok {| challenge_ID := cid; challenge_ExpiresAt := request_clock w + 5 * Minute |}
            ∧ awaits svc purpose to code cid (request_clock w) s'
        | Some err =>
            res = Err (Sentinel ErrDelivery) ∧
            ∃ s1, awaits svc purpose to code cid (request_clock w) s1 ∧
            if errors_Is err Canceled || errors_Is err DeadlineExceeded then s' = s1
            else s' = snd (store_Invalidate (request_cleanup w) cid s1)
                 ∧ (fst (store_Invalidate (request_cleanup w) cid s1) = None → pending s' cid = None)
        end
  end.
Proof.
  intros Hinv. unfold Request. destruct (request_ctx w 0%nat); [by intros [= <- <- <-]|].
  destruct (_ || _); [by intros [= <- <- <-]|].
  destruct (challengeBinding options) as [binding|]; [|by intros [= <- <- <-]].
  destruct (newChallenge _ _ _ _ _ _) as [[c code]|] eqn:Ec; [|by intros [= <- <- <-]].
  pose proof (newChallenge_id _ _ _ _ _ _ _ _ Ec) as Hid.
  apply newChallenge_ok in Ec as (_ & _ & _ & Hto & Hi & He & _ & _ & Hl & Hd & Hv). cbv zeta.
  destruct (store_Reserve _ _ _ s) as [[err|] s1] eqn:Er.
  { intros [= <- <- <-]. by apply law_reserve in Er as [? _]. }
  apply law_reserve in Er as [Hinv1 Hp]; [|done..]. specialize (Hp eq_refl). cbn in Hp.
  fold (sign_in_message (email c) code).
  assert (Haw : awaits svc purpose (email c) code (id c) (request_clock w) s1).
  { eexists. split; [exact Hp|]. cbn. by rewrite Hi, He, Hv. }
  destruct (request_send w (sign_in_message (email c) code)) as [err|] eqn:Es.
  - rewrite <-negb_orb. destruct (errors_Is err Canceled || errors_Is err DeadlineExceeded) eqn:Ee; cbn [negb].
    + intros [= <- <- <-]. split; [done|]. exists (email c), code, (id c). rewrite Es, Ee. eauto 10.
    + destruct (store_Invalidate _ _ s1) as [ierr s2] eqn:Ei. intros [= <- <- <-].
      apply law_invalidate in Ei as Hi2; [|done]. destruct Hi2 as (Hinv2 & Hgone & _). split; [done|].
      exists (email c), code, (id c). rewrite Es, Ee. split_and!; try done.
      exists s1. rewrite Ei. by split.
  - intros [= <- <- <-]. split; [done|]. exists (email c), code, (id c). rewrite Es, He. by split_and!.
Qed.

(** ** Verification *)

Lemma randomHex_length e i n h : randomHex e i n = Ok h → String.length h = (2 * n)%nat.
Proof.
  unfold randomHex. intros (b & Hb & [= <-])%result_bind_ok.
  by rewrite length_hex_encode, (rand_Read_length _ _ _ _ Hb).
Qed.

(** C8: Signing in proves possession of the code, over any lawful store.  If
    [Verify] answers with an authentication, the challenge named was pending for
    this purpose, key and binding, its digest was that of this very code for the
    canonical form of this address, and the time was within its window; the
    challenge is pending no more; the identity is the one of that address; and the
    credential returned opens the session manager for that identity for the next
    day, starting now. *)
Theorem service_Verify_sound svc w cid mailbox code purpose source options s auth s' :
  store_inv s → service_Verify svc w cid mailbox code purpose source options s = (Ok auth, s') →
  let canonical := match canonicalEmail mailbox with Ok c => c | Err _ => "" end in
  store_inv s'
  ∧ (∃ r, pending s cid = Some r ∧ reservation_Purpose r = purpose ∧ reservation_KeyID r = keyID svc
       ∧ reservation_Email r = canonical
       ∧ reservation_Verifier r = verifier (key svc) [purpose; cid; canonical; code]
       ∧ challengeBinding options = Ok (reservation_Binding r)
       ∧ reservation_IssuedAt r <= verify_clock w < reservation_ExpiresAt r)
  ∧ pending s' cid = None
  ∧ identity_Email (authenticated auth) = canonical
  ∧ ∀ (ctx : Context) t, (∀ n, ctx n = None) → verify_clock w <= t < verify_clock w + sessionIdleTTL →
      fst (Current ctx t (Credential (issued_session auth)) s') = Ok (authenticated auth).
Proof.
  intros Hinv. unfold service_Verify. destruct (verify_ctx w 0%nat); [done|].
  destruct (_ || _); [done|]. destruct (challengeBinding options) as [b|] eqn:Eb; [|done].
  destruct (randomHex _ 0 32) as [h|] eqn:Eh; [|done].
  destruct (newSession _ 1 _) as [[session record]|] eqn:En; [|done]. cbv zeta.
  destruct (store_Verify _ _ _ s) as [[i|err] s1] eqn:Ev; [|done]. intros [= <- <-].
  apply law_verify in Ev; [|done|cbn; intros Ez; rewrite Ez in Eh; by apply randomHex_length in Eh].
  cbn in Ev. destruct Ev as (Hinv' & He & Hp & Hs & r & Hr & Hm & Hw).
  unfold matches, digest_eqb in Hm. cbn in Hm. rewrite !andb_true_iff, !bool_decide_eq_true, !String.eqb_eq in Hm.
  destruct Hm as ((((M1 & M2) & M3) & M4) & M5).
  split_and!; try done.
  - exists r. rewrite M5. destruct Hw. by split_and!.
  - intros ctx t Hctx Ht. cbn [issued_session authenticated].
    apply newSession_ok in En as (idb & secret & csrf & [Hib Hil] & [Hsb Hsl] & _ & -> & ->).
    unfold Current. rewrite Hctx. cbn [Credential]. rewrite sessionProof_encoded by done.
    assert (Hpr : fst (store_AuthenticateSession (polled ctx) {| proof_ID := EncodeToString idb;
              proof_Digest := Sum256 secret; proof_CSRFDigest := zero_digest; proof_Now := t |} s1) = Ok i).
    { eapply law_authenticate; [apply Hctx|exact Hs|done|done|cbn..];
        unfold sessionAbsoluteTTL, sessionIdleTTL, Hour, Minute, Second in *; lia. }
    destruct (store_AuthenticateSession _ _ s1) as [[j|e] s2]; cbn in Hpr; by simplify_eq.
Qed.
End service.

(** ** The whole sign-in, over the in-process store *)

(** The source may make another attempt at this time. *)
Definition may_try (source : string) (now : Time) (s : MemoryStore) : Prop :=
  let s := prune now s in
  no_room s (sourceVerifications s) source = false
  ∧ count (spent_of (sourceVerifications s) source) < sourceVerifyLimit.

(** The store has room for a session and an identity. *)
Definition has_room (s : MemoryStore) : Prop :=
  Z.of_nat (size (sessions s)) < capacity s ∧ Z.of_nat (size (identities s)) < capacity s.

Lemma newSession_total e i now :
  (∀ n, is_Some (e n)) → ∃ session record, newSession e i now = Ok (session, record).
Proof.
  intros He. unfold newSession, rand_Read.
  destruct (He i) as [f ->], (He (S i)) as [g ->], (He (S (S i))) as [h ->]. cbn [mbind result_bind]. eauto.
Qed.

(** C9: The mailed code signs its reader in.  After a request that was answered
    with a challenge, presenting the code found in the message, with the same
    address, purpose and options, within five minutes, is answered with an
    authentication for the canonical address: whenever the presenting source is
    within its budget, the entropy source works, the new session ID is fresh and
    the store has room. *)
Theorem mailed_code_signs_in svc w v mailbox purpose source options s c m s1 source' code :
  wf s → Request svc w mailbox purpose source options s = (Ok c, Some m, s1) →
  Text m = "Your Fabrin sign-in code is: " +:+ code →
  request_clock w <= verify_clock v < request_clock w + 5 * Minute →
  (∀ n, verify_ctx v n = None) → (∀ n, is_Some (verify_entropy v n)) →
  source' ≠ "" → len source' <= 256 → may_try source' (verify_clock v) s1 → has_room s1 →
  (∀ session record, newSession (verify_entropy v) 1 (verify_clock v) = Ok (session, record) →
     sessions s1 !! session_ID record = None) →
  ∃ auth s2, service_Verify svc v (challenge_ID c) mailbox code purpose source' options s1 = (Ok auth, s2)
    ∧ canonicalEmail mailbox = Ok (identity_Email (authenticated auth)).
Proof.
  intros Hwf Hreq Htext Hw Hctx Hent Hs1 Hs2 Htry [Hroom1 Hroom2] Hfresh.
  revert Hreq. unfold Request. destruct (request_ctx w 0%nat); [done|]. destruct (_ || _); [done|].
  destruct (challengeBinding options) as [b|] eqn:Eb; [|done].
  destruct (newChallenge _ _ _ _ _ _) as [[ch code0]|] eqn:Ec; [|done].
  pose proof (newChallenge_id _ _ _ _ _ _ _ _ Ec) as Hid.
  apply newChallenge_ok in Ec as (_ & _ & _ & Hto & Hi & He & _ & _ & _ & _ & Hv). cbv zeta.
  destruct (store_Reserve _ _ _ s) as [[err|] s0] eqn:Er; [done|]. cbn in Er.
  destruct (request_send w _) as [err|].
  { by destruct (negb _ && negb _); [destruct (store_Invalidate _ _ _)|]. }
  intros [= <- <- ->]. cbn in Htext. injection Htext as <-.
  assert (Hwf1 : wf s1).
  { match type of Er with Reserve ?sd ?cx ?r s = _ => pose proof (wf_Reserve sd cx r s Hid Hwf) as Hw1 end.
    by rewrite Er in Hw1. }
  apply Reserve_installs in Er. cbn in Er.
  destruct (newSession_total (verify_entropy v) 1 (verify_clock v) Hent) as (session & record & En).
  specialize (Hfresh session record En).
  unfold service_Verify. rewrite Hctx, Eb, Hto, En.
  rewrite (proj2 (String.eqb_neq source' "")), (proj2 (Z.ltb_ge 256 (len source'))) by done. cbn [orb].
  destruct (randomHex (verify_entropy v) 0 32) as [h|] eqn:Eh.
  2:{ unfold randomHex, rand_Read in Eh. by destruct (Hent 0%nat) as [f Hf]; rewrite Hf in Eh. }
  apply newSession_ok in En as (idb & secret & csrf & [Hib Hil] & _ & _ & -> & ->).
  cbv zeta. match goal with |- context [store_Verify _ _ ?x s1] => set (a := x) end.
  assert (Hprep : well_prepared a s1).
  { assert (Hne : EncodeToString idb ≠ "").
    { intros E. pose proof (EncodeToString_32 idb Hib Hil) as (_ & Hl & _). by rewrite E in Hl. }
    unfold well_prepared, a, sessionAbsoluteTTL, Hour, Minute, Second. cbn. split_and!; try done; lia. }
  match type of Er with _ = Some ?x => set (c := x) in * end.
  assert (Hopen : open_at (attempt_Now a) c) by (split_and!; cbn; [done|done|rewrite Hi; lia|rewrite He; lia]).
  assert (Hmatch : matches (reservation c) a = true).
  { unfold matches, digest_eqb, a, c. cbn. by rewrite !String.eqb_refl, Hv, !bool_decide_true. }
  destruct (Verify_complete (verify_seed v) (polled (verify_ctx v)) a s1 c (Hctx _) Htry Hprep Er Hopen Hmatch)
    as (i & s2 & Hok).
  cbn [store_Verify memory_store]. rewrite Hok. eexists _, s2. split; [done|]. cbn.
  apply Verify_sound in Hok as (_ & _ & _ & _ & Hmail & _); [|done]. by rewrite Hmail.
Qed.

(** ** Errors tell nothing of their cause *)

(** Whatever store is plugged in, and whatever it answers, a caller of the
    service or of the session manager only ever sees the public errors: its own
    context's, [ErrRateLimited], [ErrAuthentication], [ErrSession] (as the store
    worded them), a cancellation or deadline, a failure of the entropy source, or
    else exactly [ErrUnavailable]: no other store error reaches it. *)
Theorem errors_opaque {S} `{Store S} svc v cid mailbox code purpose source options (ctx : Context) t credential (s : S) :
  (∀ err s', service_Verify svc v cid mailbox code purpose source options s = (Err err, s') →
     verify_ctx v 0%nat = Some err
     ∨ err = Wrapped "auth: generate identity ID" (NewError "entropy source failed")
     ∨ err = Wrapped "auth: generate session" (NewError "entropy source failed")
     ∨ err = Sentinel ErrUnavailable
     ∨ errors_Is err ErrAuthentication || errors_Is err ErrRateLimited
       || errors_Is err Canceled || errors_Is err DeadlineExceeded = true)
  ∧ (∀ err s', Current ctx t credential s = (Err err, s') →
     ctx 0%nat = Some err ∨ err = Sentinel ErrUnavailable
     ∨ errors_Is err ErrSession || errors_Is err Canceled || errors_Is err DeadlineExceeded = true).
Proof.
  split; intros err s'.
  - unfold service_Verify. destruct (verify_ctx v 0%nat); [intros [= -> <-]; by left|].
    destruct (_ || _); [intros [= <- <-]; cbn; auto 10|].
    destruct (challengeBinding options) as [b|]; [|intros [= <- <-]; cbn; auto 10].
    destruct (randomHex _ 0 32) as [h|e] eqn:Eh.
    2:{ intros [= <- <-]. unfold randomHex, rand_Read in Eh. destruct (verify_entropy v 0%nat); [done|].
        injection Eh as <-. auto. }
    destruct (newSession _ 1 _) as [[session record]|e] eqn:En.
    2:{ intros [= <- <-]. unfold newSession, rand_Read in En.
        destruct (verify_entropy v 1%nat); [|injection En as <-; auto].
        destruct (verify_entropy v 2%nat); [|injection En as <-; auto].
        destruct (verify_entropy v 3%nat); [done|injection En as <-; auto]. }
    cbv zeta. destruct (store_Verify _ _ _ s) as [[i|e] s1]; [done|]. intros [= <- <-].
    unfold storeError. destruct (_ || _) eqn:E; [|auto]. rewrite E. auto.
  - unfold Current. destruct (ctx 0%nat); [intros [= -> <-]; by left|].
    destruct (sessionProof credential t) as [p|]; [|intros [= <- <-]; auto].
    destruct (store_AuthenticateSession _ _ s) as [[i|e] s1]; [done|]. intros [= <- <-].
    unfold sessionStoreError. destruct (_ || _) eqn:E; cbn; [|auto]. rewrite E. auto.
Qed.

(** ** Browser bootstrap *)

(** A bootstrap hands the browser secrets that work, once: until the state
    expires they are accepted together, consuming it succeeds, and afterwards the
    same secrets are refused. *)
Theorem Bootstrap_consumed_once ctx e seed now source s st s' :
  Bootstrap ctx e seed now source s = (Ok st, s') →
  pre_ExpiresAt st = now + preAuthTTL ∧
  ∀ (ctx' : Context) t, (∀ n, ctx' n = None) → now <= t < now + preAuthTTL →
    Authenticate ctx' t (pre_Credential st) (pre_CSRFToken st) s' = (None, s')
    ∧ fst (Consume ctx' t (pre_Credential st) (pre_CSRFToken st) s') = None
    ∧ ∀ t', fst (Authenticate ctx' t' (pre_Credential st) (pre_CSRFToken st)
                   (snd (Consume ctx' t (pre_Credential st) (pre_CSRFToken st) s')))
            = Some (Sentinel ErrPreAuth).
Proof.
  unfold Bootstrap. destruct (ctx 0%nat); [done|]. destruct (_ || _); [done|].
  destruct (randomEncoded e 0 32) as [cid|] eqn:E0; [|done].
  destruct (randomEncoded e 1 32) as [secret|] eqn:E1; [|done].
  destruct (randomEncoded e 2 32) as [csrf|] eqn:E2; [|done].
  unfold randomEncoded in E0, E1, E2.
  apply result_bind_ok in E0 as (b0 & R0 & [= <-]). apply result_bind_ok in E1 as (b1 & R1 & [= <-]).
  apply result_bind_ok in E2 as (b2 & R2 & [= <-]).
  pose proof (rand_Read_bytes _ _ _ _ R0) as B0. pose proof (rand_Read_bytes _ _ _ _ R1) as B1.
  pose proof (rand_Read_bytes _ _ _ _ R2) as B2. apply rand_Read_length in R0, R1, R2.
  cbv zeta. rewrite !DecodeString_Encode by done. cbn [default].
  change (default [] (Some b1)) with b1. change (default [] (Some b2)) with b2.
  destruct (store_CreatePreAuth _ _ _ s) as [[err|] s1] eqn:Ec; [done|]. intros [= <- <-].
  split; [done|]. intros ctx' t Hctx Ht. cbn [pre_Credential pre_CSRFToken].
  assert (Hr : ∃ r, browserStates s1 !! EncodeToString b0 = Some r ∧ pre_Digest r = Sum256 b1
    ∧ pre_CSRFDigest r = Sum256 b2 ∧ pre_IssuedAt r = now ∧ pre_record_ExpiresAt r = now + preAuthTTL).
  { revert Ec. cbn. unfold CreatePreAuth. destruct (polled ctx 0%nat); [done|]. destruct (_ || _); [done|].
    cbv zeta. destruct (_ <=? _); [done|]. destruct (no_room _ _ _); [done|].
    destruct (make_room _ _ _ _) as [s2|]; [|done]. intros [= <-]. cbn. rewrite lookup_insert_eq.
    eexists. by split_and!. }
  destruct Hr as (r & Hr & Hd & Hcd & Hi & He).
  assert (Hproof : ∀ t', preAuthProof (EncodeToString b0 +:+ "." +:+ EncodeToString b1) (EncodeToString b2) t' =
    Ok {| pproof_ID := EncodeToString b0; pproof_Digest := Sum256 b1; pproof_CSRFDigest := Sum256 b2; pproof_Now := t' |}).
  { intros t'. unfold preAuthProof. rewrite sessionProof_encoded by done. cbn [mbind result_bind].
    destruct (EncodeToString_32 b2 B2 R2) as (_ & Hl & _). rewrite DecodeString_Encode by done.
    by rewrite R2, Hl. }
  unfold Authenticate, Consume. rewrite !Hctx, !Hproof. cbn [store_AuthenticatePreAuth store_ConsumePreAuth memory_preauth].
  unfold AuthenticatePreAuth, ConsumePreAuth, polled. rewrite !Hctx.
  assert (Hauth : authenticateBrowserState {| pproof_ID := EncodeToString b0; pproof_Digest := Sum256 b1;
            pproof_CSRFDigest := Sum256 b2; pproof_Now := t |} s1 = None).
  { unfold authenticateBrowserState, Before, digest_eqb. cbn. rewrite Hr, Hi, He, Hd, Hcd.
    rewrite (proj2 (Z.ltb_ge _ _)), (proj2 (Z.ltb_lt _ _)), !bool_decide_true by (first [done|lia]). done. }
  rewrite Hauth. cbn [fst snd preAuthError]. split_and!; [done|done|]. intros t'. rewrite Hproof.
  unfold authenticateBrowserState. cbn. by rewrite lookup_delete_eq.
Qed.

(** ** Concrete runs *)

Definition example_service : Service := {| keyID := "k1"; key := replicate 32 7 |}.
Definition example_request : RequestWorld :=
  {| request_clock := 0; request_ctx := Background; request_entropy := counting; request_seed := 0;
     request_send := λ _, None; request_cleanup := Background |}.
Definition example_verify : VerifyWorld :=
  {| verify_clock := Minute; verify_ctx := Background; verify_entropy := λ i, counting (100 + i)%nat;
     verify_seed := 0 |}.

Definition example_run : result error Challenge * option Message * MemoryStore :=
  Request example_service example_request "ada@Example.com" PurposeNative "192.0.2.1" [] (empty_store 10).

Lemma empty_store_wf : wf (empty_store 10).
Proof. by apply (wf_new 10). Qed.

Lemma Request_outcomes_witness :
  ∃ m, snd (fst example_run) = Some m ∧ ∃ code, m = sign_in_message "ada@example.com" code.
Proof.
  destruct example_run as [[res [m|]] s'] eqn:E; [|discriminate E]. exists m. split; [reflexivity|].
  destruct (proj2 (Request_outcomes (S:=MemoryStore) (H0:=memory_lawful) example_service example_request "ada@Example.com" PurposeNative "192.0.2.1" []
              (empty_store 10) res (Some m) s' empty_store_wf E)) as (to & code & cid & Hto & Hm & _).
  exists code. injection Hto as <-. exact Hm.
Defined.

Lemma mailed_code_signs_in_witness :
  ∃ c m s1, example_run = (Ok c, Some m, s1) ∧ ∃ auth s2,
    service_Verify example_service example_verify (challenge_ID c) "ada@Example.com"
      (drop_bytes 29 (Text m)) PurposeNative "192.0.2.1" [] s1 = (Ok auth, s2).
Proof.
  destruct example_run as [[[c|err] [m|]] s1] eqn:E; try discriminate E. exists c, m, s1. split; [reflexivity|].
  destruct (mailed_code_signs_in example_service example_request example_verify "ada@Example.com" PurposeNative
              "192.0.2.1" [] (empty_store 10) c m s1 "192.0.2.1" (drop_bytes 29 (Text m)) empty_store_wf E)
    as (auth & s2 & H & _).
  - injection E as _ <- _. reflexivity.
  - cbn. unfold Minute, Second. lia.
  - intros n. reflexivity.
  - intros n. eexists. reflexivity.
  - discriminate.
  - vm_compute. discriminate.
  - injection E as _ _ <-. split; vm_compute; reflexivity.
  - injection E as _ _ <-. split; vm_compute; reflexivity.
  - intros session record _. injection E as _ _ <-. reflexivity.
  - exists auth, s2. exact H.
Defined.

Definition example_sign_in : result error Authentication * MemoryStore :=
  match example_run with
  | (Ok c, Some m, s1) =>
      service_Verify example_service example_verify (challenge_ID c) "ada@Example.com"
        (drop_bytes 29 (Text m)) PurposeNative "192.0.2.1" [] s1
  | (_, _, s1) => (Err (NewError ""), s1)
  end.

Lemma service_Verify_sound_witness :
  ∃ auth s2, example_sign_in = (Ok auth, s2)
    ∧ fst (Current Background (2 * Minute) (Credential (issued_session auth)) s2) = Ok (authenticated auth).
Proof.
  unfold example_sign_in.
  destruct example_run as [[[c|err] [m|]] s1] eqn:E; try discriminate E.
  destruct (service_Verify example_service example_verify (challenge_ID c) "ada@Example.com"
              (drop_bytes 29 (Text m)) PurposeNative "192.0.2.1" [] s1) as [[auth|err] s2] eqn:Ev.
  2:{ exfalso. assert (H : is_ok (fst example_sign_in) = true) by (vm_compute; reflexivity).
      unfold example_sign_in in H. rewrite E, Ev in H. discriminate H. }
  exists auth, s2. split; [reflexivity|].
  assert (Hwf : wf s1).
  { pose proof (Request_inv (H0:=memory_lawful) example_service example_request "ada@Example.com" PurposeNative
      "192.0.2.1" [] (empty_store 10) empty_store_wf) as Hw.
    unfold example_run in E. rewrite E in Hw. exact Hw. }
  refine (proj2 (proj2 (proj2 (proj2 (service_Verify_sound (S:=MemoryStore) (H0:=memory_lawful) example_service example_verify (challenge_ID c)
    "ada@Example.com" (drop_bytes 29 (Text m)) PurposeNative "192.0.2.1" [] s1 auth s2 Hwf Ev))))
    Background (2 * Minute) _ _).
  - intros n. reflexivity.
  - cbn. unfold sessionIdleTTL, Hour, Minute, Second. lia.
Defined.

Lemma Bootstrap_consumed_once_witness :
  ∃ st s', Bootstrap Background counting 0 0 "192.0.2.1" (empty_store 10) = (Ok st, s')
    ∧ Authenticate Background Minute (pre_Credential st) (pre_CSRFToken st) s' = (None, s').
Proof.
  destruct (Bootstrap Background counting 0 0 "192.0.2.1" (empty_store 10)) as [[st|err] s'] eqn:E;
    [|exfalso; assert (H : is_ok (fst (Bootstrap Background counting 0 0 "192.0.2.1" (empty_store 10))) = true)
        by (vm_compute; reflexivity); rewrite E in H; discriminate H].
  exists st, s'. split; [reflexivity|].
  refine (proj1 (proj2 (Bootstrap_consumed_once Background counting 0 0 "192.0.2.1" (empty_store 10) st s' E)
    Background Minute _ _)).
  - intros n. reflexivity.
  - unfold preAuthTTL, Minute, Second. lia.
Defined.
