(* ===== verification/AuthHttp.v ===== *)
(** * Authentication over HTTP

    [authhttp/native.go] and [authhttp/browser.go]: the handlers that expose the
    authentication service to clients with bearer credentials ([Native]) and to
    browsers ([Browser]: origins, cookies and CSRF tokens).

    A handler is given the request, what the world answers during each call it
    makes to a manager, the response under construction and the store; Gin's
    context is the pair of request and response.  Parsing a media type, an origin
    and an IP address are the standard library's ([mime], [net/url], [net]). *)

From S2P Require Import Prelude GoStrings Sha256 Json AuthCore Auth.

#[local] Open Scope Z_scope.

(** ** Requests and responses *)

(** [hr_values] is [Header.Values]: the values of a header, by name, whatever the
    case of its letters. *)
Record HttpRequest := {
  hr_method : string;
  hr_values : string → list string;
  hr_cookies : list (string * string);
  hr_remote : string;
  hr_body : string;
}.

(** [c.GetHeader]: the first value. *)
Definition GetHeader (r : HttpRequest) (name : string) : string :=
  match hr_values r name with v :: _ => v | [] => "" end.

Record Cookie := {
  ck_name : string; ck_value : string; ck_path : string; ck_expires : Time; ck_max_age : Z;
  ck_secure : bool; ck_http_only : bool; ck_same_site_lax : bool;
}.

(** The values of a [gin.H]. *)
Inductive jvalue := JString (s : string) | JTime (t : Time) | JIdentity (i : Identity).

Record Response := {
  rs_status : Z;
  rs_headers : list (string * string);
  rs_cookies : list Cookie;
  rs_body : list (string * jvalue);
}.
(** What Gin starts from. *)
Definition fresh_response : Response :=
  {| rs_status := 200; rs_headers := []; rs_cookies := []; rs_body := [] |}.

(** [c.Header] sets, [c.Writer.Header().Add] adds. *)
Definition AddHeader (name value : string) (c : Response) : Response :=
  {| rs_status := rs_status c; rs_headers := rs_headers c ++ [(name, value)];
     rs_cookies := rs_cookies c; rs_body := rs_body c |}.
Definition Header (name value : string) (c : Response) : Response :=
  {| rs_status := rs_status c;
     rs_headers := List.filter (λ h, negb (String.eqb (fst h) name)) (rs_headers c) ++ [(name, value)];
     rs_cookies := rs_cookies c; rs_body := rs_body c |}.
Definition JSON (status : Z) (body : list (string * jvalue)) (c : Response) : Response :=
  {| rs_status := status; rs_headers := rs_headers c; rs_cookies := rs_cookies c; rs_body := body |}.
Definition SetStatus (status : Z) (c : Response) : Response :=
  {| rs_status := status; rs_headers := rs_headers c; rs_cookies := rs_cookies c; rs_body := rs_body c |}.
Definition SetCookie (k : Cookie) (c : Response) : Response :=
  {| rs_status := rs_status c; rs_headers := rs_headers c;
     rs_cookies := rs_cookies c ++ [k]; rs_body := rs_body c |}.

(** A middleware aborts with a response ([Err]) or calls [c.Next()] ([Ok]). *)
Abbreviation verdict := (result Response) (only parsing).

(** ** The world during one request

    Each call of a manager reads the clock, the entropy and the request's context;
    the index counts the calls in the order the handler makes them. *)
Record World := {
  w_clock : nat → Time;
  w_ctx : nat → Context;
  w_entropy : nat → Entropy;
  w_seed : nat → nat;
  w_send : Message → option error;
  w_send_cleanup : Context;    (** of [Service.Request] *)
  w_logout_cleanup : Context;  (** of [Browser.VerifyCode] *)
  w_neutral : Entropy;         (** [neutralChallenge]'s read *)
  w_now : Time;                (** the handler's own reading of the clock *)
}.

Definition request_world (w : World) (n : nat) : RequestWorld :=
  {| request_clock := w_clock w n; request_ctx := w_ctx w n; request_entropy := w_entropy w n;
     request_seed := w_seed w n; request_send := w_send w; request_cleanup := w_send_cleanup w |}.
Definition verify_world (w : World) (n : nat) : VerifyWorld :=
  {| verify_clock := w_clock w n; verify_ctx := w_ctx w n; verify_entropy := w_entropy w n;
     verify_seed := w_seed w n |}.

(** ** Shared by both *)

Definition maxJSONBody : Z := 4096.

Definition noStore (c : Response) : Response :=
  Header "Pragma" "no-cache" (Header "Cache-Control" "no-store" c).

Definition writeError (status : Z) (code : string) (c : Response) : Response :=
  JSON status [("error", JString code)] c.

Definition writeAuthError (err : error) (c : Response) : Response :=
  if errors_Is err ErrRateLimited then writeError 429 "rate_limited" c
  else if errors_Is err ErrUnavailable || errors_Is err Canceled || errors_Is err DeadlineExceeded
  then writeError 503 "temporarily_unavailable" c
  else writeError 401 "authentication_failed" c.

Definition IndexByte (c : ascii) (s : string) : option nat :=
  match CutByte c s with Some (a, _) => Some (String.length a) | None => None end.

(** [net.SplitHostPort]: the host, when the text is well formed. *)
Definition SplitHostPort (s : string) : option string :=
  let i := LastIndexByte s ":" in
  if i <? 0 then None
  else if HasPrefix s "[" then
    match IndexByte "]" s with
    | None => None
    | Some e =>
        if negb (Z.of_nat e + 1 =? i) then None
        else if contains_byte "[" (drop_bytes 1 s) || contains_byte "]" (drop_bytes (e + 1) s) then None
        else Some (drop_bytes 1 (take_bytes e s))
    end
  else
    let host := take_bytes (Z.to_nat i) s in
    if contains_byte ":" host then None
    else if contains_byte "[" s || contains_byte "]" s then None
    else Some host.

Definition directPeer (r : HttpRequest) : string := default "" (SplitHostPort (hr_remote r)).

(** The request bodies. *)
Record EmailBody := { eb_email : string }.
Record CodeBody := { cb_challenge : string; cb_email : string; cb_code : string }.

Definition email_body (v : json) : option EmailBody :=
  dec_struct true ["email"]
    (λ _ b v, e ← dec_string (eb_email b) v; Some {| eb_email := e |}) {| eb_email := "" |} v.
Definition code_body (v : json) : option CodeBody :=
  dec_struct true ["challenge_id"; "email"; "code"]
    (λ n b v,
       if String.eqb n "challenge_id" then
         x ← dec_string (cb_challenge b) v;
         Some {| cb_challenge := x; cb_email := cb_email b; cb_code := cb_code b |}
       else if String.eqb n "email" then
         x ← dec_string (cb_email b) v;
         Some {| cb_challenge := cb_challenge b; cb_email := x; cb_code := cb_code b |}
       else
         x ← dec_string (cb_code b) v;
         Some {| cb_challenge := cb_challenge b; cb_email := cb_email b; cb_code := x |})
    {| cb_challenge := ""; cb_email := ""; cb_code := "" |} v.

Definition neutralChallenge (w : World) : result error Challenge :=
  value ← rand_Read (w_neutral w) 0 32;
  Ok {| challenge_ID := hex_encode value; challenge_ExpiresAt := w_now w + 5 * Minute |}.

Section parsing.
(** [mime.ParseMediaType] without the parameters. *)
Context (ParseMediaType : string → option string).

(** [decodeJSON]: past the limit the reader fails instead of ending, so the body
    is never one JSON value. *)
Definition decodeJSON {A} (decode : json → option A) (r : HttpRequest) : option A :=
  match ParseMediaType (GetHeader r "Content-Type") with
  | Some media =>
      if negb (String.eqb media "application/json") then None
      else if maxJSONBody <? len (hr_body r) then None
      else
        '(v, rest) ← decode_first (hr_body r);
        x ← decode v;
        if String.eqb (skip_ws rest) "" then Some x else None
  | None => None
  end.
End parsing.

(** The answer to [Service.Request], the same in both kinds of handler: what
    happened to the message and to the budgets is not told. *)
Definition answer_request (w : World) (res : result error Challenge) (c : Response) : Response :=
  let accepted ch :=
    JSON 202 [("challenge_id", JString (challenge_ID ch)); ("expires_at", JTime (challenge_ExpiresAt ch))] c in
  match res with
  | Ok ch => accepted ch
  | Err err =>
      if errors_Is err ErrAuthentication then writeError 400 "invalid_request" c
      else if errors_Is err ErrUnavailable then writeError 503 "temporarily_unavailable" c
      else if errors_Is err ErrDelivery || errors_Is err ErrRateLimited then
        match neutralChallenge w with
        | Ok ch => accepted ch
        | Err _ => writeError 503 "temporarily_unavailable" c
        end
      else writeError 503 "temporarily_unavailable" c
  end.

(** ** Clients with bearer credentials *)

Module Native.

Record t := { service : Service; source : HttpRequest → string }.

(** [NewNative]: the service and the session manager may be [nil]; an option is
    [None] when it is. *)
Fixpoint apply_options (i : nat) (options : list (option (option (HttpRequest → string) → option (HttpRequest → string))))
    (src : option (HttpRequest → string)) : result error (option (HttpRequest → string)) :=
  match options with
  | [] => Ok src
  | None :: _ => Err (NewError ("authhttp: option " +:+ Itoa (Z.of_nat i) +:+ " is nil"))
  | Some option :: options' => apply_options (S i) options' (option src)
  end.
Definition NewNative (svc : option Service) (sessions : bool)
    (options : list (option (option (HttpRequest → string) → option (HttpRequest → string)))) : result error t :=
  match svc with
  | Some svc =>
      if negb sessions then Err (NewError "authhttp: service and session manager are required")
      else
        src ← apply_options 0 options (Some directPeer);
        match src with
        | None => Err (NewError "authhttp: source function is required")
        | Some src => Ok {| service := svc; source := src |}
        end
  | None => Err (NewError "authhttp: service and session manager are required")
  end.

Definition bearerCredential (r : HttpRequest) : string * bool :=
  match hr_values r "Authorization" with
  | [v] =>
      if HasPrefix v "Bearer " then
        let credential := TrimPrefix v "Bearer " in
        (credential, negb (String.eqb credential "") && (len credential <=? 256)
                     && negb (ContainsAny credential (" " +:+ tab +:+ String "013" newline)))
      else ("", false)
  | _ => ("", false)
  end.

Section handlers.
Context (ParseMediaType : string → option string) {S : Type} `{Store S}.

Definition RequestCode (n : t) (w : World) (r : HttpRequest) (c : Response) (s : S)
    : Response * option Message * S :=
  let c := noStore c in
  match decodeJSON ParseMediaType email_body r with
  | None => (writeError 400 "invalid_request" c, None, s)
  | Some request =>
      let '(res, msg, s) :=
        Request (service n) (request_world w 0) (eb_email request) PurposeNative (source n r) [] s in
      (answer_request w res c, msg, s)
  end.

Definition VerifyCode (n : t) (w : World) (r : HttpRequest) (c : Response) (s : S) : Response * S :=
  let c := noStore c in
  match decodeJSON ParseMediaType code_body r with
  | None => (writeError 400 "invalid_request" c, s)
  | Some request =>
      match service_Verify (service n) (verify_world w 0) (cb_challenge request) (cb_email request)
              (cb_code request) PurposeNative (source n r) [] s with
      | (Err err, s) => (writeAuthError err c, s)
      | (Ok a, s) =>
          (JSON 200 [("identity", JIdentity (authenticated a));
                     ("token", JString (Credential (issued_session a)));
                     ("expires_at", JTime (session_expiry (issued_session a)))] c, s)
      end
  end.

Definition Current (w : World) (r : HttpRequest) (c : Response) (s : S) : Response * S :=
  let c := noStore c in
  let '(credential, ok) := bearerCredential r in
  if negb ok then (writeError 401 "authentication_failed" c, s)
  else
    match Auth.Current (w_ctx w 0%nat) (w_clock w 0%nat) credential s with
    | (Err err, s) => (writeAuthError err c, s)
    | (Ok i, s) => (JSON 200 [("identity", JIdentity i)] c, s)
    end.

Definition revoke (logout : Context → Time → string → S → option error * S)
    (w : World) (r : HttpRequest) (c : Response) (s : S) : Response * S :=
  let c := noStore c in
  let '(credential, ok) := bearerCredential r in
  if negb ok then (writeError 401 "authentication_failed" c, s)
  else
    match logout (w_ctx w 0%nat) (w_clock w 0%nat) credential s with
    | (Some err, s) => (writeAuthError err c, s)
    | (None, s) => (SetStatus 204 c, s)
    end.
Definition Logout := revoke Auth.Logout.
Definition LogoutAll := revoke Auth.LogoutAll.

(** The identity is the one [c.Next()] runs with. *)
Definition RequireAuth (w : World) (r : HttpRequest) (values : list Identity) (c : Response) (s : S)
    : verdict (list Identity) * S :=
  let '(credential, ok) := bearerCredential r in
  if negb ok then (Err (writeError 401 "authentication_failed" (noStore c)), s)
  else
    match Auth.Current (w_ctx w 0%nat) (w_clock w 0%nat) credential s with
    | (Err err, s) => (Err (writeAuthError err (noStore c)), s)
    | (Ok i, s) => (Ok (WithIdentity values i), s)
    end.
End handlers.
End Native.

(** ** Browsers *)

Module Browser.

Definition preAuthCookieName : string := "__Host-fabrin_preauth".
Definition sessionCookieName : string := "__Host-fabrin_session".
Definition csrfHeaderName : string := "X-CSRF-Token".

(** [EqualFold] on a text and an ASCII one. *)
Definition EqualFold (s t : string) : bool := String.eqb (fold_name s) (fold_name t).

(** *** Origins *)

(** What [validOrigin] looks at of a [url.URL]. *)
Record URL := {
  url_scheme : string; url_host : string; url_user : bool; url_path : string;
  url_raw_query : string; url_fragment : string; url_hostname : string;
}.

Section origins.
(** [url.Parse], and [net.ParseIP(host).IsLoopback()]. *)
Context `{Unicode} (url_Parse : string → option URL) (is_loopback : string → bool).

Definition validOrigin (origin : string) (insecureLoopback : bool) : bool :=
  match url_Parse origin with
  | None => false
  | Some parsed =>
      if String.eqb (url_host parsed) "" || url_user parsed || negb (String.eqb (url_path parsed) "")
         || negb (String.eqb (url_raw_query parsed) "") || negb (String.eqb (url_fragment parsed) "")
         || String.eqb origin "null" || Contains origin "*"
      then false
      else if negb insecureLoopback then String.eqb (url_scheme parsed) "https"
      else if negb (String.eqb (url_scheme parsed) "http") then false
      else if EqualFold (url_hostname parsed) "localhost" then true
      else is_loopback (url_hostname parsed)
  end.

Record browserSettings := { bs_source : option (HttpRequest → string); insecureLoopback : bool }.
Definition WithBrowserSource (source : option (HttpRequest → string)) (s : browserSettings) : browserSettings :=
  {| bs_source := source; insecureLoopback := insecureLoopback s |}.
Definition WithInsecureLoopback (s : browserSettings) : browserSettings :=
  {| bs_source := bs_source s; insecureLoopback := true |}.

Record t := {
  service : Service; origins : gset string; source : HttpRequest → string; secure : bool;
  preAuthCookie : string; sessionCookie : string;
}.

Fixpoint apply_options (i : nat) (options : list (option (browserSettings → browserSettings)))
    (s : browserSettings) : result error browserSettings :=
  match options with
  | [] => Ok s
  | None :: _ => Err (NewError ("authhttp: browser option " +:+ Itoa (Z.of_nat i) +:+ " is nil"))
  | Some option :: options' => apply_options (S i) options' (option s)
  end.

Fixpoint collect_origins (insecure : bool) (allowed : list string) (origins : gset string)
    : result error (gset string) :=
  match allowed with
  | [] => Ok origins
  | origin :: allowed' =>
      if negb (validOrigin origin insecure)
      then Err (NewError ("authhttp: invalid browser origin " +:+ Quote origin))
      else collect_origins insecure allowed' ({[origin]} ∪ origins)
  end.

(** [managers]: the session and the pre-auth manager are there. *)
Definition NewBrowser (svc : option Service) (managers : bool) (allowedOrigins : list string)
    (options : list (option (browserSettings → browserSettings))) : result error t :=
  match svc with
  | None => Err (NewError "authhttp: service, session manager and pre-auth manager are required")
  | Some svc =>
      if negb managers
      then Err (NewError "authhttp: service, session manager and pre-auth manager are required")
      else
        settings ← apply_options 0 options {| bs_source := Some directPeer; insecureLoopback := false |};
        match bs_source settings with
        | None => Err (NewError "authhttp: browser source function is required")
        | Some src =>
            origins ← collect_origins (insecureLoopback settings) allowedOrigins ∅;
            if bool_decide (origins = ∅) then Err (NewError "authhttp: at least one browser origin is required")
            else
              Ok {| service := svc; origins := origins; source := src;
                    secure := negb (insecureLoopback settings);
                    preAuthCookie := if negb (insecureLoopback settings) then preAuthCookieName
                                     else "fabrin_dev_preauth";
                    sessionCookie := if negb (insecureLoopback settings) then sessionCookieName
                                     else "fabrin_dev_session" |}
        end
  end.
End origins.

Definition allowedOrigin (b : t) (origin : string) : bool := bool_decide (origin ∈ origins b).

(** [true] and the response untouched, or [false] and the refusal written. *)
Definition safeOrigin (b : t) (r : HttpRequest) (c : Response) : bool * Response :=
  let origin := GetHeader r "Origin" in
  if String.eqb origin "" || allowedOrigin b origin then (true, c)
  else (false, writeError 403 "origin_denied" c).
Definition unsafeOrigin (b : t) (r : HttpRequest) (c : Response) : bool * Response :=
  if allowedOrigin b (GetHeader r "Origin") then (true, c)
  else (false, writeError 403 "origin_denied" c).

Definition validPreflight (method headers : string) : bool :=
  if negb (String.eqb method "GET") && negb (String.eqb method "POST") then false
  else
    forallb (λ header,
      let header := TrimSpace header in
      negb (negb (String.eqb header "") && negb (EqualFold header "content-type")
            && negb (EqualFold header csrfHeaderName))) (SplitByte "," headers).

Definition CORS (b : t) (r : HttpRequest) (c : Response) : verdict Response :=
  let origin := GetHeader r "Origin" in
  if String.eqb origin "" then
    if String.eqb (hr_method r) "OPTIONS" then Err (writeError 403 "origin_denied" (noStore c))
    else Ok c
  else if negb (allowedOrigin b origin) then Err (writeError 403 "origin_denied" (noStore c))
  else
    let c := AddHeader "Vary" "Origin"
               (Header "Access-Control-Allow-Credentials" "true"
                  (Header "Access-Control-Allow-Origin" origin c)) in
    if negb (String.eqb (hr_method r) "OPTIONS") then Ok c
    else
      let c := noStore c in
      if negb (validPreflight (GetHeader r "Access-Control-Request-Method")
                 (GetHeader r "Access-Control-Request-Headers"))
      then Err (writeError 403 "origin_denied" c)
      else
        Err (SetStatus 204
          (AddHeader "Vary" "Access-Control-Request-Headers"
             (AddHeader "Vary" "Access-Control-Request-Method"
                (Header "Access-Control-Max-Age" "600"
                   (Header "Access-Control-Allow-Headers" "Content-Type, X-CSRF-Token"
                      (Header "Access-Control-Allow-Methods" "GET, POST" c)))))).

(** *** Cookies and headers *)

(** The last value under the name, and how many there are. *)
Definition exactCookie (r : HttpRequest) (name : string) : string * bool :=
  let '(value, count) :=
    foldl (λ '(value, count) k, if String.eqb (fst k) name then (snd k, count + 1) else (value, count))
      ("", 0) (hr_cookies r) in
  (value, (count =? 1) && negb (String.eqb value "") && (len value <=? 256)).

Definition exactHeader (r : HttpRequest) (name : string) : string * bool :=
  let values := hr_values r name in
  let returnValue := match values with [v] => v | _ => "" end in
  (returnValue, (length values =? 1)%nat && negb (String.eqb returnValue "") && (len returnValue <=? 256)
                && negb (ContainsAny returnValue (" " +:+ tab +:+ String "013" (newline +:+ ",")))).

(** [time.Until(expires).Seconds()] truncated; the lifetimes in question are well
    within the range where the float is exact enough. *)
Definition setBrowserCookie (now : Time) (name value : string) (expires : Time) (secure : bool)
    (c : Response) : Response :=
  let maxAge := Z.quot (Sub expires now) Second in
  SetCookie {| ck_name := name; ck_value := value; ck_path := "/"; ck_expires := expires;
               ck_max_age := if maxAge <? 1 then 1 else maxAge;
               ck_secure := secure; ck_http_only := true; ck_same_site_lax := true |} c.
Definition clearBrowserCookie (name : string) (secure : bool) (c : Response) : Response :=
  SetCookie {| ck_name := name; ck_value := ""; ck_path := "/"; ck_expires := Second; ck_max_age := -1;
               ck_secure := secure; ck_http_only := true; ck_same_site_lax := true |} c.

Section handlers.
Context (ParseMediaType : string → option string).
Context {S : Type} `{Store S} `{PreAuthStore S}.

(** The refusal of a CSRF check that failed. *)
Definition refuse_csrf (err : error) (c : Response) : Response :=
  if errors_Is err ErrUnavailable || errors_Is err Canceled || errors_Is err DeadlineExceeded
  then writeError 503 "temporarily_unavailable" c
  else writeError 403 "csrf_failed" c.

(** The credential and the token, or the refusal; call 0 of the managers. *)
Definition preAuthRequest (b : t) (w : World) (r : HttpRequest) (c : Response) (s : S)
    : verdict (string * string) * S :=
  match unsafeOrigin b r c with
  | (false, c) => (Err c, s)
  | (true, c) =>
      let '(credential, cookieOK) := exactCookie r (preAuthCookie b) in
      let '(csrf, headerOK) := exactHeader r csrfHeaderName in
      if negb cookieOK || negb headerOK then (Err (writeError 403 "csrf_failed" c), s)
      else
        match Authenticate (w_ctx w 0%nat) (w_clock w 0%nat) credential csrf s with
        | (Some err, s) => (Err (refuse_csrf err c), s)
        | (None, s) => (Ok (credential, csrf), s)
        end
  end.

Definition sessionCSRF (b : t) (w : World) (r : HttpRequest) (c : Response) (s : S)
    : verdict string * S :=
  match unsafeOrigin b r c with
  | (false, c) => (Err c, s)
  | (true, c) =>
      let '(credential, ok) := exactCookie r (sessionCookie b) in
      if negb ok then (Err (writeError 401 "authentication_failed" c), s)
      else
        let '(csrf, ok) := exactHeader r csrfHeaderName in
        if negb ok then (Err (writeError 403 "csrf_failed" c), s)
        else
          match ValidateCSRF (w_ctx w 0%nat) (w_clock w 0%nat) credential csrf s with
          | (Some err, s) => (Err (refuse_csrf err c), s)
          | (None, s) => (Ok credential, s)
          end
  end.

Definition Bootstrap (b : t) (w : World) (r : HttpRequest) (c : Response) (s : S) : Response * S :=
  let c := noStore c in
  match safeOrigin b r c with
  | (false, c) => (c, s)
  | (true, c) =>
      match Auth.Bootstrap (w_ctx w 0%nat) (w_entropy w 0%nat) (w_seed w 0%nat) (w_clock w 0%nat)
              (source b r) s with
      | (Err err, s) =>
          (if errors_Is err ErrRateLimited then writeError 429 "rate_limited" c
           else writeError 503 "temporarily_unavailable" c, s)
      | (Ok state, s) =>
          let c := setBrowserCookie (w_now w) (preAuthCookie b) (pre_Credential state)
                     (pre_ExpiresAt state) (secure b) c in
          (JSON 200 [("csrf_token", JString (pre_CSRFToken state));
                     ("expires_at", JTime (pre_ExpiresAt state))] c, s)
      end
  end.

Definition RequestCode (b : t) (w : World) (r : HttpRequest) (c : Response) (s : S)
    : Response * option Message * S :=
  let c := noStore c in
  match preAuthRequest b w r c s with
  | (Err c, s) => (c, None, s)
  | (Ok (credential, _), s) =>
      match decodeJSON ParseMediaType email_body r with
      | None => (writeError 400 "invalid_request" c, None, s)
      | Some request =>
          let '(res, msg, s) :=
            Request (service b) (request_world w 1) (eb_email request) PurposeBrowser (source b r)
              [Some (WithBinding credential)] s in
          (answer_request w res c, msg, s)
      end
  end.

(** Calls 1 to 3: the verification, the consumption of the pre-authentication and
    the revocation of the session when the latter fails. *)
Definition VerifyCode (b : t) (w : World) (r : HttpRequest) (c : Response) (s : S) : Response * S :=
  let c := noStore c in
  match preAuthRequest b w r c s with
  | (Err c, s) => (c, s)
  | (Ok (credential, csrf), s) =>
      match decodeJSON ParseMediaType code_body r with
      | None => (writeError 400 "invalid_request" c, s)
      | Some request =>
          match service_Verify (service b) (verify_world w 1) (cb_challenge request) (cb_email request)
                  (cb_code request) PurposeBrowser (source b r) [Some (WithBinding credential)] s with
          | (Err err, s) => (writeAuthError err c, s)
          | (Ok result, s) =>
              match Consume (w_ctx w 2%nat) (w_clock w 2%nat) credential csrf s with
              | (Some err, s) =>
                  let '(_, s) :=
                    Auth.Logout (w_logout_cleanup w) (w_clock w 3%nat) (Credential (issued_session result)) s in
                  (if errors_Is err ErrPreAuth then writeError 401 "authentication_failed" c
                   else writeError 503 "temporarily_unavailable" c, s)
              | (None, s) =>
                  let c := clearBrowserCookie (preAuthCookie b) (secure b) c in
                  let c := setBrowserCookie (w_now w) (sessionCookie b) (Credential (issued_session result))
                             (session_expiry (issued_session result)) (secure b) c in
                  (JSON 200 [("identity", JIdentity (authenticated result));
                             ("csrf_token", JString (CSRFToken (issued_session result)));
                             ("expires_at", JTime (session_expiry (issued_session result)))] c, s)
              end
          end
      end
  end.

Definition Current (b : t) (w : World) (r : HttpRequest) (c : Response) (s : S) : Response * S :=
  let c := noStore c in
  let '(credential, ok) := exactCookie r (sessionCookie b) in
  if negb ok then (writeError 401 "authentication_failed" c, s)
  else
    match Auth.Current (w_ctx w 0%nat) (w_clock w 0%nat) credential s with
    | (Err err, s) => (writeAuthError err c, s)
    | (Ok i, s) => (JSON 200 [("identity", JIdentity i)] c, s)
    end.

Definition logout (b : t) (all : bool) (w : World) (r : HttpRequest) (c : Response) (s : S) : Response * S :=
  let c := noStore c in
  match sessionCSRF b w r c s with
  | (Err c, s) => (c, s)
  | (Ok credential, s) =>
      let '(err, s) :=
        if all then Auth.LogoutAll (w_ctx w 1%nat) (w_clock w 1%nat) credential s
        else Auth.Logout (w_ctx w 1%nat) (w_clock w 1%nat) credential s in
      let c := clearBrowserCookie (sessionCookie b) (secure b) c in
      match err with
      | Some err => (writeAuthError err c, s)
      | None => (SetStatus 204 c, s)
      end
  end.
Definition Logout (b : t) := logout b false.
Definition LogoutAll (b : t) := logout b true.

Definition RequireAuth (b : t) (w : World) (r : HttpRequest) (values : list Identity) (c : Response) (s : S)
    : verdict (list Identity) * S :=
  let '(credential, ok) := exactCookie r (sessionCookie b) in
  if negb ok then (Err (writeError 401 "authentication_failed" (noStore c)), s)
  else
    match Auth.Current (w_ctx w 0%nat) (w_clock w 0%nat) credential s with
    | (Err err, s) => (Err (writeAuthError err (noStore c)), s)
    | (Ok i, s) => (Ok (WithIdentity values i), s)
    end.

Definition RequireCSRF (b : t) (w : World) (r : HttpRequest) (c : Response) (s : S) : verdict string * S :=
  sessionCSRF b w r c s.
End handlers.
End Browser.
