(* ===== verification/AuthHttpSpec.v ===== *)
(** * Authentication over HTTP: what the handlers guarantee

    The parsers of bodies, credentials and peers; what every response has in
    common; the browser's CSRF gate; and the sign-in through the handlers, over the
    in-process store. *)

From S2P Require Import Prelude GoStrings Sha256 Json AuthCore AuthCoreSpec MemoryStore MemoryStoreSpec.
From S2P Require Import MemoryStoreInv MemoryStoreSafety Auth AuthSpec AuthHttp.

#[local] Open Scope Z_scope.
#[local] Opaque verifier Sum256 decode_first.

(** ** Bodies *)

(** A body is accepted only as one whole JSON value of the right shape, within the
    limit and under the right media type. *)
Lemma decodeJSON_spec {A} media (decode : json → option A) r x :
  decodeJSON media decode r = Some x ↔
  media (GetHeader r "Content-Type") = Some "application/json"
  ∧ len (hr_body r) <= maxJSONBody
  ∧ ∃ v, unmarshal (hr_body r) = Some v ∧ decode v = Some x.
Proof.
  unfold decodeJSON, unmarshal. destruct (media _) as [m|]; [|naive_solver].
  destruct (String.eqb_spec m "application/json") as [->|Hm]; cbn [negb]; [|naive_solver].
  destruct (Z.ltb_spec maxJSONBody (len (hr_body r))); [split; [done|intros (_ & Hl & _); lia]|].
  destruct (decode_first (hr_body r)) as [[v rest]|]; cbn; [|naive_solver].
  destruct (String.eqb (skip_ws rest) ""); destruct (decode v) as [y|] eqn:E; cbn; naive_solver.
Qed.

(** ** Credentials *)

Definition header_clean (cut v : string) : Prop := v ≠ "" ∧ len v <= 256 ∧ ContainsAny v cut = false.

Lemma bearer_exact r v :
  Native.bearerCredential r = (v, true) ↔
  hr_values r "Authorization" = ["Bearer " +:+ v]
  ∧ header_clean (" " +:+ tab +:+ String "013" newline) v.
Proof.
  unfold Native.bearerCredential, header_clean. destruct (hr_values r "Authorization") as [|h [|h' l]]; [naive_solver| |naive_solver].
  destruct (HasPrefix h "Bearer ") eqn:Hp.
  - pose proof Hp as [c ->]%HasPrefix_spec.
    assert (Ht : TrimPrefix ("Bearer " +:+ c) "Bearer " = c) by (unfold TrimPrefix; by rewrite Hp).
    rewrite Ht. split.
    + intros [= -> Hc]. rewrite !andb_true_iff, !negb_true_iff, Z.leb_le in Hc.
      destruct Hc as [[Hc1 Hc2] Hc3]. apply String.eqb_neq in Hc1. by split_and!.
    + intros ([= ->] & H1 & H2 & H3). apply String.eqb_neq in H1. rewrite H1, H3.
      by rewrite (proj2 (Z.leb_le _ _) H2).
  - split; [done|]. intros (E & _). apply (f_equal (λ l, List.hd "" l)) in E. change (h = "Bearer " +:+ v) in E.
    rewrite (proj2 (HasPrefix_spec h _)) in Hp by (rewrite E; by eexists). done.
Qed.

Lemma exactHeader_spec r name v :
  Browser.exactHeader r name = (v, true) ↔
  hr_values r name = [v] ∧ header_clean (" " +:+ tab +:+ String "013" (newline +:+ ",")) v.
Proof.
  unfold Browser.exactHeader, header_clean. destruct (hr_values r name) as [|h [|h' l]]; cbn; [naive_solver| |naive_solver].
  split.
  - intros [= -> Hc]. rewrite !andb_true_iff, !negb_true_iff, Z.leb_le in Hc.
    destruct Hc as [[Hc1 Hc2] Hc3]. apply String.eqb_neq in Hc1. by split_and!.
  - intros ([= ->] & H1 & H2 & H3). apply String.eqb_neq in H1. rewrite H1, H3.
    by rewrite (proj2 (Z.leb_le _ _) H2).
Qed.

(** The values the request carries under a cookie name. *)
Definition cookie_values (r : HttpRequest) (name : string) : list string :=
  map snd (List.filter (λ k, String.eqb (fst k) name) (hr_cookies r)).

Lemma exactCookie_scan name (ks : list (string * string)) v n :
  foldl (λ '(value, count) k, if String.eqb (fst k) name then (snd k, count + 1) else (value, count)) (v, n) ks
  = (let vs := map snd (List.filter (λ k, String.eqb (fst k) name) ks) in
     (List.last vs v, n + Z.of_nat (length vs))).
Proof.
  revert v n; induction ks as [|[k x] ks IH]; intros v n; cbn; [by rewrite Z.add_0_r|].
  destruct (String.eqb k name); rewrite IH; [|done]. cbv zeta. cbn [map length List.last].
  f_equal; [|lia]. generalize (map snd (List.filter (λ k0, String.eqb (fst k0) name) ks)). intros l.
  revert v x. induction l as [|y l IHl]; intros v x; [done|]. cbn. destruct l; [done|]. apply IHl.
Qed.

Lemma exactCookie_spec r name v :
  Browser.exactCookie r name = (v, true) ↔ cookie_values r name = [v] ∧ v ≠ "" ∧ len v <= 256.
Proof.
  unfold Browser.exactCookie, cookie_values. rewrite exactCookie_scan. cbv zeta.
  destruct (map snd _) as [|h [|h' l]] eqn:E; cbn [List.last length].
  - split; [by intros [= _ ?]|naive_solver].
  - split.
    + intros [= -> Hc]. rewrite !andb_true_iff, negb_true_iff, Z.leb_le in Hc.
      destruct Hc as [Hc1 Hc2]. apply String.eqb_neq in Hc1. by split_and!.
    + intros ([= ->] & H1 & H2). apply String.eqb_neq in H1. rewrite H1.
      by rewrite (proj2 (Z.leb_le _ _) H2).
  - split; [|naive_solver]. destruct (Z.eqb_spec (0 + Z.of_nat (S (S (length l)))) 1); [lia|]. by intros [= _ ?].
Qed.

(** ** What every response has in common *)

(** The response keeps the headers it was given and adds cookies of one kind. *)
Definition answered (ok : Cookie → Prop) (c c' : Response) : Prop :=
  rs_headers c' = rs_headers c ∧ ∃ ks, rs_cookies c' = rs_cookies c ++ ks ∧ Forall ok ks.

Lemma answered_refl ok c : answered ok c c.
Proof. split; [done|]. exists []. by rewrite app_nil_r. Qed.
Lemma answered_json ok c c' st body : answered ok c c' → answered ok c (JSON st body c').
Proof. done. Qed.
Lemma answered_status ok c c' st : answered ok c c' → answered ok c (SetStatus st c').
Proof. done. Qed.
Lemma answered_cookie ok c c' k : ok k → answered ok c c' → answered ok c (SetCookie k c').
Proof.
  intros Hk (Hh & ks & Hc & Hks). split; [done|]. exists (ks ++ [k]). cbn.
  rewrite Hc, (assoc_L (++)). split; [done|]. apply Forall_app. auto.
Qed.
Lemma answered_error ok c c' st code : answered ok c c' → answered ok c (writeError st code c').
Proof. done. Qed.
Lemma answered_auth_error ok c c' err : answered ok c c' → answered ok c (writeAuthError err c').
Proof. unfold writeAuthError. by repeat case_match. Qed.
Lemma answered_csrf ok c c' err : answered ok c c' → answered ok c (Browser.refuse_csrf err c').
Proof. unfold Browser.refuse_csrf. by case_match. Qed.
Lemma answered_request ok w res c c' : answered ok c c' → answered ok c (answer_request w res c').
Proof. unfold answer_request. by repeat case_match. Qed.

Create HintDb responses.
#[local] Hint Resolve answered_refl answered_json answered_status answered_cookie answered_error
  answered_auth_error answered_csrf answered_request : responses.

Lemma no_store_headers c :
  In ("Cache-Control", "no-store") (rs_headers (noStore c))
  ∧ In ("Pragma", "no-cache") (rs_headers (noStore c)).
Proof.
  unfold noStore, Header. cbn [rs_headers]. rewrite !in_app_iff. split; [left|by right; left].
  apply filter_In. split; [|done]. apply in_app_iff. right. by left.
Qed.

Definition cookie_ok (b : Browser.t) (k : Cookie) : Prop :=
  ck_path k = "/" ∧ ck_http_only k = true ∧ ck_same_site_lax k = true
  ∧ ck_secure k = Browser.secure b
  ∧ (ck_name k = Browser.preAuthCookie b ∨ ck_name k = Browser.sessionCookie b).

Lemma answered_set b now c c' name value expires :
  name = Browser.preAuthCookie b ∨ name = Browser.sessionCookie b → answered (cookie_ok b) c c' →
  answered (cookie_ok b) c (Browser.setBrowserCookie now name value expires (Browser.secure b) c').
Proof. intros Hn. apply answered_cookie. by split_and!. Qed.
Lemma answered_clear b c c' name :
  name = Browser.preAuthCookie b ∨ name = Browser.sessionCookie b → answered (cookie_ok b) c c' →
  answered (cookie_ok b) c (Browser.clearBrowserCookie name (Browser.secure b) c').
Proof. intros Hn. apply answered_cookie. by split_and!. Qed.
#[local] Hint Resolve answered_set answered_clear : responses.
#[local] Ltac respond := cbn [fst snd]; auto 8 with responses.

Section responses.
Context (media : string → option string) {S : Type} `{Store S} `{PreAuthStore S}.

(** A refused gate leaves a response; an open one none. *)
Lemma preAuthRequest_refusal ok b w r c (s : S) c' s' :
  Browser.preAuthRequest b w r c s = (Err c', s') → answered ok c c'.
Proof.
  unfold Browser.preAuthRequest, Browser.unsafeOrigin. destruct (Browser.allowedOrigin _ _).
  - destruct (Browser.exactCookie _ _) as [credential ok1], (Browser.exactHeader _ _) as [csrf ok2].
    destruct (_ || _); [intros [= <- <-]; respond|].
    destruct (Authenticate _ _ _ _ s) as [[err|] s1]; intros [= <- <-]; respond.
  - intros [= <- <-]. respond.
Qed.
Lemma sessionCSRF_refusal ok b w r c (s : S) c' s' :
  Browser.sessionCSRF b w r c s = (Err c', s') → answered ok c c'.
Proof.
  unfold Browser.sessionCSRF, Browser.unsafeOrigin. destruct (Browser.allowedOrigin _ _).
  - destruct (Browser.exactCookie _ _) as [credential ok1]. destruct (negb ok1); [intros [= <- <-]; respond|].
    destruct (Browser.exactHeader _ _) as [csrf ok2]. destruct (negb ok2); [intros [= <- <-]; respond|].
    destruct (ValidateCSRF _ _ _ _ s) as [[err|] s1]; intros [= <- <-]; respond.
  - intros [= <- <-]. respond.
Qed.

Lemma native_answers n w r c (s : S) :
  Forall (answered (λ _, False) (noStore c))
    [fst (fst (Native.RequestCode media n w r c s)); fst (Native.VerifyCode media n w r c s);
     fst (Native.Current w r c s); fst (Native.Logout w r c s); fst (Native.LogoutAll w r c s)].
Proof.
  repeat first [apply Forall_nil_2 | apply Forall_cons_2].
  - unfold Native.RequestCode. destruct (decodeJSON _ _ r); [|respond].
    destruct (Request _ _ _ _ _ _ s) as [[res msg] s1]. respond.
  - unfold Native.VerifyCode. destruct (decodeJSON _ _ r); [|respond].
    destruct (service_Verify _ _ _ _ _ _ _ _ s) as [[a|err] s1]; respond.
  - unfold Native.Current. destruct (Native.bearerCredential r) as [v ok]. destruct (negb ok); [respond|].
    destruct (Current _ _ _ s) as [[i|err] s1]; respond.
  - unfold Native.Logout, Native.revoke. destruct (Native.bearerCredential r) as [v ok].
    destruct (negb ok); [respond|]. destruct (Logout _ _ _ s) as [[err|] s1]; respond.
  - unfold Native.LogoutAll, Native.revoke. destruct (Native.bearerCredential r) as [v ok].
    destruct (negb ok); [respond|]. destruct (LogoutAll _ _ _ s) as [[err|] s1]; respond.
Qed.

Lemma logout_answers b all w r c (s : S) :
  answered (cookie_ok b) (noStore c) (fst (Browser.logout b all w r c s)).
Proof.
  unfold Browser.logout. destruct (Browser.sessionCSRF _ _ _ _ s) as [[credential|c'] s1] eqn:E;
    [|by apply sessionCSRF_refusal with (ok := cookie_ok b) in E].
  destruct (if all then _ else _) as [[err|] s2]; respond.
Qed.

Lemma browser_answers b w r c (s : S) :
  Forall (answered (cookie_ok b) (noStore c))
    [fst (Browser.Bootstrap b w r c s); fst (fst (Browser.RequestCode media b w r c s));
     fst (Browser.VerifyCode media b w r c s); fst (Browser.Current b w r c s);
     fst (Browser.Logout b w r c s); fst (Browser.LogoutAll b w r c s)].
Proof.
  repeat first [apply Forall_nil_2 | apply Forall_cons_2].
  - unfold Browser.Bootstrap, Browser.safeOrigin. destruct (_ || _); [|respond].
    destruct (Bootstrap _ _ _ _ _ s) as [[st|err] s1]; [respond|].
    cbn [fst]. destruct (errors_Is _ _); respond.
  - unfold Browser.RequestCode. destruct (Browser.preAuthRequest _ _ _ _ s) as [[[cr tok]|c'] s1] eqn:E;
      [|by apply preAuthRequest_refusal with (ok := cookie_ok b) in E].
    destruct (decodeJSON _ _ r); [|respond].
    destruct (Request _ _ _ _ _ _ s1) as [[res msg] s2]. respond.
  - unfold Browser.VerifyCode. destruct (Browser.preAuthRequest _ _ _ _ s) as [[[cr tok]|c'] s1] eqn:E;
      [|by apply preAuthRequest_refusal with (ok := cookie_ok b) in E].
    destruct (decodeJSON _ _ r); [|respond].
    destruct (service_Verify _ _ _ _ _ _ _ _ s1) as [[a|err] s2]; [|respond].
    destruct (Consume _ _ _ _ s2) as [[err|] s3]; [|respond].
    destruct (Logout _ _ _ s3) as [? s4]. cbn [fst]. destruct (errors_Is _ _); respond.
  - unfold Browser.Current. destruct (Browser.exactCookie r _) as [v ok]. destruct (negb ok); [respond|].
    destruct (Current _ _ _ s) as [[i|err] s1]; respond.
  - apply logout_answers.
  - apply logout_answers.
Qed.
End responses.

(** ** Construction *)

Section construction.
Context `{Unicode} (url_Parse : string → option Browser.URL) (is_loopback : string → bool).

Lemma collect_origins_ok insecure allowed os os' :
  Browser.collect_origins url_Parse is_loopback insecure allowed os = Ok os' →
  os' = os ∪ list_to_set allowed
  ∧ Forall (λ o, Browser.validOrigin url_Parse is_loopback o insecure = true) allowed.
Proof.
  revert os; induction allowed as [|o l IH]; intros os; cbn; [intros [= <-]; set_solver|].
  destruct (Browser.validOrigin _ _ o insecure) eqn:E; cbn; [|done].
  intros (-> & Hl)%IH. split; [set_solver|by constructor].
Qed.

Lemma NewBrowser_ok svc managers allowed options b :
  Browser.NewBrowser url_Parse is_loopback svc managers allowed options = Ok b →
  svc = Some (Browser.service b) ∧ Browser.origins b ≠ ∅ ∧ Browser.origins b = list_to_set allowed
  ∧ Forall (λ o, Browser.validOrigin url_Parse is_loopback o (negb (Browser.secure b)) = true) allowed
  ∧ (Browser.preAuthCookie b, Browser.sessionCookie b)
    = if Browser.secure b then (Browser.preAuthCookieName, Browser.sessionCookieName)
      else ("fabrin_dev_preauth", "fabrin_dev_session").
Proof.
  unfold Browser.NewBrowser. destruct svc as [svc|]; [|done]. destruct managers; cbn [negb]; [|done].
  intros (settings & _ & Hb)%result_bind_ok. destruct (Browser.bs_source settings) as [src|]; [|done].
  apply result_bind_ok in Hb as (os & Ho & Hb). apply collect_origins_ok in Ho as [-> Hv].
  case_bool_decide as He; [done|]. injection Hb as <-. cbn. rewrite negb_involutive.
  split_and!; [done|done|set_solver|done|by destruct (negb _)].
Qed.
End construction.

Lemma validOrigin_https url_Parse is_loopback o :
  Browser.validOrigin url_Parse is_loopback o false = true →
  o ≠ "null" ∧ Contains o "*" = false
  ∧ ∃ u, url_Parse o = Some u ∧ Browser.url_scheme u = "https" ∧ Browser.url_host u ≠ ""
    ∧ Browser.url_user u = false ∧ Browser.url_path u = "" ∧ Browser.url_raw_query u = ""
    ∧ Browser.url_fragment u = "".
Proof.
  unfold Browser.validOrigin. destruct (url_Parse o) as [u|]; [|done].
  destruct (_ || _) eqn:E; [done|]. cbn [negb]. rewrite !orb_false_iff, !negb_false_iff, !String.eqb_eq, !String.eqb_neq in E.
  destruct E as ((((((? & ?) & ?) & ?) & ?) & ?) & ?). intros ?%String.eqb_eq. eauto 12.
Qed.

(** A production browser only hands out host-only cookies.  When
    [NewBrowser] was not told to allow an insecure loopback, it trusts only
    [https] origins, every one of those it was given and at least one, none of
    them opaque, with a wildcard, a user, a path, a query or a fragment; and
    whatever handler runs, on whatever request and store, the response forbids
    storing it and every cookie it sets is [HttpOnly], [Secure], [SameSite=Lax],
    for the path [/] and under one of the two [__Host-] names. *)
Theorem browser_cookies_host_only {S} `{Store S, PreAuthStore S, Unicode} url_Parse is_loopback svc managers
    allowed options b media w r (s : S) :
  Browser.NewBrowser url_Parse is_loopback svc managers allowed options = Ok b → Browser.secure b = true →
  allowed ≠ [] ∧ Browser.origins b = list_to_set allowed
  ∧ (∀ o, o ∈ allowed → o ≠ "null" ∧ Contains o "*" = false
     ∧ ∃ u, url_Parse o = Some u ∧ Browser.url_scheme u = "https" ∧ Browser.url_host u ≠ ""
       ∧ Browser.url_user u = false ∧ Browser.url_path u = "" ∧ Browser.url_raw_query u = ""
       ∧ Browser.url_fragment u = "")
  ∧ Forall (λ rs,
      In ("Cache-Control", "no-store") (rs_headers rs) ∧
      Forall (λ k, ck_http_only k = true ∧ ck_secure k = true ∧ ck_same_site_lax k = true ∧ ck_path k = "/"
        ∧ (ck_name k = "__Host-fabrin_preauth" ∨ ck_name k = "__Host-fabrin_session")) (rs_cookies rs))
    [fst (Browser.Bootstrap b w r fresh_response s); fst (fst (Browser.RequestCode media b w r fresh_response s));
     fst (Browser.VerifyCode media b w r fresh_response s); fst (Browser.Current b w r fresh_response s);
     fst (Browser.Logout b w r fresh_response s); fst (Browser.LogoutAll b w r fresh_response s)].
Proof.
  intros (_ & Hne & Ho & Hv & Hn)%NewBrowser_ok Hsec. rewrite Hsec in Hv, Hn. injection Hn as Hp Hs.
  split_and!.
  - intros ->. by rewrite Ho in Hne.
  - done.
  - intros o Hin. rewrite Forall_forall in Hv. by apply validOrigin_https with is_loopback, Hv.
  - eapply Forall_impl; [apply browser_answers|]. intros rs (Hh & ks & Hc & Hks).
    rewrite Hh, Hc. split; [apply no_store_headers|].
    eapply Forall_impl; [exact Hks|]. intros k (? & ? & ? & Hk & Hname).
    rewrite Hp, Hs in Hname. rewrite Hsec in Hk. by split_and!.
Qed.

(** ** The CSRF gate *)

(** The request comes from an allowed origin and carries, once each, a cookie and a
    token that are the secrets of one pre-authentication state in force. *)
Definition presents_state (b : Browser.t) (w : World) (r : HttpRequest) (s : MemoryStore)
    (credential csrf : string) : Prop :=
  GetHeader r "Origin" ∈ Browser.origins b
  ∧ Browser.exactCookie r (Browser.preAuthCookie b) = (credential, true)
  ∧ Browser.exactHeader r Browser.csrfHeaderName = (csrf, true)
  ∧ ∃ p, preAuthProof credential csrf (w_clock w 0%nat) = Ok p ∧ authenticateBrowserState p s = None.

(** The same for a session. *)
Definition presents_session (b : Browser.t) (w : World) (r : HttpRequest) (s : MemoryStore)
    (credential csrf : string) : Prop :=
  GetHeader r "Origin" ∈ Browser.origins b
  ∧ Browser.exactCookie r (Browser.sessionCookie b) = (credential, true)
  ∧ Browser.exactHeader r Browser.csrfHeaderName = (csrf, true)
  ∧ ∃ p x, sessionCSRFProof credential csrf (w_clock w 0%nat) = Ok p
    ∧ sessions s !! proof_ID p = Some x ∧ in_force p x.

Lemma preAuthRequest_memory b w r c (s : MemoryStore) v s' :
  Browser.preAuthRequest b w r c s = (v, s') →
  s' = s ∧ match v with
           | Ok (credential, csrf) => presents_state b w r s credential csrf
           | Err c' => rs_cookies c' = rs_cookies c ∧ (rs_status c' = 403 ∨ rs_status c' = 503)
           end.
Proof.
  unfold Browser.preAuthRequest, Browser.unsafeOrigin, Browser.allowedOrigin, presents_state.
  case_bool_decide as Ho; [|intros [= <- <-]; cbn; auto].
  destruct (Browser.exactCookie _ _) as [credential [|]] eqn:Ec; [|intros [= <- <-]; cbn; auto].
  destruct (Browser.exactHeader _ _) as [csrf [|]] eqn:Eh; [|intros [= <- <-]; cbn; auto]. cbn [negb orb].
  unfold Authenticate. destruct (w_ctx w 0%nat 0%nat) as [err|].
  { intros [= <- <-]. unfold Browser.refuse_csrf. case_match; cbn; auto. }
  destruct (preAuthProof _ _ _) as [p|err] eqn:Ep; [|intros [= <- <-]; cbn; auto].
  cbn [store_AuthenticatePreAuth memory_preauth]. unfold AuthenticatePreAuth.
  destruct (polled _ _) as [err|].
  { unfold preAuthError. destruct (_ || _); intros [= <- <-]; unfold Browser.refuse_csrf; case_match; cbn; auto. }
  destruct (authenticateBrowserState p s) as [err|] eqn:Ea.
  { unfold preAuthError. destruct (_ || _); intros [= <- <-]; unfold Browser.refuse_csrf; case_match; cbn; auto. }
  intros [= <- <-]. split_and!; eauto.
Qed.

Lemma AuthenticateSession_Err ctx p s e s' : AuthenticateSession ctx p s = (Err e, s') → s' = s.
Proof.
  unfold AuthenticateSession. destruct (ctx 0%nat); [by intros [= _ <-]|].
  destruct (sessions s !! proof_ID p); [|by intros [= _ <-]]. case_match; [by intros [= _ <-]|done].
Qed.

Lemma refuse_csrf_shape err c :
  let c' := Browser.refuse_csrf err c in
  rs_cookies c' = rs_cookies c ∧ (rs_status c' = 401 ∨ rs_status c' = 403 ∨ rs_status c' = 503).
Proof. unfold Browser.refuse_csrf. case_match; cbn; auto. Qed.

Lemma sessionCSRF_memory b w r c (s : MemoryStore) v s' :
  Browser.sessionCSRF b w r c s = (v, s') →
  match v with
  | Ok credential => ∃ csrf, presents_session b w r s credential csrf
  | Err c' => s' = s ∧ rs_cookies c' = rs_cookies c
              ∧ (rs_status c' = 401 ∨ rs_status c' = 403 ∨ rs_status c' = 503)
  end.
Proof.
  unfold Browser.sessionCSRF, Browser.unsafeOrigin, Browser.allowedOrigin, presents_session.
  case_bool_decide as Ho; [|intros [= <- <-]; cbn; auto].
  destruct (Browser.exactCookie _ _) as [credential [|]] eqn:Ec; [|intros [= <- <-]; cbn; auto].
  destruct (Browser.exactHeader _ _) as [csrf [|]] eqn:Eh; [|intros [= <- <-]; cbn; auto]. cbn [negb].
  unfold ValidateCSRF. destruct (w_ctx w 0%nat 0%nat) as [err|].
  { intros [= <- <-]. split; [done|apply refuse_csrf_shape]. }
  destruct (sessionCSRFProof _ _ _) as [p|err] eqn:Ep.
  2:{ intros [= <- <-]. split; [done|apply refuse_csrf_shape]. }
  cbn [store_AuthenticateSession memory_sessions store_sessions memory_store].
  destruct (AuthenticateSession _ p s) as [[i|err] s1] eqn:Ea.
  - intros [= <- <-]. apply AuthenticateSession_Ok in Ea as (_ & x & Hx & Hf & _). exists csrf. eauto 10.
  - apply AuthenticateSession_Err in Ea as ->. unfold sessionStoreError.
    destruct (_ || _); intros [= <- <-]; (split; [done|apply refuse_csrf_shape]).
Qed.


(** ** Sign-in *)

Lemma Verify_Err_sessions id seed ctx a s e s' x :
  Verify seed ctx a s = (Err e, s') → sessions s' !! id = Some x → sessions s !! id = Some x.
Proof.
  unfold Verify. destruct (ctx 0%nat); [by intros [= _ <-]|]. cbv zeta.
  destruct (no_room _ _ _); [by intros [= _ <-]|]. destruct (_ <=? _); [by intros [= _ <-]|].
  change (challenges (set_budgets _ _ _ _ _ _)) with (challenges s).
  destruct (challenges s !! attempt_ID a) as [c|]; [|by intros [= _ <-]].
  destruct (_ || _ || _ || _); [by intros [= _ <-]|]. destruct (negb _).
  - unfold reject. destruct (no_room _ _ _); [by intros [= _ <-]|]. cbv zeta.
    destruct (_ <=? _); by intros [= _ <-].
  - unfold accept. destruct (_ || _ || _ || _); [by intros [= _ <-]|].
    destruct (make_room _ _ _ _) as [s1|] eqn:R; [|by intros [= _ <-]].
    apply room_session in R as [_ R]. destruct (_ && _); [|done]. intros [= _ <-].
    destruct R as [[_ ->]|(old & y & _ & _ & ->)]; [done|]. cbn. by intros [_ ?]%lookup_delete_Some.
Qed.

(** What the service leaves of the sessions: when it refuses, nothing new; when it
    lets in, one session, whose credential revokes it. *)
Lemma service_Verify_sessions svc v cid mailbox code purpose source options s res s' :
  wf s → service_Verify svc v cid mailbox code purpose source options s = (res, s') →
  match res with
  | Err _ => ∀ sid x, sessions s' !! sid = Some x → sessions s !! sid = Some x
  | Ok a => ∃ sid digest x,
      sessions s' !! sid = Some x ∧ session_active x = true ∧ session_Digest (record x) = digest
      ∧ (∀ t, sessionProof (Credential (issued_session a)) t
              = Ok {| proof_ID := sid; proof_Digest := digest; proof_CSRFDigest := zero_digest; proof_Now := t |})
      ∧ ∀ k y, k ≠ sid → sessions s' !! k = Some y → sessions s !! k = Some y
  end.
Proof.
  intros Hwf. unfold service_Verify. destruct (verify_ctx v 0%nat); [by intros [= <- <-]|].
  destruct (_ || _); [by intros [= <- <-]|]. destruct (challengeBinding options) as [bd|]; [|by intros [= <- <-]].
  destruct (randomHex _ 0 32) as [h|]; [|by intros [= <- <-]].
  destruct (newSession _ 1 _) as [[session rec]|] eqn:En; [|by intros [= <- <-]]. cbv zeta.
  cbn [store_Verify memory_store]. destruct (Verify _ _ _ s) as [[i|err] s1] eqn:Ev; intros [= <- <-].
  - apply Verify_sound in Ev as (_ & _ & _ & _ & _ & _ & _ & Hs & Hold & _); [|done]. cbn in Hs, Hold.
    eexists _, _, _. split; [exact Hs|]. cbn. split_and!; try done.
    intros t. apply newSession_ok in En as (idb & secret & csrf & [Hi Hil] & [Hsb Hsl] & _ & -> & ->).
    cbn. by apply sessionProof_encoded.
  - intros sid x. by eapply Verify_Err_sessions.
Qed.

Lemma ConsumePreAuth_frame ctx p s : sessions (snd (ConsumePreAuth ctx p s)) = sessions s.
Proof. unfold ConsumePreAuth. destruct (ctx 0%nat); [done|]. by destruct (authenticateBrowserState p s). Qed.
Lemma Consume_sessions ctx t credential csrf (s : MemoryStore) :
  sessions (snd (Consume ctx t credential csrf s)) = sessions s.
Proof.
  unfold Consume. destruct (ctx 0%nat); [done|]. destruct (preAuthProof _ _ _) as [p|]; [|done].
  cbn [store_ConsumePreAuth memory_preauth]. pose proof (ConsumePreAuth_frame (polled ctx) p s) as Hf.
  by destruct (ConsumePreAuth _ p s) as [e s1].
Qed.

(** C24: A sign-in that does not complete leaves no session behind.  Whatever the
    answer of the browser's [VerifyCode] other than 200 (the request refused, the
    code wrong, the pre-authentication gone between the check and its
    consumption), every session in force afterwards was in force before, as long
    as the clean-up's own context is not done. *)
Theorem failed_sign_in_leaves_no_session b media w r (s s' : MemoryStore) rs :
  wf s → Browser.VerifyCode media b w r fresh_response s = (rs, s') → rs_status rs ≠ 200 →
  (∀ n, w_logout_cleanup w n = None) →
  ∀ sid x, memory_session s' sid = Some x → memory_session s sid = Some x.
Proof.
  intros Hwf Hv Hst Hcl sid x. revert Hv. unfold Browser.VerifyCode.
  destruct (Browser.preAuthRequest _ _ _ _ s) as [[[cr tok]|c'] s1] eqn:E;
    apply preAuthRequest_memory in E as [-> _]; [|by intros [= _ <-]].
  destruct (decodeJSON _ _ r) as [body|]; [|by intros [= _ <-]].
  destruct (service_Verify _ _ _ _ _ _ _ _ s) as [[a|err] s2] eqn:Ev;
    apply service_Verify_sessions in Ev; try done.
  2:{ intros [= _ <-]. unfold memory_session. destruct (sessions s2 !! sid) as [y|] eqn:Ey; [|done].
      by rewrite (Ev _ _ Ey). }
  destruct Ev as (sid0 & digest & x0 & Hx0 & Hact & Hd & Hproof & Hold).
  destruct (Consume _ _ _ _ s2) as [[err|] s3] eqn:Ec; [|intros [= <- _]; by cbn in Hst].
  pose proof (Consume_sessions (w_ctx w 2%nat) (w_clock w 2%nat) cr tok s2) as Hs3. rewrite Ec in Hs3. cbn in Hs3.
  unfold Logout. rewrite Hcl, Hproof. cbn [store_RevokeSession store_sessions memory_store memory_sessions].
  unfold RevokeSession, polled. rewrite Hcl. cbn [proof_ID proof_Digest]. rewrite Hs3, Hx0, Hact, Hd.
  unfold digest_eqb. rewrite bool_decide_true by done. cbn [negb orb].
  intros [= _ <-]. unfold memory_session. cbn.
  rewrite ?Hs3. destruct (decide (sid = sid0)) as [->|Hne].
  - by rewrite lookup_alter_eq, Hx0.
  - rewrite lookup_alter_ne by done. destruct (sessions s2 !! sid) as [y|] eqn:Ey; [|done].
    by rewrite (Hold _ _ Hne Ey).
Qed.

Lemma Verify_browserStates seed ctx a s : browserStates (snd (Verify seed ctx a s)) = browserStates s.
Proof.
  unfold Verify. destruct (ctx 0%nat); [done|]. cbv zeta.
  destruct (no_room _ _ _); [done|]. destruct (_ <=? _); [done|].
  change (challenges (set_budgets _ _ _ _ _ _)) with (challenges s).
  destruct (challenges s !! attempt_ID a) as [c|]; [|done].
  destruct (_ || _ || _ || _); [done|]. destruct (negb _).
  - unfold reject. destruct (no_room _ _ _); [done|]. cbv zeta. by destruct (_ <=? _).
  - unfold accept. destruct (_ || _ || _ || _); [done|].
    destruct (make_room _ _ _ _) as [s1|] eqn:R; [|done].
    apply room_session in R as [_ R].
    assert (Hb : browserStates s1 = browserStates s) by (destruct R as [[_ ->]|(? & ? & _ & _ & ->)]; done).
    destruct (_ && _); [done|]. by destruct (String.eqb _ _).
Qed.

Lemma service_Verify_browserStates svc v cid mailbox code purpose source options s :
  browserStates (snd (service_Verify svc v cid mailbox code purpose source options s)) = browserStates s.
Proof.
  unfold service_Verify. destruct (verify_ctx v 0%nat); [done|]. destruct (_ || _); [done|].
  destruct (challengeBinding options) as [bd|]; [|done]. destruct (randomHex _ 0 32) as [h|]; [|done].
  destruct (newSession _ 1 _) as [[session rec]|]; [|done]. cbv zeta. cbn [store_Verify memory_store].
  match goal with |- context [Verify ?sd ?cx ?a s] => pose proof (Verify_browserStates sd cx a s) as Hf end.
  destruct (Verify _ _ _ s) as [[i|err] s1]; exact Hf.
Qed.

(** The two secrets are those of a pre-authentication state in force at [t]. *)
Definition state_in_force (credential csrf : string) (t : Time) (s : MemoryStore) : Prop :=
  ∃ p, preAuthProof credential csrf t = Ok p ∧ authenticateBrowserState p s = None.

Lemma state_in_force_frame credential csrf t s s' :
  browserStates s' = browserStates s → state_in_force credential csrf t s → state_in_force credential csrf t s'.
Proof. intros Hb (p & Hp & Ha). exists p. split; [done|]. unfold authenticateBrowserState. by rewrite Hb. Qed.

Lemma preAuthProof_ID credential csrf t t' p p' :
  preAuthProof credential csrf t = Ok p → preAuthProof credential csrf t' = Ok p' → pproof_ID p = pproof_ID p'.
Proof.
  unfold preAuthProof, sessionProof. destruct (_ || _); [done|].
  destruct (default _ _) as [cid sec]. destruct (decode_32 cid); [|done]. destruct (decode_32 sec); [|done].
  cbn. destruct (DecodeString csrf); [|done]. destruct (_ || _); [done|]. by intros [= <-] [= <-].
Qed.

Lemma preAuthRequest_open b w r c (s : MemoryStore) credential csrf :
  (∀ n, w_ctx w 0%nat n = None) → presents_state b w r s credential csrf →
  Browser.preAuthRequest b w r c s = (Ok (credential, csrf), s).
Proof.
  intros Hctx (Ho & Hc & Hh & p & Hp & Ha). unfold Browser.preAuthRequest, Browser.unsafeOrigin, Browser.allowedOrigin.
  rewrite bool_decide_true by done. rewrite Hc, Hh. cbn [negb orb]. unfold Authenticate. rewrite Hctx, Hp.
  cbn [store_AuthenticatePreAuth memory_preauth]. unfold AuthenticatePreAuth, polled. by rewrite Hctx, Ha.
Qed.

Lemma Consume_in_force (ctx : Context) t credential csrf s :
  (∀ n, ctx n = None) → state_in_force credential csrf t s →
  ∃ s', Consume ctx t credential csrf s = (None, s') ∧ sessions s' = sessions s
    ∧ ∀ t', ¬ state_in_force credential csrf t' s'.
Proof.
  intros Hctx (p & Hp & Ha). unfold Consume. rewrite Hctx, Hp.
  cbn [store_ConsumePreAuth memory_preauth]. unfold ConsumePreAuth, polled. rewrite Hctx, Ha.
  eexists. split; [done|]. split; [done|]. intros t' (p' & Hp' & Ha').
  revert Ha'. unfold authenticateBrowserState. cbn.
  by rewrite (preAuthProof_ID _ _ _ _ _ _ Hp' Hp), lookup_delete_eq.
Qed.

Lemma Current_frame (ctx : Context) t credential (s s' : MemoryStore) :
  sessions s' = sessions s → fst (Current ctx t credential s') = fst (Current ctx t credential s).
Proof.
  intros Hs. unfold Current. destruct (ctx 0%nat); [done|]. destruct (sessionProof credential t) as [p|]; [|done].
  cbn [store_AuthenticateSession store_sessions memory_store memory_sessions].
  assert (Hf : fst (AuthenticateSession (polled ctx) p s') = fst (AuthenticateSession (polled ctx) p s)).
  { unfold AuthenticateSession. rewrite Hs. destruct (polled ctx 0%nat); [done|].
    destruct (sessions s !! proof_ID p); [|done]. by destruct (_ || _ || _ || _). }
  destruct (AuthenticateSession _ p s') as [[i|e] s1], (AuthenticateSession _ p s) as [[i'|e'] s2]; by simplify_eq/=.
Qed.

Lemma Request_sent {S} `{Store S} svc w mailbox purpose source options s res m s' :
  Request svc w mailbox purpose source options s = (res, Some m, s') → request_send w m = None →
  ∃ c, res = Ok c.
Proof.
  unfold Request. destruct (request_ctx w 0%nat); [done|]. destruct (_ || _); [done|].
  destruct (challengeBinding options); [|done]. destruct (newChallenge _ _ _ _ _ _) as [[ch code]|]; [|done].
  cbv zeta. destruct (store_Reserve _ _ _ s) as [[e|] s1]; [done|].
  match goal with |- context [request_send w ?x] => generalize x end. intros mm.
  destruct (request_send w mm) as [e|] eqn:Es; [|intros [= <- <- _]; eauto].
  destruct (negb _ && negb _); [destruct (store_Invalidate _ _ _)|]; intros [= _ <- _] Hn; congruence.
Qed.

(** What the world has to grant a sign-in that is presented at [w] from [source]:
    a living context, working entropy, a fresh session ID, and a source and a store
    within their limits. *)
Definition favourable (w : World) (source : string) (s : MemoryStore) : Prop :=
  (∀ i n, w_ctx w i n = None) ∧ (∀ n, is_Some (w_entropy w 1%nat n))
  ∧ source ≠ "" ∧ len source <= 256 ∧ may_try source (w_clock w 1%nat) s ∧ has_room s
  ∧ ∀ session record, newSession (w_entropy w 1%nat) 1 (w_clock w 1%nat) = Ok (session, record) →
      sessions s !! session_ID record = None.

(** The answer that opens a session. *)
Definition signed_in_as (b : Browser.t) (value : string) (i : Identity) (rs : Response) : Prop :=
  rs_status rs = 200 ∧ head (rs_body rs) = Some ("identity", JIdentity i)
  ∧ map (λ k, (ck_name k, ck_value k)) (rs_cookies rs)
    = [(Browser.preAuthCookie b, ""); (Browser.sessionCookie b, value)].

Section sign_in.
Context (b : Browser.t) (media : string → option string).

Lemma RequestCode_sent w r (s : MemoryStore) rs m s1 :
  Browser.RequestCode media b w r fresh_response s = (rs, Some m, s1) → w_send w m = None →
  ∃ credential csrf body ch,
    presents_state b w r s credential csrf ∧ decodeJSON media email_body r = Some body
    ∧ Request (Browser.service b) (request_world w 1) (eb_email body) PurposeBrowser (Browser.source b r)
        [Some (WithBinding credential)] s = (Ok ch, Some m, s1)
    ∧ rs_body rs = [("challenge_id", JString (challenge_ID ch)); ("expires_at", JTime (challenge_ExpiresAt ch))].
Proof.
  intros Hr Hsend. revert Hr. unfold Browser.RequestCode.
  destruct (Browser.preAuthRequest _ _ _ _ s) as [[[cr tok]|c'] s0] eqn:E; [|done].
  apply preAuthRequest_memory in E as [-> E].
  destruct (decodeJSON _ _ r) as [body|]; [|done].
  destruct (Request _ _ _ _ _ _ s) as [[res msg] s2] eqn:Er. intros [= <- -> ->].
  destruct (Request_sent _ _ _ _ _ _ _ _ _ _ Er Hsend) as [ch ->].
  exists cr, tok, body, ch. by split_and!.
Qed.

Lemma VerifyCode_completes w r (s : MemoryStore) credential csrf body a s1 :
  presents_state b w r s credential csrf → state_in_force credential csrf (w_clock w 2%nat) s →
  (∀ i n, w_ctx w i n = None) → decodeJSON media code_body r = Some body →
  service_Verify (Browser.service b) (verify_world w 1) (cb_challenge body) (cb_email body) (cb_code body)
    PurposeBrowser (Browser.source b r) [Some (WithBinding credential)] s = (Ok a, s1) →
  ∃ rs s2, Browser.VerifyCode media b w r fresh_response s = (rs, s2)
    ∧ signed_in_as b (Credential (issued_session a)) (authenticated a) rs
    ∧ sessions s2 = sessions s1 ∧ ∀ t, ¬ state_in_force credential csrf t s2.
Proof.
  intros Hp Hf Hctx Hbody Hv. unfold Browser.VerifyCode.
  rewrite (preAuthRequest_open b w r _ s credential csrf (Hctx _) Hp), Hbody, Hv.
  assert (Hf1 : state_in_force credential csrf (w_clock w 2%nat) s1).
  { eapply state_in_force_frame; [|exact Hf].
    match type of Hv with service_Verify ?x1 ?x2 ?x3 ?x4 ?x5 ?x6 ?x7 ?x8 ?x9 = _ =>
      pose proof (service_Verify_browserStates x1 x2 x3 x4 x5 x6 x7 x8 x9) as Hb end.
    by rewrite Hv in Hb. }
  destruct (Consume_in_force _ _ _ _ s1 (Hctx 2%nat) Hf1) as (s2 & -> & Hs & Hgone).
  eexists _, s2. split; [done|]. by split_and!.
Qed.
End sign_in.

(** C10: The browser sign-in works, end to end.  After [RequestCode] handed a
    message to a mail sender that took it, the same browser (the same
    pre-authentication cookie, from an allowed origin, with its token) that posts
    back the challenge ID of the answer, the address and the code of the message
    within five minutes, in a favourable world, is answered 200 with the identity
    of that address; its pre-authentication cookie is cleared and no longer in
    force, and the session cookie it is given authenticates that identity for the
    next day. *)
Theorem browser_sign_in b media w w' r r' (s s1 : MemoryStore) rs m mailbox cid code credential csrf :
  wf s → Browser.RequestCode media b w r fresh_response s = (rs, Some m, s1) → w_send w m = None →
  decodeJSON media email_body r = Some {| eb_email := mailbox |} →
  Text m = "Your Fabrin sign-in code is: " +:+ code →
  head (rs_body rs) = Some ("challenge_id", JString cid) →
  fst (Browser.exactCookie r (Browser.preAuthCookie b)) = credential →
  presents_state b w' r' s1 credential csrf → state_in_force credential csrf (w_clock w' 2%nat) s1 →
  decodeJSON media code_body r' = Some {| cb_challenge := cid; cb_email := mailbox; cb_code := code |} →
  w_clock w 1%nat <= w_clock w' 1%nat < w_clock w 1%nat + 5 * Minute →
  favourable w' (Browser.source b r') s1 →
  ∃ i value rs' s2, Browser.VerifyCode media b w' r' fresh_response s1 = (rs', s2)
    ∧ signed_in_as b value i rs' ∧ canonicalEmail mailbox = Ok (identity_Email i)
    ∧ (∀ t, ¬ state_in_force credential csrf t s2)
    ∧ ∀ w'' r'', Browser.exactCookie r'' (Browser.sessionCookie b) = (value, true) →
        (∀ n, w_ctx w'' 0%nat n = None) →
        w_clock w' 1%nat <= w_clock w'' 0%nat < w_clock w' 1%nat + sessionIdleTTL →
        let rs'' := fst (Browser.Current b w'' r'' fresh_response s2) in
        rs_status rs'' = 200 ∧ rs_body rs'' = [("identity", JIdentity i)].
Proof.
  intros Hwf Hreq Hsend Hbody Htext Hcid Hcookie Hp Hforce Hbody' Hw (Hctx & Hent & Hs1 & Hs2 & Htry & Hroom & Hfresh).
  destruct (RequestCode_sent _ _ _ _ _ _ _ _ Hreq Hsend) as (cr & tok & body & ch & Hp0 & Hb0 & HR & Hrs).
  rewrite Hbody in Hb0. injection Hb0 as <-. rewrite Hrs in Hcid. injection Hcid as <-.
  assert (cr = credential) as ->.
  { destruct Hp0 as (_ & Hc0 & _). by rewrite Hc0 in Hcookie. }
  destruct (mailed_code_signs_in _ _ (verify_world w' 1) _ _ _ _ _ _ _ _ (Browser.source b r') _
              Hwf HR Htext Hw (Hctx 1%nat) Hent Hs1 Hs2 Htry Hroom Hfresh) as (a & s2 & Hv & Hmail).
  destruct (VerifyCode_completes b media w' r' s1 credential csrf _ a s2 Hp Hforce Hctx Hbody' Hv)
    as (rs' & s3 & Hv' & Hin & Hsess & Hgone).
  assert (Hwf1 : wf s1).
  { match type of HR with Request ?x1 ?x2 ?x3 ?x4 ?x5 ?x6 s = _ =>
      pose proof (Request_inv (H0:=memory_lawful) x1 x2 x3 x4 x5 x6 s Hwf) as Hi end.
    by rewrite HR in Hi. }
  destruct (service_Verify_sound (H0:=memory_lawful) _ _ _ _ _ _ _ _ _ _ _ Hwf1 Hv) as (_ & _ & _ & _ & Hcur).
  exists (authenticated a), (Credential (issued_session a)), rs', s3.
  split_and!; try done. intros w'' r'' Hck Hctx'' Hw''. unfold Browser.Current. rewrite Hck. cbn [negb].
  specialize (Hcur _ _ Hctx'' Hw''). rewrite <-(Current_frame _ _ _ s2 s3 Hsess) in Hcur.
  destruct (Current _ _ _ s3) as [[j|e] s4]; cbn in Hcur; by simplify_eq.
Qed.

(** ** What a request for a code tells *)

(** The one accepted answer: a challenge ID of 64 digits and an expiry. *)
Definition accepted (rs : Response) : Prop :=
  rs_status rs = 202
  ∧ ∃ cid t, rs_body rs = [("challenge_id", JString cid); ("expires_at", JTime t)]
      ∧ String.length cid = 64%nat.
Definition refused (statuses : list Z) (rs : Response) : Prop :=
  (∃ code, rs_body rs = [("error", JString code)]) ∧ rs_status rs ∈ statuses.

Lemma errors_Is_unique e s s' : errors_Is e s = true → errors_Is e s' = true → s = s'.
Proof.
  induction e as [t|msg|msg e IH]; cbn; [|done|exact IH].
  rewrite !bool_decide_eq_true. by intros <- <-.
Qed.

Lemma neutral_accepted w c err :
  is_Some (w_neutral w 0%nat) → errors_Is err ErrDelivery = true ∨ errors_Is err ErrRateLimited = true →
  accepted (answer_request w (Err err) c).
Proof.
  intros [f Hf] He. unfold answer_request.
  assert (Hor : errors_Is err ErrDelivery || errors_Is err ErrRateLimited = true) by (apply orb_true_iff; exact He).
  destruct (errors_Is err ErrAuthentication) eqn:E1.
  { destruct He as [He|He]; by pose proof (errors_Is_unique _ _ _ E1 He). }
  destruct (errors_Is err ErrUnavailable) eqn:E2.
  { destruct He as [He|He]; by pose proof (errors_Is_unique _ _ _ E2 He). }
  rewrite Hor. unfold neutralChallenge, rand_Read. rewrite Hf. cbn [mbind result_bind].
  split; [done|]. eexists _, _. split; [done|]. cbn [challenge_ID].
  by rewrite length_hex_encode, length_map, length_seq.
Qed.

(** What the service answers, told apart by the message and the error. *)
Lemma Request_shape {S} `{Store S} svc w mailbox purpose source options s res msg s' :
  Request svc w mailbox purpose source options s = (res, msg, s') →
  match res with
  | Ok ch => String.length (challenge_ID ch) = 64%nat
  | Err err => msg = None ∨ errors_Is err ErrDelivery = true
  end.
Proof.
  unfold Request. destruct (request_ctx w 0%nat); [intros [= <- <- _]; auto|].
  destruct (_ || _); [intros [= <- <- _]; auto|]. destruct (challengeBinding options); [|intros [= <- <- _]; auto].
  destruct (newChallenge _ _ _ _ _ _) as [[ch code]|] eqn:Ec; [|intros [= <- <- _]; auto].
  apply newChallenge_ok in Ec as (_ & _ & Hl & _). cbv zeta.
  destruct (store_Reserve _ _ _ s) as [[e|] s1]; [intros [= <- <- _]; auto|].
  destruct (request_send w _) as [e|]; [|by intros [= <- _ _]].
  destruct (negb _ && negb _); [destruct (store_Invalidate _ _ _)|]; intros [= <- _ _]; auto.
Qed.

Lemma answer_request_shape {S} `{Store S} svc w n mailbox purpose source options (s : S) res msg s' c :
  is_Some (w_neutral w 0%nat) →
  Request svc (request_world w n) mailbox purpose source options s = (res, msg, s') →
  let rs := answer_request w res c in
  (accepted rs ∨ (msg = None ∧ refused [400; 503] rs))
  ∧ (∀ err, res = Err err → errors_Is err ErrRateLimited = true → accepted rs).
Proof.
  intros Hn Hr. pose proof (Request_shape _ _ _ _ _ _ _ _ _ _ Hr) as Hshape. destruct res as [ch|err].
  - split; [left|done]. split; [done|]. by eexists _, _.
  - split; [|intros ? [= <-] Hlim; apply neutral_accepted; auto].
    destruct Hshape as [->|Hd]; [|left; apply neutral_accepted; auto].
    destruct (errors_Is err ErrDelivery || errors_Is err ErrRateLimited) eqn:E.
    + left. apply neutral_accepted; [done|]. by apply orb_true_iff.
    + right. split; [done|]. unfold answer_request. rewrite E.
      repeat case_match; (split; [by eexists|cbn; set_solver]).
Qed.

Lemma preAuthRequest_refused {S} `{PreAuthStore S} b w r c (s : S) c' s' :
  Browser.preAuthRequest b w r c s = (Err c', s') → refused [400; 403; 503] c'.
Proof.
  unfold Browser.preAuthRequest, Browser.unsafeOrigin, Browser.refuse_csrf.
  destruct (Browser.allowedOrigin _ _); [|intros [= <- _]; split; [by eexists|cbn; set_solver]].
  destruct (Browser.exactCookie _ _) as [cr ok1], (Browser.exactHeader _ _) as [tok ok2].
  destruct (_ || _); [intros [= <- _]; split; [by eexists|cbn; set_solver]|].
  destruct (Authenticate _ _ _ _ s) as [[err|] s1]; [|done]. intros [= <- _].
  case_match; (split; [by eexists|cbn; set_solver]).
Qed.

(** C25: Asking for a code does not tell who is known or over budget.  Whenever a
    message was handed to the mail sender, whatever the sender made of it, and
    whenever the store refused for a spent budget, the answer of either
    [RequestCode] is the accepted one: 202, a challenge ID of 64 digits and an
    expiry.  Every other answer is an error without a message: 400 or 503, or for
    a browser also 403. *)
Theorem request_code_neutral {S} `{Store S, PreAuthStore S} media n b w r (s : S) :
  is_Some (w_neutral w 0%nat) →
  (let '(rs, msg, _) := Native.RequestCode media n w r fresh_response s in
   (accepted rs ∨ (msg = None ∧ refused [400; 503] rs))
   ∧ ∀ body err s', decodeJSON media email_body r = Some body →
       Request (Native.service n) (request_world w 0) (eb_email body) PurposeNative (Native.source n r) [] s
         = (Err err, None, s') → errors_Is err ErrRateLimited = true → accepted rs)
  ∧ (let '(rs, msg, _) := Browser.RequestCode media b w r fresh_response s in
     (accepted rs ∨ (msg = None ∧ refused [400; 403; 503] rs))
     ∧ ∀ credential csrf body err s1 s', decodeJSON media email_body r = Some body →
         Browser.preAuthRequest b w r (noStore fresh_response) s = (Ok (credential, csrf), s1) →
         Request (Browser.service b) (request_world w 1) (eb_email body) PurposeBrowser (Browser.source b r)
           [Some (WithBinding credential)] s1 = (Err err, None, s') →
         errors_Is err ErrRateLimited = true → accepted rs).
Proof.
  intros Hn. split.
  - unfold Native.RequestCode. destruct (decodeJSON _ _ r) as [body|].
    + destruct (Request _ _ _ _ _ _ s) as [[res msg] s1] eqn:Er.
      destruct (answer_request_shape _ _ _ _ _ _ _ _ _ _ _ (noStore fresh_response) Hn Er) as [Ha Hl].
      split; [exact Ha|]. intros ? err s' [= <-]. rewrite Er. intros [= -> _ _]. by apply Hl.
    + split; [|done]. right. split; [done|]. split; [by eexists|cbn; set_solver].
  - unfold Browser.RequestCode. destruct (Browser.preAuthRequest _ _ _ _ s) as [[[cr tok]|c'] s0] eqn:Ep.
    + destruct (decodeJSON _ _ r) as [body|].
      * destruct (Request _ _ _ _ _ _ s0) as [[res msg] s1] eqn:Er.
        destruct (answer_request_shape _ _ _ _ _ _ _ _ _ _ _ (noStore fresh_response) Hn Er) as [Ha Hl].
        split.
        { destruct Ha as [Ha|(-> & He & Hst)]; [by left|right]. split_and!; [done|]. split; [done|set_solver]. }
        intros ? ? ? err s' ? [= <-] [= <- <- <-]. rewrite Er. intros [= -> _ _]. by apply Hl.
      * split; [|done]. right. split; [done|]. split; [by eexists|cbn; set_solver].
    + split; [|done]. right. split; [done|]. by apply preAuthRequest_refused in Ep.
Qed.

(** ** Middleware *)


(** A session that authenticates [credential] at [t] as [i]. *)
Definition session_in_force (credential : string) (t : Time) (s : MemoryStore) (i : Identity) : Prop :=
  ∃ p x, sessionProof credential t = Ok p ∧ sessions s !! proof_ID p = Some x ∧ in_force p x ∧ i = identity x.

Lemma Current_memory ctx t credential (s : MemoryStore) i s' :
  Current ctx t credential s = (Ok i, s') → session_in_force credential t s i.
Proof.
  unfold Current. destruct (ctx 0%nat); [done|]. destruct (sessionProof credential t) as [p|] eqn:Ep; [|done].
  cbn [store_AuthenticateSession store_sessions memory_store memory_sessions].
  destruct (AuthenticateSession _ p s) as [[j|e] s1] eqn:Ea; [|done]. intros [= <- <-].
  apply AuthenticateSession_Ok in Ea as (_ & x & Hx & Hf & Hi & _). by exists p, x.
Qed.

Lemma writeAuthError_refused err c : refused [401; 429; 503] (writeAuthError err c).
Proof. unfold writeAuthError. repeat case_match; (split; [by eexists|cbn; set_solver]). Qed.

(** A protected handler only runs for an authenticated identity.  When either
    [RequireAuth] lets a request through, the request carried exactly one well
    formed credential (the bearer credential, or the browser's session cookie),
    it belongs to a session in force, and the handler finds that session's
    identity in its context; otherwise the request is answered 401, 429 or 503 and
    must not be stored. *)
Theorem RequireAuth_sound b w r values (s : MemoryStore) :
  (match Native.RequireAuth w r values fresh_response s with
   | (Ok values', _) => ∃ credential i,
       hr_values r "Authorization" = ["Bearer " +:+ credential] ∧ credential ≠ ""
       ∧ session_in_force credential (w_clock w 0%nat) s i ∧ IdentityFromContext values' = (i, true)
   | (Err c, _) => refused [401; 429; 503] c ∧ In ("Cache-Control", "no-store") (rs_headers c)
   end)
  ∧ match Browser.RequireAuth b w r values fresh_response s with
    | (Ok values', _) => ∃ credential i,
        cookie_values r (Browser.sessionCookie b) = [credential] ∧ credential ≠ ""
        ∧ session_in_force credential (w_clock w 0%nat) s i ∧ IdentityFromContext values' = (i, true)
    | (Err c, _) => refused [401; 429; 503] c ∧ In ("Cache-Control", "no-store") (rs_headers c)
    end.
Proof.
  assert (Hns : ∀ c, rs_headers c = rs_headers (noStore fresh_response) → In ("Cache-Control", "no-store") (rs_headers c)).
  { intros c ->. apply no_store_headers. }
  assert (Hr : refused [401; 429; 503] (writeError 401 "authentication_failed" (noStore fresh_response))).
  { split; [by eexists|cbn; set_solver]. }
  split.
  - unfold Native.RequireAuth. destruct (Native.bearerCredential r) as [v [|]] eqn:Ev; [|split; [exact Hr|by apply Hns]]. cbn [negb].
    apply bearer_exact in Ev as (Hv & Hne & _).
    destruct (Current _ _ v s) as [[i|err] s1] eqn:Ec.
    + exists v, i. split_and!; [done..|by eapply Current_memory|done].
    + split; [apply writeAuthError_refused|]. apply Hns. unfold writeAuthError. by repeat case_match.
  - unfold Browser.RequireAuth. destruct (Browser.exactCookie r _) as [v [|]] eqn:Ev; [|split; [exact Hr|by apply Hns]]. cbn [negb].
    apply exactCookie_spec in Ev as (Hv & Hne & _).
    destruct (Current _ _ v s) as [[i|err] s1] eqn:Ec.
    + exists v, i. split_and!; [done..|by eapply Current_memory|done].
    + split; [apply writeAuthError_refused|]. apply Hns. unfold writeAuthError. by repeat case_match.
Qed.

(** ** Concrete runs *)

Definition example_parse (o : string) : option Browser.URL :=
  if HasPrefix o "https://" then
    Some {| Browser.url_scheme := "https"; Browser.url_host := drop_bytes 8 o; Browser.url_user := false;
            Browser.url_path := ""; Browser.url_raw_query := ""; Browser.url_fragment := "";
            Browser.url_hostname := drop_bytes 8 o |}
  else None.
Definition example_media (s : string) : option string := Some s.
Definition example_origin : string := "https://app.example".
Definition example_new : result error Browser.t :=
  @Browser.NewBrowser identity_tables example_parse (λ _, false) (Some example_service) true [example_origin] [].
Definition example_browser : Browser.t :=
  match example_new with
  | Ok b => b
  | Err _ => {| Browser.service := example_service; Browser.origins := ∅; Browser.source := directPeer;
                Browser.secure := false; Browser.preAuthCookie := ""; Browser.sessionCookie := "" |}
  end.

(** The [k]th request, at time [t]. *)
Definition example_world (k : nat) (t : Time) : World :=
  {| w_clock := λ _, t; w_ctx := λ _, Background; w_entropy := λ i n, counting (50 * k + 10 * i + n)%nat;
     w_seed := λ _, 0%nat; w_send := λ _, None; w_send_cleanup := Background;
     w_logout_cleanup := Background; w_neutral := counting; w_now := t |}.
Definition example_http (cookies : list (string * string)) (csrf body : string) : HttpRequest :=
  {| hr_method := "POST";
     hr_values := λ name, if String.eqb name "Origin" then [example_origin]
                          else if String.eqb name "Content-Type" then ["application/json"]
                          else if String.eqb name "X-CSRF-Token" then [csrf] else [];
     hr_cookies := cookies; hr_remote := "192.0.2.1:4711"; hr_body := body |}.

Definition boot : Response * MemoryStore :=
  Browser.Bootstrap example_browser (example_world 0 0) (example_http [] "" "") fresh_response (empty_store 10).
Definition cookie_of (rs : Response) : list (string * string) :=
  map (λ k, (ck_name k, ck_value k)) (rs_cookies rs).
Definition text_of (v : option (string * jvalue)) : string :=
  match v with Some (_, JString s) => s | _ => "" end.
Definition boot_csrf : string := text_of (head (rs_body (fst boot))).

Definition ask_request : HttpRequest :=
  example_http (cookie_of (fst boot)) boot_csrf (print 0 (JObj [("email", JStr "ada@Example.com")])).
Definition asked : Response * option Message * MemoryStore :=
  Browser.RequestCode example_media example_browser (example_world 1 Second) ask_request fresh_response (snd boot).
Definition asked_message : Message :=
  match snd (fst asked) with Some m => m | None => {| To := ""; Subject := ""; Text := "" |} end.

Definition answer_request_body : HttpRequest :=
  example_http (cookie_of (fst boot)) boot_csrf
    (print 0 (JObj [("challenge_id", JStr (text_of (head (rs_body (fst (fst asked))))));
                    ("email", JStr "ada@Example.com");
                    ("code", JStr (drop_bytes 29 (Text asked_message)))])).

Lemma Bootstrap_wf b w r c (s : MemoryStore) : wf s → wf (snd (Browser.Bootstrap b w r c s)).
Proof.
  intros Hwf. unfold Browser.Bootstrap. destruct (Browser.safeOrigin _ _ _) as [[|] c']; [|done].
  unfold Bootstrap. destruct (w_ctx w 0%nat 0%nat); [done|]. destruct (_ || _); [done|].
  destruct (randomEncoded _ 0 32); [|done]. destruct (randomEncoded _ 1 32); [|done].
  destruct (randomEncoded _ 2 32); [|done]. cbv zeta. cbn [store_CreatePreAuth memory_preauth].
  match goal with |- context [CreatePreAuth ?sd ?cx ?x s] => pose proof (wf_CreatePreAuth sd cx x s Hwf) as Hw end.
  destruct (CreatePreAuth _ _ _ s) as [[e|] s1]; exact Hw.
Qed.

Lemma boot_wf : wf (snd boot).
Proof. exact (Bootstrap_wf example_browser (example_world 0 0) (example_http [] "" "") fresh_response (empty_store 10) empty_store_wf). Qed.

Lemma browser_sign_in_witness :
  ∃ i value rs' s2, Browser.VerifyCode example_media example_browser (example_world 2 Minute) answer_request_body
      fresh_response (snd asked) = (rs', s2)
    ∧ signed_in_as example_browser value i rs' ∧ identity_Email i = "ada@example.com".
Proof.
  destruct (browser_sign_in example_browser example_media (example_world 1 Second) (example_world 2 Minute)
              ask_request answer_request_body (snd boot) (snd asked) (fst (fst asked)) asked_message
              "ada@Example.com" (text_of (head (rs_body (fst (fst asked))))) (drop_bytes 29 (Text asked_message))
              (snd (hd ("", "") (cookie_of (fst boot)))) boot_csrf)
    as (i & value & rs' & s2 & H1 & H2 & H3 & _).
  - exact boot_wf.
  - vm_compute. reflexivity.
  - reflexivity.
  - vm_compute. reflexivity.
  - vm_compute. reflexivity.
  - vm_compute. reflexivity.
  - vm_compute. reflexivity.
  - split; [apply (bool_decide_unpack (GetHeader answer_request_body "Origin" ∈ Browser.origins example_browser)); vm_compute; exact I|].
    split; [vm_compute; reflexivity|]. split; [vm_compute; reflexivity|].
    eexists. split; vm_compute; reflexivity.
  - eexists. split; vm_compute; reflexivity.
  - vm_compute. reflexivity.
  - split; vm_compute; [discriminate|reflexivity].
  - split; [intros j n; reflexivity|]. split; [intros n; eexists; reflexivity|].
    split; [vm_compute; discriminate|]. split; [vm_compute; discriminate|].
    split; [split; vm_compute; reflexivity|]. split; [split; vm_compute; reflexivity|].
    intros session rec _. vm_compute. reflexivity.
  - exists i, value, rs', s2. split; [exact H1|]. split; [exact H2|]. cbn in H3. by injection H3 as <-.
Defined.

Lemma browser_cookies_host_only_witness :
  Browser.secure example_browser = true
  ∧ map ck_name (rs_cookies (fst boot)) = ["__Host-fabrin_preauth"]
  ∧ Forall (λ k, ck_http_only k = true ∧ ck_secure k = true) (rs_cookies (fst boot)).
Proof.
  split; [reflexivity|]. split; [vm_compute; reflexivity|].
  assert (Hnew : example_new = Ok example_browser) by (vm_compute; reflexivity).
  destruct (@browser_cookies_host_only MemoryStore memory_store memory_preauth identity_tables example_parse (λ _, false)
              (Some example_service) true [example_origin] [] example_browser example_media (example_world 0 0)
              (example_http [] "" "") (empty_store 10) Hnew eq_refl) as (_ & _ & _ & Hall).
  apply Forall_cons in Hall as [[_ Hall] _]. unfold boot.
  eapply Forall_impl; [exact Hall|]. intros k (H1 & H2 & _). split; assumption.
Defined.

(** The pre-authentication runs out between the check and its consumption. *)
Definition late_world : World :=
  {| w_clock := λ i, if (i =? 2)%nat then Hour else Minute; w_ctx := λ _, Background;
     w_entropy := w_entropy (example_world 2 Minute); w_seed := λ _, 0%nat; w_send := λ _, None;
     w_send_cleanup := Background; w_logout_cleanup := Background; w_neutral := counting; w_now := Minute |}.
Definition late : Response * MemoryStore :=
  Browser.VerifyCode example_media example_browser late_world answer_request_body fresh_response (snd asked).

Lemma RequestCode_wf media b w r c (s : MemoryStore) : wf s → wf (snd (Browser.RequestCode media b w r c s)).
Proof.
  intros Hwf. unfold Browser.RequestCode.
  destruct (Browser.preAuthRequest _ _ _ _ s) as [[[cr tok]|c'] s1] eqn:E; apply preAuthRequest_memory in E as [-> _]; [|done].
  destruct (decodeJSON _ _ r) as [body|]; [|done].
  match goal with |- context [Request ?x1 ?x2 ?x3 ?x4 ?x5 ?x6 s] =>
    pose proof (Request_inv (H0:=memory_lawful) x1 x2 x3 x4 x5 x6 s Hwf) as Hi end.
  destruct (Request _ _ _ _ _ _ s) as [[res msg] s2]. exact Hi.
Qed.

Lemma asked_wf : wf (snd asked).
Proof. exact (RequestCode_wf example_media example_browser (example_world 1 Second) ask_request fresh_response (snd boot) boot_wf). Qed.

Lemma failed_sign_in_leaves_no_session_witness :
  rs_status (fst late) = 401 ∧ size (sessions (snd late)) = 1%nat
  ∧ ∀ sid x, memory_session (snd late) sid = Some x → memory_session (snd asked) sid = Some x.
Proof.
  split; [vm_compute; reflexivity|]. split; [vm_compute; reflexivity|].
  apply (failed_sign_in_leaves_no_session example_browser example_media late_world answer_request_body (snd asked)
           (snd late) (fst late) asked_wf).
  - unfold late. destruct (Browser.VerifyCode _ _ _ _ _ _). reflexivity.
  - vm_compute. discriminate.
  - intros n. reflexivity.
Defined.

Lemma request_code_neutral_witness :
  accepted (fst (fst asked)).
Proof.
  pose proof (request_code_neutral (S:=MemoryStore) example_media
                {| Native.service := example_service; Native.source := directPeer |} example_browser
                (example_world 1 Second) ask_request (snd boot)) as Hn.
  destruct (Hn (ex_intro _ _ eq_refl)) as [_ Hb]. fold asked in Hb.
  assert (Hm : snd (fst asked) = Some asked_message) by (vm_compute; reflexivity).
  destruct asked as [[rs msg] s']. cbn in Hm. subst msg. cbn.
  destruct Hb as [[Hb|[Hb _]] _]; [exact Hb|discriminate Hb].
Defined.
