(* ===== verification/AuthServe.v ===== *)
(** * HTTP traffic is a history of store operations

    The refinement between the two levels: whatever requests the handlers of
    [authhttp] serve, the store they leave is the one some history of store
    operations leaves, so that what holds after every history holds of a served
    application. *)

From S2P Require Import Prelude GoStrings Sha256 AuthCore AuthCoreSpec MemoryStore MemoryStoreSpec.
From S2P Require Import MemoryStoreInv Auth AuthSpec AuthHttp AuthHttpSpec.

#[local] Open Scope Z_scope.

(** [s'] is what some history of well-formed operations leaves of [s]. *)
Definition served (s s' : MemoryStore) : Prop :=
  ∃ ops, Forall op_ok ops ∧ s' = snd (history ops s).

Lemma served_refl s : served s s.
Proof. by exists []. Qed.
Lemma served_trans s1 s2 s3 : served s1 s2 → served s2 s3 → served s1 s3.
Proof.
  intros (ops & Ho & ->) (ops' & Ho' & ->). exists (ops ++ ops').
  split; [by apply Forall_app|]. by rewrite history_app.
Qed.
Lemma served_op o s s' : op_ok o → snd (exec o s) = s' → served s s'.
Proof.
  intros Ho <-. exists [o]. split; [by constructor|]. cbn. by destruct (exec o s).
Qed.

#[global] Instance served_preorder : PreOrder served.
Proof. split; [intros s; apply served_refl|intros s1 s2 s3; apply served_trans]. Qed.

Create HintDb served.
#[local] Hint Resolve served_refl : served.

(** ** The managers *)

Lemma served_Current ctx t credential s res s' : Current ctx t credential s = (res, s') → served s s'.
Proof.
  unfold Current. destruct (ctx 0%nat); [by intros [= _ <-]|].
  destruct (sessionProof credential t) as [p|]; [|by intros [= _ <-]].
  destruct (store_AuthenticateSession _ p s) as [[i|e] s1] eqn:E; intros [= _ <-];
    (apply (served_op (OAuthenticate (polled ctx) p)); [done|]; cbn in *; by rewrite E).
Qed.

Lemma served_ValidateCSRF ctx t credential csrf s res s' : ValidateCSRF ctx t credential csrf s = (res, s') → served s s'.
Proof.
  unfold ValidateCSRF. destruct (ctx 0%nat); [by intros [= _ <-]|].
  destruct (sessionCSRFProof credential csrf t) as [p|]; [|by intros [= _ <-]].
  destruct (store_AuthenticateSession _ p s) as [[i|e] s1] eqn:E; intros [= _ <-];
    (apply (served_op (OAuthenticate (polled ctx) p)); [done|]; cbn in *; by rewrite E).
Qed.

Lemma served_Logout ctx t credential s res s' : Logout ctx t credential s = (res, s') → served s s'.
Proof.
  unfold Logout. destruct (ctx 0%nat); [by intros [= _ <-]|].
  destruct (sessionProof credential t) as [p|]; [|by intros [= _ <-]].
  destruct (store_RevokeSession _ p s) as [e s1] eqn:E; intros [= _ <-].
  apply (served_op (ORevoke (polled ctx) p)); [done|]. cbn in *. by rewrite E.
Qed.

Lemma served_LogoutAll ctx t credential s res s' : LogoutAll ctx t credential s = (res, s') → served s s'.
Proof.
  unfold LogoutAll. destruct (ctx 0%nat); [by intros [= _ <-]|].
  destruct (sessionProof credential t) as [p|]; [|by intros [= _ <-]].
  destruct (store_RevokeAllSessions _ p s) as [e s1] eqn:E; intros [= _ <-].
  apply (served_op (ORevokeAll (polled ctx) p)); [done|]. cbn in *. by rewrite E.
Qed.

Lemma served_Bootstrap ctx e seed t source s res s' : Bootstrap ctx e seed t source s = (res, s') → served s s'.
Proof.
  unfold Bootstrap. destruct (ctx 0%nat); [by intros [= _ <-]|]. destruct (_ || _); [by intros [= _ <-]|].
  destruct (randomEncoded e 0 32); [|by intros [= _ <-]]. destruct (randomEncoded e 1 32); [|by intros [= _ <-]].
  destruct (randomEncoded e 2 32); [|by intros [= _ <-]]. cbv zeta.
  match goal with |- context [store_CreatePreAuth seed (polled ctx) ?r s] => set (rec := r) end.
  destruct (store_CreatePreAuth seed _ rec s) as [[err|] s1] eqn:E; intros [= _ <-];
    (apply (served_op (OCreatePreAuth seed (polled ctx) rec)); [done|]; cbn in *; by rewrite E).
Qed.

Lemma served_Authenticate ctx t credential csrf s res s' : Authenticate ctx t credential csrf s = (res, s') → served s s'.
Proof.
  unfold Authenticate. destruct (ctx 0%nat); [by intros [= _ <-]|].
  destruct (preAuthProof credential csrf t) as [p|]; [|by intros [= _ <-]].
  destruct (store_AuthenticatePreAuth _ p s) as [e s1] eqn:E; intros [= _ <-].
  apply (served_op (OAuthenticatePreAuth (polled ctx) p)); [done|]. cbn in *. by rewrite E.
Qed.

Lemma served_Consume ctx t credential csrf s res s' : Consume ctx t credential csrf s = (res, s') → served s s'.
Proof.
  unfold Consume. destruct (ctx 0%nat); [by intros [= _ <-]|].
  destruct (preAuthProof credential csrf t) as [p|]; [|by intros [= _ <-]].
  destruct (store_ConsumePreAuth _ p s) as [e s1] eqn:E; intros [= _ <-].
  apply (served_op (OConsumePreAuth (polled ctx) p)); [done|]. cbn in *. by rewrite E.
Qed.

Lemma served_service_Verify svc v cid mailbox code purpose source options s res s' :
  service_Verify svc v cid mailbox code purpose source options s = (res, s') → served s s'.
Proof.
  unfold service_Verify. destruct (verify_ctx v 0%nat); [by intros [= _ <-]|].
  destruct (_ || _); [by intros [= _ <-]|]. destruct (challengeBinding options); [|by intros [= _ <-]].
  destruct (randomHex _ 0 32) as [h|] eqn:Eh; [|by intros [= _ <-]].
  destruct (newSession _ 1 _) as [[session rec]|]; [|by intros [= _ <-]]. cbv zeta.
  match goal with |- context [store_Verify ?sd ?cx ?x s] => set (att := x) end.
  assert (Hok : op_ok (OVerify (verify_seed v) (polled (verify_ctx v)) att)).
  { cbn. intros ->. by apply randomHex_length in Eh. }
  destruct (store_Verify _ _ att s) as [[i|e] s1] eqn:E; intros [= _ <-];
    (apply (served_op _ _ _ Hok); cbn in *; by rewrite E).
Qed.

Lemma served_Request svc w mailbox purpose source options s res msg s' :
  Request svc w mailbox purpose source options s = (res, msg, s') → served s s'.
Proof.
  unfold Request. destruct (request_ctx w 0%nat); [by intros [= _ _ <-]|].
  destruct (_ || _); [by intros [= _ _ <-]|]. destruct (challengeBinding options); [|by intros [= _ _ <-]].
  destruct (newChallenge _ _ _ _ _ _) as [[ch code]|] eqn:Ec; [|by intros [= _ _ <-]].
  apply newChallenge_id in Ec. cbv zeta.
  match goal with |- context [store_Reserve ?sd ?cx ?x s] => set (r := x) end.
  destruct (store_Reserve _ _ r s) as [[e|] s1] eqn:E;
    (assert (Hs1 : served s s1) by (apply (served_op (OReserve (request_seed w) (polled (request_ctx w)) r));
                                    [done|]; cbn in *; by rewrite E)).
  { by intros [= _ _ <-]. }
  destruct (request_send w _) as [e|]; [|by intros [= _ _ <-]].
  destruct (negb _ && negb _); [|by intros [= _ _ <-]].
  destruct (store_Invalidate _ _ s1) as [e' s2] eqn:Ei. intros [= _ _ <-].
  etransitivity; [exact Hs1|]. apply (served_op (OInvalidate (request_cleanup w) (id ch))); [done|].
  cbn in *. by rewrite Ei.
Qed.

#[local] Hint Resolve served_Current served_ValidateCSRF served_Logout served_LogoutAll served_Bootstrap
  served_Authenticate served_Consume served_service_Verify served_Request : served.

(** ** The handlers *)

Lemma served_preAuthRequest b w r c s v s' : Browser.preAuthRequest b w r c s = (v, s') → served s s'.
Proof.
  unfold Browser.preAuthRequest. destruct (Browser.unsafeOrigin b r c) as [[|] c']; [|by intros [= _ <-]].
  destruct (Browser.exactCookie _ _) as [cr ok1], (Browser.exactHeader _ _) as [tok ok2].
  destruct (_ || _); [by intros [= _ <-]|].
  destruct (Authenticate _ _ _ _ s) as [[e|] s1] eqn:E; intros [= _ <-]; eauto with served.
Qed.

Lemma served_sessionCSRF b w r c s v s' : Browser.sessionCSRF b w r c s = (v, s') → served s s'.
Proof.
  unfold Browser.sessionCSRF. destruct (Browser.unsafeOrigin b r c) as [[|] c']; [|by intros [= _ <-]].
  destruct (Browser.exactCookie _ _) as [cr ok1]. destruct (negb ok1); [by intros [= _ <-]|].
  destruct (Browser.exactHeader _ _) as [tok ok2]. destruct (negb ok2); [by intros [= _ <-]|].
  destruct (ValidateCSRF _ _ _ _ s) as [[e|] s1] eqn:E; intros [= _ <-]; eauto with served.
Qed.

#[local] Hint Resolve served_preAuthRequest served_sessionCSRF : served.

(** One request served; [n] and [b] are the application's two sets of handlers. *)
Inductive http :=
| NativeRequestCode | NativeVerifyCode | NativeCurrent | NativeLogout | NativeLogoutAll | NativeRequireAuth
| BrowserBootstrap | BrowserRequestCode | BrowserVerifyCode | BrowserCurrent | BrowserLogout | BrowserLogoutAll
| BrowserRequireAuth | BrowserRequireCSRF.

Section serve.
Context (media : string → option string) (n : Native.t) (b : Browser.t).

(** The store after the handler [h] ran on a request. *)
Definition serve (h : http) (w : World) (r : HttpRequest) (s : MemoryStore) : MemoryStore :=
  let c := fresh_response in
  match h with
  | NativeRequestCode => snd (Native.RequestCode media n w r c s)
  | NativeVerifyCode => snd (Native.VerifyCode media n w r c s)
  | NativeCurrent => snd (Native.Current w r c s)
  | NativeLogout => snd (Native.Logout w r c s)
  | NativeLogoutAll => snd (Native.LogoutAll w r c s)
  | NativeRequireAuth => snd (Native.RequireAuth w r [] c s)
  | BrowserBootstrap => snd (Browser.Bootstrap b w r c s)
  | BrowserRequestCode => snd (Browser.RequestCode media b w r c s)
  | BrowserVerifyCode => snd (Browser.VerifyCode media b w r c s)
  | BrowserCurrent => snd (Browser.Current b w r c s)
  | BrowserLogout => snd (Browser.Logout b w r c s)
  | BrowserLogoutAll => snd (Browser.LogoutAll b w r c s)
  | BrowserRequireAuth => snd (Browser.RequireAuth b w r [] c s)
  | BrowserRequireCSRF => snd (Browser.RequireCSRF b w r c s)
  end.

Lemma served_native h w r s :
  h ∈ [NativeRequestCode; NativeVerifyCode; NativeCurrent; NativeLogout; NativeLogoutAll; NativeRequireAuth] →
  served s (serve h w r s).
Proof.
  rewrite !elem_of_cons, elem_of_nil. intros [->|[->|[->|[->|[->|[->|[]]]]]]]; unfold serve.
  - unfold Native.RequestCode. destruct (decodeJSON _ _ r); [|done].
    destruct (Request _ _ _ _ _ _ s) as [[res msg] s1] eqn:E. cbn. eauto with served.
  - unfold Native.VerifyCode. destruct (decodeJSON _ _ r); [|done].
    destruct (service_Verify _ _ _ _ _ _ _ _ s) as [[a|e] s1] eqn:E; cbn; eauto with served.
  - unfold Native.Current. destruct (Native.bearerCredential r) as [v ok]. destruct (negb ok); [done|].
    destruct (Current _ _ _ s) as [[i|e] s1] eqn:E; cbn; eauto with served.
  - unfold Native.Logout, Native.revoke. destruct (Native.bearerCredential r) as [v ok]. destruct (negb ok); [done|].
    destruct (Logout _ _ _ s) as [[e|] s1] eqn:E; cbn; eauto with served.
  - unfold Native.LogoutAll, Native.revoke. destruct (Native.bearerCredential r) as [v ok]. destruct (negb ok); [done|].
    destruct (LogoutAll _ _ _ s) as [[e|] s1] eqn:E; cbn; eauto with served.
  - unfold Native.RequireAuth. destruct (Native.bearerCredential r) as [v ok]. destruct (negb ok); [done|].
    destruct (Current _ _ _ s) as [[i|e] s1] eqn:E; cbn; eauto with served.
Qed.

Lemma served_logout all w r c s : served s (snd (Browser.logout b all w r c s)).
Proof.
  unfold Browser.logout. destruct (Browser.sessionCSRF _ _ _ _ s) as [[cr|c'] s1] eqn:E; [|cbn; eauto with served].
  etransitivity; [eapply served_sessionCSRF; exact E|].
  destruct all; [destruct (LogoutAll _ _ _ s1) as [[e|] s2] eqn:E2|destruct (Logout _ _ _ s1) as [[e|] s2] eqn:E2];
    cbn; eauto with served.
Qed.

Lemma served_VerifyCode w r c s : served s (snd (Browser.VerifyCode media b w r c s)).
Proof.
  unfold Browser.VerifyCode. destruct (Browser.preAuthRequest _ _ _ _ s) as [[[cr tok]|c'] s1] eqn:E1;
    [|cbn; eauto with served]. etransitivity; [eapply served_preAuthRequest; exact E1|].
  destruct (decodeJSON _ _ r); [|done].
  destruct (service_Verify _ _ _ _ _ _ _ _ s1) as [[a|e] s2] eqn:E2; [|cbn; eauto with served].
  etransitivity; [eapply served_service_Verify; exact E2|].
  destruct (Consume _ _ _ _ s2) as [[e|] s3] eqn:E3; [|cbn; eauto with served].
  etransitivity; [eapply served_Consume; exact E3|].
  destruct (Logout _ _ _ s3) as [e' s4] eqn:E4. cbn. eauto with served.
Qed.

Lemma served_serve h w r s : served s (serve h w r s).
Proof.
  destruct h; try (apply served_native; set_solver); unfold serve.
  - unfold Browser.Bootstrap. destruct (Browser.safeOrigin _ _ _) as [[|] c']; [|done].
    destruct (Bootstrap _ _ _ _ _ s) as [[st|e] s1] eqn:E; cbn; eauto with served.
  - unfold Browser.RequestCode. destruct (Browser.preAuthRequest _ _ _ _ s) as [[[cr tok]|c'] s1] eqn:E1;
      [|cbn; eauto with served]. etransitivity; [eapply served_preAuthRequest; exact E1|].
    destruct (decodeJSON _ _ r); [|done].
    destruct (Request _ _ _ _ _ _ s1) as [[res msg] s2] eqn:E2. cbn. eauto with served.
  - apply served_VerifyCode.
  - unfold Browser.Current. destruct (Browser.exactCookie _ _) as [v ok]. destruct (negb ok); [done|].
    destruct (Current _ _ _ s) as [[i|e] s1] eqn:E; cbn; eauto with served.
  - apply served_logout.
  - apply served_logout.
  - unfold Browser.RequireAuth. destruct (Browser.exactCookie _ _) as [v ok]. destruct (negb ok); [done|].
    destruct (Current _ _ _ s) as [[i|e] s1] eqn:E; cbn; eauto with served.
  - unfold Browser.RequireCSRF. destruct (Browser.sessionCSRF _ _ _ _ s) as [[cr|c'] s1] eqn:E; cbn; eauto with served.
Qed.

Definition traffic (requests : list (http * World * HttpRequest)) (s : MemoryStore) : MemoryStore :=
  foldl (λ s '(h, w, r), serve h w r s) s requests.

Lemma served_traffic requests s : served s (traffic requests s).
Proof.
  revert s; induction requests as [|[[h w] r] l IH]; intros s; [done|].
  etransitivity; [apply served_serve|apply IH].
Qed.
End serve.


