(* ===== verification/MigrateCmd.v ===== *)
(** * The migrate command: src/migrate_cmd.go

    [runMigrate] refuses what it must before touching the database, reads which
    versions are applied, says which way it is going, and hands the work to the
    engine of [Migrate].  Its writer can fail at any line ([wfails]), the database
    at any call ([fails], [performed]). *)

From S2P Require Import Prelude GoStrings Migrate MigrateSpec.

Inductive command_error :=
| Sliced
| WriteFailed
| NoDatabase
| UnknownTarget (target : string)
| ReadApplied
| Engine (e : engine_error).

Section command.
Context {T : Type}.
Context (fails performed : nat → bool) (wfails : nat → bool).

(** The fields of the application the command reads: whether the process is
    sliced, the declared migrations, and whether [Options.DB] is set. *)
Record migrateApp := {
  sliced : bool;
  migrations : list (M T);
  has_db : bool;
}.

(** [fmt.Fprintln(out, ...)], onto the lines written so far. *)
Definition Fprintln (line : string) (out : list string) : option command_error * list string :=
  if wfails (length out) then (Some WriteFailed, out) else (None, out ++ [line]).

Fixpoint report_lines (done : list (M T)) (out : list string) : option command_error * list string :=
  match done with
  | [] => (None, out)
  | m :: done' =>
      match Fprintln ("applied " +:+ Version m +:+ " " +:+ Name m) out with
      | (Some err, out) => (Some err, out)
      | (None, out) => report_lines done' out
      end
  end.

Definition report (done : list (M T)) (out : list string) : option command_error * list string :=
  match done with
  | [] => Fprintln "up to date; no migrations applied" out
  | _ => report_lines done out
  end.

Definition readApplied (w : world T) : result command_error (list string) * world T :=
  let '(n, w) := tick w in
  if fails n || negb (table_exists (durable w)) then (Err ReadApplied, w)
  else (Ok (sort_by str_leb (map fst (map_to_list (rows (durable w))))), w).

(** [if rerr := report(out, done); err == nil { return rerr }; return err]. *)
Definition reported (ran : list (M T) * option engine_error * world T) (out : list string)
    : option command_error * list string * world T :=
  let '(done, err, w) := ran in
  let '(rerr, out) := report done out in
  (match err with None => rerr | Some e => Some (Engine e) end, out, w).

(** What is handed to the engine when moving forward to a target. *)
Definition subset_to (target : string) (applied : list string) (ms : list (M T)) : list (M T) :=
  sort_by version_leb
    (List.filter (λ m, str_leb (Version m) target && negb (contains applied (Version m))) ms).

Definition runMigrate (a : migrateApp) (target : string) (out : list string) (w : world T)
    : option command_error * list string * world T :=
  if sliced a then (Some Sliced, out, w)
  else if (length (migrations a) =? 0)%nat then
    let '(err, out) := Fprintln "no migrations declared; nothing to do" out in (err, out, w)
  else if negb (has_db a) then (Some NoDatabase, out, w)
  else if negb (String.eqb target "")
          && negb (existsb (λ m, String.eqb (Version m) target) (migrations a))
  then (Some (UnknownTarget target), out, w)
  else
    match Ensure fails w with
    | (Some e, w) => (Some (Engine e), out, w)
    | (None, w) =>
        match readApplied w with
        | (Err err, w) => (Some err, out, w)
        | (Ok applied, w) =>
            if String.eqb target "" then
              match Fprintln ("migrating forward (" +:+ Itoa (Z.of_nat (length (migrations a)))
                              +:+ " declared)") out with
              | (Some err, out) => (Some err, out, w)
              | (None, out) => reported (Run fails performed (migrations a) w) out
              end
            else if negb (contains applied target) then
              match Fprintln ("migrating forward to " +:+ target) out with
              | (Some err, out) => (Some err, out, w)
              | (None, out) =>
                  reported (Run fails performed (subset_to target applied (migrations a)) w) out
              end
            else
              match Fprintln ("rolling back to " +:+ target +:+ " (exclusive)") out with
              | (Some err, out) => (Some err, out, w)
              | (None, out) => reported (Rollback fails performed (migrations a) target w) out
              end
        end
    end.

(** ** What the command settles *)

Implicit Types d : db T.

Lemma steps_reverted (ms : list (M T)) d d' v :
  steps reverted_to ms d d' →
  rows d' !! v = if bool_decide (v ∈ map Version ms) then None else rows d !! v.
Proof.
  induction 1 as [d|m ms d d1 d2 (s & Hs & ->) _ IH]; cbn.
  - by rewrite bool_decide_eq_false_2 by set_solver.
  - rewrite IH. cbn. destruct (decide (Version m = v)) as [<-|Hne].
    + rewrite (bool_decide_eq_true_2 (Version m ∈ Version m :: _)) by set_solver.
      case_bool_decide; [done|]. apply lookup_delete_eq.
    + rewrite lookup_delete_ne by done.
      assert (bool_decide (v ∈ map Version ms) = bool_decide (v ∈ Version m :: map Version ms)) as ->; [|done].
      apply bool_decide_ext. set_solver.
Qed.

Lemma Ensure_spec (w : world T) err w' :
  Ensure fails w = (err, w') → content (durable w) (durable w').
Proof. unfold Ensure, ensureTable, tick. cbn. destruct (fails _); by intros [= <- <-]. Qed.

Lemma readApplied_spec (w : world T) r w' :
  readApplied w = (r, w') →
  durable w' = durable w ∧
  ∀ applied, r = Ok applied → ∀ v, contains applied v = applied_in (durable w) v.
Proof.
  unfold readApplied, tick. cbn. destruct (fails _ || _); intros [= <- <-]; split; try done.
  intros applied [= <-] v. apply contains_keys.
Qed.

Lemma elem_of_subset target d (ms : list (M T)) m :
  m ∈ subset_to target (sort_by str_leb (map fst (map_to_list (rows d)))) ms ↔
  m ∈ ms ∧ str_leb (Version m) target = true ∧ rows d !! Version m = None.
Proof.
  unfold subset_to. rewrite elem_of_sort_by, elem_of_filter_bool, andb_true_iff, contains_keys.
  unfold applied_in. rewrite negb_true_iff, bool_decide_eq_false, <-eq_None_not_Some. tauto.
Qed.

(** What a run of the engine that reports no error did to the rows. *)
Lemma Run_rows (ms : list (M T)) w done w' :
  Run fails performed ms w = (done, None, w') →
  ∀ v, (is_Some (rows (durable w') !! v) ↔ v ∈ map Version ms ∨ is_Some (rows (durable w) !! v)).
Proof.
  intros [(_ & _ & H)|(Hu & _ & w0 & [Hr _] & He)]%Run_cases; [naive_solver|].
  destruct (each_spec _ _ _ _ _ _ _ (apply_atomic fails performed) He) as (rest & Ho & -> & Hs).
  rewrite app_nil_r in Ho. intros v. destruct (steps_applied _ _ _ Hs) as (-> & _).
  rewrite recorded_is_Some, <-Ho, <-Hr, outstanding_versions.
  destruct (rows (durable w) !! v) eqn:E; [|naive_solver]. split; [|naive_solver].
  intros _. right. eauto.
Qed.

(** What a rollback that reports no error did to the rows. *)
Lemma Rollback_rows (ms : list (M T)) to w done w' :
  Rollback fails performed ms to w = (done, None, w') →
  ∀ v, rows (durable w') !! v = if str_ltb to v then None else rows (durable w) !! v.
Proof.
  intros [(_ & _ & [? [=]])|(Hu & w0 & undo & [Hr _] & Hund & He)]%Rollback_cases.
  destruct (each_spec _ _ _ _ _ _ _ (revert_atomic fails performed) He) as (rest & Ho & -> & Hs).
  rewrite app_nil_r in Ho. subst done. apply undo_of_spec in Hund as [Hv _]; [|apply Hu].
  intros v. rewrite (steps_reverted _ _ _ v Hs), <-Hr, Hv. unfold targets_of.
  destruct (str_ltb to v) eqn:E.
  - case_bool_decide as Hin; [done|]. destruct (rows (durable w) !! v) eqn:Ev; [|done].
    destruct Hin. apply list_elem_of_In, in_rev. rewrite rev_involutive.
    apply list_elem_of_In, elem_of_sort_by, elem_of_filter_bool. rewrite elem_of_row_keys. eauto.
  - rewrite bool_decide_eq_false_2; [done|].
    intros Hin%list_elem_of_In%in_rev%list_elem_of_In.
    apply elem_of_sort_by, elem_of_filter_bool in Hin as [_ Hin]. congruence.
Qed.

Lemma reported_ok (ran : list (M T) * option engine_error * world T) out out' w' :
  reported ran out = (None, out', w') → ∃ done, ran = (done, None, w').
Proof.
  unfold reported. destruct ran as [[ms [e|]] w]; destruct (report _ out) as [rerr out1]; [done|].
  intros [= _ _ <-]. by exists ms.
Qed.
End command.
Arguments migrateApp : clear implicits.

(** The migrate command, under any pattern of database and writer failures.
    A sliced process, a missing database and an unknown target are refused, and an
    empty set of migrations reported, without a single database call.  When the
    command reports success for an application with migrations: without a target,
    every declared migration is recorded and nothing was unrecorded; with a target
    not applied before, exactly the declared migrations up to the target were
    added; with a target applied before, exactly the recorded versions after it
    were removed. *)
Theorem runMigrate_settles {T} (fails performed wfails : nat → bool) (a : migrateApp T) target out w err out' w' :
  runMigrate fails performed wfails a target out w = (err, out', w') →
  let known := existsb (λ m, String.eqb (Version m) target) (migrations a) in
  if sliced a || (length (migrations a) =? 0)%nat || negb (has_db a)
     || (negb (String.eqb target "") && negb known)
  then w' = w ∧ (err = None → migrations a = [])
  else err = None →
    ∀ v, is_Some (rows (durable w') !! v) ↔
      if String.eqb target "" then
        v ∈ map Version (migrations a) ∨ is_Some (rows (durable w) !! v)
      else match rows (durable w) !! target with
        | None => (v ∈ map Version (migrations a) ∧ str_leb v target = true) ∨ is_Some (rows (durable w) !! v)
        | Some _ => is_Some (rows (durable w) !! v) ∧ str_ltb target v = false
        end.
Proof.
  unfold runMigrate. destruct (sliced a); cbn [orb]; [by intros [= <- _ <-]|].
  destruct (length (migrations a) =? 0)%nat eqn:El; cbn [orb].
  { intros H. apply Nat.eqb_eq in El.
    assert (migrations a = []) by (by destruct (migrations a)).
    destruct (Fprintln _ _ out) as [e o]. by injection H as <- _ <-. }
  destruct (has_db a); cbn [negb orb]; [|by intros [= <- _ <-]].
  destruct (negb (String.eqb target "") && negb _) eqn:Ek; [by intros [= <- _ <-]|].
  destruct (Ensure fails w) as [[e|] w1] eqn:Een; [by intros [= <- _ <-]|].
  apply Ensure_spec in Een as [Hrows _].
  destruct (readApplied fails w1) as [[applied|e] w2] eqn:Era; [|by intros [= <- _ <-]].
  assert (Happ : applied = sort_by str_leb (map fst (map_to_list (rows (durable w1))))).
  { unfold readApplied, tick in Era. cbn in Era. by destruct (fails _ || _); simplify_eq. }
  destruct (readApplied_spec fails _ _ _ Era) as [Hd Hc]. specialize (Hc _ eq_refl).
  destruct (String.eqb target "") eqn:Et.
  - destruct (Fprintln _ _ out) as [[e|] o]; [by intros [= <- _ <-]|]. intros H ->.
    apply reported_ok in H as [ms H]. intros v. rewrite (Run_rows _ _ _ _ _ _ H v), Hd, Hrows. done.
  - rewrite Hc. unfold applied_in. rewrite Hrows.
    destruct (rows (durable w1) !! target) as [x|] eqn:Ev.
    + rewrite bool_decide_eq_true_2 by eauto. cbn [negb].
      destruct (Fprintln _ _ out) as [[e|] o]; [by intros [= <- _ <-]|]. intros H ->.
      apply reported_ok in H as [ms H]. intros v. rewrite (Rollback_rows _ _ _ _ _ _ _ H v), Hd.
      destruct (str_ltb target v); [|naive_solver]. split; [by intros [? ?]|naive_solver].
    + rewrite bool_decide_eq_false_2 by (by intros []). cbn [negb].
      destruct (Fprintln _ _ out) as [[e|] o]; [by intros [= <- _ <-]|]. intros H ->.
      apply reported_ok in H as [ms H]. intros v. rewrite (Run_rows _ _ _ _ _ _ H v), Hd, Happ.
      rewrite list_elem_of_fmap. split.
      * intros [(m & -> & Hm)|Hs]; [|by right]. apply elem_of_subset in Hm as (Hm & Hle & _).
        left. split; [|done]. apply list_elem_of_fmap. eauto.
      * intros [[Hv Hle]|Hs]; [|by right]. apply list_elem_of_fmap in Hv as (m & -> & Hm).
        destruct (rows (durable w1) !! Version m) as [y|] eqn:Ey; [right; eauto|].
        left. exists m. split; [done|]. by apply elem_of_subset.
Qed.

Lemma runMigrate_settles_witness :
  let a := {| sliced := false; migrations := [example_m "02"; example_m "01"; example_m "03"]; has_db := true |} in
  let '(err, out, w') := runMigrate reliable (λ _, true) (λ _, false) a "02" [] example_world in
  err = None ∧ (is_Some (rows (durable w') !! "01") ↔
    ("01" ∈ map Version (migrations a) ∧ str_leb "01" "02" = true) ∨ is_Some (rows (durable example_world) !! "01")).
Proof.
  intros a. destruct (runMigrate reliable (λ _, true) (λ _, false) a "02" [] example_world) as [[err out] w'] eqn:E.
  assert (He : err = None) by (vm_compute in E; injection E as <- _ _; reflexivity).
  split; [exact He|].
  exact (runMigrate_settles reliable (λ _, true) (λ _, false) a "02" [] example_world err out w' E He "01").
Defined.

(** The lines a rollback prints: the command says "applied" of what it reverted. *)
Example report_rollback :
  let a := {| sliced := false; migrations := [example_m "02"; example_m "01"]; has_db := true |} in
  let w := snd (runMigrate reliable (λ _, true) (λ _, false) a "" [] example_world) in
  snd (fst (runMigrate reliable (λ _, true) (λ _, false) a "01" [] w))
  = ["rolling back to 01 (exclusive)"; "applied 02 m"].
Proof. vm_compute. reflexivity. Qed.
