(* ===== verification/Flag.v ===== *)
(** * Command-line flags: the standard library's [flag]

    What [config] and [cli] use of [flag.FlagSet] in its [ContinueOnError] mode: a
    set of named flags, some boolean, each with a [Set] that may refuse a text;
    [Parse] takes flags off the front of the arguments until the first that is not
    one. *)

From S2P Require Import Prelude GoStrings.

#[local] Open Scope Z_scope.

(** [strconv.ParseBool] and [strconv.FormatBool]. *)
Definition ParseBool (s : string) : option bool :=
  if existsb (String.eqb s) ["1"; "t"; "T"; "true"; "TRUE"; "True"] then Some true
  else if existsb (String.eqb s) ["0"; "f"; "F"; "false"; "FALSE"; "False"] then Some false
  else None.
Definition FormatBool (b : bool) : string := if b then "true" else "false".

(** A flag: whether it may stand without a value, and what its value becomes when
    it is set to a text ([None] when the text is refused). *)
Record flag_spec := { is_bool : bool; set_to : string → option string }.
Definition BoolFlag : flag_spec := {| is_bool := true; set_to := λ v, FormatBool <$> ParseBool v |}.
Definition StringFlag : flag_spec := {| is_bool := false; set_to := Some |}.

(** The flags defined on a set, and the flags that were actually set. *)
Definition formal := gmap string flag_spec.
Definition actual := gmap string string.

Inductive parsed_flag :=
| FlagsEnd (rest : list string)
| FlagSet (name value : string) (rest : list string)
| FlagHelp
| FlagError (detail : string).

(** The name and, after the first [=] past its first character, the value. *)
Definition split_flag (name : string) : string * option string :=
  match name with
  | String c rest =>
      match CutByte "=" rest with
      | Some (a, b) => (String c a, Some b)
      | None => (name, None)
      end
  | "" => ("", None)
  end.

(** [FlagSet.parseOne]. *)
Definition parseOne (f : formal) (args : list string) : parsed_flag :=
  match args with
  | [] => FlagsEnd []
  | s :: rest =>
      if (String.length s <? 2)%nat || negb (HasPrefix s "-") then FlagsEnd args
      else if String.eqb s "--" then FlagsEnd rest
      else
        let name := if HasPrefix s "--" then drop_bytes 2 s else drop_bytes 1 s in
        if HasPrefix name "-" || HasPrefix name "=" then FlagError "bad flag syntax"
        else
          let '(name, value) := split_flag name in
          match f !! name with
          | None => if String.eqb name "help" || String.eqb name "h" then FlagHelp
                    else FlagError "flag provided but not defined"
          | Some spec =>
              let set v rest := match set_to spec v with
                                | Some x => FlagSet name x rest
                                | None => FlagError "invalid value"
                                end in
              if is_bool spec then set (default "true" value) rest
              else match value, rest with
                   | Some v, _ => set v rest
                   | None, v :: rest' => set v rest'
                   | None, [] => FlagError "flag needs an argument"
                   end
          end
  end.

(** How a parse ends: with the arguments left, in [flag.ErrHelp], or in another
    error; and what was set before it did. *)
Inductive parse_end := Parsed (rest : list string) | Help | Bad (detail : string).

(** Each round takes at least one argument, so [length args] rounds are enough. *)
Fixpoint parse_rounds (fuel : nat) (f : formal) (args : list string) (set : actual)
    : parse_end * actual :=
  match fuel with
  | O => (Parsed args, set)
  | S fuel' =>
      match parseOne f args with
      | FlagsEnd rest => (Parsed rest, set)
      | FlagSet name value rest => parse_rounds fuel' f rest (<[name := value]> set)
      | FlagHelp => (Help, set)
      | FlagError detail => (Bad detail, set)
      end
  end.
Definition Parse (f : formal) (args : list string) (set : actual) : parse_end * actual :=
  parse_rounds (length args) f args set.

(** ** Enough rounds *)

Lemma parseOne_shorter f args name v rest :
  parseOne f args = FlagSet name v rest → (length rest < length args)%nat.
Proof.
  destruct args as [|s args]; [done|]. cbn [parseOne]. destruct (_ || _); [done|].
  destruct (String.eqb s "--"); [done|]. cbv zeta.
  destruct (HasPrefix _ "-" || _); [done|]. destruct (split_flag _) as [n value].
  destruct (f !! n) as [spec|]; [|by destruct (_ || _)].
  destruct (is_bool spec); [destruct (set_to spec _); [|done]; intros [= _ _ <-]; cbn; lia|].
  destruct value as [x|]; [destruct (set_to spec _); [|done]; intros [= _ _ <-]; cbn; lia|].
  destruct args as [|y args]; [done|]. destruct (set_to spec _); [|done]. intros [= _ _ <-]; cbn; lia.
Qed.

Lemma parse_rounds_fuel f args set n m :
  (length args <= n)%nat → (length args <= m)%nat → parse_rounds n f args set = parse_rounds m f args set.
Proof.
  revert args set m; induction n as [|n IH]; intros args set m Hn Hm.
  - destruct args; [|cbn in Hn; lia]. destruct m; done.
  - destruct m as [|m]; [destruct args; [done|cbn in Hm; lia]|]. cbn [parse_rounds].
    destruct (parseOne f args) as [|name v rest| |] eqn:E; [done| |done|done].
    apply parseOne_shorter in E. apply IH; lia.
Qed.

(** One round of [Parse]. *)
Lemma Parse_step f args set :
  Parse f args set =
  match parseOne f args with
  | FlagsEnd rest => (Parsed rest, set)
  | FlagSet name value rest => Parse f rest (<[name := value]> set)
  | FlagHelp => (Help, set)
  | FlagError detail => (Bad detail, set)
  end.
Proof.
  unfold Parse. destruct args as [|s args]; [done|].
  change (length (s :: args)) with (S (length args)). cbn [parse_rounds].
  destruct (parseOne f (s :: args)) as [|name v rest| |] eqn:E; [done| |done|done].
  apply parseOne_shorter in E. cbn in E. apply parse_rounds_fuel; lia.
Qed.

(** ** Flags written [--name=value] *)

(** A name that can be written as a flag. *)
Definition flag_name (n : string) : Prop :=
  HasPrefix n "-" = false ∧ contains_byte "=" n = false ∧ n ≠ "".

Lemma CutByte_first (sep : ascii) a b :
  contains_byte sep a = false → CutByte sep (a +:+ String sep b) = Some (a, b).
Proof.
  induction a as [|c a IH]; cbn [contains_byte].
  - intros _. cbn. by rewrite Ascii.eqb_refl.
  - intros [Hc Ha]%orb_false_iff. change (String c a +:+ String sep b) with (String c (a +:+ String sep b)).
    cbn [CutByte]. rewrite Hc, IH by done. done.
Qed.

Lemma parseOne_written f n v spec x rest :
  flag_name n → f !! n = Some spec → set_to spec v = Some x →
  parseOne f (("--" +:+ n +:+ "=" +:+ v) :: rest) = FlagSet n x rest.
Proof.
  intros (Hd & He & Hne) Hf Hx. destruct n as [|c n]; [done|].
  change ("--" +:+ String c n +:+ "=" +:+ v)
    with (String "-" (String "-" (String c (n +:+ String "=" v)))).
  cbn [contains_byte] in He. apply orb_false_iff in He as [Hc He].
  assert (Hp : ∀ s, HasPrefix s "" = true) by (by intros []).
  cbn [HasPrefix] in Hd. rewrite Hp, andb_true_r in Hd.
  unfold parseOne. cbn [String.length Nat.ltb Nat.leb HasPrefix drop_bytes negb orb String.eqb].
  rewrite !Ascii.eqb_refl. cbn [negb orb andb HasPrefix].
  rewrite !Hp, !andb_true_r, Hd, (Ascii.eqb_sym "=" c), Hc.
  cbn [orb split_flag]. rewrite CutByte_first, Hf by done.
  destruct (is_bool spec); cbn; unfold Datatypes.id; by rewrite Hx.
Qed.
