(* ===== verification/Config.v ===== *)
(** * Settings: src/config

    The layers of [config/config.go], the dotenv parser of [config/dotenv.go] and
    the options of [config/options.go].  The process environment, the command line
    and the file system are arguments.  [flag], [strconv] and [time] are the
    standard library's, written out as far as the source uses them; a duration's
    fraction goes through binary64 arithmetic there, and here. *)

From Stdlib Require Import Floats.SpecFloat.
From S2P Require Import Prelude GoStrings Flag.

#[local] Open Scope Z_scope.

(** ** Keys and errors *)

Definition keyPrefix : string := "FABRIN_".
Definition KeyAddr := "FABRIN_ADDR".
Definition KeyModules := "FABRIN_MODULES".
Definition KeyDebug := "FABRIN_DEBUG".
Definition KeyLogFormat := "FABRIN_LOG_FORMAT".
Definition KeyLogLevel := "FABRIN_LOG_LEVEL".
Definition KeyShutdownTimeout := "FABRIN_SHUTDOWN_TIMEOUT".
Definition KeyReadHeaderTimeout := "FABRIN_READ_HEADER_TIMEOUT".
Definition KeyTrustedProxies := "FABRIN_TRUSTED_PROXIES".

Definition knownKeys : list string :=
  [KeyAddr; KeyModules; KeyDebug; KeyLogFormat; KeyLogLevel;
   KeyShutdownTimeout; KeyReadHeaderTimeout; KeyTrustedProxies].

Inductive config_error :=
| ErrNoSources
| ErrBadFile (path detail : string)
| BadFlags (detail : string)
| ErrUnknownKey (key source suggestion : string)
| ErrInvalidValue (key value source want : string).

(** ** The dotenv parser *)

(** [bufio.ScanLines]: a final line without a newline counts, an empty rest does
    not; one carriage return before the newline is dropped. *)
Definition drop_cr (line : string) : string :=
  if HasSuffix line (String "013" "") then take_bytes (String.length line - 1) line else line.
Definition scan_lines (s : string) : list string :=
  let parts := SplitByte "010" s in
  match last parts with
  | Some "" => take (length parts - 1) parts
  | _ => parts
  end.

(** [bufio.MaxScanTokenSize]: the scanner gives up on a line its buffer cannot
    hold together with a newline. *)
Definition MaxScanTokenSize : Z := 65536.

Definition stripQuotes (s : string) : string * bool :=
  match s, string_rev s with
  | String first (String _ _ as rest), String last _ =>
      if negb (Ascii.eqb first last) then (s, false)
      else if negb (Ascii.eqb first quote_char) && negb (Ascii.eqb first "'") then (s, false)
      else (take_bytes (String.length rest - 1) rest, true)
  | _, _ => (s, false)
  end.

(** The value of a line, after its [=]. *)
Definition dotenv_value (val : string) : string :=
  let val := TrimSpace val in
  match stripQuotes val with
  | (unquoted, true) => unquoted
  | (_, false) => match CutByte "#" val with
                  | Some (before, _) => TrimSpace before
                  | None => val
                  end
  end.

Section quoting.
Context `{Unicode}.

(** One line of the file, its number and its raw text. *)
Definition dotenv_line (lineNo : nat) (text : string) (out : gmap string string)
    : result string (gmap string string) :=
  let line := TrimSpace text in
  if String.eqb line "" || HasPrefix line "#" then Ok out
  else
    let line := TrimPrefix line "export " in
    match CutByte "=" line with
    | None => Err ("line " +:+ Itoa (Z.of_nat lineNo) +:+ ": " +:+ Quote text +:+ " has no '='")
    | Some (key, val) =>
        let key := TrimSpace key in
        if String.eqb key "" then Err ("line " +:+ Itoa (Z.of_nat lineNo) +:+ ": empty key")
        else Ok (<[key := dotenv_value val]> out)
    end.

Fixpoint dotenv_lines (lineNo : nat) (lines : list string) (out : gmap string string)
    : result string (gmap string string) :=
  match lines with
  | [] => Ok out
  | raw :: lines' =>
      if MaxScanTokenSize <=? len raw then Err "bufio.Scanner: token too long"
      else out ← dotenv_line lineNo (drop_cr raw) out; dotenv_lines (S lineNo) lines' out
  end.

(** [parseDotenv] on what a reader delivers before it ends or fails. *)
Definition parseDotenv (text : string) (read_error : option string)
    : result string (gmap string string) :=
  out ← dotenv_lines 1 (scan_lines text) ∅;
  match read_error with
  | Some err => Err err
  | None => Ok out
  end.
End quoting.

(** ** Command-line flags *)

Definition byFlag : list (string * string) :=
  [("addr", KeyAddr); ("debug", KeyDebug); ("log-format", KeyLogFormat);
   ("log-level", KeyLogLevel); ("modules", KeyModules);
   ("read-header-timeout", KeyReadHeaderTimeout);
   ("shutdown-timeout", KeyShutdownTimeout); ("trusted-proxies", KeyTrustedProxies)].

(** The set [flagSource.values] builds: one flag is boolean, the others take any
    text. *)
Definition settings_flags : formal :=
  list_to_map (map (λ '(name, key), (name, if String.eqb key KeyDebug then BoolFlag else StringFlag)) byFlag).

(** [fs.Visit]: the keys of the flags that were actually set. *)
Definition keyed (set : actual) : gmap string string :=
  list_to_map (omap (λ '(name, key), pair key <$> set !! name) byFlag).

(** ** Sources *)

(** What opening and reading a path comes to. *)
Inductive file :=
| Missing
| Unopenable (err : string)
| Contents (text : string) (read_error : option string).

Inductive Source :=
| DefaultsSource
| EnvSource (lookup : gmap string string)
| FileSource (path : string) (required : bool)
| FlagSource (args : list string).

Definition FromFile (path : string) : Source := FileSource path false.
Definition FromRequiredFile (path : string) : Source := FileSource path true.
Definition FromFlags (args : list string) : Source := FlagSource args.

(** [OSEnv] over [os.Environ()]; a later entry for a key wins. *)
Fixpoint OSEnv_from (environ : list string) (out : gmap string string) : gmap string string :=
  match environ with
  | [] => out
  | kv :: environ' =>
      OSEnv_from environ'
        (match CutByte "=" kv with Some (k, v) => <[k := v]> out | None => out end)
  end.
Definition OSEnv (environ : list string) : gmap string string := OSEnv_from environ ∅.

Definition FromEnv (environ : list string) (lookup : option (gmap string string)) : Source :=
  EnvSource (default (OSEnv environ) lookup).

(** [args] is [os.Args[1:]]. *)
Definition Standard (environ args : list string) : list Source :=
  [FromFile ".env"; FromEnv environ None; FromFlags args].

Definition source_name (s : Source) : string :=
  match s with
  | DefaultsSource => "defaults"
  | EnvSource _ => "env"
  | FileSource path _ => "file " +:+ path
  | FlagSource _ => "flag"
  end.

Definition claimed (kv : gmap string string) : gmap string string :=
  filter (λ '(k, _), HasPrefix k keyPrefix = true) kv.

Section loading.
Context `{Unicode}.
Context (open : string → file).

Definition values (s : Source) : result config_error (gmap string string) :=
  match s with
  | DefaultsSource => Ok ∅
  | EnvSource lookup => Ok (claimed lookup)
  | FileSource path required =>
      match open path with
      | Missing => if required then Err (ErrBadFile path "file does not exist") else Ok ∅
      | Unopenable err => Err (ErrBadFile path err)
      | Contents text read_error =>
          match parseDotenv text read_error with
          | Err err => Err (ErrBadFile path err)
          | Ok kv => Ok (claimed kv)
          end
      end
  | FlagSource args =>
      match Parse settings_flags args ∅ with
      | (Bad detail, _) => Err (BadFlags detail)
      | (_, set) => Ok (keyed set)
      end
  end.

(** ** Resolution *)

Record Resolved := { resolved_values : gmap string string; resolved_sources : gmap string string }.

Definition Get (r : Resolved) (key : string) : option string := resolved_values r !! key.

Definition SourceOf (r : Resolved) (key : string) : string :=
  match resolved_sources r !! key with
  | Some s => s
  | None => if existsb (String.eqb key) knownKeys then "default" else ""
  end.

Definition resolved_line (r : Resolved) (k : string) : string :=
  pad_right 28 k +:+ " " +:+ pad_right 24 (default "(default)" (Get r k))
  +:+ " [" +:+ SourceOf r k +:+ "]" +:+ newline.
Definition resolved_String (r : Resolved) : string :=
  String.concat "" (map (resolved_line r) (sort_by str_leb knownKeys)).

Fixpoint commonPrefixLen (a b : string) : nat :=
  match a, b with
  | String x a', String y b' => if Ascii.eqb x y then S (commonPrefixLen a' b') else 0
  | _, _ => 0
  end.

Definition suggest (key : string) : string :=
  let '(best, bestScore) :=
    foldl (λ '(best, bestScore) k,
             let n := commonPrefixLen k key in
             if (bestScore <? n)%nat then (k, n) else (best, bestScore)) ("", 0%nat) knownKeys in
  if String.eqb best "" || (bestScore <=? String.length keyPrefix)%nat then ""
  else ", did you mean " +:+ best +:+ "?".

(** The keys of one layer, in order, onto the result so far. *)
Fixpoint resolve_keys (name : string) (keys : list (string * string)) (r : Resolved)
    : result config_error Resolved :=
  match keys with
  | [] => Ok r
  | (k, v) :: keys' =>
      if negb (existsb (String.eqb k) knownKeys) then Err (ErrUnknownKey k name (suggest k))
      else resolve_keys name keys'
             {| resolved_values := <[k := v]> (resolved_values r);
                resolved_sources := <[k := name]> (resolved_sources r) |}
  end.

Definition sorted_pairs (m : gmap string string) : list (string * string) :=
  sort_by (λ a b, str_leb a.1 b.1) (map_to_list m).

Fixpoint resolve_layers (sources : list Source) (r : Resolved) : result config_error Resolved :=
  match sources with
  | [] => Ok r
  | s :: sources' =>
      vals ← values s;
      r ← resolve_keys (source_name s) (sorted_pairs vals) r;
      resolve_layers sources' r
  end.

Definition Resolve (sources : list Source) : result config_error Resolved :=
  match sources with
  | [] => Err ErrNoSources
  | _ => resolve_layers sources {| resolved_values := ∅; resolved_sources := ∅ |}
  end.

End loading.

(** ** Durations *)

(** [time]'s units, in nanoseconds; the micro sign may be U+00B5 or U+03BC. *)
Definition unitMap : list (string * Z) :=
  [("ns", 1); ("us", 1000); (String "194" (String "181" "s"), 1000);
   (String "206" (String "188" "s"), 1000); ("ms", 1000000);
   ("s", 1000000000); ("m", 60000000000); ("h", 3600000000000)].

Definition two63 : Z := 2 ^ 63.

(** [leadingInt]: digits while the value stays within [1<<63]. *)
Fixpoint leadingInt (x : Z) (s : string) : option (Z * string) :=
  match s with
  | String c s' =>
      if is_digit c then
        if two63 / 10 <? x then None
        else let x := x * 10 + (byte c - 48) in
             if two63 <? x then None else leadingInt x s'
      else Some (x, s)
  | "" => Some (x, s)
  end.

(** [leadingFraction]: digits beyond what fits are read and ignored.  The scale is
    a power of ten, kept exactly: [float64] holds powers of ten up to 10^22, more
    than the nineteen digits that can count. *)
Fixpoint leadingFraction (x scale : Z) (overflow : bool) (s : string) : Z * Z * string :=
  match s with
  | String c s' =>
      if is_digit c then
        if overflow then leadingFraction x scale true s'
        else if (two63 - 1) / 10 <? x then leadingFraction x scale true s'
        else let y := x * 10 + (byte c - 48) in
             if two63 <? y then leadingFraction x scale true s'
             else leadingFraction y (scale * 10) false s'
      else (x, scale, s)
  | "" => (x, scale, s)
  end.

(** [float64(z)] for [0 <= z], and [uint64(f)] of a non-negative finite [f]. *)
Definition float64 (z : Z) : spec_float := binary_normalize 53 1024 z 0 false.
Definition truncate (f : spec_float) : Z :=
  match f with
  | S754_finite _ m e => if 0 <=? e then Zpos m * 2 ^ e else Zpos m / 2 ^ (- e)
  | _ => 0
  end.
Definition fraction_of (f unit scale : Z) : Z :=
  truncate (SFmul 53 1024 (float64 f) (SFdiv 53 1024 (float64 unit) (float64 scale))).

Fixpoint unit_span (s : string) : string * string :=
  match s with
  | String c s' => if Ascii.eqb c "." || is_digit c then ("", s)
                   else let '(u, r) := unit_span s' in (String c u, r)
  | "" => ("", "")
  end.

(** One [number unit] group: its value, and what follows it. *)
Definition duration_group (s : string) : option (Z * string) :=
  if negb (match s with String c _ => Ascii.eqb c "." || is_digit c | "" => false end) then None
  else
    '(v, s1) ← leadingInt 0 s;
    let pre := negb (String.length s1 =? String.length s)%nat in
    let '(f, scale, s2, post) :=
      match s1 with
      | String "." s1' =>
          let '(f, scale, s2) := leadingFraction 0 1 false s1' in
          (f, scale, s2, negb (String.length s2 =? String.length s1')%nat)
      | _ => (0, 1, s1, false)
      end in
    if negb pre && negb post then None
    else
      let '(u, s3) := unit_span s2 in
      if String.eqb u "" then None
      else
        unit ← (list_to_map unitMap : gmap string Z) !! u;
        if two63 / unit <? v then None
        else
          let v := v * unit in
          let v := if 0 <? f then v + fraction_of f unit scale else v in
          if two63 <? v then None else Some (v, s3).

(** The groups; each consumes at least one byte. *)
Fixpoint duration_groups (fuel : nat) (d : Z) (s : string) : option Z :=
  match fuel, s with
  | _, "" => Some d
  | O, _ => None
  | S fuel', _ =>
      '(v, s') ← duration_group s;
      if two63 <? d + v then None else duration_groups fuel' (d + v) s'
  end.

(** [time.ParseDuration]. *)
Definition ParseDuration (s : string) : option Z :=
  let '(neg, s) := match s with
                   | String "-" s' => (true, s')
                   | String "+" s' => (false, s')
                   | _ => (false, s)
                   end in
  if String.eqb s "0" then Some 0
  else if String.eqb s "" then None
  else
    d ← duration_groups (String.length s) 0 s;
    if neg then Some (- d) else if two63 - 1 <? d then None else Some d.

(** ** Options *)

(** The settable fields; [Logger] and [DB] are values the caller passes through
    and no layer sets. *)
Record Options := {
  Addr : string; Modules : list string; Debug : bool;
  LogFormat : string; LogLevel : string;
  ShutdownTimeout : Z; ReadHeaderTimeout : Z;
  TrustedProxies : list string;
}.

Definition DefaultAddr := ":8080".
Definition DefaultShutdownTimeout : Z := 15 * 1000000000.
Definition DefaultReadHeaderTimeout : Z := 10 * 1000000000.
Definition DefaultLogFormat := "json".
Definition DefaultLogLevel := "info".

Definition or_default (v d : string) : string := if String.eqb v "" then d else v.

Definition WithDefaults (o : Options) : Options :=
  {| Addr := or_default (Addr o) DefaultAddr; Modules := Modules o; Debug := Debug o;
     LogFormat := or_default (LogFormat o) DefaultLogFormat;
     LogLevel := or_default (LogLevel o) DefaultLogLevel;
     ShutdownTimeout := if ShutdownTimeout o =? 0 then DefaultShutdownTimeout else ShutdownTimeout o;
     ReadHeaderTimeout := if ReadHeaderTimeout o =? 0 then DefaultReadHeaderTimeout else ReadHeaderTimeout o;
     TrustedProxies := TrustedProxies o |}.

Definition splitList (s : string) : list string :=
  List.filter (λ part, negb (String.eqb part "")) (map TrimSpace (SplitByte "," s)).

Section load.
Context `{Unicode}.
Context (open : string → file).

(** One setting: absent, or parsed, or the error that names it. *)
Definition setting {A} (r : Resolved) (key : string) (absent : A) (parse : string → result string A)
    : result config_error A :=
  match Get r key with
  | None => Ok absent
  | Some v => match parse v with
              | Ok x => Ok x
              | Err want => Err (ErrInvalidValue key v (SourceOf r key) want)
              end
  end.

Definition parse_debug (v : string) : result string bool :=
  match ParseBool v with Some b => Ok b | None => Err "a boolean (true, false, 1, 0)" end.
Definition parse_timeout (v : string) : result string Z :=
  match ParseDuration v with
  | None => Err ("a duration such as " +:+ dq +:+ "15s" +:+ dq +:+ " or " +:+ dq +:+ "1m30s" +:+ dq)
  | Some d => if d <? 0 then Err "a non-negative duration" else Ok d
  end.
Definition one_of (allowed : list string) (want : string) (v : string) : result string string :=
  if existsb (String.eqb v) allowed then Ok v else Err want.

Definition quoted (s : string) : string := dq +:+ s +:+ dq.
Definition parse_format : string → result string string :=
  one_of ["json"; "text"] (quoted "json" +:+ " or " +:+ quoted "text").
Definition parse_level : string → result string string :=
  one_of ["debug"; "info"; "warn"; "error"]
    (quoted "debug" +:+ ", " +:+ quoted "info" +:+ ", " +:+ quoted "warn" +:+ ", or " +:+ quoted "error").

Definition Load (sources : list Source) : result config_error Options :=
  r ← Resolve open sources;
  addr ← setting r KeyAddr "" Ok;
  modules ← setting r KeyModules [] (λ v, Ok (splitList v));
  proxies ← setting r KeyTrustedProxies [] (λ v, Ok (splitList v));
  debug ← setting r KeyDebug false parse_debug;
  shutdown ← setting r KeyShutdownTimeout 0 parse_timeout;
  header ← setting r KeyReadHeaderTimeout 0 parse_timeout;
  format ← setting r KeyLogFormat "" parse_format;
  level ← setting r KeyLogLevel "" parse_level;
  Ok (WithDefaults {| Addr := addr; Modules := modules; Debug := debug; LogFormat := format;
                      LogLevel := level; ShutdownTimeout := shutdown; ReadHeaderTimeout := header;
                      TrustedProxies := proxies |}).
End load.
