(* ===== verification/ConfigSpec.v ===== *)
(** * Settings: correctness

    The last layer that sets a key decides it and is named as its source; loading
    yields usable options or names the setting at fault; and files and flags
    written the documented way read back. *)

From Stdlib Require Import Floats.SpecFloat.
From S2P Require Import Prelude GoStrings Flag Config.

#[local] Open Scope Z_scope.

(** ** Layers *)

(** The last of the layers, in order, that supplies a key. *)
Fixpoint winner (k : string) (layers : list (Source * gmap string string)) : option (string * string) :=
  match layers with
  | [] => None
  | (s, vals) :: layers' =>
      match winner k layers' with
      | Some w => Some w
      | None => v ← vals !! k; Some (v, source_name s)
      end
  end.

Definition known_only (vals : gmap string string) : Prop := ∀ k, is_Some (vals !! k) → k ∈ knownKeys.

Lemma known_spec k : existsb (String.eqb k) knownKeys = true ↔ k ∈ knownKeys.
Proof.
  rewrite existsb_exists. split.
  - intros (x & Hx & ->%String.eqb_eq). by apply list_elem_of_In.
  - intros H. exists k. rewrite String.eqb_refl. split; [by apply list_elem_of_In|done].
Qed.

Lemma resolve_keys_spec name keys r :
  match resolve_keys name keys r with
  | Ok r' =>
      Forall (λ kv, kv.1 ∈ knownKeys) keys
      ∧ resolved_values r' = foldl (λ m kv, <[kv.1 := kv.2]> m) (resolved_values r) keys
      ∧ resolved_sources r' = foldl (λ m kv, <[kv.1 := name]> m) (resolved_sources r) keys
  | Err e => ∃ k, e = ErrUnknownKey k name (suggest k) ∧ k ∈ map fst keys ∧ k ∉ knownKeys
  end.
Proof.
  revert r; induction keys as [|[k v] keys IH]; intros r; cbn [resolve_keys]; [by split_and!|].
  destruct (existsb (String.eqb k) knownKeys) eqn:E; cbn [negb].
  - apply known_spec in E.
    match goal with |- context [resolve_keys name keys ?r1] => specialize (IH r1) end.
    destruct (resolve_keys _ _ _) as [r'|e].
    + destruct IH as (Hf & Hv & Hs). split_and!; [by constructor|done|done].
    + destruct IH as (k' & -> & Hk & Hn). exists k'. split_and!; [done|set_solver|done].
  - exists k. split_and!; [done|set_solver|]. intros H%known_spec. congruence.
Qed.

Lemma foldl_insert_lookup {A} (f : string * string → A) keys (m : gmap string A) k :
  NoDup (map fst keys) →
  foldl (λ m kv, <[kv.1 := f kv]> m) m keys !! k =
  match (list_to_map keys : gmap string string) !! k with
  | Some v => Some (f (k, v))
  | None => m !! k
  end.
Proof.
  revert m; induction keys as [|[k' v] keys IH]; intros m Hnd; cbn [foldl list_to_map foldr].
  - by rewrite lookup_empty.
  - cbn [map fst] in Hnd. apply NoDup_cons in Hnd as [Hk Hnd]. rewrite IH by done.
    destruct (decide (k' = k)) as [->|Hne].
    + rewrite not_elem_of_list_to_map_1 by done. cbn. by rewrite !lookup_insert_eq.
    + cbn. by rewrite !lookup_insert_ne by done.
Qed.

Lemma sorted_pairs_spec vals :
  NoDup (map fst (sorted_pairs vals)) ∧ list_to_map (sorted_pairs vals) = vals
  ∧ ∀ k, k ∈ map fst (sorted_pairs vals) ↔ is_Some (vals !! k).
Proof.
  unfold sorted_pairs.
  assert (Hp : sort_by (λ a b, str_leb a.1 b.1) (map_to_list vals) ≡ₚ map_to_list vals) by apply sort_by_perm.
  assert (Hnd : NoDup (map fst (sort_by (λ a b : string * string, str_leb a.1 b.1) (map_to_list vals)))).
  { rewrite Hp. apply NoDup_fst_map_to_list. }
  split_and!; [done| |].
  - rewrite <-(list_to_map_to_list vals) at 2. by apply list_to_map_proper.
  - intros k. rewrite list_elem_of_fmap. split.
    + intros ([k' v] & -> & H). rewrite Hp in H. apply elem_of_map_to_list in H. eauto.
    + intros [v Hv]. exists (k, v). rewrite Hp. split; [done|]. by apply elem_of_map_to_list.
Qed.

Section resolve.
Context `{Unicode}.
Context (open : string → file).

(** What one layer adds to a result. *)
Definition merged (s : Source) (vals : gmap string string) (r r' : Resolved) : Prop :=
  ∀ k, (Get r' k, resolved_sources r' !! k) =
    match vals !! k with
    | Some v => (Some v, Some (source_name s))
    | None => (Get r k, resolved_sources r !! k)
    end.

Lemma resolve_layer_ok s vals r r' :
  resolve_keys (source_name s) (sorted_pairs vals) r = Ok r' → known_only vals ∧ merged s vals r r'.
Proof.
  intros Hr. pose proof (resolve_keys_spec (source_name s) (sorted_pairs vals) r) as Hs. rewrite Hr in Hs.
  destruct Hs as (Hf & Hv & Hsrc). destruct (sorted_pairs_spec vals) as (Hnd & Hm & Hk). split.
  - intros k Hs. apply Hk, list_elem_of_fmap in Hs as (kv & -> & Hin).
    rewrite Forall_forall in Hf. by apply Hf.
  - intros k. unfold Get.
    rewrite Hv, Hsrc, (foldl_insert_lookup (λ kv, kv.2)), (foldl_insert_lookup (λ _, source_name s)) by done.
    rewrite Hm. by destruct (vals !! k).
Qed.

Lemma resolve_layer_total s vals r :
  known_only vals → ∃ r', resolve_keys (source_name s) (sorted_pairs vals) r = Ok r'.
Proof.
  intros Hk. pose proof (resolve_keys_spec (source_name s) (sorted_pairs vals) r) as Hs.
  destruct (resolve_keys _ _ _) as [r'|e]; [by eexists|].
  destruct Hs as (k & _ & Hin & Hn). destruct Hn. by apply Hk, sorted_pairs_spec.
Qed.

Definition layered (sources : list Source) (layers : list (gmap string string)) : Prop :=
  Forall2 (λ s vals, values open s = Ok vals ∧ known_only vals) sources layers.

Lemma resolve_layers_ok sources r r' :
  resolve_layers open sources r = Ok r' →
  ∃ layers, layered sources layers ∧
    ∀ k, (Get r' k, resolved_sources r' !! k) =
      match winner k (zip sources layers) with
      | Some (v, name) => (Some v, Some name)
      | None => (Get r k, resolved_sources r !! k)
      end.
Proof.
  revert r; induction sources as [|s sources IH]; intros r; cbn [resolve_layers].
  - intros [= <-]. exists []. split; [constructor|done].
  - intros (vals & Hv & Hk)%result_bind_ok. apply result_bind_ok in Hk as (r1 & Hr1 & Hrest).
    apply resolve_layer_ok in Hr1 as [Hknown Hm]. destruct (IH r1 Hrest) as (layers & Hl & Hw).
    exists (vals :: layers). split; [by constructor|]. intros k. cbn [zip zip_with winner].
    rewrite Hw, Hm. change (zip_with pair sources layers) with (zip sources layers).
    destruct (winner k (zip sources layers)) as [[v name]|]; [done|]. by destruct (vals !! k).
Qed.

Lemma resolve_layers_total sources layers r :
  layered sources layers → ∃ r', resolve_layers open sources r = Ok r'.
Proof.
  intros Hl. revert r; induction Hl as [|s vals sources layers [Hv Hk] _ IH]; intros r; cbn [resolve_layers].
  - by eexists.
  - rewrite Hv. cbn [mbind result_bind]. destruct (resolve_layer_total s vals r Hk) as [r1 ->].
    cbn [mbind result_bind]. apply IH.
Qed.

(** Settings resolve in layers.  [Resolve] succeeds exactly when there is a
    source, every source can be read and none supplies an unknown key; then every
    setting has the value of the last source that supplies it and reports that
    source as its origin, a known setting no source supplies reports "default", and
    an unknown name reports nothing. *)
Theorem Resolve_layers sources :
  (∀ r, Resolve open sources = Ok r →
     ∃ layers, layered sources layers ∧
       ∀ k, match winner k (zip sources layers) with
            | Some (v, name) => Get r k = Some v ∧ SourceOf r k = name
            | None => Get r k = None ∧ SourceOf r k = if existsb (String.eqb k) knownKeys then "default" else ""
            end)
  ∧ (∀ layers, sources ≠ [] → layered sources layers → ∃ r, Resolve open sources = Ok r).
Proof.
  split.
  - intros r. unfold Resolve. destruct sources as [|s sources]; [done|].
    intros (layers & Hl & Hw)%resolve_layers_ok. exists layers. split; [done|]. intros k.
    specialize (Hw k). unfold SourceOf. cbn [Get resolved_values resolved_sources] in Hw.
    destruct (winner k _) as [[v name]|]; injection Hw as -> ->; rewrite ?lookup_empty; done.
  - intros layers Hne Hl. unfold Resolve. destruct sources; [done|]. by apply (resolve_layers_total _ layers).
Qed.

(** ** Loading *)

Lemma leadingInt_bound x s v s' : 0 <= x <= two63 → leadingInt x s = Some (v, s') → 0 <= v <= two63.
Proof.
  revert x; induction s as [|c s IH]; intros x Hx; cbn; [intros [= <- _]; lia|].
  destruct (is_digit c) eqn:Ed; [|intros [= <- _]; lia].
  destruct (two63 / 10 <? x); [done|]. destruct (two63 <? _) eqn:E; [done|]. apply Z.ltb_ge in E.
  apply IH. unfold is_digit, in_range in Ed. boolify. lia.
Qed.

Lemma fraction_nonneg f unit scale : 0 <= fraction_of f unit scale ∨ fraction_of f unit scale = 0.
Proof.
  unfold fraction_of, truncate. left. destruct (SFmul _ _ _ _); try lia.
  destruct (0 <=? e) eqn:E; [|apply Z.div_pos; [lia|]; apply Z.leb_gt in E; apply Z.pow_pos_nonneg; lia].
  apply Z.leb_le in E. apply Z.mul_nonneg_nonneg; [lia|]. apply Z.pow_nonneg. lia.
Qed.

Lemma duration_group_bound s v s' : duration_group s = Some (v, s') → 0 <= v <= two63.
Proof.
  unfold duration_group. destruct (negb _); [done|].
  destruct (leadingInt 0 s) as [[v0 s1]|] eqn:El; [|done]. cbn [mbind option_bind].
  apply leadingInt_bound in El; [|unfold two63; lia].
  destruct (match s1 with String "." s1' => _ | _ => _ end) as [[[f scale] s2] post].
  destruct (negb _ && negb post); [done|].
  destruct (unit_span s2) as [u s3]. destruct (String.eqb u ""); [done|].
  destruct ((list_to_map unitMap : gmap string Z) !! u) as [unit|] eqn:Eu; [|done]. cbn [mbind option_bind].
  assert (Hu : 0 < unit).
  { apply elem_of_list_to_map_2 in Eu. unfold unitMap in Eu.
    repeat (apply elem_of_cons in Eu as [[= _ ->]|Eu]; [lia|]). by apply elem_of_nil in Eu. }
  destruct (two63 / unit <? v0) eqn:Ev; [done|]. destruct (two63 <? _) eqn:E2; [done|].
  intros [= <- _]. apply Z.ltb_ge in E2. split; [|done].
  destruct (0 <? f); [|nia]. destruct (fraction_nonneg f unit scale); nia.
Qed.

Lemma duration_groups_bound fuel d s r :
  0 <= d <= two63 → duration_groups fuel d s = Some r → 0 <= r <= two63.
Proof.
  revert d s; induction fuel as [|fuel IH]; intros d s Hd; cbn [duration_groups].
  - destruct s; [by intros [= <-]|done].
  - destruct s as [|c s]; [by intros [= <-]|].
    destruct (duration_group _) as [[v s']|] eqn:E; [|done]. cbn [mbind option_bind].
    apply duration_group_bound in E. destruct (two63 <? _) eqn:E2; [done|]. apply Z.ltb_ge in E2.
    apply IH. lia.
Qed.

(** Every duration that parses fits in Go's [time.Duration]. *)
Lemma ParseDuration_bounds s d : ParseDuration s = Some d → - 2 ^ 63 <= d <= 2 ^ 63 - 1.
Proof.
  unfold ParseDuration.
  destruct (match s with String "-" s' => _ | String "+" s' => _ | _ => _ end) as [neg s1].
  destruct (String.eqb s1 "0"); [intros [= <-]; lia|]. destruct (String.eqb s1 ""); [done|].
  destruct (duration_groups _ 0 s1) as [x|] eqn:E; [|done]. cbn [mbind option_bind].
  apply duration_groups_bound in E; [|unfold two63; lia]. unfold two63 in E.
  destruct neg; [intros [= <-]; lia|]. destruct (two63 - 1 <? x) eqn:E2; [done|].
  apply Z.ltb_ge in E2. unfold two63 in E2. intros [= <-]. lia.
Qed.

Lemma setting_ok {A} r key (absent : A) parse x :
  setting r key absent parse = Ok x →
  match Get r key with None => x = absent | Some v => parse v = Ok x end.
Proof. unfold setting. destruct (Get r key); [|by intros [= <-]]. by destruct (parse _); intros [= <-]. Qed.

Lemma setting_err {A} r key (absent : A) parse e :
  setting r key absent parse = Err e →
  ∃ v want, Get r key = Some v ∧ parse v = Err want ∧ e = ErrInvalidValue key v (SourceOf r key) want.
Proof.
  unfold setting. destruct (Get r key) as [v|]; [|done]. destruct (parse v) as [x|want] eqn:E; [done|].
  intros [= <-]. by exists v, want.
Qed.

Lemma parse_timeout_ok v d : parse_timeout v = Ok d → 0 <= d <= 2 ^ 63 - 1 ∧ ParseDuration v = Some d.
Proof.
  unfold parse_timeout. destruct (ParseDuration v) as [x|] eqn:E; [|done].
  destruct (x <? 0) eqn:En; [done|]. intros [= <-]. apply Z.ltb_ge in En.
  apply ParseDuration_bounds in E. split; [lia|done].
Qed.

Lemma one_of_ok allowed want v x : one_of allowed want v = Ok x → x = v ∧ v ∈ allowed.
Proof.
  unfold one_of. destruct (existsb _ _) eqn:E; [|done]. intros [= <-]. split; [done|].
  apply existsb_exists in E as (y & Hy & ->%String.eqb_eq). by apply list_elem_of_In.
Qed.

Lemma splitList_entries v : Forall (λ e, e ≠ "") (splitList v).
Proof.
  apply Forall_forall. intros e He. unfold splitList in He.
  apply elem_of_filter_bool in He as [_ He]. by apply negb_true_iff, String.eqb_neq in He.
Qed.

End resolve.

#[local] Existing Instance identity_tables.

Definition example_sources : list Source :=
  [FromFile ".env";
   EnvSource {[ KeyModules := "api, admin,"; KeyLogLevel := "warn"; "PATH" := "/bin" ]};
   FromFlags ["--log-level=debug"; "-shutdown-timeout"; "1m30s"]].
Definition no_files : string → file := λ _, Missing.

Lemma known_only_check vals :
  forallb (λ kv, existsb (String.eqb kv.1) knownKeys) (map_to_list vals) = true → known_only vals.
Proof.
  intros H k [v Hv]. rewrite forallb_forall in H. apply known_spec, (H (k, v)).
  by apply list_elem_of_In, elem_of_map_to_list.
Qed.

Lemma Resolve_layers_witness :
  ∃ r, Resolve no_files example_sources = Ok r ∧ Get r KeyLogLevel = Some "debug" ∧ SourceOf r KeyLogLevel = "flag".
Proof.
  destruct (proj2 (Resolve_layers no_files example_sources)
              [∅; {[ KeyModules := "api, admin,"; KeyLogLevel := "warn" ]};
               {[ KeyLogLevel := "debug"; KeyShutdownTimeout := "1m30s" ]}]) as [r Hr].
  - discriminate.
  - repeat (apply Forall2_cons; split; [split; [vm_compute; reflexivity|apply known_only_check; vm_compute; reflexivity]|]).
    apply Forall2_nil. exact I.
  - exists r. split; [exact Hr|]. vm_compute in Hr. injection Hr as <-. split; vm_compute; reflexivity.
Defined.


(** ** Files written the documented way *)

(** A printable ASCII character that is not a space. *)
Definition visible (c : ascii) : bool := in_range 33 126 c.

Lemma visible_not_space c d e :
  visible c = true →
  space1 c = false ∧ space2 c d = false ∧ space2 d c = false ∧ space3 c d e = false ∧ space3 e d c = false.
Proof.
  unfold visible, space1, space2, space3, in_range. rewrite andb_true_iff, !Z.leb_le. intros [H1 H2].
  rewrite !(proj2 (Z.leb_gt (byte c) 13)), !(proj2 (Z.eqb_neq (byte c) _)) by lia.
  rewrite (proj2 (Z.leb_gt 128 (byte c))) by lia. cbn. by rewrite ?andb_false_r, ?orb_false_r.
Qed.

Lemma trim_space_left_visible c s : visible c = true → trim_space_left (String c s) = String c s.
Proof.
  intros Hc. cbn [trim_space_left]. destruct s as [|d [|e s]];
    rewrite (proj1 (visible_not_space c "000" "000" Hc)); [done| |].
  - by rewrite (proj1 (proj2 (visible_not_space c d "000" Hc))).
  - rewrite (proj1 (proj2 (visible_not_space c d e Hc))).
    by rewrite (proj1 (proj2 (proj2 (proj2 (visible_not_space c d e Hc))))).
Qed.

Lemma trim_space_rev_visible c s : visible c = true → trim_space_rev (String c s) = String c s.
Proof.
  intros Hc. cbn [trim_space_rev]. destruct s as [|d [|e s]];
    rewrite (proj1 (visible_not_space c "000" "000" Hc)); [done| |].
  - by rewrite (proj1 (proj2 (proj2 (visible_not_space c d "000" Hc)))).
  - rewrite (proj1 (proj2 (proj2 (visible_not_space c d e Hc)))).
    by rewrite (proj2 (proj2 (proj2 (proj2 (visible_not_space c d e Hc))))).
Qed.

Lemma string_rev_app a b : string_rev (a +:+ b) = string_rev b +:+ string_rev a.
Proof.
  unfold string_rev.
  assert (Hl : ∀ x y, list_ascii_of_string (x +:+ y) = list_ascii_of_string x ++ list_ascii_of_string y).
  { induction x as [|c x IH]; intros y; [done|]. cbn. by rewrite IH. }
  assert (Hs : ∀ x y, string_of_list_ascii (x ++ y) = string_of_list_ascii x +:+ string_of_list_ascii y).
  { induction x as [|c x IH]; intros y; [done|]. cbn. by rewrite IH. }
  by rewrite Hl, rev_app_distr, Hs.
Qed.

(** Text that starts and ends with visible characters has nothing to trim. *)
Lemma TrimSpace_visible c s d :
  visible c = true → visible d = true → TrimSpace (String c (s +:+ String d "")) = String c (s +:+ String d "").
Proof.
  intros Hc Hd. unfold TrimSpace. rewrite trim_space_left_visible by done.
  change (String c (s +:+ String d "")) with (String c s +:+ String d "").
  rewrite string_rev_app. change (string_rev (String d "")) with (String d "").
  change (String d "" +:+ string_rev (String c s)) with (String d (string_rev (String c s))).
  rewrite trim_space_rev_visible by done.
  change (String d (string_rev (String c s))) with (string_rev (String d "") +:+ string_rev (String c s)).
  by rewrite <-string_rev_app, string_rev_involutive.
Qed.

Lemma TrimSpace_visible1 c : visible c = true → TrimSpace (String c "") = String c "".
Proof.
  intros Hc. unfold TrimSpace. rewrite trim_space_left_visible by done.
  change (string_rev (String c "")) with (String c ""). by rewrite trim_space_rev_visible.
Qed.

(** Characters of an environment variable's name. *)
Definition key_char (c : ascii) : bool := is_upper c || is_lower c || is_digit c || Ascii.eqb c "_".

Lemma key_char_visible c : key_char c = true → visible c = true ∧ Ascii.eqb c "=" = false ∧ Ascii.eqb c "#" = false ∧ Ascii.eqb c " " = false.
Proof.
  intros H. assert (Hall : forallb (λ n, let c := ascii_of_nat n in
    negb (key_char c) || (visible c && negb (Ascii.eqb c "=") && negb (Ascii.eqb c "#") && negb (Ascii.eqb c " ")))
    (seq 0 256) = true) by (vm_compute; done).
  rewrite forallb_forall in Hall. specialize (Hall (nat_of_ascii c)).
  cbv beta zeta in Hall. rewrite ascii_nat_embedding, H in Hall. cbn [negb orb] in Hall.
  rewrite !andb_true_iff, !negb_true_iff in Hall. destruct Hall as [[[? ?] ?] ?]; [|done].
  apply in_seq. pose proof (nat_ascii_bounded c). lia.
Qed.

Lemma TrimSpace_key k : k ≠ "" → string_forall key_char k = true → TrimSpace k = k.
Proof.
  intros Hne Hk. destruct k as [|c k]; [done|]. cbn in Hk. apply andb_true_iff in Hk as [Hc Hk].
  destruct (key_char_visible c Hc) as [Hv _].
  destruct (decide (k = "")) as [->|Hk0]; [by apply TrimSpace_visible1|].
  assert (∃ s d, k = s +:+ String d "") as (s & d & ->).
  { clear -Hk0. induction k as [|x k IH]; [done|]. destruct (decide (k = "")) as [->|Hne].
    - by exists "", x.
    - destruct (IH Hne) as (s & d & ->). by exists (String x s), d. }
  rewrite string_forall_app in Hk. apply andb_true_iff in Hk as [_ Hd]. cbn in Hd. rewrite andb_true_r in Hd.
  apply TrimSpace_visible; [done|]. exact (proj1 (key_char_visible _ Hd)).
Qed.

Lemma CutByte_key k v : string_forall key_char k = true → CutByte "=" (k +:+ String "=" v) = Some (k, v).
Proof.
  induction k as [|c k IH]; [done|]. cbn [string_forall]. intros [Hc Hk]%andb_true_iff.
  change (String c k +:+ String "=" v) with (String c (k +:+ String "=" v)). cbn [CutByte].
  rewrite (proj1 (proj2 (key_char_visible c Hc))), IH by done. done.
Qed.

(** [KEY="VALUE"]. *)
Definition dotenv_entry (kv : string * string) : string := kv.1 +:+ "=" +:+ dq +:+ kv.2 +:+ dq.

Definition newline_free (s : string) : bool := string_forall (λ c, negb (Ascii.eqb c "010")) s.

Definition entry_ok (kv : string * string) : Prop :=
  kv.1 ≠ "" ∧ string_forall key_char kv.1 = true ∧ newline_free kv.2 = true
  ∧ len (dotenv_entry kv) < MaxScanTokenSize.

Lemma stripQuotes_dq v : stripQuotes (dq +:+ v +:+ dq) = (v, true).
Proof.
  unfold dq. change (String quote_char "" +:+ v +:+ String quote_char "") with (String quote_char (v +:+ String quote_char "")).
  assert (Hr : string_rev (String quote_char (v +:+ String quote_char ""))
               = String quote_char (string_rev (String quote_char v))).
  { change (String quote_char (v +:+ String quote_char "")) with (String quote_char v +:+ String quote_char "").
    by rewrite string_rev_app. }
  assert (Hs : stripQuotes (String quote_char (v +:+ String quote_char ""))
               = (take_bytes (String.length (v +:+ String quote_char "") - 1) (v +:+ String quote_char ""), true)).
  { destruct (v +:+ String quote_char "") as [|c s] eqn:E; [by destruct v|].
    unfold stripQuotes. rewrite Hr. done. }
  rewrite Hs. f_equal. rewrite string_length_app. cbn [String.length].
  replace (String.length v + 1 - 1)%nat with (String.length v) by lia.
  clear. induction v as [|x v IH]; [done|]. cbn. f_equal. exact IH.
Qed.

Lemma drop_cr_quoted s : drop_cr (s +:+ dq) = s +:+ dq.
Proof.
  unfold drop_cr, HasSuffix. destruct (_ && _) eqn:E; [|done]. exfalso.
  rewrite string_length_app in E. cbn [String.length] in E.
  apply andb_true_iff in E as [_ E].
  replace (String.length s + String.length dq - 1)%nat with (String.length s) in E by (cbn; lia).
  assert (Hd : drop_bytes (String.length s) (s +:+ dq) = dq) by (clear; induction s; [done|by cbn]).
  rewrite Hd in E. done.
Qed.

Lemma dotenv_entry_shape kv : dotenv_entry kv = (kv.1 +:+ "=" +:+ dq +:+ kv.2) +:+ dq.
Proof. unfold dotenv_entry. by rewrite !string_app_assoc. Qed.

Lemma dotenv_line_entry `{Unicode} n kv out :
  entry_ok kv → dotenv_line n (dotenv_entry kv) out = Ok (<[kv.1 := kv.2]> out).
Proof.
  intros (Hne & Hk & _ & _). unfold dotenv_line.
  assert (Ht : TrimSpace (dotenv_entry kv) = dotenv_entry kv).
  { rewrite dotenv_entry_shape. destruct kv as [[|c k] v]; [done|]. cbn [fst snd] in *.
    cbn in Hk. apply andb_true_iff in Hk as [Hc _].
    change ((String c k +:+ "=" +:+ dq +:+ v) +:+ dq) with (String c ((k +:+ "=" +:+ dq +:+ v) +:+ String quote_char "")).
    apply TrimSpace_visible; [exact (proj1 (key_char_visible _ Hc))|done]. }
  rewrite Ht. clear Ht.
  destruct kv as [[|c k] v]; [done|]. cbn [fst snd] in *. unfold dotenv_entry. cbn [fst snd].
  pose proof Hk as Hk'. cbn in Hk'. apply andb_true_iff in Hk' as [Hc Hk'].
  destruct (key_char_visible c Hc) as (_ & _ & Hh & _).
  change (String c k +:+ "=" +:+ dq +:+ v +:+ dq) with (String c (k +:+ "=" +:+ dq +:+ v +:+ dq)).
  cbn [String.eqb HasPrefix].
  rewrite Ascii.eqb_sym, Hh. cbn [orb andb].
  assert (Hexp : HasPrefix (String c (k +:+ "=" +:+ dq +:+ v +:+ dq)) "export " = false).
  { destruct (HasPrefix _ _) eqn:E; [|done]. exfalso.
    apply HasPrefix_spec in E as [r Hr].
    assert (Hcut : CutByte "=" (String c k +:+ String "=" (dq +:+ v +:+ dq)) = Some (String c k, dq +:+ v +:+ dq))
      by (by apply CutByte_key).
    change (String c k +:+ String "=" (dq +:+ v +:+ dq)) with (String c (k +:+ "=" +:+ dq +:+ v +:+ dq)) in Hcut.
    rewrite Hr in Hcut. cbn in Hcut. destruct (CutByte "=" r) as [[a b]|]; cbn in Hcut; [|done].
    injection Hcut as _ <- _. vm_compute in Hk'. done. }
  unfold TrimPrefix. rewrite Hexp.
  change (String c (k +:+ "=" +:+ dq +:+ v +:+ dq)) with (String c k +:+ String "=" (dq +:+ v +:+ dq)).
  rewrite CutByte_key by done. rewrite TrimSpace_key by done. cbn [String.eqb].
  unfold dotenv_value.
  assert (Hq : TrimSpace (dq +:+ v +:+ dq) = dq +:+ v +:+ dq) by (by apply TrimSpace_visible).
  rewrite Hq, stripQuotes_dq. done.
Qed.

Lemma SplitByte_lines lines :
  Forall (λ l, newline_free l = true) lines →
  SplitByte "010" (String.concat "" (map (λ l, l +:+ newline) lines)) = lines ++ [""].
Proof.
  induction 1 as [|l lines Hl _ IH]; [done|].
  assert (Hc : String.concat "" (map (λ l, l +:+ newline) (l :: lines))
    = l +:+ String "010" (String.concat "" (map (λ l, l +:+ newline) lines))).
  { cbn [map String.concat]. destruct (map _ lines) eqn:E; cbn [String.concat].
    - done.
    - rewrite string_app_assoc. done. }
  rewrite Hc. clear Hc. unfold newline_free in Hl. induction l as [|c l IHl].
  - cbn [SplitByte String.append]. rewrite Ascii.eqb_refl, IH. done.
  - cbn [string_forall] in Hl. apply andb_true_iff in Hl as [Hcn Hl]. apply negb_true_iff in Hcn.
    change (String c l +:+ ?x) with (String c (l +:+ x)). cbn [SplitByte]. rewrite Hcn, (IHl Hl). done.
Qed.

Lemma entry_newline_free kv : entry_ok kv → newline_free (dotenv_entry kv) = true.
Proof.
  intros (_ & Hk & Hv & _). unfold newline_free, dotenv_entry in *. rewrite !string_forall_app.
  rewrite Hv. cbn. rewrite andb_true_r. eapply string_forall_impl; [|exact Hk].
  intros c Hc. apply key_char_visible in Hc as (Hc & _). unfold visible, in_range in Hc.
  destruct (Ascii.eqb_spec c "010") as [->|]; [done|done].
Qed.

(** A settings file reads back.  A file of lines [KEY="VALUE"] parses to exactly
    its entries, the last one for a key winning, whatever the values hold (spaces,
    [#], [=], quotes) short of a newline, and the values are taken verbatim. *)
Theorem dotenv_roundtrip `{Unicode} (kvs : list (string * string)) :
  Forall entry_ok kvs →
  parseDotenv (String.concat "" (map (λ l, l +:+ newline) (map dotenv_entry kvs))) None
  = Ok (foldl (λ m kv, <[kv.1 := kv.2]> m) ∅ kvs).
Proof.
  intros Hok. unfold parseDotenv, scan_lines.
  rewrite SplitByte_lines.
  2:{ apply Forall_map. eapply Forall_impl; [exact Hok|]. intros kv. apply entry_newline_free. }
  rewrite last_snoc, length_app, Nat.add_sub, take_app_length.
  assert (Hl : ∀ n out, dotenv_lines n (map dotenv_entry kvs) out
            = Ok (foldl (λ m kv, <[kv.1 := kv.2]> m) out kvs)).
  { induction Hok as [|kv kvs Hkv _ IH]; intros n out; [done|]. cbn [map dotenv_lines foldl].
    destruct (Hkv) as (_ & _ & _ & Hlen). rewrite (proj2 (Z.leb_gt _ _) Hlen).
    rewrite dotenv_entry_shape, drop_cr_quoted, <-dotenv_entry_shape, dotenv_line_entry by done.
    cbn [mbind result_bind]. apply IH. }
  rewrite Hl. done.
Qed.

Lemma dotenv_roundtrip_witness :
  parseDotenv (String.concat "" (map (λ l, l +:+ newline) (map dotenv_entry
    [("FABRIN_ADDR", ":9 # not a comment"); ("A", "it's = " +:+ dq); ("FABRIN_ADDR", "")]))) None
  = Ok (foldl (λ m kv, <[kv.1 := kv.2]> m) ∅
      [("FABRIN_ADDR", ":9 # not a comment"); ("A", "it's = " +:+ dq); ("FABRIN_ADDR", "")]).
Proof.
  apply dotenv_roundtrip. repeat (apply Forall_cons; split; [split_and!; vm_compute; [intros H; discriminate H|reflexivity..]|]).
  apply Forall_nil. exact I.
Defined.

(** A comment after a quoted value is not recognised as one: the value is cut at the
    [#] inside the quotes and keeps its opening quote. *)
Example quoted_value_with_comment :
  dotenv_value (" " +:+ dq +:+ "q#r" +:+ dq +:+ " # note") = dq +:+ "q".
Proof. vm_compute. reflexivity. Qed.

(** ** Command lines written the documented way *)

(** One argument of a command line: a settings flag with a text that its [Set]
    takes. *)
Definition flag_ok (kv : string * string) : Prop :=
  ∃ spec, settings_flags !! kv.1 = Some spec ∧ set_to spec kv.2 = Some kv.2.

Lemma settings_flag_name n spec : settings_flags !! n = Some spec → flag_name n.
Proof.
  intros H. apply elem_of_list_to_map_2 in H. unfold byFlag in H. cbn [map] in H.
  repeat (apply elem_of_cons in H as [[= -> _]|H]; [by split_and!|]). by apply elem_of_nil in H.
Qed.

(** A command line reads back.  Arguments [--name=value] for the settings flags
    are all taken, in order, the last one for a flag winning; parsing stops at the
    first argument that is not a flag, and what follows it is left to the
    subcommand, flags included; and whatever the arguments, only known settings are
    ever set. *)
Theorem flags_roundtrip (kvs : list (string * string)) (rest : list string) :
  Forall flag_ok kvs →
  match rest with [] => True | a :: _ => HasPrefix a "-" = false end →
  Parse settings_flags (map (λ kv, "--" +:+ kv.1 +:+ "=" +:+ kv.2) kvs ++ rest) ∅
    = (Parsed rest, foldl (λ m kv, <[kv.1 := kv.2]> m) ∅ kvs)
  ∧ ∀ args, known_only (keyed (snd (Parse settings_flags args ∅))).
Proof.
  intros Hk Hrest. split.
  - generalize (∅ : actual) as set. induction Hk as [|[n v] kvs (spec & Hs & Hv) _ IH]; intros set; cbn [map app foldl].
    + rewrite Parse_step. destruct rest as [|a rest]; [done|].
      cbn [parseOne]. rewrite Hrest. cbn [negb]. by rewrite orb_true_r.
    + cbn [fst snd] in *. rewrite Parse_step, (parseOne_written _ n v spec v); [apply IH| |done|done].
      by apply (settings_flag_name n spec).
  - intros args k [v Hv]. unfold keyed in Hv. apply elem_of_list_to_map_2 in Hv.
    apply list_elem_of_omap in Hv as ([name key] & Hin & Hk'). 
    destruct (_ !! name); [|done]. cbn in Hk'. injection Hk' as <- _.
    unfold byFlag in Hin. repeat (apply elem_of_cons in Hin as [[= _ ->]|Hin]; [vm_compute; set_solver|]).
    by apply elem_of_nil in Hin.
Qed.

Lemma flags_roundtrip_witness :
  Parse settings_flags ["--addr=:1"; "--debug=true"; "--addr=:2"; "migrate"; "-to"; "0003"] ∅
  = (Parsed ["migrate"; "-to"; "0003"], <["addr" := ":2"]> (<["debug" := "true"]> (<["addr" := ":1"]> ∅))).
Proof.
  apply (flags_roundtrip [("addr", ":1"); ("debug", "true"); ("addr", ":2")] ["migrate"; "-to"; "0003"]);
    [|reflexivity].
  repeat (apply Forall_cons; split; [eexists; split; reflexivity|]). apply Forall_nil. exact I.
Defined.

(** [Load] of no sources is an error, not the defaults. *)
Example Load_no_sources : Load no_files [] = Err ErrNoSources.
Proof. reflexivity. Qed.
