(* ===== verification/Cli.v ===== *)
(** * The command surface: src/cli/cli.go and the entry point of src/execute.go

    Commands, the dispatcher, interspersed flags, the near-miss suggestion; and
    [App.Execute]'s decision between serving, printing help and dispatching.  A
    command's [Flags] function is the flags it defines, and its [Run] sees their
    parsed values; both it and the writer act on a world of any type. *)

From S2P Require Import Prelude GoStrings Flag.

#[local] Open Scope Z_scope.

(** ** Edit distance *)

(** One round of the outer loop: the row for one more byte of [a].  [left] is
    [curr[j-1]], [diag] is [prev[j-1]], and the list is [prev] from [j] on. *)
Fixpoint distance_row (x : ascii) (left diag : Z) (above : list Z) (b : string) : list Z :=
  match b, above with
  | String y b', up :: above' =>
      let cost := if Ascii.eqb x y then 0 else 1 in
      let cell := Z.min (Z.min (up + 1) (left + 1)) (diag + cost) in
      cell :: distance_row x cell up above' b'
  | _, _ => []
  end.

(** Rows [i], [i+1], ... of the table, from row [i]. *)
Fixpoint distance_rows (i : Z) (a b : string) (prev : list Z) : list Z :=
  match a with
  | "" => prev
  | String x a' =>
      match prev with
      | diag :: above => distance_rows (i + 1) a' b ((i + 1) :: distance_row x (i + 1) diag above b)
      | [] => []
      end
  end.

(** [prev[j] = j]. *)
Definition first_row (b : string) : list Z := map Z.of_nat (seq 0 (S (String.length b))).

Definition distance (a b : string) : Z :=
  default 0 (last (distance_rows 0 a b (first_row b))).

(** [closest]. *)
Definition nearest (name : string) (candidates : list string) : string * Z :=
  foldl (λ '(best, bestDist) c,
           let d := distance name c in
           if (bestDist <? 0) || (d <? bestDist) then (c, d) else (best, bestDist)) ("", -1) candidates.
Definition closest (name : string) (candidates : list string) : option string :=
  let '(best, bestDist) := nearest name candidates in
  let limit := Z.max ((len name + 2) / 3) 1 in
  if (bestDist <? 0) || (limit <? bestDist) then None else Some best.

(** ** Interspersed flags *)

(** What comes before and after the first ["--"]. *)
Fixpoint split_terminator (args : list string) : list string * list string :=
  match args with
  | [] => ([], [])
  | a :: args' => if String.eqb a "--" then ([], args')
                  else let '(before, after) := split_terminator args' in (a :: before, after)
  end.

(** The loop of [parseInterspersed]; every round but the last takes an argument. *)
Fixpoint interspersed (fuel : nat) (f : formal) (args positional : list string) (set : actual)
    : result parse_end (list string) * actual :=
  match fuel with
  | O => (Ok positional, set)
  | S fuel' =>
      match Parse f args set with
      | (Parsed [], set) => (Ok positional, set)
      | (Parsed (p :: rest), set) => interspersed fuel' f rest (positional ++ [p]) set
      | (err, set) => (Err err, set)
      end
  end.

Definition parseInterspersed (f : formal) (args : list string) : result parse_end (list string) * actual :=
  let '(args, terminated) := split_terminator args in
  let '(r, set) := interspersed (S (length args)) f args [] ∅ in
  ((positional ← r; Ok (positional ++ terminated)), set).

(** ** Commands *)

Inductive cli_error :=
| DuplicateCommand (name : string)
| UnknownCommand (text : string)
| NoRun (name : string)
| BadFlags (name detail : string)
| WriteError (err : string)
| CommandFailed (err : string).

Section dispatch.
Context `{Unicode}.
Context {W : Type}.
(** [io.WriteString(out, s)]. *)
Context (write : string → W → option string * W).

Record Command := {
  cmd_name : string;
  cmd_short : string;
  cmd_flags : formal;  (** what [Flags] defines; nothing when it is nil *)
  cmd_defaults : string;  (** what [flag.PrintDefaults] prints of those *)
  cmd_run : option (actual → list string → W → option string * W);  (** nil is [None] *)
}.

Fixpoint checkDuplicates (seen : gset string) (cmds : list Command) : option cli_error :=
  match cmds with
  | [] => None
  | c :: cmds' =>
      if bool_decide (cmd_name c ∈ seen) then Some (DuplicateCommand (cmd_name c))
      else checkDuplicates ({[cmd_name c]} ∪ seen) cmds'
  end.

Definition isHelp (arg : string) : bool := existsb (String.eqb arg) ["-h"; "-help"; "--help"; "help"].

Definition find_command (cmds : list Command) (name : string) : option Command :=
  List.find (λ c, String.eqb (cmd_name c) name) cmds.

Definition unknownCommand (name : string) (cmds : list Command) : cli_error :=
  let names := sort_by str_leb (map cmd_name cmds) in
  UnknownCommand
    ("fabrin: unknown command " +:+ Quote name
     +:+ match closest name names with
         | Some near => newline +:+ newline +:+ "    Did you mean " +:+ Quote near +:+ "?"
         | None => ""
         end
     +:+ newline +:+ newline +:+ "    Available commands: " +:+ Join names ", ").

Definition written (r : option string * W) : option cli_error * W :=
  (WriteError <$> r.1, r.2).

Definition usage_text (cmds : list Command) : string :=
  let sorted := sort_by (λ c d, str_leb (cmd_name c) (cmd_name d)) cmds in
  let width := foldl (λ w c, Nat.max w (String.length (cmd_name c))) 0%nat sorted in
  "Usage:" +:+ newline +:+ "    <command> [flags] [arguments]" +:+ newline +:+ newline
  +:+ "Commands:" +:+ newline
  +:+ String.concat "" (map (λ c, "    " +:+ pad_right width (cmd_name c) +:+ "  " +:+ cmd_short c +:+ newline) sorted)
  +:+ newline +:+ "Run a command with -h to see its flags." +:+ newline.

Definition command_text (c : Command) : string :=
  "Usage:" +:+ newline +:+ "    " +:+ cmd_name c +:+ " [flags] [arguments]" +:+ newline
  +:+ (if String.eqb (cmd_short c) "" then "" else newline +:+ cmd_short c +:+ newline)
  +:+ (if bool_decide (cmd_flags c = ∅) then "" else newline +:+ "Flags:" +:+ newline +:+ cmd_defaults c).

Definition Dispatch (cmds : list Command) (args : list string) (w : W) : option cli_error * W :=
  match checkDuplicates ∅ cmds with
  | Some err => (Some err, w)
  | None =>
      match args with
      | [] => written (write (usage_text cmds) w)
      | name :: rest =>
          if isHelp name then written (write (usage_text cmds) w)
          else
            match find_command cmds name with
            | None => (Some (unknownCommand name cmds), w)
            | Some cmd =>
                match cmd_run cmd with
                | None => (Some (NoRun name), w)
                | Some run =>
                    match parseInterspersed (cmd_flags cmd) rest with
                    | (Err Help, _) => written (write (command_text cmd) w)
                    | (Err (Bad detail), _) => (Some (BadFlags name detail), w)
                    | (Err (Parsed _), _) => (None, w)  (* no parse error has this form *)
                    | (Ok positional, set) =>
                        let '(err, w) := run set positional w in (CommandFailed <$> err, w)
                    end
                end
            end
      end
  end.

(** ** [App.Execute] *)

(** The map of [leadingHelpRequest]. *)
Definition valueFlags : list string :=
  ["addr"; "log-format"; "log-level"; "modules"; "read-header-timeout"; "shutdown-timeout"; "trusted-proxies"].

(** The loop of [leadingHelpRequest]; [i++] drops the flag's value as well. *)
Fixpoint leadingHelpRequest (args : list string) : bool :=
  match args with
  | [] => false
  | arg :: args' =>
      if String.eqb arg "--" || String.eqb arg "-" || negb (HasPrefix arg "-") then false
      else if existsb (String.eqb arg) ["-h"; "-help"; "--help"]
              || existsb (HasPrefix arg) ["-h="; "-help="; "--help="] then true
      else
        let name := trim_left (λ c, Ascii.eqb c "-") arg in
        if negb (contains_byte "=" name) && existsb (String.eqb name) valueFlags
        then match args' with _ :: args'' => leadingHelpRequest args'' | [] => false end
        else leadingHelpRequest args'
  end.

Inductive execution := Serve | Commands (args : list string).

(** What [Execute] decides to do with its arguments. *)
Definition execute_decision (args : list string) : execution :=
  if leadingHelpRequest args then Commands ["--help"]
  else match args with
       | [] => Serve
       | a :: _ => if HasPrefix a "-" then Serve else Commands args
       end.

Definition Execute (run : W → option string * W) (cmds : list Command) (args : list string) (w : W)
    : option cli_error * W :=
  match execute_decision args with
  | Serve => let '(err, w) := run w in (CommandFailed <$> err, w)
  | Commands args => Dispatch cmds args w
  end.
End dispatch.
