(* ===== verification/CliSpec.v ===== *)
(** * The command surface is correct

    The near-miss suggestion is a nearest name in the edit metric; interspersed
    flags keep the positionals in order and everything after [--] verbatim;
    dispatch does not depend on the order commands were collected in; and
    [Execute]'s help scan agrees with the parser [config] runs on the same
    arguments, but for one spelling. *)

From S2P Require Import Prelude GoStrings Flag Config Cli.

#[local] Open Scope Z_scope.

(** ** The edit metric *)

Definition bytes (s : string) : list ascii := list_ascii_of_string s.

(** One insertion, deletion or replacement of a byte, anywhere. *)
Inductive one_edit : list ascii → list ascii → Prop :=
| edit_insert l r x : one_edit (l ++ r) (l ++ x :: r)
| edit_delete l r x : one_edit (l ++ x :: r) (l ++ r)
| edit_replace l r x y : one_edit (l ++ x :: r) (l ++ y :: r).

Lemma one_edit_cons x a b : one_edit a b → one_edit (x :: a) (x :: b).
Proof. intros []; rewrite !app_comm_cons; constructor. Qed.

Lemma one_edit_rev a b : one_edit a b → one_edit (rev a) (rev b).
Proof.
  intros []; rewrite !rev_app_distr; cbn; rewrite <-?app_assoc; constructor.
Qed.

Lemma edits_cons n x a b : nsteps one_edit n a b → nsteps one_edit n (x :: a) (x :: b).
Proof. intros H. apply (nsteps_congruence (R:=one_edit) (cons x)); [|done]. apply one_edit_cons. Qed.

Lemma edits_rev n a b : nsteps one_edit n a b → nsteps one_edit n (rev a) (rev b).
Proof. intros H. apply (nsteps_congruence (R:=one_edit) (@rev ascii)); [|done]. apply one_edit_rev. Qed.

(** An alignment of two byte sequences and its cost. *)
Inductive aligned : list ascii → list ascii → nat → Prop :=
| aligned_nil : aligned [] [] 0
| aligned_keep x a b n : aligned a b n → aligned (x :: a) (x :: b) n
| aligned_replace x y a b n : aligned a b n → aligned (x :: a) (y :: b) (S n)
| aligned_delete x a b n : aligned a b n → aligned (x :: a) b (S n)
| aligned_insert y a b n : aligned a b n → aligned a (y :: b) (S n).
#[local] Hint Constructors aligned : fabrin.

Lemma aligned_edits a b n : aligned a b n → nsteps one_edit n a b.
Proof.
  induction 1 as [|x a b n _ IH|x y a b n _ IH|x a b n _ IH|y a b n _ IH]; [constructor|..].
  - by apply edits_cons.
  - econstructor; [apply (edit_replace [] a x y)|]. by apply edits_cons.
  - econstructor; [apply (edit_delete [] a x)|]. done.
  - econstructor; [apply (edit_insert [] a y)|]. by apply edits_cons.
Qed.

Lemma aligned_refl a : aligned a a 0.
Proof. induction a; auto with fabrin. Qed.

(** Where the edit is, found from the front. *)
Inductive edited : list ascii → list ascii → Prop :=
| edited_insert x a : edited a (x :: a)
| edited_delete x a : edited (x :: a) a
| edited_replace x y a : edited (x :: a) (y :: a)
| edited_later x a b : edited a b → edited (x :: a) (x :: b).

Lemma one_edit_edited a b : one_edit a b → edited a b.
Proof. intros []; induction l; cbn; by constructor. Qed.

(** An edit of the right-hand side costs at most one more. *)
Lemma aligned_edited a b c n :
  aligned a b n → edited b c → ∃ m, (m <= S n)%nat ∧ aligned a c m.
Proof.
  intros H He. revert c He.
  induction H as [|x a b n H IH|x y a b n H IH|x a b n H IH|y a b n H IH]; intros c He.
  - inversion He; subst. eauto with fabrin.
  - inversion He as [z|z|z z'|z b1 b2 He']; subst; eauto with fabrin.
    destruct (IH _ He') as (m & ? & ?). eauto with fabrin.
  - inversion He as [z|z|z z'|z b1 b2 He']; subst; eauto with fabrin.
    destruct (IH _ He') as (m & ? & ?). exists (S m). split; [lia|eauto with fabrin].
  - destruct (IH _ He) as (m & ? & ?). exists (S m). split; [lia|eauto with fabrin].
  - inversion He as [z|z|z z'|z b1 b2 He']; subst; eauto with fabrin.
    destruct (IH _ He') as (m & ? & ?). exists (S m). split; [lia|eauto with fabrin].
Qed.

Lemma edits_aligned n a b : nsteps one_edit n a b → ∃ m, (m <= n)%nat ∧ aligned a b m.
Proof.
  revert b; induction n as [|n IH]; intros b H.
  - inversion H; subst. exists 0%nat. split; [done|apply aligned_refl].
  - apply nsteps_inv_r in H as (c & H & He). destruct (IH _ H) as (m & ? & Hm).
    destruct (aligned_edited _ _ _ _ Hm (one_edit_edited _ _ He)) as (k & ? & ?). exists k. split; [lia|done].
Qed.

(** ** The table computes it *)

(** The recurrence the table fills, on byte lists read from the front. *)
Fixpoint lev (a : list ascii) : list ascii → Z :=
  fix lev_a (b : list ascii) : Z :=
    match a, b with
    | [], _ => Z.of_nat (length b)
    | _, [] => Z.of_nat (length a)
    | x :: a', y :: b' =>
        Z.min (Z.min (lev a' b + 1) (lev_a b' + 1)) (lev a' b' + (if Ascii.eqb x y then 0 else 1))
    end.

Lemma lev_nil b : lev [] b = Z.of_nat (length b).
Proof. by destruct b. Qed.
Lemma lev_nil_r a : lev a [] = Z.of_nat (length a).
Proof. by destruct a. Qed.
Lemma lev_cons x a y b :
  lev (x :: a) (y :: b) =
  Z.min (Z.min (lev a (y :: b) + 1) (lev (x :: a) b + 1)) (lev a b + (if Ascii.eqb x y then 0 else 1)).
Proof. done. Qed.

Lemma aligned_deleted a : aligned a [] (length a).
Proof. induction a; cbn; auto with fabrin. Qed.
Lemma aligned_inserted b : aligned [] b (length b).
Proof. induction b; cbn; auto with fabrin. Qed.

(** The recurrence is the cost of an alignment ... *)
Lemma lev_aligned a b : ∃ n, lev a b = Z.of_nat n ∧ aligned a b n.
Proof.
  revert b; induction a as [|x a IHa]; intros b.
  - exists (length b). rewrite lev_nil. split; [done|apply aligned_inserted].
  - induction b as [|y b IHb].
    + exists (S (length a)). rewrite lev_nil_r. split; [done|apply (aligned_deleted (x :: a))].
    + rewrite lev_cons.
      destruct (IHa (y :: b)) as (n1 & -> & H1), IHb as (n2 & -> & H2), (IHa b) as (n3 & -> & H3).
      destruct (Ascii.eqb_spec x y) as [->|Hne]; repeat (apply Z.min_case_strong; intros _).
      all: first [ exists (S n1); split; [lia|by constructor]
                 | exists (S n2); split; [lia|by constructor]
                 | exists n3; split; [lia|by constructor]
                 | exists (S n3); split; [lia|by constructor] ].
Qed.

Lemma lev_delete x a b : lev (x :: a) b <= lev a b + 1.
Proof. destruct b; [rewrite !lev_nil_r; cbn; lia|rewrite lev_cons; lia]. Qed.
Lemma lev_insert y a b : lev a (y :: b) <= lev a b + 1.
Proof. destruct a; [rewrite !lev_nil; cbn; lia|rewrite lev_cons; lia]. Qed.

(** ... and of no dearer one. *)
Lemma lev_least a b n : aligned a b n → lev a b <= Z.of_nat n.
Proof.
  induction 1 as [|x a b n _ IH|x y a b n _ IH|x a b n _ IH|y a b n _ IH].
  - done.
  - rewrite lev_cons, Ascii.eqb_refl. lia.
  - rewrite lev_cons. destruct (Ascii.eqb x y); lia.
  - pose proof (lev_delete x a b). lia.
  - pose proof (lev_insert y a b). lia.
Qed.

(** Cells [1], [2], ... of the row for the bytes [p] (last first) of [a], where [q]
    are the bytes of [b] already passed (last first). *)
Fixpoint cells (p q : list ascii) (b : string) : list Z :=
  match b with
  | "" => []
  | String y b' => lev p (y :: q) :: cells p (y :: q) b'
  end.

Lemma distance_row_cells x p q b :
  distance_row x (lev (x :: p) q) (lev p q) (cells p q b) b = cells (x :: p) q b.
Proof.
  revert q; induction b as [|y b IH]; intros q; [done|]. cbn [cells distance_row].
  assert (Z.min (Z.min (lev p (y :: q) + 1) (lev (x :: p) q + 1)) (lev p q + (if Ascii.eqb x y then 0 else 1))
          = lev (x :: p) (y :: q)) as -> by done.
  by rewrite IH.
Qed.

Lemma distance_rows_cells p a b :
  distance_rows (Z.of_nat (length p)) a b (lev p [] :: cells p [] b)
  = lev (rev (bytes a) ++ p) [] :: cells (rev (bytes a) ++ p) [] b.
Proof.
  revert p; induction a as [|x a IH]; intros p; [done|]. cbn [distance_rows bytes list_ascii_of_string rev].
  replace (Z.of_nat (length p) + 1) with (lev (x :: p) []) by (rewrite lev_nil_r; cbn; lia).
  rewrite distance_row_cells. specialize (IH (x :: p)). rewrite lev_nil_r at 1.
  rewrite IH, <-app_assoc. done.
Qed.

Lemma first_row_cells b : first_row b = lev [] [] :: cells [] [] b.
Proof.
  unfold first_row. cbn [seq map]. f_equal.
  cut (∀ q, map Z.of_nat (seq (S (length q)) (String.length b)) = cells [] q b); [intros H; apply (H [])|].
  induction b as [|y b IH]; intros q; cbn; [done|]. f_equal. apply (IH (y :: q)).
Qed.

Lemma last_cells p q b d :
  default d (last (lev p q :: cells p q b)) = lev p (rev (bytes b) ++ q).
Proof.
  revert q; induction b as [|y b IH]; intros q; [done|]. cbn [cells bytes list_ascii_of_string rev].
  rewrite last_cons_cons, IH, <-app_assoc. done.
Qed.

Lemma distance_lev a b : distance a b = lev (rev (bytes a)) (rev (bytes b)).
Proof.
  unfold distance. rewrite first_row_cells. change 0 with (Z.of_nat (length (@nil ascii))) at 2.
  rewrite distance_rows_cells, last_cells, !app_nil_r. done.
Qed.

(** The distance is reached by some edits and by no shorter sequence of them. *)
Lemma distance_shortest a b :
  ∃ n, distance a b = Z.of_nat n ∧ nsteps one_edit n (bytes a) (bytes b)
       ∧ ∀ m, nsteps one_edit m (bytes a) (bytes b) → (n <= m)%nat.
Proof.
  rewrite distance_lev. destruct (lev_aligned (rev (bytes a)) (rev (bytes b))) as (n & E & Hn).
  exists n. split_and!; [done| |].
  - rewrite <-(rev_involutive (bytes a)), <-(rev_involutive (bytes b)). by apply edits_rev, aligned_edits.
  - intros m (k & ? & Hk)%edits_rev%edits_aligned. apply lev_least in Hk. lia.
Qed.

Lemma distance_nonneg a b : 0 <= distance a b.
Proof. destruct (distance_shortest a b) as (n & -> & _). lia. Qed.

(** ** The suggestion *)

(** [closest]'s fold keeps the first of the nearest candidates so far. *)
Definition nearest_of (name : string) (seen : list string) (best : string * Z) : Prop :=
  match seen with
  | [] => best = ("", -1)
  | _ => best.1 ∈ seen ∧ best.2 = distance name best.1 ∧ ∀ c, c ∈ seen → best.2 <= distance name c
  end.

Lemma nearest_spec name cs : nearest_of name cs (nearest name cs).
Proof.
  unfold nearest. induction cs as [|c cs IH] using rev_ind; [done|].
  rewrite foldl_app. cbn [foldl]. destruct (foldl _ _ cs) as [best d] eqn:E.
  assert (nearest_of name cs (best, d)) as H by exact IH. clear IH E.
  pose proof (distance_nonneg name c) as Hc.
  destruct cs as [|c0 cs]; [injection H as -> ->|destruct H as (Hin & Hd & Hmin); cbn [fst snd] in *].
  - cbn. split_and!; [set_solver|done|]. intros c' Hc'. assert (c' = c) as -> by set_solver. done.
  - pose proof (distance_nonneg name best) as Hb.
    destruct (Z.ltb_spec d 0); [lia|]. cbn [orb].
    destruct (Z.ltb_spec (distance name c) d).
    + split_and!; [set_solver|done|]. intros c' [Hc'|Hc']%elem_of_app; cbn.
      * specialize (Hmin _ Hc'). lia.
      * assert (c' = c) as -> by set_solver. done.
    + split_and!; [set_solver|done|]. intros c' [Hc'|Hc']%elem_of_app; cbn.
      * by apply Hmin.
      * assert (c' = c) as -> by set_solver. done.
Qed.

(** The most edits a suggestion may be away. *)
Definition suggestion_limit (name : string) : Z := Z.max ((len name + 2) / 3) 1.

(** A suggestion is a command no other command is nearer to, counted in
    single-byte edits, and at most a third of the name away; nothing is suggested
    exactly when every command is farther than that. *)
Theorem closest_fewest_edits name candidates :
  match closest name candidates with
  | Some c =>
      ∃ n, c ∈ candidates ∧ nsteps one_edit n (bytes name) (bytes c)
        ∧ Z.of_nat n <= suggestion_limit name
        ∧ ∀ c' m, c' ∈ candidates → nsteps one_edit m (bytes name) (bytes c') → (n <= m)%nat
  | None =>
      ∀ c m, c ∈ candidates → nsteps one_edit m (bytes name) (bytes c) → suggestion_limit name < Z.of_nat m
  end.
Proof.
  pose proof (nearest_spec name candidates) as H. unfold closest. fold (suggestion_limit name).
  destruct (nearest name candidates) as [best d].
  destruct candidates as [|c0 cs]; [injection H as -> ->; cbn; set_solver|].
  destruct H as (Hin & Hd & Hmin); cbn [fst snd] in *.
  destruct (distance_shortest name best) as (n & En & Hn & Hleast).
  destruct (Z.ltb_spec d 0); [lia|]. cbn [orb]. destruct (Z.ltb_spec (suggestion_limit name) d).
  - intros c m Hc Hm. destruct (distance_shortest name c) as (k & Ek & _ & Hk).
    specialize (Hmin _ Hc). specialize (Hk _ Hm). lia.
  - exists n. split_and!; [done|done|lia|]. intros c m Hc Hm.
    destruct (distance_shortest name c) as (k & Ek & _ & Hk).
    specialize (Hmin _ Hc). specialize (Hk _ Hm). lia.
Qed.

Example closest_migrate : closest "migrat" ["makemigrations"; "migrate"; "routes"] = Some "migrate".
Proof. vm_compute. reflexivity. Qed.

(** ** Interspersed flags *)

(** An argument line in the user's terms: a flag written [-n=v] or [--n=v], in two
    arguments [-n v] or [--n v], a boolean flag alone, or a positional. *)
Inductive item :=
| Joined (dash name value : string)
| Apart (dash name value : string)
| Switch (dash name : string)
| Positional (arg : string).

Definition render (i : item) : list string :=
  match i with
  | Joined dash n v => [dash +:+ n +:+ "=" +:+ v]
  | Apart dash n v => [dash +:+ n; v]
  | Switch dash n => [dash +:+ n]
  | Positional arg => [arg]
  end.

(** An argument [flag] stops at. *)
Definition is_positional (arg : string) : bool := (String.length arg <? 2)%nat || negb (HasPrefix arg "-").

(** What setting flag [n] to text [v] stores. *)
Definition stores (f : formal) (n v : string) : option string :=
  spec ← f !! n; set_to spec v.

Definition dashes (s : string) : Prop := s = "-" ∨ s = "--".

Definition item_ok (f : formal) (i : item) : Prop :=
  match i with
  | Joined dash n v => dashes dash ∧ flag_name n ∧ is_Some (stores f n v)
  | Apart dash n v => dashes dash ∧ flag_name n ∧ v ≠ "--" ∧ is_Some (stores f n v)
                      ∧ (is_bool <$> f !! n) = Some false
  | Switch dash n => dashes dash ∧ flag_name n ∧ is_Some (stores f n "true")
                     ∧ (is_bool <$> f !! n) = Some true
  | Positional arg => is_positional arg = true
  end.

(** The positionals, and the flags set, in order. *)
Definition positionals (items : list item) : list string :=
  omap (λ i, match i with Positional arg => Some arg | _ => None end) items.
Definition assign (f : formal) (n v : string) (set : actual) : actual :=
  match stores f n v with Some x => <[n := x]> set | None => set end.
Definition assigned (f : formal) (items : list item) (set : actual) : actual :=
  foldl (λ set i, match i with
                  | Joined _ n v | Apart _ n v => assign f n v set
                  | Switch _ n => assign f n "true" set
                  | Positional _ => set
                  end) set items.

Section items.
Context (f : formal).

(** What [parseOne] does with an argument that is a dash or two and a text. *)
Lemma parseOne_dashed dash t rest :
  dashes dash → t ≠ "" → HasPrefix t "-" = false → HasPrefix t "=" = false →
  parseOne f ((dash +:+ t) :: rest) =
  let '(name, value) := split_flag t in
  match f !! name with
  | None => if String.eqb name "help" || String.eqb name "h" then FlagHelp
            else FlagError "flag provided but not defined"
  | Some spec =>
      let set v rest := match set_to spec v with
                        | Some x => FlagSet name x rest
                        | None => FlagError "invalid value"
                        end in
      if is_bool spec then set (default "true" value) rest
      else match value, rest with
           | Some v, _ => set v rest
           | None, v :: rest' => set v rest'
           | None, [] => FlagError "flag needs an argument"
           end
  end.
Proof.
  intros Hdash Hne Hd He. destruct t as [|c t]; [done|].
  assert (Hp : ∀ s, HasPrefix s "" = true) by (by intros []).
  assert (Ascii.eqb "-" c = false) as Hc by (cbn [HasPrefix] in Hd; by rewrite Hp, andb_true_r in Hd).
  unfold parseOne. destruct Hdash as [-> | ->].
  - change ("-" +:+ String c t) with (String "-" (String c t)).
    cbn [String.length Nat.ltb Nat.leb HasPrefix drop_bytes String.eqb].
    rewrite !Ascii.eqb_refl, !Hp, Hc, (Ascii.eqb_sym c "-"), Hc.
    cbn [negb orb andb]. by rewrite Hd, He.
  - change ("--" +:+ String c t) with (String "-" (String "-" (String c t))).
    cbn [String.length Nat.ltb Nat.leb HasPrefix drop_bytes String.eqb].
    rewrite !Ascii.eqb_refl, ?Hp. cbn [negb orb andb]. by rewrite Hd, He.
Qed.

(** The dashes [flag] takes off an argument. *)
Definition stripped (dash t : string) : Prop := dash = "--" ∨ dash = "-" ∧ HasPrefix t "-" = false.

Lemma stripped_dashes dash t : stripped dash t → dashes dash.
Proof. intros [->|[-> _]]; [by right|by left]. Qed.

Lemma parseOne_bad dash t rest :
  stripped dash t → t ≠ "" → HasPrefix t "-" = true ∨ HasPrefix t "=" = true →
  parseOne f ((dash +:+ t) :: rest) = FlagError "bad flag syntax".
Proof.
  intros Hs Hne Hbad. destruct t as [|c t]; [done|].
  assert (Hp : ∀ s, HasPrefix s "" = true) by (by intros []).
  assert (HasPrefix (String c t) "-" || HasPrefix (String c t) "=" = true) as Hor
    by (destruct Hbad as [-> | ->]; [done|by rewrite orb_true_r]).
  unfold parseOne. destruct Hs as [->|[-> Hd]].
  - change ("--" +:+ String c t) with (String "-" (String "-" (String c t))).
    cbn [String.length Nat.ltb Nat.leb HasPrefix drop_bytes String.eqb].
    rewrite !Ascii.eqb_refl, ?Hp. cbn [negb orb andb]. by rewrite Hor.
  - change ("-" +:+ String c t) with (String "-" (String c t)).
    assert (Ascii.eqb "-" c = false) as Hc by (cbn [HasPrefix] in Hd; by rewrite Hp, andb_true_r in Hd).
    cbn [String.length Nat.ltb Nat.leb HasPrefix drop_bytes String.eqb].
    rewrite !Ascii.eqb_refl, ?Hp, Hc, (Ascii.eqb_sym c "-"), Hc. cbn [negb orb andb]. by rewrite Hor.
Qed.

Lemma flag_name_text n s :
  flag_name n → n +:+ s ≠ "" ∧ HasPrefix (n +:+ s) "-" = false ∧ HasPrefix (n +:+ s) "=" = false.
Proof.
  intros (Hd & He & Hne). destruct n as [|c n]; [done|].
  assert (Hp : ∀ s, HasPrefix s "" = true) by (by intros []).
  change (String c n +:+ s) with (String c (n +:+ s)). cbn [HasPrefix contains_byte] in *.
  rewrite Hp, andb_true_r in Hd. rewrite !Hp, !andb_true_r. apply orb_false_iff in He as [He _].
  split; [done|]. split; [done|]. by rewrite Ascii.eqb_sym.
Qed.

Lemma split_flag_joined n v : flag_name n → split_flag (n +:+ "=" +:+ v) = (n, Some v).
Proof.
  intros (_ & He & Hne). destruct n as [|c n]; [done|]. cbn [contains_byte] in He.
  apply orb_false_iff in He as [_ He]. change ("=" +:+ v) with (String "=" v).
  change (String c n +:+ String "=" v) with (String c (n +:+ String "=" v)).
  cbn [split_flag]. by rewrite CutByte_first.
Qed.

Lemma CutByte_none sep s : contains_byte sep s = false → CutByte sep s = None.
Proof.
  induction s as [|c s IH]; cbn [contains_byte CutByte]; [done|].
  intros [-> H]%orb_false_iff. by rewrite IH.
Qed.

Lemma split_flag_bare n : flag_name n → split_flag n = (n, None).
Proof.
  intros (_ & He & Hne). destruct n as [|c n]; [done|]. cbn [contains_byte] in He.
  apply orb_false_iff in He as [_ He]. cbn [split_flag]. by rewrite CutByte_none.
Qed.

(** A flag item is taken off the front and set; a positional stops the parse. *)
Lemma Parse_item i rest set :
  item_ok f i →
  match i with
  | Positional arg => Parse f (arg :: rest) set = (Parsed (arg :: rest), set)
  | _ => Parse f (render i ++ rest) set = Parse f rest (assigned f [i] set)
  end.
Proof.
  destruct i as [dash n v|dash n v|dash n|arg]; cbn [item_ok render app assigned foldl];
    unfold assign, stores.
  - intros (Hdash & Hn & [x Hx]). rewrite Hx. apply bind_Some in Hx as (spec & Hf & Hx).
    destruct (flag_name_text n ("=" +:+ v) Hn) as (? & ? & ?).
    rewrite Parse_step, parseOne_dashed, split_flag_joined, Hf by done. cbv zeta. cbn [default].
    destruct (is_bool spec); cbn; unfold Datatypes.id; by rewrite Hx.
  - intros (Hdash & Hn & _ & [x Hx] & Hb). rewrite Hx. apply bind_Some in Hx as (spec & Hf & Hx).
    destruct (flag_name_text n "" Hn) as (? & ? & ?). rewrite string_app_nil_r in *.
    rewrite Parse_step, parseOne_dashed, split_flag_bare, Hf by done.
    rewrite Hf in Hb. injection Hb as ->. cbv beta iota zeta. by rewrite Hx.
  - intros (Hdash & Hn & [x Hx] & Hb). rewrite Hx. apply bind_Some in Hx as (spec & Hf & Hx).
    destruct (flag_name_text n "" Hn) as (? & ? & ?). rewrite string_app_nil_r in *.
    rewrite Parse_step, parseOne_dashed, split_flag_bare, Hf by done.
    rewrite Hf in Hb. injection Hb as ->. cbv zeta. cbn. by rewrite Hx.
  - intros Harg. rewrite Parse_step. unfold parseOne. unfold is_positional in Harg. by rewrite Harg.
Qed.

Lemma interspersed_items fuel items pos set :
  Forall (item_ok f) items → (length (items ≫= render) < fuel)%nat →
  interspersed fuel f (items ≫= render) pos set = (Ok (pos ++ positionals items), assigned f items set).
Proof.
  intros Hok. revert fuel pos set; induction Hok as [|i items Hi Hok IH]; intros fuel pos set Hfuel.
  - destruct fuel; [cbn in Hfuel; lia|]. cbn. by rewrite app_nil_r.
  - destruct fuel as [|fuel]; [cbn in Hfuel; lia|].
    rewrite bind_cons, length_app in Hfuel. rewrite bind_cons.
    pose proof (Parse_item i (items ≫= render) set Hi) as Hp.
    destruct i as [dash n v|dash n v|dash n|arg]; cbn [render] in *.
    4: { cbn [interspersed app]. rewrite Hp. rewrite IH by (cbn in Hfuel; lia).
         rewrite <-app_assoc. done. }
    all: cbn [interspersed]; rewrite Hp;
      match goal with |- context [Parse f _ ?set'] => specialize (IH (S fuel) pos set' ltac:(cbn in Hfuel; lia)) end;
      exact IH.
Qed.

Lemma item_no_terminator i arg : item_ok f i → arg ∈ render i → String.eqb arg "--" = false.
Proof.
  assert (∀ dash n s, dashes dash → flag_name n → String.eqb (dash +:+ n +:+ s) "--" = false) as Hflag.
  { intros dash n s Hdash (Hd & _ & Hne). destruct n as [|c n]; [done|].
    apply String.eqb_neq. assert (Hp : ∀ s, HasPrefix s "" = true) by (by intros []).
    cbn [HasPrefix] in Hd. rewrite Hp, andb_true_r in Hd. apply Ascii.eqb_neq in Hd.
    destruct Hdash as [-> | ->]; intros [=]; congruence. }
  destruct i as [dash n v|dash n v|dash n|s]; cbn [item_ok render].
  - intros (Hdash & Hn & _) ->%list_elem_of_singleton. by apply Hflag.
  - intros (Hdash & Hn & Hv & _) [->|[->|[]%not_elem_of_nil]%elem_of_cons]%elem_of_cons.
    + rewrite <-(string_app_nil_r n). by apply Hflag.
    + by apply String.eqb_neq.
  - intros (Hdash & Hn & _) ->%list_elem_of_singleton.
    rewrite <-(string_app_nil_r n). by apply Hflag.
  - intros Harg ->%list_elem_of_singleton. apply String.eqb_neq. by intros ->.
Qed.

Lemma split_terminator_spec args tail :
  (∀ a, a ∈ args → String.eqb a "--" = false) →
  split_terminator (args ++ "--" :: tail) = (args, tail) ∧ split_terminator args = (args, []).
Proof.
  induction args as [|a args IH]; intros H; [done|]. cbn [split_terminator app].
  rewrite H by set_solver. destruct IH as [-> ->]; [set_solver|]. done.
Qed.

Lemma parseInterspersed_items items (tail : option (list string)) :
  Forall (item_ok f) items →
  parseInterspersed f ((items ≫= render) ++ match tail with Some t => "--" :: t | None => [] end)
  = (Ok (positionals items ++ default [] tail), assigned f items ∅).
Proof.
  intros Hok. unfold parseInterspersed.
  assert (∀ a, a ∈ items ≫= render → String.eqb a "--" = false) as Hno.
  { intros a (i & Ha & Hi)%list_elem_of_bind. rewrite Forall_forall in Hok.
    eapply item_no_terminator; eauto. }
  assert (split_terminator ((items ≫= render) ++ match tail with Some t => "--" :: t | None => [] end)
          = (items ≫= render, default [] tail)) as ->.
  { destruct tail as [t|]; [by apply split_terminator_spec|].
    rewrite app_nil_r. by apply (split_terminator_spec _ []). }
  rewrite interspersed_items by (done || lia). done.
Qed.
End items.

(** ** Dispatch *)

Section dispatch.
Context `{Unicode} {W : Type} (write : string → W → option string * W).

#[local] Abbreviation Command := (Command (W:=W)).
#[local] Abbreviation named cmds := (map cmd_name (cmds : list Command)).

Lemma checkDuplicates_none seen (cmds : list Command) :
  checkDuplicates seen cmds = None ↔ NoDup (named cmds) ∧ ∀ c, c ∈ cmds → cmd_name c ∉ seen.
Proof.
  revert seen; induction cmds as [|c cmds IH]; intros seen; cbn [checkDuplicates map].
  - split; [intros _; split; [constructor|set_solver]|done].
  - destruct (decide (cmd_name c ∈ seen)) as [Hin|Hout].
    + rewrite bool_decide_true by done. split; [done|]. intros [_ Hc]. exfalso. apply (Hc c); set_solver.
    + rewrite bool_decide_false, IH, NoDup_cons by done. split.
      * intros [Hnd Hc]. split; [split; [|done]|].
        -- intros (c' & E & Hc')%list_elem_of_fmap. specialize (Hc _ Hc'). set_solver.
        -- intros c' [->|Hc']%elem_of_cons; [done|]. specialize (Hc _ Hc'). set_solver.
      * intros [[Hn Hnd] Hc]. split; [done|]. intros c' Hc'.
        specialize (Hc c' ltac:(set_solver)). rewrite not_elem_of_union. split; [|done].
        intros E%elem_of_singleton. apply Hn. rewrite <-E. by apply list_elem_of_fmap_2.
Qed.

Lemma checkDuplicates_some seen (cmds : list Command) err :
  checkDuplicates seen cmds = Some err → ∃ n, err = DuplicateCommand n.
Proof.
  revert seen; induction cmds as [|c cmds IH]; intros seen; cbn; [done|].
  case_bool_decide; [intros [= <-]; by eauto|]. apply IH.
Qed.

Lemma named_inj (cmds : list Command) c d :
  NoDup (named cmds) → c ∈ cmds → d ∈ cmds → cmd_name c = cmd_name d → c = d.
Proof.
  intros Hnd (i & Hi)%list_elem_of_lookup (j & Hj)%list_elem_of_lookup E.
  assert (i = j) as ->; [|congruence].
  apply (NoDup_lookup (named cmds) i j (cmd_name c)); [done| |]; rewrite list_lookup_fmap.
  - by rewrite Hi.
  - rewrite Hj. cbn. congruence.
Qed.

Lemma find_command_some (cmds : list Command) c :
  NoDup (named cmds) → c ∈ cmds → find_command cmds (cmd_name c) = Some c.
Proof.
  intros Hnd Hc. unfold find_command.
  destruct (List.find _ cmds) as [d|] eqn:E.
  - apply find_some in E as [Hd E%String.eqb_eq]. apply list_elem_of_In in Hd.
    f_equal. by eapply named_inj.
  - apply list_elem_of_In in Hc. apply (find_none _ _ E) in Hc. by rewrite String.eqb_refl in Hc.
Qed.

Lemma find_command_none (cmds : list Command) name :
  find_command cmds name = None ↔ name ∉ named cmds.
Proof.
  unfold find_command. split.
  - intros E (c & -> & Hc)%list_elem_of_fmap. apply list_elem_of_In in Hc.
    apply (find_none _ _ E) in Hc. by rewrite String.eqb_refl in Hc.
  - intros Hn. destruct (List.find _ cmds) as [d|] eqn:E; [|done].
    apply find_some in E as [Hd E%String.eqb_eq]. apply list_elem_of_In in Hd.
    destruct Hn. rewrite <-E. by apply list_elem_of_fmap_2.
Qed.

Lemma find_command_perm (cmds cmds' : list Command) name :
  cmds ≡ₚ cmds' → NoDup (named cmds) → find_command cmds name = find_command cmds' name.
Proof.
  intros Hp Hnd. assert (NoDup (named cmds')) as Hnd' by (by rewrite <-Hp).
  destruct (find_command cmds' name) as [d|] eqn:E.
  - unfold find_command in E. apply find_some in E as [Hd E%String.eqb_eq].
    apply list_elem_of_In in Hd. rewrite <-E. apply find_command_some; [done|by rewrite Hp].
  - apply find_command_none. apply find_command_none in E. by rewrite Hp.
Qed.

Lemma usage_text_perm (cmds cmds' : list Command) :
  cmds ≡ₚ cmds' → NoDup (named cmds) → usage_text cmds = usage_text cmds'.
Proof.
  intros Hp Hnd. unfold usage_text.
  rewrite (sort_by_permutation_invariant (λ c d : Command, str_leb (cmd_name c) (cmd_name d))
             (λ c d, str_leb_total _ _) (λ c d e, str_leb_trans _ _ _) cmds cmds'); [done| |done].
  intros c d Hc Hd H1 H2. eapply named_inj; [done..|]. by apply str_leb_antisym.
Qed.

Lemma unknownCommand_perm name (cmds cmds' : list Command) :
  cmds ≡ₚ cmds' → unknownCommand name cmds = unknownCommand name cmds'.
Proof.
  intros Hp. unfold unknownCommand.
  rewrite (sort_by_permutation_invariant _ str_leb_total str_leb_trans (named cmds) (named cmds')); [done| |].
  - intros. by apply str_leb_antisym.
  - by rewrite Hp.
Qed.

(** Dispatch does not depend on the order the commands come in: with distinct
    names two orders run the same command and print the same texts, and with a
    shared name both refuse before anything runs or is written. *)
Theorem Dispatch_order (cmds cmds' : list Command) args w :
  cmds ≡ₚ cmds' →
  if bool_decide (NoDup (named cmds)) then Dispatch write cmds args w = Dispatch write cmds' args w
  else ∃ n n', Dispatch write cmds args w = (Some (DuplicateCommand n), w)
               ∧ Dispatch write cmds' args w = (Some (DuplicateCommand n'), w).
Proof.
  intros Hp. case_bool_decide as Hnd.
  - assert (∀ l : list Command, NoDup (named l) → checkDuplicates ∅ l = None) as Hc.
    { intros l Hl. apply checkDuplicates_none. split; [done|set_solver]. }
    unfold Dispatch. rewrite !Hc by (done || by rewrite <-Hp).
    rewrite (usage_text_perm _ _ Hp Hnd). destruct args as [|name rest]; [done|].
    by rewrite (find_command_perm _ _ name Hp Hnd), (unknownCommand_perm name _ _ Hp).
  - assert (∀ l : list Command, ¬ NoDup (named l) →
              ∃ n, Dispatch write l args w = (Some (DuplicateCommand n), w)) as Hd.
    { intros l Hl. unfold Dispatch. destruct (checkDuplicates ∅ l) as [err|] eqn:E.
      - apply checkDuplicates_some in E as [n ->]. by exists n.
      - by apply checkDuplicates_none in E as [??]. }
    destruct (Hd cmds Hnd) as [n ->], (Hd cmds') as [n' ->]; [by rewrite <-Hp|]. by exists n, n'.
Qed.

(** A command named in a set without duplicates runs, once and with exactly
    the arguments the line says: its flags parsed wherever they stand, in either
    spelling, its positionals in order, and everything after [--] untouched. *)
Theorem Dispatch_interspersed (cmds : list Command) c run items (tail : option (list string)) w :
  NoDup (named cmds) → c ∈ cmds → isHelp (cmd_name c) = false → cmd_run c = Some run →
  Forall (item_ok (cmd_flags c)) items →
  Dispatch write cmds
    (cmd_name c :: (items ≫= render) ++ match tail with Some t => "--" :: t | None => [] end) w
  = let '(err, w') := run (assigned (cmd_flags c) items ∅) (positionals items ++ default [] tail) w in
    (CommandFailed <$> err, w').
Proof.
  intros Hnd Hc Hh Hrun Hok. unfold Dispatch.
  rewrite (proj2 (checkDuplicates_none ∅ cmds)) by (split; [done|set_solver]).
  by rewrite Hh, find_command_some, Hrun, parseInterspersed_items.
Qed.
End dispatch.

(** A log of what was written and what ran. *)
Definition logged (s : string) (w : list string) : option string * list string := (None, w ++ [s]).
Definition greet : Command (W := list string) :=
  {| cmd_name := "greet"; cmd_short := ""; cmd_defaults := "";
     cmd_flags := {["loud" := BoolFlag; "to" := StringFlag]};
     cmd_run := Some (λ set args w, (None, w ++ args ++ [default "" (set !! "to"); default "" (set !! "loud")])) |}.
Definition quiet : Command (W := list string) :=
  {| cmd_name := "quiet"; cmd_short := ""; cmd_defaults := ""; cmd_flags := ∅; cmd_run := None |}.

Lemma Dispatch_order_witness :
  @Dispatch identity_tables _ logged [greet; quiet] ["quiet"] [] = (Some (NoRun "quiet"), [])
  ∧ @Dispatch identity_tables _ logged [greet; quiet] ["quiet"] []
    = @Dispatch identity_tables _ logged [quiet; greet] ["quiet"] [].
Proof.
  split; [vm_compute; reflexivity|].
  apply (@Dispatch_order identity_tables _ logged [greet; quiet] [quiet; greet] ["quiet"] []).
  apply Permutation_swap.
Defined.

Lemma Dispatch_interspersed_witness :
  @Dispatch identity_tables _ logged [greet; quiet] ["greet"; "a"; "-to"; "you"; "b"; "--loud"; "--"; "-c"] []
  = (None, ["a"; "b"; "-c"; "you"; "true"]).
Proof.
  assert (NoDup (map cmd_name [greet; quiet])) as Hnd.
  { apply (bool_decide_eq_true_1 _). vm_compute. reflexivity. }
  assert (Forall (item_ok (cmd_flags greet))
            [Positional "a"; Apart "-" "to" "you"; Positional "b"; Switch "--" "loud"]) as Hok.
  { repeat (apply Forall_cons_2); [done| |done| |constructor].
    - split_and!; [by left|by split_and!|done|by exists "you"|done].
    - split_and!; [by right|by split_and!|by exists "true"|done]. }
  exact (@Dispatch_interspersed identity_tables _ logged [greet; quiet] greet _ _ (Some ["-c"]) []
           Hnd (list_elem_of_here _ _) eq_refl eq_refl Hok).
Defined.

(** ** The help scan *)

(** The one help spelling of [flag] the scan does not know. *)
Definition spells_h (arg : string) : bool := String.eqb arg "--h" || HasPrefix arg "--h=".

Lemma CutByte_inv sep s a b : CutByte sep s = Some (a, b) → s = a +:+ String sep b.
Proof.
  revert a; induction s as [|c s IH]; intros a; [done|]. cbn [CutByte].
  destruct (Ascii.eqb_spec c sep) as [->|_]; [by intros [= <- <-]|].
  intros ([a' b'] & E & [= <- <-])%bind_Some. by rewrite (IH _ E).
Qed.

Lemma split_flag_inv t n v :
  split_flag t = (n, v) → t = match v with Some v => n +:+ "=" +:+ v | None => n end.
Proof.
  destruct t as [|c t]; cbn [split_flag]; [by intros [= <- <-]|].
  destruct (CutByte "=" t) as [[a b]|] eqn:E; intros [= <- <-]; [|done].
  by rewrite (CutByte_inv _ _ _ _ E).
Qed.

(** A dashed argument, taken apart. *)
Lemma dashed arg :
  is_positional arg = false → String.eqb arg "--" = false →
  ∃ dash t, stripped dash t ∧ t ≠ "" ∧ arg = dash +:+ t.
Proof.
  unfold is_positional. intros [Hl Hp]%orb_false_iff H2.
  apply negb_false_iff, HasPrefix_spec in Hp as (t & ->). apply Nat.ltb_ge in Hl.
  destruct t as [|c t]; [cbn in Hl; lia|].
  change ("-" +:+ String c t) with (String "-" (String c t)) in *.
  destruct (Ascii.eqb_spec "-" c) as [<-|Hc].
  - exists "--", t. split_and!; [by left| |done]. by intros ->.
  - exists "-", (String c t). split_and!; [right; split; [done|]|done|done].
    cbn [HasPrefix]. apply Ascii.eqb_neq in Hc. by rewrite Hc.
Qed.

(** What the scan does with an argument naming a setting. *)
Lemma scan_setting dash n spec rest :
  dashes dash → settings_flags !! n = Some spec →
  leadingHelpRequest ((dash +:+ n) :: rest)
  = (if is_bool spec then leadingHelpRequest rest
     else match rest with _ :: rest' => leadingHelpRequest rest' | [] => false end)
  ∧ ∀ v, leadingHelpRequest ((dash +:+ n +:+ "=" +:+ v) :: rest) = leadingHelpRequest rest.
Proof.
  intros Hdash Hn%elem_of_list_to_map_2. cbn in Hn.
  repeat (apply elem_of_cons in Hn as [Hn|Hn]; [injection Hn as -> ->; by destruct Hdash as [-> | ->]|]).
  by apply not_elem_of_nil in Hn.
Qed.

Lemma settings_accept n spec v : settings_flags !! n = Some spec → is_bool spec = false → set_to spec v = Some v.
Proof.
  intros Hn%elem_of_list_to_map_2. cbn in Hn.
  repeat (apply elem_of_cons in Hn as [Hn|Hn]; [by injection Hn as -> ->|]).
  by apply not_elem_of_nil in Hn.
Qed.

(** ... and with one asking for help. *)
Lemma scan_help dash n v rest :
  dashes dash → String.eqb n "help" || String.eqb n "h" = true →
  let arg := dash +:+ match v with Some v => n +:+ "=" +:+ v | None => n end in
  spells_h arg = false → leadingHelpRequest (arg :: rest) = true.
Proof.
  intros Hdash [->%String.eqb_eq| ->%String.eqb_eq]%orb_true_iff; destruct Hdash as [-> | ->], v as [v|];
    cbn zeta; intros Hs;
    first [reflexivity | discriminate Hs | (cbn; by destruct v) | (cbn in Hs; by destruct v)].
Qed.

(** On arguments where help is not spelled [--h], the entry point's scan finds a
    request for help exactly where the settings parser of [config] reports one:
    never on a line the parser accepts, always on a line it ends in [ErrHelp]
    (a line the parser refuses never reaches the scan). *)
Theorem help_scan_mirrors args :
  (∀ a, a ∈ args → spells_h a = false) →
  match (Parse settings_flags args ∅).1 with
  | Parsed _ => leadingHelpRequest args = false
  | Help => leadingHelpRequest args = true
  | Bad _ => True
  end.
Proof.
  generalize (∅ : actual) as set. remember (length args) as k eqn:Ek. revert args Ek.
  induction k as [k IH] using lt_wf_ind. intros args -> set Hh. rewrite Parse_step.
  destruct args as [|arg rest]; [done|].
  destruct (is_positional arg) eqn:Epos.
  { unfold parseOne. unfold is_positional in Epos. rewrite Epos. cbn [fst leadingHelpRequest].
    apply orb_true_iff in Epos as [Hl|Hp]; [|by rewrite Hp, orb_true_r].
    apply Nat.ltb_lt in Hl. destruct arg as [|c [|c' arg]]; cbn in Hl; [done| |lia].
    destruct (HasPrefix (String c "") "-") eqn:Hp; [|by rewrite orb_true_r].
    apply HasPrefix_spec in Hp as (r & E). injection E as -> _. done. }
  destruct (String.eqb arg "--") eqn:E2; [by apply String.eqb_eq in E2 as ->|].
  destruct (dashed _ Epos E2) as (dash & t & Hstr & Ht & ->).
  pose proof (stripped_dashes _ _ Hstr) as Hdash.
  destruct (HasPrefix t "-") eqn:Ed; [by rewrite parseOne_bad by eauto|].
  destruct (HasPrefix t "=") eqn:Ee; [by rewrite parseOne_bad by eauto|].
  rewrite parseOne_dashed by done. destruct (split_flag t) as [n v] eqn:Es.
  apply split_flag_inv in Es as ->.
  assert (∀ rest', (length rest' < S (length rest))%nat → (∀ a, a ∈ rest' → a ∈ rest) → ∀ set',
            match (Parse settings_flags rest' set').1 with
            | Parsed _ => leadingHelpRequest rest' = false
            | Help => leadingHelpRequest rest' = true
            | Bad _ => True
            end) as Hrest.
  { intros rest' Hl Hin set'. apply (IH _ Hl); [done|]. intros a Ha. apply Hh. set_solver. }
  destruct (settings_flags !! n) as [spec|] eqn:Hn; cbv beta iota zeta.
  - destruct (scan_setting dash n spec rest Hdash Hn) as [Hbare Hjoined].
    pose proof (settings_accept n spec) as Hset.
    destruct (is_bool spec) eqn:Hb.
    + destruct (set_to spec _); [|done]. destruct v as [v|]; [rewrite Hjoined|rewrite Hbare]; apply Hrest; (lia || done).
    + destruct v as [v|]; [rewrite Hset, Hjoined by done; apply Hrest; (lia || done)|].
      rewrite Hbare. destruct rest as [|v rest]; [done|]. rewrite Hset by done.
      apply Hrest; [cbn; lia|set_solver].
  - destruct (String.eqb n "help" || String.eqb n "h") eqn:Eh; [|done]. cbn [fst].
    apply scan_help; [done|done|]. apply Hh. set_solver.
Qed.

Lemma help_scan_mirrors_witness :
  leadingHelpRequest ["-addr"; ":80"; "-h"] = true
  ∧ (Parse settings_flags ["-addr"; ":80"; "-h"] ∅).1 = Help
  ∧ leadingHelpRequest ["-debug"; "routes"; "-h"] = false.
Proof.
  split; [|split; [vm_compute; reflexivity|]].
  - apply (help_scan_mirrors ["-addr"; ":80"; "-h"]).
    apply Forall_forall. repeat constructor.
  - apply (help_scan_mirrors ["-debug"; "routes"; "-h"]).
    apply Forall_forall. repeat constructor.
Defined.

(** The spelling left out: [config] reports a request for help, and the entry
    point serves. *)
Example double_dash_h_serves :
  (Parse settings_flags ["--h"] ∅).1 = Help ∧ execute_decision ["--h"] = Serve.
Proof. vm_compute. split; reflexivity. Qed.
