(* ===== verification/Health.v ===== *)
(** * Readiness: src/health/health.go

    The registry of checks, and [Evaluate] as the concurrent program it is: the
    goroutine that evaluates, one goroutine per probe, the in-flight flag of each
    check and the channel of outcomes.  A state is everything they share; an event
    is one atomic step of one of them, or of the environment (a probe answering, a
    context ending); any number of evaluations overlap. *)

From S2P Require Import Prelude GoStrings.

#[local] Open Scope Z_scope.

(** ** Checks and the registry *)

(** A check, known by its name; nil is [None]. *)
Definition Check := option string.

Record registered := { module : string; name : string }.

Inductive register_error := NilCheck (module : string) | UnnamedCheck (module : string).

(** [Registry.Register]: what was appended before an error stays. *)
Fixpoint Register (m : string) (checks : list Check) (r : list registered)
    : option register_error * list registered :=
  match checks with
  | [] => (None, r)
  | None :: _ => (Some (NilCheck m), r)
  | Some n :: checks' =>
      if String.eqb n "" then (Some (UnnamedCheck m), r)
      else Register m checks' (r ++ [{| module := m; name := n |}])
  end.

(** ** Evaluation *)

Inductive Status := StatusUp | StatusDown.
#[global] Instance Status_eq_dec : EqDecision Status.
Proof. solve_decision. Defined.

Record Result := {
  res_module : string;
  res_check : string;
  status : Status;
  error : string;
  duration_ms : Z;
}.

Record Report := { report_status : Status; report_checks : list Result }.

(** How a probe ends. *)
Inductive outcome := Passes | Fails (text : string) | Panics (value : string).

(** A probe's goroutine: probing; or done, the flag cleared, its result not sent. *)
Inductive probe := Probing (start : Z) | Finished (res : Result).

(** One call of [Evaluate]: its context's error once it has ended, the results and
    start times so far (one per check launched), and the pending set. *)
Record evaluation := {
  ctx_err : option string;
  results : list Result;
  started : list Z;
  pending : gset nat;
  returned : option Report;
}.

(** The flags set to true, the goroutines alive and the outcomes sent but not
    received, by evaluation and check. *)
Record state := {
  running : gset nat;
  evaluations : gmap nat evaluation;
  probes : gmap (nat * nat) probe;
  sent : gmap (nat * nat) Result;
}.

Definition initial : state := {| running := ∅; evaluations := ∅; probes := ∅; sent := ∅ |}.

Inductive event :=
| Begin (e : nat)
| Launch (e : nat) (now : Z)
| Answer (e i : nat) (out : outcome) (now : Z)
| Send (e i : nat)
| Receive (e i : nat)
| ContextEnds (e : nat) (err : string)
| GiveUp (e : nat) (now : Z)
| Return (e : nat).

Definition milliseconds (d : Z) : Z := Z.quot d 1000000.

Definition probed (rc : registered) (out : outcome) (ms : Z) : Result :=
  let res st err := {| res_module := module rc; res_check := name rc; status := st;
                       error := err; duration_ms := ms |} in
  match out with
  | Passes => res StatusUp ""
  | Fails text => res StatusDown text
  | Panics value => res StatusDown ("probe panicked: " +:+ value)
  end.

(** [results[a].Module < results[b].Module], then by check. *)
Definition result_leb (a b : Result) : bool :=
  if String.eqb (res_module a) (res_module b) then str_leb (res_check a) (res_check b)
  else str_leb (res_module a) (res_module b).

Definition is_up (r : Result) : bool := bool_decide (status r = StatusUp).

Definition report_of (results : list Result) : Report :=
  {| report_status := if forallb is_up results then StatusUp else StatusDown;
     report_checks := sort_by result_leb results |}.

(** What [ctx.Done] does to the results still pending. *)
Definition given_up (err : string) (now : Z) (ev : evaluation) : list Result :=
  imap (λ i r, if bool_decide (i ∈ pending ev)
               then {| res_module := res_module r; res_check := res_check r; status := status r;
                       error := err; duration_ms := milliseconds (now - nth i (started ev) 0) |}
               else r) (results ev).

Section registry.
Context (checks : list registered).

Definition put (e : nat) (ev : evaluation) (s : state) : state :=
  {| running := running s; evaluations := <[e := ev]> (evaluations s); probes := probes s; sent := sent s |}.

(** A result that has not been probed. *)
Definition unprobed (rc : registered) (err : string) : Result :=
  {| res_module := module rc; res_check := name rc; status := StatusDown; error := err; duration_ms := 0 |}.

(** The body of the launching loop, for check [i]. *)
Definition launch (e i : nat) (rc : registered) (now : Z) (ev : evaluation) (s : state) : state :=
  let with_result err pend :=
    {| ctx_err := ctx_err ev; results := results ev ++ [unprobed rc err]; started := started ev ++ [now];
       pending := pend; returned := returned ev |} in
  match ctx_err ev with
  | Some err => put e (with_result err (pending ev)) s
  | None =>
      if bool_decide (i ∈ running s)
      then put e (with_result "previous probe is still running" (pending ev)) s
      else {| running := {[i]} ∪ running s;
              evaluations := <[e := with_result "" ({[i]} ∪ pending ev)]> (evaluations s);
              probes := <[(e, i) := Probing now]> (probes s);
              sent := sent s |}
  end.

(** The launching loop is over. *)
Definition launched (ev : evaluation) : bool := (length (results ev) =? length checks)%nat.

Definition step (ev : event) (s : state) : option state :=
  match ev with
  | Begin e =>
      guard (evaluations s !! e = None);;
      Some (put e {| ctx_err := None; results := []; started := []; pending := ∅; returned := None |} s)
  | Launch e now =>
      c ← evaluations s !! e;
      rc ← checks !! length (results c);
      Some (launch e (length (results c)) rc now c s)
  | Answer e i out now =>
      match probes s !! (e, i), checks !! i with
      | Some (Probing start), Some rc =>
          Some {| running := running s ∖ {[i]}; evaluations := evaluations s;
                  probes := <[(e, i) := Finished (probed rc out (milliseconds (now - start)))]> (probes s);
                  sent := sent s |}
      | _, _ => None
      end
  | Send e i =>
      match probes s !! (e, i) with
      | Some (Finished res) =>
          Some {| running := running s; evaluations := evaluations s;
                  probes := delete (e, i) (probes s); sent := <[(e, i) := res]> (sent s) |}
      | _ => None
      end
  | Receive e i =>
      c ← evaluations s !! e;
      guard (launched c = true ∧ pending c ≠ ∅);;
      res ← sent s !! (e, i);
      Some {| running := running s;
              evaluations := <[e := {| ctx_err := ctx_err c; results := <[i := res]> (results c);
                                       started := started c; pending := pending c ∖ {[i]};
                                       returned := returned c |}]> (evaluations s);
              probes := probes s; sent := delete (e, i) (sent s) |}
  | ContextEnds e err =>
      c ← evaluations s !! e;
      guard (ctx_err c = None);;
      Some (put e {| ctx_err := Some err; results := results c; started := started c;
                     pending := pending c; returned := returned c |} s)
  | GiveUp e now =>
      c ← evaluations s !! e;
      guard (launched c = true ∧ pending c ≠ ∅);;
      err ← ctx_err c;
      Some (put e {| ctx_err := ctx_err c; results := given_up err now c; started := started c;
                     pending := ∅; returned := returned c |} s)
  | Return e =>
      c ← evaluations s !! e;
      guard (launched c = true ∧ pending c = ∅ ∧ returned c = None);;
      Some (put e {| ctx_err := ctx_err c; results := results c; started := started c;
                     pending := pending c; returned := Some (report_of (results c)) |} s)
  end.

Definition run (evs : list event) (s : state) : option state :=
  foldl (λ s ev, s ← s; step ev s) (Some s) evs.
End registry.

(** ** The handlers *)

Definition LivenessHandler (s : state) : Z * Status := (200, StatusUp).

(** [ReadinessHandler] on the report of its evaluation. *)
Definition ReadinessHandler (r : Report) : Z * Report :=
  (match report_status r with StatusUp => 200 | StatusDown => 503 end, r).
