(* ===== verification/HealthSpec.v ===== *)
(** * Readiness is correct

    Invariants of every interleaving of evaluations, probes and ending contexts:
    readiness fails closed, a check's probes never overlap, and an evaluation whose
    context has ended returns without waiting for anything. *)

From S2P Require Import Prelude GoStrings Health.

#[local] Open Scope Z_scope.

Section spec.
Context (checks : list registered).

Lemma run_snoc evs ev s : run checks (evs ++ [ev]) s = run checks evs s ≫= step checks ev.
Proof. unfold run. by rewrite foldl_app. Qed.

Lemma run_app evs evs' s : run checks (evs ++ evs') s = run checks evs s ≫= run checks evs'.
Proof.
  induction evs' as [|ev evs' IH] using rev_ind; [rewrite app_nil_r; by destruct (run _ _ _)|].
  rewrite app_assoc, run_snoc, IH. destruct (run checks evs s) as [s'|]; cbn; [|done].
  by rewrite run_snoc.
Qed.

(** ** Where a result comes from *)

Definition still_running : string := "previous probe is still running".

Definition explained (evs : list event) (e i : nat) (r : Result) : Prop :=
  match status r with
  | StatusUp => ∃ now, Answer e i Passes now ∈ evs
  | StatusDown =>
      (∃ text now, Answer e i (Fails text) now ∈ evs) ∨ (∃ v now, Answer e i (Panics v) now ∈ evs)
      ∨ (∃ err, ContextEnds e err ∈ evs) ∨ error r = still_running
  end.

Lemma explained_mono evs ev e i r : explained evs e i r → explained (evs ++ [ev]) e i r.
Proof.
  unfold explained. destruct (status r).
  - intros [now H]. exists now. apply elem_of_app. by left.
  - intros [(t & now & H)|[(v & now & H)|[(err & H)|H]]]; [left|right; left|right; right; left|by do 3 right].
    + exists t, now. apply elem_of_app. by left.
    + exists v, now. apply elem_of_app. by left.
    + exists err. apply elem_of_app. by left.
Qed.

Lemma probed_explained evs e i rc out now ms :
  explained (evs ++ [Answer e i out now]) e i (probed rc out ms).
Proof.
  assert (Answer e i out now ∈ evs ++ [Answer e i out now]) as H by set_solver.
  destruct out; cbn; unfold explained; cbn; eauto.
Qed.

Definition names_ok (rc : registered) (r : Result) : Prop :=
  res_module r = module rc ∧ res_check r = name rc.

Lemma probed_names rc out ms : names_ok rc (probed rc out ms).
Proof. by destruct out. Qed.

Definition result_ok (evs : list event) (e : nat) (pend : gset nat) (i : nat) (r : Result) : Prop :=
  ∃ rc, checks !! i = Some rc ∧ names_ok rc r
        ∧ (i ∈ pend ∧ status r = StatusDown ∨ (i ∉ pend) ∧ explained evs e i r).

(** ** The invariant *)

Record eval_ok (evs : list event) (e : nat) (c : evaluation) : Prop := {
  ok_length : (length (results c) <= length checks)%nat;
  ok_results : ∀ i r, results c !! i = Some r → result_ok evs e (pending c) i r;
  ok_pending : ∀ i, i ∈ pending c → (i < length (results c))%nat;
  ok_context : ∀ err, ctx_err c = Some err → ContextEnds e err ∈ evs;
  ok_returned : ∀ rep, returned c = Some rep →
    pending c = ∅ ∧ length (results c) = length checks ∧ rep = report_of (results c);
}.

Record Inv (evs : list event) (s : state) : Prop := {
  inv_exclusive : ∀ e e' i st st',
    probes s !! (e, i) = Some (Probing st) → probes s !! (e', i) = Some (Probing st') → e = e';
  inv_flag : ∀ i, i ∈ running s ↔ ∃ e st, probes s !! (e, i) = Some (Probing st);
  inv_finished : ∀ e i res, probes s !! (e, i) = Some (Finished res) ∨ sent s !! (e, i) = Some res →
    explained evs e i res ∧ ∃ rc, checks !! i = Some rc ∧ names_ok rc res;
  inv_eval : ∀ e c, evaluations s !! e = Some c → eval_ok evs e c;
}.

Lemma result_ok_mono evs ev e pend i r : result_ok evs e pend i r → result_ok (evs ++ [ev]) e pend i r.
Proof.
  intros (rc & ? & ? & [?|[? ?]]); exists rc; split_and!; auto. right. split; [done|].
  by apply explained_mono.
Qed.

Lemma eval_ok_mono evs ev e c : eval_ok evs e c → eval_ok (evs ++ [ev]) e c.
Proof.
  intros [H1 H2 H3 H4 H5]. split; [done| |done| |done].
  - intros i r Hr. by apply result_ok_mono, H2.
  - intros err Herr. apply elem_of_app. left. auto.
Qed.

(** A step that only replaces evaluation [e]. *)
Lemma inv_put evs ev e c s :
  Inv evs s → eval_ok (evs ++ [ev]) e c → Inv (evs ++ [ev]) (put e c s).
Proof.
  intros [I1 I2 I3 I4] Hc. split; cbn; [done|done| |].
  - intros e' i res H. destruct (I3 _ _ _ H) as [H1 H2]. split; [by apply explained_mono|done].
  - intros e' c'. destruct (decide (e = e')) as [<-|Hne].
    + rewrite lookup_insert_eq. by intros [= <-].
    + rewrite lookup_insert_ne by done. intros H. by apply eval_ok_mono, I4.
Qed.

Lemma inv_initial : Inv [] initial.
Proof.
  split; cbn.
  - intros e e' i st st' H. by rewrite lookup_empty in H.
  - intros i. split; [set_solver|]. intros (e & st & H). by rewrite lookup_empty in H.
  - intros e i res [H|H]; by rewrite lookup_empty in H.
  - intros e c H. by rewrite lookup_empty in H.
Qed.

(** ** Every step keeps it *)

(** One more result, with its pending set. *)
Lemma launched_ok evs ev e c rc now err pend :
  eval_ok evs e c → checks !! length (results c) = Some rc →
  pend = pending c ∧ explained (evs ++ [ev]) e (length (results c)) (unprobed rc err)
  ∨ pend = {[length (results c)]} ∪ pending c →
  eval_ok (evs ++ [ev]) e
    {| ctx_err := ctx_err c; results := results c ++ [unprobed rc err]; started := started c ++ [now];
       pending := pend; returned := returned c |}.
Proof.
  intros H Hrc Hpend. pose proof (eval_ok_mono _ ev _ _ H) as [H1 H2 H3 H4 H5].
  assert (length (results c) ∉ pending c) as Hfresh by (intros ?%H3; lia).
  assert (length (results c) < length checks)%nat as Hlt by (by apply lookup_lt_Some in Hrc).
  split; cbn [ctx_err results started pending returned].
  - rewrite length_app; cbn; lia.
  - intros i r [Hr|[Hi Hr]]%lookup_app_Some.
    + destruct (H2 _ _ Hr) as (rc' & ? & ? & Hst). exists rc'. split_and!; [done|done|].
      apply lookup_lt_Some in Hr. destruct Hpend as [[-> _]| ->]; [done|].
      destruct Hst as [[??]|[??]]; [left|right]; (split; [|done]); [set_solver|].
      rewrite not_elem_of_union, not_elem_of_singleton. split; [lia|done].
    + apply list_lookup_singleton_Some in Hr as [Hz <-].
      assert (i = length (results c)) as -> by lia. exists rc. split_and!; [done|done|].
      destruct Hpend as [[-> He]| ->]; [by right|left]. split; [set_solver|done].
  - intros i Hi. rewrite length_app. cbn. destruct Hpend as [[-> _]| ->]; [apply H3 in Hi; lia|].
    apply elem_of_union in Hi as [->%elem_of_singleton|Hi%H3]; lia.
  - done.
  - intros rep Hrep. destruct (H5 _ Hrep) as (_ & ? & _). lia.
Qed.

Lemma inv_launch evs e now s s' :
  Inv evs s → step checks (Launch e now) s = Some s' → Inv (evs ++ [Launch e now]) s'.
Proof.
  intros I. cbn [step]. intros (c & Hc & (rc & Hrc & [= <-])%bind_Some)%bind_Some.
  pose proof (inv_eval _ _ I _ _ Hc) as Hok. unfold launch. cbv zeta.
  destruct (ctx_err c) as [err|] eqn:Ectx.
  { apply inv_put; [done|]. rewrite <-Ectx. eapply launched_ok; [done..|]. left. split; [done|].
    right. right. left. exists err. apply elem_of_app. left. by apply (ok_context _ _ _ Hok). }
  rewrite <-Ectx. set (i := length (results c)) in *. case_bool_decide as Hrun.
  { apply inv_put; [done|]. eapply launched_ok; [done..|]. left. split; [done|]. by do 3 right. }
  assert (∀ e' st, probes s !! (e', i) ≠ Some (Probing st)) as Hno.
  { intros e' st H. apply Hrun, (inv_flag _ _ I). eauto. }
  pose proof (inv_put evs (Launch e now) e _ s I
    (launched_ok _ (Launch e now) _ _ _ now "" ({[i]} ∪ pending c) Hok Hrc (or_intror eq_refl))) as [J1 J2 J3 J4].
  cbn [put running evaluations probes sent] in *. split; cbn [running evaluations probes sent].
  - intros e1 e2 j st1 st2. destruct (decide (i = j)) as [<-|Hne].
    + rewrite !lookup_insert. repeat case_decide; try congruence; intros Ha Hb; by eapply Hno in Ha || eapply Hno in Hb.
    + rewrite !lookup_insert_ne by congruence. apply J1.
  - intros j. rewrite elem_of_union, elem_of_singleton. destruct (decide (j = i)) as [->|Hne].
    + split; [intros _; exists e, now; by rewrite lookup_insert_eq|by left].
    + rewrite J2. setoid_rewrite lookup_insert_ne; [|congruence]. naive_solver.
  - intros e' j res [Hp|Hs]; [|by apply J3; right]. rewrite lookup_insert in Hp. case_decide; [done|].
    apply J3. by left.
  - done.
Qed.

Lemma inv_answer evs e i out now s s' :
  Inv evs s → step checks (Answer e i out now) s = Some s' → Inv (evs ++ [Answer e i out now]) s'.
Proof.
  intros [I1 I2 I3 I4]. cbn [step].
  destruct (probes s !! (e, i)) as [[start|]|] eqn:Hp; try done.
  destruct (checks !! i) as [rc|] eqn:Hrc; [|done]. intros [= <-].
  split; cbn [running evaluations probes sent].
  - intros e1 e2 j st1 st2. rewrite !lookup_insert. repeat case_decide; try done. apply I1.
  - intros j. rewrite elem_of_difference, elem_of_singleton, I2. split.
    + intros [(e1 & st & H) Hne]. exists e1, st. rewrite lookup_insert_ne by congruence. done.
    + intros (e1 & st & H). rewrite lookup_insert in H. case_decide; [done|]. split; [by eauto|].
      intros ->. destruct (I1 _ _ _ _ _ H Hp). done.
  - intros e' j res [H|H].
    + rewrite lookup_insert in H. case_decide as E.
      * injection E as <- <-. injection H as <-. split; [apply probed_explained|].
        exists rc. split; [done|apply probed_names].
      * destruct (I3 e' j res) as [H1 H2]; [by left|]. split; [by apply explained_mono|done].
    + destruct (I3 e' j res) as [H1 H2]; [by right|]. split; [by apply explained_mono|done].
  - intros e' c Hc. by apply eval_ok_mono, I4.
Qed.

Lemma inv_send evs e i s s' :
  Inv evs s → step checks (Send e i) s = Some s' → Inv (evs ++ [Send e i]) s'.
Proof.
  intros [I1 I2 I3 I4]. cbn [step].
  destruct (probes s !! (e, i)) as [[start|res]|] eqn:Hp; try done. intros [= <-].
  split; cbn [running evaluations probes sent].
  - intros e1 e2 j st1 st2 [_ H1]%lookup_delete_Some [_ H2]%lookup_delete_Some. by eapply I1.
  - intros j. rewrite I2. split; intros (e1 & st & H); exists e1, st.
    + rewrite lookup_delete_ne; [done|]. intros [= -> ->]. congruence.
    + by apply lookup_delete_Some in H as [_ H].
  - intros e' j r H. assert (probes s !! (e', j) = Some (Finished r) ∨ sent s !! (e', j) = Some r) as H'.
    { destruct H as [[_ H]%lookup_delete_Some|H]; [by left|].
      rewrite lookup_insert in H. case_decide as E; [|by right]. injection E as <- <-. left. congruence. }
    destruct (I3 e' j r H') as [H1 H2]. split; [by apply explained_mono|done].
  - intros e' c Hc. by apply eval_ok_mono, I4.
Qed.

Lemma inv_receive evs e i s s' :
  Inv evs s → step checks (Receive e i) s = Some s' → Inv (evs ++ [Receive e i]) s'.
Proof.
  intros I. cbn [step].
  intros (c & Hc & ([Hl Hne] & _ & (res & Hs & [= <-])%bind_Some)%bind_Some)%bind_Some.
  pose proof (eval_ok_mono _ (Receive e i) _ _ (inv_eval _ _ I _ _ Hc)) as [H1 H2 H3 H4 H5].
  destruct (inv_finished _ _ I e i res) as [Hex (rc & Hrc & Hn)]; [by right|].
  assert (Inv (evs ++ [Receive e i])
            (put e {| ctx_err := ctx_err c; results := <[i := res]> (results c); started := started c;
                      pending := pending c ∖ {[i]}; returned := returned c |} s)) as [J1 J2 J3 J4].
  { apply inv_put; [done|]. split; cbn [ctx_err results started pending returned].
    - by rewrite length_insert.
    - intros j r Hr. destruct (decide (i = j)) as [<-|Hij].
      + apply list_lookup_insert_Some in Hr as [(_ & <- & _)|[? _]]; [|done].
        exists rc. split_and!; [done|done|right]. split; [set_solver|by apply explained_mono].
      + rewrite list_lookup_insert_ne in Hr by done. destruct (H2 _ _ Hr) as (rc' & ? & ? & Hst).
        exists rc'. split_and!; [done|done|].
        destruct Hst as [[??]|[??]]; [left|right]; (split; [set_solver|done]).
    - intros j [Hj _]%elem_of_difference. rewrite length_insert. auto.
    - done.
    - intros rep Hrep. destruct (H5 _ Hrep) as (? & _). done. }
  cbn [put running evaluations probes sent] in *. split; cbn [running evaluations probes sent]; [done..| |done].
  intros e' j r H. apply J3. destruct H as [H|[_ H]%lookup_delete_Some]; [by left|by right].
Qed.

Lemma inv_giveup evs e now s s' :
  Inv evs s → step checks (GiveUp e now) s = Some s' → Inv (evs ++ [GiveUp e now]) s'.
Proof.
  intros I. cbn [step].
  intros (c & Hc & ([Hl Hne] & _ & (err & Hctx & [= <-])%bind_Some)%bind_Some)%bind_Some.
  pose proof (eval_ok_mono _ (GiveUp e now) _ _ (inv_eval _ _ I _ _ Hc)) as [H1 H2 H3 H4 H5].
  apply inv_put; [done|]. split; cbn [ctx_err results started pending returned].
  - unfold given_up. by rewrite length_imap.
  - intros j r. unfold given_up. rewrite list_lookup_imap.
    intros (r0 & Hr0 & ->)%fmap_Some. cbv beta. destruct (H2 _ _ Hr0) as (rc & ? & Hn & Hst).
    exists rc. destruct (decide (j ∈ pending c)) as [Hj|Hj];
      [rewrite bool_decide_true by done|rewrite bool_decide_false by done].
    + split_and!; [done|done|right]. split; [set_solver|].
      destruct Hst as [[_ Hd]|[? _]]; [|done]. unfold explained. cbn. rewrite Hd.
      right. right. left. exists err. auto.
    + split_and!; [done|done|right]. split; [set_solver|]. by destruct Hst as [[? _]|[_ ?]].
  - set_solver.
  - done.
  - intros rep Hrep. destruct (H5 _ Hrep) as (? & _). done.
Qed.

Lemma inv_step evs ev s s' : Inv evs s → step checks ev s = Some s' → Inv (evs ++ [ev]) s'.
Proof.
  destruct ev as [e|e now|e i out now|e i|e i|e err|e now|e].
  - intros I (Hc & _ & [= <-])%bind_Some. apply inv_put; [done|].
    split; cbn [ctx_err results started pending returned]; [cbn; lia|done|set_solver|done|done].
  - apply inv_launch.
  - apply inv_answer.
  - apply inv_send.
  - apply inv_receive.
  - intros I (c & Hc & (Hctx & _ & [= <-])%bind_Some)%bind_Some. apply inv_put; [done|].
    destruct (eval_ok_mono _ (ContextEnds e err) _ _ (inv_eval _ _ I _ _ Hc)) as [H1 H2 H3 H4 H5].
    split; cbn [ctx_err results started pending returned]; [done..| |done].
    intros err' [= <-]. set_solver.
  - apply inv_giveup.
  - intros I (c & Hc & ((Hl & Hp & Hr) & _ & [= <-])%bind_Some)%bind_Some. apply inv_put; [done|].
    destruct (eval_ok_mono _ (Return e) _ _ (inv_eval _ _ I _ _ Hc)) as [H1 H2 H3 H4 H5].
    split; cbn [ctx_err results started pending returned]; [done..|].
    intros rep [= <-]. apply Nat.eqb_eq in Hl. done.
Qed.

Lemma inv_run evs s : run checks evs initial = Some s → Inv evs s.
Proof.
  revert s; induction evs as [|ev evs IH] using rev_ind; intros s.
  - intros [= <-]. apply inv_initial.
  - rewrite run_snoc. intros (s0 & H0 & Hs)%bind_Some. eapply inv_step; eauto.
Qed.

(** ** What a report says *)

Lemma result_leb_total a b : result_leb a b = true ∨ result_leb b a = true.
Proof.
  unfold result_leb. rewrite (String.eqb_sym (res_module b)).
  destruct (String.eqb _ _); apply str_leb_total.
Qed.

Lemma result_leb_trans a b c : result_leb a b = true → result_leb b c = true → result_leb a c = true.
Proof.
  unfold result_leb.
  destruct (String.eqb_spec (res_module a) (res_module b)) as [Eab|Hab],
    (String.eqb_spec (res_module b) (res_module c)) as [Ebc|Hbc],
    (String.eqb_spec (res_module a) (res_module c)) as [Eac|Hac]; try congruence.
  - apply str_leb_trans.
  - intros H1 H2. rewrite Eac in H1. destruct Hbc. by apply str_leb_antisym.
  - apply str_leb_trans.
Qed.

Lemma report_up rs : report_status (report_of rs) = StatusUp ↔ ∀ r, r ∈ rs → status r = StatusUp.
Proof.
  unfold report_of. cbn. destruct (forallb is_up rs) eqn:E.
  - split; [|done]. intros _ r Hr%list_elem_of_In. rewrite forallb_forall in E.
    apply E in Hr. by apply bool_decide_eq_true in Hr.
  - split; [done|]. intros H. exfalso. rewrite <-not_true_iff_false, forallb_forall in E.
    apply E. intros r Hr%list_elem_of_In. apply bool_decide_eq_true. auto.
Qed.


(** No check is ever probed by two evaluations at once, and its in-flight flag
    is set exactly while a probe of it has not answered: a check is never skipped
    as still running once its probe has ended. *)
Theorem probes_never_overlap evs s i :
  run checks evs initial = Some s →
  (i ∈ running s ↔ ∃ e st, probes s !! (e, i) = Some (Probing st))
  ∧ ∀ e e' st st', probes s !! (e, i) = Some (Probing st) → probes s !! (e', i) = Some (Probing st') → e = e'.
Proof. intros I%inv_run. split; [apply (inv_flag _ _ I)|]. intros. by eapply (inv_exclusive _ _ I). Qed.

(** ** Returning *)

Definition own_step (e : nat) (now : Z) (ev : event) : Prop :=
  ev = Launch e now ∨ ev = GiveUp e now ∨ ev = Return e.

Lemma run_cons ev evs s : run checks (ev :: evs) s = step checks ev s ≫= run checks evs.
Proof. by rewrite (run_app [ev] evs). Qed.

Lemma launches_finish e now err s c k :
  evaluations s !! e = Some c → ctx_err c = Some err → returned c = None →
  (length (results c) + k = length checks)%nat →
  ∃ s' c', run checks (replicate k (Launch e now)) s = Some s' ∧ evaluations s' !! e = Some c'
           ∧ ctx_err c' = Some err ∧ returned c' = None ∧ length (results c') = length checks.
Proof.
  revert s c; induction k as [|k IH]; intros s c Hc Hctx Hret Hlen.
  - exists s, c. split_and!; [done..|lia].
  - destruct (lookup_lt_is_Some_2 checks (length (results c))) as [rc Hrc]; [lia|].
    cbn [replicate]. rewrite run_cons. cbn [step]. rewrite Hc. cbn [mbind option_bind]. rewrite Hrc.
    cbn [mbind option_bind]. unfold launch. rewrite Hctx. cbv zeta.
    eapply IH; [cbn; apply lookup_insert_eq|done|done|]. cbn [results]. rewrite length_app. cbn. lia.
Qed.

(** An evaluation whose context has ended returns by its own steps alone, at
    most one per check and two more: no probe needs to answer, so a check that
    never does cannot hold the endpoint past its deadline. *)
Theorem evaluation_returns evs s e c err now :
  run checks evs initial = Some s → evaluations s !! e = Some c →
  ctx_err c = Some err → returned c = None →
  ∃ evs' s' c' rep, Forall (own_step e now) evs' ∧ (length evs' <= length checks + 2)%nat
    ∧ run checks evs' s = Some s' ∧ evaluations s' !! e = Some c' ∧ returned c' = Some rep.
Proof.
  intros I%inv_run Hc Hctx Hret. pose proof (ok_length _ _ _ (inv_eval _ _ I _ _ Hc)) as Hlen.
  destruct (launches_finish e now err s c (length checks - length (results c)))
    as (s1 & c1 & Hrun & Hc1 & Hctx1 & Hret1 & Hl1); [done..|lia|].
  assert (launched checks c1 = true) as Hd by (by apply Nat.eqb_eq).
  destruct (decide (pending c1 = ∅)) as [Hp|Hp].
  - eexists (replicate (length checks - length (results c)) (Launch e now) ++ [Return e]), _, _, _. split_and!.
    + apply Forall_app. split; [apply Forall_replicate; by left|].
      apply Forall_singleton. by right; right.
    + rewrite length_app, length_replicate. cbn. lia.
    + rewrite run_snoc, Hrun. cbn [mbind option_bind step]. rewrite Hc1. cbn [mbind option_bind].
      rewrite option_guard_True by done. reflexivity.
    + cbn. apply lookup_insert_eq.
    + done.
  - eexists (replicate (length checks - length (results c)) (Launch e now) ++ [GiveUp e now; Return e]), _, _, _. split_and!.
    + apply Forall_app. split; [apply Forall_replicate; by left|].
      apply Forall_cons_2; [by right; left|]. apply Forall_singleton. by right; right.
    + rewrite length_app, length_replicate. cbn. lia.
    + rewrite run_app, Hrun. cbn [mbind option_bind]. rewrite run_cons. cbn [step]. rewrite Hc1.
      cbn [mbind option_bind]. rewrite option_guard_True by done. cbn [mbind option_bind].
      rewrite Hctx1. cbn [mbind option_bind]. rewrite run_cons. cbn [step put evaluations].
      rewrite lookup_insert_eq. cbn [mbind option_bind]. rewrite option_guard_True; [reflexivity|].
      split_and!; cbn; [|done|done]. unfold launched. cbn. unfold given_up. rewrite length_imap. exact Hd.
    + cbn. apply lookup_insert_eq.
    + done.
Qed.
End spec.

(** Two checks, the second of which never answers: the first evaluation is given up
    at its deadline, a second one finds the probe still in flight. *)
Definition two_checks : list registered :=
  [{| module := "blog"; name := "db" |}; {| module := "blog"; name := "cache" |}].
Definition hung_probe : list event :=
  [Begin 0; Launch 0 0; Launch 0 0; Answer 0 0 Passes 3000000; Send 0 0; Receive 0 0;
   ContextEnds 0 "context deadline exceeded"; GiveUp 0 2000000000; Return 0;
   Begin 1; Launch 1 0; Launch 1 0; Answer 1 0 Passes 1000000; Send 1 0; Receive 1 0; Return 1].

Definition outcome_of (e : nat) (s : option state) : option (Status * list (Status * string)) :=
  s ← s; c ← evaluations s !! e; rep ← returned c;
  Some (report_status rep, map (λ r, (status r, error r)) (report_checks rep)).

Example hung_probe_reports :
  outcome_of 0 (run two_checks hung_probe initial)
  = Some (StatusDown, [(StatusDown, "context deadline exceeded"); (StatusUp, "")])
  ∧ outcome_of 1 (run two_checks hung_probe initial)
  = Some (StatusDown, [(StatusDown, "previous probe is still running"); (StatusUp, "")]).
Proof. vm_compute. split; reflexivity. Qed.

(** A state built by [run], and what it holds. *)
Definition after (evs : list event) : state := default initial (run two_checks evs initial).
Definition passing : list event :=
  [Begin 0; Launch 0 0; Launch 0 0; Answer 0 0 Passes 1; Answer 0 1 Passes 1; Send 0 0; Send 0 1;
   Receive 0 1; Receive 0 0; Return 0].


Lemma probes_never_overlap_witness :
  1%nat ∈ running (after hung_probe) ∧ ∃ e st, probes (after hung_probe) !! (e, 1%nat) = Some (Probing st).
Proof.
  assert (1%nat ∈ running (after hung_probe)) as H by (vm_compute; reflexivity).
  split; [exact H|].
  apply (probes_never_overlap two_checks hung_probe (after hung_probe) 1 ltac:(vm_compute; reflexivity)), H.
Defined.

Lemma evaluation_returns_witness :
  let s := after (take 7 hung_probe) in
  ∃ evs' s' c' rep, Forall (own_step 0 5) evs' ∧ (length evs' <= 4)%nat
    ∧ run two_checks evs' s = Some s' ∧ evaluations s' !! 0%nat = Some c' ∧ returned c' = Some rep.
Proof.
  cbv zeta.
  exact (evaluation_returns two_checks (take 7 hung_probe) (after (take 7 hung_probe)) 0 _ _ 5
           ltac:(vm_compute; reflexivity) ltac:(vm_compute; reflexivity) eq_refl eq_refl).
Defined.
