(* ===== verification/Modules.v ===== *)
(** * Modules and the application: src/module.go, src/app.go, src/execute.go

    A module's optional interfaces are optional fields; the registry of mounted
    modules, what is collected from it, construction ([New], [NewFromFactories]),
    the lifecycle, and [Run] around a server.  Gin's router, the listener and the
    server are third-party or operating-system code and are parameters; start and
    stop hooks, factories and writers act on a world of any type. *)

From S2P Require Import Prelude GoStrings Flag Config Orm Migrate Cli Health.

(** ** Errors *)

Inductive app_error :=
| ErrNoModules
| ErrDuplicateModule (name : string)
| ErrUnknownModule (text : string)
| ErrAlreadyRunning
| EmptyModuleName (position : nat)
| EmptyFactoryName (position : nat)
| NoBuildFunction (name : string)
| BuildFailed (name err : string)
| BuiltNil (name : string)
| BuiltNamed (name got : string)
| BadProxies (err : string)
| BadChecks (module : string) (err : register_error)
| EmptyCommandName (module : string)
| BuiltinCommand (module command : string)
| DuplicateModuleCommand (module1 module2 command : string)
| BadModels (module : string) (err : Orm.error)
| DuplicateMigration (version module1 module2 : string)
| MixedWidths (version1 version2 : string)
| RouterPanic (module : string)
| StartFailed (module err : string)
| StopFailed (err : string)
| ListenFailed (addr err : string)
| ServeFailed (err : string)
| ShutdownFailed (err : string)
| StopModules (err : app_error)
| Joined (errs : list app_error).

(** [errors.Join]: nil when every argument is. *)
Definition errors_Join (errs : list (option app_error)) : option app_error :=
  match omap id errs with [] => None | errs => Some (Joined errs) end.

(** The contexts hooks receive: the caller's, and what is derived from it. *)
Inductive context :=
| CallerContext
| NotifyContext (c : context)
| WithoutCancel (c : context)
| WithTimeout (c : context) (d : Z).

(** ** Modules *)

Section modules.
Context `{Unicode}.
Context {W T : Type}.

Record Lifecycle := {
  Start : context → W → option string * W;
  Stop : context → W → option string * W;
}.

(** A method and a path. *)
Definition route : Type := string * string.

Record Module := {
  mod_name : string;
  mod_routes : list route;  (** what [Routes] mounts *)
  mod_lifecycle : option Lifecycle;
  mod_checks : option (list Check);
  mod_commands : option (list (Command (W:=W)));
  mod_models : option (list Model);
  mod_migrations : option (list (M T));
}.

(** A factory; its [build] captures the construction context, and may be nil or
    return a nil module. *)
Record ModuleFactory := {
  factory_name : string;
  build : option (W → result string (option Module) * W);
}.
Definition LazyModule (name : string) (build : option (W → result string (option Module) * W)) :=
  {| factory_name := name; build := build |}.

Record registry := {
  modules : list Module;
  capabilities : gmap string (list string);
  sliced : bool;
  catalog : list string;
}.

Definition quoteAll (ss : list string) : list string := map Quote ss.

Definition clean_selection (selection : list string) : list string :=
  List.filter (λ s, negb (String.eqb s "")) (map TrimSpace selection).

Definition resolveSelection (registered selection : list string) : result app_error (list string) :=
  match clean_selection selection with
  | [] => Ok registered
  | clean =>
      let inRegistered : gset string := list_to_set registered in
      let unknown := List.filter (λ s, negb (bool_decide (s ∈ inRegistered))) clean in
      let want : gset string := list_to_set (List.filter (λ s, bool_decide (s ∈ inRegistered)) clean) in
      match unknown with
      | _ :: _ =>
          Err (ErrUnknownModule (Join (quoteAll unknown) ", " +:+ " not registered (registered: "
                                 +:+ Join (quoteAll registered) ", " +:+ ")"))
      | [] => Ok (List.filter (λ n, bool_decide (n ∈ want)) registered)
      end
  end.

Definition present {A} (name : string) (field : option A) : list string :=
  match field with Some _ => [name] | None => [] end.

Definition capabilitiesOf (m : Module) : list string :=
  sort_by str_leb
    (present "Checker" (mod_checks m) ++ present "Lifecycle" (mod_lifecycle m)
     ++ present "Commander" (mod_commands m) ++ present "Modeler" (mod_models m)
     ++ present "Migrator" (mod_migrations m)).

Definition names (r : registry) : list string := map mod_name (modules r).

(** The validating loop of [newRegistry]: [byName] and [order]. *)
Fixpoint index_modules (i : nat) (ms : list Module) (byName : gmap string Module) (order : list string)
    : result app_error (gmap string Module * list string) :=
  match ms with
  | [] => Ok (byName, order)
  | m :: ms' =>
      let name := mod_name m in
      if String.eqb (TrimSpace name) "" then Err (EmptyModuleName i)
      else if bool_decide (is_Some (byName !! name)) then Err (ErrDuplicateModule name)
      else index_modules (S i) ms' (<[name := m]> byName) (order ++ [name])
  end.

Definition newRegistry (ms : list Module) (selection : list string) : result app_error registry :=
  match ms with
  | [] => Err ErrNoModules
  | _ =>
      '(byName, order) ← index_modules 0 ms ∅ [];
      wanted ← resolveSelection order selection;
      let mounted := omap (λ name, byName !! name) wanted in
      Ok {| modules := mounted;
            capabilities := list_to_map (map (λ m, (mod_name m, capabilitiesOf m)) mounted);
            sliced := length wanted <? length order;
            catalog := order |}
  end.

(** The validating loop of [buildSelectedModules]. *)
Fixpoint index_factories (i : nat) (fs : list ModuleFactory) (byName : gmap string ModuleFactory)
    (order : list string) : result app_error (gmap string ModuleFactory * list string) :=
  match fs with
  | [] => Ok (byName, order)
  | f :: fs' =>
      let name := factory_name f in
      if String.eqb (TrimSpace name) "" then Err (EmptyFactoryName i)
      else match build f with
      | None => Err (NoBuildFunction name)
      | Some _ =>
          if bool_decide (is_Some (byName !! name)) then Err (ErrDuplicateModule name)
          else index_factories (S i) fs' (<[name := f]> byName) (order ++ [name])
      end
  end.

(** The building loop; a factory that was validated has a [build]. *)
Fixpoint build_each (fs : list ModuleFactory) (ms : list Module) (w : W)
    : result app_error (list Module) * W :=
  match fs with
  | [] => (Ok ms, w)
  | f :: fs' =>
      let name := factory_name f in
      match build f with
      | None => (Err (NoBuildFunction name), w)
      | Some b =>
          match b w with
          | (Err err, w) => (Err (BuildFailed name err), w)
          | (Ok None, w) => (Err (BuiltNil name), w)
          | (Ok (Some m), w) =>
              if negb (String.eqb (mod_name m) name) then (Err (BuiltNamed name (mod_name m)), w)
              else build_each fs' (ms ++ [m]) w
          end
      end
  end.

Definition buildSelectedModules (fs : list ModuleFactory) (selection : list string) (w : W)
    : result app_error (list Module) * W :=
  match fs with
  | [] => (Err ErrNoModules, w)
  | _ =>
      match index_factories 0 fs ∅ [] with
      | Err err => (Err err, w)
      | Ok (byName, order) =>
          match resolveSelection order selection with
          | Err err => (Err err, w)
          | Ok wanted => build_each (omap (λ name, byName !! name) wanted) [] w
          end
      end
  end.

(** ** Lifecycle *)

(** The modules that own a resource, with the name their errors carry. *)
Definition lifecycles (ms : list Module) : list (string * Lifecycle) :=
  omap (λ m, pair (mod_name m) <$> mod_lifecycle m) ms.

(** The loop of [stopAll], over the modules in the order it visits them. *)
Fixpoint stop_each (ctx : context) (lcs : list (string * Lifecycle)) (errs : list (option app_error)) (w : W)
    : list (option app_error) * W :=
  match lcs with
  | [] => (errs, w)
  | (_, lc) :: lcs' =>
      let '(err, w) := Stop lc ctx w in
      stop_each ctx lcs' (errs ++ [StopFailed <$> err]) w
  end.
Definition stopAll (ctx : context) (lcs : list (string * Lifecycle)) (w : W) : option app_error * W :=
  let '(errs, w) := stop_each ctx (rev lcs) [] w in (errors_Join errs, w).

(** [registry.start]'s loop. *)
Fixpoint start_each (ctx : context) (lcs started : list (string * Lifecycle)) (w : W) : option app_error * W :=
  match lcs with
  | [] => (None, w)
  | (name, lc) :: lcs' =>
      match Start lc ctx w with
      | (Some err, w) =>
          let '(serr, w) := stopAll ctx started w in
          (errors_Join [Some (StartFailed name err); serr], w)
      | (None, w) => start_each ctx lcs' (started ++ [(name, lc)]) w
      end
  end.
Definition start (r : registry) (ctx : context) (w : W) : option app_error * W :=
  start_each ctx (lifecycles (modules r)) [] w.

Definition stop (r : registry) (ctx : context) (w : W) : option app_error * W :=
  stopAll ctx (lifecycles (modules r)) w.

(** ** What is collected from the mounted modules *)

Fixpoint collectChecks (ms : list Module) (checks : list registered) : result app_error (list registered) :=
  match ms with
  | [] => Ok checks
  | m :: ms' =>
      match mod_checks m with
      | None => collectChecks ms' checks
      | Some cs =>
          match Health.Register (mod_name m) cs checks with
          | (Some err, _) => Err (BadChecks (mod_name m) err)
          | (None, checks) => collectChecks ms' checks
          end
      end
  end.

Fixpoint collectModels (ms : list Module) (r : Registry) : result app_error Registry :=
  match ms with
  | [] => Ok r
  | m :: ms' =>
      match mod_models m with
      | None => collectModels ms' r
      | Some models =>
          match Orm.Register r (mod_name m) models with
          | (_, Some err) => Err (BadModels (mod_name m) err)
          | (r, None) => collectModels ms' r
          end
      end
  end.

(** The state of [collectMigrations]: [out], [seen], and [width] with
    [widthVersion]. *)
Record collected := {
  out : list (M T);
  seen : gmap string string;
  width : nat;
  widthVersion : string;
}.

(** The inner loop, over one module's migrations. *)
Fixpoint collect_migrations (module : string) (migs : list (M T)) (st : collected)
    : result app_error collected :=
  match migs with
  | [] => Ok st
  | mig :: migs' =>
      let v := Version mig in
      match seen st !! v with
      | Some prev => Err (DuplicateMigration v prev module)
      | None =>
          let take w wv :=
            collect_migrations module migs'
              {| out := out st ++ [mig]; seen := <[v := module]> (seen st); width := w; widthVersion := wv |} in
          if width st =? 0 then take (String.length v) v
          else if negb (String.length v =? width st) then Err (MixedWidths (widthVersion st) v)
          else take (width st) (widthVersion st)
      end
  end.

Fixpoint collect_modules (ms : list Module) (st : collected) : result app_error collected :=
  match ms with
  | [] => Ok st
  | m :: ms' =>
      match mod_migrations m with
      | None => collect_modules ms' st
      | Some migs => st ← collect_migrations (mod_name m) migs st; collect_modules ms' st
      end
  end.

Definition collectMigrations (ms : list Module) : result app_error (list (M T)) :=
  st ← collect_modules ms {| out := []; seen := ∅; width := 0; widthVersion := "" |}; Ok (out st).

(** [collectCommands]: [owner] and the commands so far.  A built-in's owner is the
    empty name. *)
Fixpoint collect_commands (module : string) (cs : list (Command (W:=W)))
    (owner : gmap string string) (cmds : list Command)
    : result app_error (gmap string string * list Command) :=
  match cs with
  | [] => Ok (owner, cmds)
  | c :: cs' =>
      let name := cmd_name c in
      if String.eqb (TrimSpace name) "" then Err (EmptyCommandName module)
      else match owner !! name with
      | Some prev =>
          if String.eqb prev "" then Err (BuiltinCommand module name)
          else Err (DuplicateModuleCommand prev module name)
      | None => collect_commands module cs' (<[name := module]> owner) (cmds ++ [c])
      end
  end.

Fixpoint collect_commands_of (ms : list Module) (owner : gmap string string) (cmds : list Command)
    : result app_error (list Command) :=
  match ms with
  | [] => Ok cmds
  | m :: ms' =>
      match mod_commands m with
      | None => collect_commands_of ms' owner cmds
      | Some cs => '(owner, cmds) ← collect_commands (mod_name m) cs owner cmds;
                   collect_commands_of ms' owner cmds
      end
  end.

Definition collectCommands (builtins : list (Command (W:=W))) (ms : list Module)
    : result app_error (list Command) :=
  collect_commands_of ms (list_to_map (map (λ c, (cmd_name c, "")) (rev builtins))) [].

(** ** Construction *)

(** Gin: what the engine lists, in its own order, once more routes are mounted on
    those it lists; [None] when it panics. *)
Context (mount : list route → list route → option (list route)).

Definition routeKey (r : route) : string := r.1 +:+ " " +:+ r.2.

(** Attribute every route not claimed yet. *)
Fixpoint claim (module : string) (infos : list route) (claimed : gset string) (owner : gmap string string)
    : gset string * gmap string string :=
  match infos with
  | [] => (claimed, owner)
  | ri :: infos' =>
      let k := routeKey ri in
      if bool_decide (k ∈ claimed) then claim module infos' claimed owner
      else claim module infos' ({[k]} ∪ claimed) (<[k := module]> owner)
  end.

(** The mount loop of [New]. *)
Fixpoint mount_each (ms : list Module) (infos : list route) (claimed : gset string) (owner : gmap string string)
    : result app_error (list route * gmap string string) :=
  match ms with
  | [] => Ok (infos, owner)
  | m :: ms' =>
      match mount infos (mod_routes m) with
      | None => Err (RouterPanic (mod_name m))
      | Some infos =>
          let '(claimed, owner) := claim (mod_name m) infos claimed owner in
          mount_each ms' infos claimed owner
      end
  end.

(** [health.Mount]. *)
Definition health_routes : list route := [("GET", "/healthz"); ("GET", "/readyz")].

Record App := {
  opts : Options;
  app_registry : registry;
  engine_routes : list route;
  routeOwner : gmap string string;
  moduleCommands : list (Command (W:=W));
  models : Registry;
  migrations : list (M T);
  checks : list registered;
}.

(** [New]: [proxies] is what the engine makes of the trusted proxies, [builtins]
    the commands Fabrin owns.  The logger and Gin's mode have no part in what
    follows. *)
Definition New (builtins : list (Command (W:=W))) (proxies : list string → option string)
    (o : Options) (ms : list Module) : result app_error App :=
  let o := WithDefaults o in
  reg ← newRegistry ms (Modules o);
  match proxies (TrustedProxies o) with
  | Some err => Err (BadProxies err)
  | None =>
      chk ← collectChecks (modules reg) [];
      match mount [] health_routes with
      | None => Err (RouterPanic "")
      | Some infos =>
          '(infos, owner) ← mount_each (modules reg) infos (list_to_set (map routeKey infos)) ∅;
          cmds ← collectCommands builtins (modules reg);
          mdls ← collectModels (modules reg) NewRegistry;
          migs ← collectMigrations (modules reg);
          Ok {| opts := o; app_registry := reg; engine_routes := infos; routeOwner := owner;
                moduleCommands := cmds; models := mdls; migrations := migs; checks := chk |}
      end
  end.

Definition NewFromFactories (builtins : list (Command (W:=W))) (proxies : list string → option string)
    (o : Options) (fs : list ModuleFactory) (w : W) : result app_error App * W :=
  match buildSelectedModules fs (Modules o) w with
  | (Err err, w) => (Err err, w)
  | (Ok ms, w) => (New builtins proxies o ms, w)
  end.

(** ** What an application reports *)

Record Route := { Method : string; Path : string; Module_ : string }.

Definition route_leb (a b : Route) : bool :=
  if String.eqb (Path a) (Path b) then str_leb (Method a) (Method b) else str_leb (Path a) (Path b).

Definition Routes (a : App) : list Route :=
  sort_by route_leb
    (map (λ ri, {| Method := ri.1; Path := ri.2; Module_ := default "" (routeOwner a !! routeKey ri) |})
       (engine_routes a)).

(** The commands [Execute] dispatches to. *)
Definition commands (builtins : list (Command (W:=W))) (a : App) : list Command := builtins ++ moduleCommands a.

Fixpoint print_routes (write : string → W → option string * W) (mw pw : nat) (rs : list Route) (w : W)
    : option string * W :=
  match rs with
  | [] => (None, w)
  | r :: rs' =>
      let owner := if String.eqb (Module_ r) "" then "(framework)" else Module_ r in
      match write (pad_right mw (Method r) +:+ "  " +:+ pad_right pw (Path r) +:+ "  " +:+ owner +:+ newline) w with
      | (Some err, w) => (Some err, w)
      | (None, w) => print_routes write mw pw rs' w
      end
  end.

Definition printRoutes (write : string → W → option string * W) (a : App) (w : W) : option string * W :=
  let routes := Routes a in
  let methodWidth := foldl (λ n r, Nat.max n (String.length (Method r))) 0 routes in
  let pathWidth := foldl (λ n r, Nat.max n (String.length (Path r))) 0 routes in
  print_routes write methodWidth pathWidth routes w.

(** The build info of [runtime/debug], as far as the version needs it. *)
Record Dependency := { dep_path : string; dep_version : string; dep_replace : option string }.
Record BuildInfo := { main_path : string; main_version : string; deps : list Dependency }.
Definition modulePath : string := "github.com/usefabrin/fabrin".

Definition fabrinVersion (info : option BuildInfo) : string :=
  match info with
  | None => "unknown"
  | Some info =>
      if String.eqb (main_path info) modulePath && negb (String.eqb (main_version info) "")
      then main_version info
      else match List.find (λ d, String.eqb (dep_path d) modulePath) (deps info) with
           | None => "unknown"
           | Some d => match dep_replace d with
                       | Some v => v +:+ " (replaced)"
                       | None => dep_version d
                       end
           end
  end.
Definition printVersion (write : string → W → option string * W) (info : option BuildInfo) (w : W)
    : option string * W :=
  write ("fabrin " +:+ fabrinVersion info +:+ newline) w.

(** ** Running *)

(** The fields behind the mutex. *)
Record run_state := { app_running : bool; app_addr : string }.

(** The listener and the server: binding an address, what the select of [Run] sees
    first, [Shutdown], and the value the serving goroutine sends. *)
Inductive served := ServerDied (err : option string) | ContextDone.
Record Server := {
  listen : string → W → result string string * W;
  wait : W → served * W;
  shutdown : context → W → option string * W;
  serve_result : W → option string * W;
}.

Definition unwrap (err : option string) (f : string → app_error) : option app_error := f <$> err.

(** [Run]; the deferred function resets the state whichever way it returns. *)
Definition Run (srv : Server) (a : App) (st : run_state) (w : W)
    : option app_error * run_state * W :=
  if app_running st then (Some ErrAlreadyRunning, st, w)
  else
    let idle := {| app_running := false; app_addr := "" |} in
    let ctx := NotifyContext CallerContext in
    match start (app_registry a) ctx w with
    | (Some err, w) => (Some err, idle, w)
    | (None, w) =>
        match listen srv (Addr (opts a)) w with
        | (Err err, w) =>
            let '(serr, w) := stop (app_registry a) ctx w in
            (errors_Join [Some (ListenFailed (Addr (opts a)) err); serr], idle, w)
        | (Ok _, w) =>
            match wait srv w with
            | (ServerDied err, w) =>
                let '(serr, w) := stop (app_registry a) (WithoutCancel ctx) w in
                (errors_Join [ServeFailed <$> err; serr], idle, w)
            | (ContextDone, w) =>
                let shutdownCtx := WithTimeout (WithoutCancel ctx) (ShutdownTimeout (opts a)) in
                let '(herr, w) := shutdown srv shutdownCtx w in
                let '(err, w) := serve_result srv w in
                let '(serr, w) := stop (app_registry a) shutdownCtx w in
                (errors_Join [ShutdownFailed <$> herr; ServeFailed <$> err; StopModules <$> serr], idle, w)
            end
        end
    end.
End modules.
