(* ===== verification/ModulesSpec.v ===== *)
(** * Modules and construction are correct

    Selection, construction from factories, and what construction collects:
    routes and their owners, commands, migrations. *)

From S2P Require Import Prelude GoStrings Flag Config Orm Migrate Cli CliSpec Health Modules.

Section spec.
Context `{Unicode}.
Context {W T : Type}.

#[local] Abbreviation Module := (Module (W:=W) (T:=T)).
#[local] Abbreviation ModuleFactory := (ModuleFactory (W:=W) (T:=T)).
Implicit Types m : Module.
Implicit Types f : ModuleFactory.

(** ** Selection *)

(** A name the selection mounts: any, when it is empty. *)
Definition selects (selection : list string) (name : string) : bool :=
  match clean_selection selection with
  | [] => true
  | clean => bool_decide (name ∈ clean)
  end.

Lemma resolveSelection_spec registered selection :
  match resolveSelection registered selection with
  | Ok wanted => (∀ s, s ∈ clean_selection selection → s ∈ registered)
                 ∧ wanted = List.filter (selects selection) registered
  | Err e => ∃ text s, e = ErrUnknownModule text ∧ s ∈ clean_selection selection ∧ s ∉ registered
  end.
Proof.
  unfold resolveSelection, selects. destruct (clean_selection selection) as [|s0 clean] eqn:Ec.
  { split; [set_solver|]. by rewrite filter_bool_all. }
  rewrite <-Ec. clear Ec s0 clean. set (clean := clean_selection selection).
  destruct (List.filter _ clean) as [|s l] eqn:E.
  - assert (∀ s, s ∈ clean → s ∈ registered) as Hall.
    { intros s Hs. destruct (decide (s ∈ registered)) as [|Hn]; [done|].
      assert (s ∈ ([] : list string)) as []%not_elem_of_nil. rewrite <-E, elem_of_filter_bool.
      split; [done|]. rewrite bool_decide_false; [done|]. by rewrite elem_of_list_to_set. }
    split; [done|]. apply List.filter_ext. intros n. apply bool_decide_ext.
    rewrite elem_of_list_to_set, elem_of_filter_bool, bool_decide_eq_true, elem_of_list_to_set. naive_solver.
  - assert (s ∈ List.filter (λ s, negb (bool_decide (s ∈ (list_to_set registered : gset string)))) clean) as Hs
      by (rewrite E; set_solver).
    apply elem_of_filter_bool in Hs as [Hs Hn]. rewrite negb_true_iff, bool_decide_eq_false, elem_of_list_to_set in Hn.
    eauto.
Qed.

(** A name that could be selected and shown. *)
Definition nameable (name : string) : Prop := TrimSpace name ≠ "".

Lemma index_modules_spec i ms byName order :
  (∀ n m, byName !! n = Some m → n ∈ order ∧ mod_name m = n) → NoDup order → (∀ n, n ∈ order → is_Some (byName !! n)) →
  match index_modules i ms byName order with
  | Ok (byName', order') =>
      (∀ m, m ∈ ms → nameable (mod_name m)) ∧ order' = order ++ map mod_name ms ∧ NoDup order'
      ∧ (∀ n m, byName' !! n = Some m → n ∈ order' ∧ mod_name m = n)
      ∧ (∀ m, m ∈ ms → byName' !! mod_name m = Some m)
      ∧ (∀ n, n ∈ order → byName' !! n = byName !! n)
  | Err e => (∃ j m, ms !! j = Some m ∧ ¬ nameable (mod_name m) ∧ e = EmptyModuleName (i + j))
             ∨ ∃ n, e = ErrDuplicateModule n ∧ ¬ NoDup (order ++ map mod_name ms)
  end.
Proof.
  revert i byName order; induction ms as [|m ms IH]; intros i byName order Hby Hnd Hsome; cbn [index_modules].
  { cbn. rewrite app_nil_r. split_and!; [set_solver|done|done|done|set_solver|done]. }
  destruct (String.eqb_spec (TrimSpace (mod_name m)) "") as [E|Hname].
  { left. exists 0, m. split_and!; [done|by intros ?|]. by rewrite Nat.add_0_r. }
  case_bool_decide as Hdup.
  { right. exists (mod_name m). split; [done|]. destruct Hdup as [m' [Hin _]%Hby].
    cbn. rewrite NoDup_app. intros (_ & Hd & _). apply (Hd _ Hin). set_solver. }
  assert (mod_name m ∉ order) as Hout by (intros Hin; by apply Hdup, Hsome).
  specialize (IH (S i) (<[mod_name m := m]> byName) (order ++ [mod_name m])).
  destruct (index_modules _ ms _ _) as [[byName' order']|e].
  - destruct IH as (H1 & -> & H3 & H4 & H5 & H6).
    { intros n m'. rewrite lookup_insert_Some, elem_of_app. intros [[<- <-]|[_ [??]%Hby]]; set_solver. }
    { apply NoDup_app. split_and!; [done|set_solver|apply NoDup_singleton]. }
    { intros n [Hn| ->%list_elem_of_singleton]%elem_of_app; [|rewrite lookup_insert_eq; by eauto].
      rewrite lookup_insert_ne by (by intros <-). auto. }
    rewrite <-app_assoc in *. split_and!; [|done|done|done| |].
    + intros m' [->|Hm']%elem_of_cons; [done|auto].
    + intros m' [->|Hm']%elem_of_cons; [|auto]. rewrite H6 by set_solver. by rewrite lookup_insert_eq.
    + intros n Hn. rewrite H6 by set_solver. by rewrite lookup_insert_ne by (by intros <-).
  - destruct IH as [(j & m' & Hj & Hn & ->)|(n & -> & Hn)].
    { intros n m'. rewrite lookup_insert_Some, elem_of_app. intros [[<- <-]|[_ [??]%Hby]]; set_solver. }
    { apply NoDup_app. split_and!; [done|set_solver|apply NoDup_singleton]. }
    { intros n [Hn| ->%list_elem_of_singleton]%elem_of_app; [|rewrite lookup_insert_eq; by eauto].
      rewrite lookup_insert_ne by (by intros <-). auto. }
    + left. exists (S j), m'. split_and!; [done|done|]. f_equal. lia.
    + right. exists n. split; [done|]. by rewrite <-app_assoc in Hn.
Qed.

(** Looking the wanted names up gives back the modules that bear them. *)
Lemma omap_filter_names {A} (name : A → string) (p : string → bool) (byName : gmap string A) (l : list A) :
  (∀ x, x ∈ l → byName !! name x = Some x) →
  omap (λ n, byName !! n) (List.filter p (map name l)) = List.filter (λ x, p (name x)) l.
Proof.
  induction l as [|x l IH]; cbn; intros Hl; [done|].
  destruct (p (name x)); cbn; [rewrite Hl by set_solver; f_equal|]; apply IH; set_solver.
Qed.

Lemma map_filter_names {A} (name : A → string) (p : string → bool) (l : list A) :
  List.filter p (map name l) = map name (List.filter (λ x, p (name x)) l).
Proof. induction l as [|x l IH]; cbn; [done|]. destruct (p (name x)); cbn; by rewrite IH. Qed.

(** What a registry built from [ms] under a selection is. *)
Definition registry_of (ms : list Module) (selection : list string) : registry :=
  let mounted := List.filter (λ m, selects selection (mod_name m)) ms in
  {| modules := mounted;
     capabilities := list_to_map (map (λ m, (mod_name m, capabilitiesOf m)) mounted);
     sliced := length mounted <? length ms;
     catalog := map mod_name ms |}.

(** The module sets and selections an application can be built from. *)
Definition mountable (ms : list Module) (selection : list string) : Prop :=
  ms ≠ [] ∧ (∀ m, m ∈ ms → nameable (mod_name m)) ∧ NoDup (map mod_name ms)
  ∧ ∀ s, s ∈ clean_selection selection → s ∈ map mod_name ms.

(** A registry is built exactly from a non-empty set of distinctly named modules
    and a selection that names only registered ones. It mounts, in registration
    order whatever the order of the selection, exactly the modules selected (all,
    for an empty selection), keeps the whole catalogue, and calls itself sliced
    exactly when something was left out. Otherwise the error is the one the wiring
    mistake calls for. *)
Theorem newRegistry_spec (ms : list Module) selection :
  match newRegistry ms selection with
  | Ok r => mountable ms selection ∧ r = registry_of ms selection
            ∧ (sliced r = true ↔ ∃ m, m ∈ ms ∧ selects selection (mod_name m) = false)
  | Err e =>
      ¬ mountable ms selection
      ∧ (e = ErrNoModules ∧ ms = []
         ∨ (∃ i m, ms !! i = Some m ∧ ¬ nameable (mod_name m) ∧ e = EmptyModuleName i)
         ∨ (∃ n, e = ErrDuplicateModule n ∧ ¬ NoDup (map mod_name ms))
         ∨ ∃ text s, e = ErrUnknownModule text ∧ s ∈ clean_selection selection ∧ s ∉ map mod_name ms)
  end.
Proof.
  unfold newRegistry, mountable. destruct ms as [|m0 ms']; [naive_solver|].
  assert (m0 :: ms' ≠ []) as Hne by done. set (ms := m0 :: ms') in *. clearbody ms.
  pose proof (index_modules_spec 0 ms ∅ []) as Hi.
  specialize (Hi ltac:(set_solver) ltac:(constructor) ltac:(set_solver)).
  destruct (index_modules 0 ms ∅ []) as [[byName order]|e]; cbn [mbind result_bind].
  - destruct Hi as (H1 & -> & H3 & _ & H5 & _). rewrite app_nil_l in *.
    pose proof (resolveSelection_spec (map mod_name ms) selection) as Hr.
    destruct (resolveSelection _ _) as [wanted|e]; cbn [mbind result_bind]; [|naive_solver].
    destruct Hr as [Hknown ->]. split; [done|]. rewrite omap_filter_names, map_filter_names, !length_map by done.
    split; [done|]. cbn [sliced]. rewrite Nat.ltb_lt. split.
    + intros Hlt. destruct (List.filter (λ m, negb (selects selection (mod_name m))) ms) as [|m l] eqn:E.
      * rewrite filter_bool_all in Hlt; [lia|]. intros m Hm.
        destruct (selects selection (mod_name m)) eqn:Es; [done|].
        assert (m ∈ ([] : list Module)) as []%not_elem_of_nil. rewrite <-E, elem_of_filter_bool. by rewrite Es.
      * assert (m ∈ m :: l) as Hm by set_solver. rewrite <-E, elem_of_filter_bool, negb_true_iff in Hm. eauto.
    + intros (m & Hm & Hs). apply list_elem_of_split in Hm as (l1 & l2 & ->).
      rewrite List.filter_app, !length_app. cbn. rewrite Hs.
      pose proof (filter_length_le (λ m, selects selection (mod_name m)) l1).
      pose proof (filter_length_le (λ m, selects selection (mod_name m)) l2). lia.
  - destruct Hi as [(j & m & Hj & Hn & ->)|(n & -> & Hn)].
    + split; [|right; left; by exists j, m]. intros (_ & Hall & _). apply Hn, Hall. by eapply list_elem_of_lookup_2.
    + split; [naive_solver|]. right. right. left. by exists n.
Qed.

(** ** Factories *)

Lemma index_factories_spec i fs byName order :
  (∀ n f, byName !! n = Some f → n ∈ order ∧ factory_name f = n) → NoDup order → (∀ n, n ∈ order → is_Some (byName !! n)) →
  match index_factories i fs byName order with
  | Ok (byName', order') =>
      (∀ f, f ∈ fs → nameable (factory_name f) ∧ is_Some (build f)) ∧ order' = order ++ map factory_name fs
      ∧ NoDup order'
      ∧ (∀ f, f ∈ fs → byName' !! factory_name f = Some f)
      ∧ (∀ n, n ∈ order → byName' !! n = byName !! n)
  | Err _ => ¬ ((∀ f, f ∈ fs → nameable (factory_name f) ∧ is_Some (build f)) ∧ NoDup (order ++ map factory_name fs))
  end.
Proof.
  revert i byName order; induction fs as [|f fs IH]; intros i byName order Hby Hnd Hsome; cbn [index_factories].
  { cbn. rewrite app_nil_r. split_and!; [set_solver|done|done|set_solver|done]. }
  destruct (String.eqb_spec (TrimSpace (factory_name f)) "") as [E|Hname].
  { intros [Hall _]. by apply (Hall f ltac:(set_solver)). }
  destruct (build f) as [b|] eqn:Eb.
  2: { intros [Hall _]. destruct (Hall f ltac:(set_solver)) as [_ Hb]. rewrite Eb in Hb. by destruct Hb. }
  case_bool_decide as Hdup.
  { destruct Hdup as [f' [Hin _]%Hby]. intros [_ Hd]. revert Hd. cbn. rewrite NoDup_app.
    intros (_ & Hd & _). apply (Hd _ Hin). set_solver. }
  assert (factory_name f ∉ order) as Hout by (intros Hin; by apply Hdup, Hsome).
  specialize (IH (S i) (<[factory_name f := f]> byName) (order ++ [factory_name f])).
  destruct (index_factories _ fs _ _) as [[byName' order']|e].
  - destruct IH as (H1 & -> & H3 & H5 & H6).
    { intros n f'. rewrite lookup_insert_Some, elem_of_app. intros [[<- <-]|[_ [??]%Hby]]; set_solver. }
    { apply NoDup_app. split_and!; [done|set_solver|apply NoDup_singleton]. }
    { intros n [Hn| ->%list_elem_of_singleton]%elem_of_app; [|rewrite lookup_insert_eq; by eauto].
      rewrite lookup_insert_ne by (by intros <-). auto. }
    rewrite <-app_assoc in *. split_and!; [|done|done| |].
    + intros f' [->|Hf']%elem_of_cons; [split; [done|by rewrite Eb; eauto]|auto].
    + intros f' [->|Hf']%elem_of_cons; [|auto]. rewrite H6 by set_solver. by rewrite lookup_insert_eq.
    + intros n Hn. rewrite H6 by set_solver. by rewrite lookup_insert_ne by (by intros <-).
  - rewrite <-app_assoc in IH. intros [Hall Hd]. apply IH.
    { intros n f'. rewrite lookup_insert_Some, elem_of_app. intros [[<- <-]|[_ [??]%Hby]]; set_solver. }
    { apply NoDup_app. split_and!; [done|set_solver|apply NoDup_singleton]. }
    { intros n [Hn| ->%list_elem_of_singleton]%elem_of_app; [|rewrite lookup_insert_eq; by eauto].
      rewrite lookup_insert_ne by (by intros <-). auto. }
    split; [|done]. intros f' Hf'. apply Hall. set_solver.
Qed.

(** The catalogues and selections a process can be built from. *)
Definition buildable (fs : list ModuleFactory) (selection : list string) : Prop :=
  fs ≠ [] ∧ (∀ f, f ∈ fs → nameable (factory_name f) ∧ is_Some (build f)) ∧ NoDup (map factory_name fs)
  ∧ ∀ s, s ∈ clean_selection selection → s ∈ map factory_name fs.

Definition selected_factories (selection : list string) (fs : list ModuleFactory) : list ModuleFactory :=
  List.filter (λ f, selects selection (factory_name f)) fs.

(** Building in order: the world passes through the builders one by one, and the
    first that fails is the last that runs. *)
Inductive builds : list ModuleFactory → W → result app_error (list Module) → W → Prop :=
| builds_done w : builds [] w (Ok []) w
| builds_fails f b fs w err w' :
    build f = Some b → b w = (Err err, w') → builds (f :: fs) w (Err (BuildFailed (factory_name f) err)) w'
| builds_nil f b fs w w' :
    build f = Some b → b w = (Ok None, w') → builds (f :: fs) w (Err (BuiltNil (factory_name f))) w'
| builds_misnamed f b fs w m w' :
    build f = Some b → b w = (Ok (Some m), w') → mod_name m ≠ factory_name f →
    builds (f :: fs) w (Err (BuiltNamed (factory_name f) (mod_name m))) w'
| builds_next f b fs w m w1 r w' :
    build f = Some b → b w = (Ok (Some m), w1) → mod_name m = factory_name f → builds fs w1 r w' →
    builds (f :: fs) w (match r with Ok ms => Ok (m :: ms) | Err e => Err e end) w'.

Lemma build_each_builds fs ms w :
  (∀ f, f ∈ fs → is_Some (build f)) →
  ∃ r w', builds fs w r w'
          ∧ build_each fs ms w = (match r with Ok ms' => Ok (ms ++ ms') | Err e => Err e end, w').
Proof.
  revert ms w; induction fs as [|f fs IH]; intros ms w Hb; cbn [build_each].
  { exists (Ok []), w. rewrite app_nil_r. split; [constructor|done]. }
  destruct (Hb f ltac:(set_solver)) as [b Eb]. rewrite Eb.
  destruct (b w) as [[[m|]|err] w'] eqn:Ew.
  - destruct (String.eqb_spec (mod_name m) (factory_name f)) as [En|Hn]; cbn [negb].
    + destruct (IH (ms ++ [m]) w') as (r & w'' & Hr & ->); [intros; apply Hb; set_solver|].
      eexists _, w''. split; [by eapply builds_next|]. destruct r; [|done]. by rewrite <-app_assoc.
    + eexists _, w'. split; [by eapply builds_misnamed|done].
  - eexists _, w'. split; [by eapply builds_nil|done].
  - eexists _, w'. split; [by eapply builds_fails|done].
Qed.

Lemma builds_names fs w ms w' : builds fs w (Ok ms) w' → map mod_name ms = map factory_name fs.
Proof.
  remember (Ok ms) as r eqn:Er. intros Hb. revert ms Er.
  induction Hb as [| | | |f b fs w m w1 r w' _ _ Hn _ IH]; intros ms; try done; [by intros [= <-]|].
  destruct r as [ms'|]; [|done]. intros [= <-]. cbn. by rewrite Hn, (IH ms').
Qed.

(** C30: nothing is built before the whole catalogue and the selection are known to be
    good: on an empty catalogue, a blank or repeated name, a missing builder or a
    selection of something unregistered, an error is returned and no builder has
    run. Otherwise exactly the selected factories are built, once each and in
    registration order, up to the first that fails, returns nothing or returns a
    module of another name. *)
Theorem buildSelectedModules_spec (fs : list ModuleFactory) selection (w : W) :
  let '(r, w') := buildSelectedModules fs selection w in
  buildable fs selection ∧ builds (selected_factories selection fs) w r w'
  ∨ ¬ buildable fs selection ∧ is_ok r = false ∧ w' = w.
Proof.
  unfold buildSelectedModules, buildable. destruct fs as [|f0 fs']; [right; naive_solver|].
  assert (f0 :: fs' ≠ []) as Hne by done. set (fs := f0 :: fs') in *. clearbody fs.
  pose proof (index_factories_spec 0 fs ∅ [] ltac:(set_solver) ltac:(constructor) ltac:(set_solver)) as Hi.
  destruct (index_factories 0 fs ∅ []) as [[byName order]|e].
  - destruct Hi as (H1 & -> & H3 & H5 & _). rewrite app_nil_l in *.
    pose proof (resolveSelection_spec (map factory_name fs) selection) as Hr.
    destruct (resolveSelection _ _) as [wanted|e]; [|right; naive_solver].
    destruct Hr as [Hknown ->]. rewrite omap_filter_names by done.
    change (List.filter _ fs) with (selected_factories selection fs).
    destruct (build_each_builds (selected_factories selection fs) [] w) as (r & w' & Hr & ->).
    { intros f Hf. apply elem_of_filter_bool in Hf as [Hf _]. by apply H1. }
    left. split; [done|]. by destruct r.
  - right. rewrite app_nil_l in Hi. split; [naive_solver|done].
Qed.

Context (mount : list route → list route → option (list route)).

Lemma New_registry builtins proxies o (ms : list Module) a :
  New mount builtins proxies o ms = Ok a → newRegistry ms (Config.Modules o) = Ok (app_registry a).
Proof.
  unfold New. cbn zeta. change (Config.Modules (WithDefaults o)) with (Config.Modules o).
  rewrite result_bind_ok. intros (reg & Hreg & Hk). rewrite Hreg.
  destruct (proxies _); [done|]. apply result_bind_ok in Hk as (chk & _ & Hk).
  destruct (mount [] health_routes); [|done]. apply result_bind_ok in Hk as ([infos owner] & _ & Hk).
  apply result_bind_ok in Hk as (cmds & _ & Hk). apply result_bind_ok in Hk as (mdls & _ & Hk).
  by apply result_bind_ok in Hk as (migs & _ & [= <-]).
Qed.

(** An application built from factories never counts as sliced, whatever the
    selection left out: the registry is built from the modules that were built, so
    its catalogue lists the mounted modules alone. The refusal of the migration
    commands on a sliced process cannot fire for it. *)
Theorem NewFromFactories_never_sliced builtins proxies o (fs : list ModuleFactory) (w w' : W) a :
  NewFromFactories mount builtins proxies o fs w = (Ok a, w') →
  sliced (app_registry a) = false
  ∧ catalog (app_registry a) = List.filter (selects (Config.Modules o)) (map factory_name fs).
Proof.
  unfold NewFromFactories. pose proof (buildSelectedModules_spec fs (Config.Modules o) w) as Hb.
  destruct (buildSelectedModules _ _ w) as [[ms|e] w1]; intros [= Hnew <-].
  destruct Hb as [[_ Hb]|(_ & ? & _)]; [|done]. apply builds_names in Hb.
  apply New_registry in Hnew. pose proof (newRegistry_spec ms (Config.Modules o)) as Hr.
  rewrite Hnew in Hr. destruct Hr as (_ & Hreg & Hs).
  assert (catalog (app_registry a) = map mod_name ms) as Hcat by (by rewrite Hreg).
  assert (∀ m, m ∈ ms → selects (Config.Modules o) (mod_name m) = true) as Hall.
  { intros m Hm. apply (list_elem_of_fmap_2 mod_name) in Hm. change (mod_name <$> ms) with (map mod_name ms) in Hm.
    rewrite Hb in Hm. apply list_elem_of_fmap in Hm as (f & -> & Hf).
    by apply elem_of_filter_bool in Hf as [_ ?]. }
  split.
  - destruct (sliced _) eqn:E; [|done]. destruct (proj1 Hs eq_refl) as (m & Hm & Hf).
    by rewrite Hall in Hf.
  - rewrite Hcat, Hb. unfold selected_factories. by rewrite map_filter_names.
Qed.
End spec.

(** Two modules, of which a selection mounts one. *)
Definition bare_module (name : string) (routes : list route) : Module (W:=nat) (T:=unit) :=
  {| mod_name := name; mod_routes := routes; mod_lifecycle := None; mod_checks := None;
     mod_commands := None; mod_models := None; mod_migrations := None |}.
Definition bare_factory (name : string) : ModuleFactory (W:=nat) (T:=unit) :=
  LazyModule name (Some (λ w, (Ok (Some (bare_module name [])), S w))).
Definition selecting (names : list string) : Options :=
  {| Addr := ""; Config.Modules := names; Debug := false; LogFormat := ""; LogLevel := "";
     ShutdownTimeout := 0; ReadHeaderTimeout := 0; TrustedProxies := [] |}.

(** A router that lists routes in the order they were mounted. *)
Definition mount_in_order (held new : list route) : option (list route) :=
  if bool_decide (NoDup (map routeKey (held ++ new))) then Some (held ++ new) else None.

(** Mounting one of two modules: sliced for [New], not for [NewFromFactories]. *)
Example sliced_by_New :
  match @New identity_tables nat unit mount_in_order [] (λ _, None) (selecting ["blog"])
          [bare_module "blog" []; bare_module "shop" []] with
  | Ok a => (sliced (app_registry a), catalog (app_registry a))
  | Err _ => (false, [])
  end = (true, ["blog"; "shop"]).
Proof. vm_compute. reflexivity. Qed.

Lemma NewFromFactories_never_sliced_witness :
  ∃ a, @NewFromFactories identity_tables nat unit mount_in_order [] (λ _, None) (selecting ["blog"])
         [bare_factory "blog"; bare_factory "shop"] 0 = (Ok a, 1)
       ∧ sliced (app_registry a) = false.
Proof.
  eexists. split; [vm_compute; reflexivity|].
  apply (@NewFromFactories_never_sliced identity_tables nat unit mount_in_order [] (λ _, None) (selecting ["blog"])
           [bare_factory "blog"; bare_factory "shop"] 0 1 _ ltac:(vm_compute; reflexivity)).
Defined.
