(* ===== verification/CollectSpec.v ===== *)
(** * What an application collects is coherent

    The migrations the mounted modules declare form a set the engine accepts;
    every route is attributed to the module that mounted it; every command is the
    one its name dispatches to. *)

From S2P Require Import Prelude GoStrings Flag Config Orm Migrate Cli CliSpec Health Modules ModulesSpec.

Section migrations.
Context {W T : Type}.
#[local] Abbreviation Module := (Module (W:=W) (T:=T)).
Implicit Types ms : list Module.

(** ** Migrations *)

(** The migrations declared, with their modules, in registration order. *)
Definition declared ms : list (string * M T) :=
  ms ≫= λ m, map (pair (mod_name m)) (default [] (mod_migrations m)).

(** Versions that are distinct and, after the first non-empty one, of its width. *)
Definition one_sequence (vs : list string) : Prop :=
  NoDup vs ∧ ∀ i j a b, i < j → vs !! i = Some a → vs !! j = Some b → a ≠ "" → String.length a = String.length b.

Lemma one_sequence_snoc vs v :
  one_sequence (vs ++ [v]) ↔
  one_sequence vs ∧ (v ∉ vs) ∧ ∀ a, a ∈ vs → a ≠ "" → String.length a = String.length v.
Proof.
  unfold one_sequence. split.
  - intros [(Hnd & Hd & _)%NoDup_app Hw]. split_and!; [done| | |].
    + intros i j a b Hij Ha Hb. apply (Hw i j); [done|by apply lookup_app_l_Some..].
    + intros Hv. apply (Hd _ Hv). set_solver.
    + intros a (i & Ha)%list_elem_of_lookup. pose proof (lookup_lt_Some _ _ _ Ha).
      apply (Hw i (length vs)); [done|by apply lookup_app_l_Some|]. by rewrite lookup_app_r, Nat.sub_diag.
  - intros ((Hnd & Hw) & Hv & Ha). split.
    + apply NoDup_app. split_and!; [done|set_solver|apply NoDup_singleton].
    + intros i j a b Hij Hi Hj Hne. apply lookup_app_Some in Hj as [Hj|[Hl Hj]].
      * rewrite lookup_app_l in Hi by (apply lookup_lt_Some in Hj; lia). eauto.
      * apply list_lookup_singleton_Some in Hj as [Hj <-].
        rewrite lookup_app_l in Hi by lia. apply Ha; [|done]. by eapply list_elem_of_lookup_2.
Qed.

Lemma one_sequence_app vs vs' : one_sequence (vs ++ vs') → one_sequence vs.
Proof.
  induction vs' as [|v vs' IH] using rev_ind; [by rewrite app_nil_r|].
  rewrite app_assoc. intros [? _]%one_sequence_snoc. auto.
Qed.

(** The two loops as one, over the declared migrations. *)
Fixpoint take_all (l : list (string * M T)) (st : collected) : result app_error collected :=
  match l with
  | [] => Ok st
  | (module, mig) :: l' => st ← collect_migrations module [mig] st; take_all l' st
  end.

Lemma collect_migrations_cons module mig migs (st : collected (T:=T)) :
  collect_migrations module (mig :: migs) st
  = (st ← collect_migrations module [mig] st; collect_migrations module migs st).
Proof.
  cbn [collect_migrations]. destruct (seen st !! _); [done|].
  destruct (width st =? 0); [done|]. by destruct (negb _).
Qed.

Lemma take_all_module module migs l st :
  take_all (map (pair module) migs ++ l) st = (st ← collect_migrations module migs st; take_all l st).
Proof.
  revert st; induction migs as [|mig migs IH]; intros st; [done|].
  cbn [map app take_all]. rewrite (collect_migrations_cons module mig migs).
  destruct (collect_migrations module [mig] st) as [st'|e]; cbn [mbind result_bind]; [apply IH|done].
Qed.

Lemma collect_modules_take_all ms st : collect_modules ms st = take_all (declared ms) st.
Proof.
  revert st; induction ms as [|m ms IH]; intros st; [done|]. cbn [collect_modules].
  unfold declared. rewrite bind_cons, take_all_module. fold (declared ms).
  destruct (mod_migrations m) as [migs|]; cbn [default]; [|apply IH].
  destruct (collect_migrations _ _ st) as [st'|]; cbn [mbind result_bind Datatypes.id]; [apply IH|done].
Qed.

(** What the loop's state records of the versions taken so far. *)
Record recorded (l : list (string * M T)) (st : collected) : Prop := {
  rec_out : out st = map snd l;
  rec_sequence : one_sequence (map Version (out st));
  rec_seen : ∀ v n, seen st !! v = Some n ↔ ∃ mig, (n, mig) ∈ l ∧ Version mig = v;
  rec_width : ∀ v, v ∈ map Version (out st) → v ≠ "" → String.length v = width st;
  rec_widest : width st ≠ 0 → ∃ v, v ∈ map Version (out st) ∧ v = widthVersion st ∧ String.length v = width st;
}.

(** Why a migration is refused. *)
Definition refused (l : list (string * M T)) (n : string) (mig : M T) (e : app_error) : Prop :=
  (∃ n' mig', (n', mig') ∈ l ∧ Version mig' = Version mig ∧ e = DuplicateMigration (Version mig) n' n)
  ∨ ∃ mig', mig' ∈ map snd l ∧ String.length (Version mig') ≠ String.length (Version mig)
            ∧ e = MixedWidths (Version mig') (Version mig).

Lemma recorded_versions l st v :
  recorded l st → is_Some (seen st !! v) ↔ v ∈ map Version (out st).
Proof.
  intros Hr. split.
  - intros [n (mig & Hin & <-)%(rec_seen _ _ Hr)]. rewrite (rec_out _ _ Hr).
    apply list_elem_of_fmap. exists mig. split; [done|]. apply list_elem_of_fmap. by exists (n, mig).
  - intros (mig & -> & Hin)%list_elem_of_fmap. rewrite (rec_out _ _ Hr) in Hin.
    apply list_elem_of_fmap in Hin as ([n mig'] & -> & Hin). exists n. apply (rec_seen _ _ Hr). eauto.
Qed.

(** One migration: taken, or refused for a reason the set shows. *)
Lemma collect_one l st n mig :
  recorded l st →
  match collect_migrations n [mig] st with
  | Ok st' => recorded (l ++ [(n, mig)]) st'
  | Err e => refused l n mig e ∧ ¬ one_sequence (map Version (map snd l ++ [mig]))
  end.
Proof.
  intros Hr. pose proof (recorded_versions _ _ (Version mig) Hr) as Hseen.
  destruct Hr as [Hout Hseq Hs Hw Hwide]. cbn [collect_migrations].
  destruct (seen st !! Version mig) as [prev|] eqn:Eseen.
  { apply Hs in Eseen as Hp. destruct Hp as (mig' & Hin & Ev). split; [left; by exists prev, mig'|].
    rewrite map_app. cbn. intros (_ & Hn & _)%one_sequence_snoc. apply Hn. rewrite <-Hout. apply Hseen. eauto. }
  assert (Version mig ∉ map Version (out st)) as Hnew by (intros [? [=]]%Hseen).
  assert (∀ v, v ∈ map Version (out st ++ [mig]) ↔ v ∈ map Version (out st) ∨ v = Version mig) as Hin.
  { intros v. rewrite map_app, elem_of_app. cbn. by rewrite list_elem_of_singleton. }
  assert (∀ w wv, (∀ a, a ∈ map Version (out st) → a ≠ "" → String.length a = String.length (Version mig)) →
            (∀ v, v ∈ map Version (out st ++ [mig]) → v ≠ "" → String.length v = w) →
            (w ≠ 0 → ∃ v, v ∈ map Version (out st ++ [mig]) ∧ v = wv ∧ String.length v = w) →
            recorded (l ++ [(n, mig)])
              {| out := out st ++ [mig]; seen := <[Version mig := n]> (seen st); width := w; widthVersion := wv |}) as Htake.
  { intros w wv Hsame Hw' Hwide'. split; cbn [out seen width widthVersion]; [| | |done|done].
    - by rewrite Hout, map_app.
    - rewrite map_app. apply one_sequence_snoc. by split_and!.
    - intros v n'. rewrite lookup_insert_Some, Hs. setoid_rewrite elem_of_app. setoid_rewrite list_elem_of_singleton.
      split.
      + intros [[<- <-]|[Hne (mig' & ? & ?)]]; [by exists mig; auto|by exists mig'; auto].
      + intros (mig' & [Hl|[= -> ->]] & <-); [right|by left]. split; [|by eauto].
        intros E. apply Hnew. rewrite E, Hout. apply list_elem_of_fmap. exists mig'. split; [done|].
        apply list_elem_of_fmap. by exists (n', mig'). }
  destruct (Nat.eqb_spec (width st) 0) as [Hz|Hnz].
  { apply Htake.
    - intros a Ha Hne. pose proof (Hw _ Ha Hne) as E. rewrite Hz in E. by destruct a.
    - intros v [Hv| ->]%Hin Hne; [|done]. pose proof (Hw _ Hv Hne) as E. rewrite Hz in E. by destruct v.
    - intros _. exists (Version mig). split_and!; [|done|done]. apply Hin. by right. }
  destruct (Nat.eqb_spec (String.length (Version mig)) (width st)) as [Hsame|Hother]; cbn [negb].
  - apply Htake.
    + intros a Ha Hne. rewrite Hsame. auto.
    + intros v [Hv| ->]%Hin Hne; auto.
    + intros _. destruct (Hwide Hnz) as (v & Hv & E & Hl). exists v. split_and!; [|done|done]. apply Hin. by left.
  - destruct (Hwide Hnz) as (v & Hv & <- & Hl). apply list_elem_of_fmap in Hv as (mig' & -> & Hv).
    split.
    + right. exists mig'. split_and!; [by rewrite <-Hout|lia|done].
    + rewrite map_app, <-Hout. cbn. intros (_ & _ & H)%one_sequence_snoc. apply Hother. rewrite <-Hl. symmetry.
      apply H; [by apply (list_elem_of_fmap_2 Version)|]. intros E. rewrite E in Hl. cbn in Hl. lia.
Qed.

Lemma take_all_spec l l' st :
  recorded l st →
  match take_all l' st with
  | Ok st' => recorded (l ++ l') st'
  | Err e => ¬ one_sequence (map Version (map snd (l ++ l')))
             ∧ ∃ pre n mig post, l' = pre ++ (n, mig) :: post ∧ refused (l ++ pre) n mig e
  end.
Proof.
  revert l st; induction l' as [|[n mig] l' IH]; intros l st Hr; cbn [take_all]; [by rewrite app_nil_r|].
  pose proof (collect_one l st n mig Hr) as H1. destruct (collect_migrations n [mig] st) as [st'|e].
  - specialize (IH _ _ H1). cbn [mbind result_bind]. rewrite <-app_assoc in IH. cbn [app] in IH.
    destruct (take_all l' st') as [st''|e]; [done|]. destruct IH as [Hn (pre & n' & mig' & post & -> & Href)].
    split; [done|]. exists ((n, mig) :: pre), n', mig', post. split; [done|]. by rewrite <-app_assoc in Href.
  - destruct H1 as [Href Hn]. split.
    + intros H. apply Hn.
      assert (map Version (map snd (l ++ (n, mig) :: l'))
              = map Version (map snd l ++ [mig]) ++ map Version (map snd l')) as E.
      { rewrite !map_app. cbn. by rewrite <-app_assoc. }
      rewrite E in H. by apply one_sequence_app in H.
    + exists [], n, mig, l'. split; [done|]. by rewrite app_nil_r.
Qed.

(** The migrations that are complete in themselves. *)
Definition complete (m : M T) : Prop := Version m ≠ "" ∧ is_Some (Up m) ∧ is_Some (Down m).

(** Construction accepts exactly the applications whose modules together declare
    one sequence of versions, all distinct and, from the first that is not empty,
    of one width, and collects them in registration order; the set it hands on is
    one the engine's own validation accepts whenever each migration is complete in
    itself. A refusal names the versions and modules that clash. *)
Theorem collectMigrations_spec ms :
  match collectMigrations ms with
  | Ok migs => migs = map snd (declared ms) ∧ one_sequence (map Version migs)
               ∧ (Forall complete migs → usable migs)
  | Err e => ¬ one_sequence (map Version (map snd (declared ms)))
             ∧ ∃ pre n mig post, declared ms = pre ++ (n, mig) :: post ∧ refused pre n mig e
  end.
Proof.
  unfold collectMigrations. rewrite collect_modules_take_all.
  pose proof (take_all_spec [] (declared ms) {| out := []; seen := ∅; width := 0; widthVersion := "" |}) as H.
  assert (recorded [] {| out := []; seen := ∅; width := 0; widthVersion := "" |}) as H0.
  { split; cbn; [done| | |set_solver|done].
    - split; [constructor|]. intros i j a b _ Ha. by rewrite lookup_nil in Ha.
    - intros v n. split; [by rewrite lookup_empty|]. intros (mig & Hin & _). by apply not_elem_of_nil in Hin. }
  specialize (H H0). destruct (take_all _ _) as [st|e]; cbn [mbind result_bind]; [|exact H].
  destruct H as [Hout [Hnd Hwid] _ _ _]. split; [done|]. split; [done|]. intros Hc. split; [|done].
  rewrite Forall_forall in *. intros m Hm. destruct (Hc _ Hm) as (Hv & Hu & Hd). split_and!; [done..|].
  destruct (out st) as [|m0 migs] eqn:E; [by apply not_elem_of_nil in Hm|]. cbn.
  apply list_elem_of_lookup in Hm as [i Hi]. destruct i as [|i]; [by injection Hi as ->|].
  symmetry. apply (Hwid 0 (S i)); [lia|done| |apply (Hc m0); set_solver].
  change (map Version (m0 :: migs)) with (Version <$> m0 :: migs). by rewrite list_lookup_fmap, Hi.
Qed.
End migrations.

(** ** Commands *)

Section commands.
Context `{Unicode}.
Context {W T : Type}.
#[local] Abbreviation Module := (Module (W:=W) (T:=T)).
#[local] Abbreviation Command := (Command (W:=W)).
Implicit Types ms : list Module.
Implicit Types c : Command.

(** The commands the modules offer, in registration order. *)
Definition offered ms : list Command := ms ≫= λ m, default [] (mod_commands m).

(** Names the dispatcher can tell apart. *)
Definition distinct (cmds : list Command) : Prop :=
  NoDup (map cmd_name cmds) ∧ ∀ c, c ∈ cmds → nameable (cmd_name c).

Definition owns (owner : gmap string string) (cmds : list Command) : Prop :=
  ∀ n, is_Some (owner !! n) ↔ n ∈ map cmd_name cmds.

Lemma owns_snoc owner cmds c module :
  owns owner cmds → owns (<[cmd_name c := module]> owner) (cmds ++ [c]).
Proof.
  intros Ho n. rewrite map_app, elem_of_app, <-(Ho n). cbn. rewrite list_elem_of_singleton.
  rewrite lookup_insert_is_Some'. naive_solver.
Qed.

(** One module's commands on top of [known], the built-ins and what came before. *)
Lemma collect_commands_spec module cs owner known cmds :
  owns owner (known ++ cmds) → NoDup (map cmd_name (known ++ cmds)) →
  match collect_commands module cs owner cmds with
  | Ok (owner', cmds') =>
      cmds' = cmds ++ cs ∧ owns owner' (known ++ cmds') ∧ NoDup (map cmd_name (known ++ cmds'))
      ∧ ∀ c, c ∈ cs → nameable (cmd_name c)
  | Err _ => ¬ (NoDup (map cmd_name (known ++ cmds ++ cs)) ∧ ∀ c, c ∈ cs → nameable (cmd_name c))
  end.
Proof.
  revert owner cmds; induction cs as [|c cs IH]; intros owner cmds Ho Hnd; cbn [collect_commands].
  { rewrite app_nil_r. split_and!; [done..|set_solver]. }
  destruct (String.eqb_spec (TrimSpace (cmd_name c)) "") as [E|Hname].
  { intros [_ Hall]. by apply (Hall c ltac:(set_solver)). }
  destruct (owner !! cmd_name c) as [prev|] eqn:Eo.
  - assert (¬ (NoDup (map cmd_name (known ++ cmds ++ c :: cs)))) as Hdup.
    { rewrite app_assoc, map_app, NoDup_app. intros (_ & Hd & _).
      apply (Hd (cmd_name c)); [apply Ho; eauto|cbn; set_solver]. }
    destruct (String.eqb prev ""); naive_solver.
  - assert (cmd_name c ∉ map cmd_name (known ++ cmds)) as Hnew by (intros [? ?]%Ho; congruence).
    assert (NoDup (map cmd_name (known ++ cmds ++ [c]))) as Hnd'.
    { rewrite app_assoc, map_app. apply NoDup_app. split_and!; [done|set_solver|apply NoDup_singleton]. }
    pose proof (owns_snoc _ _ c module Ho) as Ho'. rewrite <-app_assoc in Ho'.
    specialize (IH _ _ Ho' Hnd'). destruct (collect_commands _ _ _ _) as [[owner' cmds']|e].
    + destruct IH as (-> & ? & ? & Hall). rewrite <-app_assoc in *. split_and!; [done..|].
      intros c' [->|Hc']%elem_of_cons; [done|auto].
    + rewrite <-app_assoc in IH. intros [Hd Hall]. apply IH. split; [done|]. intros c' Hc'. apply Hall. set_solver.
Qed.

Lemma collect_commands_of_spec ms owner known cmds :
  owns owner (known ++ cmds) → NoDup (map cmd_name (known ++ cmds)) →
  match collect_commands_of ms owner cmds with
  | Ok cmds' => cmds' = cmds ++ offered ms ∧ NoDup (map cmd_name (known ++ cmds'))
                ∧ ∀ c, c ∈ offered ms → nameable (cmd_name c)
  | Err _ => ¬ (NoDup (map cmd_name (known ++ cmds ++ offered ms)) ∧ ∀ c, c ∈ offered ms → nameable (cmd_name c))
  end.
Proof.
  revert owner cmds; induction ms as [|m ms IH]; intros owner cmds Ho Hnd; cbn [collect_commands_of].
  { cbn. rewrite app_nil_r. split_and!; [done..|set_solver]. }
  unfold offered. rewrite bind_cons. fold (offered ms).
  destruct (mod_commands m) as [cs|]; cbn [default Datatypes.id]; [|by apply IH].
  pose proof (collect_commands_spec (mod_name m) cs owner known cmds Ho Hnd) as H1.
  destruct (collect_commands _ _ _ _) as [[owner' cmds']|e]; cbn [mbind result_bind].
  - destruct H1 as (-> & Ho' & Hnd' & Hall). specialize (IH _ _ Ho' Hnd').
    destruct (collect_commands_of _ _ _) as [cmds''|e].
    + destruct IH as (-> & ? & Hall'). rewrite <-app_assoc in *. split_and!; [done..|].
      intros c [Hc|Hc]%elem_of_app; auto.
    + rewrite <-app_assoc in IH. intros [Hd Hall']. apply IH. split; [done|]. intros c Hc. apply Hall'. set_solver.
  - intros [Hd Hall]. apply H1. split.
    + rewrite !map_app in *. rewrite !app_assoc in *. by apply NoDup_app in Hd as [? _].
    + intros c Hc. apply Hall. set_solver.
Qed.

Lemma list_to_map_owns (builtins : list Command) :
  owns (list_to_map (map (λ c, (cmd_name c, "")) (rev builtins))) builtins.
Proof.
  intros n. split.
  - intros [x Hx%elem_of_list_to_map_2]. apply list_elem_of_fmap in Hx as (c & [= -> _] & Hc).
    apply list_elem_of_fmap. exists c. split; [done|]. by rewrite list_elem_of_In, in_rev, <-list_elem_of_In.
  - intros (c & -> & Hc)%list_elem_of_fmap. apply not_eq_None_Some.
    intros Hn%not_elem_of_list_to_map_2. apply Hn. apply list_elem_of_fmap.
    exists (cmd_name c, ""). split; [done|]. apply list_elem_of_fmap. exists c. split; [done|].
    by rewrite list_elem_of_In, <-in_rev, <-list_elem_of_In.
Qed.

Lemma collectCommands_spec (builtins : list Command) ms :
  NoDup (map cmd_name builtins) →
  match collectCommands builtins ms with
  | Ok cmds => cmds = offered ms ∧ NoDup (map cmd_name (builtins ++ cmds))
               ∧ ∀ c, c ∈ offered ms → nameable (cmd_name c)
  | Err _ => ¬ (NoDup (map cmd_name (builtins ++ offered ms)) ∧ ∀ c, c ∈ offered ms → nameable (cmd_name c))
  end.
Proof.
  intros Hnd. unfold collectCommands.
  pose proof (collect_commands_of_spec ms (list_to_map (map (λ c, (cmd_name c, "")) (rev builtins))) builtins []) as Hc.
  rewrite app_nil_r in Hc. exact (Hc (list_to_map_owns builtins) Hnd).
Qed.

(** ** Routes *)

Lemma claim_spec module infos claimed owner :
  let '(claimed', owner') := claim module infos claimed owner in
  (∀ k, k ∈ claimed' ↔ k ∈ claimed ∨ k ∈ map routeKey infos)
  ∧ ∀ k, owner' !! k = if bool_decide (k ∈ claimed) then owner !! k
                       else if bool_decide (k ∈ map routeKey infos) then Some module else owner !! k.
Proof.
  revert claimed owner; induction infos as [|ri infos IH]; intros claimed owner; cbn [claim map].
  { split; [set_solver|]. intros k. repeat case_bool_decide; try done. set_solver. }
  case_bool_decide as Hin.
  - specialize (IH claimed owner). destruct (claim _ _ _ _) as [claimed' owner']. destruct IH as [H1 H2].
    split; [intros k; rewrite H1; set_solver|]. intros k. rewrite H2. repeat case_bool_decide; try done; set_solver.
  - specialize (IH ({[routeKey ri]} ∪ claimed) (<[routeKey ri := module]> owner)).
    destruct (claim _ _ _ _) as [claimed' owner']. destruct IH as [H1 H2].
    split; [intros k; rewrite H1; set_solver|]. intros k. rewrite H2.
    destruct (decide (k = routeKey ri)) as [->|Hne].
    + rewrite lookup_insert_eq. repeat case_bool_decide; try done; set_solver.
    + rewrite lookup_insert_ne by done. repeat case_bool_decide; try done; set_solver.
Qed.

Context (mount : list route → list route → option (list route)).

(** Gin: mounting adds the routes, and panics on a method and path taken twice. *)
Definition mounts_routes : Prop :=
  ∀ held new l, mount held new = Some l → l ≡ₚ held ++ new ∧ NoDup (map routeKey l).

(** The routes the modules mount, with their owners. *)
Definition mounted ms : list (route * string) := ms ≫= λ m, map (λ r, (r, mod_name m)) (mod_routes m).

Lemma mount_each_spec ms infos claimed owner infos' owner' :
  mounts_routes → NoDup (map routeKey infos) → (∀ k, k ∈ claimed ↔ k ∈ map routeKey infos) →
  mount_each mount ms infos claimed owner = Ok (infos', owner') →
  infos' ≡ₚ infos ++ map fst (mounted ms) ∧ NoDup (map routeKey infos')
  ∧ (∀ k, k ∈ claimed → owner' !! k = owner !! k)
  ∧ ∀ r n, (r, n) ∈ mounted ms → owner' !! routeKey r = Some n.
Proof.
  intros Hmount. revert infos claimed owner; induction ms as [|m ms IH]; intros infos claimed owner Hnd Hcl; cbn [mount_each].
  { intros [= <- <-]. cbn. rewrite app_nil_r. split_and!; [done..|set_solver]. }
  destruct (mount infos (mod_routes m)) as [infos1|] eqn:Em; [|done].
  apply Hmount in Em as [Hp Hnd1]. pose proof (claim_spec (mod_name m) infos1 claimed owner) as Hc.
  destruct (claim _ _ _ _) as [claimed1 owner1]. destruct Hc as [Hc1 Ho1].
  assert (∀ k, k ∈ map routeKey infos1 ↔ k ∈ map routeKey infos ∨ k ∈ map routeKey (mod_routes m)) as Hk.
  { intros k. by rewrite Hp, map_app, elem_of_app. }
  assert (∀ k, k ∈ map routeKey infos → k ∉ map routeKey (mod_routes m)) as Hdisj.
  { rewrite Hp, map_app in Hnd1. apply NoDup_app in Hnd1 as (_ & Hd & _). done. }
  intros Hrest. apply IH in Hrest as (Hp' & Hnd' & Hold & Hnew); [|done|intros k; rewrite Hc1, Hcl, Hk; tauto].
  split_and!.
  - rewrite Hp', Hp. unfold mounted. rewrite bind_cons, map_app, map_map, <-app_assoc. cbn [fst].
    by rewrite map_id.
  - done.
  - intros k Hin. rewrite Hold by (apply Hc1; by left). rewrite Ho1. by rewrite bool_decide_true.
  - intros r n. unfold mounted. rewrite bind_cons, elem_of_app. fold (mounted ms). intros [Hr|Hr]; [|by apply Hnew].
    apply list_elem_of_fmap in Hr as (r' & [= <- ->] & Hr). apply (list_elem_of_fmap_2 routeKey) in Hr.
    change (routeKey <$> mod_routes m) with (map routeKey (mod_routes m)) in Hr.
    rewrite Hold by (apply Hc1; right; apply Hk; by right). rewrite Ho1.
    rewrite bool_decide_false; [rewrite bool_decide_true; [done|apply Hk; by right]|].
    rewrite Hcl. intros Hin. by apply (Hdisj _ Hin).
Qed.

Definition attributed (p : route * string) : Route := {| Method := p.1.1; Path := p.1.2; Module_ := p.2 |}.

Lemma route_leb_total a b : route_leb a b = true ∨ route_leb b a = true.
Proof.
  unfold route_leb. rewrite (String.eqb_sym (Path b)). destruct (String.eqb _ _); apply str_leb_total.
Qed.

Lemma route_leb_trans (a b c : Route) : route_leb a b = true → route_leb b c = true → route_leb a c = true.
Proof.
  unfold route_leb.
  destruct (String.eqb_spec (Path a) (Path b)) as [Eab|Hab],
    (String.eqb_spec (Path b) (Path c)) as [Ebc|Hbc],
    (String.eqb_spec (Path a) (Path c)) as [Eac|Hac]; try congruence.
  - apply str_leb_trans.
  - intros H1 H2. rewrite Eac in H1. destruct Hbc. by apply str_leb_antisym.
  - apply str_leb_trans.
Qed.

(** What a construction that succeeds went through. *)
Lemma New_steps builtins proxies o ms a :
  New mount builtins proxies o ms = Ok a →
  ∃ infos, mount [] health_routes = Some infos
  ∧ mount_each mount (modules (app_registry a)) infos (list_to_set (map routeKey infos)) ∅
    = Ok (engine_routes a, routeOwner a)
  ∧ collectCommands builtins (modules (app_registry a)) = Ok (moduleCommands a)
  ∧ collectModels (modules (app_registry a)) NewRegistry = Ok (models a)
  ∧ collectMigrations (modules (app_registry a)) = Ok (migrations a)
  ∧ collectChecks (modules (app_registry a)) [] = Ok (checks a).
Proof.
  unfold New. cbn zeta. rewrite result_bind_ok. intros (reg & _ & Hk).
  destruct (proxies _); [done|]. apply result_bind_ok in Hk as (chk & Hchk & Hk).
  destruct (mount [] health_routes) as [infos|]; [|done].
  apply result_bind_ok in Hk as ([infos' owner] & Hm & Hk).
  apply result_bind_ok in Hk as (cmds & Hc & Hk). apply result_bind_ok in Hk as (mdls & Hmd & Hk).
  apply result_bind_ok in Hk as (migs & Hmg & [= <-]). cbn. eauto 10.
Qed.

(** The listing of routes is complete and attributes each one right. It has the
    two probes, owned by the framework, and every route of every mounted module,
    owned by the module that mounted it, and nothing else, sorted by path and then
    method; since no method and path is listed twice, the listing is the same
    whatever order Gin reports its routes in. *)
Theorem Routes_owners builtins proxies o ms a :
  mounts_routes → New mount builtins proxies o ms = Ok a →
  Routes a ≡ₚ map (λ r, attributed (r, "")) health_routes ++ map attributed (mounted (modules (app_registry a)))
  ∧ StronglySorted (le_by route_leb) (Routes a)
  ∧ NoDup (map (λ r, routeKey (Method r, Path r)) (Routes a)).
Proof.
  intros Hmount (infos & Hinfos & Hm & _)%New_steps.
  apply Hmount in Hinfos as [Hp Hnd]. cbn [app] in Hp.
  apply mount_each_spec in Hm as (Hp' & Hnd' & Hold & Hnew); [|done|done|intros k; by rewrite elem_of_list_to_set].
  set (row := λ ri : route, {| Method := ri.1; Path := ri.2; Module_ := default "" (routeOwner a !! routeKey ri) |}).
  assert (Routes a ≡ₚ map row (engine_routes a)) as Hroutes by apply sort_by_perm.
  split; [|split].
  - rewrite Hroutes, Hp', map_app, Hp, map_map.
    assert (∀ r, r ∈ health_routes → row r = attributed (r, "")) as Hf.
    { intros r Hr. unfold row, attributed. cbn [fst snd]. rewrite Hold; [by rewrite lookup_empty|].
      rewrite elem_of_list_to_set, Hp. by apply (list_elem_of_fmap_2 routeKey). }
    rewrite (map_ext_in row (λ r, attributed (r, "")) health_routes) by (intros r Hr%list_elem_of_In; auto).
    rewrite (map_ext_in (λ x, row x.1) attributed); [done|]. intros [r n] Hr%list_elem_of_In.
    unfold row, attributed. cbn [fst snd]. by rewrite (Hnew r n).
  - apply sort_by_sorted; [apply route_leb_total|apply route_leb_trans].
  - rewrite Hroutes, map_map. unfold row. cbn [Method Path].
    erewrite map_ext; [exact Hnd'|]. by intros [].
Qed.

(** In an application that was built every command answers to its name: built-in
    or offered by a mounted module, given its name [Execute] does what it would do
    were that command the only one. Names Fabrin reads as a request for help, or as
    a flag, are the exceptions. *)
Theorem New_commands_reachable builtins proxies o ms a write run c args w :
  NoDup (map cmd_name builtins) → New mount builtins proxies o ms = Ok a →
  c ∈ commands builtins a → isHelp (cmd_name c) = false → HasPrefix (cmd_name c) "-" = false →
  Execute write run (commands builtins a) (cmd_name c :: args) w = Dispatch write [c] (cmd_name c :: args) w.
Proof.
  intros Hnd (infos & _ & _ & Hc & _)%New_steps Hin Hh Hdash.
  pose proof (collectCommands_spec builtins (modules (app_registry a)) Hnd) as Hs. rewrite Hc in Hs.
  destruct Hs as (_ & Hnd' & _). unfold Execute, execute_decision. cbn [leadingHelpRequest].
  rewrite Hdash. cbn [negb]. rewrite !orb_true_r. unfold Dispatch.
  rewrite (proj2 (checkDuplicates_none ∅ (commands builtins a))) by (split; [done|set_solver]).
  rewrite (proj2 (checkDuplicates_none ∅ [c])) by (split; [apply NoDup_singleton|set_solver]).
  rewrite Hh, find_command_some by done. rewrite find_command_some; [done|apply NoDup_singleton|set_solver].
Qed.
End commands.

(** ** A small application *)

Lemma mount_in_order_mounts : mounts_routes mount_in_order.
Proof.
  intros held new l. unfold mount_in_order. case_bool_decide; [|done]. by intros [= <-].
Qed.

Definition named_command (name : string) : Command (W:=nat) :=
  {| cmd_name := name; cmd_short := ""; cmd_defaults := ""; cmd_flags := ∅;
     cmd_run := Some (λ _ _ w, (None, S w)) |}.
Definition blog : Module (W:=nat) (T:=unit) :=
  {| mod_name := "blog"; mod_routes := [("POST", "/posts"); ("GET", "/posts")]; mod_lifecycle := None;
     mod_checks := None; mod_commands := Some [named_command "publish"; named_command "help"];
     mod_models := None; mod_migrations := None |}.
Definition built : result app_error (App (W:=nat) (T:=unit)) :=
  @New identity_tables nat unit mount_in_order [named_command "serve"] (λ _, None) (selecting []) [blog].

Definition no_write (s : string) (w : nat) : option string * nat := (None, w).

Lemma Routes_owners_witness :
  ∃ a, built = Ok a
    ∧ Routes a = [{| Method := "GET"; Path := "/healthz"; Module_ := "" |};
                  {| Method := "GET"; Path := "/posts"; Module_ := "blog" |};
                  {| Method := "POST"; Path := "/posts"; Module_ := "blog" |};
                  {| Method := "GET"; Path := "/readyz"; Module_ := "" |}]
    ∧ NoDup (map (λ r, routeKey (Method r, Path r)) (Routes a)).
Proof.
  eexists. split; [vm_compute; reflexivity|]. split; [vm_compute; reflexivity|].
  exact (proj2 (proj2 (@Routes_owners identity_tables nat unit mount_in_order [named_command "serve"] (λ _, None)
           (selecting []) [blog] _ mount_in_order_mounts ltac:(vm_compute; reflexivity)))).
Defined.

Lemma New_commands_reachable_witness :
  ∃ a, built = Ok a
    ∧ @Execute identity_tables nat no_write (λ w, (None, w)) (commands [named_command "serve"] a) ["publish"] 0
      = (None, 1).
Proof.
  eexists. split; [vm_compute; reflexivity|].
  refine (eq_trans (@New_commands_reachable identity_tables nat unit mount_in_order [named_command "serve"] (λ _, None)
             (selecting []) [blog] _ no_write (λ w, (None, w)) (named_command "publish") [] 0
             (NoDup_singleton _) ltac:(vm_compute; reflexivity) _ eq_refl eq_refl) _).
  - apply list_elem_of_In. right. left. reflexivity.
  - vm_compute. reflexivity.
Defined.

(** The exception is not refused: a module may offer a command called [help], and
    nothing runs it. *)
Example help_command_unreachable :
  ∃ a, built = Ok a ∧ named_command "help" ∈ moduleCommands a
    ∧ @Execute identity_tables nat no_write (λ w, (None, w)) (commands [named_command "serve"] a) ["help"] 0
      = (None, 0).
Proof. eexists. split; [vm_compute; reflexivity|]. split; [cbn; set_solver|vm_compute; reflexivity]. Qed.
