(* ===== verification/LifecycleSpec.v ===== *)
(** * Starting, running and stopping an application

    Whatever fails, every module whose start succeeded is stopped exactly once, in
    reverse order and after the server; nothing else is. *)

From S2P Require Import Prelude GoStrings Config Modules.

(** What hooks and the server do, in order. *)
Inductive lifecycle_event :=
| Started (module : string) (c : context)
| Stopped (module : string) (c : context)
| Listened
| Waited
| ShutDown (c : context)
| ServeEnded.

(** Starting and stopping show in a trace of the world. *)
Class Traced (W : Type) := trace : W → list lifecycle_event.

Section spec.
Context {W T : Type} `{Traced W}.
#[local] Abbreviation Lifecycle := (Lifecycle (W:=W)).
#[local] Abbreviation Module := (Module (W:=W) (T:=T)).
Implicit Types lcs : list (string * Lifecycle).
Implicit Types w : W.

(** A hook adds its own event and no other, whatever it returns. *)
Definition observed (p : string * Lifecycle) : Prop :=
  (∀ c w, trace (Start p.2 c w).2 = trace w ++ [Started p.1 c])
  ∧ ∀ c w, trace (Stop p.2 c w).2 = trace w ++ [Stopped p.1 c].

Definition starts (c : context) lcs : list lifecycle_event := map (λ p, Started p.1 c) lcs.
Definition stops (c : context) lcs : list lifecycle_event := map (λ p, Stopped p.1 c) (rev lcs).

Lemma errors_Join_None errs : errors_Join errs = None ↔ ∀ e, e ∈ errs → e = None.
Proof.
  unfold errors_Join. induction errs as [|[e|] errs IH]; cbn; [split; [set_solver|done]|..].
  - split; [done|]. intros Hall. by specialize (Hall (Some e) ltac:(set_solver)).
  - unfold Datatypes.id in *. rewrite IH. split; [intros Hall e [->|?]%elem_of_cons; auto|intros Hall e ?; apply Hall; set_solver].
Qed.

Lemma stop_each_trace c lcs errs w :
  Forall observed lcs → trace (stop_each c lcs errs w).2 = trace w ++ map (λ p, Stopped p.1 c) lcs.
Proof.
  intros Hall. revert errs w; induction Hall as [|[n lc] lcs [_ Hstop] Hall IH]; intros errs w; cbn.
  - by rewrite app_nil_r.
  - specialize (Hstop c w). cbn in Hstop. destruct (Stop lc c w) as [err w1]. cbn in *.
    rewrite IH, Hstop, <-app_assoc. done.
Qed.

Lemma stopAll_trace c lcs w : Forall observed lcs → trace (stopAll c lcs w).2 = trace w ++ stops c lcs.
Proof.
  intros Hall. unfold stopAll. pose proof (stop_each_trace c (rev lcs) [] w) as Hs.
  destruct (stop_each _ _ _ _) as [errs w1]. apply Hs. by apply Forall_rev.
Qed.

Lemma start_each_trace c lcs started w :
  Forall observed started → Forall observed lcs →
  let '(err, w') := start_each c lcs started w in
  (err = None ∧ trace w' = trace w ++ starts c lcs)
  ∨ ∃ up n lc rest e, lcs = up ++ (n, lc) :: rest ∧ err = Some e
      ∧ trace w' = trace w ++ starts c (up ++ [(n, lc)]) ++ stops c (started ++ up).
Proof.
  intros Hst Hall. revert started w Hst; induction Hall as [|[n lc] lcs [Hstart Hstop] Hall IH]; intros started w Hst.
  { cbn. left. by rewrite app_nil_r. }
  cbn [start_each]. pose proof (Hstart c w) as Ht. cbn in Ht. destruct (Start lc c w) as [[err|] w1]; cbn in Ht.
  - pose proof (stopAll_trace c started w1 Hst) as Hs. destruct (stopAll c started w1) as [serr w2].
    cbn in Hs. right. exists [], n, lc, lcs. eexists. split_and!; [done|done|].
    by rewrite Hs, Ht, app_nil_r, <-app_assoc.
  - assert (Forall observed (started ++ [(n, lc)])) as Hst' by (apply Forall_app; split; [done|by apply Forall_singleton]).
    specialize (IH _ w1 Hst'). destruct (start_each _ _ _ _) as [err w2].
    destruct IH as [[-> Hw]|(up & n' & lc' & rest & e & -> & -> & Hw)].
    + left. split; [done|]. by rewrite Hw, Ht, <-app_assoc.
    + right. exists ((n, lc) :: up), n', lc', rest, e. split_and!; [done|done|].
      rewrite Hw, Ht, <-!app_assoc. done.
Qed.

(** The listener and server add their own events. *)
Definition observed_server (srv : Server (W:=W)) : Prop :=
  (∀ a w, trace (listen srv a w).2 = trace w ++ [Listened])
  ∧ (∀ w, trace (wait srv w).2 = trace w ++ [Waited])
  ∧ (∀ c w, trace (shutdown srv c w).2 = trace w ++ [ShutDown c])
  ∧ ∀ w, trace (serve_result srv w).2 = trace w ++ [ServeEnded].

(** The ways a run can go: what the server did, and the context modules are stopped
    under. *)
Inductive course (d : Z) : list lifecycle_event → context → Prop :=
| not_listening : course d [Listened] (NotifyContext CallerContext)
| server_died : course d [Listened; Waited] (WithoutCancel (NotifyContext CallerContext))
| shut_down :
    let c := WithTimeout (WithoutCancel (NotifyContext CallerContext)) d in
    course d [Listened; Waited; ShutDown c; ServeEnded] c.

(** C21: a run that is not refused as a second one starts the modules in registration
    order. If one fails, those started before it are stopped in reverse and nothing
    is served. Otherwise, whether the address cannot be bound, the server dies or
    the context ends, every module is stopped exactly once, in reverse order and
    after the server is done; once something was served the context they are
    stopped under is not the cancelled one. Errors of the hooks never cut this
    short, and a run that returns nil is one that went all the way through. The
    application can then be run again. *)
Theorem Run_unwinds srv (a : App (W:=W) (T:=T)) st w :
  observed_server srv → Forall observed (lifecycles (modules (app_registry a))) → app_running st = false →
  let lcs := lifecycles (modules (app_registry a)) in
  let ctx := NotifyContext CallerContext in
  let '(err, st', w') := Run srv a st w in
  st' = {| app_running := false; app_addr := "" |}
  ∧ ((∃ up n lc rest, lcs = up ++ (n, lc) :: rest ∧ is_Some err
        ∧ trace w' = trace w ++ starts ctx (up ++ [(n, lc)]) ++ stops ctx up)
     ∨ ∃ served c, course (ShutdownTimeout (opts a)) served c
        ∧ trace w' = trace w ++ starts ctx lcs ++ served ++ stops c lcs
        ∧ (err = None → Listened :: Waited :: [] `prefix_of` served)).
Proof.
  intros (Hlisten & Hwait & Hshut & Hserve) Hobs Hidle. cbv zeta. unfold Run. rewrite Hidle.
  set (lcs := lifecycles (modules (app_registry a))) in *.
  pose proof (start_each_trace (NotifyContext CallerContext) lcs [] w (Forall_nil_2 _) Hobs) as Hs.
  unfold start. fold lcs. destruct (start_each _ lcs [] w) as [err w1].
  destruct Hs as [[-> H1]|(up & n & lc & rest & e & Hlcs & -> & H1)].
  2: { split; [done|left]. exists up, n, lc, rest. split_and!; [done|by eexists|done]. }
  unfold stop. fold lcs.
  specialize (Hlisten (Addr (opts a)) w1). destruct (listen srv _ w1) as [[addr|lerr] w2]; cbn in Hlisten.
  - specialize (Hwait w2). destruct (wait srv w2) as [[serr|] w3]; cbn in Hwait.
    + pose proof (stopAll_trace (WithoutCancel (NotifyContext CallerContext)) lcs w3 Hobs) as Hs.
      destruct (stopAll _ lcs w3) as [err w4]. cbn in Hs. split; [done|right].
      eexists _, _. split; [apply server_died|]. split; [|done].
      rewrite Hs, Hwait, Hlisten, H1, <-!app_assoc. done.
    + specialize (Hshut (WithTimeout (WithoutCancel (NotifyContext CallerContext)) (ShutdownTimeout (opts a))) w3).
      destruct (shutdown srv _ w3) as [herr w4]. cbn in Hshut.
      specialize (Hserve w4). destruct (serve_result srv w4) as [serr w5]. cbn in Hserve.
      pose proof (stopAll_trace (WithTimeout (WithoutCancel (NotifyContext CallerContext)) (ShutdownTimeout (opts a)))
                    lcs w5 Hobs) as Hs.
      destruct (stopAll _ lcs w5) as [err w6]. cbn in Hs. split; [done|right].
      eexists _, _. split; [apply shut_down|]. split; [|intros _; by eexists].
      rewrite Hs, Hserve, Hshut, Hwait, Hlisten, H1, <-!app_assoc. done.
  - pose proof (stopAll_trace (NotifyContext CallerContext) lcs w2 Hobs) as Hs.
    destruct (stopAll _ lcs w2) as [serr w3]. cbn in Hs. split; [done|right].
    eexists _, _. split; [apply not_listening|]. split; [|done].
    rewrite Hs, Hlisten, H1, <-!app_assoc. done.
Qed.
End spec.

(** ** A run whose second module fails to stop *)

#[export] Instance traced_list : Traced (list lifecycle_event) := id.

Definition hook (n : string) (stop_err : option string) : Lifecycle (W := list lifecycle_event) :=
  {| Start := λ c w, (None, w ++ [Started n c]); Stop := λ c w, (stop_err, w ++ [Stopped n c]) |}.
Definition hooked (n : string) (stop_err : option string) : Module (W := list lifecycle_event) (T := unit) :=
  {| mod_name := n; mod_routes := []; mod_lifecycle := Some (hook n stop_err); mod_checks := None;
     mod_commands := None; mod_models := None; mod_migrations := None |}.
Definition calm_server : Server (W := list lifecycle_event) :=
  {| listen := λ a w, (Ok a, w ++ [Listened]); wait := λ w, (ContextDone, w ++ [Waited]);
     shutdown := λ c w, (None, w ++ [ShutDown c]); serve_result := λ w, (None, w ++ [ServeEnded]) |}.
Definition two_hooks : App (W := list lifecycle_event) (T := unit) :=
  {| opts := {| Addr := ":1"; Config.Modules := []; Debug := false; LogFormat := ""; LogLevel := "";
                ShutdownTimeout := 5; ReadHeaderTimeout := 1; TrustedProxies := [] |};
     app_registry := {| modules := [hooked "db" None; hooked "web" (Some "stuck")];
                        capabilities := ∅; sliced := false; catalog := ["db"; "web"] |};
     engine_routes := []; routeOwner := ∅; moduleCommands := []; models := Orm.NewRegistry;
     migrations := []; checks := [] |}.
Definition idle : run_state := {| app_running := false; app_addr := "" |}.

Lemma Run_unwinds_witness :
  let '(err, st, w) := Run calm_server two_hooks idle [] in
  is_Some err ∧ st = idle
  ∧ w = (let c := WithTimeout (WithoutCancel (NotifyContext CallerContext)) 5 in
         [Started "db" (NotifyContext CallerContext); Started "web" (NotifyContext CallerContext);
          Listened; Waited; ShutDown c; ServeEnded; Stopped "web" c; Stopped "db" c]).
Proof.
  split; [eexists; reflexivity|]. split; [|reflexivity].
  refine (proj1 (Run_unwinds calm_server two_hooks idle [] _ _ eq_refl)).
  - repeat split.
  - repeat constructor.
Defined.
