(* ===== verification/Admin.v ===== *)
(** * The admin vertical: admin/admin.go

    A resource links the metadata of a table to a Go type through explicit
    adapters, and lists, creates, updates and deletes its records through callbacks,
    behind an authorization policy and a CSRF check.

    [W] is the world the callbacks act on; a nil function is [None]; the context a
    callback is handed is the caller's, and is left out. *)

From S2P Require Import Prelude GoStrings Orm.

Inductive action := listAction | createAction | updateAction | deleteAction.
Record target := { tg_module : string; tg_model : string; tg_key : string }.

Record formField := { ff_name : string; ff_value : string }.
Record form := { form_fields : list formField; form_errors : gmap string string }.
Definition valid (f : form) : bool := bool_decide (form_errors f = ∅).
Record recordView := { rv_key : string; rv_fields : list formField }.

Inductive admin_error :=
| NoModule (table : string)
| BadMetadata (e : error)
| NoConstructor (table : string)
| NoKeyReader (table : string)
| NoCallback (table callback : string)
| NoAuthorizer (table : string)
| NoCSRFValidator (table : string)
| UnnamedAdapter (table : string)
| HalfAdapter (name table : string)
| TwoAdapters (table name : string)
| NoAdapter (table field : string)
| WrongKey (table name primary : string)
| ExtraAdapter (table name : string)
| CSRFFailed (a : action) (err : string)
| Unauthorized (a : action) (err : string)
| ListFailed (err : string)
| CreateFailed (err : string)
| LoadFailed (key err : string)
| UpdateFailed (key err : string)
| DeleteFailed (key err : string).

Section resources.
Context {T W : Type}.

Record keyAdapter := { ka_name : string; ka_read : option (T → string) }.
(** [write] may leave its record changed even when it reports an error. *)
Record fieldAdapter := {
  fa_name : string; fa_read : option (T → string); fa_write : option (T → string → option string * T);
}.

Record persistence := {
  p_list : option (W → result string (list T) * W);
  p_get : option (string → W → result string T * W);
  p_create : option (T → W → result string T * W);
  p_update : option (string → T → W → result string T * W);
  p_delete : option (string → W → option string * W);
}.

Record resourceConfig := {
  cfg_model : Registered;
  cfg_newRecord : option (W → T * W);
  cfg_key : keyAdapter;
  cfg_fields : list fieldAdapter;
  cfg_persistence : persistence;
  cfg_authorize : option (action → target → W → option string * W);
  cfg_validateCSRF : option (string → W → option string * W);
}.

Record fieldBinding := { metadata : Field; adapter : fieldAdapter }.

(** What [newResource] keeps; the functions it checked are no longer nil. *)
Record resource := {
  model : Registered;
  newRecord : W → T * W;
  key_read : T → string;
  fields : list fieldBinding;
  list_callback : W → result string (list T) * W;
  get_callback : string → W → result string T * W;
  create_callback : T → W → result string T * W;
  update_callback : string → T → W → result string T * W;
  delete_callback : string → W → option string * W;
  authorize : action → target → W → option string * W;
  validateCSRF : string → W → option string * W;
}.

(** ** Construction *)

Definition validatePersistence (table : string) (p : persistence) : option admin_error :=
  match p_list p, p_get p, p_create p, p_update p, p_delete p with
  | None, _, _, _, _ => Some (NoCallback table "list")
  | _, None, _, _, _ => Some (NoCallback table "get")
  | _, _, None, _, _ => Some (NoCallback table "create")
  | _, _, _, None, _ => Some (NoCallback table "update")
  | _, _, _, _, None => Some (NoCallback table "delete")
  | _, _, _, _, _ => None
  end.

Fixpoint collect_adapters (table : string) (fs : list fieldAdapter) (adapters : gmap string fieldAdapter)
    : result admin_error (gmap string fieldAdapter) :=
  match fs with
  | [] => Ok adapters
  | a :: fs' =>
      if blank (fa_name a) then Err (UnnamedAdapter table)
      else match fa_read a, fa_write a with
      | Some _, Some _ =>
          match adapters !! fa_name a with
          | Some _ => Err (TwoAdapters table (fa_name a))
          | None => collect_adapters table fs' (<[fa_name a := a]> adapters)
          end
      | _, _ => Err (HalfAdapter (fa_name a) table)
      end
  end.

Definition no_field : Field :=
  {| fName := ""; fType := ""; fMaxLen := 0; fNullable := false; fPrimaryKey := false;
     fUnique := false; fIndex := false |}.

(** The loop over the metadata: adapters left, bindings so far, primary key. *)
Fixpoint bind_fields (table : string) (fs : list Field) (adapters : gmap string fieldAdapter)
    (bindings : list fieldBinding) (primary : Field)
    : result admin_error (gmap string fieldAdapter * list fieldBinding * Field) :=
  match fs with
  | [] => Ok (adapters, bindings, primary)
  | f :: fs' =>
      if fPrimaryKey f then bind_fields table fs' adapters bindings f
      else match adapters !! fName f with
      | None => Err (NoAdapter table (fName f))
      | Some a =>
          bind_fields table fs' (delete (fName f) adapters)
            (bindings ++ [{| metadata := f; adapter := a |}]) primary
      end
  end.

Definition newResource (cfg : resourceConfig) : result admin_error resource :=
  if blank (rModule (cfg_model cfg)) then Err (NoModule (table_of (cfg_model cfg)))
  else
    match Register NewRegistry (rModule (cfg_model cfg)) [rModel (cfg_model cfg)] with
    | (_, Some err) => Err (BadMetadata err)
    | (registry, None) =>
        let registered := hd (cfg_model cfg) (Models registry) in
        let table := table_of registered in
        match cfg_newRecord cfg, ka_read (cfg_key cfg) with
        | None, _ => Err (NoConstructor table)
        | _, None => Err (NoKeyReader table)
        | Some newRecord, Some read =>
            match validatePersistence table (cfg_persistence cfg) with
            | Some err => Err err
            | None =>
                match cfg_authorize cfg, cfg_validateCSRF cfg with
                | None, _ => Err (NoAuthorizer table)
                | _, None => Err (NoCSRFValidator table)
                | Some authorize, Some validateCSRF =>
                    adapters ← collect_adapters table (cfg_fields cfg) ∅;
                    '(adapters, bindings, primary) ←
                      bind_fields table (mFields (rModel registered)) adapters [] no_field;
                    if negb (String.eqb (ka_name (cfg_key cfg)) (fName primary))
                    then Err (WrongKey table (ka_name (cfg_key cfg)) (fName primary))
                    else
                      match map_to_list adapters, p_list (cfg_persistence cfg), p_get (cfg_persistence cfg),
                            p_create (cfg_persistence cfg), p_update (cfg_persistence cfg),
                            p_delete (cfg_persistence cfg) with
                      | [], Some l, Some g, Some c, Some u, Some d =>
                          Ok {| model := registered; newRecord := newRecord; key_read := read;
                                fields := bindings; list_callback := l; get_callback := g;
                                create_callback := c; update_callback := u; delete_callback := d;
                                authorize := authorize; validateCSRF := validateCSRF |}
                      | (extra, _) :: _, _, _, _, _, _ => Err (ExtraAdapter table extra)
                      | _, _, _, _, _, _ => Err (NoCallback table "")  (* [validatePersistence] *)
                      end
                end
            end
        end
    end.

(** ** Operations *)

(** A nil adapter function would panic; [newResource] rejects it. *)
Definition read_field (b : fieldBinding) (value : T) : string :=
  match fa_read (adapter b) with Some read => read value | None => "" end.
Definition write_field (b : fieldBinding) (value : T) (raw : string) : option string * T :=
  match fa_write (adapter b) with Some write => write value raw | None => (None, value) end.

Definition view (r : resource) (value : T) : recordView :=
  {| rv_key := key_read r value;
     rv_fields := map (λ b, {| ff_name := fName (metadata b); ff_value := read_field b value |}) (fields r) |}.

(** [input] is [url.Values.Get]. *)
Definition bind_step (input : string → string) (b : fieldBinding) (value : T) (f : form) : T * form :=
  let name := fName (metadata b) in
  let raw := input name in
  let shown := form_fields f ++ [{| ff_name := name; ff_value := raw |}] in
  let max := fMaxLen (metadata b) in
  if ((0 <? max) && (max <? Z.of_nat (length (runes raw))))%Z
  then (value, {| form_fields := shown;
                  form_errors := <[name := "must be at most " +:+ Itoa max +:+ " characters"]> (form_errors f) |})
  else
    match write_field b value raw with
    | (Some err, value) => (value, {| form_fields := shown; form_errors := <[name := err]> (form_errors f) |})
    | (None, value) => (value, {| form_fields := shown; form_errors := form_errors f |})
    end.
Definition bind (r : resource) (value : T) (input : string → string) : T * form :=
  foldl (λ '(value, f) b, bind_step input b value f) (value, {| form_fields := []; form_errors := ∅ |}) (fields r).

Definition authorizeAction (r : resource) (a : action) (key : string) (w : W) : option admin_error * W :=
  match authorize r a {| tg_module := rModule (model r); tg_model := table_of (model r); tg_key := key |} w with
  | (Some err, w) => (Some (Unauthorized a err), w)
  | (None, w) => (None, w)
  end.

Definition guardWrite (r : resource) (a : action) (key token : string) (w : W) : option admin_error * W :=
  match validateCSRF r token w with
  | (Some err, w) => (Some (CSRFFailed a err), w)
  | (None, w) => authorizeAction r a key w
  end.

Definition list_ (r : resource) (w : W) : result admin_error (list recordView) * W :=
  match authorizeAction r listAction "" w with
  | (Some err, w) => (Err err, w)
  | (None, w) =>
      match list_callback r w with
      | (Err err, w) => (Err (ListFailed err), w)
      | (Ok records, w) => (Ok (map (view r) records), w)
      end
  end.

Definition no_view : recordView := {| rv_key := ""; rv_fields := [] |}.
Definition no_form : form := {| form_fields := []; form_errors := ∅ |}.

(** The view, the form and the error that is returned besides them. *)
Definition create (r : resource) (token : string) (input : string → string) (w : W)
    : recordView * form * option admin_error * W :=
  match guardWrite r createAction "" token w with
  | (Some err, w) => (no_view, no_form, Some err, w)
  | (None, w) =>
      let '(fresh, w) := newRecord r w in
      let '(value, bound) := bind r fresh input in
      if negb (valid bound) then (no_view, bound, None, w)
      else match create_callback r value w with
      | (Err err, w) => (no_view, bound, Some (CreateFailed err), w)
      | (Ok created, w) => (view r created, bound, None, w)
      end
  end.

Definition update (r : resource) (key token : string) (input : string → string) (w : W)
    : recordView * form * option admin_error * W :=
  match guardWrite r updateAction key token w with
  | (Some err, w) => (no_view, no_form, Some err, w)
  | (None, w) =>
      match get_callback r key w with
      | (Err err, w) => (no_view, no_form, Some (LoadFailed key err), w)
      | (Ok current, w) =>
          let '(value, bound) := bind r current input in
          if negb (valid bound) then (no_view, bound, None, w)
          else match update_callback r key value w with
          | (Err err, w) => (no_view, bound, Some (UpdateFailed key err), w)
          | (Ok updated, w) => (view r updated, bound, None, w)
          end
      end
  end.

Definition delete_ (r : resource) (key token : string) (w : W) : option admin_error * W :=
  match guardWrite r deleteAction key token w with
  | (Some err, w) => (Some err, w)
  | (None, w) =>
      match delete_callback r key w with
      | (Some err, w) => (Some (DeleteFailed key err), w)
      | (None, w) => (None, w)
      end
  end.
End resources.

Arguments keyAdapter T : clear implicits.
Arguments fieldAdapter T : clear implicits.
Arguments fieldBinding T : clear implicits.
Arguments persistence T W : clear implicits.
Arguments resourceConfig T W : clear implicits.
Arguments resource T W : clear implicits.
