(* ===== verification/AdminSpec.v ===== *)
(** * The admin vertical: what a resource guarantees

    The adapters of a resource match its metadata one to one; a form is bound field
    by field; and no record is read or written before the CSRF check and the
    policy let the request through. *)

From S2P Require Import Prelude GoStrings Orm Admin.

Section construction.
Context {T W : Type}.
Implicit Types (r : resource T W) (cfg : resourceConfig T W) (a : fieldAdapter T).

(** ** Adapters *)

Definition complete_adapter a : Prop :=
  blank (fa_name a) = false ∧ is_Some (fa_read a) ∧ is_Some (fa_write a).

Lemma collect_adapters_ok table (fs : list (fieldAdapter T)) acc m :
  collect_adapters table fs acc = Ok m ↔
  Forall complete_adapter fs ∧ NoDup (map fa_name fs) ∧ (∀ a, a ∈ fs → acc !! fa_name a = None)
  ∧ m = list_to_map (map (λ a, (fa_name a, a)) fs) ∪ acc.
Proof.
  revert acc; induction fs as [|a fs IH]; intros acc; cbn.
  - rewrite (left_id_L ∅ (∪)). split; [intros [= ->]|by intros (_ & _ & _ & ->)].
    split_and!; [constructor|constructor|set_solver|done].
  - rewrite Forall_cons, NoDup_cons. unfold complete_adapter at 1.
    destruct (blank (fa_name a)); [split; [done|by intros (((? & _) & _) & _)]|].
    destruct (fa_read a) as [rd|]; [|split; [done|by intros (((_ & [? ?] & _) & _) & _)]].
    destruct (fa_write a) as [wr|]; [|split; [done|by intros (((_ & _ & [? ?]) & _) & _)]].
    destruct (acc !! fa_name a) as [b|] eqn:Ea.
    { split; [done|]. intros (_ & _ & H & _). by rewrite H in Ea by set_solver. }
    rewrite IH.
    split.
    + intros (H1 & H2 & H3 & ->).
      assert (Hn : fa_name a ∉ map fa_name fs).
      { rewrite list_elem_of_fmap. intros (b & Hb & Hin). specialize (H3 b Hin). by rewrite Hb, lookup_insert_eq in H3. }
      split_and!; try done.
      * intros b [->|Hb]%elem_of_cons; [done|]. specialize (H3 b Hb).
        by apply lookup_insert_None in H3 as [? _].
      * cbn. rewrite <-insert_union_r, <-insert_union_l; [done|].
        apply not_elem_of_list_to_map_1. rewrite map_map. exact Hn.
    + intros ((_ & H1) & (Hn & H2) & H3 & ->). split_and!; try done.
      * intros b Hb. rewrite lookup_insert_ne; [set_solver|].
        intros Hab. apply Hn. rewrite Hab. apply list_elem_of_fmap. eauto.
      * cbn. rewrite <-insert_union_r, <-insert_union_l; [done|].
        apply not_elem_of_list_to_map_1. rewrite map_map. exact Hn.
Qed.

(** ** Bindings *)

Definition editable (fs : list Field) : list Field := List.filter (λ f, negb (fPrimaryKey f)) fs.

Lemma last_default {A} (x : A) l d d' : List.last (x :: l) d = List.last (x :: l) d'.
Proof. revert x; induction l as [|y l IH]; intros x; [done|]. apply (IH y). Qed.

Lemma bind_fields_ok table fs (adapters m : gmap string (fieldAdapter T)) bs bs' p p' :
  bind_fields table fs adapters bs p = Ok (m, bs', p') →
  (∃ picked, bs' = bs ++ picked ∧ map metadata picked = editable fs
     ∧ Forall (λ b, adapters !! fName (metadata b) = Some (adapter b)) picked)
  ∧ p' = List.last (primaries fs) p
  ∧ ∀ k, m !! k = if bool_decide (k ∈ map fName (editable fs)) then None else adapters !! k.
Proof.
  revert adapters bs p; induction fs as [|f fs IH]; intros adapters bs p; cbn.
  - intros [= <- <- <-]. split; [|done]. exists []. by rewrite app_nil_r.
  - destruct (fPrimaryKey f) eqn:Ep; cbn.
    + intros (H1 & -> & H3)%IH. split; [done|]. split; [|done].
      fold (primaries fs). destruct (primaries fs) as [|x l]; [done|]. apply last_default.
    + destruct (adapters !! fName f) as [a|] eqn:Ea; [|done].
      intros ((picked & -> & Hm & Hf) & Hp & H3)%IH. split; [|split; [done|]].
      * eexists (_ :: picked). rewrite <-(assoc_L (++)). split; [done|]. cbn. rewrite Hm. split; [done|].
        constructor; [done|]. eapply Forall_impl; [exact Hf|]. cbn. by intros b [_ ?]%lookup_delete_Some.
      * intros k. rewrite H3. fold (editable fs). destruct (decide (k = fName f)) as [->|Hne].
        { rewrite (bool_decide_true (fName f ∈ fName f :: _)) by set_solver.
          case_bool_decide; [done|]. by rewrite lookup_delete_eq. }
        rewrite lookup_delete_ne by done. by repeat case_bool_decide; set_solver.
Qed.

Lemma bind_fields_total table fs (adapters : gmap string (fieldAdapter T)) bs p :
  NoDup (map fName (editable fs)) → Forall (λ f, is_Some (adapters !! fName f)) (editable fs) →
  is_ok (bind_fields table fs adapters bs p) = true.
Proof.
  revert adapters bs p; induction fs as [|f fs IH]; intros adapters bs p; cbn; [done|].
  destruct (fPrimaryKey f); cbn; [apply IH|]. fold (editable fs).
  intros [Hn Hnd]%NoDup_cons [[a Ha] Hf]%Forall_cons. rewrite Ha. apply IH; [done|].
  rewrite Forall_forall in Hf |- *. intros g Hg. rewrite lookup_delete_ne; [by apply Hf|].
  intros E. apply Hn. rewrite E. apply list_elem_of_fmap. eauto.
Qed.

(** What every part of a usable configuration is. *)
Definition usable_config cfg : Prop :=
  let m := rModel (cfg_model cfg) in
  blank (rModule (cfg_model cfg)) = false ∧ valid_model m
  ∧ is_Some (cfg_newRecord cfg) ∧ is_Some (ka_read (cfg_key cfg))
  ∧ validatePersistence (mTable m) (cfg_persistence cfg) = None
  ∧ is_Some (cfg_authorize cfg) ∧ is_Some (cfg_validateCSRF cfg)
  ∧ Forall complete_adapter (cfg_fields cfg)
  ∧ map fa_name (cfg_fields cfg) ≡ₚ map fName (editable (mFields m))
  ∧ map fName (primaries (mFields m)) = [ka_name (cfg_key cfg)].

(** The callbacks a valid persistence holds. *)
Lemma validatePersistence_ok table (p : persistence T W) :
  validatePersistence table p = None →
  ∃ l g c u d, p = {| p_list := Some l; p_get := Some g; p_create := Some c; p_update := Some u; p_delete := Some d |}.
Proof. destruct p as [[l|] [g|] [c|] [u|] [d|]]; cbn; try done. intros _. by exists l, g, c, u, d. Qed.

Lemma editable_nodup fs : NoDup (map fName fs) → NoDup (map fName (editable fs)).
Proof.
  intros H. eapply sublist_NoDup; [exact H|]. apply (fmap_sublist fName).
  clear. induction fs as [|f fs IH]; cbn; [constructor|]. destruct (negb _); by constructor.
Qed.

Lemma registered_model cfg m reg :
  Register NewRegistry (rModule (cfg_model cfg)) [m] = (reg, None) → m = rModel (cfg_model cfg) →
  valid_model m ∧ hd (cfg_model cfg) (Models reg) = cfg_model cfg.
Proof.
  intros Hr ->. apply Register_ok in Hr as (Hv & _ & _ & Hb). apply Forall_cons in Hv as [Hv _].
  split; [done|]. assert (Hp : Models reg ≡ₚ [cfg_model cfg]).
  { rewrite Models_perm, Hb. cbn. rewrite (right_id_L ∅ (∪)).
    replace (<[_:=_]> ∅) with ({[mTable (rModel (cfg_model cfg)) := cfg_model cfg]} : gmap string Registered).
    - by rewrite map_to_list_singleton.
    - unfold singletonM, map_singleton. f_equal. by destruct (cfg_model cfg). }
  apply Permutation_singleton_r in Hp. by rewrite Hp.
Qed.

Lemma lookup_adapters (afs : list (fieldAdapter T)) k :
  NoDup (map fa_name afs) →
  (∀ a, (list_to_map (map (λ a, (fa_name a, a)) afs) : gmap string (fieldAdapter T)) !! k = Some a ↔ a ∈ afs ∧ fa_name a = k).
Proof.
  intros Hnd a. rewrite <-elem_of_list_to_map.
  - rewrite list_elem_of_fmap. split; [intros (b & [= -> ->] & Hb); auto|intros [Ha <-]; eauto].
  - by rewrite map_map.
Qed.

(** The two loops of [newResource] together. *)
Lemma binding_spec table (afs : list (fieldAdapter T)) fs key :
  NoDup (map fName fs) → length (primaries fs) = 1 →
  (Forall complete_adapter afs ∧ map fa_name afs ≡ₚ map fName (editable fs) ∧ map fName (primaries fs) = [key])
  ↔ ∃ adapters picked primary, collect_adapters table afs ∅ = Ok adapters
      ∧ bind_fields table fs adapters [] no_field = Ok (∅, picked, primary) ∧ key = fName primary.
Proof.
  intros Hnd Hone. pose proof (editable_nodup fs Hnd) as Hnde.
  destruct (primaries fs) as [|p [|? ?]] eqn:Hp; try done. cbn [map].
  split.
  - intros (Hc & Hperm & [= <-]).
    assert (Hnda : NoDup (map fa_name afs)) by by rewrite Hperm.
    set (adapters := list_to_map (map (λ a, (fa_name a, a)) afs) : gmap string (fieldAdapter T)).
    assert (Hin : ∀ f, f ∈ editable fs → is_Some (adapters !! fName f)).
    { intros f Hf. assert (Hn : fName f ∈ map fa_name afs) by (rewrite Hperm; apply list_elem_of_fmap; eauto).
      apply list_elem_of_fmap in Hn as (a & Hn & Ha). exists a. by apply lookup_adapters. }
    pose proof (bind_fields_total table fs adapters [] no_field Hnde) as Htot.
    rewrite Forall_forall in Htot. specialize (Htot Hin).
    destruct (bind_fields table fs adapters [] no_field) as [[[m picked] primary]|e] eqn:Eb; [|done].
    destruct (bind_fields_ok _ _ _ _ _ _ _ _ Eb) as (_ & Hprim & Hm). rewrite Hp in Hprim. cbn in Hprim. subst primary.
    exists adapters, picked, p. split; [|split; [|done]].
    + apply collect_adapters_ok. split_and!; [done|done|done|]. by rewrite (right_id_L ∅ (∪)).
    + assert (m = ∅) as <-; [|exact Eb]. apply map_empty. intros k. rewrite Hm. case_bool_decide as Hk; [done|].
      destruct (adapters !! k) as [a|] eqn:Ea; [|done]. apply lookup_adapters in Ea as [Ha <-]; [|done].
      contradict Hk. rewrite <-Hperm. apply list_elem_of_fmap. eauto.
  - intros (adapters & picked & primary & Hc & Hb & ->).
    apply collect_adapters_ok in Hc as (Hc & Hnda & _ & ->). rewrite (right_id_L ∅ (∪)) in Hb.
    destruct (bind_fields_ok _ _ _ _ _ _ _ _ Hb) as ((pk & -> & Hmd & Hpk) & -> & Hm). rewrite Hp. split; [done|].
    split; [|done]. apply NoDup_Permutation; [done|done|]. intros k. split.
    + intros (a & -> & Ha)%list_elem_of_fmap. specialize (Hm (fa_name a)). rewrite lookup_empty in Hm.
      case_bool_decide as Hk; [done|]. symmetry in Hm.
      by rewrite (proj2 (lookup_adapters afs (fa_name a) Hnda a)) in Hm by done.
    + rewrite <-Hmd, map_map. intros (b & -> & Hbin)%list_elem_of_fmap. rewrite Forall_forall in Hpk.
      specialize (Hpk b Hbin). apply lookup_adapters in Hpk as [Ha Hn]; [|done].
      rewrite <-Hn. apply list_elem_of_fmap. eauto.
Qed.

(** A resource is built exactly from a usable configuration, and binds every
    field to its own adapter.  [newResource] succeeds if and only if the module is
    named, the table is valid, every callback is there, every adapter has a name
    and both functions, the adapters are for exactly the columns other than the
    primary key, once each, and the key adapter is for the primary key.  The
    resource then binds those columns in the order of the metadata, each to the
    configured adapter of its name. *)
Theorem newResource_spec cfg :
  (is_ok (newResource cfg) = true ↔ usable_config cfg)
  ∧ ∀ r, newResource cfg = Ok r →
      model r = cfg_model cfg
      ∧ map metadata (fields r) = editable (mFields (rModel (cfg_model cfg)))
      ∧ Forall (λ b, adapter b ∈ cfg_fields cfg ∧ fa_name (adapter b) = fName (metadata b)
                     ∧ complete_adapter (adapter b)) (fields r).
Proof.
  unfold newResource, usable_config. cbv zeta. set (m := rModel (cfg_model cfg)).
  destruct (blank (rModule _)); [split; [split; [done|by intros (? & _)]|done]|].
  destruct (Register _ _ _) as [reg [e|]] eqn:Er.
  { split; [split; [done|]|done]. intros (_ & Hv & _). cbn in Er.
    apply validate_valid in Hv. rewrite Hv in Er. by rewrite lookup_empty in Er. }
  destruct (registered_model _ _ _ Er eq_refl) as [Hv Hreg]. rewrite Hreg. fold m in Hv |- *.
  change (table_of (cfg_model cfg)) with (mTable m).
  destruct (cfg_newRecord cfg) as [nr|]; [|split; [split; [done|by intros (_ & _ & [? ?] & _)]|done]].
  destruct (ka_read _) as [kr|]; [|split; [split; [done|by intros (_ & _ & _ & [? ?] & _)]|done]].
  destruct (validatePersistence _ _) as [e|] eqn:Ep; [split; [split; [done|by intros (_ & _ & _ & _ & ? & _)]|done]|].
  destruct (cfg_authorize cfg) as [au|]; [|split; [split; [done|by intros (_ & _ & _ & _ & _ & [? ?] & _)]|done]].
  destruct (cfg_validateCSRF cfg) as [cs|]; [|split; [split; [done|by intros (_ & _ & _ & _ & _ & _ & [? ?] & _)]|done]].
  destruct (validatePersistence_ok _ _ Ep) as (l & g & c & u & d & ->). cbn [p_list p_get p_create p_update p_delete].
  pose proof (binding_spec (mTable m) (cfg_fields cfg) (mFields m) (ka_name (cfg_key cfg))
                (proj1 (proj2 Hv)) (proj2 (proj2 (proj2 Hv)))) as Hspec.
  match type of Hspec with ?C ↔ _ =>
    match goal with |- (_ ↔ ?D) ∧ _ => assert (Hcd : D ↔ C) by
      (split; [by intros (_ & _ & _ & _ & _ & _ & _ & H)|intros H; split_and?; eauto; apply H]) end end.
  rewrite Hcd, Hspec. clear Hcd.
  destruct (collect_adapters _ _ _) as [adapters|e] eqn:Ec.
  2:{ cbn. split; [split; [done|by intros (? & ? & ? & ? & _)]|done]. }
  cbn [mbind result_bind]. destruct (bind_fields _ _ adapters _ _) as [[[left picked] primary]|e] eqn:Eb.
  2:{ cbn. split; [split; [done|]|done]. intros (? & ? & ? & [= <-] & H & _). congruence. }
  cbn [mbind result_bind]. destruct (String.eqb_spec (ka_name (cfg_key cfg)) (fName primary)) as [Hk|Hk]; cbn [negb].
  2:{ split; [split; [done|]|done]. intros (? & ? & ? & [= <-] & H & ?). congruence. }
  destruct (map_to_list left) as [|[extra x] rest] eqn:El.
  2:{ split; [split; [done|]|done]. intros (? & ? & ? & [= <-] & H & ?). rewrite H in Eb. injection Eb as <- <- <-.
      by rewrite map_to_list_empty in El. }
  apply map_to_list_empty_iff in El as ->. split; [split; [intros _; eauto 10|done]|].
  intros r [= <-]. split; [done|]. cbn [fields].
  destruct (bind_fields_ok _ _ _ _ _ _ _ _ Eb) as ((pk & -> & Hmd & Hpk) & _). split; [exact Hmd|].
  apply collect_adapters_ok in Ec as (Hc & Hnda & _ & ->). rewrite (right_id_L ∅ (∪)) in Hpk.
  eapply Forall_impl; [exact Hpk|]. intros b Hb. apply lookup_adapters in Hb as [Ha Hn]; [|done].
  rewrite Forall_forall in Hc. auto.
Qed.
End construction.

(** ** Forms *)

Section forms.
Context {T W : Type}.
Implicit Types (r : resource T W) (b : fieldBinding T).

(** The raw value is longer than the column allows. *)
Definition too_long b (raw : string) : Prop :=
  (0 < fMaxLen (metadata b) < Z.of_nat (length (runes raw)))%Z.

(** The record after every write, and whether every write was accepted. *)
Fixpoint written (input : string → string) (bs : list (fieldBinding T)) (value : T) : Prop * T :=
  match bs with
  | [] => (True, value)
  | b :: bs' =>
      let '(err, value') := write_field b value (input (fName (metadata b))) in
      let '(ok, final) := written input bs' value' in
      (¬ too_long b (input (fName (metadata b))) ∧ err = None ∧ ok, final)
  end.

Lemma bind_step_spec (input : string → string) b value f :
  let '(err, value') := write_field b value (input (fName (metadata b))) in
  let '(v, f') := bind_step input b value f in
  form_fields f' = form_fields f ++ [{| ff_name := fName (metadata b); ff_value := input (fName (metadata b)) |}]
  ∧ (form_errors f' = ∅ ↔ form_errors f = ∅ ∧ ¬ too_long b (input (fName (metadata b))) ∧ err = None)
  ∧ (form_errors f' = ∅ → v = value').
Proof.
  unfold bind_step, too_long. destruct (write_field _ _ _) as [err value'].
  destruct (_ && _) eqn:E.
  - cbn. apply andb_true_iff in E as [E1%Z.ltb_lt E2%Z.ltb_lt]. split; [done|split].
    + split; [intros H; by apply insert_non_empty in H|intros (_ & H & _); lia].
    + intros H. by apply insert_non_empty in H.
  - assert (¬ (0 < fMaxLen (metadata b) < Z.of_nat (length (runes (input (fName (metadata b))))))%Z).
    { intros [H1 H2]. by rewrite (proj2 (Z.ltb_lt _ _) H1), (proj2 (Z.ltb_lt _ _) H2) in E. }
    destruct err as [err|]; cbn; (split; [done|split]).
    + split; [intros H'; by apply insert_non_empty in H'|by intros (_ & _ & ?)].
    + intros H'. by apply insert_non_empty in H'.
    + split; [auto|by intros (? & _)].
    + done.
Qed.

Lemma bind_fold_spec (input : string → string) bs value f v f' :
  foldl (λ '(value, f) b, bind_step input b value f) (value, f) bs = (v, f') →
  form_fields f' = form_fields f ++ map (λ b, {| ff_name := fName (metadata b); ff_value := input (fName (metadata b)) |}) bs
  ∧ (form_errors f' = ∅ ↔ form_errors f = ∅ ∧ fst (written input bs value))
  ∧ (form_errors f' = ∅ → v = snd (written input bs value)).
Proof.
  revert value f; induction bs as [|b bs IH]; intros value f; cbn [foldl written map].
  - intros [= <- <-]. rewrite app_nil_r. cbn. naive_solver.
  - pose proof (bind_step_spec input b value f) as Hs.
    destruct (write_field _ _ _) as [err value'], (bind_step _ _ _ _) as [v1 f1]. destruct Hs as (Hf & He & Hv).
    intros (Hf' & He' & Hv')%IH. rewrite Hf', Hf, <-(assoc_L (++)).
    destruct (written input bs value') as [ok final] eqn:Ew. cbn [fst snd].
    split; [done|split].
    + rewrite He'. split.
      * intros [H1 H2]. pose proof (Hv H1) as ->. rewrite Ew in H2. apply He in H1 as (? & ? & ?). by split_and!.
      * intros (H1 & H2 & H3 & H4). assert (H5 : form_errors f1 = ∅) by (by apply He).
        split; [done|]. by rewrite (Hv H5), Ew.
    + intros H. rewrite (Hv' H). apply He' in H as [H _]. by rewrite (Hv H), Ew.
Qed.

(** A bound form echoes every input in the order of the columns, is valid exactly
    when no value is too long and every adapter took its value, and then carries
    the record with all of them written. *)
Lemma bind_spec r value (input : string → string) v f :
  bind r value input = (v, f) →
  map (λ x, (ff_name x, ff_value x)) (form_fields f)
    = map (λ b, (fName (metadata b), input (fName (metadata b)))) (fields r)
  ∧ (valid f = true ↔ fst (written input (fields r) value))
  ∧ (valid f = true → v = snd (written input (fields r) value)).
Proof.
  unfold bind, valid. intros (Hf & He & Hv)%bind_fold_spec. cbn in Hf, He.
  rewrite Hf, map_map, bool_decide_eq_true, He. split; [done|]. split; [naive_solver|].
  intros H. apply Hv, He, H.
Qed.

(** ** What runs, in which order *)

Inductive event :=
| EToken (token : string)
| EPolicy (a : action) (key : string)
| ENew | EList | EGet (key : string)
| ECreate (value : T) | EUpdate (key : string) (value : T) | EDelete (key : string).

(** [f], noting that it ran. *)
Definition noted {A} (e : event) (f : W → A * W) (w : W * list event) : A * (W * list event) :=
  let '(x, w') := f (fst w) in (x, (w', snd w ++ [e])).

(** The same resource over a world that records what its callbacks were asked. *)
Definition traced r : resource T (W * list event) :=
  {| model := model r; newRecord := noted ENew (newRecord r); key_read := key_read r; fields := fields r;
     list_callback := noted EList (list_callback r);
     get_callback := λ key, noted (EGet key) (get_callback r key);
     create_callback := λ v, noted (ECreate v) (create_callback r v);
     update_callback := λ key v, noted (EUpdate key v) (update_callback r key v);
     delete_callback := λ key, noted (EDelete key) (delete_callback r key);
     authorize := λ a t, noted (EPolicy a (tg_key t)) (authorize r a t);
     validateCSRF := λ token, noted (EToken token) (validateCSRF r token) |}.

(** The CSRF check and the policy both let the request through. *)
Definition let_through r (a : action) (key token : string) (w : W) : Prop :=
  fst (guardWrite r a key token w) = None.

Lemma guard_traced r a key token w tr :
  ∃ es w', guardWrite (traced r) a key token (w, tr) = (fst (guardWrite r a key token w), (w', tr ++ es))
    ∧ w' = snd (guardWrite r a key token w)
    ∧ (es = [EToken token] ∨ es = [EToken token; EPolicy a key])
    ∧ (let_through r a key token w → es = [EToken token; EPolicy a key]).
Proof.
  unfold let_through, guardWrite, authorizeAction, traced, noted. cbn.
  destruct (validateCSRF r token w) as [[err|] w1]; cbn.
  { exists [EToken token], w1. split_and!; auto; done. }
  destruct (authorize r a _ w1) as [[err|] w2]; cbn; exists [EToken token; EPolicy a key], w2;
    rewrite <-(assoc_L (++)); split_and!; auto.
Qed.
End forms.
Arguments event T : clear implicits.

Section guarded.
Context {T W : Type}.
Implicit Types (r : resource T W).

(** The request was refused, and nothing but the checks ran. *)
Definition stopped r (a : action) (key token : string) (w : W) (err : option admin_error) (es : list (event T)) : Prop :=
  ¬ let_through r a key token w ∧ is_Some err ∧ (es = [EToken token] ∨ es = [EToken token; EPolicy a key]).
Definition passed r (a : action) (key token : string) (w : W) : Prop := let_through r a key token w.

Lemma guard_cases r a key token w :
  match guardWrite (traced r) a key token (w, []) with
  | (Some err, (_, es)) => stopped r a key token w (Some err) es
  | (None, (w1, es)) => passed r a key token w ∧ es = [EToken token; EPolicy a key] ∧ w1 = snd (guardWrite r a key token w)
  end.
Proof.
  destruct (guard_traced r a key token w []) as (es & w1 & -> & -> & Hes & Hall). cbn [app].
  destruct (fst (guardWrite r a key token w)) as [err|] eqn:E.
  - split_and!; [unfold let_through; by rewrite E|by eexists|done].
  - split_and!; [exact E|by apply Hall|done].
Qed.

Lemma create_guarded r token input w :
  let '(_, f, err, (_, es)) := create (traced r) token input (w, []) in
  stopped r createAction "" token w err es
  ∨ passed r createAction "" token w
    ∧ let fresh := fst (newRecord r (snd (guardWrite r createAction "" token w))) in
      if valid f
      then fst (written input (fields r) fresh)
           ∧ es = [EToken token; EPolicy createAction ""; ENew; ECreate (snd (written input (fields r) fresh))]
      else err = None ∧ es = [EToken token; EPolicy createAction ""; ENew].
Proof.
  unfold create. pose proof (guard_cases r createAction "" token w) as Hg.
  destruct (guardWrite (traced r) _ _ _ _) as [[err|] [w1 es]]; [by left|].
  destruct Hg as (Hp & -> & ->). cbn [newRecord traced]. unfold noted at 1. cbn [fst snd].
  destruct (newRecord r _) as [fresh w2]. cbn [fst].
  change (bind (traced r) fresh input) with (bind r fresh input).
  destruct (bind r fresh input) as [v f] eqn:Eb. apply bind_spec in Eb as (_ & Hv & Hval).
  destruct (valid f) eqn:Ev; cbn [negb]; [|right; split; [done|]; by rewrite Ev].
  rewrite <-(Hval eq_refl). cbn [create_callback traced]. unfold noted. cbn [fst snd].
  destruct (create_callback r v w2) as [[created|e] w3]; right; (split; [done|]); rewrite Ev;
    (split; [by apply Hv|done]).
Qed.

Lemma update_guarded r key token input w :
  let '(_, f, err, (_, es)) := update (traced r) key token input (w, []) in
  stopped r updateAction key token w err es
  ∨ passed r updateAction key token w
    ∧ match fst (get_callback r key (snd (guardWrite r updateAction key token w))) with
      | Err e => err = Some (LoadFailed key e) ∧ es = [EToken token; EPolicy updateAction key; EGet key]
      | Ok current =>
          if valid f
          then fst (written input (fields r) current)
               ∧ es = [EToken token; EPolicy updateAction key; EGet key;
                       EUpdate key (snd (written input (fields r) current))]
          else err = None ∧ es = [EToken token; EPolicy updateAction key; EGet key]
      end.
Proof.
  unfold update. pose proof (guard_cases r updateAction key token w) as Hg.
  destruct (guardWrite (traced r) _ _ _ _) as [[err|] [w1 es]]; [by left|].
  destruct Hg as (Hp & -> & ->). cbn [get_callback traced]. unfold noted at 1. cbn [fst snd].
  destruct (get_callback r key _) as [[current|e] w2]; cbn [fst]; [|by right].
  change (bind (traced r) current input) with (bind r current input).
  destruct (bind r current input) as [v f] eqn:Eb. apply bind_spec in Eb as (_ & Hv & Hval).
  destruct (valid f) eqn:Ev; cbn [negb]; [|right; split; [done|]; by rewrite Ev].
  rewrite <-(Hval eq_refl). cbn [update_callback traced]. unfold noted. cbn [fst snd].
  destruct (update_callback r key v w2) as [[updated|e] w3]; right; (split; [done|]); rewrite Ev;
    (split; [by apply Hv|done]).
Qed.

Lemma delete_guarded r key token w :
  let '(err, (_, es)) := delete_ (traced r) key token (w, []) in
  stopped r deleteAction key token w err es
  ∨ passed r deleteAction key token w ∧ es = [EToken token; EPolicy deleteAction key; EDelete key].
Proof.
  unfold delete_. pose proof (guard_cases r deleteAction key token w) as Hg.
  destruct (guardWrite (traced r) _ _ _ _) as [[err|] [w1 es]]; [by left|].
  destruct Hg as (Hp & -> & ->). cbn [delete_callback traced]. unfold noted. cbn [fst snd].
  destruct (delete_callback r key _) as [[err|] w2]; by right.
Qed.

End guarded.

(** ** A concrete resource *)

Definition note_model : Registered :=
  {| rModule := "notes";
     rModel := {| mTable := "notes"; mFields :=
       [{| fName := "id"; fType := TypeInt64; fMaxLen := 0; fNullable := false; fPrimaryKey := true;
           fUnique := false; fIndex := false |};
        {| fName := "title"; fType := TypeString; fMaxLen := 5; fNullable := false; fPrimaryKey := false;
           fUnique := false; fIndex := false |}] |} |}.
Definition note_config (adapters : list (fieldAdapter (string * string)))
    : resourceConfig (string * string) (list (string * string)) :=
  {| cfg_model := note_model;
     cfg_newRecord := Some (λ w, (("1", ""), w));
     cfg_key := {| ka_name := "id"; ka_read := Some fst |};
     cfg_fields := adapters;
     cfg_persistence :=
       {| p_list := Some (λ w, (Ok w, w));
          p_get := Some (λ key w, (Err "not found", w));
          p_create := Some (λ v w, (Ok v, w ++ [v]));
          p_update := Some (λ key v w, (Ok v, w));
          p_delete := Some (λ key w, (None, w)) |};
     cfg_authorize := Some (λ a t w, (None, w));
     cfg_validateCSRF := Some (λ token w, (if String.eqb token "t" then None else Some "bad token", w)) |}.
Definition title_adapter : fieldAdapter (string * string) :=
  {| fa_name := "title"; fa_read := Some snd; fa_write := Some (λ v raw, (None, (fst v, raw))) |}.

Lemma newResource_spec_witness :
  ∃ r, newResource (note_config [title_adapter]) = Ok r
    ∧ map (λ b, (fName (metadata b), fa_name (adapter b))) (fields r) = [("title", "title")]
    ∧ is_ok (newResource (note_config [])) = false.
Proof.
  assert (Hok : is_ok (newResource (note_config [title_adapter])) = true) by (vm_compute; reflexivity).
  destruct (newResource (note_config [title_adapter])) as [r|e] eqn:E; [|discriminate Hok].
  exists r. split; [reflexivity|]. split.
  - destruct (proj2 (newResource_spec (note_config [title_adapter])) r E) as (_ & Hm & Hf).
    cbn in Hm. destruct (fields r) as [|b [|? ?]]; try discriminate Hm. injection Hm as Hm.
    apply Forall_cons in Hf as [(_ & Hn & _) _]. cbn. rewrite Hn, Hm. reflexivity.
  - vm_compute. reflexivity.
Defined.

(** A title of six runes is echoed with an error, and nothing is stored. *)
Example long_title_refused :
  match newResource (note_config [title_adapter]) with
  | Ok r =>
      let '(_, f, err, w) := create r "t" (λ name, if String.eqb name "title" then "sixsix" else "") [] in
      (map ff_value (form_fields f), form_errors f !! "title", err, w)
      = (["sixsix"], Some "must be at most 5 characters", None, [])
  | Err _ => False
  end.
Proof. vm_compute. reflexivity. Qed.
