(* ===== verification/Mail.v ===== *)
(** * Mail values and the capture inbox: mail/mail.go

    [validate], and the bounded inbox tests send to.  Every operation holds the
    mutex, so an interleaving of calls is a sequence of operations. *)

From S2P Require Import Prelude GoStrings AuthCore.

#[local] Open Scope Z_scope.

(** What is wrong with a message; every one wraps [ErrInvalidMessage]. *)
Inductive invalidity := InvalidRecipient | NotABareAddress | InvalidSubject | InvalidBody.

Inductive mail_error :=
| ContextErr (e : error)
| ErrInvalidMessage (why : invalidity)
| ErrFull
| BadCapacity.

(** [unicode.IsControl]: the C0 and C1 blocks and [DEL]. *)
Definition IsControl (r : Z) : bool := ((0 <=? r) && (r <? 32)) || ((127 <=? r) && (r <? 160)).
(** [strings.IndexFunc(s, unicode.IsControl) >= 0]. *)
Definition has_control (s : string) : bool := existsb (λ '(r, _), IsControl r) (runes s).
(** [utf8.ValidString]: only an invalid byte is a [RuneError] of width one. *)
Definition ValidString (s : string) : bool :=
  forallb (λ '(r, w), negb ((r =? RuneError) && (w =? 1)%nat)) (runes s).

Section mail.
(** [net/mail]'s [ParseAddress]: the name and the address. *)
Context (ParseAddress : string → option (string * string)).

Definition validate (m : Message) : option mail_error :=
  if String.eqb (To m) "" || (254 <? len (To m)) || has_control (To m) || negb (ValidString (To m))
  then Some (ErrInvalidMessage InvalidRecipient)
  else if match ParseAddress (To m) with
          | None => true
          | Some (name, address) => negb (String.eqb name "") || negb (String.eqb address (To m))
          end
  then Some (ErrInvalidMessage NotABareAddress)
  else if String.eqb (TrimSpace (Subject m)) "" || (998 <? len (Subject m)) || has_control (Subject m)
          || negb (ValidString (Subject m))
  then Some (ErrInvalidMessage InvalidSubject)
  else if String.eqb (Text m) "" || (2 ^ 20 <? len (Text m)) || negb (ValidString (Text m))
          || contains_byte "000" (Text m)
  then Some (ErrInvalidMessage InvalidBody)
  else None.

(** ** The inbox *)

Record Capture := { capacity : Z; messages : list Message }.

Definition NewCapture (capacity : Z) : result mail_error Capture :=
  if capacity <=? 0 then Err BadCapacity else Ok {| capacity := capacity; messages := [] |}.

(** The context is looked at before validation and again under the lock. *)
Definition Send (ctx : Context) (m : Message) (c : Capture) : option mail_error * Capture :=
  match ctx 0%nat with
  | Some err => (Some (ContextErr err), c)
  | None =>
      match validate m with
      | Some err => (Some err, c)
      | None =>
          match ctx 1%nat with
          | Some err => (Some (ContextErr err), c)
          | None =>
              if capacity c <=? Z.of_nat (length (messages c)) then (Some ErrFull, c)
              else (None, {| capacity := capacity c; messages := messages c ++ [m] |})
          end
      end
  end.

Definition Messages (c : Capture) : list Message := messages c.

Definition Drain (c : Capture) : list Message * Capture :=
  (messages c, {| capacity := capacity c; messages := [] |}).

(** ** The inbox against an abstract queue *)

Inductive op := OSend (ctx : Context) (m : Message) | OMessages | ODrain.
Inductive answer := Sent (err : option mail_error) | Seen (ms : list Message).

Definition exec (o : op) (c : Capture) : answer * Capture :=
  match o with
  | OSend ctx m => let '(err, c) := Send ctx m c in (Sent err, c)
  | OMessages => (Seen (Messages c), c)
  | ODrain => let '(ms, c) := Drain c in (Seen ms, c)
  end.

Fixpoint history (ops : list op) (c : Capture) : list (op * answer) * Capture :=
  match ops with
  | [] => ([], c)
  | o :: ops' =>
      let '(ans, c) := exec o c in
      let '(events, c) := history ops' c in ((o, ans) :: events, c)
  end.

(** What is still in the inbox: the messages accepted since the last drain, in the
    order they were accepted. *)
Fixpoint undrained (events : list (op * answer)) (kept : list Message) : list Message :=
  match events with
  | [] => kept
  | (OSend _ m, Sent None) :: es => undrained es (kept ++ [m])
  | (ODrain, _) :: es => undrained es []
  | _ :: es => undrained es kept
  end.

(** Everything a drain or the final inbox hands over, in order. *)
Fixpoint handed_over (events : list (op * answer)) : list Message :=
  match events with
  | [] => []
  | (ODrain, Seen ms) :: es => ms ++ handed_over es
  | _ :: es => handed_over es
  end.
Definition accepted (events : list (op * answer)) : list Message :=
  omap (λ e, match e with (OSend _ m, Sent None) => Some m | _ => None end) events.

Lemma undrained_history ops c :
  messages (snd (history ops c)) = undrained (fst (history ops c)) (messages c)
  ∧ capacity (snd (history ops c)) = capacity c.
Proof.
  revert c; induction ops as [|o ops IH]; intros c; [done|]. cbn [history].
  destruct (exec o c) as [ans c1] eqn:E. specialize (IH c1). destruct (history ops c1) as [es c2].
  cbn [fst snd] in IH |- *. destruct IH as [-> ->]. revert E. destruct o as [ctx m| |]; cbn.
  - unfold Send. destruct (ctx 0%nat); [by intros [= <- <-]|]. destruct (validate m); [by intros [= <- <-]|].
    destruct (ctx 1%nat); [by intros [= <- <-]|]. destruct (_ <=? _); by intros [= <- <-].
  - by intros [= <- <-].
  - by intros [= <- <-].
Qed.

Lemma handed_history ops c :
  messages c ++ accepted (fst (history ops c))
  = handed_over (fst (history ops c)) ++ messages (snd (history ops c)).
Proof.
  revert c; induction ops as [|o ops IH]; intros c; [by rewrite app_nil_r|]. cbn [history].
  destruct (exec o c) as [ans c1] eqn:E. specialize (IH c1). destruct (history ops c1) as [es c2].
  cbn [fst snd] in IH |- *. revert E. destruct o as [ctx m| |]; cbn.
  - unfold Send. destruct (ctx 0%nat); [intros [= <- <-]; exact IH|].
    destruct (validate m); [intros [= <- <-]; exact IH|].
    destruct (ctx 1%nat); [intros [= <- <-]; exact IH|].
    destruct (_ <=? _); [intros [= <- <-]; exact IH|]. intros [= <- <-]. cbn in IH |- *.
    by rewrite <-IH, <-(assoc_L (++)).
  - intros [= <- <-]. exact IH.
  - intros [= <- <-]. cbn in IH |- *. by rewrite <-(assoc_L (++)), <-IH.
Qed.

Definition inbox_ok (c : Capture) : Prop :=
  Z.of_nat (length (messages c)) <= capacity c ∧ Forall (λ m, validate m = None) (messages c).

Lemma Send_spec ctx m c err c' :
  Send ctx m c = (err, c') →
  (err = None ↔ ctx 0%nat = None ∧ ctx 1%nat = None ∧ validate m = None
                ∧ Z.of_nat (length (messages c)) < capacity c)
  ∧ (err ≠ None → c' = c) ∧ (inbox_ok c → inbox_ok c').
Proof.
  unfold Send, inbox_ok. destruct (ctx 0%nat); [intros [= <- <-]; split; [split; [done|by intros (? & _)]|done]|].
  destruct (validate m) eqn:Ev; [intros [= <- <-]; split; [split; [done|by intros (_ & _ & ? & _)]|done]|].
  destruct (ctx 1%nat); [intros [= <- <-]; split; [split; [done|by intros (_ & ? & _)]|done]|].
  destruct (Z.leb_spec (capacity c) (Z.of_nat (length (messages c)))); intros [= <- <-]; cbn.
  - split; [split; [done|intros (_ & _ & _ & ?); lia]|done].
  - split; [split; [done|done]|]. split; [done|]. intros [H1 H2]. rewrite length_app. cbn.
    split; [lia|]. apply Forall_app. auto.
Qed.

Lemma inbox_history ops c : inbox_ok c → inbox_ok (snd (history ops c)).
Proof.
  revert c; induction ops as [|o ops IH]; intros c Hc; [done|]. cbn [history].
  destruct (exec o c) as [ans c1] eqn:E. specialize (IH c1). destruct (history ops c1) as [es c2].
  apply IH. revert E. destruct o as [ctx m| |]; cbn.
  - destruct (Send ctx m c) as [err c1'] eqn:Es. intros [= _ <-]. apply Send_spec in Es as (_ & _ & Hk). by apply Hk.
  - by intros [= _ <-].
  - intros [= _ <-]. destruct Hc as [Hc _]. split; cbn; [lia|constructor].
Qed.

(** The capture inbox is a bounded queue of valid messages.  Over any sequence
    of calls on a new inbox, what it holds is exactly the messages accepted since
    the last drain, in order, at most its capacity and all of them valid; every
    accepted message is handed over by exactly one drain or still there, none lost,
    duplicated or reordered; and a send is accepted exactly when its context is
    alive both times it is looked at, the message is valid and there is room. *)
Theorem capture_is_a_bounded_queue n c ops :
  NewCapture n = Ok c →
  let events := fst (history ops c) in
  let c' := snd (history ops c) in
  Messages c' = undrained events [] ∧ inbox_ok c' ∧ capacity c' = n
  ∧ accepted events = handed_over events ++ Messages c'
  ∧ ∀ ctx m, (fst (Send ctx m c') = None ↔
      ctx 0%nat = None ∧ ctx 1%nat = None ∧ validate m = None ∧ Z.of_nat (length (Messages c')) < n).
Proof.
  unfold NewCapture. destruct (Z.leb_spec n 0) as [Hn|Hn]; intros Hc; [discriminate Hc|].
  injection Hc as Hc. subst c. cbv zeta.
  set (c0 := {| capacity := n; messages := [] |}) in *.
  destruct (undrained_history ops c0) as [Hm Hcap]. pose proof (handed_history ops c0) as Hh.
  assert (Hok : inbox_ok (snd (history ops c0))) by (apply inbox_history; split; cbn; [lia|constructor]).
  split_and!; try done. intros ctx m. destruct (Send ctx m (snd (history ops c0))) as [err c''] eqn:Es.
  apply Send_spec in Es as (Hiff & _ & _). rewrite Hcap in Hiff. exact Hiff.
Qed.
End mail.

Definition example_message (to : string) : Message :=
  {| To := to; Subject := "Your Fabrin sign-in code"; Text := "Your Fabrin sign-in code is: 01234567" |}.

Lemma capture_is_a_bounded_queue_witness :
  let ops := [OSend Background (example_message "ada@example.com"); ODrain;
              OSend Background (example_message "not an address");
              OSend Background (example_message "grace@example.com");
              OSend Background (example_message "ada@example.com")] in
  match NewCapture 1 with
  | Ok c => Messages (snd (history ParseAddress ops c)) = [example_message "grace@example.com"]
            ∧ handed_over (fst (history ParseAddress ops c)) = [example_message "ada@example.com"]
            ∧ inbox_ok ParseAddress (snd (history ParseAddress ops c))
  | Err _ => False
  end.
Proof.
  cbv zeta. cbn [NewCapture Z.leb Z.compare].
  split; [vm_compute; reflexivity|]. split; [vm_compute; reflexivity|].
  exact (proj1 (proj2 (capture_is_a_bounded_queue ParseAddress 1 {| capacity := 1; messages := [] |} _ eq_refl))).
Defined.
