(* ===== verification/Logging.v ===== *)
(** * Structured logging: logging/logging.go

    The choice of handler and level, the request-id middleware and the request
    line.  The handlers themselves are [log/slog]'s; Gin's writer is seen through
    the status it reports. *)

From S2P Require Import Prelude GoStrings Sha256.

#[local] Open Scope Z_scope.

Definition HeaderRequestID : string := "X-Request-ID".
Definition LogKeyRequestID : string := "request_id".
Definition MsgRequest : string := "request".

(** ** The logger *)

Inductive Level := LevelDebug | LevelInfo | LevelWarn | LevelError.
#[global] Instance Level_eq_dec : EqDecision Level.
Proof. solve_decision. Defined.
Inductive handler := TextHandler | JSONHandler.

Section unicode.
Context `{Unicode}.

Definition parseLevel (level : string) : Level :=
  let l := ToLower level in
  if String.eqb l "debug" then LevelDebug
  else if String.eqb l "warn" || String.eqb l "warning" then LevelWarn
  else if String.eqb l "error" then LevelError
  else LevelInfo.

Definition New (format level : string) : handler * Level :=
  (if String.eqb (ToLower format) "text" then TextHandler else JSONHandler, parseLevel level).
End unicode.

(** ** The request id *)

Definition maxIDLen : Z := 64.

Definition id_rune (r : Z) : bool :=
  ((97 <=? r) && (r <=? 122)) || ((65 <=? r) && (r <=? 90)) || ((48 <=? r) && (r <=? 57))
  || (r =? 45) || (r =? 95) || (r =? 46).

Definition sanitizeID (s : string) : string :=
  if String.eqb s "" || (maxIDLen <? len s) then ""
  else if forallb (λ '(r, _), id_rune r) (runes s) then s else "".

(** Sixteen random bytes; the read cannot fail. *)
Definition newID (b : nat → Z) : string := hex_encode (map (λ j, b j mod 256) (seq 0 16)).

(** The middleware: the id in the context of the handlers after it, and in the
    response header. *)
Record tagged := { context_id : string; header_id : string }.
Definition RequestID (inbound : string) (b : nat → Z) : tagged :=
  let id := sanitizeID inbound in
  let id := if String.eqb id "" then newID b else id in
  {| context_id := id; header_id := id |}.

(** The chain of [context.WithValue]s under the private key, newest first. *)
Definition ContextWithRequestID (values : list string) (id : string) : list string := id :: values.
Definition RequestIDFromContext (values : list string) : string := match values with id :: _ => id | [] => "" end.

(** ** The request line *)

(** Gin's response writer: whether the header is out, and the status it reports. *)
Record writer := { committed : bool; status : Z }.

(** How the rest of the chain ended: a panic or not, the writer it left, and the
    errors Gin collected. *)
Record outcome := { panicked : bool; left_writer : writer; gin_errors : list string }.

Inductive attr := AText (key value : string) | AInt (key : string) (value : Z) | ABool (key : string) (value : bool).
Record line := { line_level : Level; line_msg : string; line_attrs : list attr }.

(** [AbortWithStatus] is Gin's [c.AbortWithStatus]; the handler yields the line it
    logs and the writer it leaves. *)
Definition Logger (AbortWithStatus : Z → writer → writer) (method path : string) (values : list string)
    (errors_text : list string → string) (o : outcome) : line * writer :=
  let w := if panicked o then AbortWithStatus 500 (left_writer o) else left_writer o in
  let attrs := [AText "method" method; AText "path" path; AInt "status" (status w)] in
  let id := RequestIDFromContext values in
  let attrs := if String.eqb id "" then attrs else attrs ++ [AText LogKeyRequestID id] in
  let attrs := match gin_errors o with [] => attrs | es => attrs ++ [AText "errors" (errors_text es)] end in
  let attrs := if panicked o then attrs ++ [ABool "panic_recovered" true] else attrs in
  ({| line_level := if panicked o || (500 <=? status w) then LevelError
                    else if 400 <=? status w then LevelWarn else LevelInfo;
      line_msg := MsgRequest; line_attrs := attrs |}, w).

(** ** Theorems *)

(** A byte that is safe in a header value and in a log field. *)
Definition safe_byte (c : ascii) : bool := is_lower c || is_upper c || is_digit c || contains_byte c "-_.".

Lemma id_rune_byte c : (byte c <? 128) = true → id_rune (byte c) = safe_byte c.
Proof.
  destruct c as [[] [] [] [] [] [] [] []]; vm_compute; intros Hc; first [reflexivity | discriminate Hc].
Qed.

Lemma id_rune_small r : id_rune r = true → r < 128.
Proof.
  unfold id_rune. rewrite !orb_true_iff, !andb_true_iff, !Z.leb_le, !Z.eqb_eq. lia.
Qed.

Lemma lor_large a b : 0 <= a → 0 <= b → 128 <= a ∨ 128 <= b → 128 <= Z.lor a b.
Proof.
  intros Ha Hb H. assert (Hl : 7 <= Z.log2 (Z.lor a b)).
  { rewrite Z.log2_lor by done. destruct H as [H|H]; apply (Z.log2_le_mono (2 ^ 7)) in H;
      rewrite Z.log2_pow2 in H by lia; lia. }
  assert (Hp : 0 < Z.lor a b).
  { destruct (Z.le_gt_cases (Z.lor a b) 0) as [Hle|]; [|done]. rewrite Z.log2_nonpos in Hl by done. lia. }
  apply Z.log2_le_pow2 in Hl; [|done]. lia.
Qed.

Lemma two_byte_lead c : in_range 194 223 c = true → 128 <= Z.shiftl (Z.land (byte c) 31) 6.
Proof. destruct c as [[] [] [] [] [] [] [] []]; vm_compute; intros H; first [discriminate H | by intros ?]. Qed.
Lemma bits_nonneg c n : 0 <= n → 0 <= Z.land (byte c) n.
Proof. intros Hn. apply Z.land_nonneg. by right. Qed.
Lemma shifted_nonneg c n k : 0 <= n → 0 <= Z.shiftl (Z.land (byte c) n) k.
Proof. intros Hn. apply Z.shiftl_nonneg. by apply bits_nonneg. Qed.

(** The lead byte or the first continuation byte contributes a high bit. *)
Lemma three_byte_lead c c1 :
  in_range 224 239 c = true →
  in_range (if byte c =? 224 then 160 else 128) (if byte c =? 237 then 159 else 191) c1 = true →
  128 <= Z.shiftl (Z.land (byte c) 15) 12 ∨ 128 <= Z.shiftl (Z.land (byte c1) 63) 6.
Proof.
  intros Hc Hc1. destruct (Z.eqb_spec (byte c) 224) as [E|E].
  - right. revert Hc1. rewrite E. cbn [Z.eqb Pos.eqb].
    destruct c1 as [[] [] [] [] [] [] [] []]; vm_compute; intros H; first [discriminate H | by intros ?].
  - left. revert Hc E. destruct c as [[] [] [] [] [] [] [] []]; vm_compute; intros H1 H2;
      first [discriminate H1 | by intros ? | by destruct H2].
Qed.
Lemma four_byte_lead c c1 :
  in_range 240 244 c = true →
  in_range (if byte c =? 240 then 144 else 128) (if byte c =? 244 then 143 else 191) c1 = true →
  128 <= Z.shiftl (Z.land (byte c) 7) 18 ∨ 128 <= Z.shiftl (Z.land (byte c1) 63) 12.
Proof.
  intros Hc Hc1. destruct (Z.eqb_spec (byte c) 240) as [E|E].
  - right. revert Hc1. rewrite E. cbn [Z.eqb Pos.eqb].
    destruct c1 as [[] [] [] [] [] [] [] []]; vm_compute; intros H; first [discriminate H | by intros ?].
  - left. revert Hc E. destruct c as [[] [] [] [] [] [] [] []]; vm_compute; intros H1 H2;
      first [discriminate H1 | by intros ? | by destruct H2].
Qed.

(** A rune below 128 is one byte. *)
Lemma decode_rune_small c s r w :
  decode_rune c s = (r, w) → r < 128 → (byte c <? 128) = true ∧ r = byte c ∧ w = 1%nat.
Proof.
  assert (Hbad : ∀ r w, (RuneError, 1%nat) = (r, w) → ¬ r < 128) by (intros ? ? [= <- _]; unfold RuneError; lia).
  unfold decode_rune. destruct (byte c <? 128); [by intros [= <- <-]|]. cbv zeta.
  intros Hd Hr. exfalso. revert Hd Hr.
  destruct s as [|c1 s1]; [apply Hbad|].
  destruct (in_range 194 223 c) eqn:E2.
  { destruct (cont c1); [|apply Hbad]. intros [= <- _].
    assert (128 <= Z.lor (Z.shiftl (Z.land (byte c) 31) 6) (Z.land (byte c1) 63)); [|lia].
    apply lor_large; [apply shifted_nonneg; lia|apply bits_nonneg; lia|left; by apply two_byte_lead]. }
  destruct s1 as [|c2 s2]; [apply Hbad|].
  destruct (in_range 224 239 c) eqn:E3.
  { destruct (in_range _ _ c1) eqn:E4; cbn [andb]; [|apply Hbad]. destruct (cont c2); [|apply Hbad]. intros [= <- _].
    match goal with |- ?x < 128 → _ => assert (128 <= x); [|lia] end.
    apply lor_large; [apply shifted_nonneg; lia|apply Z.lor_nonneg; split; [apply shifted_nonneg|apply bits_nonneg]; lia|].
    destruct (three_byte_lead c c1 E3 E4) as [H|H]; [by left|right].
    apply lor_large; [apply shifted_nonneg; lia|apply bits_nonneg; lia|by left]. }
  destruct s2 as [|c3 s3]; [apply Hbad|].
  destruct (in_range 240 244 c) eqn:E5; [|apply Hbad].
  destruct (in_range _ _ c1) eqn:E6; cbn [andb]; [|apply Hbad].
  destruct (cont c2); [|apply Hbad]. destruct (cont c3); [|apply Hbad]. intros [= <- _].
  match goal with |- ?x < 128 → _ => assert (128 <= x); [|lia] end.
  assert (Hrest : 0 <= Z.lor (Z.shiftl (Z.land (byte c2) 63) 6) (Z.land (byte c3) 63)).
  { apply Z.lor_nonneg; split; [apply shifted_nonneg|apply bits_nonneg]; lia. }
  assert (Hrest1 : 0 <= Z.shiftl (Z.land (byte c1) 63) 12) by (apply shifted_nonneg; lia).
  apply lor_large; [apply shifted_nonneg; lia|by apply Z.lor_nonneg|].
  destruct (four_byte_lead c c1 E5 E6) as [H|H]; [by left|right]. apply lor_large; auto.
Qed.

Lemma runes_safe s : forallb (λ '(r, _), id_rune r) (runes s) = string_forall safe_byte s.
Proof.
  unfold runes. induction s as [|c s IH]; [done|]. cbn.
  destruct (decode_rune c s) as [r w] eqn:E. cbn.
  destruct (id_rune r) eqn:Er; cbn.
  - destruct (decode_rune_small c s r w E (id_rune_small r Er)) as (Hc & -> & ->).
    rewrite <-id_rune_byte, Er by done. exact IH.
  - destruct (safe_byte c) eqn:Es; [|done]. exfalso.
    assert (Hc : (byte c <? 128) = true).
    { revert Es. destruct c as [[] [] [] [] [] [] [] []]; vm_compute; intros H; first [reflexivity | discriminate H]. }
    unfold decode_rune in E. rewrite Hc in E. injection E as <- _. by rewrite id_rune_byte, Es in Er.
Qed.

Lemma sanitizeID_spec s :
  sanitizeID s = if bool_decide (s ≠ "" ∧ len s <= 64) && string_forall safe_byte s then s else "".
Proof.
  unfold sanitizeID, maxIDLen. destruct (String.eqb_spec s "") as [->|Hne]; cbn [orb]; [by case_bool_decide|].
  destruct (Z.ltb_spec 64 (len s)).
  { rewrite bool_decide_false; [done|]. intros [_ ?]. lia. }
  rewrite bool_decide_true by done. by rewrite runes_safe.
Qed.

Lemma hex_encode_safe b : string_forall safe_byte (hex_encode b) = true.
Proof.
  eapply string_forall_impl; [|apply hex_encode_is_hex].
  intros c. destruct c as [[] [] [] [] [] [] [] []]; vm_compute; intros H; first [reflexivity | discriminate H].
Qed.

(** The request id cannot forge a header or a log line.  Whatever a client
    sends, the id put on the context and the one put in the response are the same,
    not empty, at most 64 bytes, and made of letters, digits, dashes, underscores
    and dots only; the client's own value is kept exactly when it has that form,
    and otherwise replaced by 32 hexadecimal digits. *)
Theorem RequestID_safe inbound b :
  let t := RequestID inbound b in
  context_id t = header_id t ∧ context_id t ≠ "" ∧ len (context_id t) <= 64
  ∧ string_forall safe_byte (context_id t) = true
  ∧ (context_id t = inbound ∨ context_id t = newID b ∧ String.length (newID b) = 32%nat)
  ∧ (inbound ≠ "" → len inbound <= 64 → string_forall safe_byte inbound = true → context_id t = inbound).
Proof.
  unfold RequestID. cbn [context_id header_id]. rewrite sanitizeID_spec.
  assert (Hl : String.length (newID b) = 32%nat) by (unfold newID; by rewrite length_hex_encode, length_map, length_seq).
  assert (Hnew : newID b ≠ "") by (intros E; by rewrite E in Hl).
  case_bool_decide as Hok; [destruct (string_forall safe_byte inbound) eqn:Hs|]; cbn [andb].
  - destruct Hok as [Hne Hlen]. rewrite (proj2 (String.eqb_neq inbound "")) by done. split_and!; auto.
  - cbn [String.eqb]. split_and!; auto; [unfold len; rewrite Hl; lia|apply hex_encode_safe|done].
  - cbn [String.eqb]. split_and!; auto; [unfold len; rewrite Hl; lia|apply hex_encode_safe|].
    intros H1 H2. by destruct Hok.
Qed.

(** What Gin documents of aborting with a status: a header already sent keeps the
    status it was sent with. *)
Definition keeps_committed (AbortWithStatus : Z → writer → writer) : Prop :=
  ∀ code w, status (AbortWithStatus code w) = if committed w then status w else code.

(** Every request is logged once under the constant message, with its method,
    path and status, and with its id when it has one; a request that panicked or
    ended in 500 or above is at error level, one between 400 and 499 at warning,
    and the panic is marked exactly when there was one; a panic becomes a 500
    unless a status was already sent. *)
Theorem Logger_level abort method path values text o :
  keeps_committed abort →
  let '(l, w) := Logger abort method path values text o in
  let id := RequestIDFromContext values in
  line_msg l = MsgRequest
  ∧ take 3 (line_attrs l) = [AText "method" method; AText "path" path; AInt "status" (status w)]
  ∧ (AText LogKeyRequestID id ∈ line_attrs l ↔ id ≠ "")
  ∧ (ABool "panic_recovered" true ∈ line_attrs l ↔ panicked o = true)
  ∧ (line_level l = LevelError ↔ panicked o = true ∨ 500 <= status w)
  ∧ (line_level l = LevelWarn ↔ panicked o = false ∧ 400 <= status w < 500)
  ∧ status w = (if panicked o && negb (committed (left_writer o)) then 500 else status (left_writer o)).
Proof.
  intros Habort. unfold Logger. set (w := if panicked o then _ else _).
  cbn [line_msg line_attrs line_level]. unfold LogKeyRequestID.
  split; [done|]. set (id := RequestIDFromContext values).
  split; [by destruct (String.eqb id ""), (gin_errors o), (panicked o)|].
  assert (status w = (if panicked o && negb (committed (left_writer o)) then 500 else status (left_writer o)))
    as Hs.
  { subst w. destruct (panicked o); [|done]. rewrite Habort. by destruct (committed (left_writer o)). }
  clearbody w. split; [|split].
  - destruct (String.eqb_spec id "") as [E|E], (gin_errors o), (panicked o); cbn; set_solver.
  - destruct (String.eqb_spec id "") as [E|E], (gin_errors o), (panicked o); cbn; set_solver.
  - split; [|split; [|exact Hs]]; clear Hs;
      destruct (panicked o), (Z.leb_spec 500 (status w)), (Z.leb_spec 400 (status w)); cbn;
      split; intros Hx; try done; try (left; done); try (right; lia); try lia;
      try (destruct Hx; (done || lia)).
Qed.

Definition gin_abort (code : Z) (w : writer) : writer :=
  if committed w then w else {| committed := true; status := code |}.

Lemma Logger_level_witness :
  line_level (fst (Logger gin_abort "GET" "/orders" ["r1"] (λ _, "")
    {| panicked := true; left_writer := {| committed := false; status := 200 |}; gin_errors := [] |}))
  = LevelError.
Proof.
  apply (Logger_level gin_abort "GET" "/orders" ["r1"] (λ _, "")
    {| panicked := true; left_writer := {| committed := false; status := 200 |}; gin_errors := [] |});
    [|by left].
  intros code [[] st]; reflexivity.
Defined.

Lemma RequestID_safe_witness :
  context_id (RequestID "trace-7f.A_1" Z.of_nat) = "trace-7f.A_1"
  ∧ context_id (RequestID ("forged" +:+ newline +:+ "level=error") Z.of_nat) = "000102030405060708090a0b0c0d0e0f".
Proof.
  split; [|vm_compute; reflexivity].
  apply (RequestID_safe "trace-7f.A_1" Z.of_nat); vm_compute; try reflexivity; discriminate.
Defined.
