(* ===== verification/Token.v ===== *)
(** * Go's lexical rules, as the generators consult them

    The Unicode character classes and the parts of [go/token] that
    src/schema/schema.go and src/internal/scaffold/module.go call: what an
    identifier, a keyword and an exported name are.  The classes of the runes
    above 127 are parameters. *)

From S2P Require Import Prelude GoStrings.

(** The Unicode tables of package [unicode], consulted above 127 only. *)
Class RuneClasses := {
  table_is_letter : Z → bool;
  table_is_digit : Z → bool;
  table_is_upper : Z → bool;
}.

(** Tables in which no rune above 127 is a letter, a digit or upper case. *)
Definition ascii_classes : RuneClasses :=
  {| table_is_letter := λ _, false; table_is_digit := λ _, false; table_is_upper := λ _, false |}.

Section classes.
Context `{RuneClasses}.

Definition IsLetter (r : Z) : bool :=
  if (r <? 128)%Z then (((65 <=? r) && (r <=? 90)) || ((97 <=? r) && (r <=? 122)))%Z
  else table_is_letter r.
Definition IsDigit (r : Z) : bool :=
  if (r <? 128)%Z then ((48 <=? r) && (r <=? 57))%Z else table_is_digit r.
Definition IsUpper (r : Z) : bool :=
  if (r <? 128)%Z then ((65 <=? r) && (r <=? 90))%Z else table_is_upper r.

(** The twenty-five keywords of Go. *)
Definition keywords : list string :=
  ["break"; "case"; "chan"; "const"; "continue"; "default"; "defer"; "else"; "fallthrough"; "for";
   "func"; "go"; "goto"; "if"; "import"; "interface"; "map"; "package"; "range"; "return";
   "select"; "struct"; "switch"; "type"; "var"].
Definition IsKeyword (name : string) : bool := existsb (String.eqb name) keywords.

(** The rune loop both identifier checks share: a letter or an underscore, or a
    digit when not first. *)
Definition name_rune (first : bool) (r : Z) : bool :=
  IsLetter r || (r =? 95)%Z || (IsDigit r && negb first).
Definition name_runes (s : string) : bool :=
  match runes s with
  | [] => true
  | (r, _) :: rs => name_rune true r && forallb (λ '(r, _), name_rune false r) rs
  end.

(** [token.IsIdentifier]. *)
Definition IsIdentifier (name : string) : bool :=
  negb (String.eqb name "") && negb (IsKeyword name) && name_runes name.

(** [token.IsExported]. *)
Definition IsExported (name : string) : bool :=
  match runes name with (r, _) :: _ => IsUpper r | [] => false end.

Lemma exported_nonempty name : IsExported name = true → name ≠ "".
Proof. by intros He ->. Qed.
End classes.

Lemma IsKeyword_spec name : IsKeyword name = true ↔ name ∈ keywords.
Proof. apply in_bool_decide. Qed.
