(* ===== verification/SchemaGen.v ===== *)
(** * The record generator: src/schema/schema.go

    The declarations a caller writes, what [New] accepts, the metadata and the
    text [Generate] produces.  [go/format] is a parameter: a function from the
    generated text to the formatted one, or a refusal. *)

From S2P Require Import Prelude GoStrings Token Orm Diff Plan Dialect.

Module schema.

(** ** Declarations *)

Record Field := mkField {
  name : string;
  kind : string;
  primary : bool;
  nullable : bool;
  maxLen : Z;
}.

Definition String_ (n : string) : Field := mkField n "String" false false 0.
Definition Int64 (n : string) : Field := mkField n "Int64" false false 0.
Definition Bool (n : string) : Field := mkField n "Bool" false false 0.
Definition Time (n : string) : Field := mkField n "Time" false false 0.
Definition PrimaryKey (f : Field) : Field := mkField (name f) (kind f) true (nullable f) (maxLen f).
Definition Nullable (f : Field) : Field := mkField (name f) (kind f) (primary f) true (maxLen f).
Definition MaxLen (f : Field) (n : Z) : Field := mkField (name f) (kind f) (primary f) (nullable f) n.

(** A Go record and its table. *)
Record Model := mkModel {
  model_name : string;
  table : string;
  fields : list Field;
}.

Inductive error :=
| InvalidModel (name table : string)
| InvalidField (name : string)
| NoSupportedType (name : string)
| InvalidLength (name : string)
| NullableKey (name : string)
| NeedsOneKey (name : string)
| InvalidPackage (pkg : string)
| DuplicateTable (table : string)
| NameCollision (symbol : string)
| RenderFailed (e : dialect_error)
| FormatFailed.

(** ** Names *)

(** The regular expression [^[a-z][a-z0-9]*(?:_[a-z0-9]+)*$]: nonempty words of
    lower-case letters and digits joined by single underscores, the first of them
    starting with a letter. *)
Definition word_byte (c : ascii) : bool := is_lower c || is_digit c.
Definition word (p : string) : bool := negb (String.eqb p "") && string_forall word_byte p.
Definition identifier (s : string) : bool :=
  match s with String c _ => is_lower c | "" => false end
  && forallb word (SplitByte "_" s).

(** [goName]: the callers reach it with an [identifier] only, so [p[:1]] is one
    ASCII byte. *)
Definition go_part (p : string) : string :=
  if String.eqb p "id" then "ID"
  else string_map upper_ascii (take_bytes 1 p) +:+ drop_bytes 1 p.
Definition goName (s : string) : string := Join (map go_part (SplitByte "_" s)) "".

Definition quote (s : string) : string := dq +:+ s +:+ dq.

Definition goType (f : Field) : string :=
  if nullable f then "sql.Null" +:+ kind f
  else if String.eqb (kind f) "String" then "string"
  else if String.eqb (kind f) "Int64" then "int64"
  else if String.eqb (kind f) "Bool" then "bool"
  else "time.Time".

(** ** [New] and [validate] *)

Definition supported (k : string) : bool :=
  existsb (String.eqb k) ["String"; "Int64"; "Bool"; "Time"].

(** One iteration of the loop over the fields, [names] being the Go names so
    far. *)
Definition check_field (names : gset string) (f : Field) : option error :=
  if negb (identifier (name f)) || (63 <? len (name f))%Z || bool_decide (goName (name f) ∈ names)
    then Some (InvalidField (name f))
  else if negb (supported (kind f)) then Some (NoSupportedType (name f))
  else if (maxLen f <? 0)%Z || (negb (maxLen f =? 0)%Z && negb (String.eqb (kind f) "String"))
    then Some (InvalidLength (name f))
  else if primary f && nullable f then Some (NullableKey (name f))
  else None.

Fixpoint check_fields (names : gset string) (keys : nat) (fs : list Field) : result error nat :=
  match fs with
  | [] => Ok keys
  | f :: fs' =>
      match check_field names f with
      | Some e => Err e
      | None => check_fields ({[goName (name f)]} ∪ names) (if primary f then S keys else keys) fs'
      end
  end.

Section generator.
Context `{RuneClasses} `{Unicode}.

Definition validate (m : Model) : option error :=
  if negb (IsIdentifier (model_name m)) || negb (IsExported (model_name m))
     || negb (identifier (table m)) || (63 <? len (table m))%Z || (length (fields m) =? 0)%nat
    then Some (InvalidModel (model_name m) (table m))
  else match check_fields ∅ 0 (fields m) with
       | Err e => Some e
       | Ok keys => if (keys =? 1)%nat then None else Some (NeedsOneKey (model_name m))
       end.

(** [slices.Clone] of the fields is the identity on values. *)
Definition New (n t : string) (fs : list Field) : result error Model :=
  let m := mkModel n t fs in
  match validate m with Some e => Err e | None => Ok m end.

(** ** Metadata *)

Definition field_metadata (f : Field) : Orm.Field :=
  Orm.mkField (name f) (ToLower (kind f)) (maxLen f) (nullable f) (primary f) false false.
Definition metadata (m : Model) : Orm.Model := Orm.mkModel (table m) (map field_metadata (fields m)).

(** ** The generated text

    [cat] appends the pieces one [Fprintf] writes; [nl] is its newline. *)

Definition cat (l : list string) : string := String.concat "" l.
Definition nl : string := newline.
Definition print_bool (b : bool) : string := if b then "true" else "false".

(** The parameter list [$1, $2, ...] of [n] columns, from [i]. *)
Fixpoint params (i : Z) (fs : list Field) : list string :=
  match fs with [] => [] | _ :: fs' => cat ["$"; Itoa i] :: params (i + 1) fs' end.

Definition cols (m : Model) : list string := map (λ f, quote (name f)) (fields m).
Definition args (m : Model) : list string := map (λ f, cat ["record."; goName (name f)]) (fields m).
Definition scans (m : Model) : list string := map (λ f, cat ["&record."; goName (name f)]) (fields m).

(** The loop leaves the last primary field in [key], a zero field when there is
    none. *)
Definition key_of (fs : list Field) : Field :=
  fold_left (λ key f, if primary f then f else key) fs (mkField "" "" false false 0).

Definition insert_sql (m : Model) : string :=
  cat ["INSERT INTO "; quote (table m); " ("; Join (cols m) ", "; ") VALUES (";
       Join (params 1 (fields m)) ", "; ")"].
Definition select_sql (m : Model) : string :=
  cat ["SELECT "; Join (cols m) ", "; " FROM "; quote (table m); " WHERE ";
       quote (name (key_of (fields m))); " = $1"].

Definition struct_text (m : Model) : string :=
  cat (["// "; model_name m; " is a row in "; table m; "."; nl; "type "; model_name m; " struct {"; nl]
       ++ map (λ f, cat [goName (name f); " "; goType f; " `json:"; Quote (name f); "`"; nl]) (fields m)
       ++ ["}"; nl; nl]).

Definition model_text (m : Model) (ddl : list string) : string :=
  cat (["// "; model_name m; "CreateTableSQL creates the initial table; execute only in a migration."; nl;
        "const "; model_name m; "CreateTableSQL = "; Quote (Join ddl (cat [";"; nl])); nl; nl;
        "// "; model_name m; "Model returns fresh migration metadata."; nl;
        "func "; model_name m; "Model() orm.Model { return orm.Model{Table:"; Quote (table m);
        ",Fields:[]orm.Field{"; nl]
       ++ map (λ f, cat ["{Name:"; Quote (name f); ",Type:orm.Type"; kind f; ",MaxLen:"; Itoa (maxLen f);
                         ",PrimaryKey:"; print_bool (primary f); ",Nullable:"; print_bool (nullable f);
                         "},"; nl]) (fields m)
       ++ ["}}}"; nl; nl]).

Definition store_text (m : Model) : string :=
  let n := model_name m in
  cat ["// "; n; "Store provides typed access; it does not authorize callers."; nl;
       "type "; n; "Store struct { db DB }"; nl;
       "// New"; n; "Store validates and binds caller-owned database access."; nl;
       "func New"; n; "Store(db DB) ("; n; "Store,error) { if err:=validateDB(db);err!=nil {return ";
       n; "Store{},err}; return "; n; "Store{db:db},nil }"; nl;
       "// Create inserts a record with a caller-supplied primary key."; nl;
       "func (s "; n; "Store) Create(ctx context.Context, record "; n; ") error {"; nl;
       "_,err:=s.db.ExecContext(ctx,"; Quote (insert_sql m); ","; Join (args m) ","; ")"; nl;
       "if err!=nil {return fmt.Errorf("; Quote (cat ["create "; table m; ": %w"]); ",err)}"; nl;
       "return nil"; nl; "}"; nl;
       "// Get finds a record by key; errors.Is(err, sql.ErrNoRows) identifies absence."; nl;
       "func (s "; n; "Store) Get(ctx context.Context, id "; goType (key_of (fields m)); ") ("; n; ",error) {"; nl;
       "var record "; n; nl;
       "err:=s.db.QueryRowContext(ctx,"; Quote (select_sql m); ",id).Scan("; Join (scans m) ","; ")"; nl;
       "if err!=nil {return "; n; "{},fmt.Errorf("; Quote (cat ["get "; table m; ": %w"]); ",err)}"; nl;
       "return record,nil"; nl; "}"; nl; nl].

(** [Model.generate]: what it appends to the builder. *)
Definition generate (m : Model) : result error string :=
  match Postgres.Render (Value (CreateTable (metadata m))) with
  | Err e => Err (RenderFailed e)
  | Ok ddl => Ok (struct_text m +:+ model_text m ddl +:+ store_text m)
  end.

(** ** [Generate] *)

Definition reserved : gset string :=
  list_to_set ["DB"; "context"; "sql"; "orm"; "time"; "fmt"].

(** The package-level names a model declares. *)
Definition symbols (m : Model) : list string :=
  let n := model_name m in
  [n; n +:+ "Store"; "New" +:+ n +:+ "Store"; n +:+ "Model"; n +:+ "CreateTableSQL"].

(** The loop over the symbols of one model. *)
Fixpoint reserve (taken : gset string) (ss : list string) : result error (gset string) :=
  match ss with
  | [] => Ok taken
  | s :: ss' =>
      if bool_decide (s ∈ taken) then Err (NameCollision s) else reserve ({[s]} ∪ taken) ss'
  end.

Fixpoint check_models (tables taken : gset string) (ms : list Model) : option error :=
  match ms with
  | [] => None
  | m :: ms' =>
      match validate m with
      | Some e => Some e
      | None =>
          if bool_decide (table m ∈ tables) then Some (DuplicateTable (table m))
          else match reserve taken (symbols m) with
               | Err e => Some e
               | Ok taken' => check_models ({[table m]} ∪ tables) taken' ms'
               end
      end
  end.

Definition needsTime (ms : list Model) : bool :=
  existsb (λ m, existsb (λ f, String.eqb (kind f) "Time" && negb (nullable f)) (fields m)) ms.

Definition preamble (pkg : string) (ms : list Model) : string :=
  cat (["// Code generated by Fabrin schema. DO NOT EDIT."; nl; "package "; pkg; nl; nl;
        "import ("; nl; quote "context"; nl; quote "database/sql"; nl; quote "fmt"; nl;
        quote "github.com/usefabrin/fabrin/orm"; nl]
       ++ (if needsTime ms then [quote "time"; nl] else [])
       ++ [")"; nl; nl;
        "// DB is satisfied by *sql.DB and *sql.Tx. The caller owns its lifecycle."; nl;
        "type DB interface {"; nl;
        "ExecContext(context.Context,string,...any)(sql.Result,error)"; nl;
        "QueryRowContext(context.Context,string,...any)*sql.Row"; nl; "}"; nl; nl;
        "func validateDB(db DB) error {"; nl; "invalid := db == nil"; nl;
        "switch v := db.(type) {"; nl; "case *sql.DB: invalid = v == nil"; nl;
        "case *sql.Tx: invalid = v == nil"; nl; "case *sql.Conn: invalid = v == nil"; nl; "}"; nl;
        "if invalid { return fmt.Errorf("; quote "database handle must not be nil"; ") }; return nil"; nl;
        "}"; nl]).

(** The builder's text once every model has been written. *)
Definition source_text (pkg : string) (ms : list Model) : result error string :=
  texts ← map_result generate ms;
  Ok (preamble pkg ms +:+ cat texts).

Definition Generate (format : string → option string) (pkg : string) (ms : list Model)
    : result error string :=
  if negb (IsIdentifier pkg) || String.eqb pkg "_" || bool_decide (pkg ∈ reserved)
     || (length ms =? 0)%nat
    then Err (InvalidPackage pkg)
  else match check_models ∅ reserved ms with
       | Some e => Err e
       | None =>
           text ← source_text pkg ms;
           match format text with Some out => Ok out | None => Err FormatFailed end
       end.
End generator.
End schema.
