(* ===== verification/SchemaGenSpec.v ===== *)
(** * The record generator: what it promises

    Every model [New] accepts describes a table the registry accepts; its columns
    become distinct exported Go fields; [Generate] refuses exactly the colliding
    or malformed inputs, and what it declares is collision free. *)

From S2P Require Import Prelude GoStrings Token Orm Diff Plan Dialect DialectSpec SchemaGen.

Module gen.
Import schema.

(** ** Names *)

Definition name_byte (c : ascii) : bool := word_byte c || Ascii.eqb c "_".

Lemma word_byte_bounds c : word_byte c = true → (48 <= byte c < 123)%Z.
Proof.
  unfold word_byte, is_lower, is_digit, in_range.
  rewrite orb_true_iff, !andb_true_iff, !Z.leb_le. lia.
Qed.

Lemma column_byte_plain c :
  name_byte c = true → (byte c <? 128)%Z = true ∧ Ascii.eqb c quote_char = false.
Proof.
  intros H. split.
  - apply Z.ltb_lt. unfold name_byte in H. apply orb_true_iff in H as [H|H%Ascii.eqb_eq].
    + apply word_byte_bounds in H. lia.
    + by subst.
  - apply Ascii.eqb_neq. by intros ->.
Qed.

Lemma SplitByte_nonempty sep s : SplitByte sep s ≠ [].
Proof. destruct s; cbn; repeat case_match; done. Qed.

Lemma split_bytes s :
  forallb (string_forall word_byte) (SplitByte "_" s) = true → string_forall name_byte s = true.
Proof.
  induction s as [|c s IH]; [done|]. cbn [SplitByte string_forall]. unfold name_byte at 1.
  destruct (Ascii.eqb c "_").
  - cbn [forallb string_forall]. rewrite orb_true_r. apply IH.
  - destruct (SplitByte "_" s) as [|w ws] eqn:Es; [by apply SplitByte_nonempty in Es|].
    cbn [forallb string_forall]. rewrite !andb_true_iff, orb_false_r.
    intros [[-> Hw] Hws]. split; [done|]. apply IH. cbn. by rewrite Hw.
Qed.

Lemma identifier_bytes s : identifier s = true → string_forall name_byte s = true.
Proof.
  unfold identifier. intros [_ H]%andb_true_iff. apply split_bytes.
  rewrite forallb_forall in *. intros p Hp. specialize (H p Hp). unfold word in H.
  by apply andb_true_iff in H as [_ ?].
Qed.

Lemma identifier_ascii s : identifier s = true → is_ascii s = true.
Proof.
  intros H%identifier_bytes. eapply string_forall_impl; [|exact H].
  intros c Hc. by apply column_byte_plain.
Qed.

Lemma identifier_not_blank s : identifier s = true → blank s = false.
Proof.
  intros H. apply plain_head_not_blank. destruct s as [|c s]; [done|].
  apply andb_true_iff in H as [Hl _]. unfold plain_head, is_lower, space1, in_range in *.
  rewrite !andb_true_iff, !Z.leb_le in Hl. destruct Hl.
  rewrite (proj2 (Z.leb_gt (byte c) 13)), (proj2 (Z.eqb_neq (byte c) 32)), andb_false_r by lia.
  rewrite (proj2 (Z.ltb_lt (byte c) 128)) by lia. done.
Qed.

(** An identifier needs no escaping: [quote] is SQL quoting. *)
Lemma quote_identifier s : identifier s = true → quote s = quoteIdentifier s.
Proof.
  intros H%identifier_bytes. unfold quote, quoteIdentifier. f_equal. f_equal.
  induction s as [|c s IH]; [done|]. cbn [string_forall] in H. apply andb_true_iff in H as [Hc Hs].
  cbn [ReplaceByte]. rewrite (proj2 (column_byte_plain c Hc)). by rewrite <-IH.
Qed.

(** ** Go names *)

Lemma Join_concat l : Join l "" = String.concat "" l.
Proof. induction l as [|x [|y l] IH]; [done..|]. cbn. cbn in IH. by rewrite IH. Qed.

Definition go_byte (c : ascii) : bool := word_byte c || is_upper c.

Lemma go_byte_upper c : word_byte c = true → go_byte (upper_ascii c) = true.
Proof.
  intros H. unfold upper_ascii. destruct (is_lower c) eqn:El; [|unfold go_byte; by rewrite H].
  destruct c as [[] [] [] [] [] [] [] []]; vm_compute in H, El |- *; congruence.
Qed.

Lemma go_part_bytes p : string_forall word_byte p = true → string_forall go_byte (go_part p) = true.
Proof.
  intros H. unfold go_part. destruct (String.eqb p "id"); [done|].
  destruct p as [|c p]; [done|]. cbn [take_bytes drop_bytes string_map String.append string_forall] in *.
  apply andb_true_iff in H as [Hc Hp]. rewrite go_byte_upper by done.
  destruct p as [|d p]; [done|]. cbn [drop_bytes String.append andb].
  eapply string_forall_impl; [|exact Hp]. intros e He. unfold go_byte. by rewrite He.
Qed.

Lemma goName_bytes s : identifier s = true → string_forall go_byte (goName s) = true.
Proof.
  unfold identifier, goName. intros [_ H]%andb_true_iff. rewrite Join_concat.
  induction (SplitByte "_" s) as [|p ps IH]; [done|]. cbn [forallb map] in *.
  apply andb_true_iff in H as [Hp Hps]. unfold word in Hp. apply andb_true_iff in Hp as [_ Hp].
  apply go_part_bytes in Hp. specialize (IH Hps).
  destruct ps as [|q ps]; cbn [map String.concat] in *; [done|].
  by rewrite !string_forall_app, Hp, IH.
Qed.

Lemma goName_head s :
  identifier s = true → ∃ c t, goName s = String c t ∧ is_upper c = true.
Proof.
  unfold identifier, goName. destruct s as [|c s]; [done|]. intros [Hc Hw]%andb_true_iff.
  rewrite Join_concat. cbn [SplitByte] in *.
  destruct (Ascii.eqb_spec c "_") as [->|]; [done|].
  destruct (SplitByte "_" s) as [|w ws] eqn:Es; [by apply SplitByte_nonempty in Es|].
  assert (∃ d t, go_part (String c w) = String d t ∧ is_upper d = true) as (d & t & Hp & Hd).
  { unfold go_part. destruct (String.eqb _ _); [by eexists _, _|].
    cbn. eexists _, _. split; [done|].
    destruct c as [[] [] [] [] [] [] [] []]; vm_compute in Hc |- *; congruence. }
  cbn [map]. rewrite Hp. destruct (map go_part ws); cbn; eauto.
Qed.

Lemma go_byte_rune `{RuneClasses} c :
  go_byte c = true → name_rune false (byte c) = true.
Proof.
  unfold go_byte, word_byte, is_lower, is_digit, is_upper, in_range, name_rune, IsLetter, IsDigit.
  rewrite !orb_true_iff, !andb_true_iff, !Z.leb_le. intros Hc.
  rewrite (proj2 (Z.ltb_lt (byte c) 128)) by lia.
  rewrite !orb_true_iff, !andb_true_iff, !Z.leb_le. lia.
Qed.

Lemma go_byte_ascii s : string_forall go_byte s = true → is_ascii s = true.
Proof.
  intros Hg. eapply string_forall_impl; [|exact Hg]. intros c Hc. apply Z.ltb_lt.
  unfold go_byte, is_upper, in_range in Hc.
  apply orb_true_iff in Hc as [?%word_byte_bounds|Hc]; [lia|].
  rewrite andb_true_iff, !Z.leb_le in Hc. lia.
Qed.

Lemma keywords_lower k :
  k ∈ keywords → match k with String c _ => is_upper c = false | "" => True end.
Proof.
  assert (Forall (λ k, match k with String c _ => is_upper c = false | "" => True end) keywords) as H
    by (repeat first [apply Forall_nil_2 | apply Forall_cons_2; [vm_compute; reflexivity|]]).
  by rewrite Forall_forall in H; intros ?%H.
Qed.

(** The Go field of a column is an exported identifier. *)
Lemma goName_exported `{RuneClasses} s :
  identifier s = true → IsIdentifier (goName s) = true ∧ IsExported (goName s) = true.
Proof.
  intros Hs. pose proof (goName_bytes s Hs) as Hb.
  destruct (goName_head s Hs) as (c & t & Hg & Hu). rewrite Hg in *.
  assert (runes (String c t) = (byte c, 1%nat) :: map (λ d, (byte d, 1%nat)) (list_ascii_of_string t))
    as Hr by (by rewrite runes_ascii by (by apply go_byte_ascii)).
  cbn [string_forall] in Hb. apply andb_true_iff in Hb as [Hc Ht].
  assert (65 <= byte c <= 90)%Z as Hup.
  { unfold is_upper, in_range in Hu. rewrite andb_true_iff, !Z.leb_le in Hu. lia. }
  assert (IsLetter (byte c) = true ∧ IsUpper (byte c) = true) as [Hl HU].
  { unfold IsLetter, IsUpper. rewrite (proj2 (Z.ltb_lt (byte c) 128)) by lia.
    rewrite orb_true_iff, !andb_true_iff, !Z.leb_le. lia. }
  split; [|unfold IsExported; by rewrite Hr].
  unfold IsIdentifier, name_runes. rewrite Hr, !andb_true_iff. split; [split; [done|]|split].
  - apply negb_true_iff, not_true_iff_false. intros Hk%IsKeyword_spec%keywords_lower. cbn in Hk. congruence.
  - unfold name_rune. by rewrite Hl.
  - apply forallb_forall. intros [r w] Hin. apply in_map_iff in Hin as (d & [= <- <-] & Hd).
    apply go_byte_rune. rewrite string_forall_list, forallb_forall in Ht. by apply Ht.
Qed.

(** ** Valid declarations *)

Definition ok_field (f : Field) : Prop :=
  identifier (name f) = true ∧ (len (name f) ≤ 63)%Z ∧ supported (kind f) = true
  ∧ (0 ≤ maxLen f)%Z ∧ (maxLen f ≠ 0%Z → kind f = "String")
  ∧ ¬ (primary f = true ∧ nullable f = true).

Lemma schema_field_ok names f :
  check_field names f = None ↔ ok_field f ∧ goName (name f) ∉ names.
Proof.
  unfold check_field, ok_field.
  destruct (identifier (name f)); cbn [negb orb]; [|naive_solver].
  destruct (Z.ltb_spec 63 (len (name f))); cbn [orb]; [naive_solver lia|].
  case_bool_decide; [naive_solver|].
  destruct (supported (kind f)); cbn [negb]; [|naive_solver].
  destruct (Z.ltb_spec (maxLen f) 0), (Z.eqb_spec (maxLen f) 0), (String.eqb_spec (kind f) "String");
    cbn [negb andb orb]; try (naive_solver lia);
    destruct (primary f), (nullable f); cbn [andb]; naive_solver lia.
Qed.

Lemma schema_fields_ok names keys fs n :
  check_fields names keys fs = Ok n ↔
  Forall ok_field fs ∧ NoDup (map (λ f, goName (name f)) fs)
  ∧ (∀ f, f ∈ fs → goName (name f) ∉ names) ∧ n = keys + length (List.filter primary fs).
Proof.
  revert names keys; induction fs as [|f fs IH]; intros names keys; cbn.
  - split; [intros [= ->]|intros (_ & _ & _ & ->)].
    + split_and!; [constructor|constructor|set_solver|lia].
    + f_equal; lia.
  - destruct (check_field names f) as [e|] eqn:E.
    + split; [done|]. intros (Hv & Hnd & Hs & _). exfalso.
      apply Forall_cons in Hv as [Hv _]. specialize (Hs f ltac:(set_solver)).
      by rewrite (proj2 (schema_field_ok names f) (conj Hv Hs)) in E.
    + apply schema_field_ok in E as [Hv Hf]. rewrite IH, Forall_cons, NoDup_cons.
      assert ((∀ g, g ∈ fs → goName (name g) ∉ {[goName (name f)]} ∪ names)
        ↔ (∀ g, g ∈ f :: fs → goName (name g) ∉ names)
          ∧ goName (name f) ∉ map (λ f, goName (name f)) fs) as ->.
      { rewrite list_elem_of_fmap. set_solver. }
      destruct (primary f); cbn; rewrite ?Nat.add_succ_r; naive_solver.
Qed.

Section models.
Context `{RuneClasses} `{Unicode}.

(** What [New] accepts. *)
Definition wf_model (m : Model) : Prop :=
  IsIdentifier (model_name m) = true ∧ IsExported (model_name m) = true
  ∧ identifier (table m) = true ∧ (len (table m) ≤ 63)%Z
  ∧ Forall ok_field (fields m) ∧ NoDup (map (λ f, goName (name f)) (fields m))
  ∧ length (List.filter primary (fields m)) = 1.

Lemma validate_wf m : validate m = None ↔ wf_model m.
Proof.
  unfold validate, wf_model.
  destruct (IsIdentifier (model_name m)); cbn [negb orb]; [|naive_solver].
  destruct (IsExported (model_name m)); cbn [negb orb]; [|naive_solver].
  destruct (identifier (table m)); cbn [negb orb]; [|naive_solver].
  destruct (Z.ltb_spec 63 (len (table m))); cbn [orb]; [naive_solver lia|].
  destruct (Nat.eqb_spec (length (fields m)) 0) as [E|E].
  - apply length_zero_iff_nil in E. rewrite E. cbn. naive_solver.
  - destruct (check_fields ∅ 0 (fields m)) as [n|e] eqn:Ec.
    + pose proof Ec as Hk. apply schema_fields_ok in Hk as (Hv & Hnd & _ & ->).
      destruct (Nat.eqb_spec (0 + length (List.filter primary (fields m))) 1); naive_solver lia.
    + split; [done|]. intros (_ & _ & _ & _ & Hv & Hnd & Hone). exfalso.
      assert (check_fields ∅ 0 (fields m) = Ok (0 + 1)) as E2; [|congruence].
      apply schema_fields_ok. rewrite Hone. set_solver.
Qed.

Lemma kind_types k : supported k = true → Valid (ToLower k) = true.
Proof.
  unfold supported. intros Hk%in_bool_decide.
  repeat (apply elem_of_cons in Hk as [->|Hk]; [vm_compute; reflexivity|]).
  by apply elem_of_nil in Hk.
Qed.

(** The metadata of a model [New] accepts is a table the registry accepts. *)
Lemma metadata_valid m : wf_model m → valid_model (metadata m).
Proof.
  intros (_ & _ & Ht & _ & Hf & Hnd & Hk). split_and!; cbn.
  - by apply identifier_not_blank.
  - rewrite List.map_map. cbn. clear -Hnd. induction (fields m) as [|f fs IH]; [constructor|].
    cbn in *. apply NoDup_cons in Hnd as [Hn Hnd]. constructor; [|by apply IH].
    intros (g & Hg & Hin)%list_elem_of_fmap. apply Hn, list_elem_of_fmap. exists g.
    split; [by rewrite Hg|done].
  - rewrite Forall_forall in Hf. apply Forall_forall. intros g (f & -> & Hin)%list_elem_of_fmap.
    destruct (Hf f Hin) as (Hi & _ & Hs & Hl & Hl' & Hp). unfold valid_field. cbn.
    split_and!; [by apply identifier_not_blank|by apply kind_types| |done| |by intros [? _]].
    + intros Hne. by rewrite (Hl' Hne).
    + intros Hpr. split_and!; [|done|done]. destruct (nullable f); [|done]. by destruct Hp.
  - unfold primaries. rewrite <-Hk. clear.
    induction (fields m) as [|f fs IH]; [done|]. cbn. destruct (primary f); cbn; by rewrite IH.
Qed.

Lemma New_ok n t fs m : New n t fs = Ok m ↔ m = mkModel n t fs ∧ wf_model m.
Proof.
  unfold New. pose proof (validate_wf (mkModel n t fs)) as Hv.
  destruct (validate (mkModel n t fs)); naive_solver.
Qed.

(** ** Generation *)

Lemma reserve_ok taken ss taken' :
  reserve taken ss = Ok taken' ↔
  NoDup ss ∧ (∀ s, s ∈ ss → s ∉ taken) ∧ taken' = list_to_set ss ∪ taken.
Proof.
  revert taken; induction ss as [|s ss IH]; intros taken; cbn.
  - rewrite (left_id_L ∅ (∪)). split; [intros [= ->]|by intros (_ & _ & ->)].
    split_and!; [constructor|set_solver|done].
  - case_bool_decide; [split; [done|]; intros (_ & Hs & _); by destruct (Hs s ltac:(set_solver))|].
    rewrite IH, NoDup_cons, (assoc_L (∪)), (comm_L (∪) (list_to_set ss)). set_solver.
Qed.

(** The models [Generate] accepts after [tables] and [taken]. *)
Definition accepted_models (tables taken : gset string) (ms : list Model) : Prop :=
  Forall wf_model ms ∧ NoDup (map table ms) ∧ (∀ m, m ∈ ms → table m ∉ tables)
  ∧ NoDup (flat_map symbols ms) ∧ ∀ s, s ∈ flat_map symbols ms → s ∉ taken.

Lemma check_models_ok tables taken ms :
  check_models tables taken ms = None ↔ accepted_models tables taken ms.
Proof.
  unfold accepted_models. revert tables taken; induction ms as [|m ms IH]; intros tables taken.
  - cbn. split; [|done]. intros _. split_and!; first [constructor|set_solver].
  - cbn [check_models map flat_map]. rewrite Forall_cons, NoDup_cons, NoDup_app, <-validate_wf.
    destruct (validate m) as [e|]; [naive_solver|].
    case_bool_decide as Ht; [split; [done|]; intros (_ & _ & Hn & _); by destruct (Hn m ltac:(set_solver))|].
    destruct (reserve taken (symbols m)) as [taken'|e] eqn:E.
    + apply reserve_ok in E as (Hnd & Hfr & ->). rewrite IH. clear IH.
      generalize dependent (symbols m). intros ss Hnd Hfr.
      setoid_rewrite not_elem_of_union. setoid_rewrite elem_of_list_to_set.
      setoid_rewrite not_elem_of_singleton. setoid_rewrite elem_of_app. setoid_rewrite elem_of_cons.
      rewrite list_elem_of_fmap. split.
      * intros (Hv & Ht' & Hd & Hs & Hf). split_and!; [done|done| |done| |done| |done|].
        -- intros (m' & Heq & Hm'). by destruct (Hd m' Hm').
        -- intros m' [->|Hm']; [done|]. by apply Hd.
        -- intros s Hs1 Hs2. by destruct (Hf s Hs2).
        -- intros s [Hs1|Hs2]; [by apply Hfr|by apply Hf].
      * intros ([_ Hv] & [Hn Ht'] & Hd & (_ & Hsep & Hs) & Hf). split_and!; [done|done| |done|].
        -- intros m' Hm'. split; [|auto]. intros Heq. apply Hn. by exists m'.
        -- intros s Hs2. split; [|auto]. intros Hs1. by apply (Hsep s).
    + split; [done|]. intros (_ & _ & _ & (Hnd & _) & Hs). exfalso.
      assert (reserve taken (symbols m) = Ok (list_to_set (symbols m) ∪ taken)) as E2; [|congruence].
      apply reserve_ok. split; [done|]. split; [|done]. intros s Hs'. apply Hs, elem_of_app. by left.
Qed.

(** A refusal: neither rendering nor formatting was reached. *)
Definition refusal (e : error) : Prop :=
  match e with RenderFailed _ | FormatFailed => False | _ => True end.

Lemma reserve_refusal taken ss e : reserve taken ss = Err e → refusal e.
Proof.
  revert taken; induction ss as [|s ss IH]; intros taken; cbn; [done|].
  case_bool_decide; [by intros [= <-]|apply IH].
Qed.

Lemma check_fields_refusal names keys fs e : check_fields names keys fs = Err e → refusal e.
Proof.
  revert names keys; induction fs as [|f fs IH]; intros names keys; cbn [check_fields]; [done|].
  destruct (check_field names f) as [e'|] eqn:E; [|apply IH]. intros [= <-]. revert E.
  unfold check_field. by repeat case_match; intros [= <-].
Qed.

Lemma validate_refusal m e : validate m = Some e → refusal e.
Proof.
  unfold validate. destruct (_ || _); [by intros [= <-]|].
  destruct (check_fields _ _ _) as [n|e'] eqn:E; [by destruct (n =? 1)%nat; intros [= <-]|].
  intros [= <-]. by eapply check_fields_refusal.
Qed.

Lemma check_models_refusal tables taken ms e : check_models tables taken ms = Some e → refusal e.
Proof.
  revert tables taken; induction ms as [|m ms IH]; intros tables taken; cbn [check_models]; [done|].
  destruct (validate m) as [e'|] eqn:Ev; [intros [= <-]; by eapply validate_refusal|].
  case_bool_decide; [by intros [= <-]|].
  destruct (reserve taken (symbols m)) as [t|e'] eqn:E; [apply IH|].
  intros [= <-]. by eapply reserve_refusal.
Qed.

Lemma generate_total m : wf_model m → ∃ text, generate m = Ok text.
Proof.
  intros Hm%metadata_valid. unfold generate. cbn [Postgres.Render].
  destruct (postgres_renders (CreateTable (metadata m))) as (ddl & -> & _); [|by eexists].
  by apply valid_model_typed.
Qed.

Lemma source_text_total pkg ms : Forall wf_model ms → ∃ text, source_text pkg ms = Ok text.
Proof.
  intros Hms. unfold source_text. rewrite Forall_forall in Hms.
  destruct (map_result_total generate ms) as [ts ->]; [|by eexists].
  intros m Hm. apply generate_total, Hms, Hm.
Qed.

(** The packages and models [Generate] accepts. *)
Definition accepted (pkg : string) (ms : list Model) : Prop :=
  IsIdentifier pkg = true ∧ pkg ≠ "_" ∧ (pkg ∉ reserved) ∧ ms ≠ [] ∧ accepted_models ∅ reserved ms.



Lemma Generate_accepts format pkg ms out : Generate format pkg ms = Ok out → accepted pkg ms.
Proof.
  unfold Generate, accepted. rewrite <-check_models_ok.
  destruct (IsIdentifier pkg); cbn [negb orb]; [|done].
  destruct (String.eqb_spec pkg "_"); cbn [orb]; [done|].
  case_bool_decide; cbn [orb]; [done|].
  destruct (Nat.eqb_spec (length ms) 0) as [E|E]; [done|].
  destruct (check_models ∅ reserved ms); [done|]. intros _. split_and!; try done. by intros ->.
Qed.

(** ** The statements a store runs *)

Lemma params_lookup fs i n :
  (i < length fs)%nat → params n fs !! i = Some ("$" +:+ Itoa (n + Z.of_nat i)).
Proof.
  revert i n; induction fs as [|f fs IH]; intros i n Hi; [cbn in Hi; lia|].
  destruct i as [|i]; cbn [params lookup list_lookup] in *.
  - by rewrite Z.add_0_r.
  - rewrite IH by (cbn in Hi; lia). do 3 f_equal. lia.
Qed.

Lemma key_of_primary fs key0 key :
  List.filter primary fs = [key] →
  fold_left (λ key f, if primary f then f else key) fs key0 = key.
Proof.
  assert (∀ fs k, List.filter primary fs = [] →
    fold_left (λ key f, if primary f then f else key) fs k = k) as Hnone.
  { clear. intros fs; induction fs as [|f fs IH]; intros k; [done|]. cbn.
    destruct (primary f); [done|]. apply IH. }
  revert key0; induction fs as [|f fs IH]; intros key0; [done|]. cbn.
  destruct (primary f); [|by apply IH]. intros [= -> Hn]. by apply Hnone.
Qed.

Lemma cols_quoted m :
  wf_model m → cols m = map (λ f, quoteIdentifier (name f)) (fields m).
Proof.
  intros (_ & _ & _ & _ & Hf & _). unfold cols. apply map_ext_in. intros f Hin%list_elem_of_In.
  rewrite Forall_forall in Hf. apply quote_identifier. by apply Hf.
Qed.

(** ** Properties *)

(** [New] accepts exactly the declarations with an exported Go name, a
    snake-case table and columns of at most 63 bytes whose Go names are distinct,
    supported types, lengths on strings only and one key that is not nullable; the
    metadata of what it accepts is a table the registry accepts, and every column
    becomes an exported Go field. *)
Theorem New_sound (n t : string) (fs : list Field) (m : Model) :
  (New n t fs = Ok m ↔ m = mkModel n t fs ∧ wf_model m)
  ∧ (New n t fs = Ok m →
      valid_model (metadata m)
      ∧ ∀ f, f ∈ fs → IsIdentifier (goName (name f)) = true ∧ IsExported (goName (name f)) = true).
Proof.
  split; [apply New_ok|]. intros [-> Hm]%New_ok. split; [by apply metadata_valid|].
  intros f Hf. apply goName_exported. destruct Hm as (_ & _ & _ & _ & Hok & _).
  rewrite Forall_forall in Hok. by apply Hok.
Qed.

(** [Generate] refuses, before writing anything, exactly an unusable
    package name, an empty list, an invalid model, a table declared twice and a
    symbol that two models or the generated file itself would declare twice;
    otherwise the text is produced and the result is what the formatter makes of
    it. *)
Theorem Generate_exact (format : string → option string) (pkg : string) (ms : list Model) :
  (accepted pkg ms ∧ ∃ text, source_text pkg ms = Ok text
     ∧ Generate format pkg ms = match format text with Some out => Ok out | None => Err FormatFailed end)
  ∨ (¬ accepted pkg ms ∧ ∃ e, Generate format pkg ms = Err e ∧ refusal e).
Proof.
  unfold Generate, accepted. pose proof (check_models_ok ∅ reserved ms) as Hc.
  destruct (IsIdentifier pkg); cbn [negb orb]; [|right; split; [naive_solver|by eexists]].
  destruct (String.eqb_spec pkg "_"); cbn [orb]; [right; split; [naive_solver|by eexists]|].
  case_bool_decide; cbn [orb]; [right; split; [naive_solver|by eexists]|].
  destruct (Nat.eqb_spec (length ms) 0) as [E|E].
  { apply length_zero_iff_nil in E. right; split; [naive_solver|by eexists]. }
  assert (ms ≠ []) by (by intros ->).
  destruct (check_models ∅ reserved ms) as [e|] eqn:Ec.
  - right. split; [naive_solver|]. exists e. split; [done|]. by eapply check_models_refusal.
  - left. assert (accepted_models ∅ reserved ms) as Ha by (by apply Hc). split; [done|].
    destruct (source_text_total pkg ms) as [text Ht]; [apply Ha|]. exists text. by rewrite Ht.
Qed.

(** The metadata of every model a generated package declares registers, all
    together and without an error, in one module of an application. *)
Theorem generated_models_register (format : string → option string) (pkg module out : string)
    (ms : list Model) :
  Generate format pkg ms = Ok out →
  ∃ r, Register NewRegistry module (map metadata ms) = (r, None)
    ∧ Models r ≡ₚ map (λ m, mkRegistered module (metadata m)) ms.
Proof.
  intros HG.
  apply Generate_accepts in HG as (_ & _ & _ & _ & Hwf & Hnd & _).
  assert (Register NewRegistry module (map metadata ms) =
    (mkRegistry (list_to_map (registrations module (map metadata ms)) ∪ ∅), None)) as Hr.
  { apply Register_ok. split_and!; [|by rewrite List.map_map|done|done].
    apply Forall_map. eapply Forall_impl; [exact Hwf|]. apply metadata_valid. }
  eexists. split; [exact Hr|].
  rewrite Models_perm. cbn [byTable]. rewrite (right_id_L ∅ (∪)), map_to_list_to_map.
  - unfold registrations. rewrite !List.map_map. done.
  - unfold registrations. rewrite <-list_fmap_compose, <-list_fmap_compose. exact Hnd.
Qed.

(** The statements of a generated store name the table and the columns that
    the generated DDL creates: every name is quoted as the dialect quotes it, the
    [i]th column is bound to the [i]th parameter, and [Get] looks up by the one
    primary key. *)
Theorem generated_statements (m : Model) :
  wf_model m →
  insert_sql m = cat ["INSERT INTO "; quoteIdentifier (table m); " (";
      Join (map (λ f, quoteIdentifier (name f)) (fields m)) ", "; ") VALUES (";
      Join (params 1 (fields m)) ", "; ")"]
  ∧ (∀ i f, fields m !! i = Some f →
       cols m !! i = Some (quoteIdentifier (name f))
       ∧ params 1 (fields m) !! i = Some ("$" +:+ Itoa (1 + Z.of_nat i))
       ∧ args m !! i = Some ("record." +:+ goName (name f))
       ∧ scans m !! i = Some ("&record." +:+ goName (name f)))
  ∧ NoDup (args m)
  ∧ ∃ key, List.filter primary (fields m) = [key]
      ∧ select_sql m = cat ["SELECT "; Join (map (λ f, quoteIdentifier (name f)) (fields m)) ", ";
          " FROM "; quoteIdentifier (table m); " WHERE "; quoteIdentifier (name key); " = $1"].
Proof.
  intros Hm. pose proof (cols_quoted m Hm) as Hc. destruct Hm as (_ & _ & Ht & _ & Hf & Hnd & Hk).
  apply quote_identifier in Ht. split; [unfold insert_sql; by rewrite Hc, Ht|]. split; [|split].
  - intros i f Hi. rewrite Hc. unfold args, scans. rewrite !list_lookup_fmap, Hi.
    rewrite params_lookup by (by eapply lookup_lt_Some). done.
  - unfold args. rewrite <-(List.map_map (λ f, goName (name f)) (λ s, cat ["record."; s])).
    apply NoDup_fmap_2; [|done]. intros a b Hab. unfold cat in Hab. cbn in Hab. by injection Hab.
  - destruct (List.filter primary (fields m)) as [|key [|]] eqn:E; try done.
    exists key. split; [done|]. unfold select_sql, key_of. rewrite Hc, Ht, (key_of_primary _ _ key E).
    rewrite quote_identifier; [done|]. rewrite Forall_forall in Hf. apply Hf.
    assert (key ∈ List.filter primary (fields m)) as [Hin _]%elem_of_filter_bool by (rewrite E; set_solver).
    done.
Qed.

End models.

(** ** Witnesses *)

#[local] Existing Instance ascii_classes.
#[local] Existing Instance identity_tables.

Definition user_model : Model :=
  mkModel "User" "app_users"
    [PrimaryKey (String_ "id"); MaxLen (String_ "display_name") 80; Nullable (Time "last_seen_at")].

Lemma user_model_wf : wf_model user_model.
Proof. apply validate_wf. vm_compute. reflexivity. Qed.

Lemma generated_models_register_witness :
  is_ok (Generate Some "records" [user_model]) = true
  ∧ ∃ r, Register NewRegistry "accounts" (map metadata [user_model]) = (r, None)
      ∧ Models r ≡ₚ map (λ m, mkRegistered "accounts" (metadata m)) [user_model].
Proof.
  split; [vm_compute; reflexivity|].
  destruct (Generate Some "records" [user_model]) as [out|e] eqn:E;
    [exact (generated_models_register Some "records" "accounts" out [user_model] E)|].
  exfalso. vm_compute in E. discriminate E.
Defined.

Lemma generated_statements_witness :
  args user_model = ["record.ID"; "record.DisplayName"; "record.LastSeenAt"] ∧ NoDup (args user_model).
Proof.
  split; [vm_compute; reflexivity|].
  exact (proj1 (proj2 (proj2 (generated_statements user_model user_model_wf)))).
Defined.
End gen.
