(* ===== verification/VersionSpec.v ===== *)
(** * Migration versions and file names: what makemigrations can rely on

    Versions are timestamps of fourteen digits whose textual order is the order in
    time; the next version is above every recorded one, and each bump moves on.
    Slugs are plain file-name parts. *)

From S2P Require Import Prelude GoStrings Paths Json Orm OrmState Diff Plan Dialect DialectSpec MakeMigrations.

#[local] Open Scope Z_scope.

(** ** Fixed-width numbers *)

(** A finite check over the numbers below a bound. *)
Fixpoint upto (p : Z → bool) (n : nat) : bool :=
  match n with O => true | S n' => p (Z.of_nat n') && upto p n' end.
Lemma upto_spec p n z : upto p n = true → 0 <= z < Z.of_nat n → p z = true.
Proof.
  induction n as [|n IH]; cbn; [lia|]. intros [H1 H2]%andb_true_iff Hz.
  destruct (Z.eq_dec z (Z.of_nat n)) as [->|]; [done|]. apply IH; [done|lia].
Qed.

(** [z] prints as [n] digits that read back as [z]. *)
Definition reads (n : nat) (z : Z) : bool :=
  let s := padded n z in
  (String.length s =? n)%nat && string_forall is_digit s
  && match digits n 0 s with Some (z', "") => z' =? z | _ => false end.
(** And the next number prints later in the order of strings. *)
Definition width_ok (n : nat) (z : Z) : bool :=
  reads n z && reads n (z + 1) && str_ltb (padded n z) (padded n (z + 1)).

Lemma widths : upto (width_ok 2) 99 = true ∧ upto (width_ok 4) (Z.to_nat 9999) = true.
Proof. split; vm_compute; reflexivity. Qed.

(** The two widths a version is made of, and the bound of each. *)
Inductive field_width : nat → Z → Prop := width2 : field_width 2 100 | width4 : field_width 4 10000.

(** Side conditions on the width of a field. *)
Ltac width := first [apply width2 | apply width4 | lia].

Lemma width_succ n b z :
  field_width n b → 0 <= z < b - 1 →
  reads n z = true ∧ reads n (z + 1) = true ∧ str_ltb (padded n z) (padded n (z + 1)) = true.
Proof.
  intros Hw Hz. assert (width_ok n z = true) as H.
  { destruct widths as [H2 H4]. destruct Hw.
    - apply (upto_spec (width_ok 2) 99 z H2). lia.
    - apply (upto_spec (width_ok 4) (Z.to_nat 9999) z H4). rewrite Z2Nat.id; lia. }
  unfold width_ok in H. rewrite !andb_true_iff in H. tauto.
Qed.

Lemma width_reads n b z : field_width n b → 0 <= z < b → reads n z = true.
Proof.
  intros Hw Hz. destruct (Z.eq_dec z (b - 1)) as [->|].
  - destruct (width_succ n b (b - 2) Hw) as (_ & H & _); [destruct Hw; lia|].
    by replace (b - 2 + 1) with (b - 1) in H by lia.
  - apply (width_succ n b z Hw). lia.
Qed.

Lemma padded_length n b z : field_width n b → 0 <= z < b → String.length (padded n z) = n.
Proof.
  intros Hw Hz. pose proof (width_reads n b z Hw Hz) as H. unfold reads in H.
  rewrite !andb_true_iff in H. destruct H as [[H _] _]. by apply Nat.eqb_eq in H.
Qed.

Lemma padded_digits n b z : field_width n b → 0 <= z < b → string_forall is_digit (padded n z) = true.
Proof.
  intros Hw Hz. pose proof (width_reads n b z Hw Hz) as H. unfold reads in H.
  rewrite !andb_true_iff in H. tauto.
Qed.

Lemma digits_app n acc s v rest t :
  digits n acc s = Some (v, t) → digits n acc (s +:+ rest) = Some (v, t +:+ rest).
Proof.
  revert acc s; induction n as [|n IH]; intros acc s; cbn.
  - destruct s; by intros [= <- <-].
  - destruct s as [|c s]; [done|]. cbn. destruct (digit c); cbn; [apply IH|done].
Qed.

Lemma digits_padded n b z rest :
  field_width n b → 0 <= z < b → digits n 0 (padded n z +:+ rest) = Some (z, rest).
Proof.
  intros Hw Hz. pose proof (width_reads n b z Hw Hz) as H. unfold reads in H.
  rewrite !andb_true_iff in H. destruct H as [_ H].
  destruct (digits n 0 (padded n z)) as [[z' [|]]|] eqn:E; [|done..].
  apply Z.eqb_eq in H as ->. by apply (digits_app _ _ _ _ rest) in E.
Qed.

Lemma padded_lt n b z : field_width n b → 0 <= z < b - 1 → str_ltb (padded n z) (padded n (z + 1)) = true.
Proof. intros Hw Hz. by apply (width_succ n b). Qed.

(** Numbers in order print in order. *)
Lemma padded_lt_trans n b x y :
  field_width n b → 0 <= x < y → y < b → str_ltb (padded n x) (padded n y) = true.
Proof.
  intros Hw Hx Hy. assert (∃ k, y = x + 1 + Z.of_nat k) as [k ->]
    by (exists (Z.to_nat (y - x - 1)); lia).
  induction k as [|k IH].
  - rewrite Z.add_0_r. apply (padded_lt n b); [done|lia].
  - eapply str_ltb_trans; [apply IH; lia|].
    replace (x + 1 + Z.of_nat (S k)) with (x + 1 + Z.of_nat k + 1) by lia.
    apply (padded_lt n b); [done|lia].
Qed.

Lemma str_ltb_app_same p a b : str_ltb (p +:+ a) (p +:+ b) = str_ltb a b.
Proof.
  unfold str_ltb. induction p as [|c p IH]; [done|]. cbn. by rewrite ascii_compare_refl.
Qed.

Lemma str_ltb_app_lt p q a b :
  String.length p = String.length q → str_ltb p q = true → str_ltb (p +:+ a) (q +:+ b) = true.
Proof.
  unfold str_ltb. revert q; induction p as [|c p IH]; intros [|d q]; cbn; try done.
  intros [= Hl]. destruct (Ascii.compare c d); try done. by apply IH.
Qed.

(** ** Civil times *)

Definition valid_civil (t : civil) : Prop :=
  0 <= year t <= 9999 ∧ 1 <= month t <= 12 ∧ 1 <= day t <= days_in (year t) (month t)
  ∧ 0 <= hour t <= 23 ∧ 0 <= minute t <= 59 ∧ 0 <= second t <= 59.

Lemma days_in_bounds y m : 28 <= days_in y m <= 31.
Proof. unfold days_in. repeat case_match; lia. Qed.

Lemma valid_widths t :
  valid_civil t → 0 <= year t < 10000 ∧ 0 <= month t < 100 ∧ 0 <= day t < 100 ∧ 0 <= hour t < 100
    ∧ 0 <= minute t < 100 ∧ 0 <= second t < 100.
Proof.
  intros (Hy & Hm & Hd & Hh & Hmi & Hs). pose proof (days_in_bounds (year t) (month t)). lia.
Qed.

Lemma parse_format t : valid_civil t → parse_time (format_time t) = Some t.
Proof.
  intros Hv. pose proof (valid_widths t Hv) as (Wy & Wm & Wd & Wh & Wmi & Ws).
  destruct t as [y mo d h mi s]. unfold valid_civil in Hv. cbn [year month day hour minute second] in *.
  unfold parse_time, format_time. cbn [year month day hour minute second].
  rewrite (digits_padded 4 10000) by (done || constructor). cbn [option_bind mbind].
  do 4 (rewrite (digits_padded 2 100) by (done || constructor); cbn [option_bind mbind]).
  rewrite <-(string_app_nil_r (padded 2 s)), (digits_padded 2 100) by (done || constructor).
  cbn [option_bind mbind skip_fraction].
  destruct Hv as (Hy & Hm & Hd & Hh & Hmi & Hs).
  rewrite !(proj2 (Z.leb_le _ _)) by lia. rewrite !(proj2 (Z.ltb_lt _ _)) by lia. done.
Qed.

Lemma format_length t : valid_civil t → String.length (format_time t) = 14%nat.
Proof.
  intros (Wy & Wm & Wd & Wh & Wmi & Ws)%valid_widths. unfold format_time.
  rewrite !string_length_app, (padded_length 4 10000) by (done || constructor).
  by rewrite !(padded_length 2 100) by (done || constructor).
Qed.

Lemma format_digits t : valid_civil t → string_forall is_digit (format_time t) = true.
Proof.
  intros (Wy & Wm & Wd & Wh & Wmi & Ws)%valid_widths. unfold format_time.
  rewrite !string_forall_app, (padded_digits 4 10000) by (done || constructor).
  by rewrite !(padded_digits 2 100) by (done || constructor).
Qed.

(** A second later is a valid time, a later version, in the same year or the
    next. *)
Lemma add_second_later t :
  valid_civil t → year t < 9999 →
  valid_civil (add_second t) ∧ str_ltb (format_time t) (format_time (add_second t)) = true
  ∧ year t <= year (add_second t) <= year t + 1.
Proof.
  intros Hv Hy9. pose proof (valid_widths t Hv) as (Wy & Wm & Wd & Wh & Wmi & Ws).
  destruct t as [y mo d h mi s]. unfold valid_civil in *. cbn [year month day hour minute second] in *.
  destruct Hv as (Hy & Hm & Hd & Hh & Hmi & Hs). unfold add_second, format_time.
  pose proof (days_in_bounds y mo). pose proof (days_in_bounds y (mo + 1)).
  pose proof (days_in_bounds (y + 1) 1).
  destruct (Z.ltb_spec s 59); [|destruct (Z.ltb_spec mi 59); [|destruct (Z.ltb_spec h 23);
    [|destruct (Z.ltb_spec d (days_in y mo)); [|destruct (Z.ltb_spec mo 12)]]]];
    cbn [year month day hour minute second];
    (split; [lia|]); (split; [|lia]);
    rewrite ?str_ltb_app_same;
    first [apply (padded_lt 2 100); [constructor|lia]
          |apply str_ltb_app_lt;
             [rewrite !(padded_length 2 100) by width; done
             |apply (padded_lt 2 100); [constructor|lia]]
          |apply str_ltb_app_lt;
             [rewrite !(padded_length 4 10000) by width; done
             |apply (padded_lt 4 10000); [constructor|lia]]].
Qed.

(** ** Versions *)

(** [v] is a version with [n] years to spare. *)
Definition canonical (n : nat) (v : string) : Prop :=
  ∃ t, valid_civil t ∧ v = format_time t ∧ year t + Z.of_nat n <= 9999.

Lemma canonical_le n m v : (m ≤ n)%nat → canonical n v → canonical m v.
Proof. intros Hm (t & Ht & Hv & Hy). exists t. split; [done|]. split; [done|lia]. Qed.

Lemma canonical_length n v : canonical n v → String.length v = 14%nat.
Proof. intros (t & Ht & -> & _). by apply format_length. Qed.
Lemma canonical_digits n v : canonical n v → string_forall is_digit v = true.
Proof. intros (t & Ht & -> & _). by apply format_digits. Qed.
Lemma canonical_nonempty n v : canonical n v → v ≠ "".
Proof. intros H%canonical_length ->. done. Qed.

Lemma canonical_parse n v :
  canonical n v → ∃ t, parse_time v = Some t ∧ valid_civil t ∧ v = format_time t
    ∧ year t + Z.of_nat n <= 9999.
Proof. intros (t & Ht & -> & Hy). exists t. rewrite parse_format by done. done. Qed.

Lemma bump_later n v :
  canonical (S n) v → canonical n (bumpVersion v) ∧ str_ltb v (bumpVersion v) = true.
Proof.
  intros (t & Hp & Ht & Hv & Hy)%canonical_parse. unfold bumpVersion. rewrite Hp.
  destruct (add_second_later t Ht ltac:(lia)) as (Ht' & Hlt & Hy'). split; [|by rewrite Hv].
  exists (add_second t). split; [done|]. split; [done|lia].
Qed.

Definition all_entries (manifests : gmap string (list manifestEntry)) : list manifestEntry :=
  flat_map snd (map_to_list manifests).

Lemma highest_fold es h :
  let r := foldl (λ highest e, if str_ltb highest (eVersion e) then eVersion e else highest) h es in
  str_leb h r = true ∧ (∀ e, e ∈ es → str_leb (eVersion e) r = true)
  ∧ (r = h ∨ ∃ e, e ∈ es ∧ r = eVersion e).
Proof.
  revert h; induction es as [|e es IH]; intros h; cbn [foldl].
  - split; [apply str_leb_refl|]. split; [by intros ? ?%elem_of_nil|by left].
  - cbv zeta. destruct (str_ltb h (eVersion e)) eqn:E; destruct (IH (if str_ltb h (eVersion e) then eVersion e else h)) as (H1 & H2 & H3);
      rewrite E in H1, H2, H3; cbv zeta in *.
    + assert (str_leb h (eVersion e) = true) as Hle.
      { rewrite str_leb_ltb, negb_true_iff. by apply str_ltb_antisym. }
      split; [by eapply str_leb_trans|]. split.
      * intros x [->|Hx]%elem_of_cons; auto.
      * right. destruct H3 as [H3|(x & Hx & H3)]; [exists e|exists x]; rewrite H3; split; set_solver.
    + assert (str_leb (eVersion e) h = true) as Hle by (rewrite str_leb_ltb, E; done).
      split; [done|]. split.
      * intros x [->|Hx]%elem_of_cons; [by eapply str_leb_trans|auto].
      * destruct H3 as [H3|(x & Hx & H3)]; [by left|right; exists x; split; set_solver].
Qed.

(** The next version exists and is above every recorded one. *)
Lemma nextVersion_above n now manifests :
  canonical (S n) now → (∀ e, e ∈ all_entries manifests → canonical (S n) (eVersion e)) →
  ∃ v, nextVersion now manifests = Ok v ∧ canonical n v
    ∧ ∀ e, e ∈ all_entries manifests → str_ltb (eVersion e) v = true.
Proof.
  intros Hnow Hall. unfold nextVersion.
  destruct (highest_fold (all_entries manifests) "") as (_ & Hge & Horig).
  unfold highest_version. fold (all_entries manifests). cbv zeta in *.
  set (h := foldl _ "" _) in *.
  assert (∀ v, str_ltb h v = true → ∀ e, e ∈ all_entries manifests → str_ltb (eVersion e) v = true) as Habove.
  { intros v Hv e He. specialize (Hge e He). rewrite str_leb_ltb, negb_true_iff in Hge.
    destruct (str_ltb (eVersion e) h) eqn:E; [by eapply str_ltb_trans|].
    by rewrite (str_ltb_total _ _ E Hge). }
  destruct (str_leb now h) eqn:Ele.
  - assert (canonical (S n) h) as Hh.
    { destruct Horig as [->|(e & He & ->)]; [|auto]. exfalso. apply canonical_nonempty in Hnow.
      by destruct now. }
    destruct (bump_later n h Hh) as [Hc Hlt]. destruct (canonical_parse _ _ Hh) as (t & Hp & _).
    unfold bumpVersion in *. rewrite Hp in *. cbn [mbind result_bind].
    rewrite str_leb_ltb, Hlt. cbn [negb]. exists (format_time (add_second t)). auto.
  - cbn [mbind result_bind]. rewrite Ele. exists now. split; [done|].
    split; [eapply canonical_le; [|exact Hnow]; lia|]. apply Habove.
    rewrite str_leb_ltb, negb_false_iff in Ele. done.
Qed.
