(* ===== verification/LayoutSpec.v ===== *)
(** * The on-disk layout makemigrations maintains

    Paths and file names that cannot collide, what reading the layout back yields
    as a function of the files, and what one migration's writes change. *)

From S2P Require Import Prelude GoStrings Paths Json Orm OrmState Diff Plan Schema DiffSpec RenameSpec PlanSpec.
From S2P Require Import Dialect DialectSpec MakeMigrations VersionSpec.

(** ** Paths *)

(** The path of a file of a module's migrations. *)
Definition file_path (module f : string) : string := Join [module; "migrations"; f] "/".
Definition dir_of (module : string) : string := path_join [module; "migrations"].

Lemma plain_migrations : plain "migrations".
Proof. by repeat split. Qed.
#[local] Hint Resolve plain_migrations : core.
Ltac plains := repeat first [apply Forall_nil_2 | apply Forall_cons_2]; try done; auto.

Lemma path_join_file module f :
  plain module → plain f → path_join [module; "migrations"; f] = file_path module f.
Proof. intros Hm Hf. apply path_join_plain; [done|]. plains. Qed.

Lemma path_join_dir module f :
  plain module → plain f → path_join [dir_of module; f] = file_path module f.
Proof.
  intros Hm Hf. unfold dir_of. rewrite (path_join_plain [module; "migrations"]); [|done|plains].
  unfold path_join. assert (Join [module; "migrations"] "/" ≠ "") as Hne by (by apply (Join_head_plain module ["migrations"])).
  cbn [List.filter]. rewrite (proj2 (String.eqb_neq _ _) Hne). destruct Hf as (Hf0 & Hf).
  rewrite (proj2 (String.eqb_neq _ _) Hf0). cbn [negb].
  assert (Join [Join [module; "migrations"] "/"; f] "/" = Join [module; "migrations"; f] "/") as ->.
  { cbn. by rewrite !string_app_assoc. }
  apply Clean_plain; [done|]. plains.
Qed.

Lemma file_path_inj m f m' f' :
  plain m → plain f → plain m' → plain f' → file_path m f = file_path m' f' → m = m' ∧ f = f'.
Proof.
  intros Hm Hf Hm' Hf' H. apply Join_inj in H; [by injection H|done|done|..];
    apply plain_no_slash; plains.
Qed.

(** ** Effects *)

Lemma io_bind_ok {A B} (m : IO A) (f : A → IO B) e b e' :
  (m ≫= f) e = (Ok b, e') ↔ ∃ a e1, m e = (Ok a, e1) ∧ f a e1 = (Ok b, e').
Proof.
  change ((m ≫= f) e) with (match m e with (Ok a, e1) => f a e1 | (Err x, e1) => (Err x, e1) end).
  destruct (m e) as [[a|x] e1]; naive_solver.
Qed.

Lemma lift_ok {X A} (wrap : X → mm_error) (r : result X A) e a e' :
  lift wrap r e = (Ok a, e') ↔ r = Ok a ∧ e' = e.
Proof. unfold lift. destruct r; naive_solver. Qed.

Lemma fail_ok {A} x e (a : A) e' : @fail A x e = (Ok a, e') ↔ False.
Proof. unfold fail. naive_solver. Qed.

Lemma mret_ok {A} (x : A) e a e' : (mret x : IO A) e = (Ok a, e') ↔ a = x ∧ e' = e.
Proof. unfold mret, IO_ret. naive_solver. Qed.

Section effects.
Context (fails : nat → bool).

Lemma read_file_ok path e r e' :
  read_file fails path e = (Ok r, e') → r = files e !! path ∧ files e' = files e ∧ out e' = out e.
Proof.
  unfold read_file. destruct (files e !! path); [destruct (fails (calls e)); [done|]|];
    intros H; injection H as <- <-; done.
Qed.

Lemma write_file_ok path data e r e' :
  write_file fails path data e = (Ok r, e') → files e' = <[path := data]> (files e).
Proof. unfold write_file. destruct (fails (calls e)); [done|]. intros H; by injection H as _ <-. Qed.

Lemma mkdir_all_ok dir e r e' : mkdir_all fails dir e = (Ok r, e') → files e' = files e.
Proof. unfold mkdir_all. destruct (fails (calls e)); [done|]. intros H; by injection H as _ <-. Qed.

Lemma print_line_ok line e r e' :
  print_line fails line e = (Ok r, e') → files e' = files e ∧ out e' = out e ++ [line].
Proof. unfold print_line. destruct (fails (calls e)); [done|]. intros H; by injection H as _ <-. Qed.
End effects.

(** No call fails. *)
Definition never : nat → bool := λ _, false.

Lemma read_file_never path e :
  ∃ e', read_file never path e = (Ok (files e !! path), e') ∧ files e' = files e ∧ out e' = out e.
Proof. unfold read_file. destruct (files e !! path); cbn; eauto. Qed.

(** ** Manifests *)

Lemma dec_entry_json e : dec_entry zero_entry (json_entry e) = Some e.
Proof. destruct e as [v f var [|c st]]; reflexivity. Qed.

Definition ascii_entry (e : manifestEntry) : Prop :=
  is_ascii (eVersion e) = true ∧ is_ascii (eFile e) = true ∧ is_ascii (eVar e) = true
  ∧ is_ascii (eState e) = true.

Lemma printable_entry e : ascii_entry e → printable (json_entry e).
Proof.
  intros (H1 & H2 & H3 & H4). constructor. unfold omitempty. rewrite Forall_app.
  split; [by repeat constructor|]. case_match; by repeat constructor.
Qed.

(** The manifest a module's file holds. *)
Definition manifest_entries (fs : gmap string string) (module : string) : option (list manifestEntry) :=
  match fs !! file_path module "manifest.json" with
  | None => Some []
  | Some raw => v ← unmarshal raw; dec_slice dec_entry zero_entry [] v
  end.

Lemma dec_slice_entries es :
  dec_slice dec_entry zero_entry [] (JArr (map json_entry es)) = Some es.
Proof.
  cbn [dec_slice]. apply dec_elems_map. apply Forall_forall. intros e _. apply dec_entry_json.
Qed.

(** A manifest that was written is read back. *)
Lemma manifest_written fs module es :
  Forall ascii_entry es →
  fs !! file_path module "manifest.json" = Some (print 0 (JArr (map json_entry es)) +:+ newline) →
  manifest_entries fs module = Some es.
Proof.
  intros Hes Hf. unfold manifest_entries. rewrite Hf, unmarshal_print.
  - cbn [mbind option_bind]. apply dec_slice_entries.
  - constructor. eapply Forall_map_impl; [|exact Hes]. apply printable_entry.
  - done.
Qed.

Lemma plain_manifest : plain "manifest.json".
Proof. by repeat split. Qed.
Lemma plain_all : plain "all.go".
Proof. by repeat split. Qed.
#[local] Hint Resolve plain_manifest plain_all : core.

Lemma loadManifest_ok fails module e es e' :
  plain module → loadManifest fails (dir_of module) e = (Ok es, e') →
  manifest_entries (files e) module = Some es ∧ files e' = files e ∧ out e' = out e.
Proof.
  intros Hm. unfold loadManifest, manifest_entries. rewrite path_join_dir by auto.
  rewrite io_bind_ok. intros (raw & e1 & (-> & Hf & Ho)%read_file_ok & H).
  destruct (files e !! _) as [raw|]; [|apply mret_ok in H as [-> ->]; done].
  destruct (v ← unmarshal raw; dec_slice dec_entry zero_entry [] v); [|done].
  apply mret_ok in H as [-> ->]. done.
Qed.

Lemma loadManifest_never module e es :
  plain module → manifest_entries (files e) module = Some es →
  ∃ e', loadManifest never (dir_of module) e = (Ok es, e') ∧ files e' = files e ∧ out e' = out e.
Proof.
  intros Hm. unfold loadManifest, manifest_entries. rewrite path_join_dir by auto.
  destruct (read_file_never (file_path module "manifest.json") e) as (e1 & Hr & Hf & Ho).
  intros H. exists e1. split; [|done]. apply io_bind_ok. exists (files e !! file_path module "manifest.json"), e1.
  split; [done|]. destruct (files e !! _) as [raw|]; [|by injection H as ->].
  by rewrite H.
Qed.

(** ** The recorded chain

    The entries of every manifest, with their modules, sorted by version. *)

Definition pair_version (p : string * manifestEntry) : string := eVersion p.2.
Definition pair_leb (a b : string * manifestEntry) : bool := str_leb (pair_version a) (pair_version b).
Definition step_of (p : string * manifestEntry) : step :=
  mkStepSrc (eVersion p.2) (path_join [dir_of p.1; eFile p.2]).

Definition pairs (E : string → list manifestEntry) (names : list string) : list (string * manifestEntry) :=
  flat_map (λ m, map (pair m) (E m)) names.

Definition state_file (p : string * manifestEntry) : string :=
  if String.eqb (eState p.2) "" then "" else path_join [p.1; "migrations"; eState p.2].

Lemma elem_of_pairs E names m e : (m, e) ∈ pairs E names ↔ m ∈ names ∧ e ∈ E m.
Proof.
  unfold pairs. rewrite elem_of_flat_map. setoid_rewrite list_elem_of_fmap. naive_solver.
Qed.

Lemma note_entries_inv dir seen steps es seen' steps' :
  note_entries dir seen steps es = Ok (seen', steps') →
  NoDup (map eVersion es) ∧ (∀ e, e ∈ es → eVersion e ∉ dom seen)
  ∧ dom seen' = list_to_set (map eVersion es) ∪ dom seen
  ∧ steps' = steps ++ map (λ e, mkStepSrc (eVersion e) (path_join [dir; eFile e])) es.
Proof.
  revert seen steps; induction es as [|e es IH]; intros seen steps; cbn [note_entries map].
  - intros [= <- <-]. rewrite app_nil_r. split_and!; [constructor|set_solver|set_solver|done].
  - destruct (seen !! eVersion e) as [|] eqn:E; [done|].
    intros (Hnd & Hfr & Hd & ->)%IH. apply not_elem_of_dom in E.
    rewrite dom_insert_L in Hd, Hfr. split_and!.
    + constructor; [|done]. rewrite list_elem_of_fmap. intros (x & Hx & Hin). specialize (Hfr x Hin). set_solver.
    + intros x [->|Hx]%elem_of_cons; [done|]. specialize (Hfr x Hx). set_solver.
    + rewrite Hd. set_solver.
    + by rewrite <-app_assoc.
Qed.

Lemma note_entries_ok dir seen steps es :
  NoDup (map eVersion es) → (∀ e, e ∈ es → eVersion e ∉ dom seen) →
  ∃ r, note_entries dir seen steps es = Ok r.
Proof.
  revert seen steps; induction es as [|e es IH]; intros seen steps Hnd Hfr; cbn [note_entries]; [by eexists|].
  cbn in Hnd. apply NoDup_cons in Hnd as [Hn Hnd].
  assert (seen !! eVersion e = None) as -> by (apply not_elem_of_dom, Hfr; set_solver).
  apply IH; [done|]. intros x Hx. rewrite dom_insert_L, not_elem_of_union. split.
  - intros Heq%elem_of_singleton. apply Hn. rewrite <-Heq. apply list_elem_of_fmap. eauto.
  - apply Hfr. set_solver.
Qed.

(** What loading the manifests leaves: the state of the accumulators. *)
Definition loaded_manifests (E : string → list manifestEntry) (names : list string)
    (manifests manifests' : gmap string (list manifestEntry)) : Prop :=
  ∀ m, manifests' !! m = if bool_decide (m ∈ names) then Some (E m) else manifests !! m.

Lemma loaded_cons E n names ms ms' :
  loaded_manifests E names (<[n := E n]> ms) ms' → loaded_manifests E (n :: names) ms ms'.
Proof.
  intros H m. rewrite (H m). destruct (decide (m ∈ names)).
  - rewrite !bool_decide_eq_true_2 by set_solver. done.
  - rewrite (bool_decide_eq_false_2 (m ∈ names)) by done. destruct (decide (m = n)) as [->|].
    + rewrite bool_decide_eq_true_2 by set_solver. by rewrite lookup_insert_eq.
    + rewrite bool_decide_eq_false_2 by set_solver. by rewrite lookup_insert_ne.
Qed.

Definition manifest_of (fs : gmap string string) (module : string) : list manifestEntry :=
  default [] (manifest_entries fs module).

Lemma load_manifests_inv fails names seen steps ms e steps' ms' e' :
  Forall plain names →
  load_manifests fails names seen steps ms e = (Ok (steps', ms'), e') →
  let E := manifest_of (files e) in
  (∀ m, m ∈ names → manifest_entries (files e) m = Some (E m))
  ∧ NoDup (map pair_version (pairs E names)) ∧ (∀ p, p ∈ pairs E names → pair_version p ∉ dom seen)
  ∧ steps' = steps ++ map step_of (pairs E names) ∧ loaded_manifests E names ms ms'
  ∧ files e' = files e ∧ out e' = out e.
Proof.
  intros Hp. revert seen steps ms e. induction Hp as [|n names Hn Hp IH]; intros seen steps ms e; cbn [load_manifests].
  - intros [[= -> ->] ->]%mret_ok. cbn. rewrite app_nil_r.
    split_and!; [set_solver|constructor|set_solver|done| |done|done].
    intros m. by rewrite bool_decide_eq_false_2 by set_solver.
  - rewrite io_bind_ok. intros (es & e1 & Hl & H).
    apply loadManifest_ok in Hl as (Hes & Hf1 & Ho1); [|done].
    apply io_bind_ok in H as ([seen1 steps1] & e2 & [Hnote ->]%lift_ok & H).
    change (path_join [n; "migrations"]) with (dir_of n) in Hnote.
    apply note_entries_inv in Hnote as (Hnd & Hfr & Hd & ->).
    apply IH in H as (He & HndE & HfrE & -> & Hms & Hf2 & Ho2). rewrite Hf1 in *. cbv zeta.
    set (E := manifest_of (files e)) in *.
    assert (E n = es) as HE by (unfold E, manifest_of; by rewrite Hes).
    cbn [pairs flat_map]. fold (pairs E names). rewrite HE, !map_app, List.map_map.
    split_and!.
    + intros m [->|Hm]%elem_of_cons; [by rewrite HE|auto].
    + apply NoDup_app. split_and!; [exact Hnd| |done].
      intros v. rewrite list_elem_of_fmap. cbn. intros (x & -> & Hx).
      rewrite list_elem_of_fmap. intros (p & Hv & Hpp). apply (HfrE p Hpp).
      rewrite Hd, elem_of_union. left. rewrite elem_of_list_to_set, <-Hv. apply list_elem_of_fmap. eauto.
    + intros p [Hpp|Hpp]%elem_of_app.
      * apply list_elem_of_fmap in Hpp as (x & -> & Hx). by apply Hfr.
      * specialize (HfrE p Hpp). rewrite Hd in HfrE. set_solver.
    + by rewrite <-app_assoc, List.map_map.
    + apply loaded_cons. by rewrite HE.
    + done.
    + by rewrite Ho2.
Qed.

Lemma load_manifests_never names seen steps ms e :
  Forall plain names →
  let E := manifest_of (files e) in
  (∀ m, m ∈ names → manifest_entries (files e) m = Some (E m)) →
  NoDup (map pair_version (pairs E names)) → (∀ p, p ∈ pairs E names → pair_version p ∉ dom seen) →
  ∃ r e', load_manifests never names seen steps ms e = (Ok r, e').
Proof.
  intros Hp. revert seen steps ms e. induction Hp as [|n names Hn Hp IH]; intros seen steps ms e; cbv zeta;
    intros Hes Hnd Hfr; cbn [load_manifests]; [by eexists _, _|].
  destruct (loadManifest_never n e _ Hn (Hes n ltac:(set_solver))) as (e1 & Hl & Hf1 & Ho1).
  cbn [pairs flat_map] in Hnd, Hfr. fold (pairs (manifest_of (files e)) names) in Hnd, Hfr.
  rewrite map_app, List.map_map in Hnd. apply NoDup_app in Hnd as (Hnd1 & Hsep & Hnd2).
  destruct (note_entries_ok (dir_of n) seen steps (manifest_of (files e) n)) as ([seen1 steps1] & Hnote).
  { exact Hnd1. }
  { intros x Hx. apply (Hfr (n, x)). apply elem_of_app. left. apply list_elem_of_fmap. eauto. }
  destruct (IH seen1 steps1 (<[n := manifest_of (files e) n]> ms) e1) as (r & e' & Hr).
  - rewrite Hf1. intros m Hm. apply Hes. set_solver.
  - by rewrite Hf1.
  - rewrite Hf1. intros p Hpp. apply note_entries_inv in Hnote as (_ & _ & Hd & _). rewrite Hd.
    rewrite not_elem_of_union, elem_of_list_to_set. split.
    + intros Hv. apply (Hsep (pair_version p)); [exact Hv|]. apply list_elem_of_fmap. eauto.
    + apply Hfr. apply elem_of_app. by right.
  - exists r, e'. apply io_bind_ok. exists (manifest_of (files e) n), e1. split; [exact Hl|].
    apply io_bind_ok. exists (seen1, steps1), e1. split; [|exact Hr].
    apply lift_ok. done.
Qed.

(** ** States *)

Definition path_step (v : string) (path : string) (p : string * manifestEntry) : string :=
  if String.eqb (pair_version p) v && negb (String.eqb (eState p.2) "")
  then path_join [p.1; "migrations"; eState p.2] else path.

Lemma state_path_from E names (ms : gmap string (list manifestEntry)) v path :
  (∀ m, m ∈ names → default [] (ms !! m) = E m) →
  foldl (λ path m, foldl (λ path e, path_step v path (m, e)) path (default [] (ms !! m))) path names
  = foldl (path_step v) path (pairs E names).
Proof.
  revert path; induction names as [|n names IH]; intros path Hd; [done|].
  cbn [foldl pairs flat_map]. fold (pairs E names). rewrite foldl_app.
  rewrite Hd by set_solver. rewrite IH by set_solver. f_equal.
  generalize (E n) as es. intros es. revert path.
  induction es as [|e es IHes]; intros path; [done|]. cbn [foldl map]. by rewrite IHes.
Qed.

Lemma state_path_pairs E names ms ms' v :
  loaded_manifests E names ms ms' →
  state_path names ms' v = foldl (path_step v) "" (pairs E names).
Proof.
  intros Hms. apply (state_path_from E names ms' v ""). intros m Hm.
  by rewrite (Hms m), bool_decide_eq_true_2.
Qed.

Lemma path_step_other v path l :
  v ∉ map pair_version l → foldl (path_step v) path l = path.
Proof.
  revert path; induction l as [|p l IH]; intros path Hv; [done|]. cbn [foldl].
  cbn in Hv. apply not_elem_of_cons in Hv as [Hne Hv]. rewrite IH by done.
  unfold path_step. by rewrite (proj2 (String.eqb_neq _ _)) by done.
Qed.

Lemma path_step_unique l p :
  NoDup (map pair_version l) → p ∈ l → foldl (path_step (pair_version p)) "" l = state_file p.
Proof.
  intros Hnd Hp. apply list_elem_of_split in Hp as (l1 & l2 & ->).
  rewrite map_app in Hnd. cbn in Hnd. apply NoDup_app in Hnd as (_ & Hsep & Hnd2).
  apply NoDup_cons in Hnd2 as [Hn2 _]. rewrite foldl_app. cbn [foldl].
  rewrite (path_step_other _ "" l1) by (intros Hin; apply (Hsep _ Hin); set_solver).
  rewrite path_step_other by done. unfold path_step, state_file. rewrite String.eqb_refl.
  by destruct (String.eqb (eState p.2) "").
Qed.

(** The step the entry [p] contributes, read from the files. *)
Definition loads (fs : gmap string string) (p : string * manifestEntry) (x : StateStep) : Prop :=
  stVersion x = pair_version p ∧
  if String.eqb (state_file p) "" then stState x = None
  else ∃ raw snap, fs !! state_file p = Some raw ∧ ParseSnapshot raw (state_file p) = Ok snap
         ∧ stState x = Some snap.

Lemma load_steps_inv fails names ms ps e chain e' :
  (∀ p, p ∈ ps → state_path names ms (pair_version p) = state_file p) →
  load_steps fails names ms (map step_of ps) e = (Ok chain, e') →
  Forall2 (loads (files e)) ps chain ∧ files e' = files e ∧ out e' = out e.
Proof.
  revert chain e; induction ps as [|p ps IH]; intros chain e Hpath; cbn [load_steps map].
  - intros [-> ->]%mret_ok. split_and!; [constructor|done|done].
  - rewrite io_bind_ok. intros (x & e1 & Hx & H). apply io_bind_ok in H as (xs & e2 & Hxs & H).
    apply mret_ok in H as [-> ->].
    assert (loads (files e) p x ∧ files e1 = files e ∧ out e1 = out e) as (Hl & Hf & Ho).
    { unfold load_step in Hx. change (sVersion (step_of p)) with (pair_version p) in Hx.
      rewrite Hpath in Hx by set_solver. unfold loads.
      destruct (String.eqb (state_file p) "") eqn:Es; [by apply mret_ok in Hx as [-> ->]|].
      apply io_bind_ok in Hx as (raw & e3 & (-> & Hf & Ho)%read_file_ok & Hx).
      destruct (files e !! state_file p) as [raw|]; [|by apply fail_ok in Hx].
      apply io_bind_ok in Hx as (snap & e4 & [Hp ->]%lift_ok & Hx).
      apply mret_ok in Hx as [-> ->]. split; [|done]. split; [done|]. by exists raw, snap. }
    apply IH in Hxs as (Hall & Hf2 & Ho2); [|intros q Hq; apply Hpath; set_solver].
    rewrite Hf in Hall. split; [by constructor|]. split; congruence.
Qed.

Lemma load_steps_never names ms ps e chain :
  (∀ p, p ∈ ps → state_path names ms (pair_version p) = state_file p) →
  Forall2 (loads (files e)) ps chain →
  ∃ e', load_steps never names ms (map step_of ps) e = (Ok chain, e').
Proof.
  intros Hpath Hall. revert e Hall Hpath. induction chain as [|x chain IH] in ps |- *; intros e Hall Hpath;
    inversion Hall as [|p ? ps' ? [Hv Hx] Hall']; subst; cbn [load_steps map]; [by eexists|].
  assert (∃ e1, load_step never names ms (step_of p) e = (Ok x, e1) ∧ files e1 = files e) as (e1 & H1 & Hf1).
  { unfold load_step. change (sVersion (step_of p)) with (pair_version p). rewrite Hpath by set_solver.
    destruct (String.eqb (state_file p) "") eqn:Es.
    - exists e. split; [|done]. apply mret_ok. split; [|done]. destruct x; cbn in *. congruence.
    - destruct Hx as (raw & snap & Hf & Hp & Hs).
      destruct (read_file_never (state_file p) e) as (e1 & Hr & Hf1 & _). exists e1. split; [|done].
      apply io_bind_ok. eexists _, e1. split; [exact Hr|]. rewrite Hf.
      apply io_bind_ok. exists snap, e1. split; [apply lift_ok; by rewrite Hp|].
      apply mret_ok. split; [|done]. destruct x; cbn in *. congruence. }
  destruct (IH ps' e1) as (e2 & H2); [by rewrite Hf1|intros q Hq; apply Hpath; set_solver|].
  exists e2. apply io_bind_ok. exists x, e1. split; [done|].
  apply io_bind_ok. exists chain, e2. split; [done|]. by apply mret_ok.
Qed.

(** ** Replaying *)

(** What the files record: the manifests of the modules, their entries in version
    order with the state each contributes, and the schema they end in. *)
Definition recorded (fs : gmap string string) (names : list string) (chain : list StateStep)
    (before : Snapshot) : Prop :=
  let E := manifest_of fs in
  (∀ m, m ∈ names → manifest_entries fs m = Some (E m))
  ∧ NoDup (map pair_version (pairs E names))
  ∧ Forall2 (loads fs) (sort_by pair_leb (pairs E names)) chain
  ∧ ReplayState chain = Ok before.

Lemma step_pair_leb a b : step_leb (step_of a) (step_of b) = pair_leb a b.
Proof. done. Qed.

Lemma replay_inv fails names e before ms e' :
  Forall plain names → replayRecordedState fails names e = (Ok (before, ms), e') →
  (∃ chain, recorded (files e) names chain before)
  ∧ loaded_manifests (manifest_of (files e)) names ∅ ms ∧ files e' = files e ∧ out e' = out e.
Proof.
  intros Hp. unfold replayRecordedState. rewrite io_bind_ok.
  intros ([steps ms1] & e1 & Hl & H). apply load_manifests_inv in Hl as (He & Hnd & _ & -> & Hms & Hf1 & Ho1); [|done].
  apply io_bind_ok in H as (chain & e2 & Hc & H). apply io_bind_ok in H as (b & e3 & [Hr ->]%lift_ok & H).
  apply mret_ok in H as [[= -> ->] ->]. cbn [app] in Hc.
  rewrite (sort_by_map step_of pair_leb step_leb _ step_pair_leb) in Hc.
  apply load_steps_inv in Hc as (Hall & Hf2 & Ho2).
  - split; [|split; [done|split; congruence]]. exists chain. rewrite Hf1 in Hall.
    split; [done|]. split; [done|]. split; [done|].
    unfold lift in *. destruct (ReplayState chain); naive_solver.
  - intros p Hpp. rewrite elem_of_sort_by in Hpp.
    rewrite (state_path_pairs _ _ _ _ _ Hms). by apply path_step_unique.
Qed.

Lemma replay_never names e before chain :
  Forall plain names → recorded (files e) names chain before →
  ∃ ms e', replayRecordedState never names e = (Ok (before, ms), e') ∧ files e' = files e ∧ out e' = out e.
Proof.
  intros Hp (He & Hnd & Hall & Hr).
  destruct (load_manifests_never names ∅ [] ∅ e Hp He Hnd) as ([steps ms] & e1 & Hl).
  { intros p _. rewrite dom_empty_L. set_solver. }
  pose proof Hl as Hinv. apply load_manifests_inv in Hinv as (_ & _ & _ & -> & Hms & Hf1 & Ho1); [|done].
  cbn [app] in Hl.
  assert (∀ p, p ∈ sort_by pair_leb (pairs (manifest_of (files e)) names) →
    state_path names ms (pair_version p) = state_file p) as Hpath.
  { intros p Hpp. rewrite elem_of_sort_by in Hpp.
    rewrite (state_path_pairs _ _ _ _ _ Hms). by apply path_step_unique. }
  destruct (load_steps_never names ms (sort_by pair_leb (pairs (manifest_of (files e)) names)) e1 chain Hpath)
    as (e2 & Hc); [by rewrite Hf1|].
  pose proof Hc as Hinv. apply load_steps_inv in Hinv as (_ & Hf2 & Ho2); [|done].
  exists ms, e2. split; [|split; congruence].
  apply io_bind_ok. eexists _, e1. split; [exact Hl|].
  apply io_bind_ok. exists chain, e2. split.
  - by rewrite (sort_by_map step_of pair_leb step_leb _ step_pair_leb).
  - apply io_bind_ok. exists before, e2. split; [by apply lift_ok|]. by apply mret_ok.
Qed.
