(* ===== verification/RecordSpec.v ===== *)
(** * makemigrations: what a run records

    A successful run leaves on disk exactly the schema the modules declare, so
    that the next run finds nothing to do; every recorded state is the one its
    migration's operations lead to. *)

From S2P Require Import Prelude GoStrings Paths Json Orm OrmState Diff Plan Schema DiffSpec RenameSpec PlanSpec.
From S2P Require Import Dialect DialectSpec MakeMigrations VersionSpec LayoutSpec.

(** ** File names *)

Lemma replace_pairs_forall p s : string_forall p s = true → string_forall p (replace_pairs s) = true.
Proof.
  assert (∀ n s, String.length s ≤ n → string_forall p s = true → string_forall p (replace_pairs s) = true)
    as H; [|by eapply H].
  clear s. intros n; induction n as [|n IH]; intros s Hl Hs.
  - destruct s; [done|cbn in Hl; lia].
  - destruct s as [|a [|b s]]; [done|done|]. cbn [replace_pairs]. cbn [string_forall] in Hs.
    apply andb_true_iff in Hs as [Ha Hs]. cbn in Hl.
    destruct (Ascii.eqb a "_" && Ascii.eqb b "_") eqn:E.
    + apply andb_true_iff in E as [E _]. apply Ascii.eqb_eq in E as ->.
      cbn [string_forall]. rewrite Ha. apply IH; [lia|]. by apply andb_true_iff in Hs as [_ ?].
    + cbn [string_forall]. rewrite Ha. apply (IH (String b s)); [cbn; lia|exact Hs].
Qed.

Lemma squeeze_forall p n s : string_forall p s = true → string_forall p (squeeze n s) = true.
Proof.
  revert s; induction n as [|n IH]; intros s Hs; [done|]. cbn [squeeze].
  destruct (Contains s "__"); [|done]. by apply IH, replace_pairs_forall.
Qed.

Lemma slug_runes_ident rs : string_forall ident_byte (slug_runes rs) = true.
Proof.
  induction rs as [|[r w] rs IH]; [done|]. cbn [slug_runes]. destruct (_ || _)%Z eqn:E.
  - by rewrite string_forall_app, encode_ident, IH.
  - by rewrite string_forall_app, IH.
Qed.

Section slugs.
Context `{Unicode}.

(** A slug is made of lower-case letters, digits and underscores. *)
Lemma migrationSlug_ident s : string_forall ident_byte (migrationSlug s) = true.
Proof. unfold migrationSlug. apply string_forall_Trim, squeeze_forall, slug_runes_ident. Qed.
End slugs.

Definition name_byte (c : ascii) : bool := ident_byte c || Ascii.eqb c ".".

Lemma name_byte_plain c : name_byte c = true → (byte c <? 128)%Z = true ∧ Ascii.eqb c "/" = false.
Proof. destruct c as [[] [] [] [] [] [] [] []]; vm_compute; intros Hc; first [by split | discriminate Hc]. Qed.

Lemma name_bytes_plain s :
  string_forall name_byte s = true → is_ascii s = true ∧ no_byte "/" s = true.
Proof.
  intros Hs. split; (eapply string_forall_impl; [|exact Hs]); intros c [H1 H2]%name_byte_plain;
    [done|by rewrite H2].
Qed.

Lemma ident_name s : string_forall ident_byte s = true → string_forall name_byte s = true.
Proof. apply string_forall_impl. intros c Hc. unfold name_byte. by rewrite Hc. Qed.

Lemma digits_name s : string_forall is_digit s = true → string_forall name_byte s = true.
Proof.
  apply string_forall_impl. intros c Hc. unfold name_byte, ident_byte. by rewrite Hc, orb_true_r.
Qed.

(** The files of a migration: a version, a slug, an extension. *)
Definition migration_file (v slug ext : string) : string := v +:+ "_" +:+ slug +:+ ext.

(** Names that start with a version cannot be "." or "..". *)
Lemma version_name_plain n v rest :
  canonical n v → no_byte "/" rest = true → plain (v +:+ "_" +:+ rest).
Proof.
  intros Hv Hr. pose proof (canonical_length _ _ Hv) as Hl.
  pose proof (canonical_digits _ _ Hv) as Hd.
  assert (no_byte "/" (v +:+ "_" +:+ rest) = true) as Hno.
  { unfold no_byte in *. rewrite !string_forall_app, Hr.
    apply digits_name, name_bytes_plain in Hd as [_ Hd]. unfold no_byte in Hd. by rewrite Hd. }
  destruct v as [|c [|d [|e v]]]; [done|done|done|].
  split; [done|]. split; [done|]. split; [|exact Hno]. intros H. by injection H.
Qed.

Lemma migration_file_plain n v slug ext :
  canonical n v → string_forall ident_byte slug = true → string_forall name_byte ext = true →
  plain (migration_file v slug ext) ∧ is_ascii (migration_file v slug ext) = true.
Proof.
  intros Hv Hs He. split.
  - eapply version_name_plain; [exact Hv|]. apply name_bytes_plain.
    rewrite string_forall_app, He, (ident_name slug Hs). done.
  - apply name_bytes_plain. unfold migration_file.
    rewrite !string_forall_app, He, (ident_name slug Hs), (digits_name v (canonical_digits _ _ Hv)). done.
Qed.

(** Files of different versions, or of different extensions, differ. *)
Lemma version_name_inj n v v' x y :
  canonical n v → canonical n v' → v +:+ x = v' +:+ y → v = v' ∧ x = y.
Proof.
  intros Hv Hv'. apply string_app_inj. by rewrite (canonical_length _ _ Hv), (canonical_length _ _ Hv').
Qed.

Lemma version_name_not n v x s :
  canonical n v → match s with String c _ => is_digit c = false | "" => True end → v +:+ x ≠ s.
Proof.
  intros Hv Hs <-. pose proof (canonical_length _ _ Hv). pose proof (canonical_digits _ _ Hv) as Hd.
  destruct v as [|c v]; [done|]. cbn in Hd, Hs. by rewrite Hs in Hd.
Qed.

Lemma slugIdent_ascii slug : string_forall ident_byte slug = true → is_ascii (slugIdent slug) = true.
Proof.
  intros Hs. unfold slugIdent.
  assert (Forall (λ p, string_forall ident_byte p = true) (SplitByte "_" slug)) as Hp.
  { induction slug as [|c s IH]; cbn [SplitByte]; [by repeat constructor|].
    cbn [string_forall] in Hs. apply andb_true_iff in Hs as [Hc Hs]. specialize (IH Hs).
    destruct (Ascii.eqb c "_"); [by constructor|]. destruct (SplitByte "_" s) as [|w ws].
    - repeat constructor. cbn. by rewrite Hc.
    - apply Forall_cons in IH as [Hw Hws]. constructor; [|done]. cbn. by rewrite Hc, Hw. }
  unfold is_ascii. induction Hp as [|p ps Hp Hps IH]; [done|]. cbn [map String.concat].
  assert (is_ascii (match p with "" => "" | String c p' => String (upper_ascii c) p' end) = true) as Hq.
  { destruct p as [|c p]; [done|]. cbn [string_forall] in Hp. apply andb_true_iff in Hp as [Hc Hp].
    apply ident_name, name_bytes_plain in Hp as [Hp _]. unfold is_ascii in *. cbn [string_forall]. rewrite Hp.
    clear -Hc. destruct c as [[] [] [] [] [] [] [] []]; vm_compute in Hc |- *; congruence. }
  destruct (map _ ps); [done|]. unfold is_ascii in Hq. by rewrite !string_forall_app, Hq, IH.
Qed.

(** ** One migration *)

(** An entry as a run writes it. *)
Definition written_entry (n : nat) (e : manifestEntry) : Prop :=
  ∃ slug, canonical n (eVersion e) ∧ string_forall ident_byte slug = true
    ∧ eFile e = migration_file (eVersion e) slug ".go"
    ∧ eState e = migration_file (eVersion e) slug ".state.json"
    ∧ is_ascii (eVar e) = true.

(** The four files a migration touches. *)
Definition touched_files (module : string) (e : manifestEntry) : list string :=
  map (file_path module) [eFile e; eState e; "manifest.json"; "all.go"].

Lemma written_names n e :
  written_entry n e →
  plain (eFile e) ∧ plain (eState e) ∧ eState e ≠ "" ∧ ascii_entry e
  ∧ NoDup [eFile e; eState e; "manifest.json"; "all.go"].
Proof.
  intros (slug & Hv & Hs & Hf & Hst & Hvar).
  destruct (migration_file_plain n (eVersion e) slug ".go" Hv Hs eq_refl) as [Pf Af].
  destruct (migration_file_plain n (eVersion e) slug ".state.json" Hv Hs eq_refl) as [Ps As].
  rewrite <-Hf in Pf, Af. rewrite <-Hst in Ps, As.
  split; [done|]. split; [done|]. split; [apply Ps|]. split.
  - split; [|done]. apply name_bytes_plain, digits_name. by eapply canonical_digits.
  - assert (eFile e ≠ eState e) as Hne.
    { rewrite Hf, Hst. unfold migration_file. intros [_ Hx]%(version_name_inj n _ _ _ _ Hv Hv).
      injection Hx as Hx. apply (string_app_inj slug slug) in Hx as [_ Hx]; [discriminate Hx|done]. }
    assert (∀ s, match s with String c _ => is_digit c = false | "" => True end →
      eFile e ≠ s ∧ eState e ≠ s) as Hd.
    { intros s Hsd. rewrite Hf, Hst. split; by eapply version_name_not. }
    destruct (Hd "manifest.json" eq_refl). destruct (Hd "all.go" eq_refl).
    repeat (apply NoDup_cons; split; [rewrite ?elem_of_cons, elem_of_nil; intuition discriminate || intuition congruence|]).
    constructor.
Qed.

(** One migration of a run: its module, its entry and the state it records. *)
Record news := mkNews { n_module : string; n_entry : manifestEntry; n_state : Snapshot }.

Section writes.
Context `{Unicode} (fails : nat → bool) (format : string → option string).

(** What one round writes. *)
Lemma write_module_inv n dialect before after cum ms version module ops e cum' ms' e' :
  plain module → canonical n version →
  write_module fails format dialect before after cum ms version module ops e = (Ok (cum', ms'), e') →
  ∃ entry goSrc data allText,
    eVersion entry = version ∧ written_entry n entry
    ∧ snapshotAfterOperations cum after ops = Ok cum' ∧ EncodeSnapshot cum' = Ok data
    ∧ ms' = <[module := default [] (ms !! module) ++ [entry]]> ms
    ∧ files e' =
        <[file_path module "all.go" := allText]>
        (<[file_path module "manifest.json" :=
             print 0 (JArr (map json_entry (default [] (ms !! module) ++ [entry]))) +:+ newline]>
        (<[file_path module (eState entry) := data]>
        (<[file_path module (eFile entry) := goSrc]> (files e)))).
Proof.
  intros Hm Hv. unfold write_module. rewrite io_bind_ok. intros (rendered & e0 & [_ ->]%lift_ok & HH).
  set (slug := migrationSlug _) in HH. set (var := "M" +:+ _) in HH.
  change (path_join [module; "migrations"]) with (dir_of module) in HH.
  apply io_bind_ok in HH as (c & e1 & [Hc ->]%lift_ok & HH).
  apply io_bind_ok in HH as (data & e2 & [Hd ->]%lift_ok & HH).
  apply io_bind_ok in HH as (src & e3 & [_ ->]%lift_ok & HH).
  apply io_bind_ok in HH as (_ & e4 & F4%mkdir_all_ok & HH).
  apply io_bind_ok in HH as (_ & e5 & F5%write_file_ok & HH).
  apply io_bind_ok in HH as (_ & e6 & F6%write_file_ok & HH).
  apply io_bind_ok in HH as (_ & e7 & F7%write_file_ok & HH).
  apply io_bind_ok in HH as (_ & e8 & F8%write_file_ok & HH).
  apply io_bind_ok in HH as (_ & e9 & [F9 _]%print_line_ok & HH).
  apply io_bind_ok in HH as (_ & e10 & [F10 _]%print_line_ok & HH).
  apply io_bind_ok in HH as (_ & e11 & [F11 _]%print_line_ok & HH).
  apply mret_ok in HH as [[= -> ->] ->].
  assert (string_forall ident_byte slug = true) as Hs by apply migrationSlug_ident.
  assert (is_ascii var = true) as Hvar.
  { unfold is_ascii. subst var. rewrite !string_forall_app.
    pose proof (slugIdent_ascii slug Hs) as Hsl. unfold is_ascii in Hsl.
    pose proof (proj1 (name_bytes_plain _ (digits_name _ (canonical_digits _ _ Hv)))) as Hvd.
    unfold is_ascii in Hvd. by rewrite Hsl, Hvd. }
  assert (∀ ext, (version +:+ "_" +:+ slug) +:+ ext = migration_file version slug ext) as Hext.
  { intros ext. unfold migration_file. by rewrite !string_app_assoc. }
  rewrite (Hext ".go") in F5. rewrite (Hext ".state.json") in F6.
  rewrite (Hext ".go"), (Hext ".state.json") in F7. rewrite (Hext ".go"), (Hext ".state.json") in F8.
  change (String "_" slug) with ("_" +:+ slug). rewrite (Hext ".go"), (Hext ".state.json").
  set (entry := mkEntry version (migration_file version slug ".go") var (migration_file version slug ".state.json")) in *.
  assert (written_entry n entry) as Hw by (exists slug; done).
  destruct (written_names n entry Hw) as (Pf & Ps & _ & _ & _).
  exists entry, src, data, (all_go (default [] (ms !! module) ++ [entry])).
  split; [done|]. split; [done|]. split; [unfold lift in Hc; destruct (snapshotAfterOperations cum after ops); naive_solver|].
  split; [|split; [done|]].
  - unfold encodeSnapshotBytes in Hd. destruct (EncodeSnapshot c); naive_solver.
  - rewrite F11, F10, F9, F8, F7, F6, F5, F4.
    rewrite !path_join_dir; done || auto using plain_manifest, plain_all.
Qed.

(** ** All the migrations of a run *)

(** Files of different modules are different files. *)
Lemma touched_apart n x y mx my path :
  plain mx → plain my → mx ≠ my → written_entry n x → written_entry n y →
  path ∈ touched_files mx x → path ∉ touched_files my y.
Proof using.
  intros Hmx Hmy Hne (Px1 & Px2 & _)%written_names (Py1 & Py2 & _)%written_names. unfold touched_files.
  rewrite !list_elem_of_fmap. intros (f & -> & Hf) (g & Hp & Hg).
  assert (∀ e h, plain (eFile e) → plain (eState e) → h ∈ [eFile e; eState e; "manifest.json"; "all.go"] → plain h)
    as Hplain.
  { intros e h H1 H2. rewrite !elem_of_cons, elem_of_nil.
    intros [->|[->|[->|[->|[]]]]]; auto using plain_manifest, plain_all. }
  apply file_path_inj in Hp as [? _]; [done|done|apply (Hplain x); done|done|apply (Hplain y); done].
Qed.

(** The states a run records, each from the one before it. *)
Fixpoint chained (ops : string → list Operation) (after cum : Snapshot) (l : list news) : Prop :=
  match l with
  | [] => True
  | x :: l' =>
      snapshotAfterOperations cum after (ops (n_module x)) = Ok (n_state x)
      ∧ chained ops after (n_state x) l'
  end.

(** What is on disk for one migration. *)
Definition on_disk (fs : gmap string string) (ms : gmap string (list manifestEntry)) (x : news) : Prop :=
  (∃ data, EncodeSnapshot (n_state x) = Ok data
     ∧ fs !! file_path (n_module x) (eState (n_entry x)) = Some data)
  ∧ fs !! file_path (n_module x) "manifest.json"
    = Some (print 0 (JArr (map json_entry (default [] (ms !! n_module x) ++ [n_entry x]))) +:+ newline).

Definition version_lt (x y : news) : Prop := str_ltb (eVersion (n_entry x)) (eVersion (n_entry y)) = true.

Lemma write_modules_inv n dialect before after cum ms version ops order e e' :
  Forall plain order → NoDup order → canonical (n + length order) version →
  write_modules fails format dialect before after cum ms version ops order e = (Ok (), e') →
  ∃ l, map n_module l = order
    ∧ Forall (λ x, written_entry n (n_entry x)) l
    ∧ Forall (λ x, str_leb version (eVersion (n_entry x)) = true) l
    ∧ StronglySorted version_lt l ∧ chained ops after cum l
    ∧ Forall (on_disk (files e') ms) l
    ∧ ∀ path, (∀ x, x ∈ l → path ∉ touched_files (n_module x) (n_entry x)) →
        files e' !! path = files e !! path.
Proof.
  intros Hpl. revert cum ms version e. induction Hpl as [|m order Hm Hpl IH]; intros cum ms version e Hnd Hv;
    cbn [write_modules].
  - intros [_ ->]%mret_ok. exists []. cbn. split_and!; try done; constructor.
  - rewrite io_bind_ok. intros ([cum1 ms1] & e1 & Hw & HH).
    assert (canonical n version) as Hvn by (eapply canonical_le; [|exact Hv]; lia).
    apply (write_module_inv n) in Hw as (entry & goSrc & data & allText & <- & Hwe & Hsnap & Henc & -> & Hf); [|done|done].
    apply NoDup_cons in Hnd as [Hnm Hnd].
    cbn [length] in Hv. rewrite Nat.add_succ_r in Hv. destruct (bump_later _ _ Hv) as [Hv1 Hlt].
    destruct (IH _ _ _ _ Hnd Hv1 HH) as (l & Hl & Hwl & Hge & Hsort & Hch & Hdisk & Hframe).
    assert (∀ x, x ∈ l → n_module x ∈ order ∧ plain (n_module x) ∧ n_module x ≠ m) as Hmods.
    { intros x Hx. assert (n_module x ∈ order) as Hin by (rewrite <-Hl; apply list_elem_of_fmap; eauto).
      rewrite Forall_forall in Hpl. split_and!; [done|auto|]. intros Heq. by rewrite Heq in Hin. }
    assert (∀ f, f ∈ [eFile entry; eState entry; "manifest.json"; "all.go"] →
      files e' !! file_path m f = files e1 !! file_path m f) as Hkeep.
    { intros f Hff. apply Hframe. intros x Hx. destruct (Hmods x Hx) as (_ & Hpx & Hne).
      rewrite Forall_forall in Hwl.
      apply (touched_apart n entry (n_entry x) m (n_module x)); [done|done|by intros ->|done|auto|].
      unfold touched_files. apply list_elem_of_fmap. by exists f. }
    destruct (written_names n entry Hwe) as (Pf & Ps & _ & _ & Hdist).
    assert (∀ f g, f ∈ [eFile entry; eState entry; "manifest.json"; "all.go"] →
      g ∈ [eFile entry; eState entry; "manifest.json"; "all.go"] → f ≠ g → file_path m f ≠ file_path m g) as Hinj.
    { intros f g Hff Hgg Hne Heq. apply Hne.
      assert (∀ h, h ∈ [eFile entry; eState entry; "manifest.json"; "all.go"] → plain h) as Hplain.
      { intros h. rewrite !elem_of_cons, elem_of_nil.
        intros [->|[->|[->|[->|[]]]]]; auto using plain_manifest, plain_all. }
      apply file_path_inj in Heq as [_ ?]; auto. }
    apply NoDup_cons in Hdist as [_ Hdist]. apply NoDup_cons in Hdist as [D2 _].
    assert ("all.go" ≠ eState entry ∧ "manifest.json" ≠ eState entry) as [N1 N2].
    { split; intros Heq; apply D2; rewrite <-Heq; [right|]; left. }
    assert (∃ files, files = [eFile entry; eState entry; "manifest.json"; "all.go"]
      ∧ eState entry ∈ files ∧ "manifest.json" ∈ files ∧ "all.go" ∈ files) as (names & Hnames & I2 & I3 & I4).
    { eexists. split; [done|]. split; [right; left|]. split; [right; right; left|]. right; right; right; left. }
    rewrite <-Hnames in Hkeep, Hinj.
    exists (mkNews m entry cum1 :: l). cbn [map n_module n_entry n_state chained]. split_and!.
    + by rewrite Hl.
    + by constructor.
    + constructor; [apply str_leb_refl|]. eapply Forall_impl; [exact Hge|]. intros x Hx.
      eapply str_leb_trans; [|exact Hx]. rewrite str_leb_ltb, negb_true_iff. by apply str_ltb_antisym.
    + constructor; [done|]. eapply Forall_impl; [exact Hge|]. intros x Hx. unfold version_lt. cbn [n_entry].
      cbn beta in Hx; rewrite str_leb_ltb, negb_true_iff in Hx.
      destruct (str_ltb (bumpVersion (eVersion entry)) (eVersion (n_entry x))) eqn:E.
      * by eapply str_ltb_trans.
      * by rewrite <-(str_ltb_total _ _ E Hx).
    + done.
    + done.
    + constructor.
      * unfold on_disk. cbn [n_module n_entry n_state]. split.
        -- exists data. split; [done|]. rewrite (Hkeep _ I2), Hf.
           rewrite (lookup_insert_ne (M := gmap string) _ _ _ _ (Hinj _ _ I4 I2 N1)).
           rewrite (lookup_insert_ne (M := gmap string) _ _ _ _ (Hinj _ _ I3 I2 N2)).
           by rewrite lookup_insert_eq.
        -- assert ("all.go" ≠ "manifest.json") as N3 by done. rewrite (Hkeep _ I3), Hf.
           rewrite (lookup_insert_ne (M := gmap string) _ _ _ _ (Hinj _ _ I4 I3 N3)).
           by rewrite lookup_insert_eq.
      * eapply Forall_impl; [apply Forall_and; split; [exact Hdisk|apply Forall_forall; exact Hmods]|].
        intros x [[Hd1 Hd2] (_ & _ & Hne)]. split; [done|]. rewrite Hd2. by rewrite lookup_insert_ne by done.
    + intros path Hpath. rewrite Hframe by (intros x Hx; apply Hpath; set_solver).
      specialize (Hpath (mkNews m entry cum1) ltac:(set_solver)). cbn [n_module n_entry] in Hpath.
      unfold touched_files in Hpath. cbn [map] in Hpath. rewrite !not_elem_of_cons in Hpath.
      destruct Hpath as (P1 & P2 & P3 & P4 & _). rewrite Hf. by rewrite !lookup_insert_ne by done.
Qed.
End writes.
