(* ===== verification/RunSpec.v ===== *)
(** * makemigrations: a run and the next one

    The layout on disk is an invariant of the command, and a successful run leaves
    nothing for the next one to do. *)

From S2P Require Import Prelude GoStrings Paths Json Orm OrmState Diff Plan Schema DiffSpec RenameSpec PlanSpec.
From S2P Require Import Dialect DialectSpec MakeMigrations VersionSpec LayoutSpec RecordSpec.

(** ** The order of the modules *)

Lemma module_order_spec owner ops :
  NoDup (module_order owner ops)
  ∧ ∀ m, m ∈ module_order owner ops ↔ ∃ op, op ∈ ops ∧ owner (operationTable op) = m.
Proof.
  unfold module_order.
  assert (∀ order, NoDup order →
    NoDup (foldl (λ order op, let m := owner (operationTable op) in
       if existsb (String.eqb m) order then order else order ++ [m]) order ops)
    ∧ ∀ m, m ∈ foldl (λ order op, let m := owner (operationTable op) in
       if existsb (String.eqb m) order then order else order ++ [m]) order ops
      ↔ m ∈ order ∨ ∃ op, op ∈ ops ∧ owner (operationTable op) = m) as H.
  { induction ops as [|op ops IH]; intros order Hnd; cbn [foldl].
    - split; [done|]. set_solver.
    - cbv zeta. destruct (existsb _ order) eqn:E.
      + apply in_bool_decide in E. destruct (IH order Hnd) as [H1 H2]. split; [done|].
        intros m. rewrite H2. setoid_rewrite elem_of_cons. naive_solver.
      + assert (owner (operationTable op) ∉ order) as Hn by (by rewrite <-in_bool_decide, E).
        destruct (IH (order ++ [owner (operationTable op)])) as [H1 H2].
        { apply NoDup_app. split; [done|]. split; [|apply NoDup_singleton]. set_solver. }
        split; [done|]. intros m. rewrite H2, elem_of_app, list_elem_of_singleton.
        setoid_rewrite elem_of_cons. naive_solver. }
  destruct (H [] (NoDup_nil_2)) as [H1 H2]. split; [by rewrite sort_by_perm|].
  intros m. rewrite elem_of_sort_by, H2. set_solver.
Qed.

(** ** Which tables a plan touches *)

Lemma Diff_tables before after op :
  wf_snapshot before → wf_snapshot after → op ∈ Diff before after →
  is_Some (reg_at before (operationTable op)) ∨ is_Some (reg_at after (operationTable op)).
Proof.
  intros Hb Ha Hop.
  assert (op ∈ at_key operationTable (operationTable op) (Diff before after)) as H.
  { apply elem_of_filter_bool. split; [done|]. apply String.eqb_refl. }
  rewrite diff_at in H by done. unfold table_ops in H.
  destruct (reg_at before _), (reg_at after _); eauto; by apply elem_of_nil in H.
Qed.

Section renames.
Context `{Unicode}.

Lemma resolved_origin before after input interactive ops op :
  resolveRenames (Diff before after) before after input interactive = Some (Ok ops) → op ∈ ops →
  op ∈ Diff before after
  ∨ ∃ t a b, op = RenameColumn t a b ∧ DropColumn t a ∈ Diff before after.
Proof.
  unfold resolveRenames.
  destruct (candidates (Diff before after) before after) as [|c cs] eqn:Ec; [intros [= <-]; auto|].
  destruct interactive; cbn [negb]; [|done].
  intros (r & Hr & [= Hch])%bind_Some. apply result_bind_ok in Hch as (ch & -> & [= <-]).
  change (mkChoices ∅ ∅) with (accepted []) in Hr.
  apply (resolve_accepted (λ c, ∃ f, candidate_of (Diff before after) before c f)) in Hr as (cs' & -> & _ & Hcs').
  - unfold apply_choices. rewrite indexed_pair, elem_of_flat_map.
    intros ([i x] & [_ Hi]%elem_of_indexed & Hx). rewrite Nat.sub_0_r in Hi.
    rewrite accepted_replacements in Hx. destruct (List.find _ cs') as [c'|] eqn:Ef; cbn in Hx.
    + right. apply find_some in Ef as [Hin _]. apply list_elem_of_In in Hin.
      rewrite Forall_forall in Hcs'. destruct (Hcs' c' Hin) as [(f & Hd & _) _].
      apply list_elem_of_singleton in Hx as ->. eexists _, _, _. split; [done|].
      by eapply list_elem_of_lookup_2.
    + left. case_bool_decide; [by apply elem_of_nil in Hx|]. apply list_elem_of_singleton in Hx as ->.
      by eapply list_elem_of_lookup_2.
  - rewrite <-Ec. apply Forall_forall. apply candidates_spec.
  - rewrite <-Ec. apply Forall_forall. intros x (f & H1 & H2 & _)%candidates_spec E.
    rewrite E in H1. congruence.
  - constructor.
  - constructor.
Qed.

Lemma resolveRenames_tables before after input interactive ops op :
  resolveRenames (Diff before after) before after input interactive = Some (Ok ops) → op ∈ ops →
  ∃ op', op' ∈ Diff before after ∧ operationTable op' = operationTable op.
Proof.
  intros Hr Hop. destruct (resolved_origin _ _ _ _ _ _ Hr Hop) as [Hd|(t & x & y & -> & Hd)]; eauto.
Qed.
End renames.

(** ** The states of a run *)

(** Registrations the codec carries, of the modules [names]. *)
Definition carried (names : list string) (s : Snapshot) : Prop :=
  portable s ∧ ∀ reg, reg ∈ models s → rModule reg ∈ names.

Lemma carried_after names cur final ops next :
  wf_snapshot cur → wf_snapshot final → snapshotAfterOperations cur final ops = Ok next →
  carried names cur → carried names final → carried names next.
Proof.
  intros Hwc Hwf Hn [Pc Mc] [Pf Mf]. unfold snapshotAfterOperations in Hn.
  apply NewSnapshot_iff in Hn as [_ ->]. rewrite !Models_models. unfold carried, portable in *. cbn [models].
  rewrite Forall_forall in Pc, Pf. rewrite Forall_forall.
  assert (∀ x, x ∈ sort_by table_leb (List.filter (λ reg, negb (bool_decide (table_of reg ∈
     (list_to_set (map operationTable ops) : gset string)))) (models cur) ++
     List.filter (λ reg, bool_decide (table_of reg ∈ (list_to_set (map operationTable ops) : gset string))) (models final))
     → x ∈ models cur ∨ x ∈ models final) as Hx.
  { intros x. rewrite elem_of_sort_by, elem_of_app, !elem_of_filter_bool. tauto. }
  split; intros x [?|?]%Hx; auto.
Qed.

Definition final_state (cum : Snapshot) (l : list news) : Snapshot := foldl (λ _ x, n_state x) cum l.

Lemma between_ext before after p q cur :
  (∀ t, p t = q t) → between before after p cur → between before after q cur.
Proof. intros Hpq [Hwf Hs]. split; [done|]. intros t. by rewrite Hs, Hpq. Qed.

(** Each recorded state is the schema its migration's operations lead to. *)
Fixpoint executed (ops : string → list Operation) (cum : Snapshot) (l : list news) : Prop :=
  match l with
  | [] => True
  | x :: l' =>
      execute (ops (n_module x)) (schema_of cum) = Some (schema_of (n_state x))
      ∧ executed ops (n_state x) l'
  end.

Lemma chained_states names before after ops owner l cum covered :
  wf_snapshot before → wf_snapshot after → migration before after ops →
  carried names after →
  between before after covered cum → carried names cum →
  NoDup (map n_module l) → (∀ t, owner t ∈ map n_module l → covered t = false) →
  chained (module_ops owner ops) after cum l →
  between before after (λ t, covered t || existsb (String.eqb (owner t)) (map n_module l)) (final_state cum l)
  ∧ carried names (final_state cum l)
  ∧ Forall (λ x, wf_snapshot (n_state x) ∧ carried names (n_state x)) l
  ∧ executed (module_ops owner ops) cum l.
Proof.
  intros Hb Ha Hm Hca. revert cum covered; induction l as [|x l IH]; intros cum covered Hbt Hcc Hnd Hcov Hch.
  - cbn. split; [|split; [done|split; [constructor|done]]].
    eapply between_ext; [|exact Hbt]. intros t. by rewrite orb_false_r.
  - cbn [map chained] in *. apply NoDup_cons in Hnd as [Hx Hnd]. destruct Hch as [Hs Hch].
    destruct (stage before after ops covered (λ t, String.eqb (owner t) (n_module x)) cum)
      as (next & Hn & Hbt' & Hex & _); [done..| |].
    { intros t Ht. apply Hcov. apply String.eqb_eq in Ht. rewrite Ht. by left. }
    unfold module_ops in Hs at 1. unfold only in Hn. rewrite Hs in Hn. injection Hn as <-.
    assert (carried names (n_state x)) as Hcx.
    { eapply carried_after; [apply Hbt|exact Ha|exact Hs|done|done]. }
    destruct (IH (n_state x) (λ t, covered t || String.eqb (owner t) (n_module x)) Hbt' Hcx Hnd) as (H1 & H2 & H3 & H4).
    + intros t Ht. rewrite Hcov by (by right). cbn. apply String.eqb_neq. intros Heq. by rewrite Heq in Ht.
    + done.
    + change (final_state cum (x :: l)) with (final_state (n_state x) l). split; [|split; [done|split]].
      * eapply between_ext; [|exact H1]. intros t. cbn. by rewrite orb_assoc.
      * constructor; [|done]. split; [apply Hbt'|done].
      * cbn. split; [exact Hex|done].
Qed.

(** Once every owner has had its turn, the schema is the declared one. *)
Lemma final_schema before after ops owner order cum :
  wf_snapshot before → wf_snapshot after → migration before after ops →
  (∀ op, op ∈ ops → owner (operationTable op) ∈ order) →
  between before after (λ t, existsb (String.eqb (owner t)) order) cum →
  schema_of cum = schema_of after.
Proof.
  intros Hb Ha Hm Hcov [Hwf Hs]. apply map_eq. intros t. rewrite Hs.
  destruct (existsb _ order) eqn:E; [done|]. destruct (Hm t) as (_ & Hfwd & _).
  destruct (at_key operationTable t ops) as [|op l] eqn:Eop.
  - cbn in Hfwd. by injection Hfwd.
  - exfalso. assert (op ∈ at_key operationTable t ops) as Hop by (rewrite Eop; left).
    apply elem_of_filter_bool in Hop as [Hop Ht]. apply String.eqb_eq in Ht.
    apply Hcov in Hop. rewrite Ht in Hop. apply in_bool_decide in Hop. congruence.
Qed.

(** ** The chain after a run *)

Definition pair_of (x : news) : string * manifestEntry := (n_module x, n_entry x).
Definition new_step (x : news) : StateStep := mkStep (eVersion (n_entry x)) (Some (n_state x)).

Lemma pairs_nodup E names :
  NoDup names → (∀ m, m ∈ names → NoDup (E m)) → NoDup (pairs E names).
Proof.
  intros Hnd. induction Hnd as [|n names Hn Hnd IH]; intros HE; cbn; [constructor|].
  apply NoDup_app. split; [|split].
  - apply NoDup_fmap_2; [intros a b; by injection 1|]. apply HE. by left.
  - intros [m e]. rewrite list_elem_of_fmap. intros (x & [= -> ->] & _) [Hm _]%elem_of_pairs. done.
  - apply IH. intros m Hm. apply HE. by right.
Qed.

Lemma pair_versions_inj l p q :
  NoDup (map pair_version l) → p ∈ l → q ∈ l → pair_version p = pair_version q → p = q.
Proof.
  induction l as [|x l IH]; [set_solver|]. cbn. rewrite NoDup_cons, !elem_of_cons.
  intros [Hx Hnd] [->|Hp] [->|Hq] Heq; [done| | |auto]; destruct Hx.
  - rewrite Heq. apply list_elem_of_fmap. eauto.
  - rewrite <-Heq. apply list_elem_of_fmap. eauto.
Qed.

Lemma version_lt_nodup l : StronglySorted version_lt l → NoDup (map pair_version (map pair_of l)).
Proof.
  induction 1 as [|x l Hs IH Hall]; cbn; [constructor|]. apply NoDup_cons. split; [|done].
  rewrite List.map_map, list_elem_of_fmap. intros (y & Hy & Hin). rewrite Forall_forall in Hall.
  specialize (Hall y Hin). unfold version_lt in Hall. unfold pair_version, pair_of in Hy. cbn in Hy.
  by rewrite Hy, str_ltb_irrefl in Hall.
Qed.

Lemma pair_leb_total a b : pair_leb a b = true ∨ pair_leb b a = true.
Proof. apply str_leb_total. Qed.
Lemma pair_leb_trans a b c : pair_leb a b = true → pair_leb b c = true → pair_leb a c = true.
Proof. apply str_leb_trans. Qed.

(** The entries in version order after a run: those before it, then the new
    ones. *)
Lemma sorted_pairs E E' names (l : list news) :
  NoDup names → NoDup (map pair_version (pairs E names)) → StronglySorted version_lt l →
  (∀ p x, p ∈ pairs E names → x ∈ l → str_ltb (pair_version p) (eVersion (n_entry x)) = true) →
  (∀ x, x ∈ l → n_module x ∈ names) → NoDup (map n_module l) →
  (∀ m, m ∈ names → m ∉ map n_module l → E' m = E m) →
  (∀ x, x ∈ l → E' (n_module x) = E (n_module x) ++ [n_entry x]) →
  NoDup (map pair_version (pairs E' names))
  ∧ sort_by pair_leb (pairs E' names) = sort_by pair_leb (pairs E names) ++ map pair_of l.
Proof.
  intros Hnames Hnd Hsort Hlt Hin Hmods Hold Hnew.
  pose proof (version_lt_nodup l Hsort) as Hndl.
  assert (NoDup (map pair_version (pairs E names ++ map pair_of l))) as Hndall.
  { rewrite map_app. apply NoDup_app. split; [done|]. split; [|done].
    intros v. rewrite !list_elem_of_fmap. intros (p & -> & Hp) (q & Hq & Hql).
    apply list_elem_of_fmap in Hql as (x & -> & Hx). specialize (Hlt p x Hp Hx).
    unfold pair_version, pair_of in *. cbn in Hq. by rewrite Hq, str_ltb_irrefl in Hlt. }
  assert (∀ m, m ∈ names → NoDup (E m)) as HndE.
  { intros m Hm. apply (NoDup_fmap_1 (pair m)). apply (NoDup_fmap_1 pair_version).
    apply list_elem_of_split in Hm as (n1 & n2 & ->). unfold pairs in Hnd.
    rewrite flat_map_app, map_app in Hnd. apply NoDup_app in Hnd as (_ & _ & Hnd).
    cbn in Hnd. rewrite map_app in Hnd. by apply NoDup_app in Hnd as (Hnd & _). }
  assert (pairs E' names ≡ₚ pairs E names ++ map pair_of l) as Hperm.
  { apply NoDup_Permutation.
    - apply pairs_nodup; [done|]. intros m Hm. destruct (decide (m ∈ map n_module l)) as [Hl|Hl].
      + apply list_elem_of_fmap in Hl as (x & -> & Hx). rewrite (Hnew x Hx). apply NoDup_app.
        split; [by apply HndE|]. split; [|apply NoDup_singleton]. intros e He ->%list_elem_of_singleton.
        specialize (Hlt (n_module x, n_entry x) x). rewrite elem_of_pairs in Hlt.
        unfold pair_version in Hlt. cbn in Hlt. by rewrite str_ltb_irrefl in Hlt; specialize (Hlt (conj Hm He) Hx).
      + rewrite Hold by done. by apply HndE.
    - by apply NoDup_fmap_1 in Hndall.
    - intros [m e]. rewrite elem_of_app, !elem_of_pairs, list_elem_of_fmap. unfold pair_of. split.
      + intros [Hm He]. destruct (decide (m ∈ map n_module l)) as [Hl|Hl].
        * apply list_elem_of_fmap in Hl as (x & -> & Hx). rewrite (Hnew x Hx) in He.
          apply elem_of_app in He as [He| ->%list_elem_of_singleton]; [by left|right; by exists x].
        * rewrite Hold in He by done. by left.
      + intros [[Hm He]|(x & [= -> ->] & Hx)].
        * split; [done|]. destruct (decide (m ∈ map n_module l)) as [Hl|Hl]; [|by rewrite Hold].
          apply list_elem_of_fmap in Hl as (x & -> & Hx). rewrite (Hnew x Hx). apply elem_of_app. by left.
        * split; [auto|]. rewrite (Hnew x Hx). apply elem_of_app. right. by left. }
  split; [by rewrite Hperm|]. symmetry. apply sort_by_unique.
  - apply pair_leb_total.
  - apply pair_leb_trans.
  - intros p q Hp Hq H1 H2. rewrite Hperm in Hp, Hq. eapply pair_versions_inj; [exact Hndall|done|done|].
    by apply str_leb_antisym.
  - rewrite Hperm. by rewrite sort_by_perm.
  - apply StronglySorted_app. split; [|split].
    + intros p q Hp Hq. rewrite elem_of_sort_by in Hp. apply list_elem_of_fmap in Hq as (x & -> & Hx).
      unfold le_by, pair_leb. rewrite str_leb_ltb, negb_true_iff. apply str_ltb_antisym. by apply Hlt.
    + apply sort_by_sorted; [apply pair_leb_total|apply pair_leb_trans].
    + clear -Hsort. induction Hsort as [|x l Hs IH Hall]; cbn; constructor; [done|].
      apply Forall_map. eapply Forall_impl; [exact Hall|]. intros y Hy.
      unfold le_by, pair_leb. rewrite str_leb_ltb, negb_true_iff. apply str_ltb_antisym. exact Hy.
Qed.

(** ** The layout *)

(** An entry of a manifest: a version, ASCII names and, unless it was written by
    hand, a state file named after the version. *)
Definition entry_ok (n : nat) (e : manifestEntry) : Prop :=
  canonical n (eVersion e) ∧ ascii_entry e
  ∧ (eState e = "" ∨ ∃ rest, eState e = eVersion e +:+ "_" +:+ rest ∧ no_byte "/" rest = true).

Lemma written_entry_ok n e : written_entry n e → entry_ok n e.
Proof.
  intros He. pose proof (written_names n e He) as (_ & _ & _ & Ha & _).
  destruct He as (slug & Hv & Hs & _ & Hst & _). split; [done|]. split; [done|]. right.
  exists (slug +:+ ".state.json"). split; [by rewrite Hst|].
  apply name_bytes_plain. rewrite string_forall_app, (ident_name slug Hs). done.
Qed.

Lemma entry_ok_le n m e : (m ≤ n)%nat → entry_ok n e → entry_ok m e.
Proof. intros Hm (Hv & H). split; [by eapply canonical_le|done]. Qed.

(** The layout of the modules [names], with [n] years to spare: readable manifests
    of such entries, whose states replay to a schema of those modules. *)
Definition layout (n : nat) (names : list string) (fs : gmap string string) : Prop :=
  (∀ m e, m ∈ names → e ∈ manifest_of fs m → entry_ok n e)
  ∧ ∃ chain before, recorded fs names chain before ∧ carried names before.

Lemma loads_unique fs p x y : loads fs p x → loads fs p y → x = y.
Proof.
  intros [Hx Hx'] [Hy Hy']. destruct x as [v s], y as [w t]. cbn in *.
  destruct (String.eqb (state_file p) ""); [congruence|].
  destruct Hx' as (raw & snap & H1 & H2 & ->), Hy' as (raw' & snap' & H3 & H4 & ->). congruence.
Qed.

Lemma recorded_unique fs names c1 s1 c2 s2 :
  recorded fs names c1 s1 → recorded fs names c2 s2 → c1 = c2 ∧ s1 = s2.
Proof.
  intros (_ & _ & H1 & R1) (_ & _ & H2 & R2).
  assert (c1 = c2) as ->.
  { revert H1 H2. generalize (sort_by pair_leb (pairs (manifest_of fs) names)). clear.
    intros l H1. revert c2; induction H1 as [|p x l c Hx Hl IH]; intros c2 H2; inversion H2; subst; [done|].
    f_equal; [by eapply loads_unique|auto]. }
  split; [done|congruence].
Qed.

Lemma recorded_wf fs names chain before : recorded fs names chain before → wf_snapshot before.
Proof.
  intros (_ & _ & Hall & Hr). eapply ReplayState_wf; [|exact Hr]. clear Hr.
  induction Hall as [|p x l c [_ Hx] Hl IH]; constructor; [|done].
  intros s Hs. destruct (String.eqb (state_file p) ""); [congruence|].
  destruct Hx as (raw & snap & _ & Hp & Hst). rewrite Hst in Hs. injection Hs as <-. by eapply ParseSnapshot_wf.
Qed.

(** A chain that replays, followed by new versions that record states. *)
Lemma replay_extended chain before (l : list news) :
  ReplayState chain = Ok before →
  (∀ st x, st ∈ chain → x ∈ l → str_ltb (stVersion st) (eVersion (n_entry x)) = true) →
  Forall (λ x, eVersion (n_entry x) ≠ "") l → StronglySorted version_lt l →
  ReplayState (chain ++ map new_step l) = Ok (final_state before l).
Proof.
  intros Hr Hlt Hne Hs. unfold ReplayState in *.
  destruct (replay_steps_spec [] "" chain) as [[(Ha & Hn & _) Hc]|[_ (e & He & _)]]; [|by rewrite He in Hr].
  rewrite Hc in Hr. cbn in Hr. injection Hr as <-.
  destruct (replay_steps_spec [] "" (chain ++ map new_step l)) as [[_ Hc']|[Hno _]].
  - rewrite Hc'. cbn. f_equal. unfold last_state. rewrite foldl_app. fold (last_state [] chain).
    generalize (last_state [] chain). clear. induction l as [|x l IH]; intros cur; [done|].
    cbn [map foldl new_step stState]. unfold final_state in *. cbn [foldl]. rewrite IH. by destruct (n_state x).
  - exfalso. apply Hno. unfold ascending_from. rewrite !map_app, List.map_map. split; [|split; [|done]].
    + apply StronglySorted_app. split; [|split; [done|]].
      * intros v w. rewrite !list_elem_of_fmap. intros (st & -> & Hst) (x & -> & Hx). by apply Hlt.
      * clear -Hs. induction Hs as [|x l Hs IH Hall]; cbn; constructor; [done|]. by apply Forall_map.
    + apply Forall_app. split; [done|]. by apply Forall_map.
Qed.

Lemma touched_cases m f (x : news) n :
  plain m → plain f → plain (n_module x) → written_entry n (n_entry x) →
  file_path m f ∈ touched_files (n_module x) (n_entry x) →
  m = n_module x ∧ f ∈ [eFile (n_entry x); eState (n_entry x); "manifest.json"; "all.go"].
Proof.
  intros Hm Hf Hx (Pf & Ps & _)%written_names Hin. unfold touched_files in Hin.
  apply list_elem_of_fmap in Hin as (g & Heq & Hg).
  assert (plain g) as Pg.
  { revert Hg. rewrite !elem_of_cons, elem_of_nil.
    intros [->|[->|[->|[->|[]]]]]; auto using plain_manifest, plain_all. }
  apply file_path_inj in Heq as [-> ->]; done.
Qed.

(** A state recorded before the run is not among the files the run writes. *)
Lemma old_state_kept n e (x : news) m :
  plain m → plain (n_module x) → entry_ok n e → eState e ≠ "" → written_entry n (n_entry x) →
  eVersion e ≠ eVersion (n_entry x) →
  file_path m (eState e) ∉ touched_files (n_module x) (n_entry x).
Proof.
  intros Hm Hx (Hv & _ & [He|(rest & He & Hr)]) Hne Hw Hdiff; [done|].
  assert (plain (eState e)) as Pe by (rewrite He; by eapply version_name_plain).
  intros [_ Hin]%(touched_cases _ _ _ n); [|done|done|done|done].
  destruct Hw as (slug & Hvx & Hs & Hf & Hst & _).
  revert Hin. rewrite !elem_of_cons, elem_of_nil, Hf, Hst, He. unfold migration_file.
  intros [H|[H|[H|[H|[]]]]].
  - apply (version_name_inj n) in H as [? _]; done.
  - apply (version_name_inj n) in H as [? _]; done.
  - by apply (version_name_not n) in H.
  - by apply (version_name_not n) in H.
Qed.

Lemma manifest_kept n (x : news) m :
  plain m → plain (n_module x) → written_entry n (n_entry x) → m ≠ n_module x →
  file_path m "manifest.json" ∉ touched_files (n_module x) (n_entry x).
Proof.
  intros Hm Hx Hw Hne [? _]%(touched_cases _ _ _ n); auto using plain_manifest.
Qed.

Section record.
Context (names : list string) (fs fs' : gmap string string) (n : nat) (chain : list StateStep)
  (before : Snapshot) (ms : gmap string (list manifestEntry)) (l : list news).
Hypothesis Hnames : NoDup names.
Hypothesis Hplain : Forall plain names.
Hypothesis Hok : ∀ m e, m ∈ names → e ∈ manifest_of fs m → entry_ok n e.
Hypothesis Hrec : recorded fs names chain before.
Hypothesis Hms : ∀ m, m ∈ names → default [] (ms !! m) = manifest_of fs m.
Hypothesis Hin : ∀ x, x ∈ l → n_module x ∈ names.
Hypothesis Hmods : NoDup (map n_module l).
Hypothesis Hwritten : Forall (λ x, written_entry n (n_entry x)) l.
Hypothesis Hlt : ∀ p x, p ∈ pairs (manifest_of fs) names → x ∈ l →
  str_ltb (pair_version p) (eVersion (n_entry x)) = true.
Hypothesis Hsort : StronglySorted version_lt l.
Hypothesis Hdisk : Forall (on_disk fs' ms) l.
Hypothesis Hframe : ∀ path, (∀ x, x ∈ l → path ∉ touched_files (n_module x) (n_entry x)) →
  fs' !! path = fs !! path.
Hypothesis Hstates : Forall (λ x, wf_snapshot (n_state x) ∧ carried names (n_state x)) l.

Lemma module_plain m : m ∈ names → plain m.
Proof using Hplain. intros Hm. rewrite Forall_forall in Hplain. auto. Qed.
Lemma new_written x : x ∈ l → written_entry n (n_entry x).
Proof using Hwritten. intros Hx. rewrite Forall_forall in Hwritten. auto. Qed.

Lemma manifests_old m :
  m ∈ names → m ∉ map n_module l → manifest_entries fs' m = manifest_entries fs m.
Proof using Hplain Hframe Hin Hwritten.
  intros Hm Hl. unfold manifest_entries. rewrite Hframe; [done|]. intros x Hx.
  apply (manifest_kept n); [by apply module_plain|by apply module_plain, Hin|by apply new_written|].
  intros ->. apply Hl, list_elem_of_fmap. eauto.
Qed.

Lemma manifests_new x :
  x ∈ l → manifest_entries fs' (n_module x) = Some (manifest_of fs (n_module x) ++ [n_entry x]).
Proof using Hdisk Hms Hin Hok Hwritten.
  intros Hx. rewrite Forall_forall in Hdisk. destruct (Hdisk x Hx) as [_ Hd].
  rewrite Hms in Hd by auto. apply manifest_written; [|done]. apply Forall_app. split.
  - apply Forall_forall. intros e He. apply (Hok (n_module x)); auto.
  - constructor; [|constructor]. by apply (written_names n), new_written.
Qed.

Lemma manifest_of_old m : m ∈ names → m ∉ map n_module l → manifest_of fs' m = manifest_of fs m.
Proof using Hplain Hframe Hin Hwritten. intros Hm Hl. unfold manifest_of. by rewrite manifests_old. Qed.
Lemma manifest_of_new x : x ∈ l → manifest_of fs' (n_module x) = manifest_of fs (n_module x) ++ [n_entry x].
Proof using Hdisk Hms Hin Hok Hwritten. intros Hx. unfold manifest_of at 1. by rewrite manifests_new. Qed.

(** Every entry on disk after the run is still one of the layout. *)
Lemma entries_ok_after m e : m ∈ names → e ∈ manifest_of fs' m → entry_ok n e.
Proof using Hdisk Hms Hin Hok Hwritten Hplain Hframe.
  intros Hm He. destruct (decide (m ∈ map n_module l)) as [Hl|Hl].
  - apply list_elem_of_fmap in Hl as (x & -> & Hx). rewrite manifest_of_new in He by done.
    apply elem_of_app in He as [He| ->%list_elem_of_singleton]; [by eapply Hok|].
    by apply written_entry_ok, new_written.
  - rewrite manifest_of_old in He by done. by eapply Hok.
Qed.

Lemma loads_old p x : p ∈ pairs (manifest_of fs) names → loads fs p x → loads fs' p x.
Proof using Hplain Hok Hframe Hin Hwritten Hlt.
  destruct p as [m e]. intros Hp [Hv Hx]. pose proof Hp as [Hm He]%elem_of_pairs. split; [done|].
  destruct (String.eqb (state_file (m, e)) "") eqn:E; [done|].
  destruct Hx as (raw & snap & Hf & Hps & Hst). exists raw, snap. split; [|done].
  rewrite Hframe; [done|]. intros y Hy. unfold state_file in *. cbn [fst snd] in *.
  destruct (String.eqb_spec (eState e) "") as [|Hne]; [done|].
  destruct (Hok m e Hm He) as (Hve & _ & Hstate).
  assert (plain (eState e)) as Pe.
  { destruct Hstate as [|(rest & -> & Hr)]; [done|]. by eapply version_name_plain. }
  rewrite path_join_file by (auto using module_plain).
  apply (old_state_kept n); [by apply module_plain|by apply module_plain, Hin|by eapply Hok|done
    |by apply new_written|].
  intros Heq. specialize (Hlt (m, e) y Hp Hy). unfold pair_version in Hlt. cbn in Hlt.
  by rewrite Heq, str_ltb_irrefl in Hlt.
Qed.

Lemma loads_all_old ps c :
  (∀ p, p ∈ ps → p ∈ pairs (manifest_of fs) names) → Forall2 (loads fs) ps c → Forall2 (loads fs') ps c.
Proof using Hplain Hok Hframe Hin Hwritten Hlt.
  intros Hsub Hall. revert Hsub. induction Hall as [|p x ps c Hp Hps IH]; intros Hsub; constructor.
  - apply loads_old; [|done]. apply Hsub. by left.
  - apply IH. intros q Hq. apply Hsub. by right.
Qed.

Lemma loads_new x : x ∈ l → loads fs' (pair_of x) (new_step x).
Proof using Hdisk Hwritten Hplain Hin Hstates.
  intros Hx. split; [done|]. unfold state_file, pair_of. cbn [fst snd].
  destruct (written_names n _ (new_written x Hx)) as (_ & Ps & Hne & _).
  rewrite (proj2 (String.eqb_neq _ _) Hne).
  rewrite path_join_file by (auto using module_plain).
  assert (file_path (n_module x) (eState (n_entry x)) ≠ "") as Hnp.
  { pose proof (module_plain _ (Hin x Hx)) as Pm. apply (Join_head_plain _ _ Pm). }
  rewrite (proj2 (String.eqb_neq _ _) Hnp).
  rewrite Forall_forall in Hdisk. destruct (Hdisk x Hx) as [(data & Hd & Hf) _].
  exists data, (n_state x). split; [done|]. split; [|done].
  rewrite Forall_forall in Hstates. destruct (Hstates x Hx) as [Hwf [Hp _]].
  injection Hd as <-. rewrite <-(string_app_nil_r newline). by apply ParseSnapshot_encoded.
Qed.

(** The files record the chain as it was, extended by the run. *)
Lemma recorded_after : recorded fs' names (chain ++ map new_step l) (final_state before l).
Proof using All.
  pose proof Hrec as (He & Hnd & Hall & Hr).
  destruct (sorted_pairs (manifest_of fs) (manifest_of fs') names l) as [Hnd' Hsorted];
    [done|done|done|exact Hlt|exact Hin|done|apply manifest_of_old|apply manifest_of_new|].
  split; [|split; [done|split]].
  - intros m Hm. destruct (decide (m ∈ map n_module l)) as [Hl|Hl].
    + apply list_elem_of_fmap in Hl as (x & -> & Hx). by rewrite manifest_of_new, manifests_new.
    + rewrite manifest_of_old, manifests_old by done. by apply He.
  - rewrite Hsorted. apply Forall2_app.
    + apply loads_all_old; [|done]. intros p. by rewrite elem_of_sort_by.
    + assert (∀ x, x ∈ l → loads fs' (pair_of x) (new_step x)) as Hl by apply loads_new.
      clear -Hl. induction l as [|x r IH]; cbn; constructor; [apply Hl; by left|].
      apply IH. intros y Hy. apply Hl. by right.
  - apply replay_extended; [done| | |done].
    + intros st x Hst Hx. apply list_elem_of_lookup in Hst as [i Hi].
      destruct (Forall2_lookup_r _ _ _ _ _ Hall Hi) as (p & Hp & [Hv _]). rewrite Hv.
      apply Hlt; [|done]. apply list_elem_of_lookup_2 in Hp. by rewrite elem_of_sort_by in Hp.
    + apply Forall_forall. intros x Hx. destruct (new_written x Hx) as (slug & Hv & _).
      by eapply canonical_nonempty.
Qed.
End record.

(** ** The command *)

Section command.
Context `{Unicode} (format : string → option string).

(** The application's side of the contract: plain, distinct module names, and live
    models of those modules that the state codec carries. *)
Definition app_ok (a : App) : Prop :=
  NoDup (names a) ∧ Forall plain (names a) ∧ carried (names a) (mkSnapshot (live a)).

Definition quiet : string := "no changes detected in any module's models".

Lemma carried_snapshot ns ms s : NewSnapshot ms = Ok s → carried ns (mkSnapshot ms) → carried ns s.
Proof.
  intros [_ ->]%NewSnapshot_iff [Hp Hm]. unfold carried, portable in *. cbn [models] in *.
  rewrite Forall_forall in Hp. rewrite Forall_forall.
  split; intros x; rewrite elem_of_sort_by; auto.
Qed.

Lemma all_entries_of (ms : gmap string (list manifestEntry)) ns fs :
  loaded_manifests (manifest_of fs) ns ∅ ms →
  ∀ e, e ∈ all_entries ms ↔ ∃ m, m ∈ ns ∧ e ∈ manifest_of fs m.
Proof.
  intros Hms e. unfold all_entries. rewrite elem_of_flat_map. split.
  - intros ([m es] & Hin%elem_of_map_to_list & He). rewrite (Hms m) in Hin.
    case_bool_decide; [|done]. injection Hin as <-. eauto.
  - intros (m & Hm & He). exists (m, manifest_of fs m). split; [|done].
    apply elem_of_map_to_list. by rewrite (Hms m), bool_decide_eq_true_2.
Qed.

Lemma ownerOf_named (a : App) before t :
  carried (names a) (mkSnapshot (live a)) → carried (names a) before →
  (∃ reg, reg ∈ live a ∧ table_of reg = t) ∨ (∃ reg, reg ∈ models before ∧ table_of reg = t) →
  ownerOf (live a) t before ∈ names a.
Proof.
  intros [_ Hl] [_ Hb] Ht. unfold ownerOf.
  destruct (findByTable (live a) t) as [reg|] eqn:E1; [apply findByTable_Some in E1 as [? _]; auto|].
  rewrite Models_models. destruct (findByTable (models before) t) as [reg|] eqn:E2;
    [apply findByTable_Some in E2 as [? _]; auto|].
  apply findByTable_None in E1, E2. rewrite list_elem_of_fmap in E1, E2.
  destruct Ht as [(reg & Hr & <-)|(reg & Hr & <-)]; [destruct E1|destruct E2]; eauto.
Qed.

(** With nothing on disk different from what is declared, the command says so and
    writes nothing. *)
Lemma nothing_to_do (a : App) d dialect now input interactive e chain before after :
  sliced a = false → DB a = Some d → dialectFor d = Ok dialect → Forall plain (names a) →
  recorded (files e) (names a) chain before → NewSnapshot (live a) = Ok after →
  schema_of before = schema_of after →
  ∃ e', runMakemigrations never format a now input interactive e = (Ok (), e')
    ∧ files e' = files e ∧ out e' = out e ++ [quiet].
Proof.
  intros Hsl Hdb Hd Hp Hrec Ha Hschema. unfold runMakemigrations. rewrite Hsl, Hdb.
  destruct (replay_never (names a) e before chain Hp Hrec) as (ms & e1 & Hr & Hf & Ho).
  assert (Diff before after = []) as Hdiff.
  { apply Diff_nil; [by eapply recorded_wf|by eapply NewSnapshot_wf|done]. }
  assert (∃ e', print_line never quiet e1 = (Ok (), e') ∧ files e' = files e1 ∧ out e' = out e1 ++ [quiet])
    as (e' & Hpr & Hf' & Ho') by (unfold print_line; cbn; eauto).
  exists e'. split; [|split; congruence].
  apply io_bind_ok. exists dialect, e. split; [apply lift_ok; by rewrite Hd|].
  apply io_bind_ok. exists (before, ms), e1. split; [exact Hr|].
  apply io_bind_ok. exists after, e1. split; [apply lift_ok; by rewrite Ha|].
  rewrite Hdiff. cbn. exact Hpr.
Qed.

(** What a successful run did: nothing, or one migration per changed module. *)
Lemma run_inv fails (a : App) now input interactive e e' :
  app_ok a → runMakemigrations fails format a now input interactive e = (Ok (), e') →
  ∃ d dialect before after chain ms ops,
    sliced a = false ∧ DB a = Some d ∧ dialectFor d = Ok dialect
    ∧ recorded (files e) (names a) chain before ∧ loaded_manifests (manifest_of (files e)) (names a) ∅ ms
    ∧ NewSnapshot (live a) = Ok after ∧ migration before after ops
    ∧ (∀ op, op ∈ ops → ∃ op', op' ∈ Diff before after ∧ operationTable op' = operationTable op)
    ∧ let owner t := ownerOf (live a) t before in
      (ops = [] ∧ files e' = files e
       ∨ ∃ version e1, nextVersion now ms = Ok version ∧ files e1 = files e
           ∧ write_modules fails format dialect before after before ms version
               (module_ops owner ops) (module_order owner ops) e1 = (Ok (), e')).
Proof.
  intros (Hnd & Hp & Hcar) Hrun. unfold runMakemigrations in Hrun.
  destruct (sliced a) eqn:Hsl; [by apply fail_ok in Hrun|].
  destruct (DB a) as [d|] eqn:Hdb; [|by apply fail_ok in Hrun].
  apply io_bind_ok in Hrun as (dialect & e1 & [Hd ->]%lift_ok & Hrun).
  apply io_bind_ok in Hrun as ([before ms] & e2 & Hrep & Hrun).
  apply replay_inv in Hrep as ((chain & Hrec) & Hms & Hf & _); [|done].
  apply io_bind_ok in Hrun as (after & e3 & [Ha ->]%lift_ok & Hrun).
  assert (NewSnapshot (live a) = Ok after) as Hafter by exact Ha.
  destruct (resolveRenames _ _ _ _ _) as [r|] eqn:Hres; [|by apply fail_ok in Hrun].
  apply io_bind_ok in Hrun as (ops & e4 & [Hops ->]%lift_ok & Hrun).
  assert (r = Ok ops) as -> by (destruct r; naive_solver).
  pose proof (recorded_wf _ _ _ _ Hrec) as Hb. pose proof (NewSnapshot_wf _ _ Hafter) as Hwa.
  exists d, dialect, before, after, chain, ms, ops. split; [done|]. split; [done|].
  split; [destruct (dialectFor d); naive_solver|]. split; [done|]. split; [done|]. split; [done|].
  split; [by eapply resolveRenames_migration|].
  split; [intros op Hop; by eapply resolveRenames_tables|]. cbv zeta.
  destruct ops as [|op ops].
  - left. split; [done|]. apply print_line_ok in Hrun as [Hf' _]. by rewrite Hf', Hf.
  - right. apply io_bind_ok in Hrun as (version & e5 & [Hv ->]%lift_ok & Hrun).
    exists version, e2. split; [|done].
    destruct (nextVersion now ms); [by injection Hv as ->|discriminate Hv].
Qed.

(** The migrations of a run extend the layout, and leave the declared schema. *)
Lemma run_records fails dialect before after chain ms ops version (a : App) n e1 e' :
  let owner t := ownerOf (live a) t before in
  app_ok a → layout (n + length (names a)) (names a) (files e1) →
  recorded (files e1) (names a) chain before → loaded_manifests (manifest_of (files e1)) (names a) ∅ ms →
  NewSnapshot (live a) = Ok after → migration before after ops →
  (∀ op, op ∈ ops → ∃ op', op' ∈ Diff before after ∧ operationTable op' = operationTable op) →
  canonical (n + length (names a)) version →
  (∀ e, e ∈ all_entries ms → str_ltb (eVersion e) version = true) →
  write_modules fails format dialect before after before ms version
    (module_ops owner ops) (module_order owner ops) e1 = (Ok (), e') →
  ∃ l, layout n (names a) (files e')
    ∧ recorded (files e') (names a) (chain ++ map new_step l) (final_state before l)
    ∧ schema_of (final_state before l) = schema_of after
    ∧ map n_module l = module_order owner ops ∧ executed (module_ops owner ops) before l.
Proof.
  intros owner (Hnd & Hp & Hcar) [Hok (chain0 & before0 & Hrec0 & Hcb)] Hrec Hms Ha Hm Htab Hv Habove Hw.
  destruct (recorded_unique _ _ _ _ _ _ Hrec0 Hrec) as [-> ->]. clear Hrec0.
  pose proof (recorded_wf _ _ _ _ Hrec) as Hb. pose proof (NewSnapshot_wf _ _ Ha) as Hwa.
  pose proof (carried_snapshot _ _ _ Ha Hcar) as Hca.
  destruct (module_order_spec owner ops) as [Hndo Horder].
  assert (∀ op, op ∈ ops → owner (operationTable op) ∈ names a) as Howner.
  { intros op Hop. destruct (Htab op Hop) as (op' & Hop' & <-). apply ownerOf_named; [done|done|].
    destruct (Diff_tables _ _ _ Hb Hwa Hop') as [[reg Hr]|[reg Hr]]; apply reg_at_elem in Hr as [Hr Ht].
    - right. eauto.
    - left. apply NewSnapshot_iff in Ha as [_ ->]. cbn in Hr. rewrite elem_of_sort_by in Hr. eauto. }
  assert (∀ m, m ∈ module_order owner ops → m ∈ names a) as Hsub.
  { intros m (op & Hop & <-)%Horder. auto. }
  assert (length (module_order owner ops) ≤ length (names a)) as Hlen.
  { apply submseteq_length, NoDup_submseteq; [done|]. exact Hsub. }
  apply (write_modules_inv fails format n) in Hw as (l & Hl & Hwl & Hge & Hsort & Hch & Hdisk & Hframe);
    [|apply Forall_forall; intros m Hmm; rewrite Forall_forall in Hp; auto|done|eapply canonical_le; [|exact Hv]; lia].
  assert (∀ x, x ∈ l → n_module x ∈ names a) as Hin.
  { intros x Hx. apply Hsub. rewrite <-Hl. apply list_elem_of_fmap. eauto. }
  assert (NoDup (map n_module l)) as Hndl by (by rewrite Hl).
  destruct (chained_states (names a) before after ops owner l before (λ _, false)) as (Hbt & Hcf & Hst & Hex); try done.
  assert (schema_of (final_state before l) = schema_of after) as Hschema.
  { eapply (final_schema before after ops owner (map n_module l)); [done|done|done| |exact Hbt].
    intros op Hop. rewrite Hl. apply Horder. eauto. }
  assert (∀ m, m ∈ names a → default [] (ms !! m) = manifest_of (files e1) m) as Hdef.
  { intros m Hmm. by rewrite (Hms m), bool_decide_eq_true_2. }
  assert (∀ m x, m ∈ names a → x ∈ manifest_of (files e1) m → entry_ok n x) as Hok'.
  { intros m x Hmm Hx. eapply entry_ok_le; [|by eapply Hok]. lia. }
  assert (∀ p x, p ∈ pairs (manifest_of (files e1)) (names a) → x ∈ l →
    str_ltb (pair_version p) (eVersion (n_entry x)) = true) as Hlt.
  { intros [m x0] x [Hmm Hx0]%elem_of_pairs Hx. rewrite Forall_forall in Hge. specialize (Hge x Hx).
    assert (str_ltb (eVersion x0) version = true) as H1.
    { apply Habove. apply (all_entries_of _ _ _ Hms). eauto. }
    unfold pair_version. cbn. cbn beta in Hge. rewrite str_leb_ltb, negb_true_iff in Hge.
    destruct (str_ltb version (eVersion (n_entry x))) eqn:E; [by eapply str_ltb_trans|].
    by rewrite <-(str_ltb_total _ _ E Hge). }
  assert (recorded (files e') (names a) (chain ++ map new_step l) (final_state before l)) as Hrec'.
  { apply (recorded_after (names a) (files e1) (files e') n chain before ms l); done. }
  exists l. split; [|done]. split.
  - intros m x Hmm Hx. by eapply (entries_ok_after (names a) (files e1) (files e') n ms l).
  - eauto.
Qed.
End command.

(** ** Properties *)

(** C3: a successful run of makemigrations leaves nothing for the next one.
    Started on a readable layout, it ends in one again, whose replayed schema is the
    schema the modules declare; and whatever the clock, the input or the terminal,
    running it again on the same files writes no file and reports that nothing
    changed. *)
Theorem makemigrations_settles `{Unicode} (fails : nat → bool) (format : string → option string)
    (a : App) (now input : string) (interactive : bool) (e e' : env) (n : nat) :
  app_ok a → layout (n + S (length (names a))) (names a) (files e) →
  canonical (n + S (length (names a))) now →
  runMakemigrations fails format a now input interactive e = (Ok (), e') →
  layout n (names a) (files e')
  ∧ (∃ chain recorded_state declared, recorded (files e') (names a) chain recorded_state
       ∧ NewSnapshot (live a) = Ok declared ∧ schema_of recorded_state = schema_of declared)
  ∧ ∀ now' input' interactive' e2, files e2 = files e' →
      ∃ e3, runMakemigrations never format a now' input' interactive' e2 = (Ok (), e3)
        ∧ files e3 = files e2 ∧ out e3 = out e2 ++ [quiet].
Proof.
  intros Happ Hlay Hnow Hrun. rewrite Nat.add_succ_r in Hlay, Hnow.
  destruct (run_inv format fails a now input interactive e e' Happ Hrun) as
    (d & dialect & before & after & chain & ms & ops & Hsl & Hdb & Hd & Hrec & Hms & Ha & Hm & Htab & Hcase).
  assert (∃ chain' st, layout n (names a) (files e') ∧ recorded (files e') (names a) chain' st
    ∧ schema_of st = schema_of after) as (chain' & st & Hlay' & Hrec' & Hsch).
  { destruct Hcase as [[-> Hf]|(version & e1 & Hv & Hf & Hw)].
    - exists chain, before. rewrite Hf. split; [|split; [done|]].
      + destruct Hlay as [Hok Hr]. split; [|done]. intros m x Hmm Hx.
        eapply entry_ok_le; [|by eapply Hok]. lia.
      + apply execute_all in Hm. cbn in Hm. by injection Hm.
    - destruct (nextVersion_above (n + length (names a)) now ms) as (v & Hv' & Hcv & Habove).
      + done.
      + intros x (m & Hmm & Hx)%(all_entries_of _ _ _ Hms). by destruct (proj1 Hlay m x Hmm Hx).
      + rewrite Hv in Hv'. injection Hv' as <-. rewrite <-Hf in Hlay, Hrec, Hms.
        destruct (run_records format fails dialect before after chain ms ops version a n e1 e')
          as (l & Hl1 & Hl2 & Hl3 & _); try done; [|by eauto].
        destruct Hlay as [Hok Hr]. split; [|done]. intros m x Hmm Hx.
        eapply entry_ok_le; [|by eapply Hok]. lia. }
  split; [done|]. split; [by eauto 10|].
  intros now' input' interactive' e2 Hf2. rewrite <-Hf2 in Hrec'.
  destruct Happ as (_ & Hp & _).
  by apply (nothing_to_do format a d dialect now' input' interactive' e2 chain' st after).
Qed.

(** Every state a run records is the schema its own migration leads to.
    The replayed chain after the run is the chain before it followed by one state per
    changed module, in the order of the modules; each is exactly what executing that
    module's operations makes of the state before, and the last is the schema the
    modules declare. *)
Theorem makemigrations_stepwise `{Unicode} (fails : nat → bool) (format : string → option string)
    (a : App) (now input : string) (interactive : bool) (e e' : env) (n : nat) :
  app_ok a → layout (n + S (length (names a))) (names a) (files e) →
  canonical (n + S (length (names a))) now →
  runMakemigrations fails format a now input interactive e = (Ok (), e') →
  ∃ chain before declared ops l,
    recorded (files e) (names a) chain before ∧ NewSnapshot (live a) = Ok declared
    ∧ execute ops (schema_of before) = Some (schema_of declared)
    ∧ let owner t := ownerOf (live a) t before in
      map n_module l = module_order owner ops
      ∧ executed (module_ops owner ops) before l
      ∧ recorded (files e') (names a) (chain ++ map new_step l) (final_state before l)
      ∧ schema_of (final_state before l) = schema_of declared.
Proof.
  intros Happ Hlay Hnow Hrun. rewrite Nat.add_succ_r in Hlay, Hnow.
  destruct (run_inv format fails a now input interactive e e' Happ Hrun) as
    (d & dialect & before & after & chain & ms & ops & Hsl & Hdb & Hd & Hrec & Hms & Ha & Hm & Htab & Hcase).
  pose proof (execute_all _ _ _ Hm) as Hex.
  destruct Hcase as [[-> Hf]|(version & e1 & Hv & Hf & Hw)].
  - exists chain, before, after, [], []. cbn. rewrite app_nil_r, Hf. split_and!; try done.
    cbn in Hex. by injection Hex.
  - destruct (nextVersion_above (n + length (names a)) now ms) as (v & Hv' & Hcv & Habove); [done| |].
    { intros x (m & Hmm & Hx)%(all_entries_of _ _ _ Hms). by destruct (proj1 Hlay m x Hmm Hx). }
    rewrite Hv in Hv'. injection Hv' as <-. pose proof Hrec as Hrec0. rewrite <-Hf in Hlay, Hrec, Hms.
    destruct (run_records format fails dialect before after chain ms ops version a n e1 e')
      as (l & _ & Hl2 & Hl3 & Hl4 & Hl5); try done.
    { destruct Hlay as [Hok Hr]. split; [|done]. intros m x Hmm Hx.
      eapply entry_ok_le; [|by eapply Hok]. lia. }
    exists chain, before, after, ops, l. done.
Qed.

(** ** Completion *)

Section completes.
Context `{Unicode} (format : string → option string).
Hypothesis Hformat : ∀ src, is_Some (format src).

Lemma resolved_typed before after input interactive ops op o :
  wf_snapshot before → wf_snapshot after →
  resolveRenames (Diff before after) before after input interactive = Some (Ok ops) → op ∈ ops →
  invert op before = Ok o → typed_op op ∧ typed_op o.
Proof using.
  intros Hb Ha Hr Hop Ho.
  destruct (resolved_origin before after input interactive ops op Hr Hop) as [Hd|(t & x & y & -> & _)].
  - split; [by apply (Diff_typed before after)|by apply (invert_typed before op)].
  - cbn in Ho. injection Ho as <-. done.
Qed.

Lemma io_bind_run {A B} (m : IO A) (f : A → IO B) e a e1 :
  m e = (Ok a, e1) → (m ≫= f) e = f a e1.
Proof using.
  intros Hm. change ((m ≫= f) e) with (match m e with (Ok a, e1) => f a e1 | (Err x, e1) => (Err x, e1) end).
  by rewrite Hm.
Qed.

(** A step of a program whose calls never fail. *)
Ltac io_step := apply io_bind_ok; eexists _, _; split; [reflexivity|].

(** PostgreSQL renders every operation of a plan and its inverse. *)
Lemma render_pair_postgres before module op o :
  invert op before = Ok o → typed_op op → typed_op o →
  ∃ r, render_pair Postgres.dialect before module op = Ok r.
Proof using.
  intros Ho H1 H2. unfold render_pair. change (Render Postgres.dialect) with (Postgres.Render).
  cbn [Postgres.Render]. destruct (postgres_renders op H1) as (up & -> & _). rewrite Ho.
  destruct (postgres_renders o H2) as (down & -> & _). eauto.
Qed.

Lemma write_module_completes before after cum ms version module ops e :
  wf_snapshot cum → wf_snapshot after →
  (∀ op, op ∈ ops → ∃ r, render_pair Postgres.dialect before module op = Ok r) →
  ∃ cum' ms' e',
    write_module never format Postgres.dialect before after cum ms version module ops e = (Ok (cum', ms'), e')
    ∧ wf_snapshot cum'.
Proof using Hformat.
  intros Hc Ha Hr. destruct (map_result_total (render_pair Postgres.dialect before module) ops Hr) as [rendered Hren].
  destruct (snapshotAfter_ok cum after ops Hc Ha) as (next & Hn & Hwf & _).
  assert (∀ src, format src = Some (default "" (format src))) as Hfmt by (intros src; by destruct (Hformat src) as [x ->]).
  unfold write_module. rewrite Hren. eexists next, _, _. split; [|done].
  io_step. apply io_bind_ok. exists next, e. split; [apply lift_ok; by rewrite Hn|].
  io_step. apply io_bind_ok. unfold renderMigrationGo.
  rewrite Hfmt.
  eexists _, _. split; [reflexivity|].
  do 8 io_step. reflexivity.
Qed.

Lemma write_modules_completes before after ops order cum ms version e :
  wf_snapshot cum → wf_snapshot after →
  (∀ m op, m ∈ order → op ∈ ops m → ∃ r, render_pair Postgres.dialect before m op = Ok r) →
  ∃ e', write_modules never format Postgres.dialect before after cum ms version ops order e = (Ok (), e').
Proof using Hformat.
  intros Hc Ha. revert cum ms version e Hc.
  induction order as [|m order IH]; intros cum ms version e Hc Hr; cbn [write_modules]; [by exists e|].
  destruct (write_module_completes before after cum ms version m (ops m) e Hc Ha) as (cum' & ms' & e1 & Hw & Hc').
  { intros op Hop. apply Hr; [by left|done]. }
  destruct (IH cum' ms' (bumpVersion version) e1 Hc') as (e2 & H2).
  { intros m' op Hm' Hop. apply Hr; [by right|done]. }
  exists e2. apply io_bind_ok. exists (cum', ms'), e1. by split.
Qed.
End completes.

(** C4: makemigrations completes on PostgreSQL.  On a readable layout, with a
    clock in range, calls that do not fail and a formatter that accepts the generated
    source, a run of an application that is not sliced either succeeds or stops,
    before writing any file, at a rename it was not allowed to decide. *)
Theorem makemigrations_completes `{Unicode} (format : string → option string) (a : App) (d : driver)
    (now input : string) (interactive : bool) (e : env) (n : nat) :
  app_ok a → snapshot_input (live a) → sliced a = false → DB a = Some d → dialectFor d = Ok Postgres.dialect →
  (∀ src, is_Some (format src)) →
  layout (n + S (length (names a))) (names a) (files e) → canonical (n + S (length (names a))) now →
  ∃ r e', runMakemigrations never format a now input interactive e = (r, e')
    ∧ (r = Ok () ∨ ∃ x, r = Err (MakeMigrations.Rename x) ∧ files e' = files e).
Proof.
  intros (Hnd & Hp & Hcar) Hlive Hsl Hdb Hd Hformat [Hok (chain & before & Hrec & Hcb)] Hnow.
  rewrite Nat.add_succ_r in Hok, Hnow.
  destruct (replay_never (names a) e before chain Hp Hrec) as (ms & e1 & Hr & Hf & Ho).
  pose proof Hr as Hinv. apply replay_inv in Hinv as (_ & Hms & _ & _); [|done].
  assert (NewSnapshot (live a) = Ok (mkSnapshot (sort_by table_leb (live a)))) as Ha by (by apply NewSnapshot_iff).
  set (after := mkSnapshot _) in Ha. pose proof (recorded_wf _ _ _ _ Hrec) as Hb. pose proof (NewSnapshot_wf _ _ Ha) as Hwa.
  unfold runMakemigrations. rewrite Hsl, Hdb.
  rewrite (io_bind_run _ _ e Postgres.dialect e) by (by rewrite Hd).
  rewrite (io_bind_run _ _ e (before, ms) e1 Hr). cbv beta iota zeta.
  rewrite (io_bind_run _ _ e1 after e1) by (by rewrite Ha).
  destruct (resolveRenames_total (Diff before after) before after input interactive) as [r0 Hres].
  rewrite Hres. destruct r0 as [ops|x].
  - rewrite (io_bind_run _ _ e1 ops e1) by done. eexists _, _. rewrite <-surjective_pairing.
    split; [reflexivity|]. left. destruct ops as [|op ops]; [done|]. set (l := op :: ops) in *.
    destruct (nextVersion_above (n + length (names a)) now ms) as (v & Hv & _ & _); [done| |].
    { intros x (m & Hmm & Hx)%(all_entries_of _ _ _ Hms). by destruct (Hok m x Hmm Hx). }
    rewrite (io_bind_run _ _ e1 v e1) by (by rewrite Hv).
    pose proof (resolveRenames_migration _ _ _ _ _ Hb Hwa Hres) as Hm.
    destruct (write_modules_completes format Hformat before after
      (module_ops (λ t, ownerOf (live a) t before) l) (module_order (λ t, ownerOf (live a) t before) l)
      before ms v e1 Hb Hwa) as [e' ->]; [|done].
    intros m o _ [Hop _]%elem_of_filter_bool. destruct (migration_invert _ _ _ _ Hm Hop) as (inv & Hinv & _).
    destruct (resolved_typed before after input interactive l o inv Hb Hwa Hres Hop Hinv).
    by apply (render_pair_postgres before m o inv).
  - eexists _, _. split; [reflexivity|]. right. exists x. by split.
Qed.

(** ** Examples and witnesses *)

#[local] Existing Instance identity_tables.

(** The layout of a new project: no file at all. *)
Lemma layout_empty n ns : layout n ns ∅.
Proof.
  assert (∀ m, manifest_of ∅ m = []) as Hm by done.
  assert (pairs (manifest_of ∅) ns = []) as Hp by (by induction ns as [|x l IH]; cbn; rewrite ?IH).
  split; [intros m e _; by rewrite Hm; intros ?%elem_of_nil|].
  exists [], (mkSnapshot []). split; [|split; [constructor|by intros ? ?%elem_of_nil]].
  split; [done|]. rewrite Hp. split; [constructor|]. split; [constructor|done].
Qed.

Definition pgx : driver := mkDriver "github.com/jackc/pgx/v5/stdlib" "*stdlib.Driver".
Definition posts : Registered := mkRegistered "blog" (example_model "posts").
Definition orders : Registered := mkRegistered "shop" (example_model "orders").
Definition both : App := mkApp false ["blog"; "shop"] ["blog"; "shop"] [posts; orders] (Some pgx).

Definition run (a : App) (now : string) (e : env) : result mm_error () * env :=
  runMakemigrations never Some a now "" false e.
Definition new_project : env := mkEnv ∅ [] 0.
Definition noon (d : Z) : civil := mkCivil 2026 8 d 12 0 0.

Lemma noon_canonical d : (1 <= d <= 31)%Z → canonical 3 (format_time (noon d)).
Proof. intros Hd. exists (noon d). repeat split; cbn; lia. Qed.

Lemma both_ok : app_ok both.
Proof.
  split; [by apply (bool_decide_unpack _); vm_compute|]. split; [plains; repeat split; done|].
  split; [repeat constructor; cbn; unfold int64; lia|].
  intros reg. cbn. rewrite !elem_of_cons, elem_of_nil. intros [->|[->|[]]]; cbn; set_solver.
Qed.

Lemma makemigrations_settles_witness :
  fst (run both (format_time (noon 2)) new_project) = Ok ()
  ∧ layout 0 ["blog"; "shop"] (files (snd (run both (format_time (noon 2)) new_project))).
Proof.
  assert (fst (run both (format_time (noon 2)) new_project) = Ok ()) as Hrun by (vm_compute; reflexivity).
  split; [exact Hrun|].
  destruct (run both (format_time (noon 2)) new_project) as [r e'] eqn:E. cbn [fst] in Hrun. subst r.
  cbn [snd]. unfold run in E. exact (proj1 (makemigrations_settles never Some both (format_time (noon 2)) "" false new_project e' 0
    both_ok (layout_empty _ _) (noon_canonical 2 ltac:(lia)) E)).
Defined.

Lemma makemigrations_stepwise_witness :
  ∃ chain before declared ops l,
    recorded ∅ ["blog"; "shop"] chain before ∧ NewSnapshot [posts; orders] = Ok declared
    ∧ execute ops (schema_of before) = Some (schema_of declared)
    ∧ let owner t := ownerOf [posts; orders] t before in
      map n_module l = module_order owner ops
      ∧ executed (module_ops owner ops) before l
      ∧ recorded (files (snd (run both (format_time (noon 2)) new_project))) ["blog"; "shop"]
          (chain ++ map new_step l) (final_state before l)
      ∧ schema_of (final_state before l) = schema_of declared.
Proof.
  assert (fst (run both (format_time (noon 2)) new_project) = Ok ()) as Hrun by (vm_compute; reflexivity).
  destruct (run both (format_time (noon 2)) new_project) as [r e'] eqn:E. cbn [fst] in Hrun. subst r.
  cbn [snd]. unfold run in E.
  exact (makemigrations_stepwise never Some both (format_time (noon 2)) "" false new_project e' 0
    both_ok (layout_empty _ _) (noon_canonical 2 ltac:(lia)) E).
Defined.

Lemma makemigrations_completes_witness :
  ∃ r e', run both (format_time (noon 2)) new_project = (r, e')
    ∧ (r = Ok () ∨ ∃ x, r = Err (MakeMigrations.Rename x) ∧ files e' = files new_project).
Proof.
  unfold run. apply (makemigrations_completes Some both pgx (format_time (noon 2)) "" false new_project 0).
  - exact both_ok.
  - apply NewSnapshot_iff with (s := mkSnapshot [orders; posts]). vm_compute. reflexivity.
  - reflexivity.
  - reflexivity.
  - unfold dialectFor. change (PkgPath pgx +:+ "." +:+ TypeString pgx) with
      "github.com/jackc/pgx/v5/stdlib.*stdlib.Driver".
    replace (Contains "github.com/jackc/pgx/v5/stdlib.*stdlib.Driver" "sqlite") with false by reflexivity.
    replace (Contains "github.com/jackc/pgx/v5/stdlib.*stdlib.Driver" "pgx") with true by reflexivity.
    reflexivity.
  - intros src. by eexists.
  - apply layout_empty.
  - apply noon_canonical. lia.
Defined.

Definition longer_posts : Registered :=
  mkRegistered "blog" (mkModel "posts"
    (mFields (example_model "posts") ++ [mkField "subtitle" "string" 0 true false false false])).
Definition both_later : App := mkApp false ["blog"; "shop"] ["blog"; "shop"] [longer_posts; orders] (Some pgx).
Definition blog_alone : App := mkApp false ["blog"] ["blog"] [longer_posts] (Some pgx).

(** A module that is no longer mounted is not among the modules whose manifests are
    read, but still owns the table to drop: its manifest is rewritten without its
    history, and every later run drops the table again. *)
Lemma unmounted_history_lost :
  let '(r1, e1) := run both (format_time (noon 2)) new_project in
  let '(r2, e2) := run both_later (format_time (noon 3)) e1 in
  let '(r3, e3) := run blog_alone (format_time (noon 4)) e2 in
  let '(r4, e4) := run blog_alone (format_time (noon 5)) e3 in
  r1 = Ok () ∧ r2 = Ok () ∧ r3 = Ok () ∧ r4 = Ok ()
  ∧ map eVersion (manifest_of (files e2) "blog") = ["20260802120000"; "20260803120000"]
  ∧ map eVersion (manifest_of (files e2) "shop") = ["20260802120001"]
  ∧ map eFile (manifest_of (files e3) "shop") = ["20260804120000_drop_table_orders.go"]
  ∧ map eFile (manifest_of (files e4) "shop") = ["20260805120000_drop_table_orders.go"].
Proof. vm_compute. repeat split. Qed.
