(* ===== verification/Redis.v ===== *)
(** * Redis, as the session store sees it

    [authredis] keeps its state in a Redis server and changes it only through Lua
    scripts, which the server runs one at a time.  The server is not part of the
    program: [Redis] is a database of any type with one operation,
    [redis_call], and [RedisLaws] states what the server's documentation says of
    the commands the scripts issue, key by key.  [Script] is what a script is: a
    sequence of commands at one instant of the server's clock. *)

From S2P Require Import Prelude GoStrings.

#[local] Open Scope Z_scope.

(** ** Keys and commands *)

Inductive value :=
| StringValue (s : string)
| HashValue (h : gmap string string)
| SortedSet (z : gmap string Z)
| SetValue (m : gset string).

(** What a key holds: a value and, when it has one, the instant it expires (in
    milliseconds); [None] is a missing key. *)
Abbreviation content := (option (value * option Z)).

Inductive command :=
| GET
| EXISTS
| SET_PX (v : string) (ttl : Z)
| DEL
| PEXPIRE (ttl : Z)
| PEXPIREAT (deadline : Z)
| HGET (field : string)
| HMGET (fields : list string)
| HSET (fields : list (string * string))
| HDEL (fields : list string)
| HINCRBY (field : string) (by_ : Z)
| ZADD (score : Z) (member : string)
| ZCARD
| ZREMRANGEBYSCORE (max : Z)  (** from [-inf], both ends included *)
| ZRANGE_last  (** [ZRANGE key -1 -1 WITHSCORES] *)
| SADD (member : string)
| SREM (member : string)
| SMEMBERS.

Inductive reply :=
| Nil
| Bulk (s : string)
| Integer (z : Z)
| Array (l : list (option string))
| Failure.  (** an error reply *)

(** A clock: seconds and microseconds, as [TIME] answers. *)
Definition clock : Type := Z * Z.
Definition ms_of (t : clock) : Z := t.1 * 1000 + t.2 / 1000.

(** ** What the documentation says of a command on one key *)

(** A collection of one type: a missing key reads as an empty one, a key of another
    type is the WRONGTYPE error. *)
Definition hash_of (e : content) : option (gmap string string) :=
  match e with
  | None => Some ∅
  | Some (HashValue h, _) => Some h
  | _ => None
  end.
Definition zset_of (e : content) : option (gmap string Z) :=
  match e with
  | None => Some ∅
  | Some (SortedSet z, _) => Some z
  | _ => None
  end.
Definition set_of (e : content) : option (gset string) :=
  match e with
  | None => Some ∅
  | Some (SetValue m, _) => Some m
  | _ => None
  end.

Definition deadline_of (e : content) : option Z := e ≫= snd.

(** Writing a collection keeps the key's deadline; an empty collection is a missing
    key. *)
Definition put_hash (h : gmap string string) (e : content) : content :=
  if decide (h = ∅) then None else Some (HashValue h, deadline_of e).
Definition put_zset (z : gmap string Z) (e : content) : content :=
  if decide (z = ∅) then None else Some (SortedSet z, deadline_of e).
Definition put_set (m : gset string) (e : content) : content :=
  if decide (m = ∅) then None else Some (SetValue m, deadline_of e).

Definition on_type {A} (x : option A) (e : content) (k : A → reply → content → Prop) (r : reply) (e' : content)
    : Prop :=
  match x with
  | Some a => k a r e'
  | None => r = Failure ∧ e' = e
  end.

Definition bulk (o : option string) : reply := match o with Some s => Bulk s | None => Nil end.
Definition one_if (b : bool) : reply := Integer (if b then 1 else 0).

(** [documented c t e r e']: at instant [t], on a key that holds [e], the command
    [c] replies [r] and leaves [e']. *)
Definition documented (c : command) (t : Z) (e : content) (r : reply) (e' : content) : Prop :=
  match c with
  | GET => e' = e ∧ match e with
                    | None => r = Nil
                    | Some (StringValue s, _) => r = Bulk s
                    | Some _ => r = Failure
                    end
  | EXISTS => e' = e ∧ r = one_if (bool_decide (is_Some e))
  | SET_PX v ttl =>
      if ttl <=? 0 then r = Failure ∧ e' = e
      else r = Bulk "OK" ∧ e' = Some (StringValue v, Some (t + ttl))
  | DEL => e' = None ∧ r = one_if (bool_decide (is_Some e))
  | PEXPIRE ttl =>
      match e with
      | None => r = Integer 0 ∧ e' = None
      | Some (v, _) => r = Integer 1 ∧ e' = (if ttl <=? 0 then None else Some (v, Some (t + ttl)))
      end
  | PEXPIREAT d =>
      match e with
      | None => r = Integer 0 ∧ e' = None
      | Some (v, _) => r = Integer 1 ∧ (e' = Some (v, Some d) ∨ (d <= t ∧ e' = None))
      end
  | HGET f => on_type (hash_of e) e (λ h r e', r = bulk (h !! f) ∧ e' = e) r e'
  | HMGET fs => on_type (hash_of e) e (λ h r e', r = Array (map (h !!.) fs) ∧ e' = e) r e'
  | HSET fs =>
      on_type (hash_of e) e (λ h r e',
        (∃ n, r = Integer n) ∧ e' = put_hash (foldl (λ h '(f, v), <[f := v]> h) h fs) e) r e'
  | HDEL fs =>
      on_type (hash_of e) e (λ h r e',
        (∃ n, r = Integer n) ∧ e' = put_hash (foldl (λ h f, delete f h) h fs) e) r e'
  | HINCRBY f n =>
      on_type (hash_of e) e (λ h r e',
        match Atoi (default "0" (h !! f)) with
        | Some x => r = Integer (x + n) ∧ e' = put_hash (<[f := Itoa (x + n)]> h) e
        | None => r = Failure ∧ e' = e
        end) r e'
  | ZADD score m =>
      on_type (zset_of e) e (λ z r e',
        (∃ n, r = Integer n) ∧ e' = put_zset (<[m := score]> z) e) r e'
  | ZCARD => on_type (zset_of e) e (λ z r e', r = Integer (Z.of_nat (size z)) ∧ e' = e) r e'
  | ZREMRANGEBYSCORE max =>
      on_type (zset_of e) e (λ z r e',
        (∃ n, r = Integer n) ∧ e' = put_zset (filter (λ kv, max < kv.2) z) e) r e'
  | ZRANGE_last =>
      on_type (zset_of e) e (λ z r e', e' = e ∧
        ((z = ∅ ∧ r = Array [])
         ∨ ∃ m s, z !! m = Some s ∧ r = Array [Some m; Some (Itoa s)]
                  ∧ ∀ m' s', z !! m' = Some s' → s' <= s)) r e'
  | SADD m =>
      on_type (set_of e) e (λ x r e',
        (∃ n, r = Integer n) ∧ e' = put_set (x ∪ {[m]}) e) r e'
  | SREM m =>
      on_type (set_of e) e (λ x r e',
        (∃ n, r = Integer n) ∧ e' = put_set (x ∖ {[m]}) e) r e'
  | SMEMBERS =>
      on_type (set_of e) e (λ x r e', e' = e ∧
        ∃ l, r = Array (map Some l) ∧ l ≡ₚ elements x) r e'
  end.

(** What a key holds at a later instant if nothing touched it: the documentation
    leaves the instant of the deadline itself open. *)
Definition aged (t' : Z) (e e' : content) : Prop :=
  match e with
  | Some (v, Some d) => (e' = e ∧ t' <= d) ∨ (e' = None ∧ d <= t')
  | _ => e' = e
  end.

(** ** The server *)

Class Redis (D : Type) := {
  (** what a key holds at an instant *)
  holds : D → Z → string → content;
  redis_call : command → Z → string → D → reply * D;
}.

Class RedisLaws (D : Type) `{Redis D} := {
  law_passing : ∀ d t t' k, t <= t' → aged t' (holds d t k) (holds d t' k);
  law_call : ∀ c t k d r d', redis_call c t k d = (r, d') →
    documented c t (holds d t k) r (holds d' t k);
  law_elsewhere : ∀ c t k d r d' k', redis_call c t k d = (r, d') → k' ≠ k →
    holds d' t k' = holds d t k';
}.

(** ** Scripts *)

(** An error reply raises an error, which ends the script where it stands. *)
Definition Script (D A : Type) : Type := clock → D → option A * D.

#[global] Instance script_ret {D} : MRet (Script D) := λ A a t d, (Some a, d).
#[global] Instance script_bind {D} : MBind (Script D) := λ A B f m t d,
  match m t d with
  | (Some a, d') => f a t d'
  | (None, d') => (None, d')
  end.

Definition raise {D A} : Script D A := λ t d, (None, d).
Definition TIME {D} : Script D clock := λ t d, (Some t, d).

Definition call `{Redis D} (c : command) (k : string) : Script D reply := λ t d,
  match redis_call c (ms_of t) k d with
  | (Failure, d') => (None, d')
  | (r, d') => (Some r, d')
  end.

(** Replies as the Lua values the scripts use them as; another shape would be a
    type error in the script. *)
Definition number {D} (r : reply) : Script D Z :=
  match r with Integer z => mret z | _ => raise end.
(** A missing value is [false] in Lua. *)
Definition text {D} (r : reply) : Script D (option string) :=
  match r with Bulk s => mret (Some s) | Nil => mret None | _ => raise end.
Definition table {D} (r : reply) : Script D (list (option string)) :=
  match r with Array l => mret l | _ => raise end.
(** [tonumber] of a decimal numeral, the only kind the scripts store; comparing
    the [nil] it answers otherwise is an error. *)
Definition tonumber {D} (s : option string) : Script D Z :=
  match s ≫= Atoi with Some z => mret z | None => raise end.

(** [v[i]] of a Lua table, from 1; reading past the end is [nil]. *)
Definition at_ (v : list (option string)) (i : nat) : option string := nth (i - 1) v None.
