(* ===== verification/AuthRedis.v ===== *)
(** * The session store over Redis: authredis/authredis.go

    The scripts, as the server runs them, and the methods of [Store], which compute
    keys and arguments, run a script and read its reply.

    A method is given a [World]: the database, the identity store, and for each of
    its calls in turn what happens on the way: what every other client did since
    the last call, at which instants the server ran the script (the client may
    repeat it), and whether the reply arrived.  The context a method is handed
    decides only whether replies arrive, and is left out. *)

From S2P Require Import Prelude GoStrings Sha256 AuthCore MemoryStore Auth Redis.

#[local] Open Scope Z_scope.

(** ** The scripts *)

(** [for i=1,string.len(a) do if string.byte(a,i) ~= string.byte(b,i) then
    different=1 end end]: every byte is compared. *)
Fixpoint different (x y : string) : bool :=
  match x, y with
  | String c x', String d y' => let rest := different x' y' in negb (Ascii.eqb c d) || rest
  | _, _ => false
  end.
(** [local function equal(a,b)]. *)
Definition equal (a b : option string) : bool :=
  match a, b with
  | Some x, Some y => if negb (String.length x =? String.length y)%nat then false else negb (different x y)
  | _, _ => false
  end.

Section scripts.
Context {D : Type} `{Redis D}.

Definition window : Z := 3600000.

Definition prune_window (ms : Z) (k : string) : Script D reply :=
  call (ZREMRANGEBYSCORE (ms - window)) k.
Definition card (k : string) : Script D Z := call ZCARD k ≫= number.
(** [tostring(ms)..':'..id]. *)
Definition member_of (ms : Z) (id : string) : string := Itoa ms +:+ ":" +:+ id.
(** [ZADD] and the [PEXPIRE] that follows it. *)
Definition spend (ms : Z) (k id : string) : Script D reply :=
  _ ← call (ZADD ms (member_of ms id)) k; call (PEXPIRE (window + 60000)) k.

(** [if previous and EXISTS ... then HSET ... end]. *)
Definition retire_previous (a1 : string) (previous : option string) : Script D () :=
  match previous with
  | Some previous =>
      exists_ ← call EXISTS (a1 +:+ previous) ≫= number;
      if exists_ =? 1 then _ ← call (HSET [("active", "0")]) (a1 +:+ previous); mret () else mret ()
  | None => mret ()
  end.

Definition reserveScript (k1 k2 k3 k4 a1 a2 a3 a4 a5 a6 a7 a8 : string) : Script D Z :=
  now ← TIME;
  let ms := ms_of now in
  _ ← prune_window ms k1;
  _ ← prune_window ms k2;
  byAddress ← card k1;
  full ← (if 5 <=? byAddress then mret true else bySource ← card k2; mret (20 <=? bySource));
  if full : bool then mret 2
  else
    last ← call ZRANGE_last k1 ≫= table;
    recent ← (if (length last =? 2)%nat then s ← tonumber (at_ last 2); mret (ms - s <? 60000)
              else mret false);
    if recent : bool then mret 2
    else
      _ ← call (ZADD ms (member_of ms a2)) k1;
      _ ← call (ZADD ms (member_of ms a2)) k2;
      _ ← call (PEXPIRE (window + 60000)) k1;
      _ ← call (PEXPIRE (window + 60000)) k2;
      previous ← call GET k3 ≫= text;
      _ ← retire_previous a1 previous;
      _ ← call (SET_PX a2 300000) k3;
      _ ← call (HSET [("email", a3); ("address", a4); ("key_id", a5); ("purpose", a6);
                      ("verifier", a7); ("binding", a8); ("attempts", "0"); ("active", "1")]) k4;
      _ ← call (PEXPIRE 300000) k4;
      mret 1.

Definition createBrowserStateScript (k1 k2 a1 a2 a3 : string) : Script D Z :=
  exists_ ← call EXISTS k1 ≫= number;
  if exists_ =? 1 then mret 0
  else
    now ← TIME;
    let ms := ms_of now in
    _ ← prune_window ms k2;
    n ← card k2;
    if 20 <=? n then mret 2
    else
      _ ← spend ms k2 a3;
      _ ← call (HSET [("digest", a1); ("csrf", a2)]) k1;
      _ ← call (PEXPIRE 600000) k1;
      mret 1.

Definition authenticateBrowserStateScript (k1 a1 a2 : string) : Script D Z :=
  values ← call (HMGET ["digest"; "csrf"]) k1 ≫= table;
  if equal (at_ values 1) (Some a1) && equal (at_ values 2) (Some a2) then mret 1 else mret 0.

Definition consumeBrowserStateScript (k1 a1 a2 : string) : Script D Z :=
  values ← call (HMGET ["digest"; "csrf"]) k1 ≫= table;
  if negb (equal (at_ values 1) (Some a1) && equal (at_ values 2) (Some a2)) then mret 0
  else _ ← call DEL k1; mret 1.

(** A wrong attempt: the address's failures, then the challenge's counter. *)
Definition countFailure (ms : Z) (k2 failures a2 : string) : Script D Z :=
  _ ← prune_window ms failures;
  n ← card failures;
  if 20 <=? n then mret 2
  else
    _ ← spend ms failures a2;
    attempts ← call (HINCRBY "attempts" 1) k2 ≫= number;
    _ ← (if 5 <=? attempts then call (HSET [("active", "0")]) k2 else mret Nil);
    mret 0.

(** [values[8] and tonumber(values[9]) > ms]. *)
Definition leased (ms : Z) (lease until : option string) : Script D bool :=
  match lease with
  | Some _ => u ← tonumber until; mret (ms <? u)
  | None => mret false
  end.

Definition verifyScript (k1 k2 a1 a2 a3 a4 a5 a6 a7 : string) : Script D Z :=
  now ← TIME;
  let ms := ms_of now in
  _ ← prune_window ms k1;
  n ← card k1;
  if 100 <=? n then mret 2
  else
    _ ← spend ms k1 a2;
    exists_ ← call EXISTS k2 ≫= number;
    if exists_ =? 0 then mret 0
    else
      values ← call (HMGET ["email"; "address"; "key_id"; "purpose"; "verifier"; "attempts";
                            "active"; "lease"; "lease_until"; "binding"]) k2 ≫= table;
      if negb (bool_decide (at_ values 7 = Some "1")) then mret 0
      else
        held ← leased ms (at_ values 8) (at_ values 9);
        if held : bool then mret 0
        else
          _ ← match at_ values 8 with
              | Some _ => call (HDEL ["lease"; "lease_until"]) k2
              | None => mret Nil
              end;
          if negb (equal (at_ values 1) (Some a3) && equal (at_ values 3) (Some a4)
                   && equal (at_ values 4) (Some a5) && equal (at_ values 5) (Some a6)
                   && equal (at_ values 10) (Some a7))
          then match at_ values 2 with
               | Some address => countFailure ms k2 (a1 +:+ address) a2
               | None => raise
               end
          else
            _ ← call (HSET [("lease", a2); ("lease_until", Itoa (ms + 30000))]) k2;
            mret 1.

Definition releaseLeaseScript (k1 a1 : string) : Script D Z :=
  lease ← call (HGET "lease") k1 ≫= text;
  if bool_decide (lease = Some a1)
  then _ ← call (HDEL ["lease"; "lease_until"]) k1; mret 1
  else mret 0.

Definition rejectLeaseScript (k1 a1 : string) : Script D Z :=
  lease ← call (HGET "lease") k1 ≫= text;
  if bool_decide (lease = Some a1)
  then _ ← call (HSET [("active", "0")]) k1; _ ← call (HDEL ["lease"; "lease_until"]) k1; mret 1
  else mret 0.

Definition invalidateScript (k1 : string) : Script D Z :=
  exists_ ← call EXISTS k1 ≫= number;
  if exists_ =? 1 then _ ← call (HSET [("active", "0")]) k1; mret 1 else mret 1.

Definition completeScript (k1 k2 k3 k4 a1 a2 a3 a4 a5 a6 a7 a8 : string) : Script D Z :=
  already ← call GET k2 ≫= text;
  if bool_decide (already = Some a1) then mret 1
  else
    lease ← call (HGET "lease") k1 ≫= text;
    if negb (bool_decide (lease = Some a1)) then mret 0
    else
      now ← TIME;
      let ms := ms_of now in
      duration ← tonumber (Some a8);
      _ ← call (HSET [("digest", a3); ("csrf", a4); ("identity_id", a5); ("email", a6);
                      ("identity_created", a7); ("created", Itoa ms); ("last_seen", Itoa ms);
                      ("expires", Itoa (ms + duration)); ("identity_sessions", k4)]) k3;
      _ ← call (PEXPIRE duration) k3;
      _ ← call (SADD a2) k4;
      _ ← call (PEXPIRE duration) k4;
      _ ← call (SET_PX a1 300000) k2;
      _ ← call DEL k1;
      mret 1.

(** [ms >= tonumber(expires) or ms >= tonumber(seen)+86400000]. *)
Definition session_over (ms : Z) (seen expires : option string) : Script D bool :=
  e ← tonumber expires;
  if e <=? ms then mret true
  else l ← tonumber seen; mret (l + 86400000 <=? ms).

Definition sessionScript (k1 a1 a2 : string) : Script D (list (option string)) :=
  v ← call (HMGET ["digest"; "csrf"; "identity_id"; "email"; "identity_created"; "created";
                   "last_seen"; "expires"; "identity_sessions"]) k1 ≫= table;
  if negb (equal (at_ v 1) (Some a1)) || (negb (String.eqb a2 "") && negb (equal (at_ v 2) (Some a2)))
  then mret []
  else
    now ← TIME;
    let ms := ms_of now in
    over ← session_over ms (at_ v 7) (at_ v 8);
    if over : bool then _ ← call DEL k1; mret []
    else
      _ ← call (HSET [("last_seen", Itoa ms)]) k1;
      e ← tonumber (at_ v 8);
      _ ← call (PEXPIREAT e) k1;
      mret [at_ v 3; at_ v 4; at_ v 5].

Definition revokeScript (k1 a1 a2 : string) : Script D Z :=
  values ← call (HMGET ["digest"; "identity_sessions"]) k1 ≫= table;
  if negb (equal (at_ values 1) (Some a1)) then mret 0
  else
    _ ← match at_ values 2 with
        | Some set => call (SREM (drop_bytes (String.length a2) k1)) set
        | None => mret Nil
        end;
    _ ← call DEL k1;
    mret 1.

(** [for _, id in ipairs(sessions) do redis.call('DEL', prefix..id) end]. *)
Fixpoint delete_each (a : string) (sessions : list (option string)) : Script D () :=
  match sessions with
  | Some id :: sessions' => _ ← call DEL (a +:+ id); delete_each a sessions'
  | None :: _ => raise
  | [] => mret ()
  end.

Definition revokeAllScript (k1 a1 a2 : string) : Script D Z :=
  v ← call (HMGET ["digest"; "identity_sessions"; "created"; "last_seen"; "expires"]) k1 ≫= table;
  match at_ v 1, at_ v 2 with
  | Some _, Some set =>
      if negb (equal (at_ v 1) (Some a1)) then mret 0
      else
        now ← TIME;
        let ms := ms_of now in
        over ← session_over ms (at_ v 4) (at_ v 5);
        if over : bool then _ ← call DEL k1; mret 0
        else
          sessions ← call SMEMBERS set ≫= table;
          _ ← delete_each a2 sessions;
          _ ← call DEL set;
          mret 1
  | _, _ => mret 0
  end.

Definition revokeIdentityScript (k1 a1 : string) : Script D Z :=
  sessions ← call SMEMBERS k1 ≫= table;
  _ ← delete_each a1 sessions;
  _ ← call DEL k1;
  mret 1.

End scripts.

(** ** The store *)

(** A call to the server: what others did meanwhile, when the server ran the script,
    and whether the client got the last reply. *)
Inductive delivery :=
| Answered (earlier : list clock) (t : clock)
| Lost (ts : list clock) (e : error).
Record Call (S : Type) := mkCall { meanwhile : S → S; delivered : delivery }.
Arguments mkCall {S} _ _.
Arguments meanwhile {S} _ _.
Arguments delivered {S} _.

Record World (D I : Type) := mkWorld {
  shared : D * I;  (** the database and the identity store *)
  wire : nat → Call (D * I);
  sent : nat;
}.
Arguments mkWorld {D I} _ _ _.
Arguments shared {D I} _.
Arguments wire {D I} _ _.
Arguments sent {D I} _.

Section store.
Context {D I : Type} `{Redis D, IdentityStore I}.

Definition run_script {A} (script : Script D A) (t : clock) (d : D) : option A * D := script t d.
Definition repeat_script {A} (script : Script D A) (ts : list clock) (d : D) : D :=
  foldl (λ d t, snd (run_script script t d)) d ts.

(** [script.Run(ctx, client, keys, args...)] and the decoding of its reply. *)
Definition Run {A} (script : Script D A) (w : World D I) : result error A * World D I :=
  let c := wire w (sent w) in
  let '(d, i) := meanwhile c (shared w) in
  let next d' := mkWorld (d', i) (wire w) (S (sent w)) in
  match delivered c with
  | Answered earlier t =>
      let '(r, d') := run_script script t (repeat_script script earlier d) in
      match r with
      | Some a => (Ok a, next d')
      | None => (Err (NewError "redis: script failed"), next d')
      end
  | Lost ts e => (Err e, next (repeat_script script ts d))
  end.

(** [s.identities.ResolveVerified]. *)
Definition resolve (r : IdentityResolution) (w : World D I) : result error Identity * World D I :=
  let '(d, i) := meanwhile (wire w (sent w)) (shared w) in
  let '(ans, i') := ResolveVerified r i in
  (ans, mkWorld (d, i') (wire w) (S (sent w))).

Context (prefix : string).  (** the field [prefix] of [Store] *)

Definition digest (value : string) : string := hex_encode (Sum256 (to_bytes value)).
Definition hex_digest (d : Digest) : string := hex_encode d.

Definition validSession (r : SessionRecord) : bool :=
  negb (String.eqb (session_ID r) "") && negb (session_CreatedAt r =? zero_time)
  && (session_LastSeenAt r =? session_CreatedAt r) && After (session_ExpiresAt r) (session_CreatedAt r).

Definition validEncodedID (value : string) : bool :=
  match DecodeString value with
  | Some decoded => (len value =? 43) && (length decoded =? 32)%nat
  | None => false
  end.

Definition validBrowserStateRecord (r : PreAuthRecord) : bool :=
  validEncodedID (pre_ID r) && negb (String.eqb (pre_Source r) "") && (len (pre_Source r) <=? 256)
  && negb (pre_IssuedAt r =? zero_time)
  && (Sub (pre_record_ExpiresAt r) (pre_IssuedAt r) =? 10 * Minute).

(** The names of the keys. *)
Definition browserStateKey (id : string) : string := prefix +:+ "browser-state:" +:+ id.
Definition bootstrapKey (source : string) : string := prefix +:+ "browser-bootstrap:" +:+ digest source.
Definition sendAddressKey (address : string) : string := prefix +:+ "send:address:" +:+ address.
Definition sendSourceKey (source : string) : string := prefix +:+ "send:source:" +:+ source.
Definition activeChallengeKey (purpose email : string) : string :=
  prefix +:+ "active:" +:+ digest (purpose +:+ String "000" email).
Definition challengeKey (id : string) : string := prefix +:+ "challenge:" +:+ id.
Definition verifySourceKey (source : string) : string := prefix +:+ "verify:source:" +:+ digest source.
Definition completeKey (lease : string) : string := prefix +:+ "complete:" +:+ lease.
Definition sessionKey (id : string) : string := prefix +:+ "session:" +:+ id.
Definition identitySessionsKey (identityID : string) : string :=
  prefix +:+ "identity-sessions:" +:+ digest identityID.

(** [result, err := ...Int64(); if err != nil { return err }; ...] of the methods
    that answer an error. *)
Definition on_reply {A} (r : result error A * World D I) (k : A → option error)
    : option error * World D I :=
  match r with
  | (Ok a, w) => (k a, w)
  | (Err e, w) => (Some e, w)
  end.

Definition CreatePreAuth_script (r : PreAuthRecord) : Script D Z :=
  createBrowserStateScript (browserStateKey (pre_ID r)) (bootstrapKey (pre_Source r))
    (hex_digest (pre_Digest r)) (hex_digest (pre_CSRFDigest r)) (pre_ID r).
Definition CreatePreAuth (r : PreAuthRecord) (w : World D I) : option error * World D I :=
  if negb (validBrowserStateRecord r)
  then (Some (NewError "authredis: invalid browser state record"), w)
  else on_reply (Run (CreatePreAuth_script r) w) (λ result,
    if result =? 2 then Some (Sentinel ErrRateLimited)
    else if negb (result =? 1) then Some (NewError "authredis: browser state collision")
    else None).

Definition AuthenticatePreAuth (p : PreAuthProof) (w : World D I) : option error * World D I :=
  if negb (validEncodedID (pproof_ID p)) then (Some (Sentinel ErrPreAuth), w)
  else on_reply (Run (authenticateBrowserStateScript (browserStateKey (pproof_ID p))
                   (hex_digest (pproof_Digest p)) (hex_digest (pproof_CSRFDigest p))) w)
         (λ result, if negb (result =? 1) then Some (Sentinel ErrPreAuth) else None).

Definition ConsumePreAuth (p : PreAuthProof) (w : World D I) : option error * World D I :=
  if negb (validEncodedID (pproof_ID p)) then (Some (Sentinel ErrPreAuth), w)
  else on_reply (Run (consumeBrowserStateScript (browserStateKey (pproof_ID p))
                   (hex_digest (pproof_Digest p)) (hex_digest (pproof_CSRFDigest p))) w)
         (λ result, if negb (result =? 1) then Some (Sentinel ErrPreAuth) else None).

Definition Reserve_script (r : Reservation) : Script D Z :=
  let address := digest (reservation_Email r) in
  let source := digest (reservation_Source r) in
  reserveScript (sendAddressKey address) (sendSourceKey source)
    (activeChallengeKey (reservation_Purpose r) (reservation_Email r)) (challengeKey (reservation_ID r))
    (challengeKey "") (reservation_ID r) (reservation_Email r) address (reservation_KeyID r)
    (reservation_Purpose r) (hex_digest (reservation_Verifier r)) (hex_digest (reservation_Binding r)).
Definition Reserve (r : Reservation) (w : World D I) : option error * World D I :=
  on_reply (Run (Reserve_script r) w) (λ result,
    if result =? 2 then Some (Sentinel ErrRateLimited)
    else if negb (result =? 1) then Some (NewError "authredis: invalid reserve result")
    else None).

(** The name an attempt leases a challenge under. *)
Definition lease_of (a : Verification) : string :=
  digest (session_ID (attempt_Session a) +:+ String "000" (hex_digest (session_Digest (attempt_Session a)))).

Definition Verify_script (a : Verification) : Script D Z :=
  verifyScript (verifySourceKey (attempt_Source a)) (challengeKey (attempt_ID a))
    (prefix +:+ "verify:address:") (lease_of a) (attempt_Email a) (attempt_KeyID a)
    (attempt_Purpose a) (hex_digest (attempt_Verifier a)) (hex_digest (attempt_Binding a)).
Definition Release_script (a : Verification) : Script D Z :=
  releaseLeaseScript (challengeKey (attempt_ID a)) (lease_of a).
Definition Reject_script (a : Verification) : Script D Z :=
  rejectLeaseScript (challengeKey (attempt_ID a)) (lease_of a).

(** [time.Time.UnixNano] and [Duration.Milliseconds]. *)
Definition UnixNano (t : Time) : Z := (t + 2 ^ 63) mod 2 ^ 64 - 2 ^ 63.
Definition Milliseconds (d : Duration) : Z := Z.quot d 1000000.

Definition Complete_script (a : Verification) (i : Identity) : Script D Z :=
  let session := attempt_Session a in
  let duration := Sub (session_ExpiresAt session) (session_CreatedAt session) in
  completeScript (challengeKey (attempt_ID a)) (completeKey (lease_of a))
    (sessionKey (session_ID session)) (identitySessionsKey (identity_ID i))
    (lease_of a) (session_ID session) (hex_digest (session_Digest session))
    (hex_digest (session_CSRFDigest session)) (identity_ID i) (identity_Email i)
    (Itoa (UnixNano (identity_CreatedAt i))) (Itoa (Milliseconds duration)).

(** Verify after the identity is resolved. *)
Definition complete (a : Verification) (i : Identity) (w : World D I)
    : result error Identity * World D I :=
  if negb (validSession (attempt_Session a)) then
    let '(_, w) := Run (Release_script a) w in
    (Err (NewError "authredis: invalid session record"), w)
  else
    let '(complete, w) :=
      match Run (Complete_script a i) w with
      | (Err _, w) => Run (Complete_script a i) w
      | (complete, w) => (complete, w)
      end in
    match complete with
    | Err e => (Err e, w)
    | Ok complete =>
        if negb (complete =? 1) then (Err (Sentinel ErrAuthentication), w) else (Ok i, w)
    end.

Definition Verify (a : Verification) (w : World D I) : result error Identity * World D I :=
  match Run (Verify_script a) w with
  | (Err e, w) => (Err e, w)
  | (Ok result, w) =>
      if result =? 2 then (Err (Sentinel ErrRateLimited), w)
      else if result =? 0 then (Err (Sentinel ErrAuthentication), w)
      else if negb (result =? 1) then (Err (NewError "authredis: invalid verify result"), w)
      else
        match resolve {| resolution_Email := attempt_Email a;
                         resolution_ProposedID := attempt_IdentityID a;
                         resolution_VerifiedAt := attempt_Now a |} w with
        | (Err err, w) =>
            if errors_Is err ErrAuthentication then
              match Run (Reject_script a) w with
              | (Err consumeErr, w) => (Err consumeErr, w)
              | (Ok _, w) => (Err (Sentinel ErrAuthentication), w)
              end
            else
              let '(_, w) := Run (Release_script a) w in (Err err, w)
        | (Ok identity, w) => complete a identity w
        end
  end.

Definition Invalidate (id : string) (w : World D I) : option error * World D I :=
  on_reply (Run (invalidateScript (challengeKey id)) w) (λ _, None).

Definition AuthenticateSession_script (p : SessionProof) : Script D (list (option string)) :=
  let csrf := if digest_eqb (proof_CSRFDigest p) zero_digest then "" else hex_digest (proof_CSRFDigest p) in
  sessionScript (sessionKey (proof_ID p)) (hex_digest (proof_Digest p)) csrf.

(** [StringSlice]: a nil element is an error of the client. *)
Fixpoint StringSlice (l : list (option string)) : option (list string) :=
  match l with
  | [] => Some []
  | o :: l' => s ← o; ss ← StringSlice l'; Some (s :: ss)
  end.

(** The script never answers nil, so [redis.Nil] is not among the errors. *)
Definition AuthenticateSession (p : SessionProof) (w : World D I)
    : result error Identity * World D I :=
  match Run (AuthenticateSession_script p) w with
  | (Err err, w) => (Err err, w)
  | (Ok reply, w) =>
      match StringSlice reply with
      | None => (Err (NewError "redis: unexpected type"), w)
      | Some values =>
          match values with
          | [id; email; created] =>
              if String.eqb id "" then (Err (Sentinel ErrSession), w)
              else match Atoi created with
                   | None => (Err (NewError "authredis: corrupt session identity time"), w)
                   | Some created =>
                       (Ok {| identity_ID := id; identity_Email := email;
                              identity_CreatedAt := created |}, w)
                   end
          | _ => (Err (Sentinel ErrSession), w)
          end
      end
  end.

Definition RevokeSession_script (p : SessionProof) : Script D Z :=
  revokeScript (sessionKey (proof_ID p)) (hex_digest (proof_Digest p)) (sessionKey "").
Definition RevokeSession (p : SessionProof) (w : World D I) : option error * World D I :=
  on_reply (Run (RevokeSession_script p) w)
    (λ result, if negb (result =? 1) then Some (Sentinel ErrSession) else None).

Definition RevokeAllSessions_script (p : SessionProof) : Script D Z :=
  revokeAllScript (sessionKey (proof_ID p)) (hex_digest (proof_Digest p)) (sessionKey "").
Definition RevokeAllSessions (p : SessionProof) (w : World D I) : option error * World D I :=
  on_reply (Run (RevokeAllSessions_script p) w)
    (λ result, if negb (result =? 1) then Some (Sentinel ErrSession) else None).

Definition RevokeIdentitySessions_script (identityID : string) : Script D Z :=
  revokeIdentityScript (identitySessionsKey identityID) (sessionKey "").
Definition RevokeIdentitySessions (identityID : string) (w : World D I) : option error * World D I :=
  if String.eqb identityID "" || (128 <? len identityID)
  then (Some (NewError "authredis: invalid identity ID"), w)
  else on_reply (Run (RevokeIdentitySessions_script identityID) w) (λ _, None).

(** What the service and the managers call. *)
#[global] Instance redis_sessions : SessionStore (World D I) := {|
  store_AuthenticateSession := λ _, AuthenticateSession;
  store_RevokeSession := λ _, RevokeSession;
  store_RevokeAllSessions := λ _, RevokeAllSessions;
  store_RevokeIdentitySessions := λ _, RevokeIdentitySessions;
|}.
#[global] Instance redis_store : Store (World D I) := {|
  store_Reserve := λ _ _, Reserve; store_Verify := λ _ _, Verify;
  store_Invalidate := λ _, Invalidate;
|}.
#[global] Instance redis_preauth : PreAuthStore (World D I) := {|
  store_CreatePreAuth := λ _ _, CreatePreAuth;
  store_AuthenticatePreAuth := λ _, AuthenticatePreAuth;
  store_ConsumePreAuth := λ _, ConsumePreAuth;
|}.

End store.

(** ** Construction *)

Definition defaultPrefix : string := "fabrin:auth:v1:".
(** [WithPrefix prefix] applied to the settings, whose one field is the prefix. *)
Definition WithPrefix (prefix : string) (_ : string) : string := prefix.

Definition validPrefix (value : string) : bool :=
  negb ((len value =? 0) || (128 <? len value))
  && forallb (λ '(r, _),
       negb (((r <? 97) || (122 <? r)) && ((r <? 65) || (90 <? r)) && ((r <? 48) || (57 <? r))
             && negb (r =? 58) && negb (r =? 95) && negb (r =? 45) && negb (r =? 46))) (runes value).

Fixpoint apply_prefix (i : nat) (options : list (option (string → string))) (config : string)
    : result error string :=
  match options with
  | [] => Ok config
  | None :: _ => Err (NewError ("authredis: option " +:+ Itoa (Z.of_nat i) +:+ " is nil"))
  | Some option :: options' => apply_prefix (S i) options' (option config)
  end.

Section construction.
(** [url.Parse]: the scheme and the host; and the client library's own parser. *)
Context (url_Parse : string → option (string * string)) (redis_ParseURL : string → option error).

(** The store's prefix; [identities] says whether an identity store was given. *)
Definition New (redisURL : string) (identities : bool) (options : list (option (string → string)))
    : result error string :=
  if negb identities then Err (NewError "authredis: identity store is required")
  else
    match url_Parse redisURL with
    | Some (scheme, host) =>
        if (negb (String.eqb scheme "redis") && negb (String.eqb scheme "rediss")) || String.eqb host ""
        then Err (NewError "authredis: valid redis:// or rediss:// URL is required")
        else
          config ← apply_prefix 0 options defaultPrefix;
          if negb (validPrefix config)
          then Err (NewError "authredis: prefix must contain 1-128 safe ASCII characters")
          else
            let config := if negb (HasSuffix config ":") then config +:+ ":" else config in
            match redis_ParseURL redisURL with
            | Some err => Err (Wrapped "authredis: parse URL" err)
            | None => Ok config
            end
    | None => Err (NewError "authredis: valid redis:// or rediss:// URL is required")
    end.
End construction.

(** [ping] is what the client's ping answered. *)
Definition Ping (ping : option error) : option error := Wrapped "authredis: ping" <$> ping.
