(* ===== verification/RedisSpec.v ===== *)
(** * Reasoning about scripts

    A logic for scripts over any server that satisfies [RedisLaws]: [spec m t f Q]
    says that [m], run at instant [t] on a database whose keys hold [f], ends with
    an answer and contents that satisfy [Q].  One rule per construct, and derived
    rules for the commands on a key of the type the scripts keep there. *)

From S2P Require Import Prelude GoStrings Redis.

#[local] Open Scope Z_scope.

(** ** Contents *)

(** A client names its keys by the values of a type [K], injectively. *)
Class KeyNames (K : Type) := {
  key_eq_dec :: EqDecision K;
  key_name : K → string;
  key_name_inj :: Inj (=) (=) key_name;
}.

Section contents.
Context {K : Type} `{KeyNames K}.

Definition upd (k : K) (e : content) (f : K → content) : K → content :=
  λ k', if decide (k' = k) then e else f k'.

Lemma upd_eq k e f : upd k e f k = e.
Proof. unfold upd. by rewrite decide_True. Qed.
Lemma upd_ne k k' e f : k' ≠ k → upd k e f k' = f k'.
Proof. intros. unfold upd. by rewrite decide_False. Qed.
Lemma upd_same k e f k' : e = f k → upd k e f k' = f k'.
Proof. intros ->. unfold upd. case_decide; by subst. Qed.
End contents.

(** What the client's keys hold at an instant. *)
Definition view `{KeyNames K, Redis D} (d : D) (t : Z) (f : K → content) : Prop :=
  ∀ k, holds d t (key_name k) = f k.

Section logic.
Context {K D : Type} `{KeyNames K} `{RedisLaws D}.
Implicit Types (k : K) (f : K → content).
Abbreviation contents := (K → content).

Definition spec {A} (m : Script D A) (t : clock) (f : contents)
    (Q : option A → contents → Prop) : Prop :=
  ∀ d, view d (ms_of t) f → ∃ f', view (snd (m t d)) (ms_of t) f' ∧ Q (fst (m t d)) f'.

Lemma spec_mono {A} (m : Script D A) t f (P Q : option A → contents → Prop) :
  spec m t f P → (∀ r f', P r f' → Q r f') → spec m t f Q.
Proof. intros Hs HPQ d Hd. destruct (Hs d Hd) as (f' & ? & ?). eauto. Qed.

Lemma spec_ret {A} (a : A) t f (Q : option A → contents → Prop) : Q (Some a) f → spec (mret a) t f Q.
Proof. intros HQ d Hd. exists f. by split. Qed.

Lemma spec_raise {A} t f (Q : option A → contents → Prop) : Q None f → spec raise t f Q.
Proof. intros HQ d Hd. exists f. by split. Qed.

Lemma spec_bind {A B} (m : Script D A) (k : A → Script D B) t f (Q : option B → contents → Prop) :
  spec m t f (λ r f', match r with Some a => spec (k a) t f' Q | None => Q None f' end) →
  spec (m ≫= k) t f Q.
Proof.
  intros Hm d Hd. destruct (Hm d Hd) as (f1 & Hv & Hk). unfold mbind, script_bind.
  destruct (m t d) as [[a|] d1]; cbn in *; [by apply Hk|]. by exists f1.
Qed.

Lemma spec_TIME t f (Q : option clock → contents → Prop) : Q (Some t) f → spec TIME t f Q.
Proof. intros HQ d Hd. exists f. by split. Qed.

Lemma spec_call c k t f (Q : option reply → contents → Prop) :
  (∀ r e, documented c (ms_of t) (f k) r e →
     Q (match r with Failure => None | _ => Some r end) (upd k e f)) →
  spec (call c (key_name k)) t f Q.
Proof using All.
  intros HQ d Hd. unfold call. destruct (redis_call c (ms_of t) (key_name k) d) as [r d'] eqn:E.
  pose proof (law_call _ _ _ _ _ _ E) as Hdoc. rewrite Hd in Hdoc.
  assert (Hv : view d' (ms_of t) (upd k (holds d' (ms_of t) (key_name k)) f)).
  { intros k'. unfold upd. case_decide as Hk; [by subst|].
    rewrite (law_elsewhere _ _ _ _ _ _ _ E), Hd; [done|]. by intros ?%(inj key_name). }
  specialize (HQ r _ Hdoc). exists (upd k (holds d' (ms_of t) (key_name k)) f). destruct r; by split.
Qed.

(** From a specification to an execution. *)
Lemma spec_run {A} (m : Script D A) t f Q d r d' :
  spec m t f Q → view d (ms_of t) f → m t d = (r, d') →
  ∃ f', view d' (ms_of t) f' ∧ Q r f'.
Proof. intros Hs Hd E. destruct (Hs d Hd) as (f' & ? & ?). rewrite E in *. eauto. Qed.

(** Only what the keys hold matters. *)
Lemma spec_start {A} (m : Script D A) t f f' (Q : option A → contents → Prop) :
  (∀ k, f k = f' k) → spec m t f Q → spec m t f' Q.
Proof. intros E Hs d Hd. apply Hs. intros k. by rewrite E. Qed.

Lemma spec_ext {A} (m : Script D A) t f (Q : option A → contents → Prop) :
  spec m t f (λ r f', ∃ f'', (∀ k, f' k = f'' k) ∧ Q r f'') → spec m t f Q.
Proof.
  intros Hs d Hd. destruct (Hs d Hd) as (f' & Hv & f'' & He & HQ).
  exists f''. split; [|done]. intros k. by rewrite Hv.
Qed.

Lemma spec_read c k t f (Q : option reply → contents → Prop) :
  (∀ r e, documented c (ms_of t) (f k) r e →
     e = f k ∧ Q (match r with Failure => None | _ => Some r end) f) →
  spec (call c (key_name k)) t f Q.
Proof using All.
  intros HQ. apply spec_ext, spec_call. intros r e [-> HQ']%HQ.
  exists f. split; [|done]. intros k'. by apply upd_same.
Qed.

(** ** Reads *)

Lemma spec_GET k t f (Q : option (option string) → contents → Prop) :
  match f k with
  | None => Q (Some None) f
  | Some (StringValue s, _) => Q (Some (Some s)) f
  | _ => Q None f
  end → spec (call GET (key_name k) ≫= text) t f Q.
Proof using All.
  intros HQ. apply spec_bind, spec_read. intros r e [-> Hr]. split; [done|].
  destruct (f k) as [[[] ?]|]; subst r; by first [done | apply spec_ret].
Qed.

Lemma spec_EXISTS k t f (Q : option Z → contents → Prop) :
  Q (Some (match f k with Some _ => 1 | None => 0 end)) f → spec (call EXISTS (key_name k) ≫= number) t f Q.
Proof using All.
  intros HQ. apply spec_bind, spec_read. intros r e [-> ->]. split; [done|].
  apply spec_ret. destruct (f k) as [x|]; [by rewrite bool_decide_true|].
  by rewrite bool_decide_false by (by intros [? ?]).
Qed.

Lemma spec_HGET fd k t f h (Q : option (option string) → contents → Prop) :
  hash_of (f k) = Some h → Q (Some (h !! fd)) f → spec (call (HGET fd) (key_name k) ≫= text) t f Q.
Proof using All.
  intros Hh HQ. apply spec_bind, spec_read. intros r e. cbn. rewrite Hh. intros [-> ->]. split; [done|].
  destruct (h !! fd); by apply spec_ret.
Qed.

Lemma spec_HMGET fds k t f h (Q : option (list (option string)) → contents → Prop) :
  hash_of (f k) = Some h → Q (Some (map (h !!.) fds)) f → spec (call (HMGET fds) (key_name k) ≫= table) t f Q.
Proof using All.
  intros Hh HQ. apply spec_bind, spec_read. intros r e. cbn. rewrite Hh. intros [-> ->]. split; [done|].
  by apply spec_ret.
Qed.

Lemma spec_ZCARD k t f z (Q : option Z → contents → Prop) :
  zset_of (f k) = Some z → Q (Some (Z.of_nat (size z))) f → spec (call ZCARD (key_name k) ≫= number) t f Q.
Proof using All.
  intros Hz HQ. apply spec_bind, spec_read. intros r e. cbn. rewrite Hz. intros [-> ->]. split; [done|].
  by apply spec_ret.
Qed.

Lemma spec_ZRANGE k t f z (Q : option (list (option string)) → contents → Prop) :
  zset_of (f k) = Some z → (z = ∅ → Q (Some []) f) →
  (∀ m s, z !! m = Some s → (∀ m' s', z !! m' = Some s' → s' <= s) → Q (Some [Some m; Some (Itoa s)]) f) →
  spec (call ZRANGE_last (key_name k) ≫= table) t f Q.
Proof using All.
  intros Hz Hemp Hlast. apply spec_bind, spec_read. intros r e. cbn. rewrite Hz.
  intros [-> [[-> ->]|(m & s & Hm & -> & Hmax)]]; (split; [done|]; apply spec_ret; eauto).
Qed.

Lemma spec_SMEMBERS k t f m (Q : option (list (option string)) → contents → Prop) :
  set_of (f k) = Some m → (∀ l, l ≡ₚ elements m → Q (Some (map Some l)) f) →
  spec (call SMEMBERS (key_name k) ≫= table) t f Q.
Proof using All.
  intros Hm HQ. apply spec_bind, spec_read. intros r e. cbn. rewrite Hm.
  intros (-> & l & -> & Hl). split; [done|]. apply spec_ret. eauto.
Qed.

Lemma spec_tonumber z t f (Q : option Z → contents → Prop) :
  - 2 ^ 63 <= z < 2 ^ 63 → Q (Some z) f → spec (tonumber (Some (Itoa z))) t f Q.
Proof.
  intros Hz HQ. unfold tonumber. cbn -[Itoa Atoi]. rewrite Atoi_Itoa by lia. by apply spec_ret.
Qed.

(** ** Writes *)

Lemma spec_HSET fvs k t f h (Q : option reply → contents → Prop) :
  hash_of (f k) = Some h →
  (∀ n, Q (Some (Integer n)) (upd k (put_hash (foldl (λ h '(fd, v), <[fd := v]> h) h fvs) (f k)) f)) →
  spec (call (HSET fvs) (key_name k)) t f Q.
Proof using All. intros Hh HQ. apply spec_call. intros r e. cbn. rewrite Hh. intros [[n ->] ->]. apply HQ. Qed.

Lemma spec_HDEL fds k t f h (Q : option reply → contents → Prop) :
  hash_of (f k) = Some h →
  (∀ n, Q (Some (Integer n)) (upd k (put_hash (foldl (λ h fd, delete fd h) h fds) (f k)) f)) →
  spec (call (HDEL fds) (key_name k)) t f Q.
Proof using All. intros Hh HQ. apply spec_call. intros r e. cbn. rewrite Hh. intros [[n ->] ->]. apply HQ. Qed.

Lemma spec_HINCRBY fd n x k t f h (Q : option Z → contents → Prop) :
  hash_of (f k) = Some h → h !! fd = Some (Itoa x) → - 2 ^ 63 <= x < 2 ^ 63 →
  Q (Some (x + n)) (upd k (put_hash (<[fd := Itoa (x + n)]> h) (f k)) f) →
  spec (call (HINCRBY fd n) (key_name k) ≫= number) t f Q.
Proof using All.
  intros Hh Hx Hr HQ. apply spec_bind, spec_call. intros r e. cbn -[Itoa Atoi].
  rewrite Hh. cbn -[Itoa Atoi]. rewrite Hx. cbn -[Itoa Atoi]. rewrite Atoi_Itoa by lia. intros [-> ->]. by apply spec_ret.
Qed.

Lemma spec_DEL k t f (Q : option reply → contents → Prop) :
  (∀ n, Q (Some (Integer n)) (upd k None f)) → spec (call DEL (key_name k)) t f Q.
Proof using All. intros HQ. apply spec_call. intros r e [-> ->]. apply HQ. Qed.

Lemma spec_SET_PX v ttl k t f (Q : option reply → contents → Prop) :
  0 < ttl → Q (Some (Bulk "OK")) (upd k (Some (StringValue v, Some (ms_of t + ttl))) f) →
  spec (call (SET_PX v ttl) (key_name k)) t f Q.
Proof using All.
  intros Ht HQ. apply spec_call. intros r e. unfold documented. rewrite (proj2 (Z.leb_gt _ _) Ht).
  by intros [-> ->].
Qed.

(** [PEXPIRE] with a positive time to live. *)
Definition expiring (d : Z) (e : content) : content := match e with Some (v, _) => Some (v, Some d) | None => None end.

Lemma spec_PEXPIRE ttl k t f (Q : option reply → contents → Prop) :
  0 < ttl → (∀ n, Q (Some (Integer n)) (upd k (expiring (ms_of t + ttl) (f k)) f)) →
  spec (call (PEXPIRE ttl) (key_name k)) t f Q.
Proof using All.
  intros Ht HQ. apply spec_call. intros r e. unfold documented. rewrite (proj2 (Z.leb_gt _ _) Ht).
  destruct (f k) as [[v d]|]; intros [-> ->]; apply HQ.
Qed.

Lemma spec_PEXPIREAT d k t f (Q : option reply → contents → Prop) :
  ms_of t < d → (∀ n, Q (Some (Integer n)) (upd k (expiring d (f k)) f)) →
  spec (call (PEXPIREAT d) (key_name k)) t f Q.
Proof using All.
  intros Ht HQ. apply spec_call. intros r e. unfold documented.
  destruct (f k) as [[v d']|]; [intros (-> & [->|[? _]]); [|lia]|intros [-> ->]]; apply HQ.
Qed.

Lemma spec_SADD m k t f x (Q : option reply → contents → Prop) :
  set_of (f k) = Some x → (∀ n, Q (Some (Integer n)) (upd k (put_set (x ∪ {[m]}) (f k)) f)) →
  spec (call (SADD m) (key_name k)) t f Q.
Proof using All. intros Hh HQ. apply spec_call. intros r e. cbn. rewrite Hh. intros [[n ->] ->]. apply HQ. Qed.

Lemma spec_SREM m k t f x (Q : option reply → contents → Prop) :
  set_of (f k) = Some x → (∀ n, Q (Some (Integer n)) (upd k (put_set (x ∖ {[m]}) (f k)) f)) →
  spec (call (SREM m) (key_name k)) t f Q.
Proof using All. intros Hh HQ. apply spec_call. intros r e. cbn. rewrite Hh. intros [[n ->] ->]. apply HQ. Qed.

Lemma spec_ZADD s m k t f z (Q : option reply → contents → Prop) :
  zset_of (f k) = Some z → (∀ n, Q (Some (Integer n)) (upd k (put_zset (<[m := s]> z) (f k)) f)) →
  spec (call (ZADD s m) (key_name k)) t f Q.
Proof using All. intros Hh HQ. apply spec_call. intros r e. cbn. rewrite Hh. intros [[n ->] ->]. apply HQ. Qed.

Lemma spec_ZREM max k t f z (Q : option reply → contents → Prop) :
  zset_of (f k) = Some z →
  (∀ n, Q (Some (Integer n)) (upd k (put_zset (filter (λ kv, max < kv.2) z) (f k)) f)) →
  spec (call (ZREMRANGEBYSCORE max) (key_name k)) t f Q.
Proof using All. intros Hh HQ. apply spec_call. intros r e. cbn. rewrite Hh. intros [[n ->] ->]. apply HQ. Qed.

End logic.
