(* ===== verification/AuthRedisSpec.v ===== *)
(** * The Redis store: what each script does

    The keys of the store as a type, the shape of what they hold, and the effect of
    every script on a database in that shape: none of them ever fails there, and
    all of them keep it. *)

From S2P Require Import Prelude GoStrings Sha256 AuthCore MemoryStore Auth Redis RedisSpec AuthRedis.

#[local] Open Scope Z_scope.

(** ** Keys *)

Inductive slot :=
| BrowserState (id : string) | Bootstrap (source : string)
| SendAddress (address : string) | SendSource (source : string)
| ActiveOf (mailbox : string) | ChallengeOf (id : string)
| VerifySource (source : string) | VerifyAddress (address : string)
| CompletedBy (lease : string)
| SessionOf (id : string) | SessionsOf (identity : string).

#[global] Instance slot_eq_dec : EqDecision slot.
Proof. solve_decision. Defined.

Definition slot_key (prefix : string) (s : slot) : string :=
  prefix +:+ match s with
  | BrowserState id => "browser-state:" +:+ id
  | Bootstrap source => "browser-bootstrap:" +:+ source
  | SendAddress address => "send:address:" +:+ address
  | SendSource source => "send:source:" +:+ source
  | ActiveOf mailbox => "active:" +:+ mailbox
  | ChallengeOf id => "challenge:" +:+ id
  | VerifySource source => "verify:source:" +:+ source
  | VerifyAddress address => "verify:address:" +:+ address
  | CompletedBy lease => "complete:" +:+ lease
  | SessionOf id => "session:" +:+ id
  | SessionsOf identity => "identity-sessions:" +:+ identity
  end.

#[global] Instance slot_key_inj prefix : Inj (=) (=) (slot_key prefix).
Proof.
  intros s1 s2 E%(inj (String.append prefix)).
  destruct s1, s2; try discriminate E; injection E as ->; done.
Qed.

Definition slots (prefix : string) : KeyNames slot := {| key_name := slot_key prefix |}.

(** ** Instants *)

(** The server's clock in the range where Lua prints and compares milliseconds
    exactly (until the year 5138). *)
Definition clock_ok (t : clock) : Prop := 0 <= ms_of t < 10 ^ 14.

(** The lifetime every session is issued with, in milliseconds. *)
Definition session_ttl : Z := 604800000.

(** ** Shapes *)

Definition is_hash (e : content) : Prop := is_Some (hash_of e).
Definition is_set (e : content) : Prop := is_Some (set_of e).

Definition instant (z : Z) : Prop := 0 <= z < 2 * 10 ^ 14.
(** A sliding window: a sorted set of instants. *)
Definition is_zset (e : content) : Prop :=
  ∃ z, zset_of e = Some z ∧ map_Forall (λ _, instant) z.

Record challenge_shape (h : gmap string string) : Prop := {
  shape_attempts : ∃ n, h !! "attempts" = Some (Itoa n) ∧ 0 <= n <= 5
                        ∧ (h !! "active" = Some "1" → n < 5);
  shape_address : is_Some (h !! "address");
  shape_lease : is_Some (h !! "lease") → ∃ u, h !! "lease_until" = Some (Itoa u) ∧ instant u;
}.

Record session_shape (prefix : string) (h : gmap string string) (d : Z) : Prop := {
  shape_expires : h !! "expires" = Some (Itoa d) ∧ instant d;
  shape_seen : ∃ l, h !! "last_seen" = Some (Itoa l) ∧ instant l;
  shape_sessions : ∃ g, h !! "identity_sessions" = Some (slot_key prefix (SessionsOf g));
}.

Definition slot_ok (prefix : string) (s : slot) (e : content) : Prop :=
  match s with
  | BrowserState _ => is_hash e
  | Bootstrap _ | SendAddress _ | SendSource _ | VerifySource _ | VerifyAddress _ => is_zset e
  | ActiveOf _ => ∀ v d, e = Some (v, d) → ∃ x, v = StringValue x
  | CompletedBy l => ∀ v d, e = Some (v, d) → v = StringValue l
  | ChallengeOf _ => ∀ v d, e = Some (v, d) → ∃ h, v = HashValue h ∧ challenge_shape h
  | SessionOf _ => ∀ v d, e = Some (v, d) →
      ∃ h x, v = HashValue h ∧ d = Some x ∧ session_shape prefix h x
  | SessionsOf _ => is_set e
  end.

(** ** What limiters do *)

Definition zset (e : content) : gmap string Z := default ∅ (zset_of e).
Definition pruned (ms : Z) (e : content) : content :=
  put_zset (filter (λ kv, ms - window < kv.2) (zset e)) e.
Definition spent_on (ms : Z) (id : string) (e : content) : content :=
  Some (SortedSet (<[member_of ms id := ms]> (zset e)), Some (ms + window + 60000)).

Lemma zset_put z e : zset (put_zset z e) = z.
Proof. unfold zset, put_zset. by case_decide; subst. Qed.
Lemma zset_pruned ms e : zset (pruned ms e) = filter (λ kv, ms - window < kv.2) (zset e).
Proof. apply zset_put. Qed.
Lemma is_zset_put z e : zset_of (put_zset z e) = Some z.
Proof. unfold put_zset. by case_decide; subst. Qed.
Lemma is_zset_eq e : is_zset e → zset_of e = Some (zset e).
Proof. intros (z & Hz & _). unfold zset. by rewrite Hz. Qed.
Lemma zset_instants e : is_zset e → map_Forall (λ _, instant) (zset e).
Proof. intros (z & Hz & Hi). unfold zset. by rewrite Hz. Qed.
Lemma is_zset_pruned ms e : is_zset e → is_zset (pruned ms e).
Proof.
  intros He%zset_instants. eexists. split; [apply is_zset_put|].
  intros m x [Hx _]%map_lookup_filter_Some. by eapply He.
Qed.
Lemma is_zset_spent ms id e : instant ms → is_zset e → is_zset (spent_on ms id e).
Proof. intros Hm He%zset_instants. eexists. split; [done|]. by apply map_Forall_insert_2. Qed.

Lemma hash_put h e : h ≠ ∅ → hash_of (put_hash h e) = Some h ∧ put_hash h e = Some (HashValue h, deadline_of e).
Proof. intros. unfold put_hash. by rewrite decide_False. Qed.

Lemma insert_nonempty (h : gmap string string) f v : <[f := v]> h ≠ ∅.
Proof. apply insert_non_empty. Qed.
#[export] Hint Resolve insert_nonempty : fabrin.

(** Reads of an updated store. *)
Ltac look := repeat first [rewrite upd_eq | rewrite upd_ne by congruence].
Ltac look_in H := repeat first [rewrite upd_eq in H | rewrite upd_ne in H by congruence].

Section effects.
Context {D : Type} `{RedisLaws D} (prefix : string).
#[local] Instance names : KeyNames slot := slots prefix.
Implicit Types (f : slot → content) (t : clock).

Lemma spec_prune ms k t f (Q : option reply → (slot → content) → Prop) :
  is_zset (f k) → (∀ n, Q (Some (Integer n)) (upd k (pruned ms (f k)) f)) →
  spec (prune_window ms (key_name k)) t f Q.
Proof using All. intros Hz HQ. unfold prune_window. eapply spec_ZREM; [by apply is_zset_eq|done]. Qed.

Lemma spec_card k t f (Q : option Z → (slot → content) → Prop) :
  is_zset (f k) → Q (Some (Z.of_nat (size (zset (f k))))) f → spec (card (key_name k)) t f Q.
Proof using All. intros Hz HQ. unfold card. eapply spec_ZCARD; [by apply is_zset_eq|done]. Qed.

Lemma spec_spend id k t f (Q : option reply → (slot → content) → Prop) :
  is_zset (f k) → (∀ n, Q (Some (Integer n)) (upd k (spent_on (ms_of t) id (f k)) f)) →
  spec (spend (ms_of t) (key_name k) id) t f Q.
Proof using All.
  intros Hz HQ. apply spec_ext. unfold spend. apply spec_bind. eapply spec_ZADD; [by apply is_zset_eq|].
  intros n. apply spec_PEXPIRE; [done|]. intros m. eexists. split; [|apply (HQ m)].
  intros k'. unfold upd. case_decide; [|done]. rewrite decide_True by done.
  unfold put_zset. rewrite decide_False by apply insert_non_empty. unfold spent_on, expiring.
  by rewrite Z.add_assoc.
Qed.

Definition slots_ok (f : slot → content) : Prop := ∀ s, slot_ok prefix s (f s).

Lemma slots_ext f f' : (∀ k, f' k = f k) → slots_ok f → slots_ok f'.
Proof. intros E Hf k. rewrite E. apply Hf. Qed.
Lemma slots_upd k e f : slots_ok f → slot_ok prefix k e → slots_ok (upd k e f).
Proof. intros Hf He k'. unfold upd. case_decide; by subst. Qed.

(** A key that holds nothing has every shape. *)
Lemma missing_ok k : slot_ok prefix k None.
Proof.
  destruct k; cbn; try done; first [by eexists | exists ∅; split; [done|apply map_Forall_empty]].
Qed.

Definition challenge_at f (id : string) : gmap string string := default ∅ (hash_of (f (ChallengeOf id))).
Definition session_at f (id : string) : gmap string string := default ∅ (hash_of (f (SessionOf id))).
Definition browser_at f (id : string) : gmap string string := default ∅ (hash_of (f (BrowserState id))).

Lemma challenge_hash f id : slots_ok f → hash_of (f (ChallengeOf id)) = Some (challenge_at f id).
Proof.
  intros Hf. specialize (Hf (ChallengeOf id)). unfold challenge_at. cbn in Hf.
  destruct (f (ChallengeOf id)) as [[v d]|]; [|done]. destruct (Hf v d eq_refl) as (h & -> & _). done.
Qed.
Lemma session_hash f id : slots_ok f → hash_of (f (SessionOf id)) = Some (session_at f id).
Proof.
  intros Hf. specialize (Hf (SessionOf id)). unfold session_at. cbn in Hf.
  destruct (f (SessionOf id)) as [[v d]|]; [|done]. destruct (Hf v d eq_refl) as (h & x & -> & _ & _). done.
Qed.
Lemma browser_hash f id : slots_ok f → hash_of (f (BrowserState id)) = Some (browser_at f id).
Proof. intros Hf. destruct (Hf (BrowserState id)) as [h Hh]. unfold browser_at. by rewrite Hh. Qed.

(** A challenge that is there, and what it holds. *)
Lemma challenge_there f id v d :
  slots_ok f → f (ChallengeOf id) = Some (v, d) →
  v = HashValue (challenge_at f id) ∧ challenge_shape (challenge_at f id).
Proof.
  intros Hf E. destruct (Hf (ChallengeOf id) v d E) as (h & -> & Hs).
  unfold challenge_at. by rewrite E.
Qed.

(** ** Challenges: release, reject, invalidate *)

(** A hash whose shape the script's writes keep. *)
Definition rewritten (id : string) (h : gmap string string) f : slot → content :=
  upd (ChallengeOf id) (Some (HashValue h, deadline_of (f (ChallengeOf id)))) f.

Lemma rewritten_ok id h f : slots_ok f → challenge_shape h → slots_ok (rewritten id h f).
Proof. intros Hf Hh. apply slots_upd; [done|]. cbn. intros v d [= <- <-]. by exists h. Qed.

Definition unleased (h : gmap string string) : gmap string string := delete "lease_until" (delete "lease" h).
Definition disabled (h : gmap string string) : gmap string string := <["active" := "0"]> h.

Lemma unleased_shape h : challenge_shape h → challenge_shape (unleased h).
Proof.
  intros [Ha Hd Hl]. unfold unleased.
  split; [by rewrite !lookup_delete_ne by done|by rewrite !lookup_delete_ne by done|].
  rewrite lookup_delete_ne, lookup_delete_eq by done. by intros [].
Qed.
Lemma disabled_shape h : challenge_shape h → challenge_shape (disabled h).
Proof.
  intros [(n & Hn & Hb & _) Hd Hl]. unfold disabled. split; [|by rewrite !lookup_insert_ne..].
  exists n. rewrite lookup_insert_ne, lookup_insert_eq by done. by repeat (split; [done|]).
Qed.

Lemma shape_nonempty h : challenge_shape h → h ≠ ∅.
Proof. intros [_ [x Hx] _] ->. by rewrite lookup_empty in Hx. Qed.

Lemma put_challenge h e : challenge_shape h → put_hash h e = Some (HashValue h, deadline_of e).
Proof. intros Hh%shape_nonempty. by apply hash_put. Qed.

(** A lease is held on a challenge that is there. *)
Lemma lease_there f id x :
  slots_ok f → challenge_at f id !! "lease" = Some x → challenge_shape (challenge_at f id).
Proof.
  intros Hf Hx. destruct (f (ChallengeOf id)) as [[v d]|] eqn:E.
  - by eapply challenge_there.
  - unfold challenge_at in Hx. rewrite E in Hx. cbn in Hx. by rewrite lookup_empty in Hx.
Qed.

Lemma rewritten_hash id h f : hash_of (rewritten id h f (ChallengeOf id)) = Some h.
Proof. unfold rewritten. by rewrite upd_eq. Qed.
Lemma rewritten_twice id h h' f k : rewritten id h' (rewritten id h f) k = rewritten id h' f k.
Proof. unfold rewritten, upd. repeat case_decide; done. Qed.

(** [HSET] and [HDEL] on a challenge. *)
Lemma spec_challenge_HSET id fvs t f (Q : option reply → (slot → content) → Prop) :
  slots_ok f → let h' := foldl (λ h '(fd, v), <[fd := v]> h) (challenge_at f id) fvs in
  challenge_shape h' → (∀ n, Q (Some (Integer n)) (rewritten id h' f)) →
  spec (call (HSET fvs) (key_name (ChallengeOf id))) t f Q.
Proof using All.
  intros Hf h' Hs HQ. eapply spec_HSET; [by apply challenge_hash|]. fold h'. by rewrite put_challenge.
Qed.
Lemma spec_challenge_HDEL id fds t f (Q : option reply → (slot → content) → Prop) :
  slots_ok f → let h' := foldl (λ h fd, delete fd h) (challenge_at f id) fds in
  challenge_shape h' → (∀ n, Q (Some (Integer n)) (rewritten id h' f)) →
  spec (call (HDEL fds) (key_name (ChallengeOf id))) t f Q.
Proof using All.
  intros Hf h' Hs HQ. eapply spec_HDEL; [by apply challenge_hash|]. fold h'. by rewrite put_challenge.
Qed.

Definition release_post (id l : string) f (o : option Z) (f' : slot → content) : Prop :=
    (o = Some 0 ∧ f' = f)
    ∨ o = Some 1 ∧ challenge_at f id !! "lease" = Some l ∧ challenge_shape (challenge_at f id)
      ∧ f' = rewritten id (unleased (challenge_at f id)) f.

Lemma release_effect id l t f :
  slots_ok f → spec (releaseLeaseScript (key_name (ChallengeOf id)) l) t f (release_post id l f).
Proof using All. unfold release_post.
  intros Hf. unfold releaseLeaseScript. apply spec_bind. eapply spec_HGET; [by apply challenge_hash|].
  case_bool_decide as Hl; [|by apply spec_ret; left].
  pose proof (lease_there _ _ _ Hf Hl) as Hs.
  apply spec_bind, spec_challenge_HDEL; [done|by apply unleased_shape|]. intros n.
  apply spec_ret. by right.
Qed.

Definition reject_post (id l : string) f (o : option Z) (f' : slot → content) : Prop :=
    (o = Some 0 ∧ f' = f)
    ∨ o = Some 1 ∧ challenge_at f id !! "lease" = Some l ∧ challenge_shape (challenge_at f id)
      ∧ ∀ k, f' k = rewritten id (unleased (disabled (challenge_at f id))) f k.

Lemma reject_effect id l t f :
  slots_ok f → spec (rejectLeaseScript (key_name (ChallengeOf id)) l) t f (reject_post id l f).
Proof using All. unfold reject_post.
  intros Hf. unfold rejectLeaseScript. apply spec_bind. eapply spec_HGET; [by apply challenge_hash|].
  case_bool_decide as Hl; [|by apply spec_ret; left].
  pose proof (lease_there _ _ _ Hf Hl) as Hs.
  apply spec_bind, spec_challenge_HSET; [done|by apply disabled_shape|]. intros n. cbn [foldl].
  assert (Hf' : slots_ok (rewritten id (disabled (challenge_at f id)) f))
    by (apply rewritten_ok, disabled_shape; done).
  assert (Hc : challenge_at (rewritten id (disabled (challenge_at f id)) f) id = disabled (challenge_at f id))
    by (unfold challenge_at at 1; by rewrite rewritten_hash).
  fold (disabled (challenge_at f id)).
  apply spec_bind, spec_challenge_HDEL; [done|cbn [foldl]; rewrite Hc; by apply unleased_shape, disabled_shape|].
  intros m. apply spec_ret. right. split_and!; [done..|]. intros k. cbn [foldl]. rewrite Hc. apply rewritten_twice.
Qed.

Definition invalidate_post (id : string) f (o : option Z) (f' : slot → content) : Prop :=
    o = Some 1 ∧ (f (ChallengeOf id) = None ∧ f' = f
                  ∨ challenge_shape (challenge_at f id)
                    ∧ f' = rewritten id (disabled (challenge_at f id)) f).

Lemma invalidate_effect id t f :
  slots_ok f → spec (invalidateScript (key_name (ChallengeOf id))) t f (invalidate_post id f).
Proof using All. unfold invalidate_post.
  intros Hf. unfold invalidateScript. apply spec_bind, spec_EXISTS.
  destruct (f (ChallengeOf id)) as [[v d]|] eqn:E; cbn [Z.eqb Pos.eqb].
  - destruct (challenge_there _ _ _ _ Hf E) as [_ Hs].
    apply spec_bind, spec_challenge_HSET; [done|by apply disabled_shape|]. intros n.
    apply spec_ret. by eauto.
  - apply spec_ret. by eauto.
Qed.

(** ** Sessions *)

Lemma equal_eqb x y : equal (Some x) (Some y) = String.eqb x y.
Proof.
  revert y. induction x as [|c x IH]; intros [|d y]; cbn in *; [done..|].
  rewrite <-IH. destruct (Ascii.eqb c d); cbn; [done|]. by destruct (_ =? _)%nat.
Qed.
Lemma equal_some x a : equal x (Some a) = bool_decide (x = Some a).
Proof.
  destruct x as [x|]; [rewrite equal_eqb|by rewrite bool_decide_false].
  destruct (String.eqb_spec x a) as [->|Hne]; [by rewrite bool_decide_true|].
  rewrite bool_decide_false; [done|]. by intros [= ->].
Qed.

Definition members f (g : string) : gset string := default ∅ (set_of (f (SessionsOf g))).
Lemma members_set f g : slots_ok f → set_of (f (SessionsOf g)) = Some (members f g).
Proof. intros Hf. destruct (Hf (SessionsOf g)) as [m Hm]. unfold members. by rewrite Hm. Qed.

(** A session that is there, and its deadline. *)
Lemma session_there f id v d :
  slots_ok f → f (SessionOf id) = Some (v, d) →
  ∃ x, v = HashValue (session_at f id) ∧ d = Some x ∧ session_shape prefix (session_at f id) x.
Proof.
  intros Hf E. destruct (Hf (SessionOf id) v d E) as (h & x & -> & -> & Hs).
  exists x. unfold session_at. by rewrite E.
Qed.
Lemma session_field f id fd x :
  slots_ok f → session_at f id !! fd = Some x →
  ∃ d, f (SessionOf id) = Some (HashValue (session_at f id), Some d)
       ∧ session_shape prefix (session_at f id) d.
Proof.
  intros Hf Hx. destruct (f (SessionOf id)) as [[v d]|] eqn:E.
  - destruct (session_there _ _ _ _ Hf E) as (y & -> & -> & Hs). eauto.
  - unfold session_at in Hx. rewrite E in Hx. cbn in Hx. by rewrite lookup_empty in Hx.
Qed.

(** What [complete] writes into a session. *)
Definition session_fields (h : gmap string string) (ms : Z) (digest csrf identity email created sessions : string)
    : gmap string string :=
  foldl (λ h '(fd, v), <[fd := v]> h) h
    [("digest", digest); ("csrf", csrf); ("identity_id", identity); ("email", email);
     ("identity_created", created); ("created", Itoa ms); ("last_seen", Itoa ms);
     ("expires", Itoa (ms + session_ttl)); ("identity_sessions", sessions)].

Definition completed (ms : Z) (c l s g a3 a4 a5 a6 a7 : string) f : slot → content :=
  upd (ChallengeOf c) None
    (upd (CompletedBy l) (Some (StringValue l, Some (ms + 300000)))
      (upd (SessionsOf g) (Some (SetValue (members f g ∪ {[s]}), Some (ms + session_ttl)))
        (upd (SessionOf s)
           (Some (HashValue (session_fields (session_at f s) ms a3 a4 a5 a6 a7 (slot_key prefix (SessionsOf g))),
                  Some (ms + session_ttl))) f))).

Lemma put_member x m e : put_set (x ∪ {[m]}) e = Some (SetValue (x ∪ {[m]}), deadline_of e).
Proof. unfold put_set. rewrite decide_False; [done|]. clear. set_solver. Qed.

Definition complete_post (c l s g a3 a4 a5 a6 a7 : string) t f (o : option Z) (f' : slot → content) : Prop :=
    (o = Some 1 ∧ is_Some (f (CompletedBy l)) ∧ f' = f)
    ∨ (o = Some 0 ∧ challenge_at f c !! "lease" ≠ Some l ∧ f' = f)
    ∨ o = Some 1 ∧ f (CompletedBy l) = None ∧ challenge_at f c !! "lease" = Some l
      ∧ ∀ k, f' k = completed (ms_of t) c l s g a3 a4 a5 a6 a7 f k.

Lemma complete_effect c l s g a3 a4 a5 a6 a7 t f :
  slots_ok f → clock_ok t →
  spec (completeScript (key_name (ChallengeOf c)) (key_name (CompletedBy l)) (key_name (SessionOf s))
          (key_name (SessionsOf g)) l s a3 a4 a5 a6 a7 (Itoa session_ttl)) t f (complete_post c l s g a3 a4 a5 a6 a7 t f).
Proof using All. unfold complete_post.
  intros Hf Ht. unfold completeScript. apply spec_bind, spec_GET.
  pose proof (Hf (CompletedBy l)) as Hc. cbn in Hc.
  destruct (f (CompletedBy l)) as [[v d]|] eqn:El.
  { rewrite (Hc v d eq_refl). rewrite bool_decide_true by done. apply spec_ret. left. by split_and!. }
  rewrite bool_decide_false by done.
  apply spec_bind. eapply spec_HGET; [by apply challenge_hash|].
  case_bool_decide as Hl; cbn [negb]; [|apply spec_ret; by right; left].
  apply spec_bind, spec_TIME, spec_bind, spec_tonumber; [done|].
  apply spec_bind. eapply spec_HSET; [by apply session_hash|]. intros _.
  cbn [foldl]. rewrite (proj2 (hash_put _ _ (insert_non_empty _ _ _))).
  apply spec_bind, spec_PEXPIRE; [done|]. intros _. rewrite upd_eq. cbn [expiring].
  apply spec_bind. eapply spec_SADD; [look; by apply members_set|]. intros _. rewrite put_member.
  apply spec_bind, spec_PEXPIRE; [done|]. intros _. look. cbn [expiring].
  apply spec_bind, spec_SET_PX; [done|]. apply spec_bind, spec_DEL. intros _.
  apply spec_ret. right. right. split_and!; [done..|]. intros k.
  unfold completed, upd. repeat (case_decide; [done|]). done.
Qed.

Lemma session_over_spec t f h d (Q : option bool → (slot → content) → Prop) :
  clock_ok t → session_shape prefix h d →
  (∀ l, h !! "last_seen" = Some (Itoa l) → instant l →
     Q (Some ((d <=? ms_of t) || (l + 86400000 <=? ms_of t))) f) →
  spec (session_over (ms_of t) (h !! "last_seen") (h !! "expires")) t f Q.
Proof using All.
  intros Ht [[He Hd] (l & Hl & Hi) _] HQ. unfold instant in *. unfold session_over. rewrite He, Hl.
  apply spec_bind, spec_tonumber; [lia|]. specialize (HQ l Hl Hi).
  destruct (d <=? ms_of t); [by apply spec_ret|].
  apply spec_bind, spec_tonumber; [lia|]. by apply spec_ret.
Qed.

(** The credentials a session is asked for. *)
Definition credentials f (s a1 a2 : string) : Prop :=
  session_at f s !! "digest" = Some a1 ∧ (a2 = "" ∨ session_at f s !! "csrf" = Some a2).

Definition seen (ms d : Z) (s : string) f : slot → content :=
  upd (SessionOf s) (Some (HashValue (<["last_seen" := Itoa ms]> (session_at f s)), Some d)) f.

Definition session_post (s a1 a2 : string) t f (o : option (list (option string))) (f' : slot → content) : Prop :=
    (o = Some [] ∧ ¬ credentials f s a1 a2 ∧ f' = f)
    ∨ ∃ d l, credentials f s a1 a2 ∧ f (SessionOf s) = Some (HashValue (session_at f s), Some d)
        ∧ session_at f s !! "last_seen" = Some (Itoa l) ∧ instant l
        ∧ if (d <=? ms_of t) || (l + 86400000 <=? ms_of t)
          then o = Some [] ∧ f' = upd (SessionOf s) None f
          else o = Some [session_at f s !! "identity_id"; session_at f s !! "email";
                         session_at f s !! "identity_created"]
               ∧ ∀ k, f' k = seen (ms_of t) d s f k.

Lemma session_effect s a1 a2 t f :
  slots_ok f → clock_ok t →
  spec (sessionScript (key_name (SessionOf s)) a1 a2) t f (session_post s a1 a2 t f).
Proof using All. unfold session_post.
  intros Hf Ht. unfold sessionScript. apply spec_bind. eapply spec_HMGET; [by apply session_hash|].
  cbn [map at_ nth Nat.sub]. unfold at_. cbn [nth Nat.sub]. rewrite !equal_some.
  destruct (bool_decide (session_at f s !! "digest" = Some a1)) eqn:Hd; cbn [negb orb].
  2: { apply spec_ret. left. split_and!; [done| |done]. intros [? _]. by apply bool_decide_eq_false in Hd. }
  apply bool_decide_eq_true in Hd.
  destruct (negb (String.eqb a2 "") && negb (bool_decide (session_at f s !! "csrf" = Some a2))) eqn:Hc.
  { apply andb_true_iff in Hc as [Hn Hc]. apply spec_ret. left. split_and!; [done| |done].
    intros [_ [->|Hx]]; [done|]. by rewrite bool_decide_true in Hc. }
  assert (Hcred : credentials f s a1 a2).
  { split; [done|]. apply andb_false_iff in Hc as [Hc|Hc]; apply negb_false_iff in Hc.
    - left. by apply String.eqb_eq.
    - right. by apply bool_decide_eq_true in Hc. }
  destruct (session_field _ _ _ _ Hf Hd) as (d & E & Hs).
  apply spec_bind, spec_TIME, spec_bind. eapply session_over_spec; [done|done|]. intros l Hl Hi.
  destruct ((d <=? ms_of t) || (l + 86400000 <=? ms_of t)) eqn:Ho.
  { apply spec_bind, spec_DEL. intros _. apply spec_ret. right. exists d, l. rewrite Ho. by split_and!. }
  apply spec_bind. eapply spec_HSET; [by apply session_hash|]. intros _. cbn [foldl].
  rewrite (proj2 (hash_put _ _ (insert_non_empty _ _ _))).
  rewrite (proj1 (shape_expires _ _ _ Hs)). apply orb_false_iff in Ho as Hoo. destruct Hoo as [Hlt%Z.leb_gt _].
  pose proof (proj2 (shape_expires _ _ _ Hs)) as Hin. unfold instant in Hin.
  apply spec_bind, spec_tonumber; [lia|].
  apply spec_bind, spec_PEXPIREAT; [done|]. intros _. apply spec_ret. right.
  exists d, l. rewrite Ho. split_and!; [done..|]. intros k. unfold seen, upd. by repeat case_decide.
Qed.

(** ** Revocations *)

Lemma drop_bytes_app a b : drop_bytes (String.length a) (a +:+ b) = b.
Proof. by induction a. Qed.

Lemma session_key_app id : slot_key prefix (SessionOf "") +:+ id = slot_key prefix (SessionOf id).
Proof. unfold slot_key. by rewrite !string_app_assoc. Qed.

Definition revoked (s g : string) f : slot → content :=
  upd (SessionOf s) None (upd (SessionsOf g) (put_set (members f g ∖ {[s]}) (f (SessionsOf g))) f).

Definition revoke_post (s a1 : string) f (o : option Z) (f' : slot → content) : Prop :=
    (o = Some 0 ∧ session_at f s !! "digest" ≠ Some a1 ∧ f' = f)
    ∨ o = Some 1 ∧ session_at f s !! "digest" = Some a1
      ∧ ∃ g, session_at f s !! "identity_sessions" = Some (slot_key prefix (SessionsOf g))
             ∧ f' = revoked s g f.

Lemma revoke_effect s a1 t f :
  slots_ok f →
  spec (revokeScript (key_name (SessionOf s)) a1 (key_name (SessionOf ""))) t f (revoke_post s a1 f).
Proof using All. unfold revoke_post.
  intros Hf. unfold revokeScript. apply spec_bind. eapply spec_HMGET; [by apply session_hash|].
  cbn [map]. unfold at_. cbn [nth Nat.sub]. rewrite equal_some.
  case_bool_decide as Hd; cbn [negb]; [|apply spec_ret; by left].
  destruct (session_field _ _ _ _ Hf Hd) as (d & E & [_ _ [g Hg]]). rewrite Hg.
  assert (Hdrop : drop_bytes (String.length (key_name (SessionOf ""))) (key_name (SessionOf s)) = s).
  { change (drop_bytes (String.length (slot_key prefix (SessionOf ""))) (slot_key prefix (SessionOf s)) = s).
    rewrite <-(session_key_app s). apply drop_bytes_app. }
  rewrite Hdrop. change (call (SREM s) (slot_key prefix (SessionsOf g))) with (call (SREM s) (key_name (SessionsOf g))).
  apply spec_bind. eapply spec_SREM; [by apply members_set|]. intros _.
  apply spec_bind, spec_DEL. intros _. apply spec_ret. right. split_and!; [done..|]. by exists g.
Qed.

(** The sessions in [l] deleted. *)
Definition without (l : gset string) f : slot → content := λ k,
  match k with
  | SessionOf id => if decide (id ∈ l) then None else f k
  | _ => f k
  end.

Lemma delete_each_effect l t f :
  spec (delete_each (key_name (SessionOf "")) (map Some l)) t f (λ o f',
    o = Some () ∧ ∀ k, f' k = without (list_to_set l) f k).
Proof using All.
  revert f. induction l as [|id l IH]; intros f; cbn [map delete_each].
  - apply spec_ret. split; [done|]. intros []; cbn; done.
  - change (key_name (SessionOf "")) with (slot_key prefix (SessionOf "")). rewrite session_key_app.
    change (slot_key prefix (SessionOf id)) with (key_name (SessionOf id)).
    apply spec_bind, spec_DEL. intros _.
    eapply spec_mono; [apply IH|]. cbn. intros o f' [-> Hf']. split; [done|].
    intros k. rewrite Hf'. destruct k; cbn; look; try done.
    destruct (decide (SessionOf id0 = SessionOf id)) as [[= ->]|Hne]; look.
    + rewrite (decide_True _ _ (P := id ∈ {[id]} ∪ _)) by (clear; set_solver). by case_decide.
    + apply decide_ext. assert (id0 ≠ id) by congruence. clear -H1. set_solver.
Qed.

Definition all_revoked (g : string) f : slot → content :=
  upd (SessionsOf g) None (without (members f g) f).

Lemma delete_members_effect g (ret : Z) t f :
  slots_ok f →
  spec (sessions ← call SMEMBERS (key_name (SessionsOf g)) ≫= table;
        _ ← delete_each (key_name (SessionOf "")) sessions;
        _ ← call DEL (key_name (SessionsOf g)); mret ret) t f
    (λ o f', o = Some ret ∧ ∀ k, f' k = all_revoked g f k).
Proof using All.
  intros Hf. apply spec_bind. eapply spec_SMEMBERS; [by apply members_set|]. intros l Hl.
  apply spec_bind. eapply spec_mono; [apply delete_each_effect|]. intros o f' [-> Hf'].
  apply spec_bind, spec_DEL. intros _. apply spec_ret. split; [done|]. intros k.
  unfold all_revoked, upd. case_decide; [done|]. rewrite Hf'.
  assert (E : list_to_set l = members f g).
  { apply set_eq. intros x. rewrite elem_of_list_to_set, Hl. apply elem_of_elements. }
  by rewrite E.
Qed.

Definition revokeIdentity_post (g : string) f (o : option Z) (f' : slot → content) : Prop :=
   o = Some 1 ∧ ∀ k, f' k = all_revoked g f k.

Lemma revokeIdentity_effect g t f :
  slots_ok f →
  spec (revokeIdentityScript (key_name (SessionsOf g)) (key_name (SessionOf ""))) t f
    (revokeIdentity_post g f).
Proof using All. unfold revokeIdentity_post. apply delete_members_effect. Qed.

Definition revokeAll_post (s a1 : string) t f (o : option Z) (f' : slot → content) : Prop :=
    (o = Some 0 ∧ session_at f s !! "digest" ≠ Some a1 ∧ f' = f)
    ∨ ∃ d l g, session_at f s !! "digest" = Some a1
        ∧ f (SessionOf s) = Some (HashValue (session_at f s), Some d)
        ∧ session_at f s !! "last_seen" = Some (Itoa l) ∧ instant l
        ∧ session_at f s !! "identity_sessions" = Some (slot_key prefix (SessionsOf g))
        ∧ if (d <=? ms_of t) || (l + 86400000 <=? ms_of t)
          then o = Some 0 ∧ f' = upd (SessionOf s) None f
          else o = Some 1 ∧ ∀ k, f' k = all_revoked g f k.

Lemma revokeAll_effect s a1 t f :
  slots_ok f → clock_ok t →
  spec (revokeAllScript (key_name (SessionOf s)) a1 (key_name (SessionOf ""))) t f (revokeAll_post s a1 t f).
Proof using All. unfold revokeAll_post.
  intros Hf Ht. unfold revokeAllScript. apply spec_bind. eapply spec_HMGET; [by apply session_hash|].
  cbn [map]. unfold at_. cbn [nth Nat.sub].
  destruct (session_at f s !! "digest") as [x|] eqn:Hd; [|by apply spec_ret; left].
  destruct (session_field _ _ _ _ Hf Hd) as (d & E & Hs).
  destruct (shape_sessions _ _ _ Hs) as [g Hg]. rewrite Hg, equal_some.
  case_bool_decide as Hx; cbn [negb]; [|by apply spec_ret; left]. injection Hx as ->.
  apply spec_bind, spec_TIME, spec_bind. eapply session_over_spec; [done|done|]. intros l Hl Hi.
  destruct ((d <=? ms_of t) || (l + 86400000 <=? ms_of t)) eqn:Ho.
  - apply spec_bind, spec_DEL. intros _. apply spec_ret. right. exists d, l, g. rewrite Ho. by split_and!.
  - eapply spec_mono; [by apply (delete_members_effect g 1)|]. intros o f' [-> Hf']. right.
    exists d, l, g. rewrite Ho. by split_and!.
Qed.

(** ** Browser states *)

Definition browser_match f (id a1 a2 : string) : Prop :=
  browser_at f id !! "digest" = Some a1 ∧ browser_at f id !! "csrf" = Some a2.

Lemma match_spec f id a1 a2 :
  equal (browser_at f id !! "digest") (Some a1) && equal (browser_at f id !! "csrf") (Some a2) = true
  ↔ browser_match f id a1 a2.
Proof. by rewrite !equal_some, andb_true_iff, !bool_decide_eq_true. Qed.

Definition authenticate_post (id a1 a2 : string) f (o : option Z) (f' : slot → content) : Prop :=
   f' = f ∧
    (o = Some 1 ∧ browser_match f id a1 a2 ∨ o = Some 0 ∧ ¬ browser_match f id a1 a2).

Lemma authenticate_effect id a1 a2 t f :
  slots_ok f →
  spec (authenticateBrowserStateScript (key_name (BrowserState id)) a1 a2) t f (authenticate_post id a1 a2 f).
Proof using All. unfold authenticate_post.
  intros Hf. apply spec_bind. eapply spec_HMGET; [by apply browser_hash|].
  cbn [map]. unfold at_. cbn [nth Nat.sub]. pose proof (match_spec f id a1 a2) as Hm.
  destruct (_ && _); apply spec_ret; (split; [done|]); naive_solver.
Qed.

Definition consume_post (id a1 a2 : string) f (o : option Z) (f' : slot → content) : Prop :=
    o = Some 0 ∧ ¬ browser_match f id a1 a2 ∧ f' = f
    ∨ o = Some 1 ∧ browser_match f id a1 a2 ∧ f' = upd (BrowserState id) None f.

Lemma consume_effect id a1 a2 t f :
  slots_ok f →
  spec (consumeBrowserStateScript (key_name (BrowserState id)) a1 a2) t f (consume_post id a1 a2 f).
Proof using All. unfold consume_post.
  intros Hf. apply spec_bind. eapply spec_HMGET; [by apply browser_hash|].
  cbn [map]. unfold at_. cbn [nth Nat.sub]. pose proof (match_spec f id a1 a2) as Hm.
  destruct (_ && _); cbn [negb]; [|apply spec_ret; left; naive_solver].
  apply spec_bind, spec_DEL. intros _. apply spec_ret. right. naive_solver.
Qed.

Definition bootstrapped (ms : Z) (id s a1 a2 : string) f : slot → content :=
  upd (BrowserState id) (Some (HashValue (<["csrf" := a2]> (<["digest" := a1]> ∅)), Some (ms + 600000)))
    (upd (Bootstrap s) (spent_on ms id (pruned ms (f (Bootstrap s)))) f).

Definition create_post (id s a1 a2 : string) t f (o : option Z) (f' : slot → content) : Prop :=
    (o = Some 0 ∧ is_Some (f (BrowserState id)) ∧ f' = f)
    ∨ (o = Some 2 ∧ 20 <= Z.of_nat (size (zset (pruned (ms_of t) (f (Bootstrap s)))))
       ∧ f' = upd (Bootstrap s) (pruned (ms_of t) (f (Bootstrap s))) f)
    ∨ (o = Some 1 ∧ f (BrowserState id) = None
       ∧ Z.of_nat (size (zset (pruned (ms_of t) (f (Bootstrap s))))) < 20
       ∧ ∀ k, f' k = bootstrapped (ms_of t) id s a1 a2 f k).

Lemma create_effect id s a1 a2 t f :
  slots_ok f → clock_ok t →
  spec (createBrowserStateScript (key_name (BrowserState id)) (key_name (Bootstrap s)) a1 a2 id) t f (create_post id s a1 a2 t f).
Proof using All. unfold create_post.
  intros Hf Ht. unfold createBrowserStateScript. apply spec_bind, spec_EXISTS.
  destruct (f (BrowserState id)) as [e|] eqn:E; cbn [Z.eqb Pos.eqb]; [apply spec_ret; by eauto|].
  pose proof (Hf (Bootstrap s)) as Hz. cbn in Hz.
  apply spec_bind, spec_TIME, spec_bind, spec_prune; [done|]. intros _.
  apply spec_bind, spec_card; [look; by apply is_zset_pruned|]. look.
  destruct (Z.leb_spec 20 (Z.of_nat (size (zset (pruned (ms_of t) (f (Bootstrap s)))))));
    [apply spec_ret; by eauto|].
  apply spec_bind, spec_spend; [look; by apply is_zset_pruned|]. intros _. look.
  apply spec_bind. eapply spec_HSET; [look; by rewrite E|]. intros _. cbn [foldl].
  rewrite (proj2 (hash_put _ _ (insert_non_empty _ _ _))).
  apply spec_bind, spec_PEXPIRE; [done|]. intros _. look. cbn [expiring].
  apply spec_ret. right. right. split_and!; [done..|]. intros k.
  unfold bootstrapped, upd. repeat case_decide; done.
Qed.

(** ** Reserving a challenge *)

Lemma challenge_key_app id : slot_key prefix (ChallengeOf "") +:+ id = slot_key prefix (ChallengeOf id).
Proof. unfold slot_key. by rewrite !string_app_assoc. Qed.

(** The challenge the mailbox had before loses its [active] mark. *)
Definition retired (previous : option string) f : slot → content :=
  match previous with
  | Some p => match f (ChallengeOf p) with
              | Some _ => rewritten p (disabled (challenge_at f p)) f
              | None => f
              end
  | None => f
  end.

Lemma retired_ok previous f : slots_ok f → slots_ok (retired previous f).
Proof.
  intros Hf. destruct previous as [p|]; [|done]. cbn.
  destruct (f (ChallengeOf p)) as [[v d]|] eqn:E; [|done].
  apply rewritten_ok; [done|]. by eapply disabled_shape, challenge_there.
Qed.
Lemma retired_other previous f k :
  match k with ChallengeOf _ => False | _ => True end → retired previous f k = f k.
Proof.
  intros Hk. destruct previous as [p|]; [|done]. cbn. destruct (f (ChallengeOf p)); [|done].
  unfold rewritten. apply upd_ne. by intros ->.
Qed.

Lemma retire_effect previous t f :
  slots_ok f →
  spec (retire_previous (key_name (ChallengeOf "")) previous) t f (λ o f',
    o = Some () ∧ f' = retired previous f).
Proof using All.
  intros Hf. destruct previous as [p|]; cbn [retire_previous]; [|by apply spec_ret].
  change (key_name (ChallengeOf "")) with (slot_key prefix (ChallengeOf "")). rewrite challenge_key_app.
  change (slot_key prefix (ChallengeOf p)) with (key_name (ChallengeOf p)).
  apply spec_bind, spec_EXISTS. cbn [retired].
  destruct (f (ChallengeOf p)) as [[v d]|] eqn:E; cbn [Z.eqb Pos.eqb]; [|by apply spec_ret].
  destruct (challenge_there _ _ _ _ Hf E) as [_ Hs].
  apply spec_bind, spec_challenge_HSET; [done|by apply disabled_shape|]. intros _. by apply spec_ret.
Qed.

Definition reserved_fields (h : gmap string string) (a3 a4 a5 a6 a7 a8 : string) : gmap string string :=
  foldl (λ h '(fd, v), <[fd := v]> h) h
    [("email", a3); ("address", a4); ("key_id", a5); ("purpose", a6);
     ("verifier", a7); ("binding", a8); ("attempts", "0"); ("active", "1")].

Lemma reserved_shape h a3 a4 a5 a6 a7 a8 :
  (is_Some (h !! "lease") → ∃ u, h !! "lease_until" = Some (Itoa u) ∧ instant u) →
  challenge_shape (reserved_fields h a3 a4 a5 a6 a7 a8).
Proof.
  intros Hl. unfold reserved_fields. cbn [foldl]. split.
  - exists 0. split; [|done]. by simplify_map_eq.
  - by simplify_map_eq.
  - by simplify_map_eq.
Qed.

Definition counted (ms : Z) (a s id : string) f : slot → content :=
  upd (SendSource s) (spent_on ms id (pruned ms (f (SendSource s))))
    (upd (SendAddress a) (spent_on ms id (pruned ms (f (SendAddress a)))) f).
Definition previous_of f (m : string) : option string :=
  match f (ActiveOf m) with Some (StringValue p, _) => Some p | _ => None end.

Definition reserved (ms : Z) (a s m id a3 a5 a6 a7 a8 : string) f : slot → content :=
  let f2 := retired (previous_of f m) (counted ms a s id f) in
  upd (ChallengeOf id)
    (Some (HashValue (reserved_fields (challenge_at f2 id) a3 a a5 a6 a7 a8), Some (ms + 300000)))
    (upd (ActiveOf m) (Some (StringValue id, Some (ms + 300000))) f2).

Definition budget_left (ms limit : Z) (e : content) : Prop := Z.of_nat (size (zset (pruned ms e))) < limit.
#[global] Instance budget_left_dec ms limit e : Decision (budget_left ms limit e).
Proof. unfold budget_left. apply _. Defined.

Lemma lease_until_ok f id :
  slots_ok f → is_Some (challenge_at f id !! "lease") →
  ∃ u, challenge_at f id !! "lease_until" = Some (Itoa u) ∧ instant u.
Proof. intros Hf [x Hx]. apply (shape_lease _ (lease_there _ _ _ Hf Hx)). by exists x. Qed.

Lemma counted_ok ms a s id f : instant ms → slots_ok f → slots_ok (counted ms a s id f).
Proof.
  intros Hi Hf. unfold counted.
  apply slots_upd; [apply slots_upd; [done|]|]; apply is_zset_spent, is_zset_pruned; try done.
  - apply (Hf (SendAddress a)).
  - apply (Hf (SendSource s)).
Qed.

Lemma clock_instant t : clock_ok t → instant (ms_of t).
Proof. unfold clock_ok, instant. lia. Qed.

(** The part of the script after the budgets let it through. *)
Lemma reserve_accepted a s m id a3 a5 a6 a7 a8 t f f1 (Q : option Z → (slot → content) → Prop) :
  slots_ok f → clock_ok t →
  (∀ k, f1 k = upd (SendSource s) (pruned (ms_of t) (f (SendSource s)))
                 (upd (SendAddress a) (pruned (ms_of t) (f (SendAddress a))) f) k) →
  (∀ f', (∀ k, f' k = reserved (ms_of t) a s m id a3 a5 a6 a7 a8 f k) → Q (Some 1) f') →
  spec (_ ← call (ZADD (ms_of t) (member_of (ms_of t) id)) (key_name (SendAddress a));
        _ ← call (ZADD (ms_of t) (member_of (ms_of t) id)) (key_name (SendSource s));
        _ ← call (PEXPIRE (window + 60000)) (key_name (SendAddress a));
        _ ← call (PEXPIRE (window + 60000)) (key_name (SendSource s));
        previous ← call GET (key_name (ActiveOf m)) ≫= text;
        _ ← retire_previous (key_name (ChallengeOf "")) previous;
        _ ← call (SET_PX id 300000) (key_name (ActiveOf m));
        _ ← call (HSET [("email", a3); ("address", a); ("key_id", a5); ("purpose", a6);
                        ("verifier", a7); ("binding", a8); ("attempts", "0"); ("active", "1")])
              (key_name (ChallengeOf id));
        _ ← call (PEXPIRE 300000) (key_name (ChallengeOf id));
        mret 1) t f1 Q.
Proof using All.
  intros Hf Ht H1 HQ.
  assert (Ha : is_zset (f1 (SendAddress a))).
  { rewrite H1. look. apply is_zset_pruned, (Hf (SendAddress a)). }
  assert (Hs : is_zset (f1 (SendSource s))).
  { rewrite H1. look. apply is_zset_pruned, (Hf (SendSource s)). }
  apply spec_bind. eapply spec_ZADD; [by apply is_zset_eq|]. intros _.
  apply spec_bind. eapply spec_ZADD; [look; by apply is_zset_eq|]. intros _.
  apply spec_bind, spec_PEXPIRE; [done|]. intros _. apply spec_bind, spec_PEXPIRE; [done|]. intros _. look.
  unfold put_zset. rewrite !decide_False by apply insert_non_empty. cbn [expiring].
  apply (spec_start _ _ (counted (ms_of t) a s id f)).
  { intros k. unfold counted, upd. repeat case_decide; subst; try done; rewrite ?H1; look; try done;
      unfold spent_on; by rewrite Z.add_assoc. }
  assert (Hc : slots_ok (counted (ms_of t) a s id f)) by (apply counted_ok, Hf; by apply clock_instant).
  apply spec_bind, spec_GET. unfold counted at 1. look.
  assert (Hprev : match f (ActiveOf m) with
                  | None => previous_of f m = None
                  | Some (StringValue p, _) => previous_of f m = Some p
                  | _ => False
                  end).
  { pose proof (Hf (ActiveOf m)) as Hm. cbn in Hm. unfold previous_of.
    destruct (f (ActiveOf m)) as [[v d]|]; [|done]. by destruct (Hm v d eq_refl) as [x ->]. }
  assert (Hrest : spec (_ ← retire_previous (key_name (ChallengeOf "")) (previous_of f m);
      _ ← call (SET_PX id 300000) (key_name (ActiveOf m));
      _ ← call (HSET [("email", a3); ("address", a); ("key_id", a5); ("purpose", a6);
                      ("verifier", a7); ("binding", a8); ("attempts", "0"); ("active", "1")])
            (key_name (ChallengeOf id));
      _ ← call (PEXPIRE 300000) (key_name (ChallengeOf id)); mret 1) t (counted (ms_of t) a s id f) Q).
  { apply spec_bind. eapply spec_mono; [by apply retire_effect|]. intros o f' [-> ->].
    pose proof (retired_ok (previous_of f m) _ Hc) as Hr.
    apply spec_bind, spec_SET_PX; [done|].
    apply spec_bind. eapply spec_HSET; [look; by apply challenge_hash|]. intros _.
    rewrite put_challenge by by apply reserved_shape, lease_until_ok.
    apply spec_bind, spec_PEXPIRE; [done|]. intros _. look. cbn [expiring]. apply spec_ret, HQ.
    intros k. unfold reserved, upd. repeat case_decide; done. }
  destruct (f (ActiveOf m)) as [[[] ?]|]; try done; by rewrite Hprev in Hrest.
Qed.

(** Whether the last send to the address is too recent. *)
Definition too_soon (ms : Z) (e : content) : Prop :=
  ∃ m s, zset (pruned ms e) !! m = Some s ∧ ms - s < 60000.

Definition reserve_post (a s m id a3 a5 a6 a7 a8 : string) t f (o : option Z) (f' : slot → content) : Prop :=
    let refused := ¬ budget_left (ms_of t) 5 (f (SendAddress a))
                   ∨ ¬ budget_left (ms_of t) 20 (f (SendSource s))
                   ∨ too_soon (ms_of t) (f (SendAddress a)) in
    (o = Some 2 ∧ refused
     ∧ f' = upd (SendSource s) (pruned (ms_of t) (f (SendSource s)))
              (upd (SendAddress a) (pruned (ms_of t) (f (SendAddress a))) f))
    ∨ (o = Some 1 ∧ ¬ refused ∧ ∀ k, f' k = reserved (ms_of t) a s m id a3 a5 a6 a7 a8 f k).

Lemma reserve_effect a s m id a3 a5 a6 a7 a8 t f :
  slots_ok f → clock_ok t →
  spec (reserveScript (key_name (SendAddress a)) (key_name (SendSource s)) (key_name (ActiveOf m))
          (key_name (ChallengeOf id)) (key_name (ChallengeOf "")) id a3 a a5 a6 a7 a8) t f (reserve_post a s m id a3 a5 a6 a7 a8 t f).
Proof using All. unfold reserve_post.
  intros Hf Ht. unfold reserveScript.
  pose proof (is_zset_pruned (ms_of t) _ (Hf (SendAddress a))) as Ha.
  pose proof (is_zset_pruned (ms_of t) _ (Hf (SendSource s))) as Hs.
  apply spec_bind, spec_TIME, spec_bind, spec_prune; [apply (Hf (SendAddress a))|]. intros _.
  apply spec_bind, spec_prune; [look; apply (Hf (SendSource s))|]. intros _. look.
  apply spec_bind, spec_card; [by look|]. look. apply spec_bind.
  destruct (Z.leb_spec 5 (Z.of_nat (size (zset (pruned (ms_of t) (f (SendAddress a))))))) as [H5|H5].
  { apply spec_ret, spec_ret. left. split_and!; [done|left|done]. unfold budget_left. lia. }
  apply spec_bind, spec_card; [by look|]. look. apply spec_ret.
  destruct (Z.leb_spec 20 (Z.of_nat (size (zset (pruned (ms_of t) (f (SendSource s))))))) as [H20|H20].
  { apply spec_ret. left. split_and!; [done|right; left|done]. unfold budget_left. lia. }
  assert (Hgo : ¬ too_soon (ms_of t) (f (SendAddress a)) →
      ¬ (¬ budget_left (ms_of t) 5 (f (SendAddress a)) ∨ ¬ budget_left (ms_of t) 20 (f (SendSource s))
         ∨ too_soon (ms_of t) (f (SendAddress a)))).
  { unfold budget_left. intros Hno [?|[?|?]]; [lia|lia|done]. }
  apply spec_bind. eapply spec_ZRANGE; [look; by apply is_zset_eq| |].
  - intros Hemp. cbn [length Nat.eqb]. apply spec_bind, spec_ret. cbn beta iota.
    eapply reserve_accepted; [done..|]. intros f' Hf'. right. split_and!; [done|apply Hgo|done].
    intros (x & y & Hx & _). rewrite Hemp in Hx. by rewrite lookup_empty in Hx.
  - intros x y Hx Hmax. cbn [length Nat.eqb]. unfold at_. cbn [nth Nat.sub].
    pose proof (zset_instants _ Ha x y Hx) as Hy. unfold instant in Hy. unfold clock_ok in Ht.
    apply spec_bind, spec_bind, spec_tonumber; [lia|]. apply spec_ret.
    destruct (Z.ltb_spec (ms_of t - y) 60000) as [Hsoon|Hsoon]; cbn beta iota.
    { apply spec_ret. left. split_and!; [done|right; right|done]. by exists x, y. }
    eapply reserve_accepted; [done..|]. intros f' Hf'. right. split_and!; [done|apply Hgo|done].
    intros (x' & y' & Hx' & Hlt). apply Hmax in Hx'. lia.
Qed.

(** ** Verifying a code *)

(** The hash [h] of a challenge answers an attempt. *)
Definition answers (h : gmap string string) (a3 a4 a5 a6 a7 : string) : Prop :=
  h !! "email" = Some a3 ∧ h !! "key_id" = Some a4 ∧ h !! "purpose" = Some a5
  ∧ h !! "verifier" = Some a6 ∧ h !! "binding" = Some a7.
#[global] Instance answers_dec h a3 a4 a5 a6 a7 : Decision (answers h a3 a4 a5 a6 a7).
Proof. unfold answers. apply _. Defined.

Lemma answers_spec h a3 a4 a5 a6 a7 :
  equal (h !! "email") (Some a3) && equal (h !! "key_id") (Some a4) && equal (h !! "purpose") (Some a5)
  && equal (h !! "verifier") (Some a6) && equal (h !! "binding") (Some a7)
  = bool_decide (answers h a3 a4 a5 a6 a7).
Proof.
  rewrite !equal_some. apply Bool.eq_iff_eq_true. rewrite !andb_true_iff, !bool_decide_eq_true.
  unfold answers. tauto.
Qed.

(** A lease on it that has not run out. *)
Definition under_lease (ms : Z) (h : gmap string string) : Prop :=
  is_Some (h !! "lease") ∧ ∃ u, h !! "lease_until" = Some (Itoa u) ∧ ms < u.

Definition lease_cleared (h : gmap string string) : gmap string string :=
  match h !! "lease" with Some _ => unleased h | None => h end.
Definition leased_by (l : string) (ms : Z) (h : gmap string string) : gmap string string :=
  <["lease_until" := Itoa (ms + 30000)]> (<["lease" := l]> h).
Definition failed_once (n : Z) (h : gmap string string) : gmap string string :=
  if 5 <=? n + 1 then disabled (<["attempts" := Itoa (n + 1)]> h) else <["attempts" := Itoa (n + 1)]> h.

Definition verify_counted (ms : Z) (s l : string) f : slot → content :=
  upd (VerifySource s) (spent_on ms l (pruned ms (f (VerifySource s)))) f.
Definition failure_counted (ms : Z) (x l : string) f : slot → content :=
  upd (VerifyAddress x) (spent_on ms l (pruned ms (f (VerifyAddress x)))) f.

Lemma lease_cleared_lookup h fd : fd ≠ "lease" → fd ≠ "lease_until" → lease_cleared h !! fd = h !! fd.
Proof.
  intros H1 H2. unfold lease_cleared, unleased. destruct (h !! "lease"); [|done].
  by rewrite !lookup_delete_ne by done.
Qed.
Lemma lease_cleared_shape h : challenge_shape h → challenge_shape (lease_cleared h).
Proof. intros Hs. unfold lease_cleared. destruct (h !! "lease"); [by apply unleased_shape|done]. Qed.
Lemma leased_by_shape l ms h : instant (ms + 30000) → challenge_shape h → challenge_shape (leased_by l ms h).
Proof.
  intros Hi [Ha Hd Hl]. unfold leased_by. split.
  - by rewrite !lookup_insert_ne by done.
  - by rewrite !lookup_insert_ne by done.
  - intros _. exists (ms + 30000). by rewrite lookup_insert_eq.
Qed.
Lemma failed_once_shape n h :
  0 <= n < 5 → challenge_shape h → challenge_shape (failed_once n h).
Proof.
  intros Hn [Ha Hd Hl]. unfold failed_once, disabled.
  destruct (Z.leb_spec 5 (n + 1)); (split; [|by rewrite !lookup_insert_ne by done..]).
  - exists (n + 1). rewrite lookup_insert_ne, !lookup_insert_eq by done. split; [done|]. split; [lia|done].
  - exists (n + 1). rewrite lookup_insert_eq, lookup_insert_ne by done. split; [done|]. split; [lia|]. intros _. lia.
Qed.

Lemma verify_counted_ok ms s l f : instant ms → slots_ok f → slots_ok (verify_counted ms s l f).
Proof.
  intros Hi Hf. apply slots_upd; [done|]. apply is_zset_spent, is_zset_pruned; [done|].
  apply (Hf (VerifySource s)).
Qed.
Lemma failure_counted_ok ms x l f : instant ms → slots_ok f → slots_ok (failure_counted ms x l f).
Proof.
  intros Hi Hf. apply slots_upd; [done|]. apply is_zset_spent, is_zset_pruned; [done|].
  apply (Hf (VerifyAddress x)).
Qed.

Lemma verify_key_app x : slot_key prefix (VerifyAddress "") +:+ x = slot_key prefix (VerifyAddress x).
Proof. unfold slot_key. by rewrite !string_app_assoc. Qed.

Lemma countFailure_effect c x l n t f :
  slots_ok f → clock_ok t → challenge_shape (challenge_at f c) →
  challenge_at f c !! "attempts" = Some (Itoa n) → 0 <= n < 5 →
  spec (countFailure (ms_of t) (key_name (ChallengeOf c)) (key_name (VerifyAddress x)) l) t f (λ o f',
    (o = Some 2 ∧ ¬ budget_left (ms_of t) 20 (f (VerifyAddress x))
     ∧ f' = upd (VerifyAddress x) (pruned (ms_of t) (f (VerifyAddress x))) f)
    ∨ (o = Some 0 ∧ budget_left (ms_of t) 20 (f (VerifyAddress x))
       ∧ ∀ k, f' k = rewritten c (failed_once n (challenge_at f c)) (failure_counted (ms_of t) x l f) k)).
Proof using All.
  intros Hf Ht Hs Hn Hb. unfold countFailure.
  pose proof (is_zset_pruned (ms_of t) _ (Hf (VerifyAddress x))) as Hx.
  apply spec_bind, spec_prune; [apply (Hf (VerifyAddress x))|]. intros _.
  apply spec_bind, spec_card; [by look|]. look.
  destruct (Z.leb_spec 20 (Z.of_nat (size (zset (pruned (ms_of t) (f (VerifyAddress x))))))).
  { apply spec_ret. left. split_and!; [done| |done]. unfold budget_left. lia. }
  apply spec_bind, spec_spend; [by look|]. intros _. look.
  apply (spec_start _ _ (failure_counted (ms_of t) x l f)).
  { intros k. unfold failure_counted, upd. by repeat case_decide. }
  assert (Hf1 : slots_ok (failure_counted (ms_of t) x l f))
    by (apply failure_counted_ok; [by apply clock_instant|done]).
  assert (Hc : challenge_at (failure_counted (ms_of t) x l f) c = challenge_at f c)
    by (unfold challenge_at, failure_counted; by look).
  apply spec_bind. eapply spec_HINCRBY; [by apply challenge_hash|by rewrite Hc|lia|].
  rewrite Hc, (proj2 (hash_put _ _ (insert_non_empty _ _ _))).
  apply spec_bind. unfold failed_once. destruct (Z.leb_spec 5 (n + 1)).
  - eapply spec_HSET; [by look|]. intros _. cbn [foldl]. rewrite (proj2 (hash_put _ _ (insert_non_empty _ _ _))).
    apply spec_ret. right. split_and!; [done|unfold budget_left; lia|]. intros k. look.
    unfold rewritten, disabled, upd. by repeat case_decide.
  - apply spec_ret, spec_ret. right. split_and!; [done|unfold budget_left; lia|]. done.
Qed.

Definition verified (ms : Z) (s c l : string) f : slot → content :=
  rewritten c (leased_by l ms (lease_cleared (challenge_at f c))) (verify_counted ms s l f).

Lemma leased_spec ms h t f (Q : option bool → (slot → content) → Prop) :
  challenge_shape h → (∀ b, (b = true ↔ under_lease ms h) → Q (Some b) f) →
  spec (leased ms (h !! "lease") (h !! "lease_until")) t f Q.
Proof using All.
  intros Hs HQ. unfold leased, under_lease in *. destruct (h !! "lease") as [x|] eqn:El.
  - destruct (shape_lease _ Hs) as (u & Hu & Hi); [by eexists|]. unfold instant in Hi. rewrite Hu in *.
    apply spec_bind, spec_tonumber; [lia|]. apply spec_ret, HQ. rewrite Z.ltb_lt. split.
    + intros Hlt. split; [by eexists|]. by exists u.
    + intros [_ (u' & [= E] & Hlt)]. apply Itoa_inj in E. by subst.
  - apply spec_ret, HQ. split; [done|]. by intros [[] _].
Qed.

(** What an attempt leaves of a challenge it could not win. *)
Definition rejected (ms : Z) (s c l : string) (o : option Z) (h : gmap string string) f (f' : slot → content) : Prop :=
  ∃ x n, h !! "address" = Some x ∧ h !! "attempts" = Some (Itoa n) ∧ 0 <= n < 5
    ∧ let f2 := rewritten c h (verify_counted ms s l f) in
      (o = Some 2 ∧ ¬ budget_left ms 20 (f (VerifyAddress x))
       ∧ ∀ k, f' k = upd (VerifyAddress x) (pruned ms (f (VerifyAddress x))) f2 k)
      ∨ (o = Some 0 ∧ budget_left ms 20 (f (VerifyAddress x))
         ∧ ∀ k, f' k = rewritten c (failed_once n h) (failure_counted ms x l f2) k).

Definition verify_post (s c l a3 a4 a5 a6 a7 : string) t f (o : option Z) (f' : slot → content) : Prop :=
    let ms := ms_of t in let h := challenge_at f c in
    (o = Some 2 ∧ ¬ budget_left ms 100 (f (VerifySource s))
     ∧ f' = upd (VerifySource s) (pruned ms (f (VerifySource s))) f)
    ∨ budget_left ms 100 (f (VerifySource s)) ∧
      ((o = Some 0 ∧ (f (ChallengeOf c) = None ∨ h !! "active" ≠ Some "1" ∨ under_lease ms h)
        ∧ ∀ k, f' k = verify_counted ms s l f k)
       ∨ challenge_shape h ∧ h !! "active" = Some "1" ∧ ¬ under_lease ms h
         ∧ if decide (answers h a3 a4 a5 a6 a7)
           then o = Some 1 ∧ ∀ k, f' k = verified ms s c l f k
           else rejected ms s c l o (lease_cleared h) f f').

Lemma verify_effect s c l a3 a4 a5 a6 a7 t f :
  slots_ok f → clock_ok t →
  spec (verifyScript (key_name (VerifySource s)) (key_name (ChallengeOf c)) (key_name (VerifyAddress ""))
          l a3 a4 a5 a6 a7) t f (verify_post s c l a3 a4 a5 a6 a7 t f).
Proof using All. unfold verify_post.
  intros Hf Ht. unfold verifyScript. pose proof (clock_instant _ Ht) as Hi.
  pose proof (is_zset_pruned (ms_of t) _ (Hf (VerifySource s))) as Hs.
  apply spec_bind, spec_TIME, spec_bind, spec_prune; [apply (Hf (VerifySource s))|]. intros _.
  apply spec_bind, spec_card; [by look|]. look.
  destruct (Z.leb_spec 100 (Z.of_nat (size (zset (pruned (ms_of t) (f (VerifySource s))))))) as [Hb|Hb].
  { apply spec_ret. left. split_and!; [done| |done]. unfold budget_left. lia. }
  apply spec_bind, spec_spend; [by look|]. intros _. look.
  apply (spec_start _ _ (verify_counted (ms_of t) s l f)).
  { intros k. unfold verify_counted, upd. by repeat case_decide. }
  set (f2 := verify_counted (ms_of t) s l f).
  assert (Hf2 : slots_ok f2) by by apply verify_counted_ok.
  assert (Hc : challenge_at f2 c = challenge_at f c) by (unfold challenge_at, f2, verify_counted; by look).
  apply spec_bind, spec_EXISTS. unfold f2 at 1, verify_counted at 1. look.
  destruct (f (ChallengeOf c)) as [[v d]|] eqn:E; cbn [Z.eqb Pos.eqb].
  2: { apply spec_ret. right. split; [exact Hb|]. left. split_and!; [done|by left|done]. }
  destruct (challenge_there _ _ _ _ Hf E) as [_ Hsh].
  apply spec_bind. eapply spec_HMGET; [by apply challenge_hash|]. rewrite Hc.
  cbn [map]. unfold at_. cbn [nth Nat.sub].
  case_bool_decide as Hact; cbn [negb].
  2: { apply spec_ret. right. split; [exact Hb|]. left. split_and!; [done|by right; left|done]. }
  apply spec_bind, leased_spec; [done|]. intros held Hheld. destruct held.
  { apply spec_ret. right. split; [exact Hb|]. left. split_and!; [done|by right; right; apply Hheld|done]. }
  assert (Hfree : ¬ under_lease (ms_of t) (challenge_at f c)) by by intros [=]%Hheld.
  apply spec_bind. eapply spec_mono with (P := λ o f3, is_Some o ∧
    ∀ k, rewritten c (lease_cleared (challenge_at f c)) f2 k = f3 k).
  { unfold lease_cleared. destruct (challenge_at f c !! "lease") as [x|].
    - apply spec_challenge_HDEL; [done|rewrite Hc; by apply unleased_shape|]. intros n. rewrite Hc.
      split; [by eexists|done].
    - apply spec_ret. split; [by eexists|]. intros k. unfold rewritten, challenge_at.
      apply upd_same. unfold f2, verify_counted. look. rewrite E.
      destruct (challenge_there _ _ _ _ Hf E) as [-> _]. unfold challenge_at. by rewrite E. }
  intros o f3 [[x ->] Hf3]. apply (spec_start _ _ _ _ _ Hf3).
  pose proof (lease_cleared_shape _ Hsh) as Hcs.
  pose proof (rewritten_ok c _ _ Hf2 Hcs) as Hf3'.
  assert (Hc3 : challenge_at (rewritten c (lease_cleared (challenge_at f c)) f2) c
                = lease_cleared (challenge_at f c)) by (unfold challenge_at at 1; by rewrite rewritten_hash).
  rewrite answers_spec. destruct (decide (answers (challenge_at f c) a3 a4 a5 a6 a7)) as [Hans|Hans].
  - rewrite bool_decide_true by done. cbn [negb].
    apply spec_bind, spec_challenge_HSET; [done|rewrite Hc3; cbn [foldl]|].
    { apply leased_by_shape; [|done]. unfold instant, clock_ok in *. lia. }
    intros n. cbn [foldl]. apply spec_ret. right. split; [exact Hb|]. right. split_and!; try done.
    intros k. rewrite Hc3. apply rewritten_twice.
  - rewrite bool_decide_false by done. cbn [negb].
    destruct (shape_attempts _ Hcs) as (n & Hn & Hb5 & Hlt). destruct (shape_address _ Hcs) as [y Hy].
    assert (Hy' := Hy). rewrite lease_cleared_lookup in Hy' by done. rewrite Hy'.
    change (key_name (VerifyAddress "")) with (slot_key prefix (VerifyAddress "")).
    rewrite verify_key_app. change (slot_key prefix (VerifyAddress y)) with (key_name (VerifyAddress y)).
    assert (Hn5 : 0 <= n < 5) by (rewrite lease_cleared_lookup in Hlt by done; specialize (Hlt Hact); lia).
    eapply spec_mono; [apply (countFailure_effect c y l n); rewrite ?Hc3; done|].
    intros o' f' Hout. right. split; [exact Hb|]. right. split_and!; try done.
    exists y, n. split_and!; try done; try lia.
    assert (Hva : rewritten c (lease_cleared (challenge_at f c)) f2 (VerifyAddress y) = f (VerifyAddress y))
      by (unfold rewritten, f2, verify_counted; by look).
    rewrite Hva, Hc3 in Hout. destruct Hout as [(-> & ? & ->)|(-> & ? & ?)]; [left|right]; by split_and!.
Qed.

End effects.
