(* ===== verification/AuthRedisInv.v ===== *)
(** * The Redis store: histories of scripts

    Every client of the server, and every repetition of a script by a client, is a
    step of one history: the scripts run one at a time, at instants that do not
    decrease.  The shape of the database is an invariant of every history, and what
    each step does to the keys is [effect]. *)

From S2P Require Import Prelude GoStrings Sha256 AuthCore MemoryStore Auth Redis RedisSpec AuthRedis AuthRedisSpec.

#[local] Open Scope Z_scope.
#[local] Opaque Sum256.

(** What a client can have the server run. *)
Inductive op :=
| OCreatePreAuth (r : PreAuthRecord)
| OAuthenticatePreAuth (p : PreAuthProof)
| OConsumePreAuth (p : PreAuthProof)
| OReserve (r : Reservation)
| OVerify (a : Verification)
| ORelease (a : Verification)
| OReject (a : Verification)
| OComplete (a : Verification) (i : Identity)
| OInvalidate (id : string)
| OAuthenticate (p : SessionProof)
| ORevoke (p : SessionProof)
| ORevokeAll (p : SessionProof)
| ORevokeIdentity (identity : string).

Inductive answer := Number (z : Z) | Values (l : list (option string)).

#[global] Instance answer_eq_dec : EqDecision answer.
Proof. solve_decision. Defined.

(** Sessions are issued for [sessionAbsoluteTTL]. *)
Definition op_ok (o : op) : Prop :=
  match o with
  | OComplete a _ =>
      session_ExpiresAt (attempt_Session a) = session_CreatedAt (attempt_Session a) + sessionAbsoluteTTL
  | _ => True
  end.

Section histories.
Context {D : Type} `{RedisLaws D} (prefix : string).
#[local] Instance names : KeyNames slot := slots prefix.
Implicit Types (f : slot → content) (t : clock).
Abbreviation slots_ok := (slots_ok prefix).

Definition script_of (o : op) : Script D answer :=
  match o with
  | OCreatePreAuth r => z ← CreatePreAuth_script prefix r; mret (Number z)
  | OAuthenticatePreAuth p =>
      z ← authenticateBrowserStateScript (browserStateKey prefix (pproof_ID p))
            (hex_digest (pproof_Digest p)) (hex_digest (pproof_CSRFDigest p)); mret (Number z)
  | OConsumePreAuth p =>
      z ← consumeBrowserStateScript (browserStateKey prefix (pproof_ID p))
            (hex_digest (pproof_Digest p)) (hex_digest (pproof_CSRFDigest p)); mret (Number z)
  | OReserve r => z ← Reserve_script prefix r; mret (Number z)
  | OVerify a => z ← Verify_script prefix a; mret (Number z)
  | ORelease a => z ← Release_script prefix a; mret (Number z)
  | OReject a => z ← Reject_script prefix a; mret (Number z)
  | OComplete a i => z ← Complete_script prefix a i; mret (Number z)
  | OInvalidate id => z ← invalidateScript (challengeKey prefix id); mret (Number z)
  | OAuthenticate p => l ← AuthenticateSession_script prefix p; mret (Values l)
  | ORevoke p => z ← RevokeSession_script prefix p; mret (Number z)
  | ORevokeAll p => z ← RevokeAllSessions_script prefix p; mret (Number z)
  | ORevokeIdentity identity => z ← RevokeIdentitySessions_script prefix identity; mret (Number z)
  end.

(** The arguments of the scripts, as [effect] names them. *)
Definition csrf_of (p : SessionProof) : string :=
  if digest_eqb (proof_CSRFDigest p) zero_digest then "" else hex_digest (proof_CSRFDigest p).
Definition mailbox_of (r : Reservation) : string :=
  digest (reservation_Purpose r +:+ String "000" (reservation_Email r)).

Definition effect (o : op) t f (ans : option answer) (f' : slot → content) : Prop :=
  match o with
  | OAuthenticate p => ∃ l, ans = Values <$> l ∧
      session_post prefix (proof_ID p) (hex_digest (proof_Digest p)) (csrf_of p) t f l f'
  | _ => ∃ z, ans = Number <$> z ∧
      match o with
      | OCreatePreAuth r =>
          create_post prefix (pre_ID r) (digest (pre_Source r)) (hex_digest (pre_Digest r))
            (hex_digest (pre_CSRFDigest r)) t f z f'
      | OAuthenticatePreAuth p =>
          authenticate_post (pproof_ID p) (hex_digest (pproof_Digest p)) (hex_digest (pproof_CSRFDigest p)) f z f'
      | OConsumePreAuth p =>
          consume_post prefix (pproof_ID p) (hex_digest (pproof_Digest p)) (hex_digest (pproof_CSRFDigest p)) f z f'
      | OReserve r =>
          reserve_post prefix (digest (reservation_Email r)) (digest (reservation_Source r)) (mailbox_of r)
            (reservation_ID r) (reservation_Email r) (reservation_KeyID r) (reservation_Purpose r)
            (hex_digest (reservation_Verifier r)) (hex_digest (reservation_Binding r)) t f z f'
      | OVerify a =>
          verify_post prefix (digest (attempt_Source a)) (attempt_ID a) (lease_of a) (attempt_Email a)
            (attempt_KeyID a) (attempt_Purpose a) (hex_digest (attempt_Verifier a))
            (hex_digest (attempt_Binding a)) t f z f'
      | ORelease a => release_post prefix (attempt_ID a) (lease_of a) f z f'
      | OReject a => reject_post prefix (attempt_ID a) (lease_of a) f z f'
      | OComplete a i =>
          let session := attempt_Session a in
          complete_post prefix (attempt_ID a) (lease_of a) (session_ID session) (digest (identity_ID i))
            (hex_digest (session_Digest session)) (hex_digest (session_CSRFDigest session))
            (identity_ID i) (identity_Email i) (Itoa (UnixNano (identity_CreatedAt i))) t f z f'
      | OInvalidate id => invalidate_post prefix id f z f'
      | OAuthenticate _ => False
      | ORevoke p => revoke_post prefix (proof_ID p) (hex_digest (proof_Digest p)) f z f'
      | ORevokeAll p => revokeAll_post prefix (proof_ID p) (hex_digest (proof_Digest p)) t f z f'
      | ORevokeIdentity identity => revokeIdentity_post prefix (digest identity) f z f'
      end
  end.

Lemma issued_ms a :
  session_ExpiresAt (attempt_Session a) = session_CreatedAt (attempt_Session a) + sessionAbsoluteTTL →
  Milliseconds (Sub (session_ExpiresAt (attempt_Session a)) (session_CreatedAt (attempt_Session a)))
  = session_ttl.
Proof.
  intros ->. unfold Sub.
  replace (session_CreatedAt (attempt_Session a) + sessionAbsoluteTTL - session_CreatedAt (attempt_Session a))
    with sessionAbsoluteTTL by lia.
  reflexivity.
Qed.

(** A script wrapped in a constructor. *)
Lemma spec_answer {A} (m : Script D A) (g : A → answer) t f (P : option A → (slot → content) → Prop) :
  spec m t f P →
  spec (x ← m; mret (g x)) t f (λ ans f', ∃ x, ans = g <$> x ∧ P x f').
Proof.
  intros Hm. apply spec_bind. eapply spec_mono; [exact Hm|]. intros [x|] f' HP.
  - apply spec_ret. by exists (Some x).
  - by exists None.
Qed.

Lemma op_effect o t f :
  slots_ok f → clock_ok t → op_ok o → spec (script_of o) t f (effect o t f).
Proof using All.
  intros Hf Ht Ho. destruct o; cbn [script_of effect]; apply spec_answer.
  - by apply create_effect.
  - by apply authenticate_effect.
  - by apply consume_effect.
  - by apply reserve_effect.
  - by apply verify_effect.
  - by apply release_effect.
  - by apply reject_effect.
  - unfold Complete_script. rewrite issued_ms by done. by apply complete_effect.
  - by apply invalidate_effect.
  - by apply session_effect.
  - by apply revoke_effect.
  - by apply revokeAll_effect.
  - by apply revokeIdentity_effect.
Qed.

(** ** The shape is kept *)

Lemma session_ok_put h d v x :
  session_shape prefix h d → Some (HashValue h, Some d) = Some (v, x) →
  ∃ h y, v = HashValue h ∧ x = Some y ∧ session_shape prefix h y.
Proof. intros Hs [= <- <-]. by exists h, d. Qed.

Lemma session_fields_shape h ms a3 a4 a5 a6 a7 g :
  instant ms → instant (ms + session_ttl) →
  session_shape prefix (session_fields h ms a3 a4 a5 a6 a7 (slot_key prefix (SessionsOf g))) (ms + session_ttl).
Proof.
  intros Hi Hi'. unfold session_fields. cbn [foldl]. split.
  - split; [|done]. by simplify_map_eq.
  - exists ms. split; [|done]. by simplify_map_eq.
  - exists g. by rewrite lookup_insert_eq.
Qed.

Lemma clock_ttl t : clock_ok t → instant (ms_of t + session_ttl).
Proof. unfold clock_ok, instant, session_ttl. lia. Qed.

Lemma completed_ok t c l s g a3 a4 a5 a6 a7 f :
  clock_ok t → slots_ok f → slots_ok (completed prefix (ms_of t) c l s g a3 a4 a5 a6 a7 f).
Proof.
  intros Ht Hf. unfold completed. apply slots_upd; [|apply missing_ok].
  apply slots_upd; [|by intros v d [= <- _]].
  apply slots_upd; [|by eexists]. apply slots_upd; [done|].
  intros v d. apply session_ok_put, session_fields_shape; [by apply clock_instant|by apply clock_ttl].
Qed.

Lemma seen_ok t s d x l f :
  clock_ok t → slots_ok f → f (SessionOf s) = Some (x, Some d) → session_at f s !! "last_seen" = Some l →
  slots_ok (seen prefix (ms_of t) d s f).
Proof.
  intros Ht Hf E Hl. apply slots_upd; [done|]. intros v y. apply session_ok_put.
  destruct (session_field _ _ _ _ _ Hf Hl) as (d' & E' & [He _ [g Hg]]).
  rewrite E in E'. injection E' as _ <-. split.
  - by rewrite lookup_insert_ne.
  - exists (ms_of t). rewrite lookup_insert_eq. split; [done|by apply clock_instant].
  - exists g. by rewrite lookup_insert_ne.
Qed.

Lemma revoked_ok s g f : slots_ok f → slots_ok (revoked prefix s g f).
Proof.
  intros Hf. apply slots_upd; [apply slots_upd; [done|]|apply missing_ok]. cbn. unfold put_set.
  case_decide; by eexists.
Qed.

Lemma without_ok l f : slots_ok f → slots_ok (without l f).
Proof. intros Hf []; unfold without; try apply Hf. case_decide; [apply missing_ok|apply Hf]. Qed.
Lemma all_revoked_ok g f : slots_ok f → slots_ok (all_revoked prefix g f).
Proof. intros Hf. apply slots_upd; [by apply without_ok|apply missing_ok]. Qed.

Lemma bootstrapped_ok t id s a1 a2 f : clock_ok t → slots_ok f → slots_ok (bootstrapped prefix (ms_of t) id s a1 a2 f).
Proof.
  intros Ht Hf. apply slots_upd; [apply slots_upd; [done|]|by eexists].
  apply is_zset_spent, is_zset_pruned; [by apply clock_instant|]. apply (Hf (Bootstrap s)).
Qed.

Lemma pruned_ok ms k f :
  slots_ok f → is_zset (f k) → (∀ e, is_zset e → slot_ok prefix k e) →
  slots_ok (upd (H := slots prefix) k (pruned ms (f k)) f).
Proof. intros Hf Hk Hz. apply slots_upd; [done|]. by apply Hz, is_zset_pruned. Qed.

Lemma reserved_ok t a s m id a3 a5 a6 a7 a8 f :
  clock_ok t → slots_ok f → slots_ok (reserved prefix (ms_of t) a s m id a3 a5 a6 a7 a8 f).
Proof.
  intros Ht Hf. unfold reserved.
  assert (Hr : slots_ok (retired prefix (previous_of f m) (counted prefix (ms_of t) a s id f)))
    by (apply retired_ok, counted_ok; [by apply clock_instant|done]).
  apply slots_upd; [apply slots_upd; [done|]|].
  - intros v d [= <- _]. by eexists.
  - intros v d [= <- _]. eexists. split; [done|]. by apply reserved_shape, (lease_until_ok prefix).
Qed.

Lemma verified_ok t s c l f :
  clock_ok t → slots_ok f → challenge_shape (challenge_at f c) → slots_ok (verified prefix (ms_of t) s c l f).
Proof.
  intros Ht Hf Hs. apply rewritten_ok.
  - by apply verify_counted_ok; [apply clock_instant|].
  - apply leased_by_shape; [unfold clock_ok, instant in *; lia|by apply lease_cleared_shape].
Qed.

Lemma rejected_ok t s c l o h f f' :
  clock_ok t → slots_ok f → challenge_shape h → rejected prefix (ms_of t) s c l o h f f' → slots_ok f'.
Proof.
  intros Ht Hf Hs (x & n & _ & Hn & Hb & Hr). pose proof (clock_instant _ Ht) as Hi.
  assert (H2 : slots_ok (rewritten prefix c h (verify_counted prefix (ms_of t) s l f)))
    by (apply rewritten_ok; [by apply verify_counted_ok|done]).
  destruct Hr as [(_ & _ & E)|(_ & _ & E)]; apply (slots_ext _ _ _ E).
  - apply slots_upd; [done|]. apply is_zset_pruned, (Hf (VerifyAddress x)).
  - apply rewritten_ok; [by apply failure_counted_ok|by apply failed_once_shape].
Qed.

Lemma effect_ok o t f ans f' :
  slots_ok f → clock_ok t → effect o t f ans f' → slots_ok f'.
Proof.
  intros Hf Ht. pose proof (clock_instant _ Ht) as Hi. destruct o; intros (z & _ & He); revert He.
  - intros [(_ & _ & ->)|[(_ & _ & ->)|(_ & _ & _ & E)]]; [done| |].
    + apply slots_upd; [done|]. apply is_zset_pruned, (Hf (Bootstrap _)).
    + by eapply slots_ext, bootstrapped_ok.
  - by intros [-> _].
  - intros [(_ & _ & ->)|(_ & _ & ->)]; [done|]. apply slots_upd; [done|apply missing_ok].
  - intros [(_ & _ & ->)|(_ & _ & E)].
    + apply slots_upd; [apply slots_upd; [done|]|]; apply is_zset_pruned.
      * apply (Hf (SendAddress _)).
      * apply (Hf (SendSource _)).
    + by eapply slots_ext, reserved_ok.
  - intros [(_ & _ & ->)|(_ & [(_ & _ & E)|(Hs & _ & _ & Hd)])].
    + apply slots_upd; [done|]. apply is_zset_pruned, (Hf (VerifySource _)).
    + by eapply slots_ext, verify_counted_ok.
    + destruct (decide _).
      * destruct Hd as [_ E]. by eapply slots_ext, verified_ok.
      * by eapply rejected_ok, Hd; [| |apply lease_cleared_shape].
  - intros [[_ ->]|(_ & _ & Hs & ->)]; [done|]. by apply rewritten_ok, unleased_shape.
  - intros [[_ ->]|(_ & _ & Hs & E)]; [done|].
    by eapply slots_ext, rewritten_ok, unleased_shape, disabled_shape.
  - intros [(_ & _ & ->)|[(_ & _ & ->)|(_ & _ & _ & E)]]; [done|done|]. by eapply slots_ext, completed_ok.
  - intros (_ & [(_ & ->)|(Hs & ->)]); [done|]. by apply rewritten_ok, disabled_shape.
  - intros [(_ & _ & ->)|(d & l & _ & E & Hl & _ & Hr)]; [done|].
    destruct (_ || _); [destruct Hr as [_ ->]; apply slots_upd; [done|apply missing_ok]|].
    destruct Hr as [_ Hr]. by eapply slots_ext, seen_ok.
  - intros [(_ & _ & ->)|(_ & _ & g & _ & ->)]; [done|]. by apply revoked_ok.
  - intros [(_ & _ & ->)|(d & l & g & _ & _ & _ & _ & _ & Hr)]; [done|].
    destruct (_ || _); [destruct Hr as [_ ->]; apply slots_upd; [done|apply missing_ok]|].
    destruct Hr as [_ Hr]. by eapply slots_ext, all_revoked_ok.
  - intros [_ E]. by eapply slots_ext, all_revoked_ok.
Qed.

(** ** Histories *)

Definition event : Type := clock * op * option answer.

Inductive history (d0 : D) (t0 : Z) : list event → Z → D → Prop :=
| history_nil : history d0 t0 [] t0 d0
| history_snoc hs now d t o ans d' :
    history d0 t0 hs now d → now <= ms_of t → clock_ok t → op_ok o →
    script_of o t d = (ans, d') →
    history d0 t0 (hs ++ [(t, o, ans)]) (ms_of t) d'.

(** What the keys hold, as a function of the database. *)
Definition contents_at (d : D) (now : Z) : slot → content := λ k, holds d now (slot_key prefix k).
Lemma contents_view d now : view d now (contents_at d now).
Proof. by intros k. Qed.

Lemma aged_ok k e e' now : slot_ok prefix k e → aged now e e' → slot_ok prefix k e'.
Proof.
  intros Hk Ha. unfold aged in Ha. destruct e as [[v [d|]]|]; [|by subst..].
  destruct Ha as [[-> _]|[-> _]]; [done|apply missing_ok].
Qed.

(** Time passes over the whole database. *)
Definition passes (now : Z) (f f' : slot → content) : Prop := ∀ k, aged now (f k) (f' k).

Lemma passes_ok now f f' : slots_ok f → passes now f f' → slots_ok f'.
Proof. intros Hf Hp k. by eapply aged_ok. Qed.

Lemma contents_pass d now now' : now <= now' → passes now' (contents_at d now) (contents_at d now').
Proof using All. intros Hle k. by apply law_passing. Qed.

(** Induction over a history, in terms of what the keys hold: a property that time
    and every effect preserve holds at the end. *)
Lemma history_ind_contents (P : list event → Z → (slot → content) → Prop) d0 (t0 : Z) hs now d :
  history d0 t0 hs now d → slots_ok (contents_at d0 t0) →
  (∀ f f' hs now, (∀ k, f' k = f k) → P hs now f → P hs now f') →
  P [] t0 (contents_at d0 t0) →
  (∀ hs now f f1 t o ans f2,
     P hs now f → slots_ok f → now <= ms_of t → passes (ms_of t) f f1 → slots_ok f1 →
     clock_ok t → op_ok o → effect o t f1 ans f2 → P (hs ++ [(t, o, ans)]) (ms_of t) f2) →
  slots_ok (contents_at d now) ∧ P hs now (contents_at d now).
Proof using All.
  intros Hh H0' Hext Hnil Hstep. induction Hh as [|hs now d t o ans d' Hh [Hs IH] Hle Ht Ho E]; [done|].
  pose proof (contents_pass d now (ms_of t) Hle) as Hp. pose proof (passes_ok _ _ _ Hs Hp) as Hs1.
  destruct (spec_run _ _ _ _ _ _ _ (op_effect o t _ Hs1 Ht Ho) (contents_view _ _) E)
    as (f2 & Hv & He).
  pose proof (effect_ok _ _ _ _ _ Hs1 Ht He) as Hs2. split.
  - by eapply slots_ext.
  - eapply Hext; [exact Hv|]. by eapply Hstep.
Qed.

(** Every script succeeds on a database in shape. *)
Lemma effect_answers o t f ans f' : effect o t f ans f' → is_Some ans.
Proof.
  destruct o; intros (z & -> & He); revert He; unfold create_post, authenticate_post, consume_post,
    reserve_post, verify_post, release_post, reject_post, complete_post, invalidate_post, session_post,
    revoke_post, revokeAll_post, revokeIdentity_post.
  all: repeat match goal with
    | |- _ ∨ _ → _ => intros [He|He]; revert He
    | |- _ ∧ _ → _ => let H := fresh in intros [H He]; first [rewrite H; by eexists | revert He]
    | |- (∃ _, _) → _ => intros [? He]; revert He
    | |- _ = Some _ → _ => intros ->; by eexists
    | |- (if ?b then _ else _) → _ => destruct b
    | |- rejected _ _ _ _ _ _ _ _ _ → _ => unfold rejected; cbv zeta
    end.
Qed.

End histories.
