(* ===== verification/RedisKeyspace.v ===== *)
(** * A server in memory

    An implementation of [Redis] that satisfies [RedisLaws]: a map of keys with
    their deadlines.  The theorems about the store hold of any lawful server; this
    one is what their examples run on. *)

From S2P Require Import Prelude GoStrings Redis.

#[local] Open Scope Z_scope.

Abbreviation keyspace := (gmap string (value * option Z)).

Definition alive (t : Z) (e : content) : content :=
  match e with
  | Some (v, Some d) => if t <=? d then e else None
  | _ => e
  end.

(** The member with the highest score. *)
Definition highest (z : gmap string Z) : option (string * Z) :=
  map_fold (λ m s best, match best with
                        | Some (m', s') => if s' <? s then Some (m, s) else best
                        | None => Some (m, s)
                        end) None z.

Definition typed {A} (x : option A) (e : content) (k : A → reply * content) : reply * content :=
  match x with Some a => k a | None => (Failure, e) end.

(** One command on what a key holds. *)
Definition execute (c : command) (t : Z) (e : content) : reply * content :=
  match c with
  | GET => (match e with None => Nil | Some (StringValue s, _) => Bulk s | _ => Failure end, e)
  | EXISTS => (one_if (bool_decide (is_Some e)), e)
  | SET_PX v ttl =>
      if ttl <=? 0 then (Failure, e) else (Bulk "OK", Some (StringValue v, Some (t + ttl)))
  | DEL => (one_if (bool_decide (is_Some e)), None)
  | PEXPIRE ttl =>
      match e with
      | None => (Integer 0, None)
      | Some (v, _) => (Integer 1, if ttl <=? 0 then None else Some (v, Some (t + ttl)))
      end
  | PEXPIREAT d =>
      match e with
      | None => (Integer 0, None)
      | Some (v, _) => (Integer 1, if d <=? t then None else Some (v, Some d))
      end
  | HGET f => typed (hash_of e) e (λ h, (bulk (h !! f), e))
  | HMGET fs => typed (hash_of e) e (λ h, (Array (map (h !!.) fs), e))
  | HSET fs => typed (hash_of e) e (λ h,
      (Integer (Z.of_nat (length fs)), put_hash (foldl (λ h '(f, v), <[f := v]> h) h fs) e))
  | HDEL fs => typed (hash_of e) e (λ h,
      (Integer (Z.of_nat (length fs)), put_hash (foldl (λ h f, delete f h) h fs) e))
  | HINCRBY f n => typed (hash_of e) e (λ h,
      match Atoi (default "0" (h !! f)) with
      | Some x => (Integer (x + n), put_hash (<[f := Itoa (x + n)]> h) e)
      | None => (Failure, e)
      end)
  | ZADD score m => typed (zset_of e) e (λ z, (Integer 1, put_zset (<[m := score]> z) e))
  | ZCARD => typed (zset_of e) e (λ z, (Integer (Z.of_nat (size z)), e))
  | ZREMRANGEBYSCORE max => typed (zset_of e) e (λ z,
      (Integer 0, put_zset (filter (λ kv, max < kv.2) z) e))
  | ZRANGE_last => typed (zset_of e) e (λ z,
      (match highest z with Some (m, s) => Array [Some m; Some (Itoa s)] | None => Array [] end, e))
  | SADD m => typed (set_of e) e (λ x, (Integer 1, put_set (x ∪ {[m]}) e))
  | SREM m => typed (set_of e) e (λ x, (Integer 1, put_set (x ∖ {[m]}) e))
  | SMEMBERS => typed (set_of e) e (λ x, (Array (map Some (elements x)), e))
  end.

#[global] Instance keyspace_redis : Redis keyspace := {|
  holds d t k := alive t (d !! k);
  redis_call c t k d :=
    let '(r, e) := execute c t (alive t (d !! k)) in (r, partial_alter (λ _, e) k d);
|}.

Lemma highest_spec z :
  match highest z with
  | None => z = ∅
  | Some (m, s) => z !! m = Some s ∧ ∀ m' s', z !! m' = Some s' → s' <= s
  end.
Proof.
  unfold highest.
  apply (map_fold_weak_ind (λ (best : option (string * Z)) (z : gmap string Z), match best with
    | None => z = ∅
    | Some (m, s) => z !! m = Some s ∧ ∀ m' s', z !! m' = Some s' → s' <= s end)); [done|].
  intros m s z' best Hm Hb. destruct best as [[m' s']|].
  - destruct Hb as [Hb Hmax]. destruct (Z.ltb_spec s' s).
    + rewrite lookup_insert_eq. split; [done|]. intros x y Hx.
      destruct (decide (x = m)) as [->|Hne]; [rewrite lookup_insert_eq in Hx; injection Hx as ->; lia|].
      rewrite lookup_insert_ne in Hx by done. apply Hmax in Hx. lia.
    + rewrite lookup_insert_ne by congruence. split; [done|]. intros x y Hx.
      destruct (decide (x = m)) as [->|Hne]; [rewrite lookup_insert_eq in Hx; injection Hx as ->; lia|].
      rewrite lookup_insert_ne in Hx by done. by apply Hmax in Hx.
  - subst z'. rewrite lookup_insert_eq. split; [done|]. intros x y Hx.
    destruct (decide (x = m)) as [->|Hne]; [rewrite lookup_insert_eq in Hx; injection Hx as ->; lia|].
    by rewrite lookup_insert_ne in Hx by done.
Qed.

Lemma typed_on_type {A} (x : option A) e (k : A → reply * content) (P : A → reply → content → Prop) r e' :
  (∀ a, P a (k a).1 (k a).2) → typed x e k = (r, e') → on_type x e P r e'.
Proof.
  intros HP. destruct x as [a|]; cbn; [|by intros [= <- <-]].
  specialize (HP a). destruct (k a) as [r0 e0]. by intros [= <- <-].
Qed.

Lemma execute_documented c t e r e' : execute c t e = (r, e') → documented c t e r e'.
Proof.
  destruct c; unfold execute, documented;
    try (apply typed_on_type; intros x; cbn; by first [eauto | (split; eauto)]).
  - intros [= <- <-]. split; [done|]. by destruct e as [[[] ?]|].
  - by intros [= <- <-].
  - destruct (_ <=? _); by intros [= <- <-].
  - by intros [= <- <-].
  - destruct e as [[v d]|]; by intros [= <- <-].
  - destruct e as [[v d]|]; [|by intros [= <- <-]]. intros [= <- <-]. split; [done|].
    destruct (Z.leb_spec deadline t); [by right|by left].
  - apply typed_on_type. intros x. by destruct (Atoi _).
  - apply typed_on_type. intros z. cbn. split; [done|]. pose proof (highest_spec z) as Hz.
    destruct (highest z) as [[m s]|]; [right; exists m, s; naive_solver|by left].
Qed.

(** What a command leaves is still there at its instant. *)
Lemma alive_put_hash t h e : alive t e = e → alive t (put_hash h e) = put_hash h e.
Proof. unfold put_hash. case_decide; [done|]. by destruct e as [[v [d|]]|]; cbn; try case_match. Qed.
Lemma alive_put_zset t z e : alive t e = e → alive t (put_zset z e) = put_zset z e.
Proof. unfold put_zset. case_decide; [done|]. by destruct e as [[v [d|]]|]; cbn; try case_match. Qed.
Lemma alive_put_set t m e : alive t e = e → alive t (put_set m e) = put_set m e.
Proof. unfold put_set. case_decide; [done|]. by destruct e as [[v [d|]]|]; cbn; try case_match. Qed.

Lemma execute_alive c t e r e' : alive t e = e → execute c t e = (r, e') → alive t e' = e'.
Proof.
  intros He. destruct c; unfold execute, typed; repeat case_match;
    intros [= <- <-]; subst; auto using alive_put_hash, alive_put_zset, alive_put_set; cbn;
    repeat case_match; try done; repeat match goal with
      | H : (_ <=? _) = true |- _ => apply Z.leb_le in H
      | H : (_ <=? _) = false |- _ => apply Z.leb_gt in H
      end; try lia.
Qed.

Lemma alive_idemp t e : alive t (alive t e) = alive t e.
Proof. destruct e as [[v [d|]]|]; cbn; [|done..]. destruct (t <=? d) eqn:E; cbn; by rewrite ?E. Qed.

#[global] Instance keyspace_laws : RedisLaws keyspace.
Proof.
  split.
  - intros d t t' k Hle. cbn. destruct (d !! k) as [[v [x|]]|]; cbn; [|done..].
    destruct (Z.leb_spec t x), (Z.leb_spec t' x); cbn; try lia; auto with lia.
  - intros c t k d r d' E. unfold holds, redis_call, keyspace_redis in *. destruct (execute c t (alive t (d !! k))) as [r0 e0] eqn:Ex.
    apply pair_equal_spec in E as [<- <-]. rewrite lookup_partial_alter_eq.
    rewrite (execute_alive _ _ _ _ _ (alive_idemp t _) Ex). by apply execute_documented.
  - intros c t k d r d' k' E Hne. unfold holds, redis_call, keyspace_redis in *. destruct (execute c t (alive t (d !! k))) as [r0 e0].
    apply pair_equal_spec in E as [<- <-]. by rewrite lookup_partial_alter_ne.
Qed.
