(* ===== verification/AuthRedisSafety.v ===== *)
(** * The Redis store: what holds of every history

    A challenge is won by one lease, whatever interleaves; budgets hold in every
    window; and a revoked session stays out. *)

From S2P Require Import Prelude GoStrings Sha256 AuthCore MemoryStore Auth Redis RedisSpec.
From S2P Require Import AuthRedis AuthRedisSpec AuthRedisInv.

#[local] Open Scope Z_scope.
#[local] Opaque Sum256.

Section safety.
Context {D : Type} `{RedisLaws D} (prefix : string).
#[local] Instance names : KeyNames slot := slots prefix.
Implicit Types (f : slot → content) (t : clock).
Abbreviation slots_ok := (slots_ok prefix).
Abbreviation effect := (effect prefix).
Abbreviation history := (history prefix).
Abbreviation contents_at := (contents_at prefix).

(** C16: every script of a history succeeds, and the database keeps its shape. *)
Theorem redis_invariant d0 (t0 : Z) hs now d :
  slots_ok (contents_at d0 t0) → history d0 t0 hs now d →
  slots_ok (contents_at d now) ∧ Forall (λ e, is_Some e.2) hs.
Proof using All.
  intros H0' Hh. eapply (history_ind_contents prefix (λ hs _ _, Forall (λ e : event, is_Some e.2) hs));
    [exact Hh|exact H0'|done|by constructor|].
  intros hs' n f f1 t o ans f2 HP _ _ _ _ _ _ He. apply Forall_app. split; [done|].
  apply Forall_singleton. by eapply effect_answers.
Qed.

(** ** What a step may write *)

Definition writes (o : op) (k : slot) : Prop :=
  match o, k with
  | OCreatePreAuth r, BrowserState id => id = pre_ID r
  | OCreatePreAuth r, Bootstrap s => s = digest (pre_Source r)
  | OConsumePreAuth p, BrowserState id => id = pproof_ID p
  | OReserve r, SendAddress a => a = digest (reservation_Email r)
  | OReserve r, SendSource s => s = digest (reservation_Source r)
  | OReserve r, ActiveOf m => m = mailbox_of r
  | OReserve _, ChallengeOf _ => True
  | OVerify a, VerifySource s => s = digest (attempt_Source a)
  | OVerify _, VerifyAddress _ => True
  | (OVerify a | ORelease a | OReject a | OComplete a _), ChallengeOf c => c = attempt_ID a
  | OInvalidate id, ChallengeOf c => c = id
  | OComplete a _, CompletedBy l => l = lease_of a
  | OComplete a _, SessionOf s => s = session_ID (attempt_Session a)
  | OComplete _ i, SessionsOf g => g = digest (identity_ID i)
  | OAuthenticate p, SessionOf s => s = proof_ID p
  | ORevoke p, SessionOf s => s = proof_ID p
  | ORevoke _, SessionsOf _ => True
  | (ORevokeAll _ | ORevokeIdentity _), (SessionOf _ | SessionsOf _) => True
  | _, _ => False
  end.

#[local] Instance writes_dec o k : Decision (writes o k).
Proof. destruct o, k; cbn; apply _. Defined.

(** An updated store at a slot the step does not write. *)
Ltac frame Hw :=
  unfold bootstrapped, verified, completed, seen, rewritten, failure_counted, verify_counted, counted, upd;
  repeat (case_decide; [subst; by destruct Hw|]); try done.

Lemma reserved_frame ms a s m id a3 a5 a6 a7 a8 f k :
  k ≠ SendAddress a → k ≠ SendSource s → k ≠ ActiveOf m → (∀ c, k ≠ ChallengeOf c) →
  reserved prefix ms a s m id a3 a5 a6 a7 a8 f k = f k.
Proof.
  intros Ha Hs Hm Hc. unfold reserved. rewrite upd_ne by apply Hc. rewrite upd_ne by done.
  rewrite retired_other by by (destruct k; try done; by destruct (Hc id0)).
  unfold counted. by rewrite !upd_ne.
Qed.

Lemma all_revoked_frame g f k :
  (∀ s, k ≠ SessionOf s) → k ≠ SessionsOf g → all_revoked prefix g f k = f k.
Proof.
  intros Hs Hg. unfold all_revoked. rewrite upd_ne by done. destruct k; try done. by destruct (Hs id).
Qed.

Lemma effect_frame o t f ans f' k : effect o t f ans f' → ¬ writes o k → f' k = f k.
Proof.
  intros He Hw. destruct o; destruct He as (z & _ & He); revert He.
  - intros [(_ & _ & ->)|[(_ & _ & ->)|(_ & _ & _ & ->)]]; frame Hw.
  - by intros [-> _].
  - intros [(_ & _ & ->)|(_ & _ & ->)]; frame Hw.
  - intros [(_ & _ & ->)|(_ & _ & ->)]; [frame Hw|].
    apply reserved_frame; [intros ->; by destruct Hw..|intros c ->; by destruct Hw].
  - intros [(_ & _ & ->)|(_ & [(_ & _ & ->)|(_ & _ & _ & Hd)])]; [frame Hw..|].
    destruct (decide _) as [_|_]; [destruct Hd as [_ ->]; frame Hw|].
    destruct Hd as (x & n & _ & _ & _ & [(_ & _ & ->)|(_ & _ & ->)]); frame Hw.
  - intros [[_ ->]|(_ & _ & _ & ->)]; frame Hw.
  - intros [[_ ->]|(_ & _ & _ & ->)]; frame Hw.
  - intros [(_ & _ & ->)|[(_ & _ & ->)|(_ & _ & _ & ->)]]; frame Hw.
  - intros (_ & [(_ & ->)|(_ & ->)]); frame Hw.
  - intros [(_ & _ & ->)|(d & l & _ & _ & _ & _ & Hr)]; [done|].
    destruct (_ || _); destruct Hr as [_ Hr]; [subst f'|rewrite Hr]; frame Hw.
  - intros [(_ & _ & ->)|(_ & _ & g & _ & ->)]; [done|].
    unfold revoked. rewrite !upd_ne; [done|intros ->; by destruct Hw..].
  - intros [(_ & _ & ->)|(d & l & g & _ & _ & _ & _ & _ & Hr)]; [done|].
    destruct (_ || _); destruct Hr as [_ Hr]; [subst f'; rewrite upd_ne; [done|intros ->; by destruct Hw]|].
    rewrite Hr. apply all_revoked_frame; [intros s ->|intros ->]; by destruct Hw.
  - intros [_ ->]. apply all_revoked_frame; [intros s ->|intros ->]; by destruct Hw.
Qed.

(** ** One winner *)

Lemma no_challenge f c : f (ChallengeOf c) = None → ¬ challenge_shape (challenge_at f c).
Proof.
  intros E [_ [x Hx] _]. unfold challenge_at in Hx. rewrite E in Hx. cbn in Hx.
  by rewrite lookup_empty in Hx.
Qed.

Lemma retired_missing p f c : f (ChallengeOf c) = None → retired prefix p f (ChallengeOf c) = None.
Proof.
  intros E. destruct p as [p|]; [|done]. cbn. destruct (f (ChallengeOf p)) eqn:Ep; [|done].
  unfold rewritten. rewrite upd_ne; [done|]. congruence.
Qed.

(** A challenge that is gone comes back only by being reserved. *)
Lemma challenge_stays_gone o t f ans f' c :
  effect o t f ans f' → f (ChallengeOf c) = None → (∀ r, o = OReserve r → reservation_ID r ≠ c) →
  f' (ChallengeOf c) = None.
Proof.
  intros He Hc Hr. pose proof (no_challenge _ _ Hc) as Hno.
  assert (Hno' : ∀ r, o = OReserve r → f' (ChallengeOf c) = None).
  { intros r ->. specialize (Hr r eq_refl). destruct He as (z & _ & [(_ & _ & ->)|(_ & _ & ->)]).
    - by rewrite !upd_ne.
    - unfold reserved. rewrite !upd_ne by congruence. apply retired_missing. unfold counted. by rewrite !upd_ne. }
  destruct o; try by (rewrite (effect_frame _ _ _ _ _ (ChallengeOf c) He); [done|intros []]).
  1: by eapply Hno'.
  all: destruct (decide (c = attempt_ID a)) as [->|Hne] || destruct (decide (c = id)) as [->|Hne];
    [|by rewrite (effect_frame _ _ _ _ _ (ChallengeOf c) He)]; destruct He as (z & _ & He); revert He.
  - intros [(_ & _ & ->)|(_ & [(_ & _ & ->)|(Hs & _)])];
      [by rewrite upd_ne|unfold verify_counted; by rewrite upd_ne|done].
  - by intros [[_ ->]|(_ & _ & Hs & _)].
  - by intros [[_ ->]|(_ & _ & Hs & _)].
  - intros [(_ & _ & ->)|[(_ & _ & ->)|(_ & _ & _ & ->)]]; [done|done|]. unfold completed. by rewrite upd_eq.
  - by intros (_ & [(_ & ->)|(Hs & _)]).
Qed.

(** A completion is recorded by the completion itself. *)
Lemma completion_recorded o t f ans f' l :
  effect o t f ans f' → is_Some (f' (CompletedBy l)) →
  is_Some (f (CompletedBy l)) ∨ ∃ a i, o = OComplete a i ∧ lease_of a = l ∧ ans = Some (Number 1).
Proof.
  intros He Hl. destruct o; try by (left; rewrite <-(effect_frame _ _ _ _ _ (CompletedBy l) He); [done|intros []]).
  destruct (decide (l = lease_of a)) as [->|Hne].
  2: { left. by rewrite <-(effect_frame _ _ _ _ _ (CompletedBy l) He). }
  destruct He as (z & -> & [(_ & Hc & ->)|[(_ & _ & ->)|(-> & _)]]); [by left|by left|].
  right. by exists a, i.
Qed.

(** A completion that succeeds is a repetition of one that did, or wins the challenge
    and removes it. *)
Lemma completion_wins a i t f f' :
  effect (OComplete a i) t f (Some (Number 1)) f' →
  is_Some (f (CompletedBy (lease_of a))) ∧ f' = f
  ∨ is_Some (f (ChallengeOf (attempt_ID a))) ∧ f' (ChallengeOf (attempt_ID a)) = None.
Proof.
  intros (z & Hz & [(_ & Hc & ->)|[(-> & _)|(_ & _ & Hl & E)]]); [by left|done|].
  right. split.
  - destruct (f (ChallengeOf (attempt_ID a))) eqn:Ef; [done|].
    unfold challenge_at in Hl. rewrite Ef in Hl. cbn in Hl. by rewrite lookup_empty in Hl.
  - rewrite E. unfold completed. by rewrite upd_eq.
Qed.

(** The completions of [cid] that succeeded. *)
Definition won (hs : list event) (cid l : string) : Prop :=
  ∃ t a i, (t, OComplete a i, Some (Number 1)) ∈ hs ∧ attempt_ID a = cid ∧ lease_of a = l.
(** The identifier of a challenge that was completed is not drawn again. *)
Definition not_reserved_again (cid : string) (hs : list event) : Prop :=
  ∀ hs1 t r ans hs2, hs = hs1 ++ (t, OReserve r, ans) :: hs2 → reservation_ID r = cid →
    ∀ l, ¬ won hs1 cid l.
(** An attempt's session is its own: no two challenges are attempted with it. *)
Definition leases_distinct (hs : list event) : Prop :=
  ∀ t a i ans t' a' i' ans', (t, OComplete a i, ans) ∈ hs → (t', OComplete a' i', ans') ∈ hs →
    lease_of a = lease_of a' → attempt_ID a = attempt_ID a'.

Definition one_winner (cid : string) (hs : list event) (now : Z) f : Prop :=
  not_reserved_again cid hs → leases_distinct hs →
  (∀ l, is_Some (f (CompletedBy l)) → ∃ t a i, (t, OComplete a i, Some (Number 1)) ∈ hs ∧ lease_of a = l)
  ∧ (∀ l, won hs cid l → f (ChallengeOf cid) = None)
  ∧ (∀ l l', won hs cid l → won hs cid l' → l = l').

Lemma one_winner_step cid hs now f f1 t o ans f2 :
  one_winner cid hs now f → passes (ms_of t) f f1 → effect o t f1 ans f2 →
  one_winner cid (hs ++ [(t, o, ans)]) (ms_of t) f2.
Proof.
  intros IH Hp He Hnr Hd.
  assert (Hnr1 : ∀ l, won hs cid l → ∀ r, o = OReserve r → reservation_ID r ≠ cid).
  { intros l Hl r -> Hr. by apply (Hnr hs t r ans [] eq_refl Hr l). }
  assert (Hnr0 : not_reserved_again cid hs).
  { intros hs1 t1 r ans1 hs2 -> Hr. apply (Hnr hs1 t1 r ans1 (hs2 ++ [(t, o, ans)])); [by rewrite <-app_assoc|done]. }
  destruct IH as (Hrec & Hgone & Huniq); [done| |].
  { intros t1 a1 i1 x1 t2 a2 i2 x2 H1' H2'. eapply Hd; apply elem_of_app; by left. }
  assert (Hgone1 : ∀ l, won hs cid l → f1 (ChallengeOf cid) = None).
  { intros l Hl%Hgone. specialize (Hp (ChallengeOf cid)). by rewrite Hl in Hp. }
  assert (Hrec1 : ∀ l, is_Some (f1 (CompletedBy l)) →
                  ∃ t a i, (t, OComplete a i, Some (Number 1)) ∈ hs ∧ lease_of a = l).
  { intros l Hl. apply Hrec. specialize (Hp (CompletedBy l)). unfold aged in Hp.
    destruct (f (CompletedBy l)) as [?|]; [done|]. rewrite Hp in Hl. by destruct Hl. }
  (* what the new event can add *)
  assert (Hnew : ∀ l, won (hs ++ [(t, o, ans)]) cid l →
    won hs cid l ∨ (∀ l', ¬ won hs cid l') ∧ f2 (ChallengeOf cid) = None ∧ ∃ a i, o = OComplete a i ∧ lease_of a = l).
  { intros l (t' & a & i & [Hin|Hin%list_elem_of_singleton]%elem_of_app & <- & <-); [left; by exists t', a, i|].
    injection Hin as <- <- <-.
    destruct (completion_wins _ _ _ _ _ He) as [[Hc ->]|[Hs Hg]].
    - left. destruct (Hrec1 _ Hc) as (t1 & a1 & i1 & Hin & Hl). exists t1, a1, i1. split_and!; [done| |done].
      eapply Hd; [apply elem_of_app; by left|apply elem_of_app; right; apply list_elem_of_singleton; reflexivity|done].
    - right. split_and!; [|done|by exists a, i]. intros l' Hw%Hgone1. rewrite Hw in Hs. by destruct Hs. }
  split_and!.
  - intros l Hl. destruct (completion_recorded _ _ _ _ _ _ He Hl) as [Hc|(a & i & -> & <- & ->)].
    + destruct (Hrec1 _ Hc) as (t1 & a1 & i1 & Hin & <-). exists t1, a1, i1. split; [|done].
      apply elem_of_app. by left.
    + exists t, a, i. split; [|done]. apply elem_of_app. right. by apply list_elem_of_singleton.
  - intros l [Hl|(_ & Hg & _)]%Hnew; [|done]. eapply challenge_stays_gone; [done|by eapply Hgone1|by eapply Hnr1].
  - intros l l' [Hl|(Hno & _ & a & i & Ho & Hl)]%Hnew [Hl'|(Hno' & _ & a' & i' & Ho' & Hl')]%Hnew.
    + by apply Huniq.
    + by destruct (Hno' l).
    + by destruct (Hno l').
    + congruence.
Qed.

(** C13: however the clients of the server interleave and repeat their scripts, the
    completions of one challenge that succeed all carry the same lease: one
    reservation signs in one session, as long as its identifier, once completed, is
    not drawn again. *)
Theorem redis_single_winner d0 (t0 : Z) hs now d cid l l' :
  slots_ok (contents_at d0 t0) → (∀ l, contents_at d0 t0 (CompletedBy l) = None) →
  history d0 t0 hs now d → not_reserved_again cid hs → leases_distinct hs →
  won hs cid l → won hs cid l' → l = l'.
Proof using All.
  intros H0' Hfresh Hh Hnr Hd.
  destruct (history_ind_contents prefix (one_winner cid) d0 t0 hs now d Hh H0') as [_ HP].
  - intros f f' hs' n E HP Hr Hl. destruct (HP Hr Hl) as (H1' & H2' & H3').
    split_and!; [intros l0; rewrite E; by apply H1'|intros l0; rewrite E; by apply H2'|done].
  - intros _ _. split_and!.
    + intros l0 Hl. rewrite Hfresh in Hl. by destruct Hl.
    + intros l0 (t & a & i & []%elem_of_nil & _).
    + intros l0 l1 (t & a & i & []%elem_of_nil & _).
  - intros hs' n f f1 t o ans f2 HP _ _ Hp _ _ _ He. by eapply one_winner_step.
  - by apply HP.
Qed.

(** ** Budgets *)

(** The windows with a budget, and what an event spends of one. *)
Definition limit_of (k : slot) : option Z :=
  match k with
  | SendAddress _ => Some 5
  | SendSource _ | Bootstrap _ => Some 20
  | VerifySource _ => Some 100
  | _ => None
  end.

Definition spends (k : slot) (e : event) : option (Z * string) :=
  match e with
  | (t, o, ans) =>
      match o, k with
      | OReserve r, SendAddress a =>
          if decide (ans = Some (Number 1) ∧ a = digest (reservation_Email r))
          then Some (ms_of t, reservation_ID r) else None
      | OReserve r, SendSource s =>
          if decide (ans = Some (Number 1) ∧ s = digest (reservation_Source r))
          then Some (ms_of t, reservation_ID r) else None
      | OCreatePreAuth r, Bootstrap s =>
          if decide (ans = Some (Number 1) ∧ s = digest (pre_Source r))
          then Some (ms_of t, pre_ID r) else None
      | OVerify a, VerifySource s =>
          if decide ((ans = Some (Number 0) ∨ ans = Some (Number 1)) ∧ s = digest (attempt_Source a))
          then Some (ms_of t, lease_of a) else None
      | _, _ => None
      end
  end.

(** What the events of the last hour spent. *)
Definition spent_lately (k : slot) (hs : list event) (now : Z) : gset (Z * string) :=
  list_to_set (List.filter (λ x, now - window <? x.1) (omap (spends k) hs)).

Lemma effect_window o t f ans f' k limit :
  effect o t f ans f' → limit_of k = Some limit →
  (f' k = f k ∨ f' k = pruned (ms_of t) (f k)) ∧ spends k (t, o, ans) = None
  ∨ ∃ id, f' k = spent_on (ms_of t) id (pruned (ms_of t) (f k)) ∧ budget_left (ms_of t) limit (f k)
          ∧ (spends k (t, o, ans) = None ∨ spends k (t, o, ans) = Some (ms_of t, id)).
Proof.
  intros He Hk.
  destruct (decide (writes o k)) as [Hw|Hw].
  2: { left. split; [left; by eapply effect_frame|].
       destruct o, k; try done; cbn in Hw |- *; rewrite decide_False; naive_solver. }
  destruct o, k; try done; cbn in Hk; injection Hk as <-; cbn in Hw; subst; destruct He as (z & -> & He);
    revert He; cbn [spends].
  - intros [(-> & _ & ->)|[(-> & _ & ->)|(-> & _ & Hb & ->)]].
    + left. split; [by left|]. by rewrite decide_False by naive_solver.
    + left. split; [right; by rewrite upd_eq|]. by rewrite decide_False by naive_solver.
    + right. eexists. split; [unfold bootstrapped; by look|]. split; [done|].
      right. by rewrite decide_True.
  - intros [(-> & _ & ->)|(-> & Hno & ->)].
    + left. split; [right; by look|]. by rewrite decide_False by naive_solver.
    + right. eexists. split; [|split; [|right; by rewrite decide_True]].
      * unfold reserved. look. rewrite retired_other by done. unfold counted. by look.
      * apply dec_stable. tauto.
  - intros [(-> & _ & ->)|(-> & Hno & ->)].
    + left. split; [right; by look|]. by rewrite decide_False by naive_solver.
    + right. eexists. split; [|split; [|right; by rewrite decide_True]].
      * unfold reserved. look. rewrite retired_other by done. unfold counted. by look.
      * apply dec_stable. tauto.
  - intros Hv. assert (Hspend : ∀ z, spends (VerifySource (digest (attempt_Source a))) (t, OVerify a, Number <$> z) = None
      ∨ spends (VerifySource (digest (attempt_Source a))) (t, OVerify a, Number <$> z) = Some (ms_of t, lease_of a)).
    { intros y. cbn [spends]. case_decide; [by right|by left]. }
    destruct Hv as [(-> & _ & ->)|(Hb & Hv)].
    { left. split; [right; by look|]. by rewrite decide_False by naive_solver. }
    right. exists (lease_of a). split; [|split; [exact Hb|apply Hspend]].
    destruct Hv as [(_ & _ & ->)|(_ & _ & _ & Hd)]; [unfold verify_counted; by look|].
    destruct (decide _) as [_|_]; [destruct Hd as [_ ->]|destruct Hd as (x & n & _ & _ & _ & [(_ & _ & ->)|(_ & _ & ->)])];
      unfold verified, rewritten, failure_counted, rewritten, verify_counted; by look.
Qed.

Definition kept (k : slot) (τ : Z) (id : string) f : Prop :=
  zset (f k) !! member_of τ id = Some τ ∧ ∃ v dl, f k = Some (v, Some dl) ∧ τ + window + 60000 <= dl.

Definition tracked (k : slot) (limit : Z) (hs : list event) (now : Z) f : Prop :=
  (∀ τ id, (τ, id) ∈ omap (spends k) hs → 0 <= τ <= now ∧ (now - window < τ → kept k τ id f))
  ∧ (omap (spends k) hs ≠ [] → Z.of_nat (size (zset (f k))) <= limit).

Lemma member_of_inj τ id τ' id' :
  0 <= τ → 0 <= τ' → member_of τ id = member_of τ' id' → τ = τ' ∧ id = id'.
Proof.
  intros Hτ Hτ' E. unfold member_of in E. apply cut_colon in E as [E ->]; [|by apply Itoa_digits..].
  by apply Itoa_inj in E.
Qed.

Lemma size_pruned ms e : (size (zset (pruned ms e)) ≤ size (zset e))%nat.
Proof. rewrite zset_pruned. apply map_size_filter. Qed.

Lemma size_spent ms id e : (size (zset (spent_on ms id e)) ≤ S (size (zset e)))%nat.
Proof.
  change (zset (spent_on ms id e)) with (<[member_of ms id := ms]> (zset e)).
  rewrite map_size_insert. case_match; unfold Datatypes.id; lia.
Qed.

Lemma zset_aged now e e' : aged now e e' → e' = e ∨ zset e' = ∅.
Proof.
  unfold aged. destruct e as [[v [d|]]|]; [|by left..]. intros [[-> _]|[-> _]]; [by left|by right].
Qed.

Lemma kept_aged k τ id now f f1 :
  aged now (f k) (f1 k) → now - window < τ → kept k τ id f → kept k τ id f1.
Proof.
  intros Ha Hw (Hz & v & dl & E & Hdl). unfold aged in Ha. rewrite E in Ha.
  assert (f1 k = f k) as Ef by (destruct Ha as [[-> _]|[_ ?]]; [done|unfold window in *; lia]).
  unfold kept. rewrite Ef. split; [done|]. by exists v, dl.
Qed.

Lemma kept_pruned k τ id ms f f' :
  f' k = pruned ms (f k) → ms - window < τ → kept k τ id f → kept k τ id f'.
Proof.
  intros E Hw (Hz & v & dl & Ef & Hdl). unfold kept. rewrite E, zset_pruned.
  assert (Hm : filter (λ kv : string * Z, ms - window < kv.2) (zset (f k)) !! member_of τ id = Some τ)
    by by apply map_lookup_filter_Some.
  split; [done|]. unfold pruned, put_zset. rewrite decide_False by (intros E'; by rewrite E' in Hm).
  eexists _, dl. split; [|done]. by rewrite Ef.
Qed.

Lemma kept_spent k τ id ms id' f f' :
  0 <= τ <= ms → f' k = spent_on ms id' (pruned ms (f k)) → ms - window < τ →
  kept k τ id f ∨ (τ, id) = (ms, id') → kept k τ id f'.
Proof.
  intros Hτ E Hw Hk. unfold kept. rewrite E. unfold zset, spent_on. cbn.
  split; [|eexists _, _; split; [done|lia]].
  destruct (decide (member_of ms id' = member_of τ id)) as [Em|Hne].
  - apply member_of_inj in Em as [-> ->]; [|lia..]. by rewrite lookup_insert_eq.
  - rewrite lookup_insert_ne by done. destruct Hk as [Hk|[= -> ->]]; [|done].
    apply (kept_pruned _ _ _ ms f (λ _, pruned ms (f k))) in Hk; [apply Hk|done|done].
Qed.

Lemma tracked_step k limit hs now f f1 t o ans f2 :
  limit_of k = Some limit → tracked k limit hs now f → now <= ms_of t → clock_ok t →
  passes (ms_of t) f f1 → effect o t f1 ans f2 →
  tracked k limit (hs ++ [(t, o, ans)]) (ms_of t) f2.
Proof.
  intros Hk [IHk IHs] Hle Ht Hp He. unfold clock_ok in Ht. unfold tracked. rewrite omap_app.
  assert (Hk1 : ∀ τ id, (τ, id) ∈ omap (spends k) hs →
            0 <= τ <= ms_of t ∧ (ms_of t - window < τ → kept k τ id f1)).
  { intros τ id [Hτ Hin]%IHk. split; [lia|]. intros Hw. eapply kept_aged; [apply Hp|done|]. apply Hin. lia. }
  assert (Hs1 : omap (spends k) hs ≠ [] → Z.of_nat (size (zset (f1 k))) <= limit).
  { intros Hne%IHs. destruct (zset_aged _ _ _ (Hp k)) as [->| ->]; [done|]. rewrite map_size_empty. lia. }
  destruct (effect_window _ _ _ _ _ _ _ He Hk) as [[Hf2 Hno]|(id & Hf2 & Hb & Hsp)].
  - cbn [omap list_omap]. rewrite Hno, app_nil_r. split.
    + intros τ id [Hτ Hin]%Hk1. split; [done|]. intros Hw. destruct Hf2 as [E|E].
      * unfold kept. rewrite E. by apply Hin.
      * by eapply kept_pruned, Hin.
    + intros Hne%Hs1. destruct Hf2 as [->| ->]; [done|]. pose proof (size_pruned (ms_of t) (f1 k)). lia.
  - split.
    + intros τ id' Hin. assert (Hc : (τ, id') ∈ omap (spends k) hs ∨ (τ, id') = (ms_of t, id)).
      { apply elem_of_app in Hin as [Hin|Hin]; [by left|right]. cbn [omap list_omap] in Hin.
        destruct Hsp as [Hsp|Hsp]; rewrite Hsp in Hin; [by apply elem_of_nil in Hin|].
        by apply list_elem_of_singleton in Hin. }
      assert (Hτ : 0 <= τ <= ms_of t) by (destruct Hc as [[Hc _]%Hk1|[= -> ->]]; lia).
      split; [done|]. intros Hw. eapply kept_spent; [done..|].
      destruct Hc as [Hc|Hc]; [left; by apply Hk1|by right].
    + intros _. rewrite Hf2. pose proof (size_spent (ms_of t) id (pruned (ms_of t) (f1 k))).
      unfold budget_left in Hb. lia.
Qed.

(** C15: no history of scripts, however interleaved, exceeds a budget: of the sends to an
    address, the sends and bootstraps of a source and the verifications of a source
    that were let through, at most 5, 20, 20 and 100 fall within any hour. *)
Theorem redis_budgets d0 (t0 : Z) hs now d k limit :
  slots_ok (contents_at d0 t0) → history d0 t0 hs now d → limit_of k = Some limit →
  Z.of_nat (size (spent_lately k hs now)) <= limit.
Proof using All.
  intros H0' Hh Hk.
  destruct (history_ind_contents prefix (tracked k limit) d0 t0 hs now d Hh H0') as [_ [Hin Hs]].
  - intros f f' hs' n E HP. unfold tracked, kept. by rewrite !E.
  - split; [by intros τ id Hin%elem_of_nil|done].
  - intros hs' n f f1 t o ans f2 HP _ Hle Hp _ Ht _ He. by eapply tracked_step.
  - unfold spent_lately. set (l := List.filter _ _).
    destruct (decide (omap (spends k) hs = [])) as [En|Hne].
    { unfold l. rewrite En. cbn [List.filter list_to_set]. rewrite size_empty. destruct k; try done; cbn in Hk; injection Hk as <-; lia. }
    etrans; [|exact (Hs Hne)]. apply inj_le. set (X := list_to_set l : gset (Z * string)).
    assert (HX : ∀ x, x ∈ X → 0 <= x.1 ∧ zset (contents_at d now k) !! member_of x.1 x.2 = Some x.1).
    { intros [τ id] Hx. apply elem_of_list_to_set, list_elem_of_In, filter_In in Hx as [Hx Hw].
      apply list_elem_of_In, Hin in Hx as [Hτ Hx]. apply Z.ltb_lt in Hw. cbn in *. split; [lia|by apply Hx]. }
    unfold size at 1, set_size. cbn. rewrite <-(length_fmap (λ x, member_of x.1 x.2)).
    rewrite <-(size_dom (D := gset string)). unfold size at 1, set_size. cbn.
    apply submseteq_length, NoDup_submseteq.
    + apply NoDup_fmap_2_strong; [|apply NoDup_elements].
      intros [τ id] [τ' id'] Hx%elem_of_elements%HX Hy%elem_of_elements%HX E. cbn in *.
      destruct (member_of_inj _ _ _ _ (proj1 Hx) (proj1 Hy) E) as [-> ->]. done.
    + intros m ([τ id] & -> & Hx%elem_of_elements%HX)%list_elem_of_fmap. apply elem_of_elements, elem_of_dom.
      by eexists; apply Hx.
Qed.

(** ** Revocation *)

(** A session that is still there, and its deadline. *)
Definition session_until f (s : string) (d : Z) : Prop :=
  f (SessionOf s) = Some (HashValue (session_at f s), Some d).
Definition belongs f (s g : string) : Prop :=
  session_at f s !! "identity_sessions" = Some (slot_key prefix (SessionsOf g)).

(** Every session in force is listed under its identity, whose list outlives it. *)
Definition indexed (now : Z) f : Prop :=
  ∀ s d, session_until f s d → d <= now + session_ttl
    ∧ (now < d → ∃ g m d', belongs f s g ∧ f (SessionsOf g) = Some (SetValue m, Some d')
                           ∧ s ∈ m ∧ d <= d').

Lemma session_same f f' s : f' (SessionOf s) = f (SessionOf s) → session_at f' s = session_at f s.
Proof. intros E. unfold session_at. by rewrite E. Qed.

(** What is still there was there before. *)
Lemma aged_back now e e' : aged now e e' → is_Some e' → e' = e.
Proof.
  unfold aged. destruct e as [[v [d|]]|]; [|done..]. by intros [[-> _]|[-> _]] []. 
Qed.

Lemma indexed_passes now now' f f1 : now <= now' → passes now' f f1 → indexed now f → indexed now' f1.
Proof.
  intros Hle Hp Hi s d Hs. unfold session_until in Hs.
  assert (E : f1 (SessionOf s) = f (SessionOf s)) by (eapply aged_back; [apply Hp|by rewrite Hs]).
  pose proof (session_same _ _ _ E) as Es. rewrite E, Es in Hs.
  destruct (Hi s d Hs) as [Hd Hin]. split; [lia|]. intros Hlt.
  destruct Hin as (g & m & d' & Hb & Hg & Hm & Hdd); [lia|]. exists g, m, d'.
  unfold belongs. rewrite Es. split_and!; try done.
  specialize (Hp (SessionsOf g)). rewrite Hg in Hp. destruct Hp as [[-> _]|[_ ?]]; [done|lia].
Qed.

(** One session and its list are what matters to [indexed]. *)
Lemma indexed_same now f f' s d :
  indexed now f → session_until f' s d → f' (SessionOf s) = f (SessionOf s) →
  (∀ g m d', belongs f s g → f (SessionsOf g) = Some (SetValue m, Some d') → s ∈ m → now < d → d <= d' →
     d <= now + session_ttl →
     ∃ m' d'', f' (SessionsOf g) = Some (SetValue m', Some d'') ∧ s ∈ m' ∧ d <= d'') →
  d <= now + session_ttl ∧ (now < d → ∃ g m d', belongs f' s g ∧ f' (SessionsOf g) = Some (SetValue m, Some d')
                                                ∧ s ∈ m ∧ d <= d').
Proof.
  intros Hi Hs E Hset. pose proof (session_same _ _ _ E) as Es.
  unfold session_until in Hs. rewrite E, Es in Hs. destruct (Hi s d Hs) as [Hd Hin]. split; [done|].
  intros Hlt. destruct (Hin Hlt) as (g & m & d' & Hb & Hg & Hm & Hdd).
  destruct (Hset g m d' Hb Hg Hm Hlt Hdd Hd) as (m' & d'' & Hg' & Hm' & Hd').
  exists g, m', d''. unfold belongs. by rewrite Es.
Qed.

Lemma members_eq f g m d : f (SessionsOf g) = Some (SetValue m, d) → members f g = m.
Proof. intros E. unfold members. by rewrite E. Qed.

Lemma indexed_completed t c l s g a3 a4 a5 a6 a7 f f' :
  (∀ k, f' k = completed prefix (ms_of t) c l s g a3 a4 a5 a6 a7 f k) →
  indexed (ms_of t) f → indexed (ms_of t) f'.
Proof.
  intros E Hi s' d Hs'. destruct (decide (s' = s)) as [->|Hne].
  - unfold session_until in Hs'. rewrite E in Hs'. unfold completed in Hs'. look_in Hs'.
    injection Hs' as _ <-. split; [lia|]. intros _.
    exists g, (members f g ∪ {[s]}), (ms_of t + session_ttl). split_and!; [| | |lia].
    + unfold belongs, session_at. rewrite E. unfold completed. look. cbn. unfold session_fields. cbn [foldl].
      by rewrite lookup_insert_eq.
    + rewrite E. unfold completed. by look.
    + clear. set_solver.
  - eapply indexed_same; [done..| |].
    + rewrite E. unfold completed. by look.
    + intros g' m d' _ Hg' Hm Hlt Hdd Httl. rewrite E. unfold completed.
      destruct (decide (g' = g)) as [->|Hg]; look.
      * eexists _, _. split; [done|]. rewrite (members_eq _ _ _ _ Hg'). split; [|lia].
        clear -Hm. set_solver.
      * by exists m, d'.
Qed.

Lemma indexed_deleted now s f : indexed now f → indexed now (upd (SessionOf s) None f).
Proof.
  intros Hi s' d Hs'. destruct (decide (s' = s)) as [->|Hne].
  - unfold session_until in Hs'. by look_in Hs'.
  - eapply indexed_same; [done..|by look|]. intros g m d' _ Hg Hm _ Hdd _. look. by exists m, d'.
Qed.

Lemma indexed_seen now d0 s x f f' :
  (∀ k, f' k = seen prefix now d0 s f k) → f (SessionOf s) = Some (x, Some d0) →
  x = HashValue (session_at f s) → indexed now f → indexed now f'.
Proof.
  intros E Ef -> Hi s' d Hs'. destruct (decide (s' = s)) as [->|Hne].
  - assert (d = d0) as ->.
    { unfold session_until in Hs'. rewrite E in Hs'. unfold seen in Hs'. look_in Hs'. by injection Hs'. }
    destruct (Hi s d0 Ef) as [Hd Hin]. split; [done|]. intros Hlt.
    destruct (Hin Hlt) as (g & m & d' & Hb & Hg & Hm & Hdd). exists g, m, d'. split_and!; try done.
    + unfold belongs, session_at. rewrite E. unfold seen. look. cbn. by rewrite lookup_insert_ne.
    + rewrite E. unfold seen. by look.
  - eapply indexed_same; [done..| |].
    + rewrite E. unfold seen. by look.
    + intros g m d' _ Hg Hm _ Hdd _. rewrite E. unfold seen. look. by exists m, d'.
Qed.

Lemma indexed_revoked now s g f : indexed now f → indexed now (revoked prefix s g f).
Proof.
  intros Hi s' d Hs'. unfold revoked in *. destruct (decide (s' = s)) as [->|Hne].
  { unfold session_until in Hs'. by look_in Hs'. }
  eapply indexed_same; [done..|by look|]. intros g' m d' _ Hg Hm _ Hdd _.
  destruct (decide (g' = g)) as [->|Hgg]; look; [|by exists m, d'].
  rewrite (members_eq _ _ _ _ Hg). assert (Hin : s' ∈ m ∖ {[s]}) by (clear -Hm Hne; set_solver).
  exists (m ∖ {[s]}), d'. unfold put_set. rewrite decide_False.
  - rewrite Hg. by split_and!.
  - intros E. by rewrite E, elem_of_empty in Hin.
Qed.

(** A session the revocation of a list leaves is not on that list. *)
Lemma all_revoked_session g f s d :
  session_until (all_revoked prefix g f) s d → (s ∉ members f g) ∧ session_until f s d.
Proof.
  unfold session_until, all_revoked, session_at. look. unfold without.
  destruct (decide (s ∈ members f g)); [done|]. by split.
Qed.

Lemma all_revoked_indexed now g f : indexed now f → indexed now (all_revoked prefix g f).
Proof.
  intros Hi s d Hs. destruct (all_revoked_session _ _ _ _ Hs) as [Hno Hs0].
  eapply indexed_same; [done..| |].
  - unfold session_until in Hs, Hs0. rewrite Hs0 in *. rewrite Hs. f_equal. f_equal. f_equal.
    unfold all_revoked, session_at. look. unfold without. by rewrite decide_False.
  - intros g' m d' Hb Hg Hm Hlt Hdd _. unfold all_revoked. destruct (decide (g' = g)) as [->|Hne].
    + by rewrite (members_eq _ _ _ _ Hg) in Hno.
    + look. by exists m, d'.
Qed.

Lemma indexed_ext now f f' : (∀ k, f' k = f k) → indexed now f → indexed now f'.
Proof.
  intros E Hi s d. unfold session_until, belongs, session_at. rewrite !E. intros Hs.
  destruct (Hi s d Hs) as [Hd Hin]. split; [done|]. intros Hlt.
  destruct (Hin Hlt) as (g & m & d' & Hb & Hg & ?). exists g, m, d'. by rewrite E.
Qed.

Lemma indexed_frame now o t f ans f' :
  effect o t f ans f' → (∀ s, ¬ writes o (SessionOf s)) → (∀ g, ¬ writes o (SessionsOf g)) →
  indexed now f → indexed now f'.
Proof.
  intros He Hs Hg Hi s d Hd.
  pose proof (effect_frame _ _ _ _ _ _ He (Hs s)) as Es. eapply indexed_same; [done..|].
  intros g m d' _ Hgm Hm _ Hdd _. rewrite (effect_frame _ _ _ _ _ _ He (Hg g)). by exists m, d'.
Qed.

Lemma indexed_effect o t f ans f' :
  effect o t f ans f' → indexed (ms_of t) f → indexed (ms_of t) f'.
Proof.
  intros He Hi.
  destruct o; try solve [eapply indexed_frame; [exact He|intros ? []|intros ? []|exact Hi]];
    destruct He as (z & _ & He); revert He.
  - intros [(_ & _ & ->)|[(_ & _ & ->)|(_ & _ & _ & E)]]; [done..|by eapply indexed_completed].
  - intros [(_ & _ & ->)|(d & l & _ & E & _ & _ & Hr)]; [done|].
    destruct (_ || _); destruct Hr as [_ Hr]; [subst f'; by apply indexed_deleted|by eapply indexed_seen].
  - intros [(_ & _ & ->)|(_ & _ & g & _ & ->)]; [done|by apply indexed_revoked].
  - intros [(_ & _ & ->)|(d & l & g & _ & _ & _ & _ & _ & Hr)]; [done|].
    destruct (_ || _); destruct Hr as [_ Hr]; [subst f'; by apply indexed_deleted|].
    by eapply indexed_ext, all_revoked_indexed.
  - intros [_ E]. by eapply indexed_ext, all_revoked_indexed.
Qed.

(** A session that lets nobody in: gone, or past its deadline. *)
Definition barred (s : string) (now : Z) f : Prop := ∀ d, session_until f s d → d <= now.

(** The operations that end the session [s]. *)
Definition ends f (o : op) (s : string) : Prop :=
  match o with
  | ORevoke p => proof_ID p = s
  | ORevokeAll p => ∃ g, belongs f (proof_ID p) g ∧ belongs f s g
  | ORevokeIdentity identity => belongs f s (digest identity)
  | _ => False
  end.

Lemma ends_barred o t f f' s :
  effect o t f (Some (Number 1)) f' → indexed (ms_of t) f → ends f o s → barred s (ms_of t) f'.
Proof.
  intros He Hi Hs.
  assert (Hall : ∀ g, belongs f s g → (∀ k, f' k = all_revoked prefix g f k) → barred s (ms_of t) f').
  { intros g Hb E d Hd.
    assert (Hd' : session_until (all_revoked prefix g f) s d).
    { unfold session_until, session_at in *. by rewrite <-!E. }
    destruct (all_revoked_session _ _ _ _ Hd') as [Hno Hd0]. destruct (Z.le_gt_cases d (ms_of t)) as [?|Hlt]; [done|].
    destruct (proj2 (Hi s d Hd0) Hlt) as (g' & m & d' & Hb' & Hg & Hm & _).
    unfold belongs in Hb, Hb'. rewrite Hb in Hb'. injection Hb' as Hgg.
    apply (inj (slot_key prefix)) in Hgg as [= <-]. by rewrite (members_eq _ _ _ _ Hg) in Hno. }
  destruct o; try done; destruct He as (z & Hz & He); revert He.
  - intros [(-> & _)|(_ & _ & g & _ & ->)]; [done|]. cbn in Hs. subst s. intros d Hd.
    unfold session_until, revoked in Hd. by look_in Hd.
  - destruct Hs as (g & Hp & Hb).
    intros [(-> & _)|(d & l & g' & _ & _ & _ & _ & Hg' & Hr)]; [done|].
    destruct (_ || _); [by destruct Hr as [-> _]|]. unfold belongs in Hp. rewrite Hp in Hg'. injection Hg' as Hgg.
    apply (inj (slot_key prefix)) in Hgg as [= <-]. destruct Hr as [_ E]. by eapply Hall.
  - intros [_ E]. by eapply Hall.
Qed.

(** ** What revocation promises *)

Lemma barred_passes s now now' f f1 : now <= now' → passes now' f f1 → barred s now f → barred s now' f1.
Proof.
  intros Hle Hp Hb d Hd. unfold session_until in Hd.
  assert (E : f1 (SessionOf s) = f (SessionOf s)) by (eapply aged_back; [apply Hp|by rewrite Hd]).
  rewrite E, (session_same _ _ _ E) in Hd. specialize (Hb d Hd). lia.
Qed.

Definition not_signed_in (s : string) (hs : list event) : Prop :=
  Forall (λ e, ∀ a i, e.1.2 = OComplete a i → session_ID (attempt_Session a) ≠ s) hs.

Lemma barred_effect s o t f ans f' :
  effect o t f ans f' → slots_ok f → barred s (ms_of t) f →
  (∀ a i, o = OComplete a i → session_ID (attempt_Session a) ≠ s) → barred s (ms_of t) f'.
Proof.
  intros He Hf Hb Hno d Hd.
  destruct (decide (writes o (SessionOf s))) as [Hw|Hw].
  2: { pose proof (effect_frame _ _ _ _ _ _ He Hw) as E. apply Hb. unfold session_until in *.
       by rewrite <-E, <-(session_same _ _ _ E). }
  destruct o; try done; cbn in Hw; try subst s.
  - by destruct (Hno a i).
  - destruct He as (z & _ & [(_ & _ & ->)|(d0 & l & _ & E & _ & _ & Hr)]); [by apply Hb|].
    destruct (_ || _) eqn:Ho; destruct Hr as [_ Hr]; [subst f'; unfold session_until in Hd; by look_in Hd|].
    specialize (Hb d0 E). apply orb_false_iff in Ho as [Ho%Z.leb_gt _]. lia.
  - destruct He as (z & _ & [(_ & _ & ->)|(_ & _ & g & _ & ->)]); [by apply Hb|].
    unfold session_until, revoked in Hd. by look_in Hd.
  - destruct He as (z & _ & [(_ & _ & ->)|(d0 & l & g & _ & _ & _ & _ & _ & Hr)]); [by apply Hb|].
    destruct (_ || _); destruct Hr as [_ Hr].
    + subst f'. destruct (decide (s = proof_ID p)) as [->|Hne].
      * unfold session_until in Hd. by look_in Hd.
      * apply Hb. unfold session_until, session_at in *. by look_in Hd.
    + assert (Hd' : session_until (all_revoked prefix g f) s d).
      { unfold session_until, session_at in *. by rewrite <-!Hr. }
      by apply Hb, (all_revoked_session g).
  - destruct He as (z & _ & [_ Hr]).
    assert (Hd' : session_until (all_revoked prefix (digest identity) f) s d).
    { unfold session_until, session_at in *. by rewrite <-!Hr. }
    by apply Hb, (all_revoked_session (digest identity)).
Qed.

Lemma barred_refused p t f ans f' :
  effect (OAuthenticate p) t f ans f' → barred (proof_ID p) (ms_of t) f → ans = Some (Values []).
Proof.
  intros (z & -> & [(-> & _ & _)|(d & l & _ & E & _ & _ & Hr)]) Hb; [done|].
  specialize (Hb d E). rewrite (proj2 (Z.leb_le _ _) Hb) in Hr. cbn in Hr. by destruct Hr as [-> _].
Qed.

(** C14: a session that is revoked, alone or with all those of its identity, lets nobody
    in again, whatever runs afterwards: only a new sign-in could bring its
    identifier back. *)
Theorem redis_revoked_stays_out d0 (t0 : Z) hs now d1 t o d2 s hs' now' d p t' :
  slots_ok (contents_at d0 t0) → (∀ x, contents_at d0 t0 (SessionOf x) = None) →
  history d0 t0 hs now d1 →
  now <= ms_of t → clock_ok t → op_ok o → script_of prefix o t d1 = (Some (Number 1), d2) →
  ends (contents_at d1 (ms_of t)) o s →
  history d2 (ms_of t) hs' now' d → not_signed_in s hs' →
  proof_ID p = s → now' <= ms_of t' → clock_ok t' →
  fst (script_of prefix (OAuthenticate p) t' d) = Some (Values []).
Proof using All.
  intros H0' Hnone Hh1 Hle Ht Ho Hrun Hends Hh2 Hno <- Hle' Ht'.
  destruct (history_ind_contents prefix (λ _ now f, indexed now f) _ _ _ _ _ Hh1 H0') as [Hs1 Hi1].
  { intros f f' _ n E. by apply indexed_ext. }
  { intros x d' Hx. unfold session_until in Hx. by rewrite Hnone in Hx. }
  { intros _ n f f1 t1 o1 ans f2 Hi _ Hn Hp _ _ _ He. by eapply indexed_effect, indexed_passes. }
  (* the revocation *)
  pose proof (contents_pass prefix d1 _ _ Hle) as Hp. pose proof (passes_ok prefix _ _ _ Hs1 Hp) as Hs1'.
  destruct (spec_run _ _ _ _ _ _ _ (op_effect prefix o t _ Hs1' Ht Ho) (contents_view prefix _ _) Hrun)
    as (f2 & Hv & He).
  assert (Hb : barred (proof_ID p) (ms_of t) f2) by (eapply ends_barred; [done|by eapply indexed_passes|done]).
  pose proof (effect_ok prefix _ _ _ _ _ Hs1' Ht He) as Hs2.
  assert (Hs2' : slots_ok (contents_at d2 (ms_of t))) by by eapply slots_ext.
  (* what follows *)
  destruct (history_ind_contents prefix (λ hs now f, not_signed_in (proof_ID p) hs → barred (proof_ID p) now f)
              _ _ _ _ _ Hh2 Hs2') as [Hs3 Hb3].
  { intros f f' hs1 n E Hbf Hn d' Hd. apply Hbf; [done|]. unfold session_until, session_at in *. by rewrite <-!E. }
  { intros _ d' Hd. apply Hb. unfold session_until, session_at in *. by rewrite <-!(Hv _ : contents_at d2 (ms_of t) _ = _). }
  { intros hs1 n f f1 t1 o1 ans f3 IH _ Hn Hpp Hsf Ht1 Ho1 He1 Hns.
    apply Forall_app in Hns as [Hns Hn1]. rewrite Forall_singleton in Hn1.
    eapply barred_effect; [done|done|by eapply barred_passes, IH|exact Hn1]. }
  specialize (Hb3 Hno). pose proof (contents_pass prefix d _ _ Hle') as Hp3.
  pose proof (passes_ok prefix _ _ _ Hs3 Hp3) as Hs3'.
  destruct (script_of prefix (OAuthenticate p) t' d) as [ans d3] eqn:E3.
  destruct (spec_run _ _ _ _ _ _ _ (op_effect prefix (OAuthenticate p) t' _ Hs3' Ht' I) (contents_view prefix _ _) E3)
    as (f3 & _ & He3).
  eapply barred_refused; [done|]. by eapply barred_passes.
Qed.

End safety.
