(* ===== verification/AuthPg.v ===== *)
(** * Durable identities in PostgreSQL: authpg/authpg.go

    The identity schema as a migration of the engine, and [ResolveVerified], which
    turns a verified address into one durable identity inside a transaction.

    The database is any type [T] with the two tables as [Tables] observes and
    changes them, one operation per statement of the source, and [TablesLaws] for
    what the schema promises of them.  A transaction works on a copy that replaces
    the durable state when it commits: transactions for one address are serialized
    by the advisory lock they begin with, those for other addresses touch other
    rows.  Every call to the database may fail, and a commit that reports a failure
    may have taken effect. *)

From S2P Require Import Prelude GoStrings Sha256 AuthCore MemoryStore Auth Migrate.

#[local] Open Scope Z_scope.

(** ** The schema *)

Definition migrationVersion : string := "20260911160000".

Definition schemaUp : list string :=
  ["CREATE TABLE fabrin_auth_identities (" +:+ newline +:+
   tab +:+ tab +:+ "id TEXT PRIMARY KEY," +:+ newline +:+
   tab +:+ tab +:+ "email TEXT NOT NULL UNIQUE," +:+ newline +:+
   tab +:+ tab +:+ "created_at TIMESTAMPTZ NOT NULL," +:+ newline +:+
   tab +:+ tab +:+ "disabled BOOLEAN NOT NULL DEFAULT FALSE" +:+ newline +:+
   tab +:+ ")";
   "CREATE TABLE fabrin_auth_invitations (" +:+ newline +:+
   tab +:+ tab +:+ "email TEXT PRIMARY KEY," +:+ newline +:+
   tab +:+ tab +:+ "created_at TIMESTAMPTZ NOT NULL," +:+ newline +:+
   tab +:+ tab +:+ "consumed_at TIMESTAMPTZ" +:+ newline +:+
   tab +:+ ")"].

Definition schemaDown : list string :=
  ["DROP TABLE fabrin_auth_invitations"; "DROP TABLE fabrin_auth_identities"].

Section migration.
Context {T : Type}.
(** [h.ExecContext]: the data a statement leaves, or an error. *)
Context (ExecContext : string → T → option T).

Fixpoint exec_all (statements : list string) (data : T) : option T :=
  match statements with
  | [] => Some data
  | s :: statements' => data' ← ExecContext s data; exec_all statements' data'
  end.

Definition Migration : M T := {|
  Version := migrationVersion;
  Name := "create Fabrin identity tables";
  Up := Some (exec_all schemaUp);
  Down := Some (exec_all schemaDown);
|}.
End migration.

(** ** Construction *)

Record settings := { invitationsRequired : bool }.
Definition WithInvitationsRequired (_ : settings) : settings := {| invitationsRequired := true |}.

Fixpoint apply_options (i : nat) (options : list (option (settings → settings))) (s : settings)
    : result error settings :=
  match options with
  | [] => Ok s
  | None :: _ => Err (NewError ("authpg: option " +:+ Itoa (Z.of_nat i) +:+ " is nil"))
  | Some option :: options' => apply_options (S i) options' (option s)
  end.

(** [given] says whether a database was handed in; the store is its settings. *)
Definition New (given : bool) (options : list (option (settings → settings))) : result error settings :=
  if negb given then Err (NewError "authpg: database is required")
  else apply_options 0 options {| invitationsRequired := false |}.

(** ** The tables *)

Record Row := { row_ID : string; row_CreatedAt : Time; row_disabled : bool }.

Class Tables (T : Type) := {
  (** [SELECT ... FROM fabrin_auth_identities WHERE email=$1 FOR UPDATE] *)
  identity_row : T → string → option Row;
  (** [SELECT consumed_at FROM fabrin_auth_invitations WHERE email=$1 FOR UPDATE] *)
  invitation : T → string → option (option Time);
  (** [INSERT INTO fabrin_auth_identities ...]; [None] is a constraint violation *)
  insert_identity : Identity → T → option T;
  (** [UPDATE fabrin_auth_invitations SET consumed_at=$2 WHERE email=$1] *)
  consume_invitation : string → Time → T → T;
  (** what a TIMESTAMPTZ keeps of an instant *)
  stored_time : Time → Time;
}.

Class TablesLaws (T : Type) `{Tables T} := {
  (** the email column is unique, and so is the primary key *)
  law_unique_id : ∀ t e e' r r', identity_row t e = Some r → identity_row t e' = Some r' →
    row_ID r = row_ID r' → e = e';
  law_insert : ∀ i t t', insert_identity i t = Some t' →
    identity_row t (identity_Email i) = None
    ∧ (∀ e, identity_row t' e =
         if decide (e = identity_Email i)
         then Some {| row_ID := identity_ID i; row_CreatedAt := stored_time (identity_CreatedAt i);
                      row_disabled := false |}
         else identity_row t e)
    ∧ ∀ e, invitation t' e = invitation t e;
  law_insert_possible : ∀ i t, identity_row t (identity_Email i) = None →
    (∀ e r, identity_row t e = Some r → row_ID r ≠ identity_ID i) →
    is_Some (insert_identity i t);
  law_consume : ∀ e at' t,
    (∀ e', identity_row (consume_invitation e at' t) e' = identity_row t e')
    ∧ ∀ e', invitation (consume_invitation e at' t) e' =
        if decide (e' = e ∧ is_Some (invitation t e)) then Some (Some (stored_time at'))
        else invitation t e';
}.

(** ** Resolving an address *)

Record World (T : Type) := mkWorld {
  durable : T;
  fails : nat → option error;  (** the error the nth call returns, if it fails *)
  performed : nat → bool;      (** whether a commit that failed took effect *)
  calls : nat;
}.
Arguments mkWorld {T} _ _ _ _.
Arguments durable {T} _.
Arguments fails {T} _ _.
Arguments performed {T} _ _.
Arguments calls {T} _.

Section resolve.
Context {T : Type} `{Tables T}.

(** One call: whether it fails, and the world after it. *)
Definition tick (w : World T) : option error * World T :=
  (fails w (calls w), mkWorld (durable w) (fails w) (performed w) (S (calls w))).

Definition Commit (view : T) (w : World T) : option error * World T :=
  let n := calls w in
  match fails w n with
  | None => (None, mkWorld view (fails w) (performed w) (S n))
  | Some err => (Some err, mkWorld (if performed w n then view else durable w) (fails w) (performed w) (S n))
  end.

(** From the insertion on. *)
Definition create (s : settings) (r : IdentityResolution) (view : T) (w : World T)
    : result error Identity * World T :=
  let identity := {| identity_ID := resolution_ProposedID r; identity_Email := resolution_Email r;
                     identity_CreatedAt := resolution_VerifiedAt r |} in
  match tick w with
  | (Some err, w) => (Err err, w)
  | (None, w) =>
      match insert_identity identity view with
      | None => (Err (NewError "duplicate key value violates unique constraint"), w)
      | Some view =>
          let '(err, view, w) :=
            if invitationsRequired s then
              match tick w with
              | (Some err, w) => (Some err, view, w)
              | (None, w) =>
                  (None, consume_invitation (identity_Email identity) (resolution_VerifiedAt r) view, w)
              end
            else (None, view, w) in
          match err with
          | Some err => (Err err, w)
          | None =>
              match Commit view w with
              | (Some err, w) => (Err err, w)
              | (None, w) => (Ok identity, w)
              end
          end
      end
  end.

(** The invitation an address needs, if it needs one. *)
Definition check_invitation (s : settings) (email : string) (view : T) (w : World T)
    : option error * World T :=
  if invitationsRequired s then
    match tick w with
    | (Some err, w) => (Some err, w)
    | (None, w) =>
        match invitation view email with
        | None | Some (Some _) => (Some (Sentinel ErrAuthentication), w)
        | Some None => (None, w)
        end
    end
  else (None, w).

(** The view is the durable state the transaction began with until it commits. *)
Definition ResolveVerified (s : settings) (r : IdentityResolution) (w : World T)
    : result error Identity * World T :=
  if String.eqb (resolution_Email r) "" || String.eqb (resolution_ProposedID r) ""
     || (resolution_VerifiedAt r =? zero_time)
  then (Err (Sentinel ErrAuthentication), w)
  else
    let view := durable w in
    match tick w with  (* BeginTx *)
    | (Some err, w) => (Err err, w)
    | (None, w) =>
        match tick w with  (* the advisory lock *)
        | (Some err, w) => (Err err, w)
        | (None, w) =>
            match tick w with  (* SELECT ... FOR UPDATE *)
            | (Some err, w) => (Err err, w)
            | (None, w) =>
                match identity_row view (resolution_Email r) with
                | Some row =>
                    if row_disabled row then (Err (Sentinel ErrAuthentication), w)
                    else
                      match Commit view w with
                      | (Some err, w) => (Err err, w)
                      | (None, w) =>
                          (Ok {| identity_ID := row_ID row; identity_Email := resolution_Email r;
                                 identity_CreatedAt := row_CreatedAt row |}, w)
                      end
                | None =>
                    match check_invitation s (resolution_Email r) view w with
                    | (Some err, w) => (Err err, w)
                    | (None, w) => create s r view w
                    end
                end
            end
        end
    end.
End resolve.

#[global] Instance pg_identities {T} `{Tables T} (s : settings) : IdentityStore (World T) :=
  {| Auth.ResolveVerified := ResolveVerified s |}.
