(* ===== verification/AuthPgSpec.v ===== *)
(** * Durable identities: what the port promises

    [LawfulIdentities] is what an ephemeral store needs of the identity port; the
    PostgreSQL store satisfies it whatever call fails, and with invitations required
    creates an identity only by consuming an invitation. *)

From S2P Require Import Prelude GoStrings Sha256 AuthCore MemoryStore Auth Migrate AuthPg.

#[local] Open Scope Z_scope.

(** ** The contract *)

Class LawfulIdentities (I : Type) `{IdentityStore I} := {
  (** the identifier bound to an address *)
  identity_of : I → string → option string;
  law_bound : ∀ r s ans s', Auth.ResolveVerified r s = (ans, s') →
    ∀ e x, identity_of s e = Some x → identity_of s' e = Some x;
  law_resolved : ∀ r s i s', Auth.ResolveVerified r s = (Ok i, s') →
    identity_Email i = resolution_Email r
    ∧ identity_of s' (resolution_Email r) = Some (identity_ID i);
}.

(** ** One call *)

Section spec.
Context {T : Type} `{TablesLaws T} (s : settings).
Implicit Types (w : World T) (r : IdentityResolution).

(** What a transaction that creates an identity leaves. *)
Definition created r (t t' : T) : Prop :=
  identity_row t (resolution_Email r) = None
  ∧ (∀ e, identity_row t' e =
       if decide (e = resolution_Email r)
       then Some {| row_ID := resolution_ProposedID r;
                    row_CreatedAt := stored_time (resolution_VerifiedAt r); row_disabled := false |}
       else identity_row t e)
  ∧ (if invitationsRequired s
     then invitation t (resolution_Email r) = Some None
          ∧ ∀ e, invitation t' e =
              if decide (e = resolution_Email r)
              then Some (Some (stored_time (resolution_VerifiedAt r))) else invitation t e
     else ∀ e, invitation t' e = invitation t e).

(** What one call does to the tables, and what an identity it returns is. *)
Definition step_post r w (ans : result error Identity) w' : Prop :=
  (durable w' = durable w ∧
     ∀ i, ans = Ok i → ∃ row, identity_row (durable w) (resolution_Email r) = Some row
       ∧ row_disabled row = false
       ∧ i = {| identity_ID := row_ID row; identity_Email := resolution_Email r;
                identity_CreatedAt := row_CreatedAt row |})
  ∨ created r (durable w) (durable w') ∧
     ∀ i, ans = Ok i → i = {| identity_ID := resolution_ProposedID r; identity_Email := resolution_Email r;
                              identity_CreatedAt := resolution_VerifiedAt r |}.

Lemma Commit_durable view w err w' :
  Commit view w = (err, w') → durable w' = view ∨ durable w' = durable w ∧ is_Some err.
Proof.
  unfold Commit. destruct (fails w (calls w)); intros [= <- <-]; cbn; [|by left].
  destruct (performed w _); [by left|by right].
Qed.

Lemma same_post r w e w' : durable w' = durable w → step_post r w (Err e) w'.
Proof. intros E. left. by split. Qed.

Lemma create_step r w w0 ans w' :
  durable w = durable w0 → identity_row (durable w0) (resolution_Email r) = None →
  (invitationsRequired s = true → invitation (durable w0) (resolution_Email r) = Some None) →
  create s r (durable w0) w = (ans, w') → step_post r w0 ans w'.
Proof using All.
  intros Ew Hnone Hinv. unfold create, tick. set (i := {| identity_ID := _ |}).
  destruct (fails w (calls w)); [intros [= <- <-]; by apply same_post|].
  destruct (insert_identity i (durable w0)) as [v|] eqn:Ei; [|intros [= <- <-]; by apply same_post].
  destruct (law_insert _ _ _ Ei) as (_ & Hrows & Hinvs). cbn in Hrows.
  assert (Hfin : ∀ v' w1, durable w1 = durable w0 → created r (durable w0) v' →
    (match Commit v' w1 with (Some err, w) => (Err err, w) | (None, w) => (Ok i, w) end) = (ans, w') →
    step_post r w0 ans w').
  { intros v' w1 E1 Hc. destruct (Commit v' w1) as [err w2] eqn:Ec.
    destruct (Commit_durable _ _ _ _ Ec) as [Hd|[Hd [x ->]]].
    - destruct err as [err|]; intros [= <- <-]; right; rewrite Hd; (split; [done|]); intros j; [done|by intros [= <-]].
    - intros [= <- <-]. apply same_post. by rewrite Hd. }
  unfold created in Hfin. destruct (invitationsRequired s) eqn:Hreq.
  - cbn. destruct (fails w (S (calls w))); [intros [= <- <-]; by apply same_post|].
    destruct (law_consume (resolution_Email r) (resolution_VerifiedAt r) v) as [Hcr Hci].
    apply Hfin; [done|]. split_and!; [done| |by apply Hinv|].
    + intros e. by rewrite Hcr, Hrows.
    + intros e. rewrite Hci, !Hinvs, (Hinv eq_refl).
      destruct (decide (e = resolution_Email r)) as [->|Hne].
      * by rewrite decide_True by (split; [done|by eexists]).
      * by rewrite decide_False by naive_solver.
  - apply Hfin; [done|]. by split_and!.
Qed.

Lemma ResolveVerified_step r w ans w' :
  ResolveVerified s r w = (ans, w') → step_post r w ans w'.
Proof using All.
  unfold ResolveVerified. destruct (_ || _); [intros [= <- <-]; by apply same_post|].
  unfold tick at 1. destruct (fails w (calls w)); [intros [= <- <-]; by apply same_post|].
  unfold tick at 1. cbn [calls fails performed durable].
  destruct (fails w (S (calls w))); [intros [= <- <-]; by apply same_post|].
  unfold tick at 1. cbn [calls fails performed durable].
  destruct (fails w (S (S (calls w)))); [intros [= <- <-]; by apply same_post|].
  destruct (identity_row (durable w) (resolution_Email r)) as [row|] eqn:Erow.
  - destruct (row_disabled row) eqn:Hdis; [intros [= <- <-]; by apply same_post|].
    destruct (Commit _ _) as [err w2] eqn:Ec. apply Commit_durable in Ec. cbn in Ec.
    assert (Hd : durable w2 = durable w) by (destruct Ec as [Hd|[Hd _]]; done).
    destruct err; intros [= <- <-]; [by apply same_post|]. left. split; [done|].
    intros i [= <-]. by exists row.
  - unfold check_invitation. destruct (invitationsRequired s) eqn:Hreq; [|intros Hc].
    + unfold tick. cbn [calls fails performed durable].
      destruct (fails w _); [intros [= <- <-]; by apply same_post|].
      destruct (invitation (durable w) (resolution_Email r)) as [[x|]|] eqn:Einv;
        [intros [= <- <-]; by apply same_post| |intros [= <- <-]; by apply same_post].
      intros Hc. by eapply (create_step _ _ w); [| | |exact Hc].
    + eapply (create_step _ _ w); [| | |exact Hc]; [done|done|by rewrite Hreq].
Qed.

(** The port's contract, whatever call fails. *)
#[global] Instance pg_lawful : @LawfulIdentities (World T) (pg_identities s).
Proof using All.
  refine {| identity_of := λ w e, row_ID <$> identity_row (durable w) e |}.
  - intros r w ans w' E e x Hx. destruct (ResolveVerified_step _ _ _ _ E) as [[-> _]|[(Hn & Hr & _) _]]; [done|].
    rewrite Hr. case_decide as He; [|done]. subst e. by rewrite Hn in Hx.
  - intros r w i w' E. destruct (ResolveVerified_step _ _ _ _ E) as [[-> Hok]|[(_ & Hr & _) Hok]].
    + destruct (Hok i eq_refl) as (row & Hrow & _ & ->). by rewrite Hrow.
    + rewrite (Hok i eq_refl), Hr. by rewrite decide_True.
Defined.

(** ** Histories *)

(** Calls one after the other, each with its own failures. *)
Inductive resolved (t : T) : list (IdentityResolution * result error Identity) → T → Prop :=
| resolved_nil : resolved t [] t
| resolved_snoc hs t1 r w ans w' :
    resolved t hs t1 → durable w = t1 → ResolveVerified s r w = (ans, w') →
    resolved t (hs ++ [(r, ans)]) (durable w').

Lemma step_keeps r w ans w' e row :
  step_post r w ans w' → identity_row (durable w) e = Some row → identity_row (durable w') e = Some row.
Proof.
  intros [[-> _]|[(Hn & Hr & _) _]]; [done|]. rewrite Hr. case_decide; [|done]. subst. by rewrite Hn.
Qed.

(** C19: whatever fails along the way, an address has one identity: every call that
    succeeds for it returns the same identifier, and calls for different addresses
    return different ones. *)
Theorem pg_one_identity t hs t' r i r' i' :
  resolved t hs t' → (r, Ok i) ∈ hs → (r', Ok i') ∈ hs →
  identity_Email i = resolution_Email r ∧ (identity_Email i = identity_Email i' ↔ identity_ID i = identity_ID i').
Proof using All.
  intros Hh.
  assert (Hall : ∀ r i, (r, Ok i) ∈ hs → identity_Email i = resolution_Email r
    ∧ ∃ row, identity_row t' (resolution_Email r) = Some row ∧ row_ID row = identity_ID i).
  { induction Hh as [|hs t1 r0 w ans w' Hh IH <- E]; [by intros r0 i0 []%elem_of_nil|].
    pose proof (ResolveVerified_step _ _ _ _ E) as Hs.
    intros r1 i1 [Hin|Hin%list_elem_of_singleton]%elem_of_app.
    - destruct (IH r1 i1 Hin) as (He & row & Hrow & Hid). split; [done|]. exists row.
      split; [by eapply step_keeps|done].
    - injection Hin as -> <-. destruct Hs as [[-> Hok]|[(_ & Hr & _) Hok]].
      + destruct (Hok i1 eq_refl) as (row & Hrow & _ & ->). split; [done|]. by exists row.
      + rewrite (Hok i1 eq_refl). split; [done|]. eexists. by rewrite Hr, decide_True. }
  intros Hi%Hall Hi'%Hall. destruct Hi as (He & row & Hrow & Hid), Hi' as (He' & row' & Hrow' & Hid').
  split; [done|]. rewrite He, He', <-Hid, <-Hid'. split.
  - intros E. rewrite E in Hrow. congruence.
  - intros E. by eapply law_unique_id.
Qed.

(** With invitations required, an address gains an identity only by an invitation
    that was open, and the same transaction consumes it. *)
Theorem pg_invited_only t hs t' e row :
  invitationsRequired s = true → resolved t hs t' →
  identity_row t e = None → identity_row t' e = Some row →
  invitation t e = Some None ∧ ∃ at', invitation t' e = Some (Some at').
Proof using All.
  intros Hreq Hh Hnone Hrow.
  assert (Hcases : identity_row t' e = None ∧ invitation t' e = invitation t e
    ∨ is_Some (identity_row t' e) ∧ invitation t e = Some None ∧ ∃ at', invitation t' e = Some (Some at')).
  { clear Hrow. induction Hh as [|hs t1 r0 w ans w' Hh IH <- E]; [by left|].
    destruct (ResolveVerified_step _ _ _ _ E) as [[-> _]|[(Hn & Hr & Hi) _]]; [exact IH|].
    rewrite Hreq in Hi. destruct Hi as [Hi Hi']. rewrite Hr, Hi'.
    destruct (decide (e = resolution_Email r0)) as [->|Hne]; [right|exact IH].
    destruct IH as [[_ Hsame]|[[x Hx] _]]; [|by rewrite Hn in Hx].
    split; [by eexists|]. split; [by rewrite <-Hsame|by eexists]. }
  destruct Hcases as [[Hno _]|[_ Hc]]; [|exact Hc]. by rewrite Hno in Hrow.
Qed.
End spec.
