(* ===== verification/AuthPgTables.v ===== *)
(** * Identity tables in memory

    An implementation of [Tables] that satisfies [TablesLaws]: the rows by address,
    with distinct identifiers, and the invitations.  The theorems about the store
    hold of any lawful tables; these are what their examples run on. *)

From S2P Require Import Prelude GoStrings Sha256 AuthCore MemoryStore Auth Migrate AuthPg AuthPgSpec.

#[local] Open Scope Z_scope.

Definition distinct_ids (rows : gmap string Row) : Prop :=
  map_Forall (λ e r, map_Forall (λ e' r', row_ID r = row_ID r' → e = e') rows) rows.
#[global] Instance distinct_ids_dec rows : Decision (distinct_ids rows).
Proof. unfold distinct_ids. solve_decision. Defined.

Record tables := mkTables {
  rows : gmap string Row;
  invitations : gmap string (option Time);
  rows_distinct : distinct_ids rows;
}.

(** TIMESTAMPTZ keeps microseconds. *)
Definition microseconds (t : Time) : Time := (t + 500) / 1000 * 1000.

Definition fresh_id (id : string) (rows : gmap string Row) : Prop :=
  map_Forall (λ _ r, row_ID r ≠ id) rows.
#[global] Instance fresh_id_dec id rows : Decision (fresh_id id rows).
Proof. unfold fresh_id. apply _. Defined.

Lemma insert_distinct e r rows :
  distinct_ids rows → fresh_id (row_ID r) rows → distinct_ids (<[e := r]> rows).
Proof.
  intros Hd Hf e1 r1 H1 e2 r2 H2 Hid.
  apply lookup_insert_Some in H1 as [[<- <-]|[_ H1]], H2 as [[<- <-]|[_ H2]]; [done| | |by eapply Hd].
  - by destruct (Hf e2 r2 H2).
  - by destruct (Hf e1 r1 H1).
Qed.

Definition insert_row (i : Identity) (t : tables) : option tables :=
  match decide (rows t !! identity_Email i = None), decide (fresh_id (identity_ID i) (rows t)) with
  | left _, left Hf =>
      Some (mkTables
        (<[identity_Email i := {| row_ID := identity_ID i; row_CreatedAt := microseconds (identity_CreatedAt i);
                                  row_disabled := false |}]> (rows t))
        (invitations t) (insert_distinct _ (Build_Row _ _ _) _ (rows_distinct t) Hf))
  | _, _ => None
  end.

#[global] Instance tables_tables : Tables tables := {|
  identity_row t e := rows t !! e;
  invitation t e := invitations t !! e;
  insert_identity := insert_row;
  consume_invitation e at' t :=
    mkTables (rows t) (alter (λ _, Some (microseconds at')) e (invitations t)) (rows_distinct t);
  stored_time := microseconds;
|}.

#[global] Instance tables_laws : TablesLaws tables.
Proof.
  split.
  - intros t e e' r r' H1 H2 Hid. by eapply (rows_distinct t).
  - intros i t t' E. cbn in *. unfold insert_row in E.
    destruct (decide (rows t !! _ = None)) as [Hn|]; [|done].
    destruct (decide (fresh_id _ _)) as [Hf|]; [|done]. injection E as <-. cbn.
    split_and!; [done| |done]. intros e. rewrite lookup_insert. repeat case_decide; congruence.
  - intros i t Hn Hf. cbn in *. unfold insert_row. destruct (decide (rows t !! _ = None)); [|done].
    destruct (decide (fresh_id _ _)) as [|Hno]; [by eexists|]. destruct Hno. intros x r. apply Hf.
  - intros e at' t. split; [done|]. intros e'. cbn. rewrite lookup_alter.
    destruct (decide (e = e')) as [->|Hne]; [|by rewrite decide_False by naive_solver].
    destruct (invitations t !! e'); cbn.
    + by rewrite decide_True by (split; [done|by eexists]).
    + rewrite decide_False; [done|]. intros [_ []]. done.
Qed.

(** ** Two addresses, one invited *)

Definition no_rows : distinct_ids ∅ := map_Forall_empty _.
Definition example_tables : tables :=
  mkTables ∅ {["ada@example.com" := None]} no_rows.
Definition calm (t : tables) : World tables := mkWorld t (λ _, None) (λ _, true) 0.
(** The commit of a sign-in that reports a failure after it took effect. *)
Definition stormy (t : tables) : World tables :=
  mkWorld t (λ n, if (n =? 6)%nat then Some (NewError "broken pipe") else None) (λ _, true) 0.
Definition example_request (email id : string) : IdentityResolution :=
  {| resolution_Email := email; resolution_ProposedID := id; resolution_VerifiedAt := Second |}.
Definition invited_only : settings := {| invitationsRequired := true |}.

Definition first_answer := ResolveVerified invited_only (example_request "ada@example.com" "id-1") (stormy example_tables).
Definition second_answer :=
  ResolveVerified invited_only (example_request "ada@example.com" "id-2") (calm (durable (snd first_answer))).
Definition third_answer :=
  ResolveVerified invited_only (example_request "bob@example.com" "id-3") (calm (durable (snd second_answer))).

Lemma resolved_next s t hs w r :
  resolved s t hs (durable w) →
  resolved s t (hs ++ [(r, fst (ResolveVerified s r w))]) (durable (snd (ResolveVerified s r w))).
Proof. intros Hh. eapply resolved_snoc; [exact Hh|done|apply surjective_pairing]. Qed.

Lemma example_resolved :
  resolved invited_only example_tables
    [(example_request "ada@example.com" "id-1", fst first_answer);
     (example_request "ada@example.com" "id-2", fst second_answer);
     (example_request "bob@example.com" "id-3", fst third_answer)] (durable (snd third_answer)).
Proof.
  exact (resolved_next _ _ [_; _] (calm _) _ (resolved_next _ _ [_] (calm _) _
          (resolved_next _ _ [] (stormy _) _ (resolved_nil _ _)))).
Qed.

Definition ada : Identity :=
  {| identity_ID := "id-1"; identity_Email := "ada@example.com"; identity_CreatedAt := Second |}.

Example example_answers :
  (fst first_answer, fst second_answer, fst third_answer)
  = (Err (NewError "broken pipe"),
     Ok ada,
     Err (Sentinel ErrAuthentication)).
Proof. vm_compute. reflexivity. Qed.

Lemma pg_one_identity_witness :
  fst second_answer = Ok ada
  ∧ identity_Email ada = resolution_Email (example_request "ada@example.com" "id-2")
  ∧ (identity_Email ada = identity_Email ada ↔ identity_ID ada = identity_ID ada).
Proof.
  split; [vm_compute; reflexivity|].
  apply (pg_one_identity invited_only _ _ _ (example_request "ada@example.com" "id-2") ada
    (example_request "ada@example.com" "id-2") ada example_resolved); vm_compute; right; left.
Defined.

Lemma pg_invited_only_witness :
  invitation example_tables "ada@example.com" = Some None
  ∧ ∃ at', invitation (durable (snd third_answer)) "ada@example.com" = Some (Some at').
Proof.
  eapply (pg_invited_only invited_only example_tables _ (durable (snd third_answer)) "ada@example.com").
  - reflexivity.
  - exact example_resolved.
  - reflexivity.
  - vm_compute. reflexivity.
Defined.
