(* ===== verification/AuthRedisFlow.v ===== *)
(** * The Redis store: its methods

    What the answers of [Verify] rest on, whatever other clients do between its
    calls, and the sign-in through the methods: a reserved challenge, a matching
    attempt and a session that lets its holder in. *)

From S2P Require Import Prelude GoStrings Sha256 AuthCore MemoryStore Auth Redis RedisSpec RedisKeyspace.
From S2P Require Import AuthPg AuthPgSpec AuthRedis AuthRedisSpec AuthRedisInv AuthRedisSafety.

#[local] Open Scope Z_scope.
#[local] Opaque Sum256.

Section flow.
Context {D I : Type} `{RedisLaws D} `{IdentityStore I} (prefix : string).
#[local] Instance names : KeyNames slot := slots prefix.
Implicit Types (f : slot → content) (t : clock) (w : AuthRedis.World D I).
Abbreviation slots_ok := (slots_ok prefix).
Abbreviation contents_at := (contents_at prefix).

(** A call nobody interferes with, run once at [t] and answered. *)
Definition answered_at w (t : clock) : Prop :=
  wire w (sent w) = mkCall (λ s, s) (Answered [] t).

Definition next_world w (d : D) (i : I) : AuthRedis.World D I :=
  AuthRedis.mkWorld (d, i) (wire w) (S (sent w)).

Lemma Run_answered {A} (m : Script D A) w t d i Q :
  shared w = (d, i) → answered_at w t → spec m t (contents_at d (ms_of t)) Q →
  ∃ o d' f', Run m w = (match o with Some a => Ok a | None => Err (NewError "redis: script failed") end,
                        next_world w d' i)
    ∧ view d' (ms_of t) f' ∧ Q o f'.
Proof.
  intros Hs Ha Hm. destruct (Hm d (contents_view prefix d (ms_of t))) as (f' & Hv & HQ).
  exists (fst (m t d)), (snd (m t d)), f'. split; [|by split].
  unfold Run, answered_at in *. cbv zeta. rewrite Ha, Hs. cbn. unfold run_script.
  by destruct (m t d) as [[a|] d'].
Qed.

Lemma answered_resolve r w d i ans i' t :
  shared w = (d, i) → answered_at w t → Auth.ResolveVerified r i = (ans, i') →
  resolve r w = (ans, next_world w d i').
Proof. intros Hs Ha Hr. unfold resolve, answered_at in *. rewrite Ha, Hs. cbn. by rewrite Hr. Qed.

(** The attempt [a] presents what the reservation [r] recorded. *)
Record presents (r : Reservation) (a : Verification) : Prop := {
  presents_ID : attempt_ID a = reservation_ID r;
  presents_Email : attempt_Email a = reservation_Email r;
  presents_KeyID : attempt_KeyID a = reservation_KeyID r;
  presents_Purpose : attempt_Purpose a = reservation_Purpose r;
  presents_Verifier : attempt_Verifier a = reservation_Verifier r;
  presents_Binding : attempt_Binding a = reservation_Binding r;
}.

(** The challenge [r] as a reservation leaves it. *)
Definition fresh_challenge (r : Reservation) : gmap string string :=
  reserved_fields ∅ (reservation_Email r) (digest (reservation_Email r)) (reservation_KeyID r)
    (reservation_Purpose r) (hex_digest (reservation_Verifier r)) (hex_digest (reservation_Binding r)).

Lemma Reserve_leaves r w t d i w' :
  shared w = (d, i) → answered_at w t → slots_ok (contents_at d (ms_of t)) → clock_ok t →
  contents_at d (ms_of t) (ChallengeOf (reservation_ID r)) = None →
  AuthRedis.Reserve prefix r w = (None, w') →
  ∃ d', w' = next_world w d' i
    ∧ slots_ok (contents_at d' (ms_of t))
    ∧ contents_at d' (ms_of t) (ChallengeOf (reservation_ID r))
      = Some (HashValue (fresh_challenge r), Some (ms_of t + 300000))
    ∧ ∀ k, ¬ writes (OReserve r) k → contents_at d' (ms_of t) k = contents_at d (ms_of t) k.
Proof using All.
  intros Hs Ha Hf Ht Hnew E. unfold AuthRedis.Reserve in E.
  destruct (Run_answered (Reserve_script prefix r) w t d i _ Hs Ha (reserve_effect prefix _ _ _ _ _ _ _ _ _ t _ Hf Ht))
    as (o & d' & f' & Hrun & Hv & Hpost).
  change (reserve_post prefix (digest (reservation_Email r)) (digest (reservation_Source r)) (mailbox_of r)
            (reservation_ID r) (reservation_Email r) (reservation_KeyID r) (reservation_Purpose r)
            (hex_digest (reservation_Verifier r)) (hex_digest (reservation_Binding r)) t (contents_at d (ms_of t)) o f') in Hpost.
  assert (He : effect prefix (OReserve r) t (contents_at d (ms_of t)) (Number <$> o) f') by by exists o.
  rewrite Hrun in E. pose proof (effect_ok prefix _ _ _ _ _ Hf Ht He) as Hf'.
  destruct Hpost as [(-> & _)|(-> & _ & Hres)]; [done|]. injection E as <-.
  exists d'. split; [done|]. split; [by eapply slots_ext|]. split.
  - etrans; [apply Hv|]. rewrite Hres. unfold reserved. cbv zeta. rewrite upd_eq.
    unfold challenge_at. rewrite retired_missing; [done|]. unfold counted. by look.
  - intros k Hk. etrans; [apply Hv|]. by eapply effect_frame.
Qed.

Lemma still_there now v d e' : aged now (Some (v, Some d)) e' → now < d → e' = Some (v, Some d).
Proof. intros [[-> _]|[_ ?]] ?; [done|lia]. Qed.

Lemma budget_aged ms limit e e' :
  0 < limit → aged ms e e' → budget_left ms limit e → budget_left ms limit e'.
Proof.
  intros Hl Ha Hb. destruct (zset_aged _ _ _ Ha) as [->|E]; [done|].
  unfold budget_left. rewrite zset_pruned, E, map_filter_empty, map_size_empty. lia.
Qed.

Lemma fresh_fields r a :
  presents r a →
  answers (fresh_challenge r) (attempt_Email a) (attempt_KeyID a) (attempt_Purpose a)
    (hex_digest (attempt_Verifier a)) (hex_digest (attempt_Binding a))
  ∧ fresh_challenge r !! "active" = Some "1" ∧ fresh_challenge r !! "lease" = None.
Proof.
  intros [_ -> -> -> -> ->]. unfold fresh_challenge, reserved_fields, answers. cbn [foldl].
  split_and!; by simplify_map_eq.
Qed.

(** The first script of [Verify] on a fresh challenge. *)
Lemma verify_leases r a w t d i dl :
  shared w = (d, i) → answered_at w t → slots_ok (contents_at d (ms_of t)) → clock_ok t → presents r a →
  contents_at d (ms_of t) (ChallengeOf (reservation_ID r)) = Some (HashValue (fresh_challenge r), dl) →
  budget_left (ms_of t) 100 (contents_at d (ms_of t) (VerifySource (digest (attempt_Source a)))) →
  ∃ d', Run (Verify_script prefix a) w = (Ok 1, next_world w d' i)
    ∧ slots_ok (contents_at d' (ms_of t))
    ∧ contents_at d' (ms_of t) (ChallengeOf (attempt_ID a))
      = Some (HashValue (leased_by (lease_of a) (ms_of t) (fresh_challenge r)), dl)
    ∧ ∀ l, contents_at d' (ms_of t) (CompletedBy l) = contents_at d (ms_of t) (CompletedBy l).
Proof using All.
  intros Hs Ha Hf Ht Hp Hc Hb. destruct (fresh_fields r a Hp) as (Hans & Hact & Hl).
  destruct (Run_answered (Verify_script prefix a) w t d i _ Hs Ha (verify_effect prefix _ _ _ _ _ _ _ _ t _ Hf Ht))
    as (o & d' & f' & Hrun & Hv & Hpost).
  change (verify_post prefix (digest (attempt_Source a)) (attempt_ID a) (lease_of a) (attempt_Email a)
            (attempt_KeyID a) (attempt_Purpose a) (hex_digest (attempt_Verifier a))
            (hex_digest (attempt_Binding a)) t (contents_at d (ms_of t)) o f') in Hpost.
  assert (He : effect prefix (OVerify a) t (contents_at d (ms_of t)) (Number <$> o) f') by by exists o.
  pose proof (effect_ok prefix _ _ _ _ _ Hf Ht He) as Hf'.
  assert (Hch : challenge_at (contents_at d (ms_of t)) (attempt_ID a) = fresh_challenge r).
  { rewrite (presents_ID _ _ Hp). unfold challenge_at. by rewrite Hc. }
  destruct Hpost as [(_ & Hno & _)|(_ & [(_ & Hbad & _)|(_ & _ & _ & Hd)])]; [done| |].
  { rewrite Hch, (presents_ID _ _ Hp), Hc in Hbad. destruct Hbad as [?|[?|[Hlease _]]]; [done|done|].
    rewrite Hl in Hlease. by destruct Hlease. }
  rewrite Hch in Hd. rewrite decide_True in Hd by done. destruct Hd as [-> Hd].
  exists d'. split; [exact Hrun|]. split; [by eapply slots_ext|]. split.
  - etrans; [apply Hv|]. rewrite Hd. unfold verified, rewritten. rewrite upd_eq, Hch.
    unfold lease_cleared. rewrite Hl. unfold verify_counted. look.
    by rewrite (presents_ID _ _ Hp), Hc.
  - intros l. etrans; [apply Hv|]. apply (effect_frame prefix _ _ _ _ _ _ He). intros [].
Qed.

(** The completion of a leased challenge. *)
Lemma complete_signs_in a i w t d ids h dl :
  shared w = (d, ids) → answered_at w t → slots_ok (contents_at d (ms_of t)) → clock_ok t →
  op_ok (OComplete a i) → validSession (attempt_Session a) = true →
  contents_at d (ms_of t) (ChallengeOf (attempt_ID a)) = Some (HashValue h, dl) →
  h !! "lease" = Some (lease_of a) →
  contents_at d (ms_of t) (CompletedBy (lease_of a)) = None →
  ∃ d' h0, complete prefix a i w = (Ok i, next_world w d' ids)
    ∧ slots_ok (contents_at d' (ms_of t))
    ∧ contents_at d' (ms_of t) (SessionOf (session_ID (attempt_Session a)))
      = Some (HashValue (session_fields h0 (ms_of t) (hex_digest (session_Digest (attempt_Session a)))
                (hex_digest (session_CSRFDigest (attempt_Session a))) (identity_ID i) (identity_Email i)
                (Itoa (UnixNano (identity_CreatedAt i))) (slot_key prefix (SessionsOf (digest (identity_ID i))))),
              Some (ms_of t + session_ttl)).
Proof using All.
  intros Hs Ha Hf Ht Ho Hvalid Hc Hl Hnew.
  destruct (Run_answered (Complete_script prefix a i) w t d ids
              (λ o f', effect prefix (OComplete a i) t (contents_at d (ms_of t)) (Number <$> o) f') Hs Ha)
    as (o & d' & f' & Hrun & Hv & He).
  { unfold Complete_script. rewrite issued_ms by done.
    eapply spec_mono; [by apply complete_effect|]. intros o f' Hpost. by exists o. }
  pose proof (effect_ok prefix _ _ _ _ _ Hf Ht He) as Hf'.
  destruct He as (o' & Ho' & Hpost). assert (o' = o) as -> by (destruct o, o'; try done; by injection Ho' as ->).
  destruct Hpost as [(_ & Hx & _)|[(_ & Hno & _)|(-> & _ & _ & Hres)]].
  - rewrite Hnew in Hx. by destruct Hx.
  - unfold challenge_at in Hno. by rewrite Hc in Hno.
  - exists d', (session_at (contents_at d (ms_of t)) (session_ID (attempt_Session a))).
    split_and!; [|by eapply slots_ext|].
    + unfold complete. rewrite Hvalid. cbn [negb]. by rewrite Hrun.
    + etrans; [apply Hv|]. rewrite Hres. unfold completed. by look.
Qed.

Lemma UnixNano_id z : - 2 ^ 63 <= z < 2 ^ 63 → UnixNano z = z.
Proof. intros Hz. unfold UnixNano. rewrite Z.mod_small by lia. lia. Qed.

Lemma session_fields_at h ms dg csrf identity email created sessions :
  let h' := session_fields h ms dg csrf identity email created sessions in
  h' !! "digest" = Some dg ∧ h' !! "csrf" = Some csrf ∧ h' !! "identity_id" = Some identity
  ∧ h' !! "email" = Some email ∧ h' !! "identity_created" = Some created
  ∧ h' !! "last_seen" = Some (Itoa ms).
Proof. unfold session_fields. cbn [foldl]. split_and!; by simplify_map_eq. Qed.

(** A session that was just installed lets its holder in. *)
Lemma session_lets_in p i w t now d ids h0 dg csrf :
  shared w = (d, ids) → answered_at w t → slots_ok (contents_at d (ms_of t)) → clock_ok t →
  contents_at d (ms_of t) (SessionOf (proof_ID p))
    = Some (HashValue (session_fields h0 now (hex_digest (proof_Digest p)) csrf (identity_ID i) (identity_Email i)
              (Itoa (UnixNano (identity_CreatedAt i))) dg), Some (now + session_ttl)) →
  instant now → ms_of t < now + 86400000 → identity_ID i ≠ "" → - 2 ^ 63 <= identity_CreatedAt i < 2 ^ 63 →
  (proof_CSRFDigest p = zero_digest ∨ csrf = hex_digest (proof_CSRFDigest p)) →
  ∃ d', AuthRedis.AuthenticateSession prefix p w = (Ok i, next_world w d' ids).
Proof using All.
  intros Hs Ha Hf Ht Hsess Hn Hidle Hid Hcr Hcsrf. unfold instant in Hn.
  destruct (Run_answered (AuthenticateSession_script prefix p) w t d ids _ Hs Ha
              (session_effect prefix _ _ _ t _ Hf Ht)) as (o & d' & f' & Hrun & _ & Hpost).
  change (session_post prefix (proof_ID p) (hex_digest (proof_Digest p)) (csrf_of p) t (contents_at d (ms_of t)) o f')
    in Hpost.
  assert (Hat : session_at (contents_at d (ms_of t)) (proof_ID p)
    = session_fields h0 now (hex_digest (proof_Digest p)) csrf (identity_ID i) (identity_Email i)
        (Itoa (UnixNano (identity_CreatedAt i))) dg) by (unfold session_at; by rewrite Hsess).
  unfold session_post, credentials in Hpost. rewrite Hat, Hsess in Hpost.
  destruct (session_fields_at h0 now (hex_digest (proof_Digest p)) csrf (identity_ID i) (identity_Email i)
              (Itoa (UnixNano (identity_CreatedAt i))) dg) as (Hdig & Hcs & Hi & Hem & Hct & Hseen).
  rewrite Hdig, Hcs, Hi, Hem, Hct, Hseen in Hpost.
  destruct Hpost as [(_ & Hno & _)|(dl & l & _ & [= <-] & [= Hl] & _ & Hr)].
  - destruct Hno. split; [done|]. unfold csrf_of, digest_eqb.
    destruct Hcsrf as [->| ->]; [left; by rewrite bool_decide_true|]. case_bool_decide; [by left|by right].
  - apply Itoa_inj in Hl as <-. rewrite (proj2 (Z.leb_gt _ _)), (proj2 (Z.leb_gt _ _)) in Hr
      by (unfold session_ttl; lia).
    cbn [orb] in Hr. destruct Hr as [-> _]. exists d'. unfold AuthRedis.AuthenticateSession. rewrite Hrun.
    cbn [StringSlice mbind option_bind]. rewrite (proj2 (String.eqb_neq _ _)) by done.
    rewrite UnixNano_id by done. rewrite Atoi_Itoa by lia. by destruct i.
Qed.

(** ** The sign-in *)


End flow.

(** ** Whatever happens on the way *)

Section interference.
Context {D I : Type} `{Redis D} `{LawfulIdentities I} (prefix : string).
Implicit Types (w : AuthRedis.World D I).

(** What other clients do between two calls keeps every address's identity. *)
Definition others_keep w : Prop :=
  ∀ n d ids e x, identity_of ids e = Some x → identity_of (snd (meanwhile (wire w n) (d, ids))) e = Some x.
Definition bound w (e x : string) : Prop := identity_of (snd (shared w)) e = Some x.

Lemma Run_wire {A} (m : Script D A) w r w' : Run m w = (r, w') → wire w' = wire w.
Proof.
  unfold Run. cbv zeta. destruct (meanwhile _ _) as [d ids]. destruct (delivered _) as [es t|ts e].
  - destruct (run_script _ _ _) as [[a|] d']; by intros [= _ <-].
  - by intros [= _ <-].
Qed.

Lemma Run_bound {A} (m : Script D A) w r w' e x :
  others_keep w → Run m w = (r, w') → bound w e x → bound w' e x.
Proof.
  unfold Run, bound. cbv zeta. intros Hk E Hb. destruct (shared w) as [d ids] eqn:Es.
  specialize (Hk (sent w) d ids e x Hb). destruct (meanwhile _ _) as [d1 ids1]. cbn in Hk.
  destruct (delivered _) as [es t|ts err]; [destruct (run_script _ _ _) as [[a|] d']|]; by injection E as _ <-.
Qed.

Lemma others_same w w' : wire w' = wire w → others_keep w → others_keep w'.
Proof. unfold others_keep. intros ->. done. Qed.

Lemma resolve_bound r w i w' :
  resolve r w = (Ok i, w') →
  identity_Email i = resolution_Email r ∧ bound w' (resolution_Email r) (identity_ID i) ∧ wire w' = wire w.
Proof.
  unfold resolve, bound. destruct (meanwhile _ _) as [d ids]. destruct (Auth.ResolveVerified r ids) as [ans ids'] eqn:E.
  intros [= -> <-]. destruct (law_resolved _ _ _ _ E) as [He Hb]. by split_and!.
Qed.

Lemma complete_bound a i w j w' e x :
  others_keep w → complete prefix a i w = (Ok j, w') → bound w e x → j = i ∧ bound w' e x.
Proof.
  intros Hk E Hb. unfold complete in E. destruct (negb (validSession _)); [by destruct (Run _ w)|].
  destruct (Run (Complete_script prefix a i) w) as [[z|err] w1] eqn:E1.
  - destruct (negb (z =? 1)); [done|]. injection E as <- <-. split; [done|by eapply Run_bound].
  - pose proof (Run_bound _ _ _ _ _ _ Hk E1 Hb) as Hb1.
    pose proof (others_same _ _ (Run_wire _ _ _ _ E1) Hk) as Hk1.
    destruct (Run (Complete_script prefix a i) w1) as [[z|err'] w2] eqn:E2; [|done].
    destruct (negb (z =? 1)); [done|]. injection E as <- <-. split; [done|by eapply Run_bound].
Qed.


End interference.
