(* ===== verification/AuthRedisExamples.v ===== *)
(** * The Redis store: a day on a server

    The theorems about the Redis store on a concrete server: one challenge is
    reserved, leased, completed and presented again, and its session revoked. *)

From S2P Require Import Prelude GoStrings Sha256 AuthCore MemoryStore Auth Redis RedisSpec RedisKeyspace.
From S2P Require Import AuthPg AuthPgSpec AuthPgTables AuthRedis AuthRedisSpec AuthRedisInv AuthRedisSafety AuthRedisFlow.

#[local] Open Scope Z_scope.

Definition pre : string := "p:".

(** Scripts one after the other, with their answers. *)
Fixpoint serve (l : list (clock * op)) (d : keyspace) : list event * keyspace :=
  match l with
  | [] => ([], d)
  | (t, o) :: l =>
      let '(ans, d) := script_of pre o t d in
      let '(hs, d) := serve l d in ((t, o, ans) :: hs, d)
  end.

(** The instants do not decrease and lie where the clock is. *)
Fixpoint in_order (now : Z) (l : list (clock * op)) : Prop :=
  match l with
  | [] => True
  | (t, o) :: l => now <= ms_of t ∧ clock_ok t ∧ op_ok o ∧ in_order (ms_of t) l
  end.
Definition last_instant (now : Z) (l : list (clock * op)) : Z :=
  foldl (λ _ e, ms_of e.1) now l.

Lemma serve_from d0 (t0 : Z) hs now d l :
  history pre d0 t0 hs now d → in_order now l →
  history pre d0 t0 (hs ++ fst (serve l d)) (last_instant now l) (snd (serve l d)).
Proof.
  revert hs now d. induction l as [|[t o] l IH]; intros hs now d Hh Hl; cbn; [by rewrite app_nil_r|].
  destruct Hl as (Hle & Ht & Ho & Hl). destruct (script_of pre o t d) as [ans d'] eqn:E.
  specialize (IH (hs ++ [(t, o, ans)]) (ms_of t) d' (history_snoc _ _ _ _ _ _ _ _ _ _ Hh Hle Ht Ho E) Hl).
  destruct (serve l d') as [hs' d2]. by rewrite <-app_assoc in IH.
Qed.

Lemma serve_history d (t0 : Z) l :
  in_order t0 l → history pre d t0 (fst (serve l d)) (last_instant t0 l) (snd (serve l d)).
Proof. intros Hl. apply (serve_from d t0 [] t0 d l); [constructor|done]. Qed.

Lemma no_keys_ok (now : Z) : slots_ok pre (contents_at pre (∅ : keyspace) now).
Proof. intros k. apply missing_ok. Qed.

(** ** The data *)

Definition the_reservation : Reservation :=
  {| reservation_ID := "c"; reservation_Email := "ada@example.com"; reservation_KeyID := "k1";
     reservation_Purpose := PurposeNative; reservation_Verifier := replicate 32 1;
     reservation_Binding := zero_digest; reservation_IssuedAt := Second;
     reservation_ExpiresAt := Second + 5 * Minute; reservation_Source := "192.0.2.1" |}.

Definition the_attempt (session : string) : Verification :=
  {| attempt_ID := "c"; attempt_Email := "ada@example.com"; attempt_KeyID := "k1";
     attempt_Purpose := PurposeNative; attempt_Verifier := replicate 32 1;
     attempt_Binding := zero_digest; attempt_Now := Second; attempt_Source := "192.0.2.1";
     attempt_IdentityID := "id-1";
     attempt_Session := {| session_ID := session; session_IdentityID := "";
       session_Digest := replicate 32 8; session_CSRFDigest := replicate 32 9;
       session_CreatedAt := Second; session_LastSeenAt := Second;
       session_ExpiresAt := Second + sessionAbsoluteTTL |} |}.

Definition the_proof : SessionProof :=
  {| proof_ID := "s"; proof_Digest := replicate 32 8; proof_CSRFDigest := replicate 32 9; proof_Now := Second |}.

Definition at_second (n : Z) : clock := (n, 0).

Lemma clock_at n : 0 <= n < 1000000 → clock_ok (at_second n).
Proof. unfold clock_ok, ms_of, at_second. cbn [fst snd]. rewrite Zdiv_0_l. lia. Qed.

Definition signing_in : list (clock * op) :=
  [(at_second 10, OReserve the_reservation); (at_second 11, OVerify (the_attempt "s"));
   (at_second 11, OVerify (the_attempt "r")); (at_second 12, OComplete (the_attempt "s") ada);
   (at_second 13, OComplete (the_attempt "s") ada); (at_second 13, OComplete (the_attempt "r") ada)].

Lemma signing_in_order : in_order 0 signing_in.
Proof. cbn. split_and!; unfold clock_ok, ms_of, instant; cbn; try lia; done. Qed.

Example signing_in_answers :
  map snd (fst (serve signing_in ∅))
  = Some <$> [Number 1; Number 1; Number 0; Number 1; Number 1; Number 0].
Proof. vm_compute. reflexivity. Qed.

(** ** The theorems on it *)

Lemma redis_invariant_witness :
  slots_ok pre (contents_at pre (snd (serve signing_in ∅)) 13000)
  ∧ Forall (λ e, is_Some e.2) (fst (serve signing_in ∅)).
Proof.
  exact (redis_invariant pre ∅ 0 _ _ _ (no_keys_ok 0) (serve_history ∅ 0 signing_in signing_in_order)).
Defined.

Lemma serve_events l d : map fst (fst (serve l d)) = l.
Proof.
  revert d. induction l as [|[t o] l IH]; intros d; cbn; [done|].
  destruct (script_of pre o t d) as [ans d']. specialize (IH d'). destruct (serve l d'). cbn in *. by rewrite IH.
Qed.

Lemma reserved_once hs t r l :
  map fst hs = (t, OReserve r) :: l → Forall (λ e, match e.2 with OReserve _ => False | _ => True end) l →
  not_reserved_again "c" hs.
Proof.
  rewrite Forall_forall. intros E Hno [|e hs1] t1 r1 ans1 hs2 -> _ k; [by intros (? & ? & ? & []%elem_of_nil & _)|].
  injection E as _ <-. destruct (Hno (t1, OReserve r1)). apply list_elem_of_fmap.
  exists (t1, OReserve r1, ans1). split; [done|]. apply elem_of_app. right. left.
Qed.

Lemma same_challenge hs :
  Forall (λ e, match e.2 with OComplete a _ => attempt_ID a = "c" | _ => True end) (map fst hs) →
  leases_distinct hs.
Proof.
  rewrite Forall_forall. intros Ha t a i ans t' a' i' ans' H1 H2 _.
  assert (Hc : ∀ t a i ans, (t, OComplete a i, ans) ∈ hs → attempt_ID a = "c").
  { intros t1 a1 i1 x Hin. apply (Ha (t1, OComplete a1 i1)). apply list_elem_of_fmap.
    by exists (t1, OComplete a1 i1, x). }
  by rewrite (Hc _ _ _ _ H1), (Hc _ _ _ _ H2).
Qed.

Lemma redis_single_winner_witness :
  let hs := fst (serve signing_in ∅) in
  won hs "c" (lease_of (the_attempt "s"))
  ∧ (won hs "c" (lease_of (the_attempt "r")) → lease_of (the_attempt "s") = lease_of (the_attempt "r")).
Proof.
  assert (Hw : won (fst (serve signing_in ∅)) "c" (lease_of (the_attempt "s"))).
  { exists (at_second 12), (the_attempt "s"), ada. split; [|done].
    apply list_elem_of_lookup_2 with (i := 3%nat). vm_compute. reflexivity. }
  split; [exact Hw|]. intros Hw'.
  eapply (redis_single_winner pre ∅ 0 _ _ _ "c" _ _ (no_keys_ok 0) (λ _, eq_refl)
            (serve_history ∅ 0 signing_in signing_in_order)); [| |exact Hw|exact Hw'].
  - eapply reserved_once; [apply serve_events|]. repeat constructor.
  - apply same_challenge. rewrite serve_events. repeat constructor.
Defined.

Lemma redis_budgets_witness :
  Z.of_nat (size (spent_lately (VerifySource (AuthRedis.digest "192.0.2.1")) (fst (serve signing_in ∅)) 13000)) <= 100.
Proof.
  by eapply (redis_budgets pre ∅ 0 _ _ _ (VerifySource (AuthRedis.digest "192.0.2.1")) 100 (no_keys_ok 0)
            (serve_history ∅ 0 signing_in signing_in_order)).
Defined.

(** The session is revoked by its holder, and presented again. *)
Lemma redis_revoked_stays_out_witness :
  let d1 := snd (serve signing_in ∅) in
  let d2 := snd (script_of pre (ORevoke the_proof) (at_second 14) d1) in
  fst (script_of pre (OAuthenticate the_proof) (at_second 13) d1)
    = Some (Values [Some "id-1"; Some "ada@example.com"; Some "1000000000"])
  ∧ fst (script_of pre (OAuthenticate the_proof) (at_second 15) d2) = Some (Values []).
Proof.
  intros d1 d2. split; [vm_compute; reflexivity|].
  assert (Hrun : script_of pre (ORevoke the_proof) (at_second 14) d1 = (Some (Number 1), d2)).
  { rewrite (surjective_pairing (script_of _ _ _ d1)). apply pair_equal_spec.
    split; [vm_compute; reflexivity|reflexivity]. }
  clearbody d2. revert d2 Hrun. generalize (serve_history ∅ 0 signing_in signing_in_order).
  change (snd (serve signing_in ∅)) with d1. clearbody d1. generalize (fst (serve signing_in ∅)).
  intros hs Hh d2 Hrun.
  eapply (redis_revoked_stays_out pre ∅ 0 hs _ d1 (at_second 14) (ORevoke the_proof) d2 "s" [] 14000 d2
            the_proof (at_second 15) (no_keys_ok 0) (λ _, eq_refl) Hh).
  - vm_compute. discriminate.
  - by apply clock_at.
  - exact I.
  - exact Hrun.
  - reflexivity.
  - apply history_nil.
  - constructor.
  - reflexivity.
  - vm_compute. discriminate.
  - by apply clock_at.
Defined.

(** The same through the methods: a reservation, an attempt and the session. *)
#[local] Instance the_identities : IdentityStore (AuthPg.World tables) := pg_identities invited_only.
#[local] Instance the_identities_lawful : LawfulIdentities (AuthPg.World tables) := pg_lawful invited_only.

Definition arrivals : list clock := map at_second [10; 11; 11; 12; 13].
Definition the_world : AuthRedis.World keyspace (AuthPg.World tables) :=
  AuthRedis.mkWorld (∅, calm example_tables)
    (λ n, mkCall (λ s, s) (Answered [] (nth n arrivals (at_second 13)))) 0.

Lemma pair_fst {A B} (x : A * B) a : fst x = a → x = (a, snd x).
Proof. intros <-. apply surjective_pairing. Qed.


