(* ===== verification/ScaffoldTemplates.v ===== *)
(** * The scaffold's templates: internal/scaffold/templates/

    The files that [internal/scaffold] embeds, line by line. *)

From S2P Require Import Prelude GoStrings.

Definition text_lines (l : list string) : string := String.concat "" (map (λ x, x +:+ newline) l).
Definition empty_line : string := "".

(** [templates/go.mod.tmpl]. *)
Definition go_mod_tmpl : string := text_lines [
  "module {{ .Module }}";
  empty_line;
  "go {{ .Go }}"].

(** [templates/main.go.tmpl]. *)
Definition main_go_tmpl : string := text_lines [
  "// Command {{ .Name }} is a Fabrin application.";
  "//";
  "// With no arguments it serves. With arguments it runs the named command:";
  "//";
  "//" +:+ tab +:+ "go run .            # serve on FABRIN_ADDR, default :8080";
  "//" +:+ tab +:+ "go run . routes     # every mounted route, and the module that owns it";
  "//" +:+ tab +:+ "go run . help       # everything this binary can do";
  "package main";
  empty_line;
  "import (";
  tab +:+ dq +:+ "context" +:+ dq;
  tab +:+ dq +:+ "log" +:+ dq;
  tab +:+ dq +:+ "os" +:+ dq;
  empty_line;
  tab +:+ dq +:+ "github.com/usefabrin/fabrin" +:+ dq;
  tab +:+ dq +:+ "github.com/usefabrin/fabrin/config" +:+ dq;
  empty_line;
  tab +:+ dq +:+ "{{ .Module }}/home" +:+ dq;
  ")";
  empty_line;
  "func main() {";
  tab +:+ "// defaults ← .env ← environment ← flags, later layers winning. Loading with";
  tab +:+ "// no sources at all is an error rather than a silent no-op.";
  tab +:+ "opts, err := config.Load(config.Standard()...)";
  tab +:+ "if err != nil {";
  tab +:+ tab +:+ "log.Fatal(err)";
  tab +:+ "}";
  empty_line;
  tab +:+ "app, err := newApp(opts)";
  tab +:+ "if err != nil {";
  tab +:+ tab +:+ "log.Fatal(err)";
  tab +:+ "}";
  empty_line;
  tab +:+ "// Execute rather than Run: Go compiles, so no separate tool can introspect an";
  tab +:+ "// application it did not build. This binary has the modules linked in, so this";
  tab +:+ "// binary is what answers `routes`.";
  tab +:+ "if err := app.Execute(context.Background(), os.Stdout, os.Args[1:]); err != nil {";
  tab +:+ tab +:+ "log.Fatal(err)";
  tab +:+ "}";
  "}";
  empty_line;
  "// newApp is the wiring, kept out of main so a test can exercise the same";
  "// construction the binary does. A test that builds a different app proves";
  "// nothing about the app anyone runs.";
  "//";
  "// This is also the only place that knows which modules exist. A module never";
  "// imports another: it declares the interface it needs, and this function passes";
  "// in whatever satisfies it.";
  "func newApp(opts fabrin.Options) (" +:+ "*fabrin.App, error) {";
  tab +:+ "return fabrin.New(opts,";
  tab +:+ tab +:+ "home.New(),";
  tab +:+ ")";
  "}"].

(** [templates/module.go.tmpl]. *)
Definition module_go_tmpl : string := text_lines [
  "// Package {{ .Package }} is a Fabrin module: a self-contained slice of {{ .App }}";
  "// that owns its own routes.";
  "//";
  "// # Modules never import each other";
  "//";
  "// If this module needs something another module owns, declare the interface it";
  "// needs HERE and take it as a constructor argument. main.go is then the only";
  "// place that knows who provides it:";
  "//";
  "//" +:+ tab +:+ "type Clock interface{ Now() time.Time }";
  "//";
  "//" +:+ tab +:+ "func New(clock Clock) *Module { return &Module{clock: clock} }";
  "//";
  "// That interface is the seam along which this module can later move into its own";
  "// process. A direct import welds the two together permanently, and the weld stays";
  "// invisible until someone tries to split them.";
  "package {{ .Package }}";
  empty_line;
  "import (";
  tab +:+ dq +:+ "net/http" +:+ dq;
  empty_line;
  tab +:+ dq +:+ "github.com/usefabrin/fabrin" +:+ dq;
  ")";
  empty_line;
  "// Module serves {{ .Package }}.";
  "type Module struct{}";
  empty_line;
  "// New returns the module.";
  "//";
  "// Take dependencies as arguments rather than reaching for them: a missing one is";
  "// then a compile error in main, not a nil dereference on the first request.";
  "func New() *Module { return &Module{} }";
  empty_line;
  "// Name identifies the module. It is how FABRIN_MODULES selects this module for a";
  "// process, and how a failing readiness check names it — so it is the one string";
  "// here with behaviour attached.";
  "func (m *Module) Name() string { return " +:+ dq +:+ "{{ .Package }}" +:+ dq +:+ " }";
  empty_line;
  "// Routes mounts this module's routes.";
  "func (m *Module) Routes(r fabrin.Router) {";
  tab +:+ "r.GET(" +:+ dq +:+ "{{ .Route }}" +:+ dq +:+ ", func(c *fabrin.Context) {";
  tab +:+ tab +:+ "c.JSON(http.StatusOK, fabrin.H{" +:+ dq +:+ "module" +:+ dq +:+ ": " +:+ dq +:+ "{{ .Package }}" +:+ dq +:+ "})";
  tab +:+ "})";
  "}"].

(** [templates/module_test.go.tmpl]. *)
Definition module_test_go_tmpl : string := text_lines [
  "package {{ .Package }}_test";
  empty_line;
  "import (";
  tab +:+ dq +:+ "net/http" +:+ dq;
  tab +:+ dq +:+ "net/http/httptest" +:+ dq;
  tab +:+ dq +:+ "testing" +:+ dq;
  empty_line;
  tab +:+ dq +:+ "github.com/usefabrin/fabrin" +:+ dq;
  empty_line;
  tab +:+ dq +:+ "{{ .Module }}/{{ .Package }}" +:+ dq;
  ")";
  empty_line;
  "// Mount the module on a real App and assert on the response, rather than calling";
  "// the handler directly. A handler that works while nothing mounts it is the";
  "// failure mode this shape of test exists to catch.";
  "func Test{{ .Title }}_Answers(t *testing.T) {";
  tab +:+ "app, err := fabrin.New(fabrin.Options{}, {{ .Package }}.New())";
  tab +:+ "if err != nil {";
  tab +:+ tab +:+ "t.Fatalf(" +:+ dq +:+ "New: %v" +:+ dq +:+ ", err)";
  tab +:+ "}";
  empty_line;
  tab +:+ "rec := httptest.NewRecorder()";
  tab +:+ "app.Handler().ServeHTTP(rec, httptest.NewRequest(http.MethodGet, " +:+ dq +:+ "{{ .Route }}" +:+ dq +:+ ", nil))";
  empty_line;
  tab +:+ "if rec.Code != http.StatusOK {";
  tab +:+ tab +:+ "t.Errorf(" +:+ dq +:+ "GET {{ .Route }} = %d, want 200" +:+ dq +:+ ", rec.Code)";
  tab +:+ "}";
  "}"].

(** [templates/justfile.tmpl]. *)
Definition justfile_tmpl : string := text_lines [
  "# {{ .Name }} — run `just` for the list.";
  empty_line;
  "default:";
  "    @just --list";
  empty_line;
  "# Serve on FABRIN_ADDR (default :8080)";
  "run:";
  "    go run .";
  empty_line;
  "# Every mounted route, with the module that owns it";
  "routes:";
  "    go run . routes";
  empty_line;
  "build:";
  "    go build -o bin/{{ .Name }} .";
  empty_line;
  "test:";
  "    go test ./...";
  empty_line;
  "# Style and vet";
  "lint:";
  "    gofmt -l .";
  "    go vet ./...";
  empty_line;
  "# Everything, before you commit";
  "check: lint test build"].

(** [templates/gitignore.tmpl]. *)
Definition gitignore_tmpl : string := text_lines [
  "bin/";
  "*.exe";
  empty_line;
  "# Settings, including secrets. FABRIN_* values belong here in development and in";
  "# the environment in production — never in the repository.";
  ".env"].

(** [templates/README.md.tmpl]. *)
Definition README_md_tmpl : string := text_lines [
  "# {{ .Name }}";
  empty_line;
  "A [Fabrin](https://github.com/usefabrin/fabrin) application.";
  empty_line;
  "```bash";
  "just run                 # serve on :8080";
  "curl localhost:8080/";
  "curl localhost:8080/healthz   # liveness — consults nothing";
  "curl localhost:8080/readyz    # readiness — aggregates module checks, fails closed";
  "```";
  empty_line;
  "## What this binary can do";
  empty_line;
  "```bash";
  "go run . help";
  "go run . routes          # every mounted route, and the module that owns it";
  "go run . version";
  "```";
  empty_line;
  "No arguments means *serve*.";
  empty_line;
  "## Modules";
  empty_line;
  "A module owns its routes and, optionally, its health checks, commands, models,";
  "and lifecycle. `home/` is the one this project started with; add more with";
  "`fabrin startapp <name>` and wire them in `main.go`.";
  empty_line;
  "**A module never imports another module.** If `orders` needs something `billing`";
  "owns, `orders` declares the interface it needs in its own package and `main.go`";
  "passes in whatever satisfies it. That interface is the seam along which the";
  "module can later move into its own process.";
  empty_line;
  "## Deployment shapes";
  empty_line;
  "```bash";
  "FABRIN_MODULES=home go run .    # mount only these modules";
  "```";
  empty_line;
  "One binary, N deployment shapes. An unknown module name is a startup error, never";
  "a silent no-op.";
  empty_line;
  "## Settings";
  empty_line;
  "Resolved as defaults ← `.env` ← environment ← flags, later layers winning.";
  empty_line;
  "| Key | Default | |";
  "|---|---|---|";
  "| `FABRIN_ADDR` | `:8080` | listen address |";
  "| `FABRIN_MODULES` | *(all)* | which modules this process mounts |";
  "| `FABRIN_LOG_FORMAT` | `json` | `json` or `text` |";
  "| `FABRIN_LOG_LEVEL` | `info` | |";
  "| `FABRIN_DEBUG` | `false` | development conveniences; leave off in production |";
  empty_line;
  "Every one also works as a flag: `go run . -addr :9000`."].

(** [templates], as [go:embed templates/*.tmpl] fills it. *)
Definition templates : list (string * string) := [
  ("templates/go.mod.tmpl", go_mod_tmpl);
  ("templates/main.go.tmpl", main_go_tmpl);
  ("templates/module.go.tmpl", module_go_tmpl);
  ("templates/module_test.go.tmpl", module_test_go_tmpl);
  ("templates/justfile.tmpl", justfile_tmpl);
  ("templates/gitignore.tmpl", gitignore_tmpl);
  ("templates/README.md.tmpl", README_md_tmpl)].
