(* ===== verification/Scaffold.v ===== *)
(** * Project scaffolding: internal/scaffold/

    [fabrin new] and [fabrin startapp] without their commands: validation, the
    templates, the refusal to overwrite, and the edit that wires a module into
    main.go.  The disk is the set of folders and the contents of the files, by
    clean path; every call to the system may fail, and a write that fails may leave
    part of its data.  Go's parser is [ParseFile], which sees a file as the few
    constructors the code looks at. *)

From S2P Require Import Prelude GoStrings Token Paths ScaffoldTemplates.

(** ** Templates: [text/template] as the embedded files use it *)

Inductive part := Text (s : string) | Field (name : string).

(** The inside of [{{ .Name }}]; the embedded templates hold no other action. *)
Definition parse_action (inner : string) : option part :=
  match Trim inner " " with
  | String c name =>
      if Ascii.eqb c "." && negb (String.eqb name "") && string_forall (λ c, is_lower c || is_upper c) name
      then Some (Field name) else None
  | "" => None
  end.

(** The fuel bounds the number of actions. *)
Fixpoint parse_parts (fuel : nat) (s : string) : option (list part) :=
  match fuel with
  | O => None
  | S fuel' =>
      match Cut s "{{" with
      | None => Some [Text s]
      | Some (before, rest) =>
          '(inner, after) ← Cut rest "}}";
          p ← parse_action inner;
          ps ← parse_parts fuel' after;
          Some (Text before :: p :: ps)
      end
  end.
Definition parse_template (s : string) : option (list part) := parse_parts (S (String.length s)) s.

(** With [missingkey=error]. *)
Fixpoint execute (data : gmap string string) (ps : list part) : result string string :=
  match ps with
  | [] => Ok ""
  | Text s :: ps' => rest ← execute data ps'; Ok (s +:+ rest)
  | Field k :: ps' =>
      match data !! k with
      | Some v => rest ← execute data ps'; Ok (v +:+ rest)
      | None => Err ("map has no entry for key " +:+ k)
      end
  end.

(** [ParseFS] on the embedded file of a name. *)
Definition template_named (name : string) : option (list part) :=
  match List.find (λ f, String.eqb (fst f) ("templates/" +:+ name)) templates with
  | Some (_, text) => parse_template text
  | None => None
  end.

Definition render (name : string) (data : gmap string string) : result string string :=
  match template_named name with
  | None => Err ("fabrin: parse template " +:+ name)
  | Some t =>
      match execute data t with
      | Ok b => Ok b
      | Err e => Err ("fabrin: render " +:+ name +:+ ": " +:+ e)
      end
  end.

(** ** The disk *)

Record disk := mkDisk {
  contents : gmap string string;
  folders : gset string;
  calls : nat;
}.

(** Why the nth call fails, what a failed write leaves of its file, and how many of
    the folders a failed [MkdirAll] was asked for it has made. *)
Record fault := { reason : string; leaves : option string; made : nat }.

Definition IO (A : Type) : Type := disk → result string A * disk.
#[export] Instance IO_ret : MRet IO := λ A a d, (Ok a, d).
#[export] Instance IO_bind : MBind IO := λ A B f m d,
  match m d with
  | (Ok a, d') => f a d'
  | (Err e, d') => (Err e, d')
  end.
Definition fail {A} (e : string) : IO A := λ d, (Err e, d).
Definition of_result {A} (r : result string A) : IO A := λ d, (r, d).
(** [if err := check(...); err != nil { return err }]. *)
Definition checked (e : option string) : IO () := λ d, (match e with Some e => Err e | None => Ok () end, d).
(** The outcome of a call, for code that looks at its error. *)
Definition attempt {A} (m : IO A) : IO (result string A) := λ d, let '(r, d') := m d in (Ok r, d').
Definition wrap {A} (f : string → string) (m : IO A) : IO A := λ d,
  match m d with
  | (Err e, d') => (Err (f e), d')
  | ok => ok
  end.

(** What is at a path. *)
Inductive kind := Missing | Folder | File (data : string) | BelowFile.

Definition is_top (p : string) : bool := String.eqb p "." || String.eqb p "/".
Definition is_folder (d : disk) (p : string) : bool :=
  is_top p || bool_decide (p ∈ folders d).

(** The folders a path is in, from the top; the fuel bounds their number. *)
Fixpoint ancestors_from (fuel : nat) (p : string) : list string :=
  match fuel with
  | O => []
  | S fuel' =>
      let q := path_Dir p in
      if String.eqb q p || is_top q then []
      else ancestors_from fuel' q ++ [q]
  end.
Definition ancestors (p : string) : list string := ancestors_from (String.length p) p.

Definition kind_of (d : disk) (p : string) : kind :=
  if is_folder d p then Folder
  else match contents d !! p with
       | Some data => File data
       | None => if existsb (λ q, bool_decide (is_Some (contents d !! q))) (ancestors p) then BelowFile
                 else Missing
       end.

(** The names in a folder. *)
Definition child (p q : string) : bool := negb (String.eqb q p) && String.eqb (path_Dir q) p.
Definition entries (d : disk) (p : string) : list string :=
  sort_by str_leb
    (map path_Base (List.filter (child p) (elements (folders d) ++ map fst (map_to_list (contents d))))).

Section os.
Context (faults : nat → option fault).

Definition next_call (d : disk) : disk := mkDisk (contents d) (folders d) (S (calls d)).

(** A call that only looks. *)
Definition look {A} (answer : disk → result string A) : IO A := λ d,
  match faults (calls d) with
  | Some f => (Err (reason f), next_call d)
  | None => (answer d, next_call d)
  end.

(** [os.Stat]: whether there is anything; [os.IsNotExist] is the answer [false]. *)
Definition Stat (p : string) : IO bool := look (λ d,
  match kind_of d (Clean p) with
  | Missing => Ok false
  | Folder | File _ => Ok true
  | BelowFile => Err "not a directory"
  end).

(** [os.ReadDir]: [None] when there is no such path. *)
Definition ReadDir (p : string) : IO (option (list string)) := look (λ d,
  match kind_of d (Clean p) with
  | Missing => Ok None
  | Folder => Ok (Some (entries d (Clean p)))
  | File _ | BelowFile => Err "not a directory"
  end).

Definition ReadFile (p : string) : IO string := look (λ d,
  match kind_of d (Clean p) with
  | File data => Ok data
  | Missing => Err "no such file or directory"
  | Folder => Err "is a directory"
  | BelowFile => Err "not a directory"
  end).

Definition make_folders (ps : list string) (d : disk) : disk :=
  mkDisk (contents d) (folders d ∪ list_to_set (List.filter (λ p, negb (is_top p)) ps)) (S (calls d)).

(** [os.MkdirAll]: the path and all above it, from the top. *)
Definition MkdirAll (p : string) : IO () := λ d,
  let ps := ancestors (Clean p) ++ [Clean p] in
  if existsb (λ q, bool_decide (is_Some (contents d !! q))) ps
  then (Err "not a directory", next_call d)
  else match faults (calls d) with
       | Some f => (Err (reason f), make_folders (take (made f) ps) d)
       | None => (Ok (), make_folders ps d)
       end.

Definition write_at (p data : string) (d : disk) : disk :=
  mkDisk (<[p := data]> (contents d)) (folders d) (S (calls d)).

(** [os.WriteFile]. *)
Definition WriteFile (p data : string) : IO () := λ d,
  let p := Clean p in
  if is_folder d p then (Err "is a directory", next_call d)
  else if is_folder d (path_Dir p) then
    match faults (calls d) with
    | Some f => (Err (reason f), match leaves f with Some part => write_at p part d | None => next_call d end)
    | None => (Ok (), write_at p data d)
    end
  else (Err "no such file or directory", next_call d).
End os.

(** ** A new project: scaffold.go *)

(** [files]. *)
Definition files : list (string * string) := [
  ("go.mod.tmpl", "go.mod");
  ("main.go.tmpl", "main.go");
  ("module.go.tmpl", path_join ["home"; "home.go"]);
  ("module_test.go.tmpl", path_join ["home"; "home_test.go"]);
  ("justfile.tmpl", "justfile");
  ("gitignore.tmpl", ".gitignore");
  ("README.md.tmpl", "README.md")].

(** [Project]; [Module] is a keyword of Rocq. *)
Record Project := mkProject { Name : string; ModulePath : string; Dir : string }.

Definition goDirective : string := "1.25".

(** [strings.ToUpper] of a string of at most one byte: a byte above 127 is no rune
    and becomes U+FFFD. *)
Definition upper_byte (s : string) : string :=
  match s with
  | String c "" => if (byte c <? 128)%Z then String (upper_ascii c) "" else encode_rune RuneError
  | _ => s
  end.

Definition moduleData (pkg modulePath app route : string) : gmap string string :=
  list_to_map [("Package", pkg); ("Module", modulePath); ("App", app); ("Route", route);
               ("Title", upper_byte (take_bytes 1 pkg) +:+ drop_bytes 1 pkg)].

Section scaffold.
Context `{Unicode} `{RuneClasses}.

Definition validName (name : string) : option string :=
  if String.eqb (TrimSpace name) "" then Some "fabrin: project name is empty — try `fabrin new myapp`"
  else if String.eqb name "." || String.eqb name ".." then
    Some ("fabrin: " +:+ Quote name +:+ " is not a project name")
  else if ContainsAny name "/\" then
    Some ("fabrin: project name " +:+ Quote name
          +:+ " contains a path separator — pass a name, and -dir if you want it somewhere else")
  else if ContainsAny name (" " +:+ tab) then
    Some ("fabrin: project name " +:+ Quote name
          +:+ " contains whitespace, which cannot appear in a Go import path")
  else None.

Definition validModule (module : string) : option string :=
  if ContainsAny module (" " +:+ tab) then
    Some ("fabrin: module path " +:+ Quote module +:+ " contains whitespace")
  else if HasPrefix module "/" || HasSuffix module "/" then
    Some ("fabrin: module path " +:+ Quote module +:+ " has a leading or trailing slash")
  else if Contains module "//" then
    Some ("fabrin: module path " +:+ Quote module +:+ " has an empty path element")
  else None.

Section generate.
Context (faults : nat → option fault).

Definition emptyOrAbsent (dir : string) : IO () :=
  let parent := path_Dir dir in
  _ ← (if String.eqb parent dir then mret ()
       else
         found ← attempt (Stat faults parent);
         match found with
         | Ok false => fail ("fabrin: " +:+ parent +:+ " does not exist — create it first, or check the -dir path")
         | Err err => fail ("fabrin: " +:+ parent +:+ ": " +:+ err)
         | Ok true => mret ()
         end);
  entries ← wrap (λ err, "fabrin: read " +:+ dir +:+ ": " +:+ err) (ReadDir faults dir);
  match entries with
  | Some (first :: _) =>
      fail ("fabrin: " +:+ dir +:+ " is not empty (it contains " +:+ Quote first +:+ ") — refusing to overwrite")
  | _ => mret ()
  end.

(** The loop over the files. *)
Fixpoint write_files (data : gmap string string) (dir : string) (fs : list (string * string)) : IO () :=
  match fs with
  | [] => mret ()
  | (tmpl, path) :: fs' =>
      let out := path_join [dir; path] in
      _ ← wrap (λ err, "fabrin: create " +:+ path_Dir out +:+ ": " +:+ err) (MkdirAll faults (path_Dir out));
      rendered ← of_result (render tmpl data);
      _ ← wrap (λ err, "fabrin: write " +:+ out +:+ ": " +:+ err) (WriteFile faults out rendered);
      write_files data dir fs'
  end.

Definition project_module (p : Project) : string := if String.eqb (ModulePath p) "" then Name p else ModulePath p.
Definition project_dir (p : Project) : string := if String.eqb (Dir p) "" then Name p else Dir p.
Definition project_data (p : Project) : gmap string string :=
  <["Go" := goDirective]> (<["Name" := Name p]> (moduleData "home" (project_module p) (Name p) "/")).

Definition GenerateProject (p : Project) : IO () :=
  _ ← checked (validName (Name p));
  _ ← checked (validModule (project_module p));
  _ ← emptyOrAbsent (project_dir p);
  write_files (project_data p) (project_dir p) files.

End generate.
End scaffold.
