(* ===== verification/ScaffoldSpec.v ===== *)
(** * A new project

    What [GenerateProject] does to a disk, whatever call fails: it writes the
    project's files and no other, never over a file that was there, and nothing at
    all when the request is refused. *)

From S2P Require Import Prelude GoStrings Token Paths ScaffoldTemplates Scaffold.

(** ** Disks *)

Definition at_path (d : disk) (q : string) : Prop := q ∈ folders d ∨ is_Some (contents d !! q).

(** Paths are clean, what exists is in a folder, and no folder is a file. *)
Record wf (d : disk) : Prop := {
  wf_clean : ∀ q, at_path d q → ∃ r L x, q = path_of r (L ++ [x]) ∧ clean_list r (L ++ [x]);
  wf_parent : ∀ q, at_path d q → is_folder d (path_Dir q) = true;
  wf_apart : ∀ q, q ∈ folders d → contents d !! q = None;
}.

Definition vacant (d : disk) (p : string) : Prop :=
  kind_of d p = Missing ∨ kind_of d p = Folder ∧ entries d p = [].

Lemma path_of_top r L : clean_list r L → path_of r L = "." ∨ path_of r L = "/" → L = [].
Proof.
  intros Hc [E|E].
  - change "." with (path_of false []) in E. apply path_of_inj in E as [_ ?]; [done|done|]. by exists 0, [].
  - change "/" with (path_of true []) in E. apply path_of_inj in E as [_ ?]; [done|done|]. by exists 0, [].
Qed.

Lemma not_top r L : clean_list r L → L ≠ [] → is_top (path_of r L) = false.
Proof.
  intros Hc Hne. unfold is_top.
  destruct (String.eqb_spec (path_of r L) ".") as [E|_]; [destruct Hne; apply path_of_top with r; auto|].
  destruct (String.eqb_spec (path_of r L) "/") as [E|_]; [destruct Hne; apply path_of_top with r; auto|]. done.
Qed.
Lemma top_path r : is_top (path_of r []) = true.
Proof. by destruct r. Qed.

Lemma is_folder_below d r L : clean_list r L → L ≠ [] → is_folder d (path_of r L) = true → path_of r L ∈ folders d.
Proof.
  intros Hc Hne. unfold is_folder. rewrite not_top by done. cbn. apply bool_decide_eq_true.
Qed.

Lemma is_folder_in d q : q ∈ folders d → is_folder d q = true.
Proof. intros Hq. unfold is_folder. rewrite (bool_decide_true _ Hq). apply orb_true_r. Qed.

Lemma entries_empty d p q : entries d p = [] → at_path d q → q ≠ p → path_Dir q ≠ p.
Proof.
  unfold entries. intros He Hq Hne Hd.
  assert (Hl : List.filter (child p) (elements (folders d) ++ map fst (map_to_list (contents d))) = []).
  { destruct (List.filter _ _) as [|x l] eqn:E; [done|]. cbn [map] in He.
    assert (Hp : length (sort_by str_leb (path_Base x :: map path_Base l)) = 0) by by rewrite He.
    rewrite (Permutation_length (sort_by_perm _ _)) in Hp. done. }
  assert (Hin : q ∈ List.filter (child p) (elements (folders d) ++ map fst (map_to_list (contents d)))).
  { apply list_elem_of_In, filter_In. split.
    - apply list_elem_of_In, elem_of_app. destruct Hq as [Hq|[data Hq]]; [left; by apply elem_of_elements|right].
      apply list_elem_of_fmap. exists (q, data). split; [done|]. by apply elem_of_map_to_list.
    - unfold child. rewrite (proj2 (String.eqb_neq _ _) Hne), Hd. by rewrite String.eqb_refl. }
  rewrite Hl in Hin. by apply elem_of_nil in Hin.
Qed.

(** Nothing is below a vacant path. *)
Lemma vacant_below d r E l :
  wf d → clean_list r (E ++ l) → l ≠ [] → vacant d (path_of r E) → ¬ at_path d (path_of r (E ++ l)).
Proof.
  intros Hwf Hc Hl Hv. induction l as [|x l IH] using rev_ind; [done|]. clear Hl. intros Hq.
  rewrite app_assoc in Hq, Hc. pose proof (clean_list_init _ _ _ Hc) as Hc'.
  pose proof (wf_parent d Hwf _ Hq) as Hp. rewrite path_Dir_of in Hp by done.
  destruct (decide (l = [])) as [->|Hne].
  - rewrite app_nil_r in *. destruct Hv as [Hm|[_ He]].
    + unfold kind_of in Hm. by rewrite Hp in Hm.
    + eapply entries_empty; [exact He|exact Hq| |by apply path_Dir_of].
      intros Eq. apply path_of_inj in Eq as [_ Eq]; [|done..]. apply (f_equal length) in Eq.
      rewrite length_app in Eq. cbn in Eq. lia.
  - apply IH; [done|done|]. left. apply is_folder_below; [done| |done]. by destruct E, l.
Qed.

Lemma clean_list_prefix r L1 L2 : clean_list r (L1 ++ L2) → clean_list r L1.
Proof.
  induction L2 as [|x L2 IH] using rev_ind; [by rewrite app_nil_r|]. rewrite app_assoc.
  intros Hc%clean_list_init. auto.
Qed.

(** The folders a path is in, and the path. *)
Definition ups (r : bool) (L : list string) : list string :=
  map (λ k, path_of r (take (S k) L)) (seq 0 (length L)).

Lemma ups_snoc r L x : ups r (L ++ [x]) = ups r L ++ [path_of r (L ++ [x])].
Proof.
  unfold ups. rewrite length_app. cbn [length]. rewrite Nat.add_1_r, seq_S, map_app. cbn [map]. f_equal.
  - apply map_ext_in. intros k [_ Hk]%in_seq. rewrite take_app_le by lia. done.
  - rewrite (take_ge (L ++ [x])); [done|]. rewrite length_app. cbn. lia.
Qed.

Lemma path_of_length r L : clean_list r L → L ≠ [] → length L ≤ String.length (path_of r L).
Proof.
  intros Hc%clean_list_elements. induction L as [|x L IH] using rev_ind; [done|]. intros _.
  destruct (decide (L = [])) as [->|Hne].
  - rewrite path_of_body by done. apply Forall_app in Hc as [_ Hx]. rewrite Forall_singleton in Hx.
    destruct Hx as (Hx & _). cbn [app Join length]. rewrite string_length_app. destruct x; [done|]. cbn. lia.
  - rewrite path_of_snoc by done. apply Forall_app in Hc as [Hc _]. specialize (IH Hc Hne).
    rewrite length_app, string_length_app. cbn. lia.
Qed.

Lemma ancestors_from_ups n r L x : clean_list r (L ++ [x]) → length L < n → ancestors_from n (path_of r (L ++ [x])) = ups r L.
Proof.
  revert L x. induction n as [|n IH]; intros L x Hc Hn; [lia|]. cbn [ancestors_from].
  rewrite path_Dir_of by done. pose proof (clean_list_init _ _ _ Hc) as Hc'.
  destruct L as [|y L _] using rev_ind; [by rewrite top_path, orb_true_r|].
  rewrite not_top, orb_false_r by (done || by destruct L).
  destruct (String.eqb_spec (path_of r (L ++ [y])) (path_of r ((L ++ [y]) ++ [x]))) as [E|_].
  { apply path_of_inj in E as [_ E]; [|done..]. apply (f_equal length) in E.
    rewrite (length_app _ [x]) in E. cbn [length] in E. lia. }
  rewrite ups_snoc. rewrite length_app in Hn. cbn in Hn. rewrite IH by (done || lia). done.
Qed.

Lemma ancestors_ups r L : clean_list r L → L ≠ [] → ancestors (path_of r L) ++ [path_of r L] = ups r L.
Proof.
  intros Hc Hne. pose proof (path_of_length r L Hc Hne) as Hl. destruct L as [|x L _] using rev_ind; [done|].
  unfold ancestors. rewrite ancestors_from_ups; [by rewrite ups_snoc|done|]. rewrite length_app in Hl. cbn [length] in Hl. lia.
Qed.

Lemma ancestors_top r : ancestors (path_of r []) ++ [path_of r []] = [path_of r []].
Proof. by destruct r. Qed.

Lemma elem_of_ups r L q : q ∈ ups r L → ∃ L1 x L2, L = (L1 ++ [x]) ++ L2 ∧ q = path_of r (L1 ++ [x]) ∧ (L1 = [] ∨ path_of r L1 ∈ ups r L).
Proof.
  induction L as [|y L IH] using rev_ind; [by intros ?%elem_of_nil|]. rewrite ups_snoc.
  intros [(L1 & x & L2 & -> & -> & Hup)%IH|Hq%list_elem_of_singleton]%elem_of_app.
  - exists L1, x, (L2 ++ [y]). split; [by rewrite !app_assoc|]. split; [done|].
    destruct Hup as [->|Hup]; [by left|right]. apply elem_of_app. by left.
  - subst q. exists L, y, []. rewrite app_nil_r. split; [done|]. split; [done|].
    destruct L as [|z L _] using rev_ind; [by left|right]. apply elem_of_app. left.
    rewrite ups_snoc. apply elem_of_app. right. by left.
Qed.

Lemma take_ups n r L : take n (ups r L) = ups r (take n L).
Proof.
  revert n. induction L as [|x L IH] using rev_ind; intros n; [by destruct n|].
  assert (Hl : length (ups r L) = length L) by (unfold ups; by rewrite length_map, length_seq).
  destruct (Nat.le_gt_cases n (length L)).
  - rewrite ups_snoc, !take_app_le by lia. apply IH.
  - rewrite !take_ge; [done|rewrite length_app; cbn; lia|rewrite ups_snoc, length_app, Hl; cbn; lia].
Qed.

Lemma ups_prefix r L q : q ∈ ups r L → ∃ L1 L2, L = L1 ++ L2 ∧ L1 ≠ [] ∧ q = path_of r L1.
Proof. intros (L1 & x & L2 & -> & -> & _)%elem_of_ups. exists (L1 ++ [x]), L2. split_and!; [done|by destruct L1|done]. Qed.

(** What a folder is in is folders. *)
Lemma above_folder d r L1 L2 :
  wf d → clean_list r (L1 ++ L2) → is_folder d (path_of r (L1 ++ L2)) = true → is_folder d (path_of r L1) = true.
Proof.
  intros Hwf. induction L2 as [|x L2 IH] using rev_ind; [by rewrite app_nil_r|].
  rewrite app_assoc. intros Hc Hf. pose proof (clean_list_init _ _ _ Hc) as Hc'. apply IH; [done|].
  rewrite <-(path_Dir_of r (L1 ++ L2) x) by done. apply (wf_parent d Hwf). left.
  apply is_folder_below; [done|by destruct (L1 ++ L2)|done].
Qed.

Lemma folder_no_file d r L : wf d → clean_list r L → is_folder d (path_of r L) = true → contents d !! path_of r L = None.
Proof.
  intros Hwf Hc Hf. destruct (decide (L = [])) as [->|Hne].
  - destruct (contents d !! path_of r []) as [data|] eqn:E; [|done].
    destruct (wf_clean d Hwf (path_of r [])) as (r' & L' & x & Eq & Hc'); [right; by eexists|].
    apply path_of_inj in Eq as [_ Eq]; [by destruct L'|done..].
  - by apply (wf_apart d Hwf), is_folder_below.
Qed.

(** ** Calls *)

Lemma wrap_snd {A} (f : string → string) (m : IO A) d : snd (wrap f m d) = snd (m d).
Proof. unfold wrap. by destruct (m d) as [[a|e] d']. Qed.
Lemma wrap_ok {A} (f : string → string) (m : IO A) d a d' : wrap f m d = (Ok a, d') ↔ m d = (Ok a, d').
Proof. unfold wrap. destruct (m d) as [[x|e] y]; naive_solver. Qed.
Lemma wrap_inv {A} (f : string → string) (m : IO A) d r d' : wrap f m d = (r, d') → snd (m d) = d'.
Proof. intros E. by rewrite <-(wrap_snd f), E. Qed.

Lemma MkdirAll_contents faults p d r d' : MkdirAll faults p d = (r, d') → contents d' = contents d.
Proof. unfold MkdirAll. cbv zeta. destruct (existsb _ _); [|destruct (faults _)]; by intros [= _ <-]. Qed.

Lemma WriteFile_contents faults p data d r d' q :
  WriteFile faults p data d = (r, d') →
  (q ≠ Clean p → contents d' !! q = contents d !! q) ∧ (r = Ok () → contents d' !! Clean p = Some data).
Proof.
  unfold WriteFile. cbv zeta. destruct (is_folder d (Clean p)); [by intros [= <- <-]|].
  destruct (is_folder d (path_Dir _)); [|by intros [= <- <-]].
  destruct (faults _) as [f|]; intros [= <- <-]; [split; [|done]|]; cbn.
  - intros Hq. destruct (leaves f); [|done]. cbn. by rewrite lookup_insert_ne.
  - split; [intros Hq; by rewrite lookup_insert_ne|by rewrite lookup_insert_eq].
Qed.

Definition same (d d' : disk) : Prop := contents d' = contents d ∧ folders d' = folders d.

Lemma look_same {A} faults (f : disk → result string A) d r d' :
  look faults f d = (r, d') → same d d' ∧ (∀ a, r = Ok a → f d = Ok a) ∧ ((∀ n, faults n = None) → r = f d).
Proof. unfold look. destruct (faults _) eqn:E; intros [= <- <-]; split_and!; try done. intros Hn. by rewrite Hn in E. Qed.

Lemma made_in ps d q : q ∈ folders (make_folders ps d) → q ∈ folders d ∨ q ∈ ps.
Proof.
  cbn. intros [Hq|Hq%elem_of_list_to_set]%elem_of_union; [by left|right].
  apply list_elem_of_In, filter_In in Hq as [Hq _]. by apply list_elem_of_In.
Qed.
Lemma made_folder ps d q : q ∈ ps → is_folder (make_folders ps d) q = true.
Proof.
  intros Hq. unfold is_folder. destruct (is_top q) eqn:E; [done|]. cbn. apply bool_decide_eq_true.
  apply elem_of_union_r, elem_of_list_to_set, list_elem_of_In, filter_In. rewrite E. split; [by apply list_elem_of_In|done].
Qed.

(** ** The invariant *)

Lemma same_wf d d' : same d d' → wf d → wf d'.
Proof.
  intros [Ec Ef] [H1 H2 H3]. unfold at_path, is_folder in *. split; unfold at_path, is_folder; by rewrite ?Ec, ?Ef.
Qed.

Lemma make_folders_wf d r L :
  wf d → clean_list r L → (∀ q, q ∈ ups r L → contents d !! q = None) → wf (make_folders (ups r L) d).
Proof.
  intros Hwf Hc Hno.
  assert (Hmono : ∀ q, is_folder d q = true → is_folder (make_folders (ups r L) d) q = true).
  { unfold is_folder. intros q Hq. destruct (is_top q); [done|]. cbn in Hq |- *.
    apply bool_decide_eq_true in Hq. apply bool_decide_eq_true. by apply elem_of_union_l. }
  assert (Hat : ∀ q, at_path (make_folders (ups r L) d) q → at_path d q ∨ q ∈ ups r L).
  { intros q [[Hq|Hq]%made_in|Hq]; [left; by left|by right|left; by right]. }
  split.
  - intros q [Hq|Hq]%Hat; [by apply (wf_clean d Hwf)|]. apply elem_of_ups in Hq as (L1 & x & L2 & -> & -> & _).
    exists r, L1, x. split; [done|]. by apply clean_list_prefix in Hc.
  - intros q [Hq|Hq]%Hat; [by apply Hmono, (wf_parent d Hwf)|].
    apply elem_of_ups in Hq as (L1 & x & L2 & -> & -> & Hup). apply clean_list_prefix in Hc.
    rewrite path_Dir_of by done. destruct Hup as [->|Hup]; [unfold is_folder; by rewrite top_path|].
    by apply made_folder.
  - intros q [Hq|Hq]%made_in; [by apply (wf_apart d Hwf)|by apply Hno].
Qed.

Lemma make_top_wf d ps : wf d → Forall (λ q, is_top q = true) ps → wf (make_folders ps d).
Proof.
  intros Hwf Hps. apply (same_wf d); [|done]. split; [done|]. cbn.
  assert (E : List.filter (λ p, negb (is_top p)) ps = []) by (by induction Hps as [|p ps Hp _ IH]; cbn; rewrite ?Hp).
  rewrite E. cbn. set_solver.
Qed.

Lemma MkdirAll_wf faults p d r d' : wf d → MkdirAll faults p d = (r, d') → wf d'.
Proof.
  intros Hwf. unfold MkdirAll. cbv zeta. rewrite Clean_elems. pose proof (elems_clean p) as Hc.
  destruct (existsb _ _) eqn:Ex; [intros [= _ <-]; by apply (same_wf d)|].
  assert (Hno : ∀ q, q ∈ ancestors (path_of (rooted p) (elems p)) ++ [path_of (rooted p) (elems p)] → contents d !! q = None).
  { intros q Hq. destruct (contents d !! q) as [data|] eqn:E; [|done]. exfalso. apply not_true_iff_false in Ex. apply Ex.
    apply existsb_exists. exists q. split; [by apply list_elem_of_In|]. apply bool_decide_eq_true. by rewrite E. }
  destruct (decide (elems p = [])) as [E0|E0].
  - rewrite E0, ancestors_top in *. destruct (faults _); intros [= _ <-]; apply make_top_wf; try done.
    + apply Forall_take. constructor; [apply top_path|done].
    + constructor; [apply top_path|done].
  - rewrite ancestors_ups in * by done. destruct (faults _) as [f|]; intros [= _ <-]; [rewrite take_ups|];
      apply make_folders_wf; try done.
    + rewrite <-(take_drop (made f) (elems p)) in Hc. by apply clean_list_prefix in Hc.
    + intros q Hq. apply Hno. rewrite <-take_ups in Hq. by apply subseteq_take in Hq.
Qed.

Lemma write_at_wf p data d :
  wf d → is_folder d (Clean p) = false → is_folder d (path_Dir (Clean p)) = true → wf (write_at (Clean p) data d).
Proof.
  intros Hwf Hf Hp. assert (Hat : ∀ q, at_path (write_at (Clean p) data d) q → at_path d q ∨ q = Clean p).
  { intros q [Hq|Hq]; [left; by left|]. cbn in Hq. destruct (decide (q = Clean p)) as [->|Hne]; [by right|].
    rewrite lookup_insert_ne in Hq by done. left. by right. }
  split.
  - intros q [Hq| ->]%Hat; [by apply (wf_clean d Hwf)|]. rewrite Clean_elems in *. pose proof (elems_clean p) as Hc.
    destruct (elems p) as [|x L _] using rev_ind; [unfold is_folder in Hf; by rewrite top_path in Hf|].
    by exists (rooted p), L, x.
  - intros q [Hq| ->]%Hat; [by apply (wf_parent d Hwf)|done].
  - intros q Hq. cbn in *. rewrite lookup_insert_ne; [by apply (wf_apart d Hwf)|].
    intros <-. rewrite is_folder_in in Hf; done.
Qed.

Lemma WriteFile_wf faults p data d r d' : wf d → WriteFile faults p data d = (r, d') → wf d'.
Proof.
  intros Hwf. unfold WriteFile. cbv zeta. destruct (is_folder d (Clean p)) eqn:Hf; [intros [= _ <-]; by apply (same_wf d)|].
  destruct (is_folder d (path_Dir _)) eqn:Hp; [|intros [= _ <-]; by apply (same_wf d)].
  destruct (faults _) as [f|]; intros [= _ <-]; [destruct (leaves f)|]; try by apply write_at_wf.
  by apply (same_wf d).
Qed.

(** ** The loop *)

Section files.
Context (faults : nat → option fault) (data : gmap string string) (dir : string).

Definition good_file (f : string * string) : Prop := ∃ l, l ≠ [] ∧ Forall plain l ∧ f.2 = Join l "/".
Definition out_of (f : string * string) : string := path_join [dir; f.2].

Lemma out_of_list f l :
  dir ≠ "" → l ≠ [] → Forall plain l → f.2 = Join l "/" → out_of f = path_of (rooted dir) (elems dir ++ l).
Proof. intros Hd Hl Hp E. unfold out_of. rewrite E. by apply path_join_below. Qed.

Lemma out_clean f : dir ≠ "" → good_file f → Clean (out_of f) = out_of f.
Proof.
  intros Hd (l & Hl & Hp & E). rewrite (out_of_list f l) by done. apply Clean_path_of, clean_list_app; [apply elems_clean|done].
Qed.

Lemma write_files_keeps fs d r d' :
  dir ≠ "" → Forall good_file fs → write_files faults data dir fs d = (r, d') →
  (∀ q, q ∉ map out_of fs → contents d' !! q = contents d !! q)
  ∧ (r = Ok () → NoDup (map out_of fs) → ∀ f, f ∈ fs →
       ∃ text, render f.1 data = Ok text ∧ contents d' !! out_of f = Some text).
Proof.
  intros Hd Hg. revert d. induction Hg as [|f fs Hf Hg IH]; intros d E.
  { cbn in E. injection E as <- <-. split; [done|]. intros _ _ f Hf. by apply elem_of_nil in Hf. }
  destruct f as [tmpl path]. cbn [write_files] in E. fold (out_of (tmpl, path)) in E.
  unfold mbind, IO_bind in E. destruct (wrap _ (MkdirAll _ _) d) as [[[]|e] d1] eqn:E1.
  2: { injection E as <- <-. apply wrap_inv in E1. destruct (MkdirAll _ _ d) as [x y] eqn:E2. cbn in E1. subst y.
       apply MkdirAll_contents in E2. split; [by intros q _; rewrite E2|done]. }
  apply wrap_ok, MkdirAll_contents in E1. unfold of_result in E.
  destruct (render tmpl data) as [text|e] eqn:Er; [|injection E as <- <-; split; [by intros q _; rewrite E1|done]].
  destruct (wrap _ (WriteFile _ _ _) d1) as [w d2] eqn:E2. pose proof (wrap_inv _ _ _ _ _ E2) as E3.
  destruct (WriteFile faults (path_join [dir; path]) text d1) as [w' y] eqn:E4. cbn in E3. subst y.
  change (WriteFile faults (out_of (tmpl, path)) text d1 = (w', d2)) in E4.
  assert (Hkeep : ∀ q, q ≠ out_of (tmpl, path) → contents d2 !! q = contents d !! q).
  { intros q Hq. rewrite <-E1. eapply WriteFile_contents; [exact E4|].
    by rewrite out_clean. }
  destruct w as [[]|e].
  - apply wrap_ok in E2. change (WriteFile faults (out_of (tmpl, path)) text d1 = (Ok (), d2)) in E2.
    rewrite E4 in E2. injection E2 as ->. apply IH in E as [Hk Hok]. split.
    + intros q Hq. apply not_elem_of_cons in Hq as [Hq1 Hq2]. rewrite Hk by done. by apply Hkeep.
    + intros -> Hnd f Hin. apply NoDup_cons in Hnd as [Hnin Hnd]. apply elem_of_cons in Hin as [->|Hin]; [|by apply Hok].
      exists text. split; [done|]. rewrite Hk by done.
      destruct (WriteFile_contents _ _ _ _ _ _ (out_of (tmpl, path)) E4) as [_ Hw].
      rewrite out_clean in Hw by done. by apply Hw.
  - injection E as <- <-. split; [|done]. intros q [Hq _]%not_elem_of_cons. by apply Hkeep.
Qed.

(** A step of a run keeps what its call keeps. *)
Lemma wrap_keeps {A} (P : disk → Prop) (f : string → string) (m : IO A) d r d' :
  (∀ r d', m d = (r, d') → P d') → wrap f m d = (r, d') → P d'.
Proof. intros Hm E%wrap_inv. destruct (m d) as [x y]. cbn in E. subst y. by apply (Hm x). Qed.

Lemma write_files_wf fs d r d' : wf d → write_files faults data dir fs d = (r, d') → wf d'.
Proof.
  revert d. induction fs as [|[tmpl path] fs IH]; intros d Hwf; cbn [write_files]; [by intros [= _ <-]|].
  unfold mbind, IO_bind, of_result. destruct (wrap _ (MkdirAll _ _) d) as [[[]|e] d1] eqn:E1;
    eapply (wrap_keeps wf) in E1; try (by intros; eapply MkdirAll_wf); [|by intros [= _ <-]].
  destruct (render tmpl data); [|by intros [= _ <-]].
  destruct (wrap _ (WriteFile _ _ _) d1) as [[[]|e] d2] eqn:E2;
    eapply (wrap_keeps wf) in E2; try (by intros; eapply WriteFile_wf); [|by intros [= _ <-]]. by apply IH.
Qed.

(** What the loop needs to run to its end: nothing where it makes folders, no folder
    where it writes. *)
Definition prefix_free (ls : list (list string)) : Prop :=
  ∀ l l' L, l ∈ ls → l' ∈ ls → l' = l ++ L → L = [].
Definition above (ls : list (list string)) (q : string) : Prop :=
  ∃ l L1 L2, l ∈ ls ∧ elems dir ++ l = L1 ++ L2 ∧ L2 ≠ [] ∧ q = path_of (rooted dir) L1.
Definition target (ls : list (list string)) (q : string) : Prop :=
  ∃ l, l ∈ ls ∧ q = path_of (rooted dir) (elems dir ++ l).
Definition writable (ls : list (list string)) (d : disk) : Prop :=
  (∀ q, above ls q → contents d !! q = None) ∧ (∀ q, target ls q → q ∉ folders d).

Lemma above_not_target ls q : Forall (Forall plain) ls → prefix_free ls → above ls q → ¬ target ls q.
Proof.
  rewrite Forall_forall. intros Hp Hfree (l & L1 & L2 & Hl & E & Hne & ->) (l' & Hl' & Eq).
  assert (Hc : clean_list (rooted dir) (elems dir ++ l)) by (apply clean_list_app; [apply elems_clean|by apply Hp]).
  apply path_of_inj in Eq as [_ ->]; [| |apply clean_list_app; [apply elems_clean|by apply Hp]].
  - rewrite <-app_assoc in E. apply app_inv_head in E. by apply (Hfree l' l L2) in E.
  - rewrite E in Hc. by apply clean_list_prefix in Hc.
Qed.

(** The folders made for a file are above it. *)
Lemma above_out ls l f q :
  dir ≠ "" → l ∈ ls → l ≠ [] → Forall plain l → f.2 = Join l "/" →
  Clean (path_Dir (out_of f)) = path_Dir (out_of f)
  ∧ (q ∈ ancestors (path_Dir (out_of f)) ++ [path_Dir (out_of f)] → above ls q).
Proof.
  intros Hd Hl Hne Hp E. rewrite (out_of_list f l) by done.
  assert (Hcl : clean_list (rooted dir) (elems dir ++ l)) by (apply clean_list_app; [apply elems_clean|done]).
  destruct l as [|x l0 _] using rev_ind; [done|]. rewrite app_assoc in Hcl |- *.
  rewrite path_Dir_of by done. pose proof (clean_list_init _ _ _ Hcl) as Hcl0. split; [by apply Clean_path_of|].
  intros Hq. assert (Hpre : ∃ L1 L2, elems dir ++ l0 = L1 ++ L2 ∧ q = path_of (rooted dir) L1).
  { destruct (decide (elems dir ++ l0 = [])) as [E0|E0].
    - rewrite E0, ancestors_top in Hq. apply list_elem_of_singleton in Hq as ->. exists [], []. by rewrite E0.
    - rewrite ancestors_ups in Hq by done. apply ups_prefix in Hq as (L1 & L2 & E1 & _ & ->). by exists L1, L2. }
  destruct Hpre as (L1 & L2 & E1 & ->). exists (l0 ++ [x]), L1, (L2 ++ [x]).
  split_and!; [done| |by destruct L2|done]. by rewrite app_assoc, E1, <-app_assoc.
Qed.

Lemma write_files_completes ls fs d :
  (∀ n, faults n = None) → dir ≠ "" → Forall (Forall plain) ls → prefix_free ls →
  Forall (λ f, ∃ l, l ∈ ls ∧ l ≠ [] ∧ f.2 = Join l "/" ∧ is_ok (render f.1 data) = true) fs →
  writable ls d → fst (write_files faults data dir fs d) = Ok ().
Proof.
  intros Hn Hd Hp Hfree Hfs. revert d. induction Hfs as [|[tmpl path] fs (l & Hl & Hne & E & Hr) Hfs IH]; intros d Hw; [done|].
  cbn [write_files]. cbn [fst] in Hr. pose proof Hp as Hpl. rewrite Forall_forall in Hpl. specialize (Hpl l Hl).
  change (path_join [dir; path]) with (out_of (tmpl, path)). set (f := (tmpl, path)) in *. set (D := path_Dir (out_of f)).
  assert (Habove : ∀ q, q ∈ ancestors D ++ [D] → above ls q) by (intros q; by apply (above_out ls l f q)).
  assert (HcD : Clean D = D) by by apply (above_out ls l f D).
  assert (Hout : out_of f = path_of (rooted dir) (elems dir ++ l)) by by apply out_of_list.
  assert (Hcl : clean_list (rooted dir) (elems dir ++ l)) by (apply clean_list_app; [apply elems_clean|done]).
  assert (Htarget : target ls (out_of f)) by by exists l.
  destruct Hw as [Ha Ht].
  assert (E1 : MkdirAll faults D d = (Ok (), make_folders (ancestors D ++ [D]) d)).
  { unfold MkdirAll. cbv zeta. rewrite Hn, HcD.
    destruct (existsb _ _) eqn:Ex; [|done]. apply existsb_exists in Ex as (q & Hq & Hc).
    apply bool_decide_eq_true in Hc. rewrite Ha in Hc; [by destruct Hc|]. by apply Habove, list_elem_of_In. }
  set (d1 := make_folders (ancestors D ++ [D]) d) in *.
  destruct (render tmpl data) as [text|] eqn:Er; [|done].
  assert (E2 : WriteFile faults (out_of f) text d1 = (Ok (), write_at (out_of f) text d1)).
  { unfold WriteFile. cbv zeta. rewrite Hn, Hout, (Clean_path_of _ _ Hcl), <-Hout.
    rewrite (not_true_is_false (is_folder d1 (out_of f))).
    - assert (HD : is_folder d1 D = true) by (apply made_folder, elem_of_app; right; left). unfold D in HD. by rewrite HD.
    - rewrite Hout. intros Hf. apply is_folder_below in Hf; [|done|by destruct (elems dir), l].
      rewrite <-Hout in Hf. apply made_in in Hf as [Hf|Hf%Habove]; [by apply Ht in Hf|by eapply above_not_target]. }
  unfold mbind, IO_bind, wrap, of_result. rewrite E1, E2. apply IH. split.
  - intros q Hq. cbn. rewrite lookup_insert_ne; [by apply Ha|]. intros <-. by eapply above_not_target.
  - intros q Hq. intros [Hf|Hf%Habove]%(made_in (ancestors D ++ [D]) d); [by apply Ht in Hf|].
    by eapply above_not_target.
Qed.

Lemma MkdirAll_folders p d r d' q :
  MkdirAll faults p d = (r, d') → q ∈ folders d' → q ∈ folders d ∨ q ∈ ancestors (Clean p) ++ [Clean p].
Proof.
  unfold MkdirAll. cbv zeta. destruct (existsb _ _); [intros [= _ <-]; by left|].
  destruct (faults _); intros [= _ <-] [Hq|Hq]%made_in; auto. right. by apply subseteq_take in Hq.
Qed.
Lemma WriteFile_folders p text d r d' : WriteFile faults p text d = (r, d') → folders d' = folders d.
Proof.
  unfold WriteFile. cbv zeta. destruct (is_folder d _); [by intros [= _ <-]|]. destruct (is_folder d _); [|by intros [= _ <-]].
  destruct (faults _) as [f|]; [destruct (leaves f)|]; by intros [= _ <-].
Qed.

(** The loop makes no folder that is not above one of its files. *)
Lemma write_files_folders ls fs d r d' q :
  dir ≠ "" → Forall (λ f, ∃ l, l ∈ ls ∧ l ≠ [] ∧ Forall plain l ∧ f.2 = Join l "/") fs →
  write_files faults data dir fs d = (r, d') → q ∈ folders d' → q ∈ folders d ∨ above ls q.
Proof.
  intros Hd Hfs. revert d. induction Hfs as [|[tmpl path] fs (l & Hl & Hne & Hp & E) Hfs IH]; intros d; cbn [write_files].
  { intros [= _ <-]. by left. }
  change (path_join [dir; path]) with (out_of (tmpl, path)). unfold mbind, IO_bind, wrap, of_result.
  destruct (above_out ls l (tmpl, path) q Hd Hl Hne Hp E) as [HcD Hab].
  destruct (MkdirAll _ _ d) as [[[]|e] d1] eqn:E1.
  2: { intros [= _ <-] Hq. eapply MkdirAll_folders in E1 as [?|Hin]; [by left|right|done]. rewrite HcD in Hin. by apply Hab. }
  assert (H1 : q ∈ folders d1 → q ∈ folders d ∨ above ls q).
  { intros Hq. eapply MkdirAll_folders in E1 as [?|Hin]; [by left|right|done]. rewrite HcD in Hin. by apply Hab. }
  destruct (render tmpl data) as [text|e]; [|by intros [= _ <-]].
  destruct (WriteFile _ _ _ d1) as [[[]|e] d2] eqn:E2; apply WriteFile_folders in E2; [|intros [= _ <-]; by rewrite E2].
  intros Er Hq. destruct (IH _ Er Hq) as [Hq2|]; [rewrite E2 in Hq2; by apply H1|by right].
Qed.
End files.

(** ** Looking before writing *)

Section new.
Context `{Unicode} `{RuneClasses}.

Lemma same_kind d d' p : same d d' → kind_of d' p = kind_of d p ∧ entries d' p = entries d p.
Proof. intros [Ec Ef]. unfold kind_of, entries, is_folder. by rewrite Ec, Ef. Qed.

Definition is_there (d : disk) (p : string) : Prop := match kind_of d p with Folder | File _ => True | _ => False end.

Definition parent_there (d : disk) (dir : string) : Prop :=
  path_Dir dir = dir ∨ is_there d (Clean (path_Dir dir)).

Lemma Stat_spec faults p d r d' :
  Stat faults p d = (r, d') →
  same d d' ∧ (r = Ok true → is_there d (Clean p)) ∧ (r = Ok false → kind_of d (Clean p) = Missing)
  ∧ ((∀ n, faults n = None) →
     (is_there d (Clean p) → r = Ok true) ∧ (kind_of d (Clean p) = Missing → r = Ok false)).
Proof.
  unfold Stat, is_there. intros (Hs & Hr & Hn)%look_same. split; [done|].
  split_and!.
  - intros ->. specialize (Hr true eq_refl). by destruct (kind_of _ _).
  - intros ->. specialize (Hr false eq_refl). by destruct (kind_of _ _).
  - intros Hf. rewrite Hn by done. by destruct (kind_of _ _).
Qed.

Lemma ReadDir_spec faults p d r d' :
  ReadDir faults p d = (r, d') →
  same d d' ∧ (∀ o, r = Ok o → match o with Some (_ :: _) => True | _ => vacant d (Clean p) end)
  ∧ ((∀ n, faults n = None) → vacant d (Clean p) → r = Ok None ∨ r = Ok (Some [])).
Proof.
  unfold ReadDir, vacant. intros (Hs & Hr & Hn)%look_same. split; [done|]. split.
  - intros o ->. specialize (Hr o eq_refl). destruct (kind_of _ _); simplify_eq; auto.
    destruct (entries d (Clean p)); auto.
  - intros Hf Hv. rewrite Hn by done. destruct Hv as [->|[-> ->]]; auto.
Qed.

Lemma same_trans d1 d2 d3 : same d1 d2 → same d2 d3 → same d1 d3.
Proof. intros [? ?] [? ?]. split; congruence. Qed.

Lemma emptyOrAbsent_spec faults dir d r d' :
  emptyOrAbsent faults dir d = (r, d') →
  same d d' ∧ (r = Ok () → parent_there d dir ∧ vacant d (Clean dir))
  ∧ ((∀ n, faults n = None) → parent_there d dir → vacant d (Clean dir) → r = Ok ()).
Proof.
  unfold emptyOrAbsent. unfold mbind at 1, IO_bind at 1.
  set (first := if String.eqb (path_Dir dir) dir then _ else _). destruct (first d) as [r1 d1] eqn:E1.
  assert (H1 : same d d1 ∧ (r1 = Ok () → parent_there d dir)
    ∧ ((∀ n, faults n = None) → parent_there d dir → r1 = Ok ())).
  { unfold first, parent_there in *. destruct (String.eqb_spec (path_Dir dir) dir) as [Heq|Hne].
    - injection E1 as <- <-. split_and!; auto; done.
    - unfold mbind, IO_bind, attempt in E1. destruct (Stat faults (path_Dir dir) d) as [x d2] eqn:E2.
      apply Stat_spec in E2 as (Hs & Ht & Hf & Hn).
      destruct x as [[]|e]; injection E1 as <- <-; (split_and!; [done|auto|]); try done.
      + intros Hfa [|Hp]; [done|]. apply Hn in Hfa as [Hy _]. by specialize (Hy Hp).
      + intros Hfa [|Hp]; [done|]. apply Hn in Hfa as [Hy _]. by specialize (Hy Hp). }
  destruct H1 as (Hs1 & Hp1 & Hc1). destruct r1 as [[]|e].
  2: { intros [= <- <-]. split_and!; [done|done|]. intros Hf Hp. by specialize (Hc1 Hf Hp). }
  unfold mbind, IO_bind, wrap. destruct (ReadDir faults dir d1) as [x d2] eqn:E2.
  apply ReadDir_spec in E2 as (Hs2 & Hv2 & Hc2). pose proof (same_kind _ _ (Clean dir) Hs1) as [Ek Ee].
  unfold vacant in Hv2, Hc2. rewrite Ek, Ee in Hv2, Hc2. pose proof (same_trans _ _ _ Hs1 Hs2) as Hs.
  destruct x as [o|e].
  - specialize (Hv2 o eq_refl). destruct o as [[|first' rest]|]; intros [= <- <-]; (split_and!; [done|auto|auto]); try done.
    intros Hf _ Hv. by destruct (Hc2 Hf Hv).
  - intros [= <- <-]. split_and!; [done|done|]. intros Hf _ Hv. by destruct (Hc2 Hf Hv).
Qed.

(** ** The project *)

Definition project_lists : list (list string) :=
  [["go.mod"]; ["main.go"]; ["home"; "home.go"]; ["home"; "home_test.go"]; ["justfile"]; [".gitignore"]; ["README.md"]].

Lemma project_files_lists : map snd files = map (λ l, Join l "/") project_lists.
Proof. vm_compute. reflexivity. Qed.

Lemma project_lists_plain : Forall (Forall plain) project_lists.
Proof. repeat constructor; done. Qed.

Lemma project_prefix_free : prefix_free project_lists.
Proof.
  intros l l' L Hl Hl' ->. unfold project_lists in *.
  repeat (apply elem_of_cons in Hl as [->|Hl]; [|]); try (by apply elem_of_nil in Hl);
    repeat (apply elem_of_cons in Hl' as [Hl'|Hl']; [destruct L as [|? []]; simplify_eq/=; try done|]);
    by apply elem_of_nil in Hl'.
Qed.

(** The keys the templates use. *)
Definition keys_of (ps : list part) : list string :=
  omap (λ p, match p with Field k => Some k | Text _ => None end) ps.
Lemma execute_total data ps : Forall (λ k, is_Some (data !! k)) (keys_of ps) → is_ok (execute data ps) = true.
Proof.
  induction ps as [|[s|k] ps IH]; cbn; [done| |].
  - intros Hk. specialize (IH Hk). by destruct (execute data ps).
  - intros [[v ->] Hk]%Forall_cons. specialize (IH Hk). by destruct (execute data ps).
Qed.

Definition module_keys : list string := ["Package"; "Module"; "App"; "Route"; "Title"].
Lemma module_keys_there pkg m app route k : k ∈ module_keys → is_Some (moduleData pkg m app route !! k).
Proof.
  intros Hk. unfold moduleData. apply elem_of_dom. rewrite dom_list_to_map_L. cbn. unfold module_keys in Hk. set_solver.
Qed.

Lemma templates_known :
  forallb (λ f, match template_named (fst f) with
                | Some ps => forallb (λ k, existsb (String.eqb k) ("Name" :: "Go" :: module_keys)) (keys_of ps)
                | None => false
                end) files = true.
Proof. vm_compute. reflexivity. Qed.

Lemma project_renders p f : f ∈ files → is_ok (render f.1 (project_data p)) = true.
Proof.
  intros Hf. pose proof templates_known as Ht. rewrite forallb_forall in Ht.
  specialize (Ht f (proj1 (list_elem_of_In _ _) Hf)). unfold render.
  destruct (template_named f.1) as [ps|]; [|done].
  pose proof (execute_total (project_data p) ps) as He.
  destruct (execute (project_data p) ps); [done|]. apply He. apply Forall_forall. intros k Hk.
  rewrite forallb_forall in Ht. specialize (Ht k (proj1 (list_elem_of_In _ _) Hk)).
  apply existsb_exists in Ht as (k' & Hk' & ->%String.eqb_eq). apply list_elem_of_In in Hk'.
  unfold project_data. apply elem_of_cons in Hk' as [->|Hk']; [|apply elem_of_cons in Hk' as [->|Hk']].
  - rewrite lookup_insert_ne, lookup_insert_eq by done. by eexists.
  - rewrite lookup_insert_eq. by eexists.
  - rewrite !lookup_insert_ne by (intros <-; unfold module_keys in Hk'; set_solver). by apply module_keys_there.
Qed.
Definition project_paths (p : Project) : list string := map (out_of (project_dir p)) files.

(** What makes the code refuse before it writes. *)
Definition refused (p : Project) (d : disk) : Prop :=
  is_Some (validName (Name p)) ∨ is_Some (validModule (project_module p))
  ∨ ¬ parent_there d (project_dir p) ∨ ¬ vacant d (Clean (project_dir p)).

(** A request that can be met: the directory, as a clean path, is free and its parent
    a folder. *)
Definition acceptable (p : Project) (d : disk) : Prop :=
  validName (Name p) = None ∧ validModule (project_module p) = None
  ∧ Clean (project_dir p) = project_dir p
  ∧ is_folder d (path_Dir (project_dir p)) = true ∧ vacant d (project_dir p).

Lemma validName_dir p : validName (Name p) = None → project_dir p ≠ "".
Proof.
  unfold project_dir. destruct (String.eqb_spec (Dir p) ""); [|done]. intros Hv E. by rewrite E in Hv.
Qed.

Lemma files_good : Forall good_file files.
Proof.
  pose proof project_files_lists as E. pose proof project_lists_plain as Hp. rewrite Forall_forall in Hp.
  apply Forall_forall. intros f Hf.
  assert (Hin : f.2 ∈ map snd files) by (apply list_elem_of_fmap; by exists f).
  rewrite E in Hin. apply list_elem_of_fmap in Hin as (l & Hl & Hin). exists l. split_and!; [|by apply Hp|done].
  intros ->. unfold project_lists in Hin. set_solver.
Qed.

Lemma paths_list p : project_dir p ≠ "" →
  project_paths p = map (λ l, path_of (rooted (project_dir p)) (elems (project_dir p) ++ l)) project_lists.
Proof.
  intros Hd. transitivity (map (λ s, path_join [project_dir p; s]) (map snd files)); [by rewrite map_map|].
  rewrite project_files_lists, map_map. apply map_ext_in. intros l Hl. apply path_join_below; [done| |].
  - intros ->. apply list_elem_of_In in Hl. unfold project_lists in Hl. set_solver.
  - pose proof project_lists_plain as Hp. rewrite Forall_forall in Hp. by apply Hp, list_elem_of_In.
Qed.

Lemma project_paths_distinct p : project_dir p ≠ "" → NoDup (project_paths p).
Proof.
  intros Hd. rewrite paths_list by done. apply (NoDup_fmap_2_strong (λ l, path_of _ (_ ++ l))).
  - intros l l' Hl Hl' E. pose proof project_lists_plain as Hp. rewrite Forall_forall in Hp.
    apply path_of_inj in E as [_ E]; [by apply app_inv_head in E|..]; apply clean_list_app; auto using elems_clean.
  - apply (bool_decide_unpack (NoDup project_lists)). vm_compute. done.
Qed.

(** What is written was not there. *)
Lemma project_paths_new p d q :
  wf d → project_dir p ≠ "" → vacant d (Clean (project_dir p)) → q ∈ project_paths p → ¬ at_path d q.
Proof.
  intros Hwf Hd Hv Hq. rewrite paths_list in Hq by done. apply list_elem_of_fmap in Hq as (l & -> & Hl).
  pose proof project_lists_plain as Hp. rewrite Forall_forall in Hp.
  apply vacant_below; [done|apply clean_list_app; auto using elems_clean| |by rewrite <-Clean_elems].
  intros ->. unfold project_lists in Hl. set_solver.
Qed.

Lemma acceptable_writable p d : wf d → acceptable p d → writable (project_dir p) project_lists d.
Proof.
  intros Hwf (Hn & _ & Hc & Hpar & Hv). pose proof (validName_dir p Hn) as Hd.
  set (dir := project_dir p) in *. pose proof (elems_clean dir) as HE. rewrite Clean_elems in Hc.
  pose proof project_lists_plain as Hp. rewrite Forall_forall in Hp.
  assert (Hv' : vacant d (path_of (rooted dir) (elems dir))) by by rewrite Hc.
  split.
  - intros q (l & L1 & L2 & Hl & E & Hne & ->).
    assert (Hcl : clean_list (rooted dir) (elems dir ++ l)) by (apply clean_list_app; auto).
    rewrite E in Hcl. pose proof (clean_list_prefix _ _ _ Hcl) as Hc1.
    destruct (app_eq_inv _ _ _ _ E) as [(k & Ek & El)|(k & Ek & El)].
    + destruct k as [|x k _] using rev_ind.
      * rewrite app_nil_r in Ek. rewrite <-Ek. destruct Hv' as [Hm|[Hf _]].
        -- unfold kind_of in Hm. repeat case_match; congruence.
        -- apply folder_no_file; [done|done|]. unfold kind_of in Hf. repeat case_match; congruence.
      * assert (Hpd : is_folder d (path_of (rooted dir) (L1 ++ k)) = true).
        { rewrite <-(path_Dir_of _ _ x) by (rewrite <-app_assoc, <-Ek; done).
          by rewrite <-app_assoc, <-Ek, Hc. }
        apply folder_no_file; [done|done|]. eapply above_folder; [done| |exact Hpd].
        apply clean_list_init with x. by rewrite <-app_assoc, <-Ek.
    + destruct (decide (k = [])) as [->|Hk].
      * rewrite app_nil_r in Ek. rewrite Ek. destruct Hv' as [Hm|[Hf _]].
        -- unfold kind_of in Hm. repeat case_match; congruence.
        -- apply folder_no_file; [done|done|]. unfold kind_of in Hf. repeat case_match; congruence.
      * rewrite Ek in Hc1 |- *. pose proof (vacant_below d _ _ k Hwf Hc1 Hk Hv') as Hno.
        destruct (contents d !! _) eqn:Ec; [|done]. destruct Hno. right. by eexists.
  - intros q (l & Hl & ->) Hin. eapply (vacant_below d _ _ l Hwf); [|..]; [|intros ->|exact Hv'|by left].
    + apply clean_list_app; auto.
    + unfold project_lists in Hl. set_solver.
Qed.

Lemma GenerateProject_wf faults p d r d' : wf d → GenerateProject faults p d = (r, d') → wf d'.
Proof.
  intros Hwf. unfold GenerateProject, mbind, IO_bind, checked.
  destruct (validName (Name p)); [by intros [= _ <-]|]. destruct (validModule _); [by intros [= _ <-]|].
  destruct (emptyOrAbsent _ _ d) as [[[]|e] d1] eqn:E1; apply emptyOrAbsent_spec in E1 as (Hs & _ & _);
    [|intros [= _ <-]; by eapply same_wf]. apply write_files_wf. by eapply same_wf.
Qed.

Lemma GenerateProject_run faults p d r d' :
  wf d → GenerateProject faults p d = (r, d') →
  (∀ q, q ∉ project_paths p → contents d' !! q = contents d !! q)
  ∧ (∀ q, q ∈ project_paths p → contents d' !! q = contents d !! q ∨ contents d !! q = None)
  ∧ (refused p d → (∃ e, r = Err e) ∧ same d d')
  ∧ (r = Ok () → ∀ f, f ∈ files →
       ∃ text, render f.1 (project_data p) = Ok text ∧ contents d' !! out_of (project_dir p) f = Some text)
  ∧ ((∀ n, faults n = None) → acceptable p d → r = Ok ()).
Proof.
  intros Hwf. unfold GenerateProject, mbind, IO_bind, checked.
  destruct (validName (Name p)) as [e|] eqn:Hn.
  { intros [= <- <-]. split_and!; auto; [by split; [by eexists|split]|done|]. intros _ (Hn' & _). by rewrite Hn' in Hn. }
  pose proof (validName_dir p Hn) as Hd.
  destruct (validModule (project_module p)) as [e|] eqn:Hm.
  { intros [= <- <-]. split_and!; auto; [by split; [by eexists|split]|done|]. intros _ (_ & Hm' & _). by rewrite Hm' in Hm. }
  destruct (emptyOrAbsent faults (project_dir p) d) as [[[]|e] d1] eqn:E1;
    apply emptyOrAbsent_spec in E1 as (Hs & Hok & Hc).
  2: { intros [= <- <-]. destruct Hs as [Ec Ef]. split_and!; [by intros q _; rewrite Ec|by left; rewrite Ec| |done|].
       - intros _. split; [by eexists|done].
       - intros Hf (_ & _ & Hcl & Hpar & Hv). discriminate Hc; [done| |by rewrite Hcl].
         right. unfold is_there, kind_of. by rewrite Clean_Dir, Hpar. }
  destruct (Hok eq_refl) as [Hpt Hv]. intros E. destruct Hs as [Ec Ef].
  destruct (write_files_keeps _ _ _ _ _ _ _ Hd files_good E) as [Hk Hw]. rewrite Ec in Hk.
  split_and!; [exact Hk| | | |].
  - intros q Hin. right. destruct (contents d !! q) eqn:Eq; [|done].
    destruct (project_paths_new p d q Hwf Hd Hv Hin). right. by eexists.
  - intros [[? E']|[[? E']|[Hno|Hno]]]; [congruence|congruence|done|done].
  - intros -> f Hf. apply Hw; [done|by apply project_paths_distinct|done].
  - intros Hf Hacc. pose proof (acceptable_writable p d Hwf Hacc) as Hwr.
    assert (Hwr1 : writable (project_dir p) project_lists d1).
    { destruct Hwr as [Ha Ht]. split; [by rewrite Ec|by rewrite Ef]. }
    pose proof (write_files_completes faults (project_data p) (project_dir p) project_lists files d1 Hf Hd
                  project_lists_plain project_prefix_free) as Hfin.
    rewrite E in Hfin. cbn in Hfin. apply Hfin; [|done]. apply Forall_forall. intros f Hin.
    assert (Hin2 : f.2 ∈ map snd files) by (apply list_elem_of_fmap; by exists f).
    rewrite project_files_lists in Hin2. apply list_elem_of_fmap in Hin2 as (l & El & Hl). exists l. split_and!; [done| |done|].
    + intros ->. unfold project_lists in Hl. set_solver.
    + by apply project_renders.
Qed.
Lemma GenerateProject_keeps faults p d r d' q data :
  wf d → GenerateProject faults p d = (r, d') → contents d !! q = Some data → contents d' !! q = Some data.
Proof.
  intros Hwf E Hq. destruct (GenerateProject_run faults p d r d' Hwf E) as (Hk & Hn & _).
  destruct (decide (q ∈ project_paths p)) as [Hin|Hin]; [destruct (Hn q Hin) as [->|]; congruence|by rewrite Hk].
Qed.

(** C33: whatever call fails, [fabrin new] changes nothing but the project's own files,
    none of which was there before; a refused request changes nothing at all; a run
    that succeeds leaves every file with its template's text; and an acceptable
    request succeeds when no call fails. *)
Theorem new_project faults p d r d' :
  wf d → GenerateProject faults p d = (r, d') →
  (∀ q, q ∉ project_paths p → contents d' !! q = contents d !! q)
  ∧ (∀ q data, contents d !! q = Some data → contents d' !! q = Some data)
  ∧ (refused p d → (∃ e, r = Err e) ∧ same d d')
  ∧ (r = Ok () → ∀ f, f ∈ files →
       ∃ text, render f.1 (project_data p) = Ok text ∧ contents d' !! out_of (project_dir p) f = Some text)
  ∧ ((∀ n, faults n = None) → acceptable p d → r = Ok ()).
Proof.
  intros Hwf E. destruct (GenerateProject_run faults p d r d' Hwf E) as (Hk & _ & Hr & Hok & Hc).
  split_and!; [done|by intros; eapply GenerateProject_keeps|done..].
Qed.
End new.
