(* ===== verification/ScaffoldModule.v ===== *)
(** * Adding a module: internal/scaffold/module.go

    Go's parser locates the [fabrin.New] call and the imports of main.go; the edit
    is two insertions.  Positions are offsets; a line number is a count of newlines
    ([//line] comments are not modelled). *)

From S2P Require Import Prelude GoStrings Token Paths ScaffoldTemplates Scaffold.

(** ** The syntax tree, as far as the code looks at it *)

Inductive node :=
| CallExpr (Fun : node) (Args : list node) (Lparen Rparen : nat)
| SelectorExpr (X : node) (Sel : string)
| Ident (name : string)
| Other (children : list node).

(** [ast.ImportSpec]: the path as it is written, quotes included. *)
Record ImportSpec := { Path : string; Pos : nat; End_ : nat }.

(** A declaration with the token [import] and its closing parenthesis, which is
    [NoPos], at offset 0, when there is none; or any other declaration. *)
Inductive decl :=
| ImportDecl (specs : list ImportSpec) (rparen : nat)
| OtherDecl (n : node).

Definition file : Type := list decl.

(** [ast.Inspect]: the node, then its children when the answer is true. *)
Fixpoint Inspect {S : Type} (f : node → S → bool * S) (n : node) (s : S) : S :=
  let all := fix all (ns : list node) (s : S) : S :=
    match ns with
    | [] => s
    | n :: ns' => all ns' (Inspect f n s)
    end in
  let '(go, s) := f n s in
  if negb go then s else
  match n with
  | CallExpr g args _ _ => all args (Inspect f g s)
  | SelectorExpr x sel => snd (f (Ident sel) (Inspect f x s))
  | Ident _ => s
  | Other ns => all ns s
  end.

Definition decl_node (d : decl) : node :=
  match d with ImportDecl _ _ => Other [] | OtherDecl n => n end.
Definition file_node (f : file) : node := Other (map decl_node f).

(** A call: its parentheses. *)
Record call := mkCall { Lparen : nat; Rparen : nat }.

Definition is_new_call (n : node) : option call :=
  match n with
  | CallExpr (SelectorExpr (Ident pkg) sel) _ l r =>
      if negb (String.eqb sel "New") then None
      else if String.eqb pkg "fabrin" then Some (mkCall l r) else None
  | _ => None
  end.

Definition visit (n : node) (found : option call) : bool * option call :=
  match found with
  | Some _ => (false, found)
  | None =>
      match is_new_call n with
      | Some c => (false, Some c)
      | None => (true, None)
      end
  end.

Definition findNewCall (f : file) : option call := Inspect visit (file_node f) None.

(** ** Positions *)

(** [strings.LastIndexByte] and [strings.IndexByte]. *)
Fixpoint LastIndexByte (s : string) (c : ascii) : option nat :=
  match s with
  | "" => None
  | String d s' =>
      match LastIndexByte s' c with
      | Some i => Some (S i)
      | None => if Ascii.eqb d c then Some 0 else None
      end
  end.
Fixpoint IndexByte (s : string) (c : ascii) : option nat :=
  match s with
  | "" => None
  | String d s' => if Ascii.eqb d c then Some 0 else S <$> IndexByte s' c
  end.

Definition nl : ascii := "010".

Definition startOfLine (src : string) (offset : nat) : nat :=
  match LastIndexByte (take_bytes offset src) nl with Some i => i + 1 | None => 0 end.
Definition endOfLine (src : string) (offset : nat) : nat :=
  match IndexByte (drop_bytes offset src) nl with Some i => offset + i | None => String.length src end.
Definition lineIndent (src : string) (offset : nat) : string :=
  let line := drop_bytes (startOfLine src offset) src in
  take_bytes (String.length line
              - String.length (trim_left (λ c, contains_byte c (" " +:+ tab)) line)) line.

(** [fset.Position(...).Line]. *)
Fixpoint count_byte (c : ascii) (s : string) : nat :=
  match s with
  | "" => 0
  | String d s' => (if Ascii.eqb d c then 1 else 0) + count_byte c s'
  end.
Definition line_of (src : string) (offset : nat) : nat := 1 + count_byte nl (take_bytes offset src).

(** ** The edits *)

Record edit := mkEdit { at_ : nat; text : string }.

Definition splice (src : string) (e : edit) : string :=
  take_bytes (at_ e) src +:+ text e +:+ drop_bytes (at_ e) src.

Definition insertArgument (src : string) (c : call) (name : string) : edit :=
  if (line_of src (Lparen c) =? line_of src (Rparen c))%nat
  then mkEdit (Rparen c) (", " +:+ name +:+ ".New()")
  else
    let indent := lineIndent src (Rparen c) +:+ tab in
    mkEdit (startOfLine src (Rparen c)) (indent +:+ name +:+ ".New()," +:+ newline).

(** The siblings around the import path: the last of those before it in string
    order, and the first of the others. *)
Fixpoint neighbours (prefix importPath : string) (before after : option ImportSpec) (specs : list ImportSpec)
    : option ImportSpec * option ImportSpec :=
  match specs with
  | [] => (before, after)
  | imp :: specs' =>
      let path := Trim (Path imp) dq in
      if negb (HasPrefix path prefix) then neighbours prefix importPath before after specs'
      else if str_ltb path importPath then neighbours prefix importPath (Some imp) after specs'
      else neighbours prefix importPath before (match after with None => Some imp | _ => after end) specs'
  end.

Fixpoint import_decl (f : file) : option (list ImportSpec * nat) :=
  match f with
  | [] => None
  | ImportDecl specs rparen :: _ => Some (specs, rparen)
  | OtherDecl _ :: f' => import_decl f'
  end.

Definition insertImport (src : string) (f : file) (importPath : string) : result string edit :=
  match import_decl f with
  | None => Err "fabrin: no import block in the generated main.go"
  | Some (specs, rparen) =>
      let prefix := fst (split_last importPath) in
      match neighbours prefix importPath None None specs with
      | (Some before, _) =>
          Ok (mkEdit (endOfLine src (End_ before))
                (newline +:+ lineIndent src (End_ before) +:+ dq +:+ importPath +:+ dq))
      | (None, Some after) =>
          Ok (mkEdit (startOfLine src (Pos after))
                (lineIndent src (Pos after) +:+ dq +:+ importPath +:+ dq +:+ newline))
      | (None, None) =>
          Ok (mkEdit (startOfLine src rparen) (newline +:+ tab +:+ dq +:+ importPath +:+ dq +:+ newline))
      end
  end.

(** ** Names *)

Definition goKeywords : list string :=
  ["break"; "case"; "chan"; "const"; "continue";
   "default"; "defer"; "else"; "fallthrough"; "for";
   "func"; "go"; "goto"; "if"; "import";
   "interface"; "map"; "package"; "range"; "return";
   "select"; "struct"; "switch"; "type"; "var"].

Section module.
Context `{Unicode} `{RuneClasses}.

Definition badPackageName (name : string) : string :=
  "fabrin: module name " +:+ Quote name
  +:+ " is not a valid Go package name — letters, digits and underscore only, not starting with a digit".

(** The loop over the runes; [i > 0] holds from the second on. *)
Fixpoint check_runes (name : string) (first : bool) (rs : list (Z * nat)) : option string :=
  match rs with
  | [] => None
  | (r, _) :: rs' =>
      if IsLetter r || (r =? 95)%Z then check_runes name false rs'
      else if IsDigit r && negb first then check_runes name false rs'
      else Some (badPackageName name)
  end.

Definition validPackageName (name : string) : option string :=
  if String.eqb (TrimSpace name) "" then Some "fabrin: module name is empty — try `fabrin startapp billing`"
  else if existsb (String.eqb name) goKeywords then
    Some ("fabrin: " +:+ Quote name +:+ " is a Go keyword and cannot be a package name")
  else check_runes name true (runes name).

(** ** Generating *)

(** [Module]. *)
Record AppModule := mkModule { module_Name : string; module_Dir : string }.

(** [moduleFiles], with [Sprintf] applied. *)
Definition moduleFiles (name : string) : list (string * string) :=
  [("module.go.tmpl", name +:+ ".go"); ("module_test.go.tmpl", name +:+ "_test.go")].

Section generate.
Context (faults : nat → option fault).
(** [parser.ParseFile], for a file name and its text. *)
Context (ParseFile : string → string → result string file).

Definition not_a_project (path : string) : string :=
  "fabrin: " +:+ path +:+ " not found — run this inside a Fabrin project (it needs go.mod and a main.go wiring modules in newApp)".

(** [strings.CutPrefix]. *)
Definition CutPrefix (s prefix : string) : option string :=
  if HasPrefix s prefix then Some (drop_bytes (String.length prefix) s) else None.

(** The loop over the lines of go.mod, up to the first module line. *)
Fixpoint module_line (lines : list string) : string :=
  match lines with
  | [] => ""
  | line :: lines' =>
      match CutPrefix (TrimSpace line) "module " with
      | Some rest => TrimSpace rest
      | None => module_line lines'
      end
  end.

Definition projectModulePath (dir : string) : IO string :=
  let gomod := path_join [dir; "go.mod"] in
  raw ← wrap (λ _, not_a_project gomod) (ReadFile faults gomod);
  let modulePath := module_line (SplitByte nl raw) in
  if String.eqb modulePath "" then fail ("fabrin: no module line in " +:+ gomod)
  else
    let main := path_join [dir; "main.go"] in
    found ← wrap (λ _, not_a_project main) (Stat faults main);
    if found : bool then mret modulePath else fail (not_a_project main).

(** [wire] after main.go is read. *)
Definition wire_text (mainPath src modulePath name : string) : result string string :=
  match ParseFile mainPath src with
  | Err err => Err ("fabrin: " +:+ mainPath +:+ " does not parse, so it cannot be edited safely: " +:+ err)
  | Ok f =>
      match findNewCall f with
      | None => Err ("fabrin: no fabrin.New(...) call found in " +:+ mainPath +:+ " — wire " +:+ name +:+ ".New() in yourself")
      | Some c =>
          let importPath := modulePath +:+ "/" +:+ name in
          let argEdit := insertArgument src c name in
          impEdit ← insertImport src f importPath;
          let out := splice (splice src argEdit) impEdit in
          match ParseFile mainPath out with
          | Err err => Err ("fabrin: wiring " +:+ name +:+ " produced a " +:+ mainPath
                            +:+ " that does not parse — this is a bug, please report it: " +:+ err)
          | Ok edited =>
              match findNewCall edited with
              | None => Err ("fabrin: wiring " +:+ name +:+ " lost the fabrin.New call in " +:+ mainPath
                             +:+ " — this is a bug, please report it")
              | Some _ => Ok out
              end
          end
      end
  end.

Definition wire (mainPath modulePath name : string) : IO string :=
  src ← wrap (λ err, "fabrin: read " +:+ mainPath +:+ ": " +:+ err) (ReadFile faults mainPath);
  of_result (wire_text mainPath src modulePath name).

(** The loop of [writePackage]. *)
Fixpoint write_module_files (data : gmap string string) (pkgDir : string) (fs : list (string * string)) : IO () :=
  match fs with
  | [] => mret ()
  | (tmpl, path) :: fs' =>
      rendered ← of_result (render tmpl data);
      let out := path_join [pkgDir; path] in
      _ ← wrap (λ err, "fabrin: write " +:+ out +:+ ": " +:+ err) (WriteFile faults out rendered);
      write_module_files data pkgDir fs'
  end.

Definition writePackage (m : AppModule) (pkgDir modulePath : string) : IO () :=
  _ ← wrap (λ err, "fabrin: create " +:+ pkgDir +:+ ": " +:+ err) (MkdirAll faults pkgDir);
  write_module_files (moduleData (module_Name m) modulePath (path_Base modulePath) ("/" +:+ module_Name m))
    pkgDir (moduleFiles (module_Name m)).

Definition GenerateModule (m : AppModule) : IO () :=
  _ ← checked (validPackageName (module_Name m));
  let dir := if String.eqb (module_Dir m) "" then "." else module_Dir m in
  let mainPath := path_join [dir; "main.go"] in
  modulePath ← projectModulePath dir;
  let pkgDir := path_join [dir; module_Name m] in
  found ← attempt (Stat faults pkgDir);
  _ ← match found with
      | Ok true => fail ("fabrin: " +:+ pkgDir +:+ " already exists — module " +:+ Quote (module_Name m)
                         +:+ " is already part of this project")
      | Err err => fail ("fabrin: " +:+ pkgDir +:+ ": " +:+ err)
      | Ok false => mret ()
      end;
  wired ← wire mainPath modulePath (module_Name m);
  _ ← writePackage m pkgDir modulePath;
  wrap (λ err, "fabrin: write " +:+ mainPath +:+ ": " +:+ err) (WriteFile faults mainPath wired).

End generate.
End module.
