(* ===== verification/ScaffoldModuleSpec.v ===== *)
(** * Adding a module: what the edit keeps

    Package names are Go identifiers; the edit of main.go is two insertions that
    leave every byte in place; the import goes where the order of its siblings wants
    it; and [fabrin startapp] touches nothing before the edit is known to parse. *)

From S2P Require Import Prelude GoStrings Token Paths ScaffoldTemplates Scaffold ScaffoldSpec ScaffoldModule.

(** ** Names *)

Section names.
Context `{Unicode} `{RuneClasses}.

Lemma check_runes_name name first rs :
  check_runes name first rs = None ↔
  match rs with
  | [] => True
  | (r, _) :: rs' => name_rune first r = true ∧ forallb (λ '(r, _), name_rune false r) rs' = true
  end.
Proof.
  revert first. induction rs as [|[r w] rs IH]; intros first; [done|]. cbn [check_runes]. unfold name_rune at 1.
  assert (Hrest : check_runes name false rs = None ↔ forallb (λ '(r, _), name_rune false r) rs = true).
  { rewrite IH. destruct rs as [|[r' w'] rs]; [done|]. cbn [forallb]. by rewrite andb_true_iff. }
  destruct (IsLetter r || (r =? 95)%Z); cbn [orb]; [rewrite Hrest; naive_solver|].
  destruct (IsDigit r && negb first); [rewrite Hrest; naive_solver|]. naive_solver.
Qed.

(** A module name is accepted exactly when it is an identifier of Go and not a
    keyword, as [go/token] decides it, and not blank. *)
Theorem package_names_identifiers name :
  validPackageName name = None ↔ blank name = false ∧ IsIdentifier name = true.
Proof.
  unfold validPackageName, blank, IsIdentifier, IsKeyword, name_runes.
  change goKeywords with keywords. destruct (String.eqb_spec (TrimSpace name) ""); [naive_solver|].
  destruct (existsb (String.eqb name) keywords); [rewrite andb_false_r; naive_solver|].
  assert (Hne : String.eqb name "" = false) by (apply String.eqb_neq; by intros ->).
  rewrite Hne, check_runes_name. cbn [negb andb]. destruct (runes name) as [|[r w] rs]; [naive_solver|].
  rewrite andb_true_iff. naive_solver.
Qed.
End names.

(** ** Insertions *)

Lemma take_bytes_app a b n : n ≤ String.length a → take_bytes n (a +:+ b) = take_bytes n a.
Proof. revert n. induction a as [|c a IH]; intros [|n] Hn; cbn in *; [done|lia|done|]. rewrite IH by lia. done. Qed.
Lemma drop_bytes_within a b n : n ≤ String.length a → drop_bytes n (a +:+ b) = drop_bytes n a +:+ b.
Proof. revert n. induction a as [|c a IH]; intros [|n] Hn; cbn in *; [done|lia|done|]. rewrite IH by lia. done. Qed.
Lemma take_bytes_take n m s : n ≤ m → take_bytes n (take_bytes m s) = take_bytes n s.
Proof. revert n m. induction s as [|c s IH]; intros [|n] [|m] Hn; cbn; try lia; try done. rewrite IH by lia. done. Qed.

(** Two insertions at ordered places, the later one first: every byte stays, and the
    texts land where they were meant to. *)
Lemma splice_splice src i s j t :
  i ≤ j → j ≤ String.length src →
  splice (splice src (mkEdit j t)) (mkEdit i s)
  = take_bytes i src +:+ (s +:+ (drop_bytes i (take_bytes j src) +:+ (t +:+ drop_bytes j src))).
Proof.
  intros Hij Hj. unfold splice. cbn [at_ text].
  assert (Hl : i ≤ String.length (take_bytes j src)) by (rewrite length_take_bytes; lia).
  rewrite take_bytes_app by done. rewrite take_bytes_take by lia. rewrite drop_bytes_within by done. done.
Qed.

Lemma LastIndexByte_spec s c i :
  LastIndexByte s c = Some i →
  i < String.length s ∧ ∃ b, drop_bytes i s = String c b ∧ no_byte c b = true.
Proof.
  revert i. induction s as [|d s IH]; intros i; [done|]. cbn [LastIndexByte].
  destruct (LastIndexByte s c) as [j|] eqn:E.
  - intros [= <-]. destruct (IH j eq_refl) as (Hj & b & Hb). split; [cbn; lia|]. by exists b.
  - destruct (Ascii.eqb_spec d c) as [->|]; [|done]. intros [= <-]. split; [cbn; lia|]. exists s. split; [done|].
    clear IH. induction s as [|x s IH]; [done|]. cbn in E. unfold no_byte in *. cbn [string_forall].
    destruct (LastIndexByte s c); [done|]. destruct (Ascii.eqb x c); [done|]. by rewrite IH.
Qed.

Lemma startOfLine_le src n : startOfLine src n ≤ n.
Proof.
  unfold startOfLine. destruct (LastIndexByte _ _) as [i|] eqn:E; [|lia].
  apply LastIndexByte_spec in E as [Hi _]. rewrite length_take_bytes in Hi. lia.
Qed.

Lemma count_app c a b : count_byte c (a +:+ b) = count_byte c a + count_byte c b.
Proof. induction a as [|d a IH]; [done|]. cbn. rewrite IH. lia. Qed.
Lemma count_none c s : no_byte c s = true → count_byte c s = 0.
Proof.
  unfold no_byte. induction s as [|d s IH]; [done|]. cbn [string_forall count_byte].
  intros [Hd Hs]%andb_true_iff. apply negb_true_iff in Hd. by rewrite Hd, IH.
Qed.
Lemma take_split n m s : n ≤ m → take_bytes m s = take_bytes n s +:+ drop_bytes n (take_bytes m s).
Proof. intros Hn. rewrite <-(take_bytes_take n m s) by done. by rewrite take_drop_bytes. Qed.

(** Places on different lines have the start of the later line between them. *)
Lemma line_between src l r : l ≤ r → line_of src l ≠ line_of src r → l < startOfLine src r.
Proof.
  intros Hlr Hne. destruct (Nat.lt_ge_cases l (startOfLine src r)) as [|Hge]; [done|]. destruct Hne.
  unfold line_of. f_equal. rewrite (take_split l r src) by done. rewrite count_app.
  rewrite (count_none _ (drop_bytes l (take_bytes r src))); [lia|].
  unfold startOfLine in Hge. destruct (LastIndexByte (take_bytes r src) nl) as [i|] eqn:E.
  - apply LastIndexByte_spec in E as (_ & b & Hb & Hn).
    assert (Hd : ∃ k, drop_bytes l (take_bytes r src) = drop_bytes k b).
    { clear -Hb Hge. exists (l - (i + 1)). revert i l Hge Hb. generalize (take_bytes r src) as s.
      induction s as [|c s IH]; intros [|i] [|l] Hge Hb; cbn in *; try lia; try done.
      - injection Hb as -> ->. by rewrite Nat.sub_0_r.
      - apply (IH i l); [lia|done]. }
    destruct Hd as [k ->]. by apply string_forall_drop.
  - clear -E. apply string_forall_drop. revert E. generalize (take_bytes r src) as s. unfold no_byte.
    induction s as [|c s IH]; [done|]. cbn. destruct (LastIndexByte s nl); [done|].
    destruct (Ascii.eqb c nl); [done|]. intros _. by rewrite IH.
Qed.

(** ** Imports *)

Definition path_of_spec (s : ImportSpec) : string := Trim (Path s) dq.
Definition siblings (prefix : string) (specs : list ImportSpec) : list ImportSpec :=
  List.filter (λ s, HasPrefix (path_of_spec s) prefix) specs.
Definition str_lt (a b : string) : Prop := str_ltb a b = true.
Definition paths (l : list ImportSpec) : list string := map path_of_spec l.

Definition last_of (o : option ImportSpec) (l : list ImportSpec) : option ImportSpec :=
  match last l with Some s => Some s | None => o end.
Definition first_of (o : option ImportSpec) (l : list ImportSpec) : option ImportSpec :=
  match o with Some s => Some s | None => head l end.

(** The loop finds the last sibling before the path and the first of the others. *)
Lemma neighbours_spec prefix path specs before after :
  neighbours prefix path before after specs
  = (last_of before (List.filter (λ s, str_ltb (path_of_spec s) path) (siblings prefix specs)),
     first_of after (List.filter (λ s, negb (str_ltb (path_of_spec s) path)) (siblings prefix specs))).
Proof.
  revert before after. induction specs as [|s specs IH]; intros before after; [by destruct after|].
  cbn [neighbours]. fold (path_of_spec s). unfold siblings in *. cbn [List.filter].
  destruct (HasPrefix (path_of_spec s) prefix); cbn [negb List.filter]; [|apply IH].
  destruct (str_ltb (path_of_spec s) path); cbn [negb]; rewrite IH; f_equal.
  - unfold last_of. rewrite last_cons. by destruct (last _).
  - by destruct after.
Qed.

Lemma neighbours_in prefix path specs b a :
  neighbours prefix path None None specs = (b, a) →
  (∀ s, b = Some s → s ∈ specs) ∧ (∀ s, a = Some s → s ∈ specs).
Proof.
  rewrite neighbours_spec. intros [= <- <-]. unfold last_of, first_of, siblings.
  split; intros s E; apply list_elem_of_In.
  - destruct (last _) eqn:El; [|done]. injection E as ->. apply last_Some_elem_of, list_elem_of_In in El.
    by do 2 apply filter_In in El as [El _].
  - apply head_Some_elem_of, list_elem_of_In in E. by do 2 apply filter_In in E as [E _].
Qed.

(** Splitting a sorted list at a path. *)
Lemma split_at_path (path : string) l :
  StronglySorted str_lt (paths l) → path ∉ paths l →
  let lo := List.filter (λ s, str_ltb (path_of_spec s) path) l in
  let hi := List.filter (λ s, negb (str_ltb (path_of_spec s) path)) l in
  l = lo ++ hi ∧ StronglySorted str_lt (paths lo ++ path :: paths hi).
Proof.
  intros Hs Hn. cbn zeta. induction l as [|s l IH]; [split; [done|by repeat constructor]|].
  cbn [paths map] in Hs, Hn. apply StronglySorted_inv in Hs as [Hs Hall].
  apply not_elem_of_cons in Hn as [Hne Hn]. specialize (IH Hs Hn). cbn [List.filter].
  rewrite Forall_forall in Hall. destruct (str_ltb (path_of_spec s) path) eqn:E; cbn [negb].
  - destruct IH as [IH1 IH2]. split; [cbn; by rewrite <-IH1|]. cbn [paths map app]. constructor; [exact IH2|].
    apply Forall_app. split; [|constructor; [exact E|]].
    + apply Forall_forall. intros p Hp. apply Hall. rewrite IH1. unfold paths. rewrite map_app. apply elem_of_app. by left.
    + apply Forall_forall. intros p Hp. apply Hall. rewrite IH1. unfold paths. rewrite map_app. apply elem_of_app. by right.
  - assert (Hpl : str_lt path (path_of_spec s)).
    { unfold str_lt. destruct (str_ltb path (path_of_spec s)) eqn:E'; [done|]. by destruct (Hne (str_ltb_total _ _ E' E)). }
    assert (Hlo : List.filter (λ s, str_ltb (path_of_spec s) path) l = []).
    { destruct (List.filter _ l) as [|x lo] eqn:El; [done|]. exfalso.
      assert (Hx : x ∈ l ∧ str_ltb (path_of_spec x) path = true).
      { assert (Hx : In x (List.filter (λ s, str_ltb (path_of_spec s) path) l)) by (rewrite El; by left).
        apply filter_In in Hx as [Hx ?]. split; [by apply list_elem_of_In|done]. }
      destruct Hx as [Hx Hlt]. pose proof (Hall (path_of_spec x) (proj2 (list_elem_of_fmap _ _ _) (ex_intro _ x (conj eq_refl Hx)))) as Hsx.
      rewrite (str_ltb_trans _ _ _ Hsx Hlt) in E. done. }
    rewrite Hlo in IH |- *. cbn [app paths map] in *. destruct IH as [IH1 IH2]. split; [by rewrite <-IH1|].
    rewrite <-IH1. apply StronglySorted_inv in IH2 as [IH2 IH3]. constructor; [constructor; [done|]|].
    + by apply Forall_forall.
    + constructor; [done|]. rewrite <-IH1 in IH3. exact IH3.
Qed.

(** The import goes where the order wants it.  When the project's own imports are in
    strict order and the package is not among them, the edit falls after the line of
    the last that sorts before it, or before the line of the first that sorts after
    it when there is none before, and the imports with the new one are in order; with
    no import of the project the edit opens a group of its own. *)
Theorem import_in_order src f specs rparen importPath :
  import_decl f = Some (specs, rparen) →
  let sibs := siblings (fst (split_last importPath)) specs in
  StronglySorted str_lt (paths sibs) → importPath ∉ paths sibs →
  ∃ lo hi e, sibs = lo ++ hi ∧ StronglySorted str_lt (paths lo ++ importPath :: paths hi)
    ∧ insertImport src f importPath = Ok e
    ∧ match last lo, head hi with
      | Some before, _ => at_ e = endOfLine src (End_ before)
          ∧ text e = newline +:+ lineIndent src (End_ before) +:+ dq +:+ importPath +:+ dq
      | None, Some after => at_ e = startOfLine src (Pos after)
          ∧ text e = lineIndent src (Pos after) +:+ dq +:+ importPath +:+ dq +:+ newline
      | None, None => at_ e = startOfLine src rparen
          ∧ text e = newline +:+ tab +:+ dq +:+ importPath +:+ dq +:+ newline
      end.
Proof.
  intros Hd sibs Hs Hn. destruct (split_at_path importPath sibs Hs Hn) as [E1 E2].
  do 2 eexists. enough (∃ e, _) as [e He] by (exists e; split; [exact E1|]; split; [exact E2|exact He]).
  unfold insertImport. rewrite Hd. cbv zeta. rewrite neighbours_spec. fold sibs. unfold last_of, first_of.
  destruct (last _) as [b|]; [by eexists|]. destruct (head _) as [a|]; by eexists.
Qed.

(** ** The edit *)

(** The parser's positions on a file whose imports end on lines before the call. *)
Record located (src : string) (c : call) (specs : list ImportSpec) (rparen : nat) : Prop := {
  located_call : Lparen c < Rparen c;
  located_inside : Rparen c ≤ String.length src;
  located_import : ∀ s, s ∈ specs → Pos s ≤ Lparen c ∧ endOfLine src (End_ s) ≤ Lparen c;
  located_group : rparen ≤ Lparen c;
}.

Lemma argument_place src c name specs rparen :
  located src c specs rparen → Lparen c ≤ at_ (insertArgument src c name) ≤ String.length src.
Proof.
  intros [Hc Hi _ _]. unfold insertArgument. destruct (Nat.eqb_spec (line_of src (Lparen c)) (line_of src (Rparen c))) as [E|E].
  - cbn. lia.
  - cbn. pose proof (line_between src (Lparen c) (Rparen c) ltac:(lia) E). pose proof (startOfLine_le src (Rparen c)). lia.
Qed.

Lemma import_place src f c specs rparen importPath e :
  located src c specs rparen → import_decl f = Some (specs, rparen) →
  insertImport src f importPath = Ok e → at_ e ≤ Lparen c.
Proof.
  intros [_ _ Hs Hr] Hd. unfold insertImport. rewrite Hd. cbv zeta.
  destruct (neighbours _ _ None None specs) as [b a] eqn:En. apply neighbours_in in En as [Hb Ha].
  destruct b as [b|]; [intros [= <-]; by apply Hs, Hb|].
  destruct a as [a|]; intros [= <-]; cbn.
  - etrans; [apply startOfLine_le|]. by apply Hs, Ha.
  - etrans; [apply startOfLine_le|done].
Qed.

(** C34: the edit of main.go is two insertions, the import before the argument: taking
    them out gives back the file, byte for byte, and the result parses and still
    holds the call. *)
Theorem wire_keeps_source ParseFile mainPath src modulePath name f c specs rparen out :
  ParseFile mainPath src = Ok f → findNewCall f = Some c → import_decl f = Some (specs, rparen) →
  located src c specs rparen →
  wire_text ParseFile mainPath src modulePath name = Ok out →
  ∃ before between after imp arg,
    src = before +:+ (between +:+ after) ∧ out = before +:+ (imp +:+ (between +:+ (arg +:+ after)))
    ∧ insertImport src f (modulePath +:+ "/" +:+ name) = Ok (mkEdit (String.length before) imp)
    ∧ insertArgument src c name = mkEdit (String.length before + String.length between) arg
    ∧ ∃ edited c', ParseFile mainPath out = Ok edited ∧ findNewCall edited = Some c'.
Proof.
  intros Hp Hc Hd Hl. unfold wire_text. rewrite Hp, Hc.
  destruct (insertImport src f _) as [[i imp]|e] eqn:Ei; [|done].
  pose proof (import_place _ _ _ _ _ _ _ Hl Hd Ei) as Hi. cbn in Hi.
  pose proof (argument_place src c name _ _ Hl) as [Hj1 Hj2].
  destruct (insertArgument src c name) as [j arg]. cbn in Hj1, Hj2.
  cbn [mbind result_bind]. rewrite splice_splice by lia.
  set (out' := _ +:+ _). destruct (ParseFile mainPath out') as [edited|] eqn:Ee; [|done].
  destruct (findNewCall edited) as [c'|] eqn:Ec; [|done]. intros [= <-].
  exists (take_bytes i src), (drop_bytes i (take_bytes j src)), (drop_bytes j src), imp, arg.
  assert (Hlen : String.length (take_bytes i src) = i) by (rewrite length_take_bytes; lia).
  assert (Hlen2 : String.length (drop_bytes i (take_bytes j src)) = j - i)
    by (rewrite length_drop_bytes, length_take_bytes; lia).
  split_and!; [|done|by rewrite Hlen|by rewrite Hlen, Hlen2; f_equal; lia|by exists edited, c'].
  rewrite <-string_app_assoc, <-(take_split i j) by lia. by rewrite take_drop_bytes.
Qed.

(** ** Names as path elements *)

Definition high (c : ascii) : bool := (128 <=? byte c)%Z.

Lemma in_range_high lo hi c : (128 <= lo)%Z → in_range lo hi c = true → high c = true.
Proof. unfold in_range, high. intros Hlo [H1 _]%andb_true_iff. apply Z.leb_le in H1. apply Z.leb_le. lia. Qed.

Lemma decode_covers c s r w :
  decode_rune c s = (r, w) →
  ((byte c < 128)%Z → r = byte c ∧ w = 1) ∧ string_forall high (take_bytes (w - 1) s) = true.
Proof.
  unfold decode_rune. intros H. destruct (Z.ltb_spec (byte c) 128); [injection H as <- <-; split; [done|]; by destruct s|].
  split; [lia|]. revert H.
  assert (Hc : ∀ x, cont x = true → high x = true) by (intros x; by apply in_range_high).
  assert (Hr : ∀ (b : bool) lo hi x, (128 <= lo)%Z → in_range (if b then lo else 128%Z) hi x = true → high x = true).
  { intros b lo hi x Hlo. apply in_range_high. destruct b; lia. }
  destruct s as [|c1 s]; [by intros [= <- <-]|].
  destruct (in_range 194 223 c).
  { destruct (cont c1) eqn:E1; intros [= <- <-]; [|done]. cbn. rewrite Hc by done. by destruct s. }
  destruct s as [|c2 s]; [by intros [= <- <-]|].
  destruct (in_range 224 239 c).
  { destruct (in_range _ _ c1 && cont c2) eqn:E1; intros [= <- <-]; [|done].
    apply andb_true_iff in E1 as [E1 E2]. apply Hr in E1; [|lia]. cbn. rewrite E1, Hc by done. by destruct s. }
  destruct s as [|c3 s]; [by intros [= <- <-]|].
  destruct (in_range 240 244 c); [|by intros [= <- <-]].
  destruct (in_range _ _ c1 && cont c2 && cont c3) eqn:E1; intros [= <- <-]; [|done].
  rewrite !andb_true_iff in E1. destruct E1 as [[E1 E2] E3]. apply Hr in E1; [|lia]. cbn.
  rewrite E1, !Hc by done. by destruct s.
Qed.

Lemma runes_small skip s c :
  string_forall high (take_bytes skip s) = true → contains_byte c s = true → (byte c < 128)%Z →
  ∃ w, (byte c, w) ∈ runes_skip skip s.
Proof.
  intros Hs Hc Hb. revert skip Hs. induction s as [|d s IH]; intros skip Hs; [done|].
  cbn [contains_byte] in Hc. destruct skip as [|skip].
  - cbn [runes_skip]. destruct (decode_rune d s) as [r w] eqn:E. apply decode_covers in E as [E1 E2].
    destruct (Ascii.eqb_spec d c) as [->|]; [destruct (E1 Hb) as [-> _]; exists w; by left|].
    destruct (IH Hc (w - 1) E2) as [w' Hw]. exists w'. by right.
  - cbn [take_bytes string_forall runes_skip] in *. apply andb_true_iff in Hs as [Hd Hs].
    destruct (Ascii.eqb_spec d c) as [->|]; [unfold high in Hd; apply Z.leb_le in Hd; lia|]. by apply IH.
Qed.

Section package.
Context `{Unicode} `{RuneClasses}.

Lemma name_rune_small first r : (r < 128)%Z → name_rune first r = true →
  ((48 <= r <= 57) ∨ (65 <= r <= 90) ∨ (97 <= r <= 122) ∨ r = 95)%Z.
Proof.
  intros Hr. unfold name_rune, IsLetter, IsDigit. rewrite (proj2 (Z.ltb_lt _ _) Hr).
  rewrite !orb_true_iff, !andb_true_iff, !Z.leb_le, Z.eqb_eq. intuition lia.
Qed.

Lemma name_bytes s c : name_runes s = true → contains_byte c s = true → (byte c < 128)%Z →
  ((48 <= byte c <= 57) ∨ (65 <= byte c <= 90) ∨ (97 <= byte c <= 122) ∨ byte c = 95)%Z.
Proof.
  intros Hn Hc Hb. destruct (runes_small 0 s c eq_refl Hc Hb) as [w Hw].
  unfold name_runes, runes in *. destruct (runes_skip 0 s) as [|[r w'] rs]; [by apply elem_of_nil in Hw|].
  apply andb_true_iff in Hn as [H1 H2]. apply elem_of_cons in Hw as [[= <- <-]|Hw]; [by eapply name_rune_small|].
  rewrite forallb_forall in H2. specialize (H2 _ (proj1 (list_elem_of_In _ _) Hw)).
  exact (name_rune_small _ _ Hb H2).
Qed.

Lemma not_contains_no_byte c s : contains_byte c s = false → no_byte c s = true.
Proof.
  unfold no_byte. induction s as [|d s IH]; [done|].
  cbn [contains_byte string_forall]. intros [-> Hs]%orb_false_iff. by apply IH.
Qed.

Lemma package_name_plain name : validPackageName name = None → plain name ∧ no_byte "/" name = true.
Proof.
  intros Hv. apply package_names_identifiers in Hv as [Hb Hi]. unfold IsIdentifier in Hi.
  rewrite !andb_true_iff in Hi. destruct Hi as [[Hne _] Hn].
  assert (Hs : no_byte "/" name = true).
  { apply not_contains_no_byte. destruct (contains_byte "/" name) eqn:E; [|done].
    apply (name_bytes name) in E; [|done|done]. change (byte "/") with 47%Z in E. lia. }
  assert (Hd : ∀ d, d = "." ∨ d = ".." → name ≠ d).
  { intros d Hd ->. assert (E : contains_byte "." d = true) by (by destruct Hd as [-> | ->]).
    apply (name_bytes d) in E; [|done|done]. change (byte ".") with 46%Z in E. lia. }
  split; [|done]. split_and!; [by apply negb_true_iff, String.eqb_neq in Hne|apply Hd; auto|apply Hd; auto|done].
Qed.
End package.

(** ** The whole command *)

Section startapp.
Context `{Unicode} `{RuneClasses}.
Context (faults : nat → option fault) (ParseFile : string → string → result string file).

Lemma ReadFile_spec p d r d' :
  ReadFile faults p d = (r, d') → same d d' ∧ ∀ data, r = Ok data → contents d !! Clean p = Some data.
Proof.
  unfold ReadFile. intros (Hs & Hr & _)%look_same. split; [done|]. intros data ->.
  specialize (Hr data eq_refl). unfold kind_of in Hr. repeat case_match; simplify_eq. done.
Qed.

Lemma same_refl d : same d d.
Proof. done. Qed.

Lemma projectModulePath_same dir d r d' : projectModulePath faults dir d = (r, d') → same d d'.
Proof.
  unfold projectModulePath, mbind, IO_bind.
  destruct (wrap _ (ReadFile _ _) d) as [r1 d1] eqn:E1. pose proof (wrap_inv _ _ _ _ _ E1) as E1'.
  destruct (ReadFile _ _ d) as [x y] eqn:E2. cbn in E1'. subst y. apply ReadFile_spec in E2 as [Hs1 _].
  destruct r1 as [raw|e]; [|by intros [= _ <-]]. destruct (String.eqb _ ""); [by intros [= _ <-]|].
  destruct (wrap _ (Stat _ _) d1) as [r3 d3] eqn:E3. pose proof (wrap_inv _ _ _ _ _ E3) as E3'.
  destruct (Stat _ _ d1) as [x' y] eqn:E4. cbn in E3'. subst y. apply Stat_spec in E4 as [Hs2 _].
  pose proof (same_trans _ _ _ Hs1 Hs2). destruct r3 as [[]|e]; by intros [= _ <-].
Qed.

Lemma wire_spec mainPath modulePath name d r d' :
  wire faults ParseFile mainPath modulePath name d = (r, d') →
  same d d' ∧ ∀ out, r = Ok out →
    ∃ src, contents d !! Clean mainPath = Some src ∧ wire_text ParseFile mainPath src modulePath name = Ok out.
Proof.
  unfold wire, mbind, IO_bind. destruct (wrap _ (ReadFile _ _) d) as [r1 d1] eqn:E1.
  pose proof (wrap_inv _ _ _ _ _ E1) as E1'. destruct (ReadFile _ _ d) as [x y] eqn:E2. cbn in E1'. subst y.
  pose proof E2 as E2'. apply ReadFile_spec in E2 as [Hs1 Hr]. destruct r1 as [src|e]; [|by intros [= <- <-]].
  apply wrap_ok in E1. rewrite E2' in E1. injection E1 as ->.
  unfold of_result. intros [= <- <-]. split; [done|]. intros out Ho. exists src. split; [by apply Hr|done].
Qed.

Lemma write_module_files_keeps data pkgDir fs d r d' :
  pkgDir ≠ "" → Forall good_file fs → write_module_files faults data pkgDir fs d = (r, d') →
  (∀ q, q ∉ map (out_of pkgDir) fs → contents d' !! q = contents d !! q)
  ∧ (r = Ok () → NoDup (map (out_of pkgDir) fs) → ∀ f, f ∈ fs →
       ∃ text, render f.1 data = Ok text ∧ contents d' !! out_of pkgDir f = Some text).
Proof.
  intros Hd Hg. revert d. induction Hg as [|f fs Hf Hg IH]; intros d E.
  { cbn in E. injection E as <- <-. split; [done|]. intros _ _ f Hf. by apply elem_of_nil in Hf. }
  destruct f as [tmpl path]. cbn [write_module_files] in E. unfold mbind, IO_bind, of_result in E.
  destruct (render tmpl data) as [text|e] eqn:Er; [|injection E as <- <-; by split].
  destruct (wrap _ (WriteFile _ _ _) d) as [w d2] eqn:E2. pose proof (wrap_inv _ _ _ _ _ E2) as E3.
  destruct (WriteFile _ _ _ d) as [w' y] eqn:E4. cbn in E3. subst y.
  change (WriteFile faults (out_of pkgDir (tmpl, path)) text d = (w', d2)) in E4.
  destruct (WriteFile_contents _ _ _ _ _ _ (out_of pkgDir (tmpl, path)) E4) as [_ Hw].
  assert (Hkeep : ∀ q, q ≠ out_of pkgDir (tmpl, path) → contents d2 !! q = contents d !! q).
  { intros q Hq. eapply WriteFile_contents; [exact E4|]. by rewrite out_clean. }
  rewrite out_clean in Hw by done. destruct w as [[]|e].
  - apply wrap_ok in E2. change (WriteFile faults (out_of pkgDir (tmpl, path)) text d = (Ok (), d2)) in E2.
    rewrite E4 in E2. injection E2 as ->. apply IH in E as [Hk Hok]. split.
    + intros q [Hq1 Hq2]%not_elem_of_cons. rewrite Hk by done. by apply Hkeep.
    + intros -> [Hnin Hnd]%NoDup_cons f Hin. apply elem_of_cons in Hin as [->|Hin]; [|by apply Hok].
      exists text. split; [done|]. rewrite Hk by done. by apply Hw.
  - injection E as <- <-. split; [|done]. intros q [Hq _]%not_elem_of_cons. by apply Hkeep.
Qed.

Definition module_dir (m : AppModule) : string := if String.eqb (module_Dir m) "" then "." else module_Dir m.
Definition main_path (m : AppModule) : string := path_join [module_dir m; "main.go"].
Definition package_dir (m : AppModule) : string := path_join [module_dir m; module_Name m].
Definition package_paths (m : AppModule) : list string := map (out_of (package_dir m)) (moduleFiles (module_Name m)).

Lemma module_dir_nonempty m : module_dir m ≠ "".
Proof. unfold module_dir. by destruct (String.eqb_spec (module_Dir m) ""). Qed.

Lemma suffixed_plain name suffix :
  plain name → no_byte "/" suffix = true → (2 < String.length suffix) → plain (name +:+ suffix).
Proof.
  intros (H1 & _ & _ & Hn) Hs Hl.
  assert (Hlen : 3 < String.length (name +:+ suffix)) by (rewrite string_length_app; destruct name; [done|cbn; lia]).
  split_and!; try (intros E; rewrite E in Hlen; cbn in Hlen; lia).
  unfold no_byte in *. clear -Hn Hs. induction name as [|c s IH]; [done|]. cbn [string_forall String.append] in *.
  apply andb_true_iff in Hn as [-> Hn]. by apply IH.
Qed.

Lemma module_files_good name : plain name → Forall good_file (moduleFiles name).
Proof.
  intros Hp. repeat constructor.
  - exists [name +:+ ".go"]. split_and!; [done| |done]. constructor; [|done]. apply suffixed_plain; [done|done|cbn; lia].
  - exists [name +:+ "_test.go"]. split_and!; [done| |done]. constructor; [|done]. apply suffixed_plain; [done|done|cbn; lia].
Qed.

Lemma package_layout m : plain (module_Name m) →
  let r := rooted (module_dir m) in let E := elems (module_dir m) in
  main_path m = path_of r (E ++ ["main.go"]) ∧ package_dir m = path_of r (E ++ [module_Name m])
  ∧ package_paths m = [path_of r (E ++ [module_Name m; module_Name m +:+ ".go"]);
                       path_of r (E ++ [module_Name m; module_Name m +:+ "_test.go"])].
Proof.
  intros Hp r E. pose proof (module_dir_nonempty m) as Hd.
  assert (Hm : main_path m = path_of r (E ++ ["main.go"])) by (apply (path_join_below _ ["main.go"]); [done|done|all_plain]).
  assert (Hpk : package_dir m = path_of r (E ++ [module_Name m])) by (apply (path_join_below _ [module_Name m]); [done|done|all_plain]).
  split; [done|]. split; [done|].
  assert (Hcl : clean_list r (E ++ [module_Name m])) by (apply clean_list_app; [apply elems_clean|all_plain]).
  destruct (path_of_split _ _ Hcl) as [Hr HE]. rewrite <-Hpk in Hr, HE.
  assert (Hne : package_dir m ≠ "").
  { intros E0. rewrite E0 in HE. cbn in HE. by destruct E. }
  unfold package_paths, moduleFiles. cbn [map]. unfold out_of. cbn [snd].
  assert (Hone : ∀ x, plain x → path_join [package_dir m; x] = path_of r (E ++ [module_Name m; x])).
  { intros x Hx. change [module_Name m; x] with ([module_Name m] ++ [x]). rewrite app_assoc, <-HE, <-Hr.
    apply (path_join_below _ [x]); [done|done|all_plain]. }
  rewrite !Hone; [done|apply suffixed_plain; [done|done|cbn; lia]..].
Qed.

(** What a run may leave: main.go and the package's files are all that changes, no
    other file that was there is lost, and unless the run refused and changed nothing
    the edit of main.go had been computed; a run that succeeds leaves all of it. *)
Definition untouched (m : AppModule) (d d' : disk) : Prop :=
  (∀ q, q ≠ main_path m → q ∉ package_paths m → contents d' !! q = contents d !! q)
  ∧ (∀ q data, q ≠ main_path m → contents d !! q = Some data → contents d' !! q = Some data).
Definition completed (m : AppModule) (modulePath out : string) (d' : disk) : Prop :=
  contents d' !! main_path m = Some out
  ∧ ∀ f, f ∈ moduleFiles (module_Name m) → ∃ text,
      render f.1 (moduleData (module_Name m) modulePath (path_Base modulePath) ("/" +:+ module_Name m)) = Ok text
      ∧ contents d' !! out_of (package_dir m) f = Some text.
Definition outcome (m : AppModule) (d : disk) (r : result string ()) (d' : disk) : Prop :=
  untouched m d d'
  ∧ (same d d' ∧ (∃ e, r = Err e)
     ∨ ∃ modulePath src out, contents d !! main_path m = Some src
         ∧ wire_text ParseFile (main_path m) src modulePath (module_Name m) = Ok out
         ∧ (r = Ok () → completed m modulePath out d')).

Lemma outcome_refused m d e d1 r d' : same d d1 → (Err e, d1) = (r, d') → outcome m d r d'.
Proof.
  intros [Ec Ef] [= <- <-]. split; [by split; rewrite Ec|]. left. split; [by split|by eexists].
Qed.

Lemma module_paths_clean m : plain (module_Name m) →
  Clean (main_path m) = main_path m ∧ Clean (package_dir m) = package_dir m ∧ package_dir m ≠ "".
Proof.
  intros Hp. destruct (package_layout m Hp) as (-> & Epk & _). pose proof (elems_clean (module_dir m)) as HE.
  assert (Hcl : clean_list (rooted (module_dir m)) (elems (module_dir m) ++ [module_Name m]))
    by (apply clean_list_app; [done|all_plain]).
  split; [apply Clean_path_of, clean_list_app; [done|all_plain]|].
  rewrite Epk. split; [by apply Clean_path_of|]. intros E0.
  destruct (path_of_split _ _ Hcl) as [_ HE']. rewrite E0 in HE'. cbn in HE'. by destruct (elems (module_dir m)).
Qed.

Lemma package_file_elements m q : plain (module_Name m) → q ∈ package_paths m →
  ∃ x, plain x ∧ q = path_of (rooted (module_dir m)) (elems (module_dir m) ++ [module_Name m; x]).
Proof.
  intros Hp Hq. destruct (package_layout m Hp) as (_ & _ & Epp). rewrite Epp in Hq.
  apply elem_of_cons in Hq as [->|Hq%list_elem_of_singleton]; [|subst q].
  - exists (module_Name m +:+ ".go"). split; [apply suffixed_plain; [done|done|cbn; lia]|done].
  - exists (module_Name m +:+ "_test.go"). split; [apply suffixed_plain; [done|done|cbn; lia]|done].
Qed.

Lemma package_paths_new m d q :
  wf d → plain (module_Name m) → vacant d (package_dir m) → q ∈ package_paths m → ¬ at_path d q.
Proof.
  intros Hwf Hp Hv (x & Hx & ->)%package_file_elements; [|done].
  destruct (package_layout m Hp) as (_ & Epk & _). pose proof (elems_clean (module_dir m)) as HE.
  change [module_Name m; x] with ([module_Name m] ++ [x]). rewrite app_assoc.
  apply vacant_below; [done| |done|by rewrite <-Epk]. rewrite <-app_assoc. apply clean_list_app; [done|all_plain].
Qed.

Lemma package_paths_distinct m : plain (module_Name m) → NoDup (package_paths m).
Proof.
  intros Hp. destruct (package_layout m Hp) as (_ & _ & ->). pose proof (elems_clean (module_dir m)) as HE.
  assert (Hg : plain (module_Name m +:+ ".go")) by (apply suffixed_plain; [done|done|cbn; lia]).
  assert (Ht : plain (module_Name m +:+ "_test.go")) by (apply suffixed_plain; [done|done|cbn; lia]).
  apply NoDup_cons. split; [|apply NoDup_singleton]. intros Eq%list_elem_of_singleton.
  apply path_of_inj in Eq as [_ Eq]; [|apply clean_list_app; [done|all_plain]..].
  apply app_inv_head in Eq. injection Eq as Eq. apply (f_equal String.length) in Eq.
  rewrite !string_length_app in Eq. cbn in Eq. lia.
Qed.

(** From the first write on. *)
Lemma writes_outcome m modulePath src out d d1 r d' :
  wf d → plain (module_Name m) → vacant d (package_dir m) → same d d1 →
  contents d !! main_path m = Some src →
  wire_text ParseFile (main_path m) src modulePath (module_Name m) = Ok out →
  (_ ← writePackage faults m (package_dir m) modulePath;
   wrap (λ err, "fabrin: write " +:+ main_path m +:+ ": " +:+ err) (WriteFile faults (main_path m) out)) d1 = (r, d') →
  outcome m d r d'.
Proof.
  intros Hwf Hp Hv [Ec _] Hsrc Hout. destruct (module_paths_clean m Hp) as (Hclm & _ & Hpne).
  assert (Hover : ∀ q data, contents d !! q = Some data → q ∉ package_paths m).
  { intros q x Hq Hin. apply (package_paths_new m d q Hwf Hp Hv Hin). right. by eexists. }
  unfold writePackage. set (data := moduleData _ _ _ _). unfold mbind, IO_bind.
  destruct (wrap _ (MkdirAll _ _) d1) as [[[]|e] d2] eqn:E2.
  2: { intros [= <- <-]. apply wrap_inv in E2. destruct (MkdirAll _ _ d1) as [x y] eqn:E3. cbn in E2. subst y.
       apply MkdirAll_contents in E3. rewrite Ec in E3. split; [by split; rewrite E3|]. right. by exists modulePath, src, out. }
  apply wrap_ok, MkdirAll_contents in E2. rewrite Ec in E2.
  destruct (write_module_files faults data (package_dir m) (moduleFiles (module_Name m)) d2) as [w3 d3] eqn:E3.
  destruct (write_module_files_keeps _ _ _ _ _ _ Hpne (module_files_good _ Hp) E3) as [Hk3 Hok3].
  fold (package_paths m) in Hk3, Hok3. rewrite E2 in Hk3. destruct w3 as [[]|e].
  2: { intros [= <- <-]. split; [split; [by intros q _ Hq; apply Hk3|]|right; by exists modulePath, src, out].
       intros q x _ Hq. rewrite Hk3; [done|by eapply Hover]. }
  destruct (wrap _ (WriteFile _ _ _) d3) as [w4 d4] eqn:E4. pose proof (wrap_inv _ _ _ _ _ E4) as E4'.
  destruct (WriteFile _ _ _ d3) as [x y] eqn:E5. cbn in E4'. subst y. intros [= <- <-].
  destruct (WriteFile_contents _ _ _ _ _ _ (main_path m) E5) as [_ Hw]. rewrite Hclm in Hw.
  assert (Hk4 : ∀ q, q ≠ main_path m → contents d4 !! q = contents d3 !! q).
  { intros q Hq. eapply WriteFile_contents; [exact E5|]. by rewrite Hclm. }
  split; [split|right; exists modulePath, src, out; split_and!; [done|done|]].
  - intros q Hq1 Hq2. rewrite Hk4 by done. by apply Hk3.
  - intros q z Hq1 Hq2. rewrite Hk4, Hk3 by (done || by eapply Hover). done.
  - intros ->. apply wrap_ok in E4. rewrite E5 in E4. injection E4 as ->. split; [by apply Hw|].
    intros f Hf. destruct (Hok3 eq_refl (package_paths_distinct m Hp) f Hf) as (text & Ht1 & Ht2).
    exists text. split; [done|]. rewrite Hk4; [done|]. intros E0.
    apply (Hover (main_path m) src Hsrc). rewrite <-E0. apply list_elem_of_fmap. by exists f.
Qed.

Lemma GenerateModule_outcome m d r d' :
  wf d → GenerateModule faults ParseFile m d = (r, d') → outcome m d r d'.
Proof.
  intros Hwf. unfold GenerateModule. cbv zeta. fold (module_dir m) (main_path m) (package_dir m).
  unfold mbind at 1, IO_bind at 1, checked.
  destruct (validPackageName (module_Name m)) as [e|] eqn:Hv; [by apply outcome_refused|].
  destruct (package_name_plain _ Hv) as [Hp _]. destruct (module_paths_clean m Hp) as (Hclm & Hclp & _).
  unfold mbind at 1, IO_bind at 1. destruct (projectModulePath faults (module_dir m) d) as [[mp|e] d1] eqn:E1;
    apply projectModulePath_same in E1; [|by apply outcome_refused].
  unfold mbind at 1, IO_bind at 1, attempt. destruct (Stat faults (package_dir m) d1) as [found d2] eqn:E2.
  apply Stat_spec in E2 as (Hs2 & _ & Hmiss & _). pose proof (same_trans _ _ _ E1 Hs2) as Hs.
  unfold mbind at 1, IO_bind at 1. destruct found as [[]|e]; [by apply outcome_refused| |by apply outcome_refused].
  specialize (Hmiss eq_refl). rewrite Hclp in Hmiss. destruct (same_kind _ _ (package_dir m) E1) as [Ek _].
  rewrite Ek in Hmiss. cbn [mret IO_ret].
  unfold mbind at 1, IO_bind at 1. destruct (wire faults ParseFile (main_path m) mp (module_Name m) d2) as [w d3] eqn:E3.
  apply wire_spec in E3 as [Hs3 Hw]. pose proof (same_trans _ _ _ Hs Hs3) as Hs'.
  destruct w as [out|e]; [|by apply outcome_refused]. destruct (Hw out eq_refl) as (src & Hsrc & Hout).
  rewrite Hclm, (proj1 Hs) in Hsrc. eapply writes_outcome; eauto. by left.
Qed.

(** C35: whatever call fails, [fabrin startapp] changes nothing but main.go and the two
    files of a package that was not there; nothing at all before main.go has been
    edited in memory and found to parse; and when it succeeds the package is there
    and main.go is the edited text. *)
Theorem startapp_all_or_nothing m d r d' :
  wf d → GenerateModule faults ParseFile m d = (r, d') →
  untouched m d d'
  ∧ (same d d' ∧ (∃ e, r = Err e)
     ∨ ∃ modulePath src out, contents d !! main_path m = Some src
         ∧ wire_text ParseFile (main_path m) src modulePath (module_Name m) = Ok out
         ∧ (r = Ok () → completed m modulePath out d')).
Proof. apply GenerateModule_outcome. Qed.

Lemma write_module_files_wf data pkgDir fs d r d' : wf d → write_module_files faults data pkgDir fs d = (r, d') → wf d'.
Proof.
  revert d. induction fs as [|[tmpl path] fs IH]; intros d Hwf; cbn [write_module_files]; [by intros [= _ <-]|].
  unfold mbind, IO_bind, of_result. destruct (render tmpl data); [|by intros [= _ <-]].
  destruct (wrap _ (WriteFile _ _ _) d) as [[[]|e] d2] eqn:E2;
    eapply (wrap_keeps wf) in E2; try (by intros; eapply WriteFile_wf); [|by intros [= _ <-]]. by apply IH.
Qed.

Lemma GenerateModule_wf m d r d' : wf d → GenerateModule faults ParseFile m d = (r, d') → wf d'.
Proof.
  intros Hwf. unfold GenerateModule. cbv zeta. unfold mbind, IO_bind, checked.
  destruct (validPackageName (module_Name m)); [by intros [= _ <-]|].
  destruct (projectModulePath _ _ d) as [[mp|e] d1] eqn:E1; apply projectModulePath_same, same_wf in E1;
    [|done|by intros [= _ <-]|done]. unfold attempt.
  destruct (Stat _ _ d1) as [found d2] eqn:E2. apply Stat_spec in E2 as (Hs2%same_wf & _); [|done].
  destruct found as [[]|e]; [by intros [= _ <-]| |by intros [= _ <-]]. cbn [mret IO_ret].
  destruct (wire _ _ _ _ _ d2) as [[out|e] d3] eqn:E3; apply wire_spec in E3 as (Hs3%same_wf & _);
    [|done|by intros [= _ <-]|done].
  unfold writePackage, mbind, IO_bind. destruct (wrap _ (MkdirAll _ _) d3) as [[[]|e] d4] eqn:E4;
    eapply (wrap_keeps wf) in E4; try (by intros; eapply MkdirAll_wf); [|by intros [= _ <-]].
  destruct (write_module_files _ _ _ _ d4) as [[[]|e] d5] eqn:E5; apply write_module_files_wf in E5;
    [|done|by intros [= _ <-]|done].
  intros E6. eapply (wrap_keeps wf) in E6; [done|]. intros. by eapply WriteFile_wf.
Qed.
End startapp.

(** Runs of the tool, one after another, each with its own failures. *)
Inductive request := NewProject (p : Project) | StartApp (m : AppModule).
Definition perform `{Unicode} `{RuneClasses} ParseFile (q : request) (faults : nat → option fault) : IO () :=
  match q with
  | NewProject p => GenerateProject faults p
  | StartApp m => GenerateModule faults ParseFile m
  end.
Fixpoint perform_all `{Unicode} `{RuneClasses} ParseFile (l : list (request * (nat → option fault))) (d : disk) : disk :=
  match l with
  | [] => d
  | (q, faults) :: l' => perform_all ParseFile l' (snd (perform ParseFile q faults d))
  end.

(** What a run of the tool may write over: main.go, and only by [startapp]. *)
Definition may_edit (q : request) (path : string) : Prop :=
  match q with NewProject _ => False | StartApp m => path = main_path m end.

(** Over any sequence of runs, with any failures, the disk keeps its invariant, and a
    file that was there at the start keeps its text unless it is the main.go of a
    project that a [startapp] was run in. *)
Theorem scaffold_keeps_files `{Unicode} `{RuneClasses} ParseFile l d :
  wf d → wf (perform_all ParseFile l d)
  ∧ ∀ q data, contents d !! q = Some data → (∀ x, x ∈ l → ¬ may_edit x.1 q) →
      contents (perform_all ParseFile l d) !! q = Some data.
Proof.
  revert d. induction l as [|[q faults] l IH]; intros d Hwf; [done|]. cbn [perform_all].
  destruct (perform ParseFile q faults d) as [r d1] eqn:E. cbn [snd].
  assert (Hstep : wf d1 ∧ ∀ path data, contents d !! path = Some data → ¬ may_edit q path → contents d1 !! path = Some data).
  { destruct q as [p|m]; cbn [perform may_edit] in *.
    - split; [by eapply GenerateProject_wf|]. intros path data Hp _. by eapply GenerateProject_keeps.
    - split; [by eapply GenerateModule_wf|]. intros path data Hp Hm.
      destruct (GenerateModule_outcome faults ParseFile m d r d1 Hwf E) as [[_ Hk] _]. by apply Hk. }
  destruct Hstep as [Hwf1 Hk]. destruct (IH d1 Hwf1) as [Hwf2 Hk2]. split; [done|].
  intros path data Hp Hno. apply Hk2.
  - apply Hk; [done|]. apply (Hno (q, faults)). by left.
  - intros x Hx. apply Hno. by right.
Qed.
