(* ===== verification/ScaffoldProject.v ===== *)
(** * From a new project to a wired module

    The main.go that [fabrin new] writes is one that [fabrin startapp] can edit: the
    module is imported in order and constructed as the last argument of
    [fabrin.New], and the project's module path is read back from its go.mod. *)

From S2P Require Import Prelude GoStrings Token Paths ScaffoldTemplates Scaffold ScaffoldSpec ScaffoldModule.
From S2P Require Import ScaffoldModuleSpec ConfigSpec.

(** ** Lines *)

Lemma no_byte_app c a b : no_byte c (a +:+ b) = no_byte c a && no_byte c b.
Proof. unfold no_byte. induction a as [|d a IH]; [done|]. cbn. rewrite IH. by rewrite andb_assoc. Qed.

Lemma LastIndexByte_last c a b : no_byte c b = true → LastIndexByte (a +:+ String c b) c = Some (String.length a).
Proof.
  intros Hb. assert (Hn : LastIndexByte b c = None).
  { unfold no_byte in Hb. induction b as [|d b IH]; [done|]. cbn [string_forall LastIndexByte] in *.
    apply andb_true_iff in Hb as [Hd Hb]. apply negb_true_iff in Hd. by rewrite (IH Hb), Hd. }
  induction a as [|d a IH]; cbn [String.append LastIndexByte].
  - by rewrite Hn, Ascii.eqb_refl.
  - by rewrite IH.
Qed.

Lemma IndexByte_first c a b : no_byte c a = true → IndexByte (a +:+ String c b) c = Some (String.length a).
Proof.
  unfold no_byte. induction a as [|d a IH]; cbn [String.append IndexByte string_forall]; [by rewrite Ascii.eqb_refl|].
  intros [Hd Ha]%andb_true_iff. apply negb_true_iff in Hd. by rewrite Hd, IH.
Qed.

Lemma take_bytes_all a : take_bytes (String.length a) a = a.
Proof. induction a as [|c a IH]; [done|]. cbn. by rewrite IH. Qed.
Lemma take_bytes_length a b : take_bytes (String.length a) (a +:+ b) = a.
Proof. rewrite take_bytes_app by done. apply take_bytes_all. Qed.
Lemma drop_bytes_length a b : drop_bytes (String.length a) (a +:+ b) = b.
Proof. by induction a. Qed.

Lemma startOfLine_at a l b : no_byte nl l = true →
  startOfLine (a +:+ (String nl (l +:+ b))) (String.length (a +:+ String nl l)) = S (String.length a).
Proof.
  intros Hl. unfold startOfLine.
  replace (a +:+ String nl (l +:+ b)) with ((a +:+ String nl l) +:+ b) by by rewrite string_app_assoc.
  rewrite take_bytes_length, LastIndexByte_last by done. lia.
Qed.

Lemma endOfLine_at a l b : no_byte nl l = true →
  endOfLine (a +:+ (l +:+ String nl b)) (String.length a) = String.length (a +:+ l).
Proof.
  intros Hl. unfold endOfLine. rewrite drop_bytes_length, IndexByte_first by done. by rewrite string_length_app.
Qed.

(** The indentation of a line, which does not run to its end. *)
Definition blank_bytes : ascii → bool := λ c, contains_byte c (" " +:+ tab).
Lemma trim_left_stop i c b :
  string_forall blank_bytes i = true → blank_bytes c = false → trim_left blank_bytes (i +:+ String c b) = String c b.
Proof.
  intros Hi Hc. induction i as [|d i IH]; cbn [String.append trim_left]; [by rewrite Hc|].
  cbn [string_forall] in Hi. apply andb_true_iff in Hi as [-> Hi]. by apply IH.
Qed.

Lemma lineIndent_at a x b i c rest :
  no_byte nl x = true → x +:+ b = i +:+ String c rest →
  string_forall blank_bytes i = true → blank_bytes c = false →
  lineIndent (a +:+ String nl (x +:+ b)) (String.length (a +:+ String nl x)) = i.
Proof.
  intros Hx Er Hi Hc. unfold lineIndent. fold blank_bytes. rewrite startOfLine_at by done.
  replace (S (String.length a)) with (String.length (a +:+ String nl "")) by (rewrite string_length_app; cbn; lia).
  replace (a +:+ String nl (x +:+ b)) with ((a +:+ String nl "") +:+ (x +:+ b)) by by rewrite string_app_assoc.
  rewrite drop_bytes_length, Er, trim_left_stop by done. rewrite string_length_app.
  replace (String.length i + String.length (String c rest) - String.length (String c rest)) with (String.length i) by lia.
  apply take_bytes_length.
Qed.

(** Concatenations in one shape. *)
Lemma string_app_cons c a b : String c a +:+ b = String c (a +:+ b).
Proof. done. Qed.
Lemma string_app_nil_l b : "" +:+ b = b.
Proof. done. Qed.
Ltac flat := rewrite ?string_app_assoc, ?string_app_cons, ?string_app_nil_l;
  repeat (progress rewrite ?string_app_assoc, ?string_app_cons, ?string_app_nil_l).

(** ** main.go as it is generated *)

(** The template around its two fields. *)
Definition main_part (k : nat) : string :=
  match template_named "main.go.tmpl" with
  | Some ps => match ps !! k with Some (Text s) => s | _ => "" end
  | None => ""
  end.

(** Up to the line of the project's own import. *)
Definition head_text (n : string) : string :=
  main_part 0 +:+ (n +:+ take_bytes (String.length (main_part 2) - 3) (main_part 2)).
(** From the line after it to the call's opening parenthesis. *)
Definition body_text : string :=
  take_bytes (String.length (main_part 4) - 33) (drop_bytes 7 (main_part 4)).
Definition own_import (path : string) : string := tab +:+ (dq +:+ (path +:+ dq)).
Definition args_text : string := "opts," +:+ newline +:+ tab +:+ tab +:+ "home.New(),".
Definition tail_text : string := ")" +:+ newline +:+ "}" +:+ newline.

Definition main_with (n : string) (imports : list string) (args : string) : string :=
  head_text n +:+ (newline +:+ (Join (map own_import imports) newline +:+ (newline +:+
    (body_text +:+ ("(" +:+ (args +:+ (newline +:+ (tab +:+ tail_text)))))))).

Definition main_text (n m : string) : string := main_with n [m +:+ "/home"] args_text.

(** With a module wired in. *)
Definition wired_text (n m name : string) : string :=
  main_with n
    (if str_ltb name "home" then [m +:+ "/" +:+ name; m +:+ "/home"] else [m +:+ "/home"; m +:+ "/" +:+ name])
    (args_text +:+ (newline +:+ (tab +:+ (tab +:+ (name +:+ ".New(),"))))).

Lemma main_template :
  template_named "main.go.tmpl"
  = Some [Text (main_part 0); Field "Name"; Text (main_part 2); Field "Module"; Text (main_part 4)].
Proof. vm_compute. reflexivity. Qed.

Lemma main_middle : main_part 2 = take_bytes (String.length (main_part 2) - 3) (main_part 2) +:+ (newline +:+ (tab +:+ dq)).
Proof. vm_compute. reflexivity. Qed.
Lemma main_end : main_part 4 = "/home" +:+ (dq +:+ (newline +:+ (body_text +:+ ("(" +:+ (args_text +:+ (newline +:+ (tab +:+ tail_text))))))).
Proof. vm_compute. reflexivity. Qed.

Lemma main_rendered data n m :
  data !! "Name" = Some n → data !! "Module" = Some m → render "main.go.tmpl" data = Ok (main_text n m).
Proof.
  intros Hn Hm. unfold render. rewrite main_template. cbn [execute]. rewrite Hn, Hm. cbn [mbind result_bind].
  f_equal. rewrite string_app_nil_r. rewrite main_middle at 1. rewrite main_end.
  unfold main_text, main_with, head_text, own_import. cbn [map Join]. by rewrite !string_app_assoc.
Qed.

(** ** What the parser sees in it *)

(** A module path written with the characters Go allows in one. *)
Definition path_char (c : ascii) : bool :=
  is_lower c || is_upper c || is_digit c || contains_byte c "-._~/".
Definition module_path (m : string) : Prop := m ≠ "" ∧ string_forall path_char m = true.

Lemma path_char_not d m : path_char d = false → string_forall path_char m = true → no_byte d m = true.
Proof.
  intros Hd. apply string_forall_impl. intros c Hc. destruct (Ascii.eqb_spec c d) as [->|]; [congruence|done].
Qed.

Definition home_path (m : string) : string := m +:+ "/home".
Definition home_spec (n m : string) : ImportSpec :=
  {| Path := dq +:+ (home_path m +:+ dq);
     Pos := String.length (head_text n +:+ String nl tab);
     End_ := String.length (head_text n +:+ String nl (own_import (home_path m))) |}.
(** The text before the call's opening parenthesis. *)
Definition before_call (n m : string) : string :=
  head_text n +:+ String nl (own_import (home_path m) +:+ String nl body_text).
Definition new_call (n m : string) : call :=
  mkCall (String.length (before_call n m))
         (String.length ((before_call n m +:+ ("(" +:+ args_text)) +:+ String nl tab)).
Definition other_imports : list string :=
  ["context"; "log"; "os"; "github.com/usefabrin/fabrin"; "github.com/usefabrin/fabrin/config"].

(** Go's parser on the generated file: the call and the imports, where they are. *)
Record reads_main (n m : string) (f : file) : Prop := {
  reads_call : findNewCall f = Some (new_call n m);
  reads_imports : ∃ others rparen, import_decl f = Some (others ++ [home_spec n m], rparen)
                                   ∧ map path_of_spec others = other_imports;
}.

(** The project is not one of the framework's own. *)
Definition own_project (m : string) : Prop := Forall (λ p, HasPrefix p (m +:+ "/") = false) other_imports.

Lemma trim_right_stop p s c : p c = false → trim_right p (s +:+ String c "") = s +:+ String c "".
Proof.
  intros Hc. unfold trim_right, string_rev.
  assert (Ea : list_ascii_of_string (s +:+ String c "") = list_ascii_of_string s ++ [c]).
  { induction s as [|d s IH]; [done|]. cbn. by rewrite IH. }
  rewrite Ea, rev_app_distr. cbn [rev app string_of_list_ascii trim_left]. rewrite Hc.
  change (String c (string_of_list_ascii (rev (list_ascii_of_string s)))) with (string_of_list_ascii (c :: rev (list_ascii_of_string s))).
  rewrite list_ascii_of_string_of_list_ascii. cbn [rev]. rewrite rev_involutive.
  clear. induction s as [|d s IH]; [done|]. cbn. by rewrite IH.
Qed.

Lemma home_spec_path n m : module_path m → path_of_spec (home_spec n m) = home_path m.
Proof.
  intros [Hne Hm]. unfold path_of_spec, Trim. cbn [Path home_spec].
  set (p := λ c, contains_byte c dq).
  assert (Hl : trim_left p (dq +:+ (home_path m +:+ dq)) = home_path m +:+ dq).
  { destruct m as [|c m]; [done|]. cbn [string_forall] in Hm. apply andb_true_iff in Hm as [Hc _].
    change (dq +:+ (home_path (String c m) +:+ dq)) with (String quote_char (String c ((m +:+ "/home") +:+ dq))).
    cbn [trim_left]. change (p quote_char) with true. cbn [trim_left].
    replace (p c) with false; [done|]. symmetry. unfold p, dq. cbn [contains_byte]. rewrite orb_false_r.
    destruct (Ascii.eqb_spec quote_char c) as [<-|]; [done|done]. }
  rewrite Hl. unfold home_path.
  assert (Hr : trim_right p ((m +:+ "/home") +:+ dq) = trim_right p (m +:+ "/home")).
  { unfold trim_right, string_rev. set (s := m +:+ "/home").
    assert (Ea : list_ascii_of_string (s +:+ dq) = list_ascii_of_string s ++ [quote_char]).
    { clear. induction s as [|d s IH]; [done|]. cbn. by rewrite IH. }
    by rewrite Ea, rev_app_distr. }
  rewrite Hr. replace (m +:+ "/home") with ((m +:+ "/hom") +:+ String "e" "") by by rewrite string_app_assoc.
  by apply trim_right_stop.
Qed.

Lemma HasPrefix_app s t : HasPrefix (s +:+ t) s = true.
Proof. apply HasPrefix_spec. by exists t. Qed.

Lemma str_ltb_prefix m a b : str_ltb (m +:+ a) (m +:+ b) = str_ltb a b.
Proof. unfold str_ltb. induction m as [|c m IH]; [done|]. cbn. by rewrite ascii_compare_refl. Qed.

Lemma siblings_home n m others :
  module_path m → own_project m → map path_of_spec others = other_imports →
  siblings (m +:+ "/") (others ++ [home_spec n m]) = [home_spec n m].
Proof.
  intros Hm Ho Hp. unfold siblings. rewrite List.filter_app.
  assert (E : List.filter (λ s, HasPrefix (path_of_spec s) (m +:+ "/")) others = []).
  { unfold own_project in Ho. rewrite <-Hp in Ho. clear Hp. induction others as [|s others IH]; [done|].
    cbn [map] in Ho. apply Forall_cons in Ho as [Hs Ho]. cbn [List.filter]. by rewrite Hs, IH. }
  rewrite E. cbn [app List.filter]. rewrite home_spec_path by done. unfold home_path.
  replace (m +:+ "/home") with ((m +:+ "/") +:+ "home") by by rewrite string_app_assoc.
  by rewrite HasPrefix_app.
Qed.

(** ** The edit of it *)

Lemma main_text_shape n m :
  main_text n m = head_text n +:+ String nl (own_import (home_path m) +:+ String nl
                    (body_text +:+ ("(" +:+ (args_text +:+ (String nl (tab +:+ tail_text)))))).
Proof. reflexivity. Qed.

Lemma main_text_call n m :
  main_text n m = (before_call n m +:+ ("(" +:+ args_text)) +:+ String nl (tab +:+ tail_text).
Proof. rewrite main_text_shape. unfold before_call. flat. done. Qed.

Lemma argument_generated n m name :
  insertArgument (main_text n m) (new_call n m) name
  = mkEdit (S (String.length (before_call n m +:+ ("(" +:+ args_text))))
      (tab +:+ (tab +:+ (name +:+ (".New()," +:+ newline)))).
Proof.
  unfold insertArgument. cbn [Lparen Rparen new_call].
  assert (Hlines : (line_of (main_text n m) (String.length (before_call n m))
    =? line_of (main_text n m) (String.length ((before_call n m +:+ ("(" +:+ args_text)) +:+ String nl tab)))%nat = false).
  { apply Nat.eqb_neq. unfold line_of. set (call_text := before_call n m +:+ ("(" +:+ args_text)).
    assert (E1 : main_text n m = before_call n m +:+ (("(" +:+ args_text) +:+ String nl (tab +:+ tail_text)))
      by (rewrite main_text_call; by flat).
    assert (E2 : main_text n m = (call_text +:+ String nl tab) +:+ tail_text)
      by (rewrite main_text_call; unfold call_text; by flat).
    rewrite E1 at 1. rewrite E2, !take_bytes_length. unfold call_text. rewrite string_app_assoc, count_app.
    change (count_byte nl (("(" +:+ args_text) +:+ String nl tab)) with 2. lia. }
  rewrite Hlines. rewrite main_text_call. rewrite startOfLine_at by done.
  rewrite (lineIndent_at _ tab tail_text tab ")" (newline +:+ "}" +:+ newline)) by done. f_equal.
Qed.

Lemma own_import_line path : no_byte nl path = true → no_byte nl (own_import path) = true.
Proof. intros Hp. unfold own_import. rewrite !no_byte_app, Hp. done. Qed.

Lemma import_generated n m f name :
  module_path m → own_project m → reads_main n m f → no_byte "/" name = true → name ≠ "home" →
  insertImport (main_text n m) f (m +:+ "/" +:+ name)
  = Ok (if str_ltb name "home"
        then mkEdit (S (String.length (head_text n))) (own_import (m +:+ "/" +:+ name) +:+ newline)
        else mkEdit (String.length (head_text n +:+ String nl (own_import (home_path m))))
                    (newline +:+ own_import (m +:+ "/" +:+ name))).
Proof.
  intros Hm Ho [_ (others & rparen & Hd & Hp)] Hn Hne. unfold insertImport. rewrite Hd. cbv zeta.
  change (m +:+ "/" +:+ name) with (m +:+ String "/" name) at 1. rewrite split_last_slash by done. cbn [fst].
  rewrite neighbours_spec, (siblings_home n m others) by done.
  assert (Hline : no_byte nl (own_import (home_path m)) = true).
  { apply own_import_line. unfold home_path. rewrite no_byte_app. destruct Hm as [_ Hm].
    by rewrite (path_char_not nl m). }
  assert (Hlt : str_ltb (path_of_spec (home_spec n m)) (m +:+ "/" +:+ name) = negb (str_ltb name "home")).
  { rewrite home_spec_path by done. unfold home_path. rewrite str_ltb_prefix.
    change ("/home") with ("/" +:+ "home"). rewrite str_ltb_prefix.
    destruct (str_ltb name "home") eqn:E; cbn [negb]; [by apply str_ltb_antisym|].
    destruct (str_ltb "home" name) eqn:E'; [done|]. by destruct (Hne (str_ltb_total _ _ E E')). }
  cbn [List.filter]. rewrite Hlt, negb_involutive.
  set (rest := body_text +:+ ("(" +:+ (args_text +:+ String nl (tab +:+ tail_text)))) in *.
  assert (Hsrc : main_text n m = head_text n +:+ String nl (own_import (home_path m) +:+ String nl rest)) by apply main_text_shape.
  destruct (str_ltb name "home"); cbn [negb last_of first_of last head Pos End_ home_spec]; rewrite Hsrc; do 2 f_equal.
  - unfold own_import at 1. rewrite string_app_assoc. by apply startOfLine_at.
  - unfold own_import at 1. rewrite string_app_assoc.
    rewrite (lineIndent_at _ tab _ tab quote_char ((home_path m +:+ dq) +:+ String nl rest)) by (done || by flat).
    unfold own_import. by flat.
  - replace (head_text n +:+ String nl (own_import (home_path m) +:+ String nl rest))
      with ((head_text n +:+ String nl (own_import (home_path m))) +:+ ("" +:+ String nl rest)) by by flat.
    rewrite endOfLine_at by done. by rewrite string_app_nil_r.
  - rewrite (lineIndent_at _ _ _ tab quote_char ((home_path m +:+ dq) +:+ String nl rest)) by (done || by flat). done.
Qed.

Lemma splice_at a b c s t :
  splice (splice (a +:+ (b +:+ c)) (mkEdit (String.length (a +:+ b)) t)) (mkEdit (String.length a) s)
  = a +:+ (s +:+ (b +:+ (t +:+ c))).
Proof.
  rewrite splice_splice by (rewrite !string_length_app; lia). rewrite take_bytes_length.
  replace (a +:+ (b +:+ c)) with ((a +:+ b) +:+ c) by by flat.
  by rewrite take_bytes_length, !drop_bytes_length.
Qed.

Lemma length_snoc a : S (String.length a) = String.length (a +:+ String nl "").
Proof. rewrite string_length_app. cbn. lia. Qed.

Lemma wire_generated ParseFile path n m name f edited c' :
  module_path m → own_project m → no_byte "/" name = true → name ≠ "home" →
  ParseFile path (main_text n m) = Ok f → reads_main n m f →
  ParseFile path (wired_text n m name) = Ok edited → findNewCall edited = Some c' →
  wire_text ParseFile path (main_text n m) m name = Ok (wired_text n m name).
Proof.
  intros Hm Ho Hn Hne Hp Hr Hp' Hc'. unfold wire_text. rewrite Hp, (reads_call _ _ _ Hr).
  rewrite argument_generated, import_generated with (n := n) by done. cbn [mbind result_bind].
  assert (E : ∀ e, e = (if str_ltb name "home"
      then mkEdit (S (String.length (head_text n))) (own_import (m +:+ "/" +:+ name) +:+ newline)
      else mkEdit (String.length (head_text n +:+ String nl (own_import (home_path m))))
             (newline +:+ own_import (m +:+ "/" +:+ name))) →
    splice (splice (main_text n m) (mkEdit (S (String.length (before_call n m +:+ ("(" +:+ args_text))))
      (tab +:+ (tab +:+ (name +:+ (".New()," +:+ newline)))))) e = wired_text n m name).
  { intros e ->. rewrite length_snoc. unfold wired_text, main_with, before_call.
    destruct (str_ltb name "home"); cbn [map Join].
    - rewrite (length_snoc (head_text n)).
      replace (main_text n m) with ((head_text n +:+ String nl "") +:+ ((own_import (home_path m) +:+
        String nl (body_text +:+ ("(" +:+ (args_text +:+ String nl "")))) +:+ (tab +:+ tail_text)))
        by (rewrite main_text_shape; by flat).
      replace (((head_text n +:+ String nl (own_import (home_path m) +:+ String nl body_text)) +:+ ("(" +:+ args_text)) +:+ String nl "")
        with ((head_text n +:+ String nl "") +:+ (own_import (home_path m) +:+
          String nl (body_text +:+ ("(" +:+ (args_text +:+ String nl ""))))) by by flat.
      rewrite splice_at. unfold newline, home_path. change "010"%char with nl. by flat.
    - replace (main_text n m) with ((head_text n +:+ String nl (own_import (home_path m))) +:+ (
        String nl (body_text +:+ ("(" +:+ (args_text +:+ String nl ""))) +:+ (tab +:+ tail_text)))
        by (rewrite main_text_shape; by flat).
      replace (((head_text n +:+ String nl (own_import (home_path m) +:+ String nl body_text)) +:+ ("(" +:+ args_text)) +:+ String nl "")
        with ((head_text n +:+ String nl (own_import (home_path m))) +:+
          String nl (body_text +:+ ("(" +:+ (args_text +:+ String nl "")))) by by flat.
      rewrite splice_at. unfold newline, home_path. change "010"%char with nl. by flat. }
  rewrite (E _ eq_refl), Hp', Hc'. done.
Qed.

(** ** A module in a new project

    [fabrin startapp] runs to its end in any project whose main.go can be edited, and
    what it leaves on the disk is known exactly; the project that [fabrin new] has
    just written is such a project. *)

(** ** What is at a path *)

Lemma file_kind d q data : wf d → contents d !! q = Some data → kind_of d q = File data.
Proof.
  intros Hwf Hq. destruct (wf_clean d Hwf q) as (r & L & x & -> & Hc); [right; by eexists|].
  unfold kind_of. rewrite (not_true_is_false (is_folder d _)); [by rewrite Hq|].
  intros Hf. rewrite folder_no_file in Hq; done.
Qed.

Lemma not_there d r L x :
  clean_list r (L ++ [x]) → ¬ at_path d (path_of r (L ++ [x])) →
  is_folder d (path_of r (L ++ [x])) = false ∧ contents d !! path_of r (L ++ [x]) = None.
Proof.
  intros Hc Hn. split.
  - apply not_true_is_false. intros Hf. apply Hn. left. by apply is_folder_below; [|by destruct L|].
  - destruct (contents d !! _) eqn:E; [|done]. destruct Hn. right. by eexists.
Qed.

(** Nothing is a file above what is in a folder. *)
Lemma no_file_above d r L x q :
  wf d → clean_list r (L ++ [x]) → is_folder d (path_of r L) = true → q ∈ ancestors (path_of r (L ++ [x])) →
  contents d !! q = None.
Proof.
  intros Hwf Hc Hf Hq. pose proof (ancestors_ups r (L ++ [x]) Hc ltac:(by destruct L)) as E.
  rewrite ups_snoc in E. apply app_inv_tail in E. rewrite E in Hq.
  apply ups_prefix in Hq as (L1 & L2 & -> & _ & ->). pose proof (clean_list_init _ _ _ Hc) as Hc'.
  apply folder_no_file; [done|by apply clean_list_prefix in Hc'|by apply (above_folder d r L1 L2)].
Qed.

Lemma missing_kind d r L x :
  wf d → clean_list r (L ++ [x]) → is_folder d (path_of r L) = true → ¬ at_path d (path_of r (L ++ [x])) →
  kind_of d (path_of r (L ++ [x])) = Missing.
Proof.
  intros Hwf Hc Hf Hn. destruct (not_there d r L x Hc Hn) as [E1 E2]. unfold kind_of. rewrite E1, E2.
  destruct (existsb _ _) eqn:Ex; [|done]. apply existsb_exists in Ex as (q & Hq & Hs).
  apply bool_decide_eq_true in Hs. rewrite (no_file_above d r L x q) in Hs; [by destruct Hs|done..|by apply list_elem_of_In].
Qed.

(** ** Calls that do not fail *)

Section run.
#[local] Set Default Proof Using "Type*".
Context `{Unicode} `{RuneClasses}.
Context (faults : nat → option fault) (Hn : ∀ n, faults n = None).
Context (ParseFile : string → string → result string file).

Lemma ReadFile_run p data d : kind_of d (Clean p) = File data → ReadFile faults p d = (Ok data, next_call d).
Proof. intros E. unfold ReadFile, look. by rewrite Hn, E. Qed.
Lemma Stat_run p d (b : bool) :
  match kind_of d (Clean p) with Missing => b = false | Folder | File _ => b = true | BelowFile => False end →
  Stat faults p d = (Ok b, next_call d).
Proof. unfold Stat, look. rewrite Hn. by destruct (kind_of d (Clean p)); intros; subst. Qed.
Lemma WriteFile_run p data d :
  Clean p = p → is_folder d p = false → is_folder d (path_Dir p) = true → WriteFile faults p data d = (Ok (), write_at p data d).
Proof. intros E E1 E2. unfold WriteFile. cbv zeta. by rewrite E, E1, E2, Hn. Qed.
Lemma MkdirAll_run p d :
  Clean p = p → (∀ q, q ∈ ancestors p ++ [p] → contents d !! q = None) →
  MkdirAll faults p d = (Ok (), make_folders (ancestors p ++ [p]) d).
Proof.
  intros E Hno. unfold MkdirAll. cbv zeta. rewrite E, Hn.
  destruct (existsb _ _) eqn:Ex; [|done]. apply existsb_exists in Ex as (q & Hq & Hs).
  apply bool_decide_eq_true in Hs. rewrite Hno in Hs; [by destruct Hs|by apply list_elem_of_In].
Qed.

Lemma projectModulePath_run dir d text main :
  kind_of d (Clean (path_join [dir; "go.mod"])) = File text →
  kind_of d (Clean (path_join [dir; "main.go"])) = File main →
  module_line (SplitByte nl text) ≠ "" →
  projectModulePath faults dir d = (Ok (module_line (SplitByte nl text)), next_call (next_call d)).
Proof.
  intros E1 E2 Hm. unfold projectModulePath, mbind, IO_bind, wrap. rewrite (ReadFile_run _ text) by done.
  rewrite (proj2 (String.eqb_neq _ _) Hm). rewrite (Stat_run _ _ true); [done|].
  change (kind_of (next_call d)) with (kind_of d). by rewrite E2.
Qed.

(** ** The package *)

Lemma module_templates_known :
  forallb (λ t, match template_named t with
                | Some ps => forallb (λ k, existsb (String.eqb k) module_keys) (keys_of ps)
                | None => false
                end) ["module.go.tmpl"; "module_test.go.tmpl"] = true.
Proof. vm_compute. reflexivity. Qed.

Lemma module_renders t pkg modulePath app route : t ∈ ["module.go.tmpl"; "module_test.go.tmpl"] →
  ∃ text, render t (moduleData pkg modulePath app route) = Ok text.
Proof.
  intros Ht. pose proof module_templates_known as Hk. rewrite forallb_forall in Hk.
  specialize (Hk t (proj1 (list_elem_of_In _ _) Ht)). cbv beta in Hk. unfold render.
  destruct (template_named t) as [ps|]; [|done].
  pose proof (execute_total (moduleData pkg modulePath app route) ps) as He.
  destruct (execute _ ps) as [text|]; [by exists text|]. discriminate He. apply Forall_forall. intros k Hin.
  rewrite forallb_forall in Hk. specialize (Hk k (proj1 (list_elem_of_In _ _) Hin)).
  apply existsb_exists in Hk as (k' & Hk' & ->%String.eqb_eq). apply module_keys_there. by apply list_elem_of_In.
Qed.

(** The path of a file of the package is not one of the folders made for it. *)
Lemma package_file_new_folder m d q :
  plain (module_Name m) → q ∈ package_paths m → ¬ at_path d q →
  is_folder (make_folders (ancestors (package_dir m) ++ [package_dir m]) d) q = false
  ∧ path_Dir q = package_dir m ∧ Clean q = q.
Proof.
  intros Hp (x & Hx & ->)%package_file_elements Hnew; [|done]. destruct (package_layout m Hp) as (_ & -> & _).
  pose proof (elems_clean (module_dir m)) as HE. set (E := elems (module_dir m)) in *. set (r := rooted (module_dir m)) in *.
  assert (Hc : clean_list r ((E ++ [module_Name m]) ++ [x])) by (rewrite <-app_assoc; apply clean_list_app; [done|all_plain]).
  change [module_Name m; x] with ([module_Name m] ++ [x]) in *. rewrite app_assoc in *.
  pose proof (clean_list_init _ _ _ Hc) as Hc1. split; [|split; [by apply path_Dir_of|by apply Clean_path_of]].
  apply not_true_is_false. intros Hf. apply is_folder_below in Hf; [|done|by destruct (E ++ [module_Name m])].
  apply made_in in Hf as [Hf|Hf]; [by destruct Hnew; left|].
  rewrite ancestors_ups in Hf by (done || by destruct E). apply ups_prefix in Hf as (L1 & L2 & E1 & _ & Eq).
  apply path_of_inj in Eq as [_ Eq]; [|done|rewrite E1 in Hc1; by apply clean_list_prefix in Hc1].
  apply (f_equal length) in E1, Eq. rewrite !length_app in *. cbn in *. lia.
Qed.

Definition package_data (m : AppModule) (modulePath : string) : gmap string string :=
  moduleData (module_Name m) modulePath (path_Base modulePath) ("/" +:+ module_Name m).

Lemma writePackage_run m modulePath d :
  wf d → plain (module_Name m) → is_folder d (Clean (module_dir m)) = true → ¬ at_path d (package_dir m) →
  ∃ code test,
    render "module.go.tmpl" (package_data m modulePath) = Ok code
    ∧ render "module_test.go.tmpl" (package_data m modulePath) = Ok test
    ∧ writePackage faults m (package_dir m) modulePath d
      = (Ok (), write_at (path_join [package_dir m; module_Name m +:+ "_test.go"]) test
                 (write_at (path_join [package_dir m; module_Name m +:+ ".go"]) code
                   (make_folders (ancestors (package_dir m) ++ [package_dir m]) d))).
Proof.
  intros Hwf Hp Hf Hno. destruct (module_paths_clean m Hp) as (_ & Hcl & _).
  destruct (module_renders "module.go.tmpl" (module_Name m) modulePath (path_Base modulePath) ("/" +:+ module_Name m)) as [code Ec];
    [by left|].
  destruct (module_renders "module_test.go.tmpl" (module_Name m) modulePath (path_Base modulePath) ("/" +:+ module_Name m)) as [test Et];
    [by right; left|].
  exists code, test. split; [done|]. split; [done|]. destruct (package_layout m Hp) as (_ & Epk & _).
  pose proof (elems_clean (module_dir m)) as HE. rewrite Clean_elems in Hf.
  assert (Hc : clean_list (rooted (module_dir m)) (elems (module_dir m) ++ [module_Name m])) by (apply clean_list_app; [done|all_plain]).
  assert (Hv : vacant d (package_dir m)) by (left; rewrite Epk in Hno |- *; by apply missing_kind).
  assert (Hnew : ∀ q, q ∈ package_paths m → ¬ at_path d q) by (intros q; by apply package_paths_new).
  set (d1 := make_folders (ancestors (package_dir m) ++ [package_dir m]) d).
  assert (Hpkg : is_folder d1 (package_dir m) = true) by (apply made_folder, elem_of_app; right; by left).
  assert (Hwrite : ∀ q data e, q ∈ package_paths m → folders e = folders d1 → WriteFile faults q data e = (Ok (), write_at q data e)).
  { intros q data e Hq He. destruct (package_file_new_folder m d q Hp Hq (Hnew q Hq)) as (H1 & H2 & H3).
    apply WriteFile_run; [done| |rewrite H2]; unfold is_folder in *; rewrite He; done. }
  unfold writePackage, mbind, IO_bind, wrap.
  rewrite MkdirAll_run; [|done|].
  2: { intros q [Hq|Hq%list_elem_of_singleton]%elem_of_app; [|subst q].
       - rewrite Epk in Hq. by eapply no_file_above.
       - destruct (contents d !! package_dir m) eqn:Ed; [|done]. destruct Hno. right. by eexists. }
  fold d1. unfold moduleFiles. cbn [write_module_files]. unfold mbind, IO_bind, wrap, of_result. rewrite Ec.
  rewrite Hwrite; [|unfold package_paths, moduleFiles; by left|done].
  rewrite Et, Hwrite; [done|unfold package_paths, moduleFiles; by right; left|done].
Qed.
(** ** The command *)

Definition gomod_path (m : AppModule) : string := path_join [module_dir m; "go.mod"].

Lemma gomod_clean m : Clean (gomod_path m) = gomod_path m.
Proof.
  unfold gomod_path. rewrite (path_join_below _ ["go.mod"]) by (apply module_dir_nonempty || done || all_plain).
  apply Clean_path_of, clean_list_app; [apply elems_clean|all_plain].
Qed.

(** What [startapp] leaves when nothing fails: main.go edited, the package's two
    files, and every other file as it was. *)
Definition with_module (m : AppModule) (modulePath out : string) (before after : gmap string string) : Prop :=
  ∃ code test,
    render "module.go.tmpl" (package_data m modulePath) = Ok code
    ∧ render "module_test.go.tmpl" (package_data m modulePath) = Ok test
    ∧ after = <[main_path m := out]> (<[path_join [package_dir m; module_Name m +:+ "_test.go"] := test]>
                (<[path_join [package_dir m; module_Name m +:+ ".go"] := code]> before)).

(** The package's folder takes nothing away from main.go. *)
Lemma main_after_mkdir m d src :
  wf d → plain (module_Name m) → contents d !! main_path m = Some src → ¬ at_path d (package_dir m) →
  let d1 := make_folders (ancestors (package_dir m) ++ [package_dir m]) d in
  is_folder d1 (main_path m) = false ∧ is_folder d1 (path_Dir (main_path m)) = true.
Proof.
  intros Hwf Hp Hmain Hno d1. destruct (package_layout m Hp) as (Em & Epk & _).
  pose proof (elems_clean (module_dir m)) as HE. split.
  - apply not_true_is_false. intros Hf.
    assert (Hc : ∀ x, plain x → clean_list (rooted (module_dir m)) (elems (module_dir m) ++ [x]))
      by (intros x Hx; apply clean_list_app; [done|all_plain]).
    assert (Hcm : clean_list (rooted (module_dir m)) (elems (module_dir m) ++ ["main.go"])) by by apply Hc.
    rewrite Em in Hf. apply is_folder_below in Hf; [|done|by destruct (elems (module_dir m))].
    apply made_in in Hf as [Hf|Hf].
    { apply (wf_apart d Hwf) in Hf. rewrite Em in Hmain. congruence. }
    rewrite Epk, ancestors_ups in Hf by (auto || by destruct (elems (module_dir m))).
    apply ups_prefix in Hf as (L1 & L2 & E1 & _ & Eq). specialize (Hc _ Hp) as Hc1.
    apply path_of_inj in Eq as [_ <-]; [|done|rewrite E1 in Hc1; by apply clean_list_prefix in Hc1].
    rewrite <-app_assoc in E1. apply app_inv_head in E1. injection E1 as E1 _.
    apply Hno. right. rewrite Epk, E1, <-Em. by eexists.
  - unfold is_folder. apply orb_true_iff. pose proof (wf_parent d Hwf (main_path m)) as Hpar.
    unfold is_folder in Hpar. apply orb_true_iff in Hpar as [Hpar|Hpar]; [by left| |right; by eexists].
    right. cbn. apply bool_decide_eq_true in Hpar. apply bool_decide_eq_true. by apply elem_of_union_l.
Qed.

Lemma GenerateModule_run m d text src out :
  wf d → validPackageName (module_Name m) = None →
  contents d !! gomod_path m = Some text → module_line (SplitByte nl text) ≠ "" →
  contents d !! main_path m = Some src → ¬ at_path d (package_dir m) →
  wire_text ParseFile (main_path m) src (module_line (SplitByte nl text)) (module_Name m) = Ok out →
  ∃ d', GenerateModule faults ParseFile m d = (Ok (), d')
        ∧ with_module m (module_line (SplitByte nl text)) out (contents d) (contents d').
Proof.
  intros Hwf Hv Hgo Hml Hmain Hno Hw. destruct (package_name_plain _ Hv) as [Hp _].
  destruct (module_paths_clean m Hp) as (Hclm & Hclp & _). destruct (package_layout m Hp) as (Em & Epk & _).
  set (modulePath := module_line (SplitByte nl text)) in *. pose proof (elems_clean (module_dir m)) as HE.
  assert (Hcm : clean_list (rooted (module_dir m)) (elems (module_dir m) ++ ["main.go"])) by (apply clean_list_app; [done|all_plain]).
  assert (Hf : is_folder d (Clean (module_dir m)) = true).
  { rewrite Clean_elems, <-(path_Dir_of _ _ _ Hcm), <-Em. apply (wf_parent d Hwf). right. by eexists. }
  assert (Hmiss : kind_of d (package_dir m) = Missing).
  { rewrite Clean_elems in Hf. rewrite Epk in Hno |- *. apply missing_kind; try done. apply clean_list_app; [done|all_plain]. }
  set (d3 := next_call (next_call (next_call (next_call d)))).
  destruct (writePackage_run m modulePath d3) as (code & test & Ec & Et & Ewp); [by apply (same_wf d)|done..|].
  eexists. split; cycle 1.
  { exists code, test. split; [done|]. split; [done|].
    exact (eq_refl (contents (write_at (main_path m) out (write_at (path_join [package_dir m; module_Name m +:+ "_test.go"]) test
      (write_at (path_join [package_dir m; module_Name m +:+ ".go"]) code
        (make_folders (ancestors (package_dir m) ++ [package_dir m]) d3)))))). }
  unfold GenerateModule. cbv zeta. fold (module_dir m) (main_path m) (package_dir m). rewrite Hv.
  unfold mbind, IO_bind, checked, attempt, wire, wrap.
  rewrite (projectModulePath_run (module_dir m) d text src);
    [|fold (gomod_path m); rewrite gomod_clean; by apply file_kind
     |fold (main_path m); rewrite Hclm; by apply file_kind|done].
  rewrite (Stat_run _ _ false); [|rewrite Hclp; change (kind_of (next_call (next_call d))) with (kind_of d); by rewrite Hmiss].
  unfold mret, IO_ret, mbind, IO_bind. rewrite (ReadFile_run _ src); [|rewrite Hclm; by apply (file_kind d)].
  unfold of_result. fold modulePath. rewrite Hw. fold d3. rewrite Ewp.
  destruct (main_after_mkdir m d3 src) as [H1 H2]; [by apply (same_wf d)|done..|]. by rewrite WriteFile_run.
Qed.
End run.

(** ** In a project just written *)

Definition gomod_text (m : string) : string :=
  "module " +:+ (m +:+ (newline +:+ (newline +:+ ("go " +:+ (goDirective +:+ newline))))).

Lemma gomod_template :
  template_named "go.mod.tmpl"
  = Some [Text "module "; Field "Module"; Text (newline +:+ newline +:+ "go "); Field "Go"; Text newline].
Proof. vm_compute. reflexivity. Qed.

Lemma gomod_rendered data m :
  data !! "Module" = Some m → data !! "Go" = Some goDirective → render "go.mod.tmpl" data = Ok (gomod_text m).
Proof. intros Hm Hg. unfold render. rewrite gomod_template. cbn [execute]. by rewrite Hm, Hg. Qed.

Lemma path_char_visible c : path_char c = true → visible c = true.
Proof.
  intros H. assert (Hall : forallb (λ n, negb (path_char (ascii_of_nat n)) || visible (ascii_of_nat n)) (seq 0 256) = true)
    by (vm_compute; done).
  rewrite forallb_forall in Hall. specialize (Hall (nat_of_ascii c)). cbv beta in Hall.
  rewrite ascii_nat_embedding, H in Hall. apply Hall, in_seq. pose proof (nat_ascii_bounded c). lia.
Qed.

Lemma last_char s : s ≠ "" → ∃ t d, s = t +:+ String d "".
Proof.
  induction s as [|c s IH]; [done|]. intros _. destruct (decide (s = "")) as [->|Hne]; [by exists "", c|].
  destruct (IH Hne) as (t & d & ->). by exists (String c t), d.
Qed.

Lemma TrimSpace_path m : module_path m → TrimSpace m = m.
Proof.
  intros [Hne Hm]. destruct (last_char m Hne) as (t & d & ->). rewrite string_forall_app in Hm.
  apply andb_true_iff in Hm as [Ht Hd]. cbn in Hd. rewrite andb_true_r in Hd. apply path_char_visible in Hd.
  destruct t as [|c t]; [by apply TrimSpace_visible1|]. cbn in Ht. apply andb_true_iff in Ht as [Hc%path_char_visible _].
  by apply TrimSpace_visible.
Qed.

(** The project's path is read back from its go.mod. *)
Lemma module_line_gomod m : module_path m → module_line (SplitByte nl (gomod_text m)) = m.
Proof.
  intros Hm. pose proof Hm as [Hne Hc].
  assert (Hn : no_byte nl ("module " +:+ m) = true) by (rewrite no_byte_app, (path_char_not nl m); done).
  assert (E : ∃ ls, SplitByte nl (gomod_text m) = ("module " +:+ m) :: ls).
  { unfold gomod_text. rewrite <-string_app_assoc. generalize dependent ("module " +:+ m).
    generalize (newline +:+ ("go " +:+ (goDirective +:+ newline))). clear. intros rest s. unfold no_byte.
    induction s as [|c s IH]; cbn [string_forall String.append SplitByte newline].
    - intros _. change (Ascii.eqb "010" nl) with true. by eexists.
    - intros [Hc Hs]%andb_true_iff. apply negb_true_iff in Hc. destruct (IH Hs) as [ls E].
      change ((s +:+ newline) +:+ rest) with ((s +:+ newline) +:+ rest) in E. exists ls.
      change (SplitByte nl (String c (s +:+ newline +:+ rest)) = String c s :: ls). cbn [SplitByte]. by rewrite Hc, E. }
  destruct E as [ls ->]. cbn [module_line].
  destruct (last_char m Hne) as (t & d & Ed).
  assert (Ht : TrimSpace ("module " +:+ m) = "module " +:+ m).
  { rewrite Ed in Hc |- *. rewrite string_forall_app in Hc. apply andb_true_iff in Hc as [_ Hd].
    cbn in Hd. rewrite andb_true_r in Hd. apply path_char_visible in Hd.
    exact (TrimSpace_visible "m" ("odule " +:+ t) d eq_refl Hd). }
  rewrite Ht. unfold CutPrefix. rewrite HasPrefix_app. rewrite drop_bytes_length. by apply TrimSpace_path.
Qed.

Section new_module.
Context `{Unicode} `{RuneClasses}.

Lemma project_files_lists_of : Forall (λ f, ∃ l, l ∈ project_lists ∧ l ≠ [] ∧ Forall plain l ∧ f.2 = Join l "/") files.
Proof.
  pose proof project_lists_plain as Hp. rewrite Forall_forall in Hp. apply Forall_forall. intros f Hf.
  assert (Hin : f.2 ∈ map snd files) by (apply list_elem_of_fmap; by exists f).
  rewrite project_files_lists in Hin. apply list_elem_of_fmap in Hin as (l & El & Hl). exists l.
  split_and!; [done| |by apply Hp|done]. intros ->. unfold project_lists in Hl. set_solver.
Qed.

Lemma GenerateProject_folders faults p d r d' q :
  GenerateProject faults p d = (r, d') → q ∈ folders d' → q ∈ folders d ∨ above (project_dir p) project_lists q.
Proof.
  unfold GenerateProject, mbind, IO_bind, checked. destruct (validName (Name p)) eqn:Hv; [intros [= _ <-]; by left|].
  destruct (validModule _); [intros [= _ <-]; by left|].
  destruct (emptyOrAbsent _ _ d) as [[[]|e] d1] eqn:E1; apply emptyOrAbsent_spec in E1 as ([_ Ef] & _);
    rewrite <-Ef; [|intros [= _ <-]; by left].
  intros E. eapply write_files_folders; [by apply validName_dir|apply project_files_lists_of|exact E].
Qed.

Lemma project_data_keys p :
  project_data p !! "Name" = Some (Name p) ∧ project_data p !! "Module" = Some (project_module p)
  ∧ project_data p !! "Go" = Some goDirective.
Proof. unfold project_data. split_and!; by simplify_map_eq. Qed.

(** A name [startapp] accepts that the project does not use yet. *)
Definition new_name (name : string) : Prop :=
  validPackageName name = None ∧ name ≠ "home" ∧ name ≠ "justfile".

Lemma new_name_free name l : new_name name → l ∈ project_lists → ∀ L, l ≠ name :: L.
Proof.
  intros (Hv & Hh & Hj) Hl L ->. destruct (package_name_plain _ Hv) as [_ _].
  assert (Hdot : contains_byte "." name = false).
  { apply not_true_iff_false. intros E. apply package_names_identifiers in Hv as [_ Hi]. unfold IsIdentifier in Hi.
    rewrite !andb_true_iff in Hi. apply (name_bytes name) in E; [|apply Hi|done]. change (byte ".") with 46%Z in E. lia. }
  unfold project_lists in Hl. repeat (apply elem_of_cons in Hl as [E|Hl]; [injection E as -> _; done|]).
  by apply elem_of_nil in Hl.
Qed.

Lemma package_free faults p d d1 name :
  wf d → acceptable p d → new_name name → GenerateProject faults p d = (Ok (), d1) →
  ¬ at_path d1 (package_dir (mkModule name (project_dir p))).
Proof.
  intros Hwf (Hv & _ & Hcl & _ & Hvac) Hname E. pose proof (validName_dir p Hv) as Hd.
  destruct (package_name_plain _ (proj1 Hname)) as [Hp _].
  set (m := mkModule name (project_dir p)). destruct (package_layout m Hp) as (_ & -> & _).
  assert (Em : module_dir m = project_dir p) by (unfold module_dir; cbn; by rewrite (proj2 (String.eqb_neq _ _) Hd)).
  rewrite Em. cbn [module_Name m]. set (r := rooted _). set (L := elems (project_dir p)).
  pose proof (elems_clean (project_dir p)) as HE. fold r L in HE. pose proof project_lists_plain as Hpl. rewrite Forall_forall in Hpl.
  assert (Hc : clean_list r (L ++ [name])) by (apply clean_list_app; [done|all_plain]).
  assert (Hno : ¬ at_path d (path_of r (L ++ [name]))).
  { apply vacant_below; [done..|]. unfold r, L. by rewrite <-Clean_elems, Hcl. }
  destruct (GenerateProject_run faults p d _ d1 Hwf E) as (Hk & _). intros [Hf|[x Hx]].
  - eapply GenerateProject_folders in Hf as [Hf|(l & L1 & L2 & Hl & El & Hne & Eq)]; [by destruct Hno; left| |exact E].
    fold r L in El, Eq. pose proof (clean_list_app _ _ _ HE (Hpl l Hl)) as Hcl'. rewrite El in Hcl'.
    apply path_of_inj in Eq as [_ <-]; [|done|by apply clean_list_prefix in Hcl'].
    rewrite <-app_assoc in El. apply app_inv_head in El. by apply (new_name_free name l Hname Hl L2).
  - rewrite Hk in Hx; [destruct Hno; right; by eexists|]. rewrite paths_list by done. fold r L.
    intros (l & Eq & Hl)%list_elem_of_fmap. apply path_of_inj in Eq as [_ Eq]; [|done|apply clean_list_app; auto].
    apply app_inv_head in Eq. by apply (new_name_free name l Hname Hl []).
Qed.

(** A module in a project just written.  When no call fails, [fabrin new] on an
    acceptable request and then [fabrin startapp] with a name the project does not
    use both succeed: main.go becomes the same text with the module's import among
    the project's own in order and its constructor as the last argument, the
    package's two files are written, and nothing else is touched.  Of Go's parser it
    is assumed that it finds the call and the imports where they are in the
    generated text, and the call in the edited one. *)
Theorem new_then_startapp faults ParseFile p name d f edited c' :
  (∀ n, faults n = None) → wf d → acceptable p d →
  module_path (project_module p) → own_project (project_module p) → new_name name →
  let m := mkModule name (project_dir p) in
  let main := main_text (Name p) (project_module p) in
  let wired := wired_text (Name p) (project_module p) name in
  ParseFile (main_path m) main = Ok f → reads_main (Name p) (project_module p) f →
  ParseFile (main_path m) wired = Ok edited → findNewCall edited = Some c' →
  ∃ d1 d2, GenerateProject faults p d = (Ok (), d1) ∧ contents d1 !! main_path m = Some main
    ∧ GenerateModule faults ParseFile m d1 = (Ok (), d2)
    ∧ with_module m (project_module p) wired (contents d1) (contents d2).
Proof.
  intros Hn Hwf Hacc Hm Hown Hname m main wired Hparse Hreads Hparse' Hcall.
  destruct (GenerateProject faults p d) as [r d1] eqn:E.
  pose proof (GenerateProject_run faults p d r d1 Hwf E) as (_ & _ & _ & Hfiles & Hok). specialize (Hok Hn Hacc). subst r.
  pose proof (validName_dir p (proj1 Hacc)) as Hd. pose proof (GenerateProject_wf _ _ _ _ _ Hwf E) as Hwf1.
  destruct (project_data_keys p) as (K1 & K2 & K3). destruct (package_name_plain _ (proj1 Hname)) as [_ Hslash].
  assert (Em : module_dir m = project_dir p) by (unfold module_dir; cbn; by rewrite (proj2 (String.eqb_neq _ _) Hd)).
  assert (Hmain : contents d1 !! main_path m = Some main).
  { destruct (Hfiles eq_refl ("main.go.tmpl", "main.go")) as (t & Ht & Hc); [right; by left|].
    cbn [fst] in Ht. rewrite (main_rendered _ _ _ K1 K2) in Ht. injection Ht as <-. unfold main_path. by rewrite Em. }
  assert (Hgo : contents d1 !! gomod_path m = Some (gomod_text (project_module p))).
  { destruct (Hfiles eq_refl ("go.mod.tmpl", "go.mod")) as (t & Ht & Hc); [by left|].
    cbn [fst] in Ht. rewrite (gomod_rendered _ _ K2 K3) in Ht. injection Ht as <-. unfold gomod_path. by rewrite Em. }
  pose proof (package_free faults p d d1 name Hwf Hacc Hname E) as Hfree.
  pose proof (module_line_gomod _ Hm) as Hline.
  destruct (GenerateModule_run faults Hn ParseFile m d1 (gomod_text (project_module p)) main wired) as (d2 & E2 & Hw);
    rewrite ?Hline; try done; [apply Hname|apply Hm| |].
  { eapply wire_generated; [..|exact Hparse'|exact Hcall]; try done. apply Hname. }
  rewrite Hline in Hw. by exists d1, d2.
Qed.
End new_module.
