(* ===== verification/ScaffoldCmd.v ===== *)
(** * The fabrin binary: cmd/fabrin/main.go

    Its three commands over a disk and an output, dispatched by package [cli].  The go
    command that [tidy] runs and the build information are parameters. *)

From S2P Require Import Prelude GoStrings Token Flag Cli Paths Scaffold ScaffoldModule.

Section fabrin.
Context `{Unicode} `{RuneClasses}.
Context {O : Type}.
(** [io.WriteString(out, s)] and what [main] prints of an error. *)
Context (put : string → O → option string * O) (put_err : cli_error → O → O).
Context (faults : nat → option fault) (ParseFile : string → string → result string file).

Record tool := mkTool { on_disk : disk; output : O }.

Definition write (s : string) (w : tool) : option string * tool :=
  let '(err, o) := put s (output w) in (err, mkTool (on_disk w) o).
Definition write_error (err : cli_error) (w : tool) : tool := mkTool (on_disk w) (put_err err (output w)).
(** A generator's run, on the disk. *)
Definition generate (m : IO ()) (w : tool) : option string * tool :=
  match m (on_disk w) with
  | (Ok _, d) => (None, mkTool d (output w))
  | (Err e, d) => (Some e, mkTool d (output w))
  end.
(** [if err := first; err != nil { return err }; rest]. *)
Definition then_ (first rest : tool → option string * tool) (w : tool) : option string * tool :=
  match first w with
  | (Some err, w') => (Some err, w')
  | (None, w') => rest w'
  end.

(** The environment's GO, [exec.Cmd.Run] of [go mod tidy] in a folder, with its output
    on [out], and the version [debug.ReadBuildInfo] finds. *)
Context (GO : string) (mod_tidy : string → string → tool → option string * tool) (build_version : option string).

Definition tidy (dir : string) : tool → option string * tool :=
  then_ (write ("resolving dependencies (go mod tidy)…" +:+ newline))
    (λ w, let goBin := if String.eqb GO "" then "go" else GO in
          match mod_tidy goBin dir w with
          | (Some err, w') =>
              (Some ("fabrin: the project was created, but `go mod tidy` failed in " +:+ dir +:+ ": " +:+ err +:+ newline
                     +:+ "    Run it yourself once you are online, or pass -skip-tidy next time"), w')
          | (None, w') => (None, w')
          end).

Definition version : string :=
  match build_version with
  | None => "unknown"
  | Some v => if String.eqb v "" then "unknown" else v
  end.

(** The flags' variables after parsing, with their defaults. *)
Definition flag_module (set : actual) : string := default "" (set !! "module").
Definition flag_dir (set : actual) : string := default "." (set !! "dir").
Definition flag_skipTidy (set : actual) : bool := String.eqb (default "false" (set !! "skip-tidy")) "true".

Definition new_flags : formal := {["module" := StringFlag; "dir" := StringFlag; "skip-tidy" := BoolFlag]}.
Definition startapp_flags : formal := {["dir" := StringFlag]}.

Definition new_project_of (set : actual) (name : string) : Project :=
  mkProject name (flag_module set) (path_join [flag_dir set; name]).

Definition run_new (set : actual) (args : list string) : tool → option string * tool :=
  match args with
  | [name] =>
      let p := new_project_of set name in
      then_ (generate (GenerateProject faults p))
     (then_ (write ("created " +:+ Dir p +:+ newline))
     (then_ (if flag_skipTidy set then λ w, (None, w) else tidy (Dir p))
            (write (newline +:+ "    cd " +:+ Dir p +:+ newline +:+ "    just run" +:+ newline))))
  | _ => λ w, (Some "fabrin: new takes exactly one name — try `fabrin new myapp`", w)
  end.

Definition run_startapp (set : actual) (args : list string) : tool → option string * tool :=
  match args with
  | [name] =>
      then_ (generate (GenerateModule faults ParseFile (mkModule name (flag_dir set))))
            (write ("created " +:+ path_join [flag_dir set; name] +:+ "/ and wired it into "
                    +:+ path_join [flag_dir set; "main.go"] +:+ newline +:+ newline
                    +:+ "    go run . routes" +:+ newline))
  | _ => λ w, (Some "fabrin: startapp takes exactly one name — try `fabrin startapp billing`", w)
  end.

Definition run_version (_ : actual) (_ : list string) : tool → option string * tool :=
  write ("fabrin " +:+ version +:+ newline).

(** What [flag.PrintDefaults] prints of the two flag sets. *)
Context (new_defaults startapp_defaults : string).

Definition new_command : Command (W := tool) :=
  {| cmd_name := "new"; cmd_short := "scaffold a runnable Fabrin project";
     cmd_flags := new_flags; cmd_defaults := new_defaults; cmd_run := Some run_new |}.
Definition startapp_command : Command (W := tool) :=
  {| cmd_name := "startapp"; cmd_short := "scaffold a module into this project and wire it in";
     cmd_flags := startapp_flags; cmd_defaults := startapp_defaults; cmd_run := Some run_startapp |}.
Definition version_command : Command (W := tool) :=
  {| cmd_name := "version"; cmd_short := "print this tool's version";
     cmd_flags := ∅; cmd_defaults := ""; cmd_run := Some run_version |}.
Definition commands : list Command := [new_command; startapp_command; version_command].

(** [main]: the exit status. *)
Definition main (args : list string) (w : tool) : Z * tool :=
  match Dispatch write commands args w with
  | (Some err, w') => (1%Z, write_error err w')
  | (None, w') => (0%Z, w')
  end.
End fabrin.
