(* ===== verification/ScaffoldCmdSpec.v ===== *)
(** * The fabrin binary: its commands from the command line

    What [fabrin new] and [fabrin startapp] do to the disk and how they exit, for
    every way of writing their arguments. *)

From S2P Require Import Prelude GoStrings Token Flag Cli CliSpec Paths Scaffold ScaffoldSpec ScaffoldModule.
From S2P Require Import ScaffoldModuleSpec ScaffoldProject ScaffoldCmd.

Section fabrin.
#[local] Set Default Proof Using "Type*".
Context `{Unicode} `{RuneClasses}.
Context {O : Type} (put : string → O → option string * O) (put_err : cli_error → O → O).
Context (faults : nat → option fault) (ParseFile : string → string → result string file).
Context (GO : string) (mod_tidy : string → string → tool (O:=O) → option string * tool (O:=O)) (build_version : option string).
Context (new_defaults startapp_defaults : string).

Abbreviation fabrin := (main put put_err faults ParseFile GO mod_tidy build_version new_defaults startapp_defaults).
Abbreviation cmds := (commands put faults ParseFile GO mod_tidy build_version new_defaults startapp_defaults).

Lemma commands_distinct : NoDup (map cmd_name cmds).
Proof. apply (bool_decide_unpack (NoDup ["new"; "startapp"; "version"])). vm_compute. done. Qed.

(** A command line of one of the commands runs it on what the line says. *)
Lemma fabrin_run c run items w :
  c ∈ cmds → isHelp (cmd_name c) = false → cmd_run c = Some run → Forall (item_ok (cmd_flags c)) items →
  fabrin (cmd_name c :: (items ≫= CliSpec.render)) w
  = match run (assigned (cmd_flags c) items ∅) (positionals items) w with
    | (Some err, w') => (1%Z, write_error put_err (CommandFailed err) w')
    | (None, w') => (0%Z, w')
    end.
Proof.
  intros Hc Hh Hr Hi. unfold main.
  pose proof (Dispatch_interspersed (write put) cmds c run items None w commands_distinct Hc Hh Hr Hi) as E.
  cbn [default app] in E. rewrite !app_nil_r in E. rewrite E.
  by destruct (run _ _ w) as [[err|] w'].
Qed.

Lemma generate_run m w : generate (O:=O) m w
  = (match fst (m (on_disk w)) with Ok _ => None | Err e => Some e end, mkTool (snd (m (on_disk w))) (output w)).
Proof. unfold generate. by destruct (m (on_disk w)) as [[[]|e] d]. Qed.

Lemma write_on_disk s w : on_disk (snd (write put s w)) = on_disk w.
Proof. unfold write. by destruct (put s (output w)). Qed.

(** What [new] leaves: the generator's disk and its refusal, or, once the project is
    written, the disk as [go mod tidy] left it, whatever it and the output answer. *)
Lemma run_new_disk set name w err w' d r :
  run_new put faults GO mod_tidy set [name] w = (err, w') →
  GenerateProject faults (new_project_of set name) (on_disk w) = (r, d) →
  match r with
  | Err e => err = Some e ∧ w' = mkTool d (output w)
  | Ok _ => on_disk w' = d
            ∨ flag_skipTidy set = false
              ∧ ∃ bin o, on_disk w' = on_disk (snd (mod_tidy bin (path_join [flag_dir set; name]) (mkTool d o)))
  end.
Proof.
  intros E Eg. unfold run_new in E. cbv zeta in E. unfold then_ in E at 1. rewrite generate_run, Eg in E. cbn [fst snd] in E.
  destruct r as [[]|e]; [|by injection E as <- <-].
  set (w1 := mkTool d (output w)) in E. cbn [Dir new_project_of] in E. set (dir := path_join [flag_dir set; name]) in *.
  assert (Hw : ∀ s x err y, write put s x = (err, y) → on_disk y = on_disk x)
    by (intros s x err' y Ew; pose proof (write_on_disk s x) as E0; by rewrite Ew in E0).
  unfold then_ in E at 1. destruct (write put _ w1) as [[e1|] w2] eqn:E1; apply Hw in E1; cbn in E1;
    [injection E as <- <-; by left|].
  unfold then_ in E at 1. destruct (flag_skipTidy set); [apply Hw in E; left; congruence|].
  destruct (tidy put GO mod_tidy dir w2) as [r3 w3] eqn:E3.
  assert (H3 : on_disk w3 = d ∨ ∃ bin o, on_disk w3 = on_disk (snd (mod_tidy bin dir (mkTool d o)))).
  { unfold tidy, then_ in E3. destruct (write put _ w2) as [[e4|] w4] eqn:E4; apply Hw in E4;
      [injection E3 as _ <-; left; congruence|]. right.
    exists (if String.eqb GO "" then "go" else GO), (output w4).
    assert (Ew : mkTool d (output w4) = w4) by (destruct w4 as [d4 o4]; cbn in *; congruence). rewrite Ew.
    by destruct (mod_tidy _ dir w4) as [[e5|] w5]; injection E3 as _ <-. }
  assert (Hfin : on_disk w' = on_disk w3) by (destruct r3; [by injection E as _ <-|by apply Hw in E]).
  rewrite Hfin. destruct H3; [by left|by right].
Qed.

(** Exit status and disk of [fabrin new], however its line is written.  Status 0 means
    that the project was generated; when the generator refuses or fails the status is 1
    and nothing runs after it; and once the project is written neither a failing output
    nor a failing [go mod tidy] takes it away: the disk is the generator's, or what
    [go mod tidy] made of it. *)
Theorem fabrin_new_status items name w :
  Forall (item_ok new_flags) items → positionals items = [name] →
  let set := assigned new_flags items ∅ in
  let '(status, w') := fabrin ("new" :: (items ≫= CliSpec.render)) w in
  let '(r, d) := GenerateProject faults (new_project_of set name) (on_disk w) in
  (status = 0%Z → r = Ok ())
  ∧ (∀ e, r = Err e → status = 1%Z ∧ on_disk w' = d)
  ∧ (r = Ok () → on_disk w' = d ∨ flag_skipTidy set = false
       ∧ ∃ bin o, on_disk w' = on_disk (snd (mod_tidy bin (path_join [flag_dir set; name]) (mkTool d o)))).
Proof.
  intros Hi Hp set. pose proof (fabrin_run (new_command put faults GO mod_tidy new_defaults) _ items w
    (list_elem_of_here _ _) eq_refl eq_refl Hi) as E. cbn [cmd_name cmd_flags new_command] in E. rewrite E, Hp. clear E.
  fold set. destruct (run_new put faults GO mod_tidy set [name] w) as [err w'] eqn:E.
  destruct (GenerateProject faults _ (on_disk w)) as [r d] eqn:Eg. pose proof (run_new_disk _ _ _ _ _ _ _ E Eg) as Hd.
  destruct r as [[]|e].
  - destruct err as [err|]; (split_and!; [done|done|]); intros _; exact Hd.
  - destruct Hd as [-> ->]. split_and!; [done| |done]. intros e' _. done.
Qed.

(** ** A session *)

End fabrin.
