(* ===== verification/ScaffoldExamples.v ===== *)
(** * Scaffolding by example

    A project on an empty disk, a module in it, and the theorems at these inputs. *)

From S2P Require Import Prelude GoStrings Token Paths ConfigSpec ScaffoldTemplates Scaffold ScaffoldSpec.
From S2P Require Import ScaffoldModule ScaffoldModuleSpec ScaffoldProject Flag Cli CliSpec ScaffoldCmd ScaffoldCmdSpec.

#[local] Existing Instance identity_tables.
#[local] Existing Instance ascii_classes.

Definition empty_disk : disk := mkDisk ∅ ∅ 0.
Definition demo : Project := mkProject "demo" "example.com/demo" "".
Definition demo_module : string := "example.com/demo".
Definition no_faults : nat → option fault := λ _, None.
(** The disk is full from the nth call on. *)
Definition full_from (n : nat) : nat → option fault := λ k,
  if (n <=? k)%nat then Some {| reason := "no space left on device"; leaves := Some ""; made := 0 |} else None.

Lemma empty_disk_wf : wf empty_disk.
Proof. split; unfold at_path; cbn; intros q Hq; [destruct Hq as [Hq|[x Hx]]..|]; set_solver. Qed.

Lemma demo_acceptable : acceptable demo empty_disk.
Proof. split_and!; try (vm_compute; reflexivity). left. vm_compute. reflexivity. Qed.

(** What the parser says of the generated file, and of the edited one. *)
Definition spec_at (p : string) : ImportSpec := {| Path := dq +:+ (p +:+ dq); Pos := 0; End_ := 0 |}.
Definition main_file : file :=
  [ImportDecl (map spec_at other_imports ++ [home_spec "demo" demo_module]) 0;
   OtherDecl (CallExpr (SelectorExpr (Ident "fabrin") "New") [] (Lparen (new_call "demo" demo_module))
                (Rparen (new_call "demo" demo_module)))].
Definition demo_parse (_ src : string) : result string file :=
  if String.eqb src (main_text "demo" demo_module) then Ok main_file
  else if Contains src "fabrin.New(" then Ok [OtherDecl (CallExpr (SelectorExpr (Ident "fabrin") "New") [] 0 1)]
  else Err "expected 'package'".

Lemma main_file_read : reads_main "demo" demo_module main_file.
Proof.
  split; [vm_compute; reflexivity|]. exists (map spec_at other_imports), 0. split; [reflexivity|vm_compute; reflexivity].
Qed.

Lemma demo_own : own_project demo_module.
Proof. unfold own_project, other_imports. repeat (apply Forall_cons_2; [vm_compute; reflexivity|]). apply Forall_nil_2. Qed.
Lemma demo_path : module_path demo_module.
Proof. split; [done|vm_compute; reflexivity]. Qed.

Lemma new_project_witness :
  ∃ d', GenerateProject no_faults demo empty_disk = (Ok (), d') ∧ is_Some (contents d' !! "demo/main.go")
        ∧ contents d' !! "demo/home/orders.go" = None.
Proof.
  destruct (GenerateProject no_faults demo empty_disk) as [r d'] eqn:E. exists d'.
  destruct (new_project no_faults demo empty_disk r d' empty_disk_wf E) as (Hk & _ & _ & Hf & Hok).
  specialize (Hok (λ _, eq_refl) demo_acceptable). subst r. split; [done|]. split.
  - destruct (Hf eq_refl ("main.go.tmpl", "main.go")) as (t & _ & Ht); [right; by left|]. by exists t.
  - rewrite Hk; [done|]. apply (bool_decide_unpack (_ ∉ _)). vm_compute. done.
Defined.

Lemma demo_siblings : siblings (fst (split_last (demo_module +:+ "/billing"))) (map spec_at other_imports ++ [home_spec "demo" demo_module])
  = [home_spec "demo" demo_module].
Proof. vm_compute. reflexivity. Qed.

Lemma import_in_order_witness :
  ∃ lo hi e, [home_spec "demo" demo_module] = lo ++ hi
    ∧ StronglySorted str_lt (paths lo ++ (demo_module +:+ "/billing") :: paths hi)
    ∧ insertImport (main_text "demo" demo_module) main_file (demo_module +:+ "/billing") = Ok e.
Proof.
  destruct (import_in_order (main_text "demo" demo_module) main_file (map spec_at other_imports ++ [home_spec "demo" demo_module]) 0
              (demo_module +:+ "/billing") eq_refl) as (lo & hi & e & Hs & Ho & He & _).
  - rewrite demo_siblings. by repeat constructor.
  - rewrite demo_siblings. apply (bool_decide_unpack (_ ∉ _)). vm_compute. done.
  - exists lo, hi, e. rewrite <-demo_siblings. done.
Defined.

Lemma demo_located : located (main_text "demo" demo_module) (new_call "demo" demo_module)
  (map spec_at other_imports ++ [home_spec "demo" demo_module]) 0.
Proof.
  split; [apply Nat.ltb_lt; vm_compute; reflexivity|apply Nat.leb_le; vm_compute; reflexivity| |apply Nat.le_0_l].
  intros s Hs. unfold other_imports in Hs. cbn [map app] in Hs.
  repeat (apply elem_of_cons in Hs as [->|Hs]; [split; apply Nat.leb_le; vm_compute; reflexivity|]).
  by apply elem_of_nil in Hs.
Qed.

Lemma wire_keeps_source_witness :
  ∃ out before between after imp arg,
    wire_text demo_parse "demo/main.go" (main_text "demo" demo_module) demo_module "billing" = Ok out
    ∧ main_text "demo" demo_module = before +:+ (between +:+ after)
    ∧ out = before +:+ (imp +:+ (between +:+ (arg +:+ after))).
Proof.
  destruct (wire_text demo_parse "demo/main.go" (main_text "demo" demo_module) demo_module "billing") as [out|e] eqn:E.
  - destruct (wire_keeps_source demo_parse "demo/main.go" (main_text "demo" demo_module) demo_module "billing" main_file
                (new_call "demo" demo_module) (map spec_at other_imports ++ [home_spec "demo" demo_module]) 0 out)
      as (b & m & a & i & g & H1 & H2 & _); [vm_compute; reflexivity|vm_compute; reflexivity|reflexivity|apply demo_located|exact E|].
    exists out, b, m, a, i, g. split; [exact E || reflexivity|]. split; [exact H1|exact H2].
  - exfalso. vm_compute in E. discriminate E.
Defined.

Definition billing : AppModule := mkModule "billing" "demo".

Lemma new_then_startapp_witness :
  ∃ d1 d2, GenerateProject no_faults demo empty_disk = (Ok (), d1)
    ∧ GenerateModule no_faults demo_parse billing d1 = (Ok (), d2)
    ∧ contents d2 !! "demo/main.go" = Some (wired_text "demo" demo_module "billing").
Proof.
  destruct (new_then_startapp no_faults demo_parse demo "billing" empty_disk main_file
              [OtherDecl (CallExpr (SelectorExpr (Ident "fabrin") "New") [] 0 1)] (mkCall 0 1))
    as (d1 & d2 & E1 & _ & E2 & code & test & _ & _ & Ec);
    [done|apply empty_disk_wf|apply demo_acceptable|apply demo_path|apply demo_own|by split; [vm_compute; reflexivity|]
    |vm_compute; reflexivity|apply main_file_read|vm_compute; reflexivity|vm_compute; reflexivity|].
  exists d1, d2. split; [exact E1|]. split; [exact E2|]. rewrite Ec. apply lookup_insert_eq.
Defined.

Lemma startapp_all_or_nothing_witness :
  ∃ r d', GenerateModule (full_from 0) demo_parse billing empty_disk = (r, d') ∧ contents d' !! "README.md" = None.
Proof.
  destruct (GenerateModule (full_from 0) demo_parse billing empty_disk) as [r d'] eqn:E. exists r, d'. split; [done|].
  destruct (startapp_all_or_nothing (full_from 0) demo_parse billing empty_disk r d' empty_disk_wf E) as [[Hk _] _].
  rewrite Hk; [done|vm_compute; discriminate|]. apply (bool_decide_unpack (_ ∉ _)). vm_compute. done.
Defined.

Lemma scaffold_keeps_files_witness :
  let d := snd (GenerateProject no_faults demo empty_disk) in
  let later := [(StartApp billing, full_from 20); (NewProject demo, no_faults)] in
  wf d ∧ (∀ text, contents d !! "demo/home/home.go" = Some text →
          contents (perform_all demo_parse later d) !! "demo/home/home.go" = Some text).
Proof.
  intros d later. assert (Hd : wf d) by (eapply (GenerateProject_wf no_faults demo empty_disk); [apply empty_disk_wf|apply surjective_pairing]).
  clearbody d. split; [exact Hd|]. intros text Ht. apply (scaffold_keeps_files demo_parse later d Hd); [exact Ht|].
  clear Hd Ht. intros x Hx. unfold later in Hx. apply elem_of_cons in Hx as [Hx|Hx].
  - rewrite Hx. cbn [fst may_edit]. vm_compute. discriminate.
  - apply list_elem_of_singleton in Hx. rewrite Hx. exact id.
Defined.

(** ** From the command line *)

Definition said (x : string) (o : list string) : option string * list string := (None, o ++ [x]).
Definition complained (err : cli_error) (o : list string) : list string := o ++ ["error"].
(** [go mod tidy] without a network. *)
Definition offline (bin dir : string) (w : tool (O := list string)) : option string * tool (O := list string) :=
  (Some "exit status 1", w).
Definition fabrin : list string → tool → Z * tool :=
  main said complained no_faults demo_parse "" offline None "" "".

Definition new_line : list item := [Positional "demo"; Joined "--" "module" "example.com/demo"].
Definition skipping_line : list item := new_line ++ [Switch "-" "skip-tidy"].
Definition startapp_line : list item := [Apart "-" "dir" "demo"; Positional "billing"].

Lemma new_line_ok : Forall (item_ok new_flags) new_line.
Proof. repeat apply Forall_cons_2; [done| |apply Forall_nil_2]. split_and!; [by right|by split_and!|by eexists]. Qed.
Lemma skipping_line_ok : Forall (item_ok new_flags) skipping_line.
Proof.
  apply Forall_app. split; [apply new_line_ok|]. apply Forall_cons_2; [|apply Forall_nil_2].
  split_and!; [by left|by split_and!|by exists "true"|done].
Qed.
Lemma startapp_line_ok : Forall (item_ok startapp_flags) startapp_line.
Proof.
  apply Forall_cons_2; [|apply Forall_cons_2; [done|apply Forall_nil_2]].
  split_and!; [by left|by split_and!|done|by exists "demo"|done].
Qed.

(** Offline, the status is 1 and the project is there. *)
Lemma fabrin_new_status_witness :
  let '(status, w') := fabrin ["new"; "demo"; "--module=example.com/demo"] (mkTool empty_disk []) in
  status = 1%Z ∧ is_Some (contents (on_disk w') !! "demo/main.go").
Proof.
  pose proof (fabrin_new_status said complained no_faults demo_parse "" offline None "" "" new_line "demo" (mkTool empty_disk [])
    new_line_ok eq_refl) as Hs. cbv zeta in Hs.
  change ("new" :: (new_line ≫= CliSpec.render)) with ["new"; "demo"; "--module=example.com/demo"] in Hs.
  unfold fabrin. destruct (main _ _ _ _ _ _ _ _ _ _ _) as [status w'] eqn:E.
  destruct (GenerateProject _ _ _) as [r d] eqn:Eg. destruct Hs as (_ & _ & Hd). split.
  - assert (Hst : status = fst (main said complained no_faults demo_parse "" offline None "" ""
      ["new"; "demo"; "--module=example.com/demo"] (mkTool empty_disk []))) by (by rewrite E).
    rewrite Hst. vm_compute. reflexivity.
  - assert (Hr : r = Ok () ∧ is_Some (contents d !! "demo/main.go")).
    { assert (Hx : (r, d) = GenerateProject no_faults (new_project_of (assigned new_flags new_line ∅) "demo") empty_disk) by by rewrite <-Eg.
      split; [change r with (fst (r, d))|change d with (snd (r, d)); apply (bool_decide_unpack (is_Some _))];
        rewrite Hx; vm_compute; done. }
    destruct Hr as [Hr Hin]. destruct (Hd Hr) as [-> | (_ & bin & o & ->)]; exact Hin.
Defined.


(** ** What the checks let through *)

(** Tables in which the runes of Latin-1 above 191 are letters. *)
Definition latin_classes : RuneClasses :=
  {| table_is_letter := λ r, (192 <=? r)%Z && (r <=? 255)%Z; table_is_digit := λ _, false; table_is_upper := λ _, false |}.
(** [état], in UTF-8. *)
Definition accented : string := String "195" (String "169" "tat").

(** The name is accepted, and the name of its test starts with U+FFFD: the first byte
    is upper-cased on its own. *)
Lemma accented_title :
  @validPackageName identity_tables latin_classes accented = None
  ∧ moduleData accented demo_module "demo" ("/" +:+ accented) !! "Title"
    = Some (encode_rune RuneError +:+ String "169" "tat").
Proof. split; vm_compute; reflexivity. Qed.

(** A newline is not among the whitespace that is refused. *)
Lemma newline_in_name : validName ("my" +:+ newline +:+ "app") = None ∧ validModule ("my" +:+ newline +:+ "app") = None.
Proof. split; vm_compute; reflexivity. Qed.

(** Names that are not those of an importable package, or that main.go already has. *)
Lemma names_accepted : Forall (λ name, validPackageName name = None) ["_"; "main"; "log"; "config"].
Proof. repeat (apply Forall_cons_2; [vm_compute; reflexivity|]). apply Forall_nil_2. Qed.

(** A comment after the module path of go.mod becomes part of the path. *)
Lemma commented_module_line :
  module_line (SplitByte nl ("module example.com/demo // Deprecated: moved" +:+ newline)) = "example.com/demo // Deprecated: moved".
Proof. vm_compute. reflexivity. Qed.

(** A call over several lines whose parenthesis closes on the line of an argument:
    the new argument goes before that one. *)
Definition wrapped_call : string :=
  "a := fabrin.New(" +:+ newline +:+ tab +:+ "opts," +:+ newline +:+ tab +:+ "home.New())" +:+ newline.
Lemma argument_not_last :
  splice wrapped_call (insertArgument wrapped_call (mkCall 15 35) "billing")
  = "a := fabrin.New(" +:+ newline +:+ tab +:+ "opts," +:+ newline +:+ tab +:+ tab +:+ "billing.New()," +:+ newline
    +:+ tab +:+ "home.New())" +:+ newline.
Proof. vm_compute. reflexivity. Qed.
