(* ===== verification/AgentCheck.v ===== *)
(** * Agent packets: tools/agentcheck/validator.go and its command

    The checks on dispatch packets and results: the JSON reader that wants every
    field, the validation of one task, of a fan-out of tasks, and of a result against
    its task.  Errors are the lines [errors.Join] prints; a nil slice is told from an
    empty one.  The JSON Schema engine is a parameter of the command. *)

From S2P Require Import Prelude GoStrings Json Paths Config Flag.

(** ** Patterns *)

Definition id_byte (c : ascii) : bool := is_lower c || is_digit c || contains_byte c "._-".
Definition idPattern (s : string) : bool :=
  match s with
  | String c (String _ _ as rest) => (is_lower c || is_digit c) && string_forall id_byte rest
  | _ => false
  end.
Definition rolePattern (s : string) : bool :=
  match s with
  | String c rest => is_lower c && string_forall (λ c, is_lower c || is_digit c || Ascii.eqb c "-") rest
  | "" => false
  end.
Definition shaPattern (s : string) : bool :=
  (String.length s =? 40)%nat && string_forall (λ c, is_digit c || in_range 97 102 c) s.
Definition issuePattern (s : string) : bool :=
  match s with
  | String c rest => Ascii.eqb c "#" && negb (String.eqb rest "") && string_forall is_digit rest
  | "" => false
  end.
Definition windowsAbsPath (s : string) : bool :=
  match s with
  | String c (String d (String e _)) =>
      (is_lower c || is_upper c) && Ascii.eqb d ":" && (Ascii.eqb e "\" || Ascii.eqb e "/")
  | _ => false
  end.

(** ** Packets *)

(** A Go slice: [None] is nil. *)
Definition slice (A : Type) : Type := option (list A).
Definition items {A} (s : slice A) : list A := default [] s.
Definition is_nil {A} (s : slice A) : bool := match s with None => true | Some _ => false end.

Record Access := mkAccess { Mode : string; OwnedPaths : slice string }.
Record Ports := mkPorts { SmokePortBase : Z; ScaffoldPort : Z }.
Record Task := mkTask {
  task_Schema : string; TaskID : string; Runtime : string; Role : string; Issue : string;
  Objective : string; Risk : string; BaseSHA : string; Worktree : string; task_Access : Access;
  Inputs : slice string; Invariants : slice string; AcceptanceCommands : slice string;
  ExclusiveResources : slice string; task_Ports : option Ports;
}.

Record Finding := mkFinding { Severity : string; finding_Summary : string; Evidence : string }.
Record Command := mkCommand {
  command_Command : string; Outcome : string; ExitCode : option Z; command_Summary : string }.
Record Result := mkResult {
  result_Schema : string; result_TaskID : string; result_Runtime : string; result_Role : string;
  Status : string; ObservedBaseSHA : string; ObservedHeadSHA : string;
  ChangedPaths : slice string; Findings : slice Finding; Commands : slice Command;
  Assumptions : slice string; Risks : slice string; Blockers : slice string; Handback : string;
}.

(** ** Reading packets *)

(** [null] makes a slice or a pointer nil. *)
Definition dec_items {A} (dec : A → json → option A) (zero : A) (cur : slice A) (v : json) : option (slice A) :=
  match v with
  | JNull => Some None
  | JArr l => Some <$> dec_elems dec zero (items cur) l
  | _ => None
  end.
Definition dec_pointer {A} (dec : A → json → option A) (zero : A) (cur : option A) (v : json) : option (option A) :=
  match v with JNull => Some None | _ => Some <$> dec (default zero cur) v end.
Definition dec_strings : slice string → json → option (slice string) := dec_items dec_string "".
(** A field decoded when it is the one the key names. *)
Definition field {A} (k n : string) (dec : A → json → option A) (cur : A) (v : json) : option A :=
  if String.eqb k n then dec cur v else Some cur.

Definition dec_access : Access → json → option Access :=
  dec_struct true ["mode"; "owned_paths"] (λ k a v,
    m ← field k "mode" dec_string (Mode a) v;
    o ← field k "owned_paths" dec_strings (OwnedPaths a) v;
    Some (mkAccess m o)).
Definition dec_ports : Ports → json → option Ports :=
  dec_struct true ["smoke_port_base"; "scaffold_port"] (λ k p v,
    s ← field k "smoke_port_base" dec_int (SmokePortBase p) v;
    c ← field k "scaffold_port" dec_int (ScaffoldPort p) v;
    Some (mkPorts s c)).

Definition task_fields : list string := [
  "schema"; "task_id"; "runtime"; "role"; "issue"; "objective"; "risk";
  "base_sha"; "worktree"; "access"; "inputs"; "invariants";
  "acceptance_commands"; "exclusive_resources"; "ports"].
Definition dec_task : Task → json → option Task :=
  dec_struct true task_fields (λ k t v,
    schema ← field k "schema" dec_string (task_Schema t) v;
    id ← field k "task_id" dec_string (TaskID t) v;
    runtime ← field k "runtime" dec_string (Runtime t) v;
    role ← field k "role" dec_string (Role t) v;
    issue ← field k "issue" dec_string (Issue t) v;
    objective ← field k "objective" dec_string (Objective t) v;
    risk ← field k "risk" dec_string (Risk t) v;
    base ← field k "base_sha" dec_string (BaseSHA t) v;
    worktree ← field k "worktree" dec_string (Worktree t) v;
    access ← field k "access" dec_access (task_Access t) v;
    inputs ← field k "inputs" dec_strings (Inputs t) v;
    invariants ← field k "invariants" dec_strings (Invariants t) v;
    commands ← field k "acceptance_commands" dec_strings (AcceptanceCommands t) v;
    resources ← field k "exclusive_resources" dec_strings (ExclusiveResources t) v;
    ports ← field k "ports" (dec_pointer dec_ports (mkPorts 0 0)) (task_Ports t) v;
    Some (mkTask schema id runtime role issue objective risk base worktree access inputs invariants
            commands resources ports)).
Definition zero_task : Task :=
  mkTask "" "" "" "" "" "" "" "" "" (mkAccess "" None) None None None None None.

Definition dec_finding : Finding → json → option Finding :=
  dec_struct true ["severity"; "summary"; "evidence"] (λ k f v,
    s ← field k "severity" dec_string (Severity f) v;
    m ← field k "summary" dec_string (finding_Summary f) v;
    e ← field k "evidence" dec_string (Evidence f) v;
    Some (mkFinding s m e)).
Definition dec_command : Command → json → option Command :=
  dec_struct true ["command"; "outcome"; "exit_code"; "summary"] (λ k c v,
    n ← field k "command" dec_string (command_Command c) v;
    o ← field k "outcome" dec_string (Outcome c) v;
    x ← field k "exit_code" (dec_pointer dec_int 0%Z) (ExitCode c) v;
    s ← field k "summary" dec_string (command_Summary c) v;
    Some (mkCommand n o x s)).

Definition result_fields : list string := [
  "schema"; "task_id"; "runtime"; "role"; "status"; "observed_base_sha";
  "observed_head_sha"; "changed_paths"; "findings"; "commands"; "assumptions";
  "risks"; "blockers"; "handback"].
Definition dec_result : Result → json → option Result :=
  dec_struct true result_fields (λ k r v,
    schema ← field k "schema" dec_string (result_Schema r) v;
    id ← field k "task_id" dec_string (result_TaskID r) v;
    runtime ← field k "runtime" dec_string (result_Runtime r) v;
    role ← field k "role" dec_string (result_Role r) v;
    status ← field k "status" dec_string (Status r) v;
    base ← field k "observed_base_sha" dec_string (ObservedBaseSHA r) v;
    head ← field k "observed_head_sha" dec_string (ObservedHeadSHA r) v;
    changed ← field k "changed_paths" dec_strings (ChangedPaths r) v;
    findings ← field k "findings" (dec_items dec_finding (mkFinding "" "" "")) (Findings r) v;
    commands ← field k "commands" (dec_items dec_command (mkCommand "" "" None "")) (Commands r) v;
    assumptions ← field k "assumptions" dec_strings (Assumptions r) v;
    risks ← field k "risks" dec_strings (Risks r) v;
    blockers ← field k "blockers" dec_strings (Blockers r) v;
    handback ← field k "handback" dec_string (Handback r) v;
    Some (mkResult schema id runtime role status base head changed findings commands assumptions risks
            blockers handback)).
Definition zero_result : Result :=
  mkResult "" "" "" "" "" "" "" None None None None None None "".

Inductive decode_error :=
| Unreadable (reason : string)
| Undecodable (file : string)
| MoreThanOneValue (file : string)
| TrailingJSON (file : string)
| MissingField (file name : string).

(** The loop over the required fields. *)
Fixpoint check_required (file : string) (keys : list string) (required : list string) : option decode_error :=
  match required with
  | [] => None
  | f :: required' =>
      if existsb (String.eqb f) keys then check_required file keys required' else Some (MissingField file f)
  end.

(** [decode], on what [os.ReadFile] answers. *)
Definition decode {A} (dec : A → json → option A) (zero : A) (required : list string)
    (read : string → result string string) (file : string) : result decode_error A :=
  match read file with
  | Err e => Err (Unreadable e)
  | Ok data =>
      match decode_first data with
      | None => Err (Undecodable file)
      | Some (v, rest) =>
          match dec zero v with
          | None => Err (Undecodable file)
          | Some dst =>
              if negb (String.eqb (skip_ws rest) "") then
                match decode_first rest with
                | Some _ => Err (MoreThanOneValue file)
                | None => Err (TrailingJSON file)
                end
              else
                match v with
                | JObj kvs =>
                    match check_required file (map fst kvs) required with
                    | Some err => Err err
                    | None => Ok dst
                    end
                | _ =>  (* [null] leaves the map nil *)
                    match check_required file [] required with
                    | Some err => Err err
                    | None => Ok dst
                    end
                end
          end
      end
  end.

Definition ReadTask : (string → result string string) → string → result decode_error Task :=
  decode dec_task zero_task task_fields.
Definition ReadResult : (string → result string string) → string → result decode_error Result :=
  decode dec_result zero_result result_fields.

(** ** Validation *)

(** [append] under a condition, and [errors.Join]. *)
Definition complain (b : bool) (err : string) : list string := if b then [err] else [].
Definition errors_join (errs : list string) : option string :=
  match errs with [] => None | _ => Some (Join errs newline) end.

(** Owned paths are prefixes: a path owns itself and what is below it. *)
Definition owns (prefix candidate : string) : bool :=
  String.eqb candidate prefix || HasPrefix candidate (prefix +:+ "/").

Definition validRepoPath (value : string) : option string :=
  if String.eqb value "" || String.eqb value "." || negb (String.eqb value (Clean value))
     || HasPrefix value "/" || windowsAbsPath value
  then Some "must be a normalized repository-relative path"
  else if Contains value "\" || ContainsAny value "*?["
  then Some "must use literal slash-separated prefix semantics, not backslashes or globs"
  else if String.eqb value ".git" || HasPrefix value ".git/" || String.eqb value ".." || HasPrefix value "../"
  then Some "must not own repository control or parent paths"
  else None.

Definition resource_names : list string :=
  ["git-index"; "go-build-cache"; "loopback-ports"; "benchmark-cpu"; "final-validation"].

Section validate.
Context `{Unicode}.

(** The loop over the exclusive resources. *)
Fixpoint check_resources (seen : gset string) (l : list string) : list string :=
  match l with
  | [] => []
  | r :: l' =>
      complain (negb (existsb (String.eqb r) resource_names)) ("invalid exclusive resource " +:+ Quote r)
      ++ complain (bool_decide (r ∈ seen)) ("duplicate exclusive resource " +:+ Quote r)
      ++ check_resources ({[r]} ∪ seen) l'
  end.

Definition bad_port (p : Z) : bool := (p <? 1024)%Z || (65535 <? p)%Z.

Definition task_errors (task : Task) (roles : option (gmap string string)) : list string :=
  let roleAccess := match roles with Some m => m !! Role task | None => None end in
  let knownRole := match roleAccess with Some _ => true | None => false end in
  let has_roles := match roles with Some _ => true | None => false end in
  let mode := Mode (task_Access task) in
  let owned := OwnedPaths (task_Access task) in
  complain (negb (String.eqb (task_Schema task) "fabrin.agent-task/v1")) ("schema = " +:+ Quote (task_Schema task))
  ++ complain (negb (idPattern (TaskID task))) ("invalid task_id " +:+ Quote (TaskID task))
  ++ complain (negb (String.eqb (Runtime task) "codex") && negb (String.eqb (Runtime task) "claude")
               && negb (String.eqb (Runtime task) "cursor")) ("invalid runtime " +:+ Quote (Runtime task))
  ++ complain (negb (rolePattern (Role task)) || has_roles && negb knownRole) ("unknown role " +:+ Quote (Role task))
  ++ complain (negb (issuePattern (Issue task))) ("invalid issue " +:+ Quote (Issue task))
  ++ complain (String.eqb (TrimSpace (Objective task)) "" || (length (items (Invariants task)) =? 0)%nat)
       "objective and at least one invariant are required"
  ++ complain (negb (String.eqb (Risk task) "trivial") && negb (String.eqb (Risk task) "normal")
               && negb (String.eqb (Risk task) "high")) ("invalid risk " +:+ Quote (Risk task))
  ++ complain (negb (shaPattern (BaseSHA task))) ("invalid base_sha " +:+ Quote (BaseSHA task))
  ++ complain (negb (HasPrefix (Worktree task) "/") && negb (windowsAbsPath (Worktree task)))
       ("worktree " +:+ Quote (Worktree task) +:+ " is not an absolute POSIX or Windows path")
  ++ complain (negb (String.eqb mode "read-only") && negb (String.eqb mode "owned-write"))
       ("invalid access mode " +:+ Quote mode)
  ++ complain (has_roles && knownRole && negb (String.eqb (default "" roleAccess) mode))
       ("role " +:+ Quote (Role task) +:+ " requires access " +:+ Quote (default "" roleAccess)
        +:+ ", packet grants " +:+ Quote mode)
  ++ complain (String.eqb mode "read-only" && negb (length (items owned) =? 0)%nat) "read-only task has owned paths"
  ++ complain (String.eqb mode "owned-write" && (length (items owned) =? 0)%nat) "owned-write task has no owned paths"
  ++ complain (is_nil owned || is_nil (Inputs task) || is_nil (AcceptanceCommands task) || is_nil (ExclusiveResources task))
       "access paths, inputs, acceptance commands, and exclusive resources must be JSON arrays"
  ++ flat_map (λ value, complain (String.eqb (TrimSpace value) "") "packet string arrays must not contain empty values")
       (items (Inputs task) ++ items (Invariants task) ++ items (AcceptanceCommands task))
  ++ check_resources ∅ (items (ExclusiveResources task))
  ++ match task_Ports task with
     | Some p => complain (bad_port (SmokePortBase p) || bad_port (ScaffoldPort p))
                   "packet ports must be between 1024 and 65535"
     | None => []
     end
  ++ flat_map (λ o, match validRepoPath o with
                    | Some err => ["owned path " +:+ Quote o +:+ ": " +:+ err]
                    | None => []
                    end) (items owned).
Definition ValidateTask (task : Task) (roles : option (gmap string string)) : option string :=
  errors_join (task_errors task roles).

(** The first loop of [ValidateFanout]. *)
Fixpoint check_each (roles : option (gmap string string)) (seenIDs : gset string) (tasks : list Task) : list string :=
  match tasks with
  | [] => []
  | task :: tasks' =>
      match ValidateTask task roles with
      | Some err => ["task " +:+ Quote (TaskID task) +:+ ": " +:+ err]
      | None => []
      end
      ++ complain (bool_decide (TaskID task ∈ seenIDs)) ("duplicate task_id " +:+ Quote (TaskID task))
      ++ check_each roles ({[TaskID task]} ∪ seenIDs) tasks'
  end.

Definition ports_of (p : Ports) : list Z := [SmokePortBase p; ScaffoldPort p].

(** What two tasks must not share. *)
Definition pair_errors (a b : Task) : list string :=
  let both := Quote (TaskID a) +:+ " and " +:+ Quote (TaskID b) in
  let writing t := String.eqb (Mode (task_Access t)) "owned-write" in
  complain (negb (String.eqb (Runtime a) (Runtime b))) ("tasks " +:+ both +:+ " cross runtimes")
  ++ complain (negb (String.eqb (BaseSHA a) (BaseSHA b))) ("tasks " +:+ both +:+ " use different bases")
  ++ complain (writing a && writing b && String.eqb (Worktree a) (Worktree b))
       ("writable tasks " +:+ both +:+ " share worktree " +:+ Quote (Worktree a))
  ++ flat_map (λ x, flat_map (λ y, complain (String.eqb x y)
       ("tasks " +:+ both +:+ " both claim exclusive resource " +:+ Quote x)) (items (ExclusiveResources b)))
       (items (ExclusiveResources a))
  ++ match task_Ports a, task_Ports b with
     | Some p, Some q =>
         flat_map (λ x, flat_map (λ y, complain (x =? y)%Z ("tasks " +:+ both +:+ " both allocate port " +:+ Itoa x))
           (ports_of q)) (ports_of p)
     | _, _ => []
     end
  ++ (if negb (writing a) || negb (writing b) then []
      else flat_map (λ x, flat_map (λ y, complain (owns x y || owns y x)
             ("tasks " +:+ both +:+ " overlap at " +:+ Quote x +:+ " and " +:+ Quote y))
             (items (OwnedPaths (task_Access b)))) (items (OwnedPaths (task_Access a)))).

(** The loops over [i < j]. *)
Fixpoint pairs_errors (tasks : list Task) : list string :=
  match tasks with
  | [] => []
  | a :: tasks' => flat_map (pair_errors a) tasks' ++ pairs_errors tasks'
  end.

Definition fanout_errors (tasks : list Task) (roles : option (gmap string string)) : list string :=
  complain (3 <? length tasks)%nat
    ("fanout has " +:+ Itoa (Z.of_nat (length tasks)) +:+ " workers; maximum is 3")
  ++ check_each roles ∅ tasks ++ pairs_errors tasks.
Definition ValidateFanout (tasks : list Task) (roles : option (gmap string string)) : option string :=
  errors_join (fanout_errors tasks roles).

Definition ValidateLead (tasks : list Task) (runtime base : string) : option string :=
  if negb (String.eqb runtime "codex") && negb (String.eqb runtime "claude") && negb (String.eqb runtime "cursor")
  then Some ("invalid Lead runtime " +:+ Quote runtime)
  else if negb (shaPattern base) then Some ("invalid integration base " +:+ Quote base)
  else errors_join (flat_map (λ task,
         complain (negb (String.eqb (Runtime task) runtime))
           ("task " +:+ Quote (TaskID task) +:+ " runtime " +:+ Quote (Runtime task) +:+ " differs from Lead " +:+ Quote runtime)
         ++ complain (negb (String.eqb (BaseSHA task) base))
              ("task " +:+ Quote (TaskID task) +:+ " base differs from integration base")) tasks).

Definition changed_errors (task : Task) (changed : string) : list string :=
  match validRepoPath changed with
  | Some err => ["changed path " +:+ Quote changed +:+ ": " +:+ err]
  | None =>
      if String.eqb (Mode (task_Access task)) "read-only" then ["read-only task changed " +:+ Quote changed]
      else complain (negb (existsb (λ prefix, owns prefix changed) (items (OwnedPaths (task_Access task)))))
             ("changed path " +:+ Quote changed +:+ " is outside task ownership")
  end.

Definition result_errors (task : Task) (r : Result) (roles : option (gmap string string)) : list string :=
  match ValidateTask task roles with Some err => ["assigned task: " +:+ err] | None => [] end
  ++ complain (negb (String.eqb (result_Schema r) "fabrin.agent-result/v1")) ("result schema = " +:+ Quote (result_Schema r))
  ++ complain (negb (String.eqb (result_TaskID r) (TaskID task)) || negb (String.eqb (result_Runtime r) (Runtime task))
               || negb (String.eqb (result_Role r) (Role task))) "result identity does not match assigned task"
  ++ complain (negb (String.eqb (ObservedBaseSHA r) (BaseSHA task)) || negb (String.eqb (ObservedHeadSHA r) (BaseSHA task)))
       "stale result or worker-created commit: observed SHAs must equal assigned base"
  ++ complain (negb (String.eqb (Status r) "completed") && negb (String.eqb (Status r) "blocked")
               && negb (String.eqb (Status r) "failed")) ("invalid result status " +:+ Quote (Status r))
  ++ complain (String.eqb (Status r) "completed" && negb (length (items (Blockers r)) =? 0)%nat)
       "completed result has blockers"
  ++ complain (String.eqb (TrimSpace (Handback r)) "") "result handback is empty"
  ++ complain (is_nil (ChangedPaths r) || is_nil (Findings r) || is_nil (Commands r) || is_nil (Assumptions r)
               || is_nil (Risks r) || is_nil (Blockers r)) "result collection fields must be JSON arrays"
  ++ flat_map (λ f,
       complain (negb (existsb (String.eqb (Severity f)) ["critical"; "high"; "medium"; "low"; "note"]))
         ("invalid finding severity " +:+ Quote (Severity f))
       ++ complain (String.eqb (TrimSpace (finding_Summary f)) "" || String.eqb (TrimSpace (Evidence f)) "")
            "finding summary and evidence are required") (items (Findings r))
  ++ flat_map (λ c,
       complain (negb (existsb (String.eqb (Outcome c)) ["passed"; "failed-expected"; "failed-unexpected"; "not-run"]))
         ("invalid command outcome " +:+ Quote (Outcome c))
       ++ complain (String.eqb (TrimSpace (command_Command c)) "" || String.eqb (TrimSpace (command_Summary c)) "")
            "command and summary are required") (items (Commands r))
  ++ flat_map (λ value, complain (String.eqb (TrimSpace value) "") "result string arrays must not contain empty values")
       (items (Assumptions r) ++ items (Risks r) ++ items (Blockers r))
  ++ flat_map (changed_errors task) (items (ChangedPaths r)).
Definition ValidateResult (task : Task) (r : Result) (roles : option (gmap string string)) : option string :=
  errors_join (result_errors task r roles).
End validate.
