(* ===== verification/AgentSpec.v ===== *)
(** * Agent packets: what acceptance means

    Ownership is below-ness of paths; packets that pass the fan-out check own
    disjoint parts of the repository, and results that pass against them changed
    disjoint sets of files, all inside the repository and outside [.git]. *)

From S2P Require Import Prelude GoStrings Json Paths AgentCheck.

(** ** Errors *)

Lemma errors_join_None errs : errors_join errs = None ↔ errs = [].
Proof. by destruct errs. Qed.
Lemma complain_nil b e : complain b e = [] ↔ b = false.
Proof. by destruct b. Qed.
Lemma flat_map_nil {A B} (f : A → list B) l : flat_map f l = [] ↔ ∀ x, x ∈ l → f x = [].
Proof.
  induction l as [|x l IH]; cbn; [split; [by intros _ x ?%elem_of_nil|done]|].
  rewrite app_nil, IH. split.
  - intros [Hx Hl] y [->|Hy]%elem_of_cons; auto.
  - intros Hl. split; [apply Hl; left|]. intros y Hy. apply Hl. by right.
Qed.
Lemma found_nil (o : option string) (f : string → string) :
  match o with Some err => [f err] | None => [] end = [] ↔ o = None.
Proof. by destruct o. Qed.

(** ** Ownership *)

(** [b] is [a] or below it. *)
Definition below (a b : string) : Prop := b = a ∨ ∃ r, b = a +:+ String "/" r.

Lemma owns_below a b : owns a b = true ↔ below a b.
Proof.
  unfold owns, below. rewrite orb_true_iff, String.eqb_eq, HasPrefix_spec.
  split; (intros [?|[r ->]]; [by left|right; exists r]); by rewrite string_app_assoc.
Qed.

Lemma below_trans a b c : below a b → below b c → below a c.
Proof.
  intros [->|[r ->]]; [done|]. intros [->|[s ->]]; right; [by exists r|].
  exists (r +:+ String "/" s). by rewrite string_app_assoc.
Qed.

(** Two owners of a path are above one another. *)
Lemma below_comparable a b p : below a p → below b p → below a b ∨ below b a.
Proof.
  intros Ha Hb.
  assert (Ea : ∃ r, p = a +:+ r ∧ (r = "" ∨ ∃ s, r = String "/" s))
    by (destruct Ha as [->|[r ->]]; [exists ""; rewrite string_app_nil_r; auto|eauto]).
  assert (Eb : ∃ r, p = b +:+ r ∧ (r = "" ∨ ∃ s, r = String "/" s))
    by (destruct Hb as [->|[r ->]]; [exists ""; rewrite string_app_nil_r; auto|eauto]).
  clear Ha Hb. destruct Ea as (ra & -> & Hra), Eb as (rb & E & Hrb). revert b E.
  induction a as [|c a IH]; intros b E; cbn in E.
  - subst ra. destruct Hra as [Hra|[s Hra]]; destruct b as [|d b]; cbn in Hra; simplify_eq.
    + left. by left.
    + left. by left.
    + left. right. exists b. cbn. done.
  - destruct b as [|d b]; cbn in E.
    + subst rb. destruct Hrb as [|[s Hs]]; [done|]. injection Hs as -> Hs. right. right. by exists a.
    + injection E as <- E. destruct (IH b E) as [[->|[r ->]]|[->|[r ->]]].
      * left. by left.
      * left. right. by exists r.
      * left. by left.
      * right. right. by exists r.
Qed.

(** ** Paths of the repository *)

Definition literal_byte (c : ascii) : bool := negb (contains_byte c "\*?[").

(** What the check accepts: names below one another, none of them special, the first
    not [.git]; no backslash, no glob, no drive. *)
Definition repo_path (p : string) : Prop :=
  ∃ L, L ≠ [] ∧ Forall plain L ∧ head L ≠ Some ".git" ∧ p = Join L "/"
       ∧ string_forall literal_byte p = true ∧ windowsAbsPath p = false.

Lemma Join_SplitByte s : Join (SplitByte "/" s) "/" = s.
Proof.
  induction s as [|c s IH]; [done|]. cbn [SplitByte]. destruct (Ascii.eqb_spec c "/") as [->|_].
  - destruct (SplitByte "/" s) as [|w ws] eqn:E; [|by cbn in IH |- *; rewrite IH].
    destruct s; cbn in E; [done|]. repeat case_match; done.
  - destruct (SplitByte "/" s) as [|w [|x ws]] eqn:E; cbn in IH |- *; [by rewrite <-IH|by rewrite IH|].
    by rewrite <-IH.
Qed.

(** A path is [x] or below it when [x] is its first name. *)
Lemma below_head x p : no_byte "/" x = true → below x p ↔ head (SplitByte "/" p) = Some x.
Proof.
  intros Hx. split.
  - intros [->|[r ->]]; [by rewrite SplitByte_single|by rewrite SplitByte_app].
  - intros Hh. rewrite <-(Join_SplitByte p). destruct (SplitByte "/" p) as [|y [|z l]]; simplify_eq/=; [by left|].
    right. by exists (Join (z :: l) "/").
Qed.

Lemma literal_bytes p : Contains p "\" || ContainsAny p "*?[" = negb (string_forall literal_byte p).
Proof.
  unfold ContainsAny. induction p as [|c p IH]; [done|]. cbn [string_forall Contains HasPrefix].
  rewrite HasPrefix_empty, andb_true_r. rewrite !negb_andb in *. rewrite <-IH. unfold literal_byte.
  cbn [contains_byte]. rewrite !negb_involutive.
  destruct (Ascii.eqb "\" c), (Contains p "\"); cbn; rewrite ?orb_true_r; done.
Qed.

Lemma starts_below x p : String.eqb p x || HasPrefix p (x +:+ "/") = true ↔ below x p.
Proof. apply owns_below. Qed.

Lemma clean_names r L : clean_list r L → Forall (λ x, no_byte "/" x = true) L.
Proof. intros Hc. eapply Forall_impl; [by eapply clean_list_elements|]. by intros ? (_ & _ & ?). Qed.
#[local] Hint Resolve clean_names plain_no_slash : core.

(** A path is accepted exactly when it names something inside the repository and
    outside [.git]. *)
Lemma validRepoPath_exact p : validRepoPath p = None ↔ repo_path p.
Proof.
  unfold validRepoPath. rewrite literal_bytes.
  change (HasPrefix p ".git/") with (HasPrefix p (".git" +:+ "/")).
  change (HasPrefix p "../") with (HasPrefix p (".." +:+ "/")).
  rewrite <-(orb_assoc (String.eqb p ".git" || HasPrefix p (".git" +:+ "/"))).
  match goal with |- context [if ?b then Some "must be a normalized repository-relative path" else _] => destruct b eqn:E1 end.
  { split; [done|]. intros (L & Hne & Hp & _ & -> & _ & Hw). exfalso. revert E1.
    rewrite Clean_plain, String.eqb_refl, Hw by done. destruct Hp as [|x L Hx Hp]; [done|].
    destruct (Join_head_plain x L Hx) as [-> Hj]. rewrite (proj2 (String.eqb_neq _ _) Hj).
    destruct (String.eqb_spec (Join (x :: L) "/") ".") as [Ed|_]; [|done].
    assert (Es : x :: L = ["."]) by (rewrite <-(SplitByte_Join (x :: L)), Ed; [done|done|apply plain_no_slash; by constructor]).
    injection Es as -> ->. by destruct Hx as (_ & ? & _). }
  rewrite !orb_false_iff in E1. destruct E1 as [[[[E1 E2] E3] E4] E5].
  apply negb_false_iff, String.eqb_eq in E3. apply String.eqb_neq in E1, E2.
  destruct (string_forall literal_byte p) eqn:El; cbn [negb].
  2: { split; [done|]. intros (L & _ & _ & _ & _ & Hl & _). congruence. }
  assert (Hall : ∃ L, L ≠ [] ∧ clean_list false L ∧ p = Join L "/").
  { exists (elems p). pose proof (elems_clean p) as HE. unfold rooted in HE. rewrite E4 in HE.
    rewrite Clean_elems in E3. unfold rooted in E3. rewrite E4 in E3. unfold path_of in E3. split_and!; [|done|].
    - intros E0. rewrite E0 in E3. by cbn in E3.
    - destruct (String.eqb (Join (elems p) "/") "") eqn:Ej; [done|exact E3]. }
  destruct Hall as (L & Hne & HL & Ep).
  assert (Hhead : ∀ x, no_byte "/" x = true → (String.eqb p x || HasPrefix p (x +:+ "/") = true ↔ head L = Some x)).
  { intros x Hx. rewrite starts_below, below_head, Ep by done. by rewrite SplitByte_Join by eauto. }
  destruct (String.eqb p ".git" || HasPrefix p (".git" +:+ "/")) eqn:Eg; cbn [orb].
  { split; [done|]. intros (L' & Hne' & Hp' & Hh & Ep' & _). exfalso. apply Hh.
    apply Hhead in Eg; [|done]. rewrite <-Eg. f_equal. apply (Join_inj L' L); eauto. congruence. }
  destruct (String.eqb p ".." || HasPrefix p (".." +:+ "/")) eqn:Ed; cbn [orb].
  { split; [done|]. intros (L' & Hne' & Hp' & Hh & Ep' & _). exfalso. apply Hhead in Ed; [|done].
    destruct Hp' as [|y L' (_ & _ & Hy & Hy') Hp']; [done|]. apply Hy.
    assert (Es : y :: L' = L).
    { apply Join_inj; [done|done| | |congruence]; [constructor; [done|by apply plain_no_slash]|].
      eapply Forall_impl; [by eapply clean_list_elements|]. by intros ? (_ & _ & ?). }
    rewrite <-Es in Ed. by injection Ed. }
  split; [|done]. intros _. exists L. destruct HL as ([|n] & l & -> & Hl & _).
  - split_and!; try done. intros Hg. apply Hhead in Hg; [congruence|done].
  - assert (Hx : String.eqb p ".." || HasPrefix p (".." +:+ "/") = true) by by apply Hhead. congruence.
Qed.

(** ** Fan-outs *)

Section fanout.
Context `{Unicode}.

Definition owned (t : Task) (p : string) : Prop := ∃ prefix, prefix ∈ items (OwnedPaths (task_Access t)) ∧ below prefix p.
Definition writes (t : Task) : bool := String.eqb (Mode (task_Access t)) "owned-write".

(** What two tasks that pass may not share. *)
Record independent (a b : Task) : Prop := {
  same_runtime : Runtime a = Runtime b;
  same_base : BaseSHA a = BaseSHA b;
  own_worktrees : writes a = true → writes b = true → Worktree a ≠ Worktree b;
  own_resources : ∀ x, x ∈ items (ExclusiveResources a) → x ∉ items (ExclusiveResources b);
  own_ports : ∀ p q x, task_Ports a = Some p → task_Ports b = Some q → x ∈ ports_of p → x ∉ ports_of q;
  own_paths : writes a = true → writes b = true → ∀ p, owned a p → ¬ owned b p;
}.

Lemma nested_nil {A} (f : A → A → bool) (e : A → A → string) l k :
  flat_map (λ x, flat_map (λ y, complain (f x y) (e x y)) k) l = [] ↔ ∀ x y, x ∈ l → y ∈ k → f x y = false.
Proof.
  rewrite flat_map_nil. split.
  - intros Hl x y Hx Hy. specialize (Hl x Hx). rewrite flat_map_nil in Hl. by apply (complain_nil _ (e x y)), Hl.
  - intros Hl x Hx. apply flat_map_nil. intros y Hy. apply complain_nil. auto.
Qed.

Lemma pair_errors_independent a b : pair_errors a b = [] ↔ independent a b.
Proof.
  unfold pair_errors. cbv zeta. rewrite !app_nil, !complain_nil, !negb_false_iff, !String.eqb_eq, nested_nil.
  fold (writes a) (writes b).
  assert (Hports : match task_Ports a, task_Ports b with
     | Some p, Some q => flat_map (λ x, flat_map (λ y, complain (x =? y)%Z ("tasks " +:+ (Quote (TaskID a) +:+ " and " +:+ Quote (TaskID b)) +:+ " both allocate port " +:+ Itoa x))
           (ports_of q)) (ports_of p)
     | _, _ => []
     end = [] ↔ ∀ p q x, task_Ports a = Some p → task_Ports b = Some q → x ∈ ports_of p → x ∉ ports_of q).
  { destruct (task_Ports a) as [p|], (task_Ports b) as [q|]; try (split; [by intros _ ? ? ?|done]). rewrite nested_nil. split.
    - intros Hx p' q' x [= <-] [= <-] Hp Hq. specialize (Hx x x Hp Hq). lia.
    - intros Hx x y Hp Hq. apply Z.eqb_neq. intros ->. by eapply Hx. }
  rewrite Hports. clear Hports.
  assert (Hpaths : (if negb (writes a) || negb (writes b) then [] else
     flat_map (λ x, flat_map (λ y, complain (owns x y || owns y x)
             ("tasks " +:+ (Quote (TaskID a) +:+ " and " +:+ Quote (TaskID b)) +:+ " overlap at " +:+ Quote x +:+ " and " +:+ Quote y))
             (items (OwnedPaths (task_Access b)))) (items (OwnedPaths (task_Access a)))) = []
    ↔ (writes a = true → writes b = true → ∀ p, owned a p → ¬ owned b p)).
  { destruct (writes a), (writes b); cbn [negb orb]; try (split; [by intros _ ? ?|done]). rewrite nested_nil. split.
    - intros Hx _ _ p (x & Hin & Hb) (y & Hin' & Hb'). specialize (Hx x y Hin Hin').
      apply orb_false_iff in Hx as [H1 H2]. apply not_true_iff_false in H1, H2. rewrite owns_below in H1, H2.
      by destruct (below_comparable x y p Hb Hb').
    - intros Hx x y Hin Hin'. specialize (Hx eq_refl eq_refl). apply orb_false_iff. split; apply not_true_iff_false; rewrite owns_below; intros Hb.
      + apply (Hx y); [by exists x|]. exists y. split; [done|by left].
      + apply (Hx x); [exists x; split; [done|by left]|by exists y]. }
  rewrite Hpaths. clear Hpaths. split.
  - intros (H1 & H2 & H3 & H4 & H5 & H6). split; try done.
    + intros Ha Hb. rewrite Ha, Hb in H3. cbn in H3. by apply String.eqb_neq.
    + intros x Hx Hy. specialize (H4 x x Hx Hy). by rewrite String.eqb_refl in H4.
  - intros [H1 H2 H3 H4 H5 H6]. split_and!; try done.
    + destruct (writes a), (writes b); try done. cbn. by apply String.eqb_neq, H3.
    + intros x y Hx Hy. apply String.eqb_neq. intros ->. by eapply H4.
Qed.

Lemma pairs_errors_nil tasks :
  pairs_errors tasks = [] ↔ ∀ i j a b, (i < j)%nat → tasks !! i = Some a → tasks !! j = Some b → independent a b.
Proof.
  induction tasks as [|t tasks IH]; cbn [pairs_errors]; [split; [by intros _ ? ? ? ? _ ?|done]|].
  rewrite app_nil, flat_map_nil, IH. split.
  - intros [Ht Hr] [|i] [|j] a b Hij Ha Hb; [lia| |lia|].
    + cbn in Ha. injection Ha as <-. apply pair_errors_independent, Ht. cbn in Hb. by eapply list_elem_of_lookup_2.
    + apply (Hr i j); [lia|done|done].
  - intros Hall. split.
    + intros b [j Hj]%list_elem_of_lookup_1. apply pair_errors_independent, (Hall 0%nat (S j)); [lia|done|done].
    + intros i j a b Hij Ha Hb. apply (Hall (S i) (S j)); [lia|done|done].
Qed.

Lemma check_each_nil roles seen tasks :
  check_each roles seen tasks = [] ↔
  (∀ t, t ∈ tasks → ValidateTask t roles = None) ∧ NoDup (map TaskID tasks) ∧ ∀ t, t ∈ tasks → TaskID t ∉ seen.
Proof.
  revert seen. induction tasks as [|t tasks IH]; intros seen; cbn [check_each map].
  { split; [|done]. intros _. split_and!; [by intros ? ?%elem_of_nil|constructor|by intros ? ?%elem_of_nil]. }
  rewrite !app_nil, complain_nil, bool_decide_eq_false, found_nil, IH, NoDup_cons. split.
  - intros (H1 & H2 & H3 & H4 & H5). split_and!; [| |done|].
    + intros u [->|Hu]%elem_of_cons; auto.
    + intros (u & E & Hu)%list_elem_of_fmap. apply (H5 u Hu). rewrite <-E. set_solver.
    + intros u [->|Hu]%elem_of_cons; [done|]. specialize (H5 u Hu). set_solver.
  - intros (H1 & (H2 & H3) & H4). split_and!; [apply H1; left|apply H4; left| |done|].
    + intros u Hu. apply H1. by right.
    + intros u Hu. assert (TaskID u ≠ TaskID t).
      { intros E. apply H2. rewrite <-E. apply list_elem_of_fmap. by exists u. }
      assert (TaskID u ∉ seen) by (apply H4; by right). set_solver.
Qed.

Lemma fanout_accepted tasks roles :
  ValidateFanout tasks roles = None ↔
  (length tasks ≤ 3)%nat ∧ (∀ t, t ∈ tasks → ValidateTask t roles = None) ∧ NoDup (map TaskID tasks)
  ∧ ∀ i j a b, (i < j)%nat → tasks !! i = Some a → tasks !! j = Some b → independent a b.
Proof.
  unfold ValidateFanout, fanout_errors.
  rewrite errors_join_None, !app_nil, complain_nil, check_each_nil, pairs_errors_nil, Nat.ltb_ge.
  split; [intros (? & (? & ? & _) & ?); split_and!; done|].
  intros (? & ? & ? & ?). by split_and!.
Qed.

(** ** Tasks *)

Lemma task_modes t roles : ValidateTask t roles = None →
  (writes t = true ∨ Mode (task_Access t) = "read-only" ∧ items (OwnedPaths (task_Access t)) = [])
  ∧ ∀ p, p ∈ items (OwnedPaths (task_Access t)) → repo_path p.
Proof.
  unfold ValidateTask, task_errors. cbv zeta. rewrite errors_join_None, !app_nil, !complain_nil.
  intros (_ & _ & _ & _ & _ & _ & _ & _ & _ & Hm & _ & Hr & _ & _ & _ & _ & _ & Hp). split.
  - unfold writes. destruct (String.eqb_spec (Mode (task_Access t)) "owned-write"); [by left|right].
    destruct (String.eqb_spec (Mode (task_Access t)) "read-only") as [E|]; [|done]. split; [done|].
    cbn in Hr. apply negb_false_iff, Nat.eqb_eq in Hr. by apply length_zero_iff_nil.
  - intros p Hin. rewrite flat_map_nil in Hp. specialize (Hp p Hin). apply validRepoPath_exact.
    by destruct (validRepoPath p).
Qed.

(** What an accepted result may have changed. *)
Lemma result_changes t r roles : ValidateResult t r roles = None →
  ValidateTask t roles = None
  ∧ ∀ p, p ∈ items (ChangedPaths r) → repo_path p ∧ writes t = true ∧ owned t p.
Proof.
  unfold ValidateResult, result_errors. rewrite errors_join_None, !app_nil. intros (Ht & Hr).
  rewrite found_nil in Ht. split; [done|]. intros p Hp. destruct Hr as (_ & _ & _ & _ & _ & _ & _ & _ & _ & _ & Hc).
  rewrite flat_map_nil in Hc. specialize (Hc p Hp). unfold changed_errors in Hc.
  destruct (validRepoPath p) eqn:Ev; [done|]. split; [by apply validRepoPath_exact|].
  destruct (String.eqb_spec (Mode (task_Access t)) "read-only") as [|Hm]; [done|].
  apply complain_nil, negb_false_iff, existsb_exists in Hc as (x & Hin & Hx). apply owns_below in Hx. split.
  - destruct (proj1 (task_modes t roles Ht)) as [|[? _]]; done.
  - exists x. split; [by apply list_elem_of_In|done].
Qed.

(** Work fanned out does not collide when it comes back.  When a fan-out of packets
    passes and the results of two different ones pass against them, every path the
    results changed is inside the repository and outside [.git] and owned by its own
    task, which had write access; no path changed by one is changed by, above or below
    a path changed by the other; and the two tasks had the same runtime and base and
    worktrees of their own. *)
Theorem fanout_isolated tasks roles roles1 roles2 i j a b r s :
  ValidateFanout tasks roles = None → tasks !! i = Some a → tasks !! j = Some b → i ≠ j →
  ValidateResult a r roles1 = None → ValidateResult b s roles2 = None →
  (∀ p, p ∈ items (ChangedPaths r) → repo_path p ∧ writes a = true ∧ owned a p)
  ∧ (∀ q, q ∈ items (ChangedPaths s) → repo_path q ∧ writes b = true ∧ owned b q)
  ∧ (∀ p q, p ∈ items (ChangedPaths r) → q ∈ items (ChangedPaths s) →
       p ≠ q ∧ owns p q = false ∧ owns q p = false ∧ Worktree a ≠ Worktree b)
  ∧ Runtime a = Runtime b ∧ BaseSHA a = BaseSHA b.
Proof.
  intros Hf Ha Hb Hij Hr Hs. apply fanout_accepted in Hf as (_ & _ & _ & Hpairs).
  destruct (result_changes a r roles1 Hr) as [_ Hca], (result_changes b s roles2 Hs) as [_ Hcb].
  assert (Hind : Runtime a = Runtime b ∧ BaseSHA a = BaseSHA b
    ∧ (writes a = true → writes b = true → Worktree a ≠ Worktree b ∧ ∀ p, owned a p → ¬ owned b p)).
  { destruct (Nat.lt_gt_cases i j) as [Hl _]. destruct (Hl Hij) as [Hlt|Hlt].
    - destruct (Hpairs i j a b Hlt Ha Hb). by auto.
    - destruct (Hpairs j i b a Hlt Hb Ha) as [E1 E2 Hw _ _ Hp]. split_and!; [done|done|]. intros Hwa Hwb.
      split; [intros E; by apply Hw|]. intros p H1 H2. by apply (Hp Hwb Hwa p). }
  destruct Hind as (E1 & E2 & Hsep). split_and!; [done|done| |done|done]. intros p q Hp Hq.
  destruct (Hca p Hp) as (_ & Hwa & x & Hx & Hxp), (Hcb q Hq) as (_ & Hwb & y & Hy & Hyq).
  destruct (Hsep Hwa Hwb) as [Hwt Hno].
  assert (Hpq : ¬ below p q).
  { intros Hpq. apply (Hno q); [exists x; split; [done|by eapply below_trans]|by exists y]. }
  assert (Hqp : ¬ below q p).
  { intros Hqp. apply (Hno p); [by exists x|exists y; split; [done|by eapply below_trans]]. }
  rewrite <-owns_below in Hpq, Hqp. apply not_true_iff_false in Hpq, Hqp. split_and!; [|done..].
  intros ->. unfold owns in Hpq. by rewrite String.eqb_refl in Hpq.
Qed.
End fanout.
