(* ===== verification/AgentCmd.v ===== *)
(** * The agentcheck command: tools/cmd/agentcheck/main.go

    Reading the role catalogue and running the checks over packet files.  The schema
    engine, what [os.ReadFile] answers and the text of a decoding error are
    parameters; a run ends in a message on standard output or a failure. *)

From S2P Require Import Prelude GoStrings Json Paths Config Flag AgentCheck.

Section command.
Context `{Unicode}.
(** [os.ReadFile]; what [ValidateSchemaInstance] answers for a schema and a file; and
    the text of a decoding error. *)
Context (read : string → result string string) (schema_instance : string → string → option string).
Context (decode_text : decode_error → string).

Inductive failure :=
| Failed (message : string)  (** status 1 *)
| FlagsRefused (err : parse_end).  (** [flag.ExitOnError]: status 2, or 0 for help *)

(** What is printed, or how the run ends. *)
#[local] Abbreviation step := (result failure).
(** [if err != nil { fail(err.Error()) }]. *)
Definition need (err : option string) : step () :=
  match err with Some e => Err (Failed e) | None => Ok () end.
Definition read_packet {A} (r : result decode_error A) : step A :=
  match r with Ok a => Ok a | Err e => Err (Failed (decode_text e)) end.

(** The loop over the scanner's lines. *)
Fixpoint role_rows (lines : list string) (roles : gmap string string) : step (gmap string string) :=
  match lines with
  | [] => Ok roles
  | raw :: lines' =>
      if (MaxScanTokenSize <=? len raw)%Z then Err (Failed "bufio.Scanner: token too long")
      else
        let line := drop_cr raw in
        if String.eqb line "" || HasPrefix line "#" then role_rows lines' roles
        else match SplitByte "009" line with
             | name :: access :: _ => role_rows lines' (<[name := access]> roles)
             | _ => Err (Failed ("invalid role catalog row: " +:+ line))
             end
  end.
Definition readRoles (root : string) : step (gmap string string) :=
  match read (path_join [root; "docs"; "agents"; "catalog.tsv"]) with
  | Err e => Err (Failed e)
  | Ok text => role_rows (scan_lines text) ∅
  end.

Definition check_flags : formal := {["repo" := StringFlag; "runtime" := StringFlag; "base" := StringFlag]}.
Definition parse_flags (args : list string) : step (list string * actual) :=
  match Parse check_flags args ∅ with
  | (Parsed rest, set) => Ok (rest, set)
  | (err, _) => Err (FlagsRefused err)
  end.

Definition task_schema (root : string) : string := path_join [root; "docs"; "agents"; "schemas"; "task-packet.schema.json"].
Definition result_schema (root : string) : string := path_join [root; "docs"; "agents"; "schemas"; "result-packet.schema.json"].

Fixpoint read_tasks (root : string) (files : list string) : step (list Task) :=
  match files with
  | [] => Ok []
  | file :: files' =>
      _ ← need (schema_instance (task_schema root) file);
      task ← read_packet (ReadTask read file);
      tasks ← read_tasks root files';
      Ok (task :: tasks)
  end.

Definition run_task (args : list string) : step string :=
  '(rest, set) ← parse_flags args;
  let root := default ".." (set !! "repo") in
  _ ← need (if (length rest =? 0)%nat then Some "agentcheck task: provide one or more task packet files" else None);
  roles ← readRoles root;
  tasks ← read_tasks root rest;
  _ ← need (ValidateFanout tasks (Some roles));
  _ ← need (ValidateLead tasks (default "" (set !! "runtime")) (default "" (set !! "base")));
  Ok ("✓ agentcheck: " +:+ Itoa (Z.of_nat (length tasks)) +:+ " dispatch packet(s) are valid and non-overlapping." +:+ newline).

Definition run_result (args : list string) : step string :=
  '(rest, set) ← parse_flags args;
  let root := default ".." (set !! "repo") in
  match rest with
  | [task_file; result_file] =>
      _ ← need (schema_instance (task_schema root) task_file);
      _ ← need (schema_instance (result_schema root) result_file);
      task ← read_packet (ReadTask read task_file);
      r ← read_packet (ReadResult read result_file);
      roles ← readRoles root;
      _ ← need (ValidateResult task r (Some roles));
      _ ← need (ValidateLead [task] (default "" (set !! "runtime")) (default "" (set !! "base")));
      Ok ("✓ agentcheck: result matches its assignment, base, access, and ownership." +:+ newline)
  | _ => Err (Failed "agentcheck result: provide TASK.json RESULT.json")
  end.

Definition main (args : list string) : step string :=
  match args with
  | [] => Err (Failed "usage: agentcheck task|result [arguments]")
  | "task" :: rest => run_task rest
  | "result" :: rest => run_result rest
  | name :: _ => Err (Failed ("unknown command " +:+ name))
  end.
End command.
