(* ===== verification/AgentCmdSpec.v ===== *)
(** * The agentcheck command: from files to the repository

    What it means that the command has passed a dispatch and, later, its results. *)

From S2P Require Import Prelude GoStrings Json Paths Config Flag AgentCheck AgentSpec AgentCmd.

(** ** Reading *)

Lemma check_required_None file keys required :
  check_required file keys required = None ↔ ∀ f, f ∈ required → f ∈ keys.
Proof.
  induction required as [|f required IH]; cbn [check_required]; [split; [by intros _ ? ?%elem_of_nil|done]|].
  destruct (existsb (String.eqb f) keys) eqn:E.
  - apply existsb_exists in E as (k & Hk & ->%String.eqb_eq). apply list_elem_of_In in Hk. rewrite IH. split.
    + intros Hr x [->|Hx]%elem_of_cons; auto.
    + intros Hr x Hx. apply Hr. by right.
  - split; [done|]. intros Hr. apply not_true_iff_false in E. destruct E. apply existsb_exists. exists f.
    split; [|apply String.eqb_refl]. apply list_elem_of_In, Hr. left.
Qed.

(** A packet that is read is one JSON object and nothing else, with every field
    present, by its exact name, and no field unknown. *)
Lemma decode_strict {A} (dec : A → json → option A) zero required read file a :
  required ≠ [] → decode dec zero required read file = Ok a →
  ∃ data kvs rest, read file = Ok data ∧ decode_first data = Some (JObj kvs, rest) ∧ skip_ws rest = ""
    ∧ dec zero (JObj kvs) = Some a ∧ ∀ f, f ∈ required → f ∈ map fst kvs.
Proof.
  intros Hne. unfold decode. destruct (read file) as [data|e]; [|done].
  destruct (decode_first data) as [[v rest]|] eqn:E1; [|done]. destruct (dec zero v) as [dst|] eqn:E2; [|done].
  destruct (String.eqb_spec (skip_ws rest) "") as [E3|]; cbn [negb]; [|by destruct (decode_first rest)].
  assert (Hnull : check_required file [] required ≠ None).
  { rewrite check_required_None. destruct required as [|f required]; [done|]. intros Hr.
    specialize (Hr f (list_elem_of_here _ _)). by apply elem_of_nil in Hr. }
  destruct v; try (by destruct (check_required file [] required)).
  destruct (check_required file (map fst kvs) required) eqn:E4; [done|]. intros [= <-].
  exists data, kvs, rest. split_and!; try done. by eapply check_required_None.
Qed.

Section command.
Context `{Unicode}.
Context (read : string → result string string) (schema_instance : string → string → option string).
Context (decode_text : decode_error → string).
Abbreviation agentcheck := (main read schema_instance decode_text).

Lemma need_ok e u : need e = Ok u ↔ e = None.
Proof. destruct e, u; split; done. Qed.
Lemma read_packet_ok {A} (r : result decode_error A) a : read_packet decode_text r = Ok a ↔ r = Ok a.
Proof. destruct r; cbn; split; congruence. Qed.

Lemma read_tasks_ok root files tasks :
  read_tasks read schema_instance decode_text root files = Ok tasks →
  Forall2 (λ file t, ReadTask read file = Ok t) files tasks.
Proof.
  revert tasks. induction files as [|f files IH]; intros tasks; cbn [read_tasks]; [by intros [= <-]|].
  intros (_ & _ & E)%result_bind_ok. apply result_bind_ok in E as (t & Ht & E). apply read_packet_ok in Ht.
  apply result_bind_ok in E as (ts & Hts & [= <-]). constructor; auto.
Qed.

(** A dispatch that passes was read from its files, and passes the fan-out check. *)
Lemma dispatch_passes args files set message :
  agentcheck ("task" :: args) = Ok message → parse_flags args = Ok (files, set) →
  ∃ roles tasks, Forall2 (λ file t, ReadTask read file = Ok t) files tasks
    ∧ ValidateFanout tasks (Some roles) = None
    ∧ ValidateLead tasks (default "" (set !! "runtime")) (default "" (set !! "base")) = None.
Proof.
  cbn [main]. unfold run_task. intros E Hp. rewrite Hp in E. cbn [mbind result_bind] in E.
  apply result_bind_ok in E as (u1 & _ & E). apply result_bind_ok in E as (roles & _ & E).
  apply result_bind_ok in E as (tasks & Ht & E). apply result_bind_ok in E as (u2 & Hf%need_ok & E).
  apply result_bind_ok in E as (u3 & Hl%need_ok & _).
  exists roles, tasks. split_and!; [by eapply read_tasks_ok|done|done].
Qed.

(** A result that passes was read with its task from the two files. *)
Lemma result_passes args task_file result_file set message :
  agentcheck ("result" :: args) = Ok message → parse_flags args = Ok ([task_file; result_file], set) →
  ∃ roles t r, ReadTask read task_file = Ok t ∧ ReadResult read result_file = Ok r
    ∧ ValidateResult t r (Some roles) = None.
Proof.
  cbn [main]. unfold run_result. intros E Hp. rewrite Hp in E. cbn [mbind result_bind] in E.
  apply result_bind_ok in E as (u1 & _ & E). apply result_bind_ok in E as (u2 & _ & E).
  apply result_bind_ok in E as (t & Ht%read_packet_ok & E). apply result_bind_ok in E as (r & Hr%read_packet_ok & E).
  apply result_bind_ok in E as (roles & _ & E). apply result_bind_ok in E as (u3 & Hv%need_ok & _).
  by exists roles, t, r.
Qed.

End command.

(** ** Agent packets by example

    Two packets with disjoint ownership, their results, and the theorem at them. *)

#[local] Existing Instance identity_tables.

Definition quoted (s : string) : string := dq +:+ s +:+ dq.
Definition object (kvs : list (string * string)) : string :=
  "{" +:+ Join (map (λ '(k, v), quoted k +:+ ": " +:+ v) kvs) ", " +:+ "}" +:+ newline.
Definition strings (l : list string) : string := "[" +:+ Join (map quoted l) ", " +:+ "]".

Definition base_commit : string := "0123456789abcdef0123456789abcdef01234567".
Definition task_text (id owned worktree : string) : string := object [
  ("schema", quoted "fabrin.agent-task/v1"); ("task_id", quoted id); ("runtime", quoted "claude");
  ("role", quoted "writer"); ("issue", quoted "#7"); ("objective", quoted "document it"); ("risk", quoted "normal");
  ("base_sha", quoted base_commit); ("worktree", quoted worktree);
  ("access", object [("mode", quoted "owned-write"); ("owned_paths", strings [owned])]);
  ("inputs", strings ["README.md"]); ("invariants", strings ["tests pass"]);
  ("acceptance_commands", strings ["just test"]); ("exclusive_resources", strings []); ("ports", "null")].
Definition result_text (id changed : string) : string := object [
  ("schema", quoted "fabrin.agent-result/v1"); ("task_id", quoted id); ("runtime", quoted "claude");
  ("role", quoted "writer"); ("status", quoted "completed"); ("observed_base_sha", quoted base_commit);
  ("observed_head_sha", quoted base_commit); ("changed_paths", strings [changed]); ("findings", "[]");
  ("commands", "[]"); ("assumptions", "[]"); ("risks", "[]"); ("blockers", "[]"); ("handback", quoted "done")].

Definition example_files : list (string * string) := [
  ("../docs/agents/catalog.tsv", "# role" +:+ tab +:+ "access" +:+ newline +:+ "writer" +:+ tab +:+ "owned-write" +:+ newline);
  ("docs.json", task_text "docs-1" "docs" "/work/docs"); ("mail.json", task_text "mail-1" "mail" "/work/mail");
  ("docs-result.json", result_text "docs-1" "docs/guides/mail.md"); ("mail-result.json", result_text "mail-1" "mail/mail.go")].
Definition example_read (file : string) : result string string :=
  match List.find (λ f, String.eqb (fst f) file) example_files with Some (_, text) => Ok text | None => Err "no such file" end.
Definition lead_flags (args : list string) : list string := "-runtime" :: "claude" :: ("--base=" +:+ base_commit) :: args.
#[local] Abbreviation example_check := (main example_read (λ _ _, None) (λ _, "decode")).

Definition lead_set : actual := {["runtime" := "claude"; "base" := base_commit]}.

