(* ===== verification/SpecCheck.v ===== *)
(** * The behaviour spec: tools/speccheck/main.go

    The check that the behaviour spec, the test matrix, the requirements and the tests
    agree.  The YAML decoder, the file system and Go's parser are parameters; a map is
    ranged over in an order that is an argument.  Errors are the lines of
    [errors.Join]. *)

From S2P Require Import Prelude GoStrings Paths.

(** ** Patterns *)

Definition nonempty_of (p : ascii → bool) (s : string) : bool := negb (String.eqb s "") && string_forall p s.
Definition behaviourID (s : string) : bool :=
  match CutByte "-" s with
  | Some (a, b) => nonempty_of is_upper a && (String.length b =? 3)%nat && string_forall is_digit b
  | None => false
  end.
Definition requirementID (s : string) : bool :=
  match CutByte "-" s with
  | Some (a, b) =>
      if String.eqb a "FR" then
        match CutByte "-" b with
        | Some (c, d) => nonempty_of is_upper c && nonempty_of is_digit d
        | None => false
        end
      else (String.eqb a "NFR" || String.eqb a "INV") && nonempty_of is_digit b
  | None => false
  end.

(** ** Documents *)

Record behaviour := mkBehaviour {
  ID : string; What : string; Why : string; Requirement : string; Status : string; Test : string }.
Record matrixRow := mkRow { test : string; line : Z }.

Definition errors_join (errs : list string) : option string :=
  match errs with [] => None | _ => Some (Join errs newline) end.
Definition complain (b : bool) (err : string) : list string := if b then [err] else [].

Section check.
Context `{Unicode}.

(** The test a cell names: what is between its back quotes, or all of it. *)
Definition cell_test (cell : string) : option string :=
  let rawTest := TrimSpace cell in
  if HasPrefix rawTest "`" then fst <$> CutByte "`" (TrimPrefix rawTest "`") else Some rawTest.

(** The loop over the lines of the matrix; [n] is the number of the line. *)
Fixpoint matrix_rows (n : Z) (lines : list string) (rows : gmap string matrixRow) (errs : list string)
    : gmap string matrixRow * list string :=
  match lines with
  | [] => (rows, errs)
  | l :: lines' =>
      match SplitByte "|" l with
      | _ :: c1 :: _ :: c3 :: _ :: _ =>
          let id := TrimSpace c1 in
          if negb (behaviourID id) then matrix_rows (n + 1) lines' rows errs
          else
            match rows !! id with
            | Some prev =>
                matrix_rows (n + 1) lines' rows
                  (errs ++ ["specs: duplicate matrix row " +:+ id +:+ " on lines " +:+ Itoa (line prev) +:+ " and " +:+ Itoa n])
            | None =>
                match cell_test c3 with
                | None =>
                    matrix_rows (n + 1) lines' rows
                      (errs ++ ["specs: matrix row " +:+ id +:+ " line " +:+ Itoa n +:+ " has an unterminated test reference"])
                | Some t => matrix_rows (n + 1) lines' (<[id := mkRow t n]> rows) errs
                end
            end
      | _ => matrix_rows (n + 1) lines' rows errs
      end
  end.

Fixpoint requirement_rows (lines : list string) : list string :=
  match lines with
  | [] => []
  | l :: lines' =>
      match SplitByte "|" l with
      | _ :: c1 :: _ :: _ =>
          let id := TrimSpace c1 in
          if requirementID id then id :: requirement_rows lines' else requirement_rows lines'
      | _ => requirement_rows lines'
      end
  end.

Context (ReadFile : string → result string string).

Definition readMatrix (path : string) : result string (gmap string matrixRow) :=
  match ReadFile path with
  | Err err => Err ("specs: read " +:+ path +:+ ": " +:+ err)
  | Ok data =>
      let '(rows, errs) := matrix_rows 1 (SplitByte "010" data) ∅ [] in
      match errors_join errs with Some err => Err err | None => Ok rows end
  end.

Definition readRequirements (path : string) : result string (gset string) :=
  match ReadFile path with
  | Err err => Err ("specs: read " +:+ path +:+ ": " +:+ err)
  | Ok data => Ok (list_to_set (requirement_rows (SplitByte "010" data)))
  end.

(** The YAML decoder: a document with known fields, or an error; and what it finds
    after it, where [None] is the end of the input. *)
Context (Decode : string → result string (list behaviour * result string (option ()))).

Definition decodeSpec (path : string) : result string (list behaviour) :=
  match ReadFile path with
  | Err err => Err ("specs: read " +:+ path +:+ ": " +:+ err)
  | Ok data =>
      match Decode data with
      | Err err => Err ("specs: decode " +:+ path +:+ ": " +:+ err)
      | Ok (doc, Ok None) => Ok doc
      | Ok (_, Ok (Some _)) => Err ("specs: " +:+ path +:+ " contains more than one YAML document")
      | Ok (_, Err err) => Err ("specs: decode trailing YAML in " +:+ path +:+ ": " +:+ err)
      end
  end.

(** ** Tests *)

(** Go's syntax, as far as the code looks. *)
Inductive type_expr :=
| StarExpr (x : type_expr)
| SelectorExpr (x : type_expr) (sel : string)
| Ident (name : string)
| OtherType.
Record FuncDecl := mkFunc {
  recv : bool; func_name : string; params : option (list type_expr); results : option (list type_expr) }.
(** An import's name, when it has one, and its path as written; the functions among
    the declarations. *)
Record test_file := mkTestFile { imports : list (option string * string); funcs : list FuncDecl }.

(** [os.Stat]: whether the path is a directory. *)
Context (Stat : string → result string bool) (ParseFile : string → result string test_file).

Definition validTestSignature (f : FuncDecl) (testingPackages : gset string) : bool :=
  match params f with
  | Some [p] =>
      if negb (HasPrefix (func_name f) "Test") then false
      else if match results f with Some (_ :: _) => true | _ => false end then false
      else match p with
           | StarExpr (SelectorExpr (Ident pkg) sel) => String.eqb sel "T" && bool_decide (pkg ∈ testingPackages)
           | _ => false
           end
  | _ => false
  end.

Definition testing_packages (l : list (option string * string)) : gset string :=
  list_to_set (map (λ i, default "testing" (fst i)) (List.filter (λ i, String.eqb (snd i) (dq +:+ "testing" +:+ dq)) l)).

(** The loop over the declarations. *)
Fixpoint find_test (fn ref_path : string) (pkgs : gset string) (fs : list FuncDecl) : option string :=
  match fs with
  | [] => Some ("test file " +:+ Quote ref_path +:+ " has no exact top-level function " +:+ fn)
  | f :: fs' =>
      if recv f || negb (String.eqb (func_name f) fn) then find_test fn ref_path pkgs fs'
      else if validTestSignature f pkgs then None
      else Some ("top-level function " +:+ fn +:+ " in " +:+ Quote ref_path +:+ " is not func(*testing.T)")
  end.

(** [strings.Cut]: before, after, found. *)
Definition Cut3 (s sep : string) : string * string * bool :=
  match Cut s sep with Some (a, b) => (a, b, true) | None => (s, "", false) end.

Definition checkTest (root ref : string) : option string :=
  let '(path, fn, hasFunction) := Cut3 ref "::" in
  if String.eqb path "" || HasPrefix path "/" || negb (String.eqb (Clean path) path) || String.eqb path ".."
     || HasPrefix path "../"
  then Some ("invalid test path " +:+ Quote path)
  else
    let full := path_join [root; path] in
    match Stat full with
    | Err err => Some ("test file " +:+ Quote path +:+ ": " +:+ err)
    | Ok true => Some ("test path " +:+ Quote path +:+ " is a directory")
    | Ok false =>
        if negb hasFunction then None
        else if negb (HasSuffix path "_test.go") then
          Some ("test function reference " +:+ Quote ref +:+ " must name a _test.go file")
        else if String.eqb fn "" || Contains fn "::" then Some ("invalid test function in " +:+ Quote ref)
        else
          match ParseFile full with
          | Err err => Some ("parse test file " +:+ Quote path +:+ ": " +:+ err)
          | Ok parsed => find_test fn path (testing_packages (imports parsed)) (funcs parsed)
          end
    end.

(** ** The check *)

(** The order in which the two maps are ranged over. *)
Context (range_fields : list (string * string) → list (string * string)) (range_rows : list string → list string).

(** What one behaviour with an acceptable id is blamed for. *)
Definition behaviour_errors (root : string) (matrix : gmap string matrixRow) (requirements : gset string)
    (b : behaviour) : list string :=
  flat_map (λ '(field, value), complain (String.eqb (TrimSpace value) "") ("specs: " +:+ ID b +:+ " has empty " +:+ field))
    (range_fields [("what", What b); ("why", Why b); ("requirement", Requirement b); ("status", Status b)])
  ++ complain (negb (requirementID (Requirement b)) || negb (bool_decide (Requirement b ∈ requirements)))
       ("specs: " +:+ ID b +:+ " cites unknown requirement " +:+ Quote (Requirement b))
  ++ complain (negb (String.eqb (Status b) "planned") && negb (String.eqb (Status b) "implemented"))
       ("specs: " +:+ ID b +:+ " has invalid status " +:+ Quote (Status b) +:+ " (want planned or implemented)")
  ++ match matrix !! ID b with
     | None => ["specs: " +:+ ID b +:+ " has no exact row in specs/test-matrix.md"]
     | Some row =>
         let planned := String.eqb (Status b) "planned" in
         let wantTest := if planned then "_planned_" else Test b in
         (if planned
          then complain (negb (String.eqb (Test b) "")) ("specs: planned behaviour " +:+ ID b +:+ " must not name a test")
          else complain (String.eqb (Test b) "") ("specs: implemented behaviour " +:+ ID b +:+ " names no test"))
         ++ complain (negb (String.eqb (test row) wantTest))
              ("specs: " +:+ ID b +:+ " matrix test " +:+ Quote (test row) +:+ " does not match spec " +:+ Quote wantTest)
         ++ (if String.eqb (Status b) "implemented" && negb (String.eqb (Test b) "") then
               match checkTest root (Test b) with
               | Some err => ["specs: " +:+ ID b +:+ ": " +:+ err]
               | None => []
               end
             else [])
     end.

(** The loop over the behaviours: the ids seen, and the errors. *)
Fixpoint check_behaviours (root : string) (matrix : gmap string matrixRow) (requirements : gset string)
    (n : Z) (seen : gset string) (bs : list behaviour) : gset string * list string :=
  match bs with
  | [] => (seen, [])
  | b :: bs' =>
      if negb (behaviourID (ID b)) then
        let '(seen, errs) := check_behaviours root matrix requirements (n + 1) seen bs' in
        (seen, ("specs: behaviour " +:+ Itoa n +:+ " has invalid id " +:+ Quote (ID b)) :: errs)
      else if bool_decide (ID b ∈ seen) then
        let '(seen, errs) := check_behaviours root matrix requirements (n + 1) seen bs' in
        (seen, ("specs: duplicate behaviour id " +:+ ID b) :: errs)
      else
        let '(seen, errs) := check_behaviours root matrix requirements (n + 1) ({[ID b]} ∪ seen) bs' in
        (seen, behaviour_errors root matrix requirements b ++ errs)
  end.

Definition check (root : string) : Z * option string :=
  let specPath := path_join [root; "specs"; "system-behavior.yaml"] in
  let matrixPath := path_join [root; "specs"; "test-matrix.md"] in
  let requirementsPath := path_join [root; "docs"; "requirements"; "FABRIN_REQUIREMENTS.md"] in
  match decodeSpec specPath with
  | Err err => (0%Z, Some err)
  | Ok doc =>
      match readMatrix matrixPath with
      | Err err => (0%Z, Some err)
      | Ok matrix =>
          match readRequirements requirementsPath with
          | Err err => (0%Z, Some err)
          | Ok requirements =>
              let '(seen, errs) := check_behaviours root matrix requirements 1 ∅ doc in
              let absent := List.filter (λ id, negb (bool_decide (id ∈ seen))) (range_rows (map fst (map_to_list matrix))) in
              (Z.of_nat (length doc),
               errors_join (errs
                 ++ map (λ id, "specs: matrix has row for " +:+ id +:+ ", which is absent from the spec") absent
                 ++ complain (length doc =? 0)%nat "specs: no behaviours declared"))
          end
      end
  end.

(** [main]: the exit status and what is printed on standard output. *)
Definition main (root : string) : Z * string :=
  match check root with
  | (_, Some _) => (1%Z, "")
  | (count, None) =>
      (0%Z, "✓ specs: " +:+ Itoa count +:+ " behaviour(s), structurally valid and traceable to requirements and tests." +:+ newline)
  end.
End check.

(** ** The behaviour spec: what a passing check means

    The check passes exactly when spec, matrix, requirements and tests agree, row by
    row; and the matrix it read is the table of the file, line by line. *)

Lemma errors_join_nil errs : errors_join errs = None ↔ errs = [].
Proof. by destruct errs. Qed.
Lemma complain_none b e : complain b e = [] ↔ b = false.
Proof. by destruct b. Qed.
Lemma flat_map_none {A B} (f : A → list B) l : flat_map f l = [] ↔ ∀ x, x ∈ l → f x = [].
Proof.
  induction l as [|x l IH]; cbn; [split; [by intros _ x ?%elem_of_nil|done]|].
  rewrite app_nil, IH. split.
  - intros [Hx Hl] y [->|Hy]%elem_of_cons; auto.
  - intros Hl. split; [apply Hl; left|]. intros y Hy. apply Hl. by right.
Qed.

(** ** The matrix *)

(** The id and the test of a line that is a row. *)
Definition row_of (l : string) : option (string * option string) :=
  match SplitByte "|" l with
  | _ :: c1 :: _ :: c3 :: _ :: _ =>
      if behaviourID (TrimSpace c1) then Some (TrimSpace c1, cell_test c3) else None
  | _ => None
  end.
Definition row_ids (lines : list string) : list string := omap (λ l, fst <$> row_of l) lines.

Lemma matrix_rows_cons n l lines rows errs :
  matrix_rows n (l :: lines) rows errs
  = match row_of l with
    | None => matrix_rows (n + 1) lines rows errs
    | Some (id, t) =>
        match rows !! id, t with
        | Some prev, _ => matrix_rows (n + 1) lines rows
            (errs ++ ["specs: duplicate matrix row " +:+ id +:+ " on lines " +:+ Itoa (line prev) +:+ " and " +:+ Itoa n])
        | None, None => matrix_rows (n + 1) lines rows
            (errs ++ ["specs: matrix row " +:+ id +:+ " line " +:+ Itoa n +:+ " has an unterminated test reference"])
        | None, Some t => matrix_rows (n + 1) lines (<[id := mkRow t n]> rows) errs
        end
    end.
Proof.
  cbn [matrix_rows]. unfold row_of. repeat case_match; simplify_eq/=; try done; by rewrite ?H.
Qed.

Lemma matrix_rows_errs n lines rows errs :
  ∃ more, snd (matrix_rows n lines rows errs) = errs ++ more.
Proof.
  revert n rows errs. induction lines as [|l lines IH]; intros n rows errs; [exists []; by rewrite app_nil_r|].
  rewrite matrix_rows_cons. destruct (row_of l) as [[id t]|]; [|apply IH].
  destruct (rows !! id), t; try apply IH.
  all: match goal with |- ∃ _, snd (matrix_rows ?a ?b ?c ?d) = _ => destruct (IH a c d) as [more E] end;
    rewrite E, <-app_assoc; by eexists.
Qed.

(** Numbered lines, the first apart. *)
Lemma lookup_shift (l : string) lines (Q : string → Prop) n m :
  (∃ k l', (l :: lines) !! k = Some l' ∧ Q l' ∧ m = (n + Z.of_nat k)%Z)
  ↔ (Q l ∧ m = n) ∨ ∃ k l', lines !! k = Some l' ∧ Q l' ∧ m = (n + 1 + Z.of_nat k)%Z.
Proof.
  split.
  - intros ([|k] & l' & Hk & Hl & E); [left; injection Hk as <-; split; [done|lia]|].
    right. exists k, l'. split_and!; [done|done|lia].
  - intros [[Hl E]|(k & l' & Hk & Hl & E)]; [exists 0%nat, l; split_and!; [done|done|lia]|].
    exists (S k), l'. split_and!; [done|done|lia].
Qed.

(** The table of the lines from [n] on: rows with one line each, and a test each. *)
Lemma matrix_rows_ok n lines rows rows' :
  matrix_rows n lines rows [] = (rows', []) ↔
  NoDup (row_ids lines) ∧ (∀ id, id ∈ row_ids lines → rows !! id = None)
  ∧ (∀ l id, l ∈ lines → row_of l ≠ Some (id, None))
  ∧ ∀ id row, rows' !! id = Some row ↔
      rows !! id = Some row
      ∨ ∃ k l, lines !! k = Some l ∧ row_of l = Some (id, Some (test row)) ∧ line row = (n + Z.of_nat k)%Z.
Proof.
  revert n rows. induction lines as [|l lines IH]; intros n rows.
  { cbn. split.
    - intros [= <-]. split_and!; [constructor|by intros ? ?%elem_of_nil|by intros ? ? ?%elem_of_nil|].
      intros id row. split; [by left|]. by intros [?|(? & ? & ? & _)].
    - intros (_ & _ & _ & H). f_equal. apply map_eq. intros id. apply option_eq. intros row. rewrite H. split; [by left|].
      by intros [?|(? & ? & ? & _)]. }
  rewrite matrix_rows_cons. unfold row_ids in *. cbn [omap list_omap].
  assert (Hfail : ∀ rows e, matrix_rows (n + 1) lines rows ([] ++ [e]) ≠ (rows', [])).
  { intros rows0 e E. destruct (matrix_rows_errs (n + 1) lines rows0 ([] ++ [e])) as [more Em]. by rewrite E in Em. }
  pose proof (λ id row, lookup_shift l lines (λ l, row_of l = Some (id, Some (test row))) n (line row)) as Hshift. cbn beta in Hshift.
  destruct (row_of l) as [[id t]|] eqn:El; cbn [fmap option_fmap option_map fst].
  2: { rewrite IH. setoid_rewrite Hshift.
       split; intros (H1 & H2 & H3 & H4); split_and!; try done.
       - intros l' id [->|Hl]%elem_of_cons; [by rewrite El|by apply H3].
       - intros id row. rewrite H4. split; [intros [?|?]; auto|]. intros [?|[[? _]|?]]; auto; done.
       - intros l' id Hl. apply H3. by right.
       - intros id row. rewrite H4. split; [|intros [?|?]; auto]. intros [?|[[? _]|?]]; auto; done. }
  destruct (rows !! id) as [prev|] eqn:Er.
  { split; [by intros ?%Hfail|]. intros (_ & H & _). specialize (H id (list_elem_of_here _ _)). congruence. }
  destruct t as [t|].
  2: { split; [by intros ?%Hfail|]. intros (_ & _ & H & _). by destruct (H l id (list_elem_of_here _ _)). }
  rewrite IH. setoid_rewrite Hshift. rewrite NoDup_cons. split.
  - intros (H1 & H2 & H3 & H4). split_and!; [|done| | |].
    + intros Hin. specialize (H2 id Hin). by rewrite lookup_insert_eq in H2.
    + intros id' [->|Hin]%elem_of_cons; [done|]. specialize (H2 id' Hin).
      apply lookup_insert_None in H2 as [? _]. done.
    + intros l' id' [->|Hl]%elem_of_cons; [by rewrite El|by apply H3].
    + intros id' row. rewrite H4, lookup_insert_Some. split.
      * intros [[[<- <-]|[_ ?]]|?]; auto.
      * intros [?|[[E1 E2]|?]]; auto; left.
        -- right. split; [intros ->; congruence|done].
        -- left. injection E1 as -> Et. split; [done|]. destruct row. cbn in *. by subst.
  - intros ((Hn & H1) & H2 & H3 & H4). split_and!; [done| | |].
    + intros id' Hin. rewrite lookup_insert_ne; [apply H2; by right|]. by intros ->.
    + intros l' id' Hl. apply H3. by right.
    + intros id' row. rewrite H4, lookup_insert_Some. split.
      * intros [?|[[E1 E2]|?]]; auto; left.
        -- right. split; [intros ->; congruence|done].
        -- left. injection E1 as -> Et. split; [done|]. destruct row. cbn in *. by subst.
      * intros [[[<- <-]|[_ ?]]|?]; auto.
Qed.

(** ** The check *)

Section table.
Context `{Unicode} (ReadFile : string → result string string).

(** The matrix that is read is the table of the file: no id has two rows, and every
    entry is the row of its line. *)
Lemma readMatrix_table path rows :
  readMatrix ReadFile path = Ok rows ↔
  ∃ data, ReadFile path = Ok data ∧ let lines := SplitByte "010" data in
    NoDup (row_ids lines) ∧ (∀ l id, l ∈ lines → row_of l ≠ Some (id, None))
    ∧ ∀ id row, rows !! id = Some row ↔
        ∃ k l, lines !! k = Some l ∧ row_of l = Some (id, Some (test row)) ∧ line row = (1 + Z.of_nat k)%Z.
Proof.
  unfold readMatrix. destruct (ReadFile path) as [data|e]; [|split; [done|by intros (? & ? & _)]].
  destruct (matrix_rows 1 (SplitByte "010" data) ∅ []) as [rows0 errs] eqn:E.
  assert (Hok : ∀ m, (rows0, errs) = (m, []) ↔ _) by (intros m; rewrite <-E; apply matrix_rows_ok).
  setoid_rewrite lookup_empty in Hok. split.
  - destruct (errors_join errs) eqn:Ej; [done|]. apply errors_join_nil in Ej as ->. intros [= ->].
    destruct (proj1 (Hok rows) eq_refl) as (H1 & _ & H3 & H4). exists data. split_and!; [done..|].
    intros id row. rewrite H4. split; [by intros [?|?]|by right].
  - intros (d & [= <-] & H1 & H2 & H3). assert (E2 : (rows0, errs) = (rows, [])).
    { apply Hok. split_and!; [done|done|done|]. intros id row. rewrite H3. split; [by right|by intros [?|?]]. }
    by injection E2 as -> ->.
Qed.

End table.

Section trace.
Context `{Unicode} (Stat : string → result string bool) (ParseFile : string → result string test_file).
Context (range_fields : list (string * string) → list (string * string)).

Abbreviation testOK root ref := (checkTest Stat ParseFile root ref).
Abbreviation blames := (behaviour_errors Stat ParseFile range_fields).

(** A behaviour that is traced: well named, explained, required, and with the row and
    the test its status asks for. *)
Record traced (root : string) (matrix : gmap string matrixRow) (requirements : gset string) (b : behaviour) : Prop := {
  traced_texts : ∀ value, value ∈ [What b; Why b; Requirement b; Status b] → TrimSpace value ≠ "";
  traced_requirement : requirementID (Requirement b) = true ∧ Requirement b ∈ requirements;
  traced_row : ∃ row, matrix !! ID b = Some row
    ∧ (Status b = "planned" ∧ Test b = "" ∧ test row = "_planned_"
       ∨ Status b = "implemented" ∧ Test b ≠ "" ∧ test row = Test b ∧ testOK root (Test b) = None);
}.

Lemma blames_nil root matrix requirements b :
  (∀ l, range_fields l ≡ₚ l) → blames root matrix requirements b = [] ↔ traced root matrix requirements b.
Proof.
  intros Hperm. unfold behaviour_errors. rewrite !app_nil, !complain_none, flat_map_none.
  set (fields := [("what", What b); ("why", Why b); ("requirement", Requirement b); ("status", Status b)]).
  assert (Htexts : (∀ x, x ∈ range_fields fields →
      (let '(field, value) := x in complain (String.eqb (TrimSpace value) "") ("specs: " +:+ ID b +:+ " has empty " +:+ field)) = [])
    ↔ ∀ value, value ∈ [What b; Why b; Requirement b; Status b] → TrimSpace value ≠ "").
  { split.
    - intros Hx value Hv. assert (Hin : ∃ name, (name, value) ∈ fields).
      { rewrite !elem_of_cons in Hv. unfold fields.
        destruct Hv as [->|[->|[->|[->|[]%elem_of_nil]]]]; [exists "what"|exists "why"|exists "requirement"|exists "status"]; set_solver. }
      destruct Hin as [name Hin]. specialize (Hx (name, value)). rewrite Hperm in Hx. specialize (Hx Hin).
      apply complain_none, String.eqb_neq in Hx. done.
    - intros Hv [name value]. rewrite Hperm. intros Hin. apply complain_none, String.eqb_neq, Hv.
      unfold fields in Hin. set_solver. }
  rewrite Htexts, orb_false_iff, !negb_false_iff, bool_decide_eq_true, andb_false_iff, !negb_false_iff, !String.eqb_eq.
  split.
  - intros (H1 & H2 & H3 & H4). split; [done|done|]. destruct (matrix !! ID b) as [row|]; [|done]. exists row. split; [done|].
    rewrite !app_nil, complain_none, negb_false_iff, String.eqb_eq in H4. destruct H4 as (H4 & H5 & H6).
    destruct H3 as [E|E]; rewrite E in *; cbn in *; apply complain_none in H4.
    + left. apply negb_false_iff, String.eqb_eq in H4. done.
    + right. rewrite H4 in H6. cbn in H6. apply String.eqb_neq in H4.
      destruct (testOK root (Test b)); done.
  - intros [H1 H2 (row & Hrow & H3)]. rewrite Hrow, !app_nil, complain_none, negb_false_iff, String.eqb_eq.
    split; [exact H1|]. split; [exact H2|]. destruct H3 as [(E1 & E2 & E3)|(E1 & E2 & E3 & E4)].
    + rewrite E1, E2, E3. split_and!; auto.
    + rewrite E1, E3. apply String.eqb_neq in E2. cbn. rewrite E2, E4. split_and!; auto.
Qed.

Lemma check_behaviours_ok root matrix requirements n seen bs seen' :
  check_behaviours Stat ParseFile range_fields root matrix requirements n seen bs = (seen', []) ↔
  seen' = list_to_set (map ID bs) ∪ seen ∧ NoDup (map ID bs)
  ∧ ∀ b, b ∈ bs → behaviourID (ID b) = true ∧ (ID b ∉ seen) ∧ blames root matrix requirements b = [].
Proof.
  revert n seen. induction bs as [|b bs IH]; intros n seen; cbn [check_behaviours map list_to_set].
  { rewrite union_empty_l_L. split; [intros [= <-]; split_and!; [done|constructor|by intros ? ?%elem_of_nil]|by intros [-> _]]. }
  rewrite NoDup_cons. destruct (behaviourID (ID b)) eqn:Ei; cbn [negb].
  2: { destruct (check_behaviours _ _ _ _ _ _ _ _ _) as [x y]. split; [done|].
       intros (_ & _ & Hb). specialize (Hb b (list_elem_of_here _ _)) as [Hb _]. congruence. }
  case_bool_decide as Hin.
  { destruct (check_behaviours _ _ _ _ _ _ _ _ _) as [x y]. split; [done|].
    intros (_ & _ & Hb). by specialize (Hb b (list_elem_of_here _ _)) as (_ & Hb & _). }
  destruct (check_behaviours _ _ _ _ _ _ _ ({[ID b]} ∪ seen) bs) as [x y] eqn:E.
  assert (Hrest : (x, y) = (seen', []) ↔ _) by (rewrite <-E; apply IH). split.
  - intros [= -> Hy]. apply app_nil in Hy as [Hb ->]. destruct (proj1 Hrest eq_refl) as (-> & H2 & H3).
    split_and!; [set_solver| |done|].
    + intros (c & Ec & Hc)%list_elem_of_fmap. destruct (H3 c Hc) as (_ & Hns & _). rewrite <-Ec in Hns. set_solver.
    + intros c [->|Hc]%elem_of_cons; [done|]. destruct (H3 c Hc) as (? & ? & ?). split_and!; [done|set_solver|done].
  - intros (-> & (H1 & H2) & H3). destruct (H3 b (list_elem_of_here _ _)) as (_ & _ & Hb).
    assert (Exy : (x, y) = (({[ID b]} ∪ list_to_set (map ID bs)) ∪ seen, [])); [|injection Exy as -> ->; by rewrite Hb].
    apply Hrest. split_and!; [set_solver|done|]. intros c Hc.
    destruct (H3 c (list_elem_of_further _ _ _ Hc)) as (? & ? & ?). split_and!; [done| |done].
    assert (ID c ≠ ID b); [|set_solver]. intros Ec. apply H1. rewrite <-Ec. apply list_elem_of_fmap. by exists c.
Qed.

End trace.

Section check.
Context `{Unicode} (ReadFile : string → result string string).
Context (Decode : string → result string (list behaviour * result string (option ()))).
Context (Stat : string → result string bool) (ParseFile : string → result string test_file).
Context (range_fields : list (string * string) → list (string * string)) (range_rows : list string → list string).

Definition specPath (root : string) : string := path_join [root; "specs"; "system-behavior.yaml"].
Definition matrixPath (root : string) : string := path_join [root; "specs"; "test-matrix.md"].
Definition requirementsPath (root : string) : string := path_join [root; "docs"; "requirements"; "FABRIN_REQUIREMENTS.md"].

End check.

(** ** Tests *)

Section tests.
Context `{Unicode} (Stat : string → result string bool) (ParseFile : string → result string test_file).

Lemma find_test_None fn path pkgs fs :
  find_test fn path pkgs fs = None →
  ∃ f, f ∈ fs ∧ recv f = false ∧ func_name f = fn ∧ validTestSignature f pkgs = true.
Proof.
  induction fs as [|f fs IH]; cbn [find_test]; [done|].
  destruct (recv f) eqn:Er; cbn [orb]; [intros (g & ? & ?)%IH; exists g; split; [by right|done]|].
  destruct (String.eqb_spec (func_name f) fn) as [En|]; cbn [negb]; [|intros (g & ? & ?)%IH; exists g; split; [by right|done]].
  destruct (validTestSignature f pkgs) eqn:Ev; [|done]. intros _. exists f. split; [by left|done].
Qed.

(** A reference that passes names a file of the repository, and when it names a
    function too, a test file that declares it at top level with one parameter whose
    type is [*T] of the package [testing] as the file imports it. *)
Lemma checkTest_sound root ref :
  checkTest Stat ParseFile root ref = None →
  let '(path, fn, hasFunction) := Cut3 ref "::" in
  path ≠ "" ∧ Clean path = path ∧ HasPrefix path "/" = false ∧ HasPrefix path "../" = false
  ∧ Stat (path_join [root; path]) = Ok false
  ∧ (hasFunction = true →
     HasSuffix path "_test.go" = true
     ∧ ∃ parsed f, ParseFile (path_join [root; path]) = Ok parsed ∧ f ∈ funcs parsed ∧ recv f = false
         ∧ func_name f = fn ∧ HasPrefix fn "Test" = true
         ∧ ∃ pkg, params f = Some [StarExpr (SelectorExpr (Ident pkg) "T")]
             ∧ pkg ∈ testing_packages (imports parsed)).
Proof.
  unfold checkTest. destruct (Cut3 ref "::") as [[path fn] has].
  destruct (_ || _) eqn:Ep; [done|]. rewrite !orb_false_iff, negb_false_iff, String.eqb_eq, !String.eqb_neq in Ep.
  destruct Ep as ((((? & ?) & ?) & _) & ?). destruct (Stat _) as [[]|]; [done| |done].
  destruct has; cbn [negb]; [|intros _; split_and!; done].
  destruct (HasSuffix path "_test.go"); cbn [negb]; [|done]. destruct (_ || _); [done|].
  destruct (ParseFile _) as [parsed|]; [|done]. intros (f & Hf & Hr & Hn & Hv)%find_test_None.
  split_and!; try done. intros _. split; [done|]. exists parsed, f. subst fn. unfold validTestSignature in Hv.
  destruct (params f) as [[|p [|]]|] eqn:Epar; try done.
  destruct (HasPrefix (func_name f) "Test") eqn:Et; cbn [negb] in Hv; [|done].
  destruct (match results f with Some (_ :: _) => true | _ => false end); [done|].
  destruct p as [[|[| |pkg|] sel| |]| | |]; try done.
  apply andb_true_iff in Hv as [->%String.eqb_eq Hp%bool_decide_eq_true]. split_and!; try done. by exists pkg.
Qed.

(** A name is enough that begins with [Test]; [go test] does not run one that goes on
    with a lower-case letter. *)
Lemma lower_case_test_accepted pkgs :
  "testing" ∈ pkgs →
  validTestSignature (mkFunc false "Testify" (Some [StarExpr (SelectorExpr (Ident "testing") "T")]) None) pkgs = true.
Proof. intros Hp. cbn. by apply bool_decide_eq_true. Qed.
End tests.

(** ** An example *)

Definition example_behaviours : list behaviour := [
  mkBehaviour "CLI-001" "It dispatches." "One binary." "FR-CLI-1" "implemented" "cli/cli_test.go::TestDispatch";
  mkBehaviour "CLI-002" "It suggests." "Typos." "FR-CLI-1" "planned" ""].
Definition example_tables (path : string) : result string string :=
  if String.eqb path "specs/system-behavior.yaml" then Ok "behaviours: ..."
  else if String.eqb path "specs/test-matrix.md" then
    Ok ("| id | what | test | |" +:+ newline +:+ "|---|---|---|---|" +:+ newline
        +:+ "| CLI-001 | It dispatches | `cli/cli_test.go::TestDispatch` | |" +:+ newline
        +:+ "| CLI-002 | It suggests | _planned_ | |" +:+ newline)
  else if String.eqb path "docs/requirements/FABRIN_REQUIREMENTS.md" then Ok ("| FR-CLI-1 | a CLI | done |" +:+ newline)
  else Err "no such file".
Definition example_decode (data : string) : result string (list behaviour * result string (option ())) :=
  if String.eqb data "behaviours: ..." then Ok (example_behaviours, Ok None) else Err "not a document".
Definition example_parse (_ : string) : result string test_file :=
  Ok (mkTestFile [(None, dq +:+ "testing" +:+ dq)]
        [mkFunc false "TestDispatch" (Some [StarExpr (SelectorExpr (Ident "testing") "T")]) None]).

