(* ===== verification/ApiCheck.v ===== *)
(** * The public API: tools/apicheck/main.go

    The snapshot of the exported symbols and the search for third-party types in
    their signatures.  Go's type checker is seen through what the code asks of it: a
    graph of types, whose identities are what the code keys its [seen] set by, and the
    objects of each package's scope.  [packages.Load] and the printer of types are
    parameters. *)

From S2P Require Import Prelude GoStrings Token Paths.

(** ** Types and objects *)

(** A type: a pointer of [go/types]. *)
Definition ty : Type := positive.

(** A field or a method of an interface; a declared method, with its receiver. *)
Record member := mkMember { member_name : string; member_type : ty }.
Record method := mkMethod { method_name : string; method_type : ty; method_recv : ty }.

(** What the code switches on. *)
Inductive node :=
| Named (pkg : option string) (name : string) (targs : list ty) (underlying : ty) (methods : list method)
| Alias (target : ty)
| Pointer (elem : ty)
| Slice (elem : ty)
| Array (elem : ty)
| Chan (elem : ty)
| Map (key elem : ty)
| Signature (constraints : list ty) (params results : ty)  (** of the type parameters *)
| Tuple (vars : list ty)
| Struct (fields : list member)
| Interface (methods : list member)
| OtherType.  (** basic types, type parameters, unions *)

Inductive object :=
| Const (name : string) (type : ty) (val : string)
| Var (name : string) (type : ty)
| Func (name : string) (type : ty)
| TypeName (name : string) (type : ty) (alias : bool).
Definition object_name (o : object) : string :=
  match o with Const n _ _ | Var n _ | Func n _ | TypeName n _ _ => n end.
Definition object_type (o : object) : ty :=
  match o with Const _ t _ | Var _ t | Func _ t | TypeName _ t _ => t end.

Record package := mkPackage { PkgPath : string; Scope : list object; Errors : list string }.

(** ** Permitted packages *)

Definition allowlist : list string := ["github.com/gin-gonic/gin"].
Definition allowlisted (pkgPath : string) : bool := existsb (λ allowed, HasPrefix pkgPath (allowed +:+ "/")) allowlist.
Definition stdlib (pkgPath : string) : bool :=
  let first := match CutByte "/" pkgPath with Some (a, _) => a | None => pkgPath end in
  negb (contains_byte "." first).
Definition our_own (pkgPath modulePath : string) : bool :=
  String.eqb pkgPath modulePath || HasPrefix pkgPath (modulePath +:+ "/").
Definition permitted (pkgPath modulePath : string) : bool :=
  if our_own pkgPath modulePath then true
  else if existsb (String.eqb pkgPath) allowlist || allowlisted pkgPath then true
  else stdlib pkgPath.

(** [dedupe]; the first string has no predecessor. *)
Fixpoint dedupe_from (prev : option string) (l : list string) : list string :=
  match l with
  | [] => []
  | s :: l' =>
      if match prev with Some p => String.eqb s p | None => false end then dedupe_from (Some s) l'
      else s :: dedupe_from (Some s) l'
  end.
Definition dedupe (sorted : list string) : list string := dedupe_from None sorted.

Section api.
Context `{Unicode} `{RuneClasses}.
(** The types, by identity; what is not there is nil. *)
Context (graph : gmap ty node).

Definition exported_types (l : list member) : list ty :=
  map member_type (List.filter (λ m, IsExported (member_name m)) l).

(** [types.Unalias]; a chain of aliases is no longer than the graph. *)
Fixpoint Unalias (fuel : nat) (t : ty) : ty :=
  match fuel, graph !! t with
  | S fuel', Some (Alias t') => Unalias fuel' t'
  | _, _ => t
  end.

Section walk.
Context (modulePath : string).

(** What a named type is reported as. *)
Definition reported (n : node) : list string :=
  match n with
  | Named (Some p) name _ _ _ => if permitted p modulePath then [] else [p +:+ "." +:+ name]
  | _ => []
  end.
Definition ours (n : node) : bool :=
  match n with Named (Some p) _ _ _ _ => our_own p modulePath | _ => false end.

(** The calls of the switch, in order. *)
Definition descends (n : node) : list ty :=
  match n with
  | Named _ _ targs underlying _ => targs ++ (if ours n then [underlying] else [])
  | Alias t => [Unalias (size graph) t]
  | Pointer t | Slice t | Array t | Chan t => [t]
  | Map k e => [k; e]
  | Signature _ ps rs => [ps; rs]
  | Tuple ts => ts
  | Struct fields => exported_types fields
  | Interface methods => exported_types methods
  | OtherType => []
  end.

(** A call after another, with the [seen] they share. *)
Definition add (visit : ty → gset ty → list string * gset ty) : list ty → gset ty → list string * gset ty :=
  fix go l seen :=
    match l with
    | [] => ([], seen)
    | t :: l' =>
        let '(out, seen) := visit t seen in
        let '(more, seen) := go l' seen in
        (out ++ more, seen)
    end.

(** The fuel bounds the depth of the calls, which never passes a type twice. *)
Fixpoint offenders (fuel : nat) (t : ty) (seen : gset ty) : list string * gset ty :=
  match fuel with
  | O => ([], seen)
  | S fuel' =>
      match graph !! t with
      | None => ([], seen)
      | Some n =>
          if bool_decide (t ∈ seen) then ([], seen)
          else
            let '(out, seen) := add (offenders fuel') (descends n) ({[t]} ∪ seen) in
            (reported n ++ out, seen)
      end
  end.
Definition offenders_of (t : ty) : list string := fst (offenders (S (size graph)) t ∅).

(** The declared methods of an exported, defined type. *)
Definition methods_of (o : object) : list method :=
  match o with
  | TypeName _ t false =>
      match graph !! t with
      | Some (Named _ _ _ _ ms) => List.filter (λ m, IsExported (method_name m)) ms
      | _ => []
      end
  | _ => []
  end.

Definition leakInScope (pkgPath : string) (scope : list object) : list string :=
  flat_map (λ o,
    if negb (IsExported (object_name o)) then []
    else
      map (λ bad, pkgPath +:+ "." +:+ object_name o +:+ " exposes " +:+ bad) (offenders_of (object_type o))
      ++ flat_map (λ m, map (λ bad, pkgPath +:+ "." +:+ object_name o +:+ "." +:+ method_name m +:+ " exposes " +:+ bad)
                          (offenders_of (method_type m))) (methods_of o)) scope.

Definition leak_report (findings : list string) : string :=
  "unblessed third-party type in an exported signature:" +:+ newline
  +:+ String.concat "" (map (λ f, "    " +:+ f +:+ newline) findings)
  +:+ newline
  +:+ "    An unblessed type in the public API makes that dependency's version part" +:+ newline
  +:+ "    of Fabrin's semver contract, permanently and by accident." +:+ newline +:+ newline
  +:+ "    Fix it by not exposing the type: accept an interface you declare, or" +:+ newline
  +:+ "    return your own type. Adding to apicheck's allowlist is an architectural" +:+ newline
  +:+ "    decision that needs an ADR. See AGENTS.md, hard rule 1.".

(** What is printed, or the error. *)
Definition leak (pkgs : list package) : result string string :=
  match flat_map (λ p, leakInScope (PkgPath p) (Scope p)) pkgs with
  | [] => Ok ("✓ api: no unblessed third-party type in any exported signature." +:+ newline)
  | findings => Err (leak_report (dedupe (sort_by str_leb findings)))
  end.
End walk.

(** ** The snapshot *)

(** [types.TypeString] under a qualifier of package paths. *)
Context (TypeString : (string → string) → ty → string).

Definition qualifier (pkgPath p : string) : string := if String.eqb p pkgPath then "" else p.

Definition describeType (name : string) (t : ty) (alias : bool) (q : string → string) : list string :=
  if alias then ["type " +:+ name +:+ " = " +:+ TypeString q (Unalias (size graph) t)]
  else
    match graph !! t with
    | Some (Named _ _ _ u ms) =>
        let lines :=
          match graph !! u with
          | Some (Struct fields) =>
              ("type " +:+ name +:+ " struct")
              :: map (λ f, "type " +:+ name +:+ " struct, " +:+ member_name f +:+ " " +:+ TypeString q (member_type f))
                   (List.filter (λ f, IsExported (member_name f)) fields)
          | Some (Interface methods) =>
              ("type " +:+ name +:+ " interface")
              :: map (λ m, "type " +:+ name +:+ " interface, " +:+ member_name m
                           +:+ TrimPrefix (TypeString q (member_type m)) "func")
                   (List.filter (λ m, IsExported (member_name m)) methods)
          | _ => ["type " +:+ name +:+ " " +:+ TypeString q u]
          end in
        sort_by str_leb
          (lines ++ map (λ m, "method (" +:+ TypeString q (method_recv m) +:+ ") " +:+ method_name m
                              +:+ TrimPrefix (TypeString q (method_type m)) "func")
                      (List.filter (λ m, IsExported (method_name m)) ms))
    | _ => ["type " +:+ name +:+ " " +:+ TypeString q t]
    end.

Definition describe (pkgPath : string) (o : object) : list string :=
  let q := qualifier pkgPath in
  match o with
  | Const n t v => ["const " +:+ n +:+ " " +:+ TypeString q t +:+ " = " +:+ v]
  | Var n t => ["var " +:+ n +:+ " " +:+ TypeString q t]
  | Func n t => ["func " +:+ n +:+ TrimPrefix (TypeString q t) "func"]
  | TypeName n t alias => describeType n t alias q
  end.

Definition snapshot_header : list string := [
  "# Fabrin public API surface. GENERATED — regenerate with `just api`.";
  "#";
  "# One line per exported symbol. Every line is a promise to strangers: adding";
  "# one is cheap, removing one breaks their build. A diff here is the review.";
  "#";
  "# Type aliases are recorded UNEXPANDED, so a Gin patch bump does not churn this";
  "# file. A gate that cries wolf gets ignored, and an ignored gate is worse than";
  "# none. See AGENTS.md, hard rule 2."].

(** The lines of one package, under an empty line. *)
Definition package_lines (p : package) : list string :=
  match sort_by str_leb (flat_map (describe (PkgPath p)) (List.filter (λ o, IsExported (object_name o)) (Scope p))) with
  | [] => []
  | lines => "" :: map (λ l, "pkg " +:+ PkgPath p +:+ ", " +:+ l) lines
  end.
Definition snapshot (pkgs : list package) : string :=
  String.concat "" (map (λ l, l +:+ newline) (snapshot_header ++ flat_map package_lines pkgs)).
End api.

(** ** The command *)

Section run.
Context `{Unicode} `{RuneClasses}.
Context (ReadFile : string → result string string).
(** [packages.Load]: the types and the packages. *)
Context (Load : string → list string → result string (gmap ty node * list package)).
Context (TypeString : gmap ty node → (string → string) → ty → string).

Fixpoint manifest_lines (lines : list string) : list string :=
  match lines with
  | [] => []
  | l :: lines' =>
      let l := match CutByte "#" l with Some (before, _) => before | None => l end in
      let l := TrimSpace l in
      if String.eqb l "" then manifest_lines lines' else l :: manifest_lines lines'
  end.
Definition publicPackages (dir : string) : result string (list string) :=
  let manifest := path_join [dir; "scripts/gates/public-packages.txt"] in
  match ReadFile manifest with
  | Err err => Err ("read " +:+ manifest +:+ ": " +:+ err)
  | Ok raw =>
      match manifest_lines (SplitByte "010" raw) with
      | [] => Err (manifest +:+ " lists no packages")
      | out => Ok (sort_by str_leb out)
      end
  end.

Fixpoint find_module (lines : list string) : option string :=
  match lines with
  | [] => None
  | l :: lines' =>
      let l := TrimSpace l in
      if HasPrefix l "module " then Some (TrimSpace (TrimPrefix l "module ")) else find_module lines'
  end.
Definition modulePath (dir : string) : result string string :=
  match ReadFile (path_join [dir; "go.mod"]) with
  | Err err => Err ("read go.mod: " +:+ err)
  | Ok raw =>
      match find_module (SplitByte "010" raw) with
      | Some m => Ok m
      | None => Err ("no module line in " +:+ dir +:+ "/go.mod")
      end
  end.

Definition load (dir : string) (patterns : list string) : result string (gmap ty node * list package) :=
  match Load dir patterns with
  | Err err => Err ("load packages: " +:+ err)
  | Ok (graph, pkgs) =>
      match flat_map (λ p, map (λ e, PkgPath p +:+ ": " +:+ e) (Errors p)) pkgs with
      | [] => Ok (graph, sort_by (λ p q, str_leb (PkgPath p) (PkgPath q)) pkgs)
      | failed => Err ("packages did not type-check:" +:+ newline +:+ "  " +:+ Join failed (newline +:+ "  "))
      end
  end.

(** What is printed, or the error. *)
Definition run (mode dir : string) : result string string :=
  module ← modulePath dir;
  names ← publicPackages dir;
  let patterns := map (λ n, if String.eqb n "." then module else module +:+ "/" +:+ n) names in
  '(graph, pkgs) ← load dir patterns;
  if String.eqb mode "snapshot" then Ok (snapshot graph (TypeString graph) pkgs)
  else if String.eqb mode "leak" then leak graph module pkgs
  else Err ("unknown mode " +:+ Quote mode +:+ ": want snapshot or leak").

(** [main]: the exit status, and what is printed on standard output or error. *)
Definition main (mode dir : string) : Z * string :=
  match run mode dir with
  | Ok out => (0%Z, out)
  | Err err => (1%Z, "apicheck: " +:+ err +:+ newline)
  end.
End run.

(** ** The public API: what the leak check finds

    The walk of the type graph, with the [seen] set its calls share, visits exactly
    what can be reached, so the check reports exactly the exposures there are. *)

Section graph.
Context `{Unicode} `{RuneClasses}.
Context (graph : gmap ty node) (modulePath : string).

Abbreviation D := (dom graph).

(** A package path that is a module's, or a package in it. *)
Definition under (root p : string) : Prop := p = root ∨ ∃ rest, p = root +:+ "/" +:+ rest.

(** The types a type is written with.  A defined type is written with its arguments
    and, when it is ours, with what it is defined as; a struct or an interface with
    the types of its exported members. *)
Inductive written_with : node → ty → Prop :=
| with_argument pkg name targs u ms a : a ∈ targs → written_with (Named pkg name targs u ms) a
| with_definition p name targs u ms : under modulePath p → written_with (Named (Some p) name targs u ms) u
| with_target t : written_with (Alias t) (Unalias graph (size graph) t)
| with_pointer e : written_with (Pointer e) e
| with_slice e : written_with (Slice e) e
| with_array e : written_with (Array e) e
| with_chan e : written_with (Chan e) e
| with_key k e : written_with (Map k e) k
| with_elem k e : written_with (Map k e) e
| with_params cs ps rs : written_with (Signature cs ps rs) ps
| with_results cs ps rs : written_with (Signature cs ps rs) rs
| with_var ts t : t ∈ ts → written_with (Tuple ts) t
| with_field l m : m ∈ l → IsExported (member_name m) = true → written_with (Struct l) (member_type m)
| with_method l m : m ∈ l → IsExported (member_name m) = true → written_with (Interface l) (member_type m).

Definition edge (t u : ty) : Prop := ∃ n, graph !! t = Some n ∧ written_with n u ∧ u ∈ D.

Lemma under_spec root p : String.eqb p root || HasPrefix p (root +:+ "/") = true ↔ under root p.
Proof.
  unfold under. rewrite orb_true_iff, String.eqb_eq, HasPrefix_spec. by setoid_rewrite <-string_app_assoc.
Qed.

Lemma exported_types_elem l u : u ∈ exported_types l ↔ ∃ m, m ∈ l ∧ IsExported (member_name m) = true ∧ u = member_type m.
Proof.
  unfold exported_types. rewrite list_elem_of_fmap. setoid_rewrite list_elem_of_In. setoid_rewrite filter_In. naive_solver.
Qed.

Lemma descends_exact n u : u ∈ descends graph modulePath n ↔ written_with n u.
Proof.
  split.
  - destruct n as [pkg name targs un ms| | | | | | | | |l|l|]; cbn [descends]; rewrite ?elem_of_cons, ?elem_of_nil.
    + rewrite elem_of_app. intros [|Hu]; [by constructor|]. destruct pkg as [p|]; [|by apply elem_of_nil in Hu].
      cbn in Hu. destruct (our_own p modulePath) eqn:Eo; [|by apply elem_of_nil in Hu].
      apply list_elem_of_singleton in Hu as ->. by apply with_definition, under_spec.
    + intros [->|[]]. constructor.
    + intros [->|[]]. constructor.
    + intros [->|[]]. constructor.
    + intros [->|[]]. constructor.
    + intros [->|[]]. constructor.
    + intros [->|[->|[]]]; constructor.
    + intros [->|[->|[]]]; constructor.
    + by constructor.
    + intros (m & ? & ? & ->)%exported_types_elem. by constructor.
    + intros (m & ? & ? & ->)%exported_types_elem. by constructor.
    + done.
  - intros Hw. destruct Hw as [pkg name targs un ms a Ha|p name targs un ms Ho| | | | | | | | | |ts t Ht|l m|l m]; cbn [descends];
      rewrite ?elem_of_app, ?elem_of_cons, ?exported_types_elem; eauto.
    apply under_spec in Ho. cbn [ours]. unfold our_own. rewrite Ho. right. by left.
Qed.

(** What calls on some roots do to the set and report: what they add is reachable, is
    closed under edges, and is what is reported. *)
Record walked (roots : list ty) (seen : gset ty) (out : list string) (seen' : gset ty) : Prop := {
  walked_more : seen ⊆ seen';
  walked_reach : ∀ x, x ∈ seen' → x ∈ seen ∨ ∃ r, r ∈ roots ∧ r ∈ D ∧ rtc edge r x;
  walked_roots : ∀ r, r ∈ roots → r ∈ D → r ∈ seen';
  walked_closed : ∀ x y, x ∈ seen' → (x ∉ seen) → edge x y → y ∈ seen';
  walked_out : ∀ s, s ∈ out ↔ ∃ x n, x ∈ seen' ∧ (x ∉ seen) ∧ graph !! x = Some n ∧ s ∈ reported modulePath n;
}.

Lemma walked_nothing roots seen : (∀ r, r ∈ roots → r ∈ D → r ∈ seen) → walked roots seen [] seen.
Proof.
  intros Hr. split; [done|by left|done|done|]. intros s. split; [by intros ?%elem_of_nil|]. by intros (x & n & ? & ? & _).
Qed.

Lemma add_walked visit fuel l seen :
  (∀ t seen, size (D ∖ seen) < fuel → let '(out, seen') := visit t seen in walked [t] seen out seen') →
  size (D ∖ seen) < fuel → let '(out, seen') := add visit l seen in walked l seen out seen'.
Proof.
  intros Hv. revert seen. induction l as [|t l IH]; intros seen Hs; cbn [add].
  { apply walked_nothing. by intros r ?%elem_of_nil. }
  pose proof (Hv t seen Hs) as Hv1. destruct (visit t seen) as [out1 seen1]. destruct Hv1 as [M1 R1 T1 C1 O1].
  assert (Hs1 : size (D ∖ seen1) < fuel) by (apply (Nat.le_lt_trans _ (size (D ∖ seen))); [apply subseteq_size; set_solver|exact Hs]).
  specialize (IH seen1 Hs1). fold (add visit) in IH |- *. destruct (add visit l seen1) as [out2 seen2].
  destruct IH as [M2 R2 T2 C2 O2]. split.
  - set_solver.
  - intros x Hx. destruct (R2 x Hx) as [Hx1|(r & Hr & Hd & Hp)]; [|right; exists r; split; [by right|done]].
    destruct (R1 x Hx1) as [|(r & ->%list_elem_of_singleton & Hd & Hp)]; [by left|]. right. exists t. split; [by left|done].
  - intros r [->|Hr]%elem_of_cons Hd; [apply M2, T1; [by left|done]|by apply T2].
  - intros x y Hx Hns He. destruct (decide (x ∈ seen1)) as [H1|H1]; [by eapply M2, C1|by eapply C2].
  - intros s. rewrite elem_of_app, O1, O2. split.
    + intros [(x & n & ? & ? & ?)|(x & n & ? & ? & ?)]; exists x, n; split_and!; set_solver.
    + intros (x & n & Hx & Hns & ?). destruct (decide (x ∈ seen1)); [left|right]; by exists x, n.
Qed.

Lemma offenders_walked fuel t seen :
  size (D ∖ seen) < fuel → let '(out, seen') := offenders graph modulePath fuel t seen in walked [t] seen out seen'.
Proof.
  revert t seen. induction fuel as [|fuel IH]; intros t seen Hs; [lia|]. cbn [offenders].
  destruct (graph !! t) as [n|] eqn:Et.
  2: { apply walked_nothing. intros r ->%list_elem_of_singleton. rewrite elem_of_dom, Et. by intros []. }
  case_bool_decide as Hin.
  { apply walked_nothing. by intros r ->%list_elem_of_singleton. }
  assert (Htd : t ∈ D) by (apply elem_of_dom; by eexists).
  assert (Hs1 : size (D ∖ ({[t]} ∪ seen)) < fuel).
  { assert (Hlt : size (D ∖ ({[t]} ∪ seen)) < size (D ∖ seen)) by (apply subset_size; set_solver). lia. }
  pose proof (add_walked (offenders graph modulePath fuel) fuel (descends graph modulePath n) _ IH Hs1) as Ha.
  destruct (add _ _ _) as [out seen']. destruct Ha as [M R T C O]. split.
  - set_solver.
  - intros x Hx. destruct (R x Hx) as [Hx1|(r & Hr & Hd & Hp)].
    + apply elem_of_union in Hx1 as [->%elem_of_singleton|]; [|by left]. right. exists t. split_and!; [by left|done|constructor].
    + right. exists t. split_and!; [by left|done|]. eapply rtc_l; [|exact Hp]. exists n. by rewrite <-descends_exact.
  - intros r ->%list_elem_of_singleton _. apply M. set_solver.
  - intros x y Hx Hns He. destruct (decide (x = t)) as [->|Hne]; [|by apply (C x y); [|set_solver|]].
    destruct He as (n' & En & Hy & Hd). rewrite Et in En. injection En as <-. apply T; [by apply descends_exact|done].
  - intros s. rewrite elem_of_app, O. split.
    + intros [Hr|(x & n' & ? & ? & ?)]; [exists t, n|exists x, n']; split_and!; set_solver.
    + intros (x & n' & Hx & Hns & En & Hr). destruct (decide (x = t)) as [->|Hne].
      * left. congruence.
      * right. exists x, n'. split_and!; set_solver.
Qed.

(** What the walk from a type reports is what the types it can reach are reported as;
    and its fuel, one more than there are types, is enough. *)
Lemma offenders_exact t s :
  s ∈ offenders_of graph modulePath t ↔ ∃ x n, rtc edge t x ∧ graph !! x = Some n ∧ s ∈ reported modulePath n.
Proof.
  unfold offenders_of.
  assert (Hs : size (D ∖ (∅ : gset ty)) < S (size graph)) by (rewrite difference_empty_L, size_dom; lia).
  pose proof (offenders_walked (S (size graph)) t ∅ Hs) as Hw. destruct (offenders _ _ _ t ∅) as [out seen].
  destruct Hw as [_ R T C O]. cbn [fst]. rewrite O. split.
  - intros (x & n & Hx & _ & En & Hr). exists x, n. split; [|done].
    destruct (R x Hx) as [?|(r & ->%list_elem_of_singleton & _ & Hp)]; [set_solver|done].
  - intros (x & n & Hp & En & Hr). exists x, n. split_and!; [|set_solver|done|done].
    assert (Hall : t ∈ D → x ∈ seen).
    { intros Hd. clear En Hr. revert x Hp. apply rtc_ind_r; [apply T; [by left|done]|].
      intros x y _ He IH. apply (C x y); [done|set_solver|done]. }
    apply Hall. apply elem_of_dom. apply rtc_inv in Hp as [->|(y & (n' & En' & _) & _)]; by eexists.
Qed.

(** ** The surface *)

(** Who, in the exported API, has a signature of which type: an exported object of a
    package, or an exported method declared on an exported defined type. *)
Inductive surface (pkgs : list package) : string → ty → Prop :=
| surface_object p o :
    p ∈ pkgs → o ∈ Scope p → IsExported (object_name o) = true →
    surface pkgs (PkgPath p +:+ "." +:+ object_name o) (object_type o)
| surface_method p name t pkg tname targs u ms m :
    p ∈ pkgs → TypeName name t false ∈ Scope p → IsExported name = true →
    graph !! t = Some (Named pkg tname targs u ms) → m ∈ ms → IsExported (method_name m) = true →
    surface pkgs (PkgPath p +:+ "." +:+ name +:+ "." +:+ method_name m) (method_type m).

Lemma methods_of_elem o m : m ∈ methods_of graph o ↔
  ∃ name t pkg tname targs u ms, o = TypeName name t false ∧ graph !! t = Some (Named pkg tname targs u ms)
    ∧ m ∈ ms ∧ IsExported (method_name m) = true.
Proof.
  split.
  - destruct o as [| | |name t []]; cbn; try by intros ?%elem_of_nil.
    destruct (graph !! t) as [[pkg tname targs u ms| | | | | | | | | | |]|] eqn:Et; try by intros ?%elem_of_nil.
    intros [? ?]%list_elem_of_In%filter_In. exists name, t, pkg, tname, targs, u, ms. by rewrite list_elem_of_In.
  - intros (name & t & pkg & tname & targs & u & ms & -> & Et & Hm & He). cbn. rewrite Et.
    apply list_elem_of_In, filter_In. by rewrite <-list_elem_of_In.
Qed.

(** A package the API may name: ours, Gin's or the standard library's, which has no
    dot in the first element of its path. *)
Definition blessed (p : string) : Prop :=
  under modulePath p ∨ under "github.com/gin-gonic/gin" p ∨ ∀ a b, p = a +:+ "." +:+ b → contains_byte "/" a = true.

Lemma stdlib_cons c p : Ascii.eqb c "/" = false → stdlib (String c p) = negb (Ascii.eqb c ".") && stdlib p.
Proof.
  unfold stdlib. cbn [CutByte]. intros ->. destruct (CutByte "/" p) as [[a b]|]; cbn [mbind option_bind contains_byte];
    by rewrite negb_orb.
Qed.

Lemma stdlib_spec p : stdlib p = true ↔ ∀ a b, p = a +:+ "." +:+ b → contains_byte "/" a = true.
Proof.
  induction p as [|c p IH]; [by split; [intros _ []|]|].
  destruct (Ascii.eqb c "/") eqn:Ec.
  { apply Ascii.eqb_eq in Ec as ->. split; [|done]. by intros _ [|d a] b; [|intros [= <- _]]. }
  rewrite stdlib_cons, andb_true_iff, negb_true_iff, IH by done. split.
  - intros [Hd Ha] [|d a] b [= -> ->]; [by rewrite Ascii.eqb_refl in Hd|]. cbn [contains_byte]. by rewrite (Ha a b eq_refl), orb_true_r.
  - intros Ha. split.
    + destruct (Ascii.eqb_spec c ".") as [->|]; [|done]. by specialize (Ha "" p eq_refl).
    + intros a b ->. specialize (Ha (String c a) b eq_refl). cbn [contains_byte] in Ha. by rewrite Ec in Ha.
Qed.

Lemma permitted_spec p : permitted p modulePath = true ↔ blessed p.
Proof.
  unfold permitted, blessed, our_own. rewrite <-!under_spec, <-stdlib_spec. cbn. rewrite orb_false_r.
  destruct (String.eqb p modulePath), (HasPrefix p (modulePath +:+ "/")), (String.eqb p "github.com/gin-gonic/gin"),
    (HasPrefix p "github.com/gin-gonic/gin/"), (stdlib p); cbn; tauto.
Qed.
Lemma not_permitted_spec p : permitted p modulePath = false ↔ ¬ blessed p.
Proof. rewrite <-permitted_spec. by destruct (permitted p modulePath). Qed.

(** An exposure: a named type of a package that is not permitted, within reach of the
    surface, as it is written in the report. *)
Definition exposure (pkgs : list package) (finding : string) : Prop :=
  ∃ who t x pkg name targs u ms,
    surface pkgs who t ∧ rtc edge t x ∧ graph !! x = Some (Named (Some pkg) name targs u ms)
    ∧ ¬ blessed pkg ∧ finding = who +:+ " exposes " +:+ (pkg +:+ "." +:+ name).

Lemma reported_elem s n : s ∈ reported modulePath n ↔
  ∃ pkg name targs u ms, n = Named (Some pkg) name targs u ms ∧ ¬ blessed pkg ∧ s = pkg +:+ "." +:+ name.
Proof.
  split.
  - destruct n as [[pkg|] name targs u ms| | | | | | | | | | |]; cbn; try by intros ?%elem_of_nil.
    destruct (permitted pkg modulePath) eqn:E; [by intros ?%elem_of_nil|]. apply not_permitted_spec in E.
    intros ->%list_elem_of_singleton. by exists pkg, name, targs, u, ms.
  - intros (pkg & name & targs & u & ms & -> & E%not_permitted_spec & ->). cbn. rewrite E. by left.
Qed.

Lemma leakInScope_exact pkgs f :
  f ∈ flat_map (λ p, leakInScope graph modulePath (PkgPath p) (Scope p)) pkgs ↔ exposure pkgs f.
Proof.
  assert (Hbad : ∀ t bad, bad ∈ offenders_of graph modulePath t ↔ ∃ x pkg name targs u ms, rtc edge t x
      ∧ graph !! x = Some (Named (Some pkg) name targs u ms) ∧ ¬ blessed pkg ∧ bad = pkg +:+ "." +:+ name).
  { intros t bad. rewrite offenders_exact. setoid_rewrite reported_elem. naive_solver. }
  rewrite elem_of_flat_map. unfold leakInScope. split.
  - intros (p & Hp & Hf). apply elem_of_flat_map in Hf as (o & Ho & Hf).
    destruct (IsExported (object_name o)) eqn:Eo; cbn [negb] in Hf; [|by apply elem_of_nil in Hf].
    apply elem_of_app in Hf as [(bad & -> & Hb)%list_elem_of_fmap|Hf].
    + apply Hbad in Hb as (x & pkg & name & targs & u & ms & ? & ? & ? & ->).
      exists (PkgPath p +:+ "." +:+ object_name o), (object_type o), x, pkg, name, targs, u, ms.
      split_and!; [by apply surface_object|done|done|done|]. by rewrite !string_app_assoc.
    + apply elem_of_flat_map in Hf as (m & Hm & (bad & -> & Hb)%list_elem_of_fmap).
      apply methods_of_elem in Hm as (name0 & t0 & pkg0 & tname & targs0 & u0 & ms0 & -> & Et & Hm & Em).
      apply Hbad in Hb as (x & pkg & name & targs & u & ms & ? & ? & ? & ->).
      exists (PkgPath p +:+ "." +:+ name0 +:+ "." +:+ method_name m), (method_type m), x, pkg, name, targs, u, ms.
      split_and!; [by eapply surface_method|done|done|done|]. by rewrite !string_app_assoc.
  - intros (who & t & x & pkg & name & targs & u & ms & Hs & Hp & Hx & Hn & ->).
    destruct Hs as [p o Hp1 Ho Eo|p name0 t0 pkg0 tname targs0 u0 ms0 m Hp1 Ho Eo Et Hm Em]; exists p; (split; [done|]);
      apply elem_of_flat_map; [exists o|exists (TypeName name0 t0 false)]; (split; [done|]); cbn [object_name]; rewrite Eo;
      cbn [negb]; apply elem_of_app;
      [left|right; apply elem_of_flat_map; exists m; split; [apply methods_of_elem; by exists name0, t0, pkg0, tname, targs0, u0, ms0|]];
      apply list_elem_of_fmap; exists (pkg +:+ "." +:+ name); (split; [by rewrite !string_app_assoc|]); apply Hbad;
      by exists x, pkg, name, targs, u, ms.
Qed.

(** ** The report *)

Definition before (a b : string) : Prop := str_ltb a b = true.

Lemma dedupe_sorted prev l :
  StronglySorted (λ a b, str_leb a b = true) l → (∀ p, prev = Some p → Forall (λ s, str_leb p s = true) l) →
  StronglySorted before (dedupe_from prev l)
  ∧ ∀ s, s ∈ dedupe_from prev l ↔ s ∈ l ∧ Some s ≠ prev.
Proof.
  intros Hs. revert prev. induction Hs as [|a l Hs IH Hall]; intros prev Hp; cbn [dedupe_from].
  { split; [constructor|]. intros s. split; [by intros ?%elem_of_nil|by intros [?%elem_of_nil _]]. }
  destruct (IH (Some a)) as [Hd Hm]; [by intros ? [= <-]|].
  assert (Hprev : ∀ p, prev = Some p → p ≠ a → ∀ s, s ∈ l → s ≠ p).
  { intros p -> Hne s Hin ->. specialize (Hp p eq_refl). apply Forall_cons in Hp as [Hpa _].
    rewrite Forall_forall in Hall. apply Hne. apply str_leb_antisym; [done|by apply Hall]. }
  destruct (match prev with Some p => String.eqb a p | None => false end) eqn:E.
  - destruct prev as [p|]; [|done]. apply String.eqb_eq in E as ->. split; [done|]. intros s. rewrite Hm, elem_of_cons. split.
    + intros [? ?]. split; [by right|done].
    + intros [[->|?] ?]; done.
  - split.
    + constructor; [done|]. apply Forall_forall. intros s [Hin Hne]%Hm. unfold before. rewrite Forall_forall in Hall.
      specialize (Hall s Hin). destruct (str_ltb a s) eqn:El; [done|]. destruct Hne. f_equal.
      apply str_leb_antisym; [|done]. by rewrite str_leb_ltb, El.
    + intros s. rewrite !elem_of_cons, Hm. split.
      * intros [->|[Hin Hne]]; [split; [by left|]|split; [by right|]].
        -- intros <-. by rewrite String.eqb_refl in E.
        -- intros <-. apply String.eqb_neq in E. by apply (Hprev s eq_refl (λ e, E (eq_sym e)) s Hin).
      * intros [[->|Hin] Hne]; [by left|]. destruct (decide (s = a)) as [->|]; [by left|]. right. split; [done|]. congruence.
Qed.

End graph.

(** ** Three exposures the walk does not reach *)

#[local] Existing Instance identity_tables.
#[local] Existing Instance ascii_classes.

(** A type of a database library, a pointer to it, and a function type returning the
    pointer, by whose identities the examples below refer to them. *)
Definition database_types : gmap ty node :=
  {[ 1%positive := Named (Some "gorm.io/gorm") "DB" [] 2%positive []; 3%positive := Pointer 1%positive;
     4%positive := Signature [] 5%positive 6%positive; 5%positive := Tuple []; 6%positive := Tuple [3%positive] ]}.
Definition passed : string := "✓ api: no unblessed third-party type in any exported signature." +:+ newline.

(** A function [DB] returning the pointer is found, *)
Example returned_type_found :
  flat_map (λ p, leakInScope database_types "example.com/m" (PkgPath p) (Scope p)) [mkPackage "example.com/m" [Func "Open" 4%positive] []]
  = ["example.com/m.Open exposes gorm.io/gorm.DB"].
Proof. vm_compute. reflexivity. Qed.

(** the exported field of an embedded unexported struct is not, although it is
    promoted and read as [Options.DB], *)
Example promoted_field_missed :
  leak (<[10%positive := Named (Some "example.com/m") "Options" [] 11%positive []]>
       (<[11%positive := Struct [mkMember "inner" 12%positive]]>
       (<[12%positive := Named (Some "example.com/m") "inner" [] 13%positive []]>
       (<[13%positive := Struct [mkMember "DB" 3%positive]]> database_types)))) "example.com/m"
    [mkPackage "example.com/m" [TypeName "Options" 10%positive false; TypeName "inner" 12%positive false] []] = Ok passed.
Proof. vm_compute. reflexivity. Qed.

(** nor is an exported method of an unexported type an exported function returns, *)
Example method_of_returned_type_missed :
  leak (<[10%positive := Signature [] 5%positive 11%positive]> (<[11%positive := Tuple [12%positive]]>
       (<[12%positive := Pointer 13%positive]>
       (<[13%positive := Named (Some "example.com/m") "handle" [] 14%positive [mkMethod "DB" 4%positive 12%positive]]>
       (<[14%positive := Struct []]> database_types))))) "example.com/m"
    [mkPackage "example.com/m" [Func "New" 10%positive; TypeName "handle" 13%positive false] []] = Ok passed.
Proof. vm_compute. reflexivity. Qed.

(** nor the constraint of a type parameter. *)
Example constraint_missed :
  leak (<[10%positive := Signature [11%positive] 12%positive 5%positive]> (<[11%positive := Interface [mkMember "DB" 4%positive]]>
       (<[12%positive := Tuple [13%positive]]> (<[13%positive := OtherType]> database_types)))) "example.com/m"
    [mkPackage "example.com/m" [Func "Use" 10%positive] []] = Ok passed.
Proof. vm_compute. reflexivity. Qed.
