(* ===== verification/Hello.v ===== *)
(** * The example application: examples/hello/

    Three modules and their wiring, as a client of the framework: greet, which asks
    for a clock through a port of its own; clock, which happens to satisfy it; and
    orders, which reaches its table through a port that the wiring satisfies with
    SQL.  What Gin binds from a request, the SQL engine and its driver are
    parameters; the process is a [World], in which the database is opened by a start
    hook and closed by a stop hook. *)

From S2P Require Import Prelude GoStrings Json Orm Diff Dialect Flag Config Cli Health Migrate MakeMigrations Modules ModulesSpec.

(** ** HTTP, as the handlers use it *)

(** What [c.JSON] is given and what [c.Error] records; [None] is a handler that
    panics. *)
Record Response := mkResponse { status : Z; body : json; logged : list string }.
Definition failure (code : Z) (text : string) (errs : list string) : Response :=
  mkResponse code (JObj [("error", JStr text)]) errs.

(** [strconv.ParseInt(s, 10, 64)]. *)
Definition ParseInt (s : string) : option Z :=
  match s with
  | String c rest => if Ascii.eqb c "+" then (if HasPrefix rest "-" then None else Atoi rest) else Atoi s
  | "" => None
  end.

(** A [time.Time] in its location, and [Format(time.RFC3339)]. *)
Record Time := mkTime { wall : civil; offset : Z }.
Definition Format (t : Time) : string :=
  let '(mkCivil y mo d h mi s) := wall t in
  let zone := Z.quot (offset t) 60 in
  padded 4 y +:+ "-" +:+ padded 2 mo +:+ "-" +:+ padded 2 d +:+ "T"
  +:+ padded 2 h +:+ ":" +:+ padded 2 mi +:+ ":" +:+ padded 2 s
  +:+ (if (offset t =? 0)%Z then "Z"
       else (if (zone <? 0)%Z then "-" else "+")
            +:+ padded 2 (Z.abs zone / 60) +:+ ":" +:+ padded 2 (Z.abs zone mod 60)).

(** ** orders/orders.go *)

Module Orders.
Record Order := mkOrder { ID : Z; Item : string }.
#[export] Instance Order_eq_dec : EqDecision Order.
Proof. solve_decision. Defined.
Inductive store_error := ErrNotFound | StoreError (text : string).
Definition error_text (err : store_error) : string :=
  match err with ErrNotFound => "orders: not found" | StoreError text => text end.

(** The port: [Create] answers the order with the id it was given.  [None] is a call
    that panics. *)
Class Store (W : Type) := {
  Find : Z → W → option (result store_error Order) * W;
  Create : Order → W → option (result store_error Order) * W;
}.

Definition Name : string := "orders".
Definition Models : list Model := [
  {| mTable := "orders";
     mFields := [
       {| fName := "id"; fType := TypeInt64; fMaxLen := 0; fNullable := false; fPrimaryKey := true;
          fUnique := false; fIndex := false |};
       {| fName := "item"; fType := Orm.TypeString; fMaxLen := 200; fNullable := false; fPrimaryKey := false;
          fUnique := false; fIndex := false |}] |}].
Definition Routes : list route := [("POST", "/orders"); ("GET", "/orders/:id")].
Definition json_of (o : Order) : json := JObj [("id", JNum (Itoa (ID o))); ("item", JStr (Item o))].

Section handlers.
Context {W : Type} `{Store W}.
(** [c.ShouldBindJSON] of an [Order]. *)
Context (ShouldBindJSON : string → option Order).

Definition create (request : string) (w : W) : option Response * W :=
  match ShouldBindJSON request with
  | None => (Some (failure 400 ("body must be {" +:+ dq +:+ "item" +:+ dq +:+ ": string}") []), w)
  | Some o =>
      if String.eqb (Item o) "" then (Some (failure 400 "item is required" []), w)
      else
        match Create o w with
        | (None, w) => (None, w)
        | (Some (Err err), w) => (Some (failure 500 "could not store the order" [error_text err]), w)
        | (Some (Ok o), w) => (Some (mkResponse 201 (json_of o) []), w)
        end
  end.

Definition find (id : string) (w : W) : option Response * W :=
  match ParseInt id with
  | None => (Some (failure 404 "no such order" []), w)
  | Some id =>
      match Find id w with
      | (None, w) => (None, w)
      | (Some (Err ErrNotFound), w) => (Some (failure 404 "no such order" []), w)
      | (Some (Err err), w) => (Some (failure 500 "could not read the order" [error_text err]), w)
      | (Some (Ok o), w) => (Some (mkResponse 200 (json_of o) []), w)
      end
  end.
End handlers.
End Orders.

(** ** greet/greet.go and clock/clock.go *)

Module Greet.
Definition Name : string := "greet".
Definition Routes : list route := [("GET", "/greet")].

Section greet.
Context {W : Type}.
(** The port. *)
Context (Now : W → Time).
Context (write : string → W → option string * W).

Definition greet (name : option string) (w : W) : Response :=
  mkResponse 200 (JObj [("at", JStr (Format (Now w))); ("greeting", JStr ("hello, " +:+ default "world" name))]) [].

Definition run_greet (args : list string) (w : W) : option string * W :=
  let name := match args with a :: _ => a | [] => "world" end in
  write ("hello, " +:+ name +:+ " (at " +:+ Format (Now w) +:+ ")" +:+ newline) w.

Definition Commands : list (Command (W:=W)) := [
  {| cmd_name := "greet"; cmd_short := "print a greeting without starting a server"; cmd_flags := ∅;
     cmd_defaults := ""; cmd_run := Some (λ _, run_greet) |}].
End greet.
End Greet.

Module Clock.
Definition Name : string := "clock".
Definition Routes : list route := [("GET", "/time")].
Definition Checks : list Check := [Some "tick"].
Definition time {W} (Now : W → Time) (w : W) : Response :=
  mkResponse 200 (JObj [("now", JStr (Format (Now w)))]) [].
End Clock.

(** ** main.go *)

(** The SQL the program sends: the data of an in-memory database, what the statements
    do to it ([None] is an error), and what the engine promises. *)
Class OrdersSQL (T : Type) := {
  memory : T;
  ExecContext : string → T → option T;
  (** [INSERT INTO orders (item) VALUES ($1)], with its [LastInsertId] *)
  insert_order : string → T → option (Z * T);
  (** [SELECT id, item FROM orders WHERE id = $1] *)
  select_order : Z → T → option (option Orders.Order);
}.

Definition createOrders : string :=
  "CREATE TABLE orders (" +:+ newline
  +:+ tab +:+ tab +:+ tab +:+ "id   INTEGER PRIMARY KEY AUTOINCREMENT," +:+ newline
  +:+ tab +:+ tab +:+ tab +:+ "item TEXT NOT NULL" +:+ newline
  +:+ tab +:+ tab +:+ ")".
Definition dropOrders : string := "DROP TABLE orders".

Class OrdersSQLLaws (T : Type) `{OrdersSQL T} := {
  law_create : ∃ t, ExecContext createOrders memory = Some t ∧ ∀ id, select_order id t = Some None;
  law_insert : ∀ item t id t', insert_order item t = Some (id, t') →
    select_order id t = Some None
    ∧ ∀ j, select_order j t' = if decide (j = id) then Some (Some (Orders.mkOrder id item)) else select_order j t;
  law_int64 : ∀ item t id t', insert_order item t = Some (id, t') →
    (-9223372036854775808 <= id <= 9223372036854775807)%Z;
}.

Section main.
Context {T : Type} `{OrdersSQL T}.

Definition migrations : list (M T) := [
  mkM "20260802090000" "create orders" (Some (ExecContext createOrders)) (Some (ExecContext dropOrders))].

(** A handle on a database: which one it is, and its world. *)
Definition handle : Type := nat * Migrate.world T.

(** The process: the time; the memoized clock and how many were made; the handle in
    [sqlStore.db]; how many databases were opened, and how many are open. *)
Record World := mkProcess {
  now : Time; clk : bool; made : nat; storeDB : option handle; opens : nat; live : nat }.
Definition set_storeDB (db : option handle) (w : World) : World :=
  mkProcess (now w) (clk w) (made w) db (opens w) (live w).
Definition set_live (n : nat) (w : World) : World :=
  mkProcess (now w) (clk w) (made w) (storeDB w) (opens w) n.

(** [sql.Open]'s error; which calls on which database fail, and which commits that
    fail take effect; [Close]'s error. *)
Context (sqlOpen : option string) (fails performed : nat → nat → bool) (closeError : nat → option string).

(** [db.Close()]. *)
Definition Close (db : handle) (w : World) : option string * World :=
  (closeError (fst db), set_live (live w - 1) w).

(** The text of the engine's error is left out. *)
Definition openDB (w : World) : result string handle * World :=
  match sqlOpen with
  | Some err => (Err ("open database: " +:+ err), w)
  | None =>
      let n := opens w in
      let w := mkProcess (now w) (clk w) (made w) (storeDB w) (S n) (S (live w)) in
      let fresh := Migrate.mkWorld (mkDb false ∅ memory) 0 in
      match Migrate.Run (fails n) (performed n) migrations fresh with
      | (_, Some err, d) => let '(_, w) := Close (n, d) w in (Err "migrate: ", w)
      | (_, None, d) => (Ok (n, d), w)
      end
  end.

(** [sqlStore]; a nil handle panics. *)
Definition sqlStore_Create (o : Orders.Order) (w : World) : option (result Orders.store_error Orders.Order) * World :=
  match storeDB w with
  | None => (None, w)
  | Some (n, d) =>
      let i := Migrate.calls d in
      if fails n i then (Some (Err (Orders.StoreError "insert")), set_storeDB (Some (n, Migrate.mkWorld (Migrate.durable d) (S i))) w)
      else
        match insert_order (Orders.Item o) (Migrate.data (Migrate.durable d)) with
        | None => (Some (Err (Orders.StoreError "insert")), set_storeDB (Some (n, Migrate.mkWorld (Migrate.durable d) (S i))) w)
        | Some (id, t) =>
            let view := mkDb (table_exists (Migrate.durable d)) (Migrate.rows (Migrate.durable d)) t in
            let w := set_storeDB (Some (n, Migrate.mkWorld view (S (S i)))) w in
            (** [LastInsertId] *)
            if fails n (S i) then (Some (Err (Orders.StoreError "id")), w)
            else (Some (Ok (Orders.mkOrder id (Orders.Item o))), w)
        end
  end.

Definition sqlStore_Find (id : Z) (w : World) : option (result Orders.store_error Orders.Order) * World :=
  match storeDB w with
  | None => (None, w)
  | Some (n, d) =>
      let w := set_storeDB (Some (n, Migrate.mkWorld (Migrate.durable d) (S (Migrate.calls d)))) w in
      if fails n (Migrate.calls d) then (Some (Err (Orders.StoreError "select")), w)
      else
        match select_order id (Migrate.data (Migrate.durable d)) with
        | None => (Some (Err (Orders.StoreError "select")), w)
        | Some None => (Some (Err Orders.ErrNotFound), w)
        | Some (Some o) => (Some (Ok o), w)
        end
  end.
#[export] Instance sqlStore : Orders.Store World := {| Orders.Find := sqlStore_Find; Orders.Create := sqlStore_Create |}.

(** [ordersRuntime]. *)
Definition Start_orders (open : World → result string handle * World) (_ : context) (w : World) : option string * World :=
  match open w with
  | (Err err, w) => (Some err, w)
  | (Ok db, w) => (None, set_storeDB (Some db) w)
  end.
Definition Stop_orders (_ : context) (w : World) : option string * World :=
  match storeDB w with
  | None => (None, w)
  | Some db => let '(err, w) := Close db w in (err, set_storeDB None w)
  end.

Context (write : string → World → option string * World).

Definition greet_module : Module (W:=World) (T:=T) :=
  {| mod_name := Greet.Name; mod_routes := Greet.Routes; mod_lifecycle := None; mod_checks := None;
     mod_commands := Some (Greet.Commands now write); mod_models := None; mod_migrations := None |}.
Definition clock_module : Module (W:=World) (T:=T) :=
  {| mod_name := Clock.Name; mod_routes := Clock.Routes; mod_lifecycle := None; mod_checks := Some Clock.Checks;
     mod_commands := None; mod_models := None; mod_migrations := None |}.
Definition orders_module (open : World → result string handle * World) : Module (W:=World) (T:=T) :=
  {| mod_name := Orders.Name; mod_routes := Orders.Routes;
     mod_lifecycle := Some {| Start := Start_orders open; Stop := Stop_orders |};
     mod_checks := None; mod_commands := None; mod_models := Some Orders.Models; mod_migrations := None |}.

(** The memoized constructor. *)
Definition clockFor (w : World) : World :=
  if clk w then w else mkProcess (now w) true (S (made w)) (storeDB w) (opens w) (live w).

Definition factories (open : World → result string handle * World) : list (ModuleFactory (W:=World) (T:=T)) := [
  LazyModule "greet" (Some (λ w, (Ok (Some greet_module), clockFor w)));
  LazyModule "clock" (Some (λ w, (Ok (Some clock_module), clockFor w)));
  LazyModule "orders" (Some (λ w, (Ok (Some (orders_module open)), set_storeDB None w)))].

Context `{Unicode} (mount : list route → list route → option (list route)).
Context (builtins : list (Command (W:=World))) (proxies : list string → option string).

Definition newAppWithDB (o : Options) (open : World → result string handle * World) (w : World)
    : result app_error App * World :=
  NewFromFactories mount builtins proxies o (factories open)
    (mkProcess (now w) false (made w) (storeDB w) (opens w) (live w)).
Definition newApp (o : Options) (w : World) : result app_error App * World := newAppWithDB o openDB w.
End main.

(** ** Orders stay where they were put *)

Section orders.
#[local] Set Default Proof Using "Type*".
Context {T : Type} `{OrdersSQLLaws T}.
Context (sqlOpen : option string) (fails performed : nat → nat → bool) (closeError : nat → option string).
Context (ShouldBindJSON : string → option Orders.Order).

#[local] Abbreviation World := (World (T:=T)).
#[local] Instance store : Orders.Store World := sqlStore fails.

(** A request to one of the two handlers, and what a process serves one after the
    other. *)
Inductive request := Post (body : string) | Get (id : string).
Definition serve (r : request) (w : World) : option Response * World :=
  match r with Post body => Orders.create ShouldBindJSON body w | Get id => Orders.find id w end.
Fixpoint serve_all (rs : list request) (w : World) : World :=
  match rs with [] => w | r :: rs' => serve_all rs' (snd (serve r w)) end.

(** The order the open database has under an id. *)
Definition stored (w : World) (o : Orders.Order) : Prop :=
  ∃ n d, storeDB w = Some (n, d) ∧ select_order (Orders.ID o) (Migrate.data (Migrate.durable d)) = Some (Some o).

(** What no handler disturbs. *)
Record same_handle (w w' : World) : Prop := {
  same_open : is_Some (storeDB w') ↔ is_Some (storeDB w);
  same_live : live w' = live w;
}.

Lemma same_handle_refl w : same_handle w w.
Proof. done. Qed.
Lemma same_handle_set h h' w : storeDB w = Some h → same_handle w (set_storeDB (Some h') w).
Proof. intros E. split; [|done]. cbn. rewrite E. by split; eexists. Qed.
#[local] Hint Resolve same_handle_refl same_handle_set : core.

(** The database with other data and a later call. *)
Lemma stored_later w n d t k p :
  storeDB w = Some (n, d) →
  (∀ q, select_order (Orders.ID q) (Migrate.data (Migrate.durable d)) = Some (Some q) → select_order (Orders.ID q) t = Some (Some q)) →
  stored w p → stored (set_storeDB (Some (n, Migrate.mkWorld (mkDb (table_exists (Migrate.durable d)) (Migrate.rows (Migrate.durable d)) t) k)) w) p.
Proof. intros Ew Hq (n' & d' & Ew' & Hp). rewrite Ew in Ew'. injection Ew' as <- <-. do 2 eexists. split; [done|]. by apply Hq. Qed.

Lemma Create_kept o w : let '(r, w') := Orders.Create o w in
  same_handle w w' ∧ (∀ p, stored w p → stored w' p)
  ∧ match r with
    | None => storeDB w = None
    | Some (Err err) => is_Some (storeDB w) ∧ err ≠ Orders.ErrNotFound
    | Some (Ok p) => Orders.Item p = Orders.Item o ∧ stored w' p ∧ (∀ q, stored w q → Orders.ID q ≠ Orders.ID p)
        ∧ (-9223372036854775808 <= Orders.ID p <= 9223372036854775807)%Z
    end.
Proof.
  cbn. unfold sqlStore_Create. destruct (storeDB w) as [[n [[te rws dat] k]]|] eqn:Ew; [|by eauto]. cbn.
  assert (Hsame : ∀ k', same_handle w (set_storeDB (Some (n, Migrate.mkWorld (mkDb te rws dat) k')) w)
    ∧ ∀ p, stored w p → stored (set_storeDB (Some (n, Migrate.mkWorld (mkDb te rws dat) k')) w) p).
  { intros k'. split; [by eauto|]. intros p. by apply (stored_later w n _ dat k' p Ew). }
  destruct (fails n k).
  { destruct (Hsame (S k)). split; [done|]. split; [done|]. split; [by eexists|done]. }
  destruct (insert_order _ dat) as [[id t]|] eqn:Ei.
  2: { destruct (Hsame (S k)). split; [done|]. split; [done|]. split; [by eexists|done]. }
  destruct (law_insert _ _ _ _ Ei) as [Hfree Hsel]. pose proof (law_int64 _ _ _ _ Ei) as Hid.
  assert (Hmore : ∀ p, stored w p → stored (set_storeDB (Some (n, Migrate.mkWorld (mkDb te rws t) (S (S k)))) w) p).
  { intros p. apply (stored_later w n _ t (S (S k)) p Ew). cbn. intros q Hq. rewrite Hsel, decide_False; [done|congruence]. }
  destruct (fails n (S k)); (split; [by eauto|]); (split; [done|]).
  { split; [by eexists|done]. }
  split; [done|]. split; [|split; [|done]].
  - do 2 eexists. split; [done|]. cbn. rewrite Hsel. by rewrite decide_True.
  - intros q (? & ? & Ew' & Hq) Heq. rewrite Ew in Ew'. injection Ew' as <- <-. cbn in Hq, Heq. congruence.
Qed.

Lemma Find_kept id w : let '(r, w') := Orders.Find id w in
  same_handle w w' ∧ (∀ p, stored w p → stored w' p)
  ∧ (r = None → storeDB w = None)
  ∧ (∀ p, stored w p → Orders.ID p = id → r = Some (Ok p) ∨ ∃ text, r = Some (Err (Orders.StoreError text))).
Proof.
  cbn. unfold sqlStore_Find. destruct (storeDB w) as [[n [[te rws dat] k]]|] eqn:Ew; cbn.
  2: { split; [by eauto|]. split; [done|]. split; [done|]. intros p (? & ? & Ew' & _). by rewrite Ew in Ew'. }
  set (w1 := set_storeDB _ w). assert (Hs : same_handle w w1) by (unfold w1; eauto).
  assert (Hk : ∀ p, stored w p → stored w1 p) by (intros p; by apply (stored_later w n _ dat (S k) p Ew)).
  assert (Hsel : ∀ p, stored w p → select_order (Orders.ID p) dat = Some (Some p)).
  { intros p (? & ? & Ew' & Hp). rewrite Ew in Ew'. by injection Ew' as <- <-. }
  clearbody w1. destruct (fails n k).
  { split; [done|]. split; [done|]. split; [done|]. intros p _ _. right. by eexists. }
  destruct (select_order id dat) as [[q|]|] eqn:Es; (split; [done|]); (split; [done|]); (split; [done|]);
    intros p Hp%Hsel <-; rewrite Es in Hp; [|done|done]. injection Hp as ->. by left.
Qed.

Lemma create_outcome body w : let '(r, w') := Orders.create ShouldBindJSON body w in
  same_handle w w' ∧ (∀ p, stored w p → stored w' p) ∧ (r = None → storeDB w = None)
  ∧ ∀ resp, r = Some resp → status resp = 201%Z →
      ∃ o p, ShouldBindJSON body = Some o ∧ Orders.Item o ≠ "" ∧ Orders.Item p = Orders.Item o
        ∧ resp = mkResponse 201 (Orders.json_of p) [] ∧ stored w' p ∧ (∀ q, stored w q → Orders.ID q ≠ Orders.ID p)
        ∧ (-9223372036854775808 <= Orders.ID p <= 9223372036854775807)%Z.
Proof.
  unfold Orders.create. destruct (ShouldBindJSON body) as [o|].
  2: { split; [by eauto|]. split; [done|]. split; [done|]. by intros ? [= <-]. }
  destruct (String.eqb_spec (Orders.Item o) "") as [|Hi].
  { split; [by eauto|]. split; [done|]. split; [done|]. by intros ? [= <-]. }
  pose proof (Create_kept o w) as Hc. destruct (Orders.Create o w) as [[[p|err]|] w']; destruct Hc as (Hs & Hk & Hr).
  - split; [done|]. split; [done|]. split; [done|]. intros resp [= <-] _. destruct Hr as (? & ? & ? & ?). by exists o, p.
  - split; [done|]. split; [done|]. split; [done|]. by intros ? [= <-].
  - by split_and!.
Qed.

Lemma find_outcome id w : let '(r, w') := Orders.find id w in
  same_handle w w' ∧ (∀ p, stored w p → stored w' p) ∧ (r = None → storeDB w = None)
  ∧ ∀ p, stored w p → ParseInt id = Some (Orders.ID p) →
      r = Some (mkResponse 200 (Orders.json_of p) []) ∨ ∃ errs, r = Some (failure 500 "could not read the order" errs).
Proof.
  unfold Orders.find. destruct (ParseInt id) as [z|].
  2: { split; [by eauto|]. split; [done|]. by split. }
  pose proof (Find_kept z w) as Hf. destruct (Orders.Find z w) as [[[p|[|text]]|] w']; destruct Hf as (Hs & Hk & Hn & Hr);
    (split; [done|]); (split; [done|]); (split; [try done; by intros _; apply Hn|]); intros q Hq [= Ez];
    (destruct (Hr q Hq (eq_sym Ez)) as [Eq|[text' Eq]]; [|try done]; try discriminate Eq).
  - left. by injection Eq as ->.
  - right. by exists [text].
Qed.

Lemma serve_kept r w : let '(resp, w') := serve r w in
  same_handle w w' ∧ (∀ p, stored w p → stored w' p) ∧ (resp = None → storeDB w = None).
Proof.
  destruct r as [body|id]; cbn [serve].
  - pose proof (create_outcome body w) as Ho. destruct (Orders.create _ _ _). naive_solver.
  - pose proof (find_outcome id w) as Ho. destruct (Orders.find _ _). naive_solver.
Qed.

Lemma serve_all_kept rs w : same_handle w (serve_all rs w) ∧ ∀ p, stored w p → stored (serve_all rs w) p.
Proof.
  revert w. induction rs as [|r rs IH]; intros w; cbn [serve_all]; [by eauto|].
  pose proof (serve_kept r w) as Hr. destruct (serve r w) as [resp w1]. destruct Hr as ([H1 H2] & Hk & _). cbn [snd].
  destruct (IH w1) as ([H3 H4] & Hk'). split; [split; [by rewrite H3|by rewrite H4]|]. eauto.
Qed.

Lemma ParseInt_Itoa z : (-9223372036854775808 <= z <= 9223372036854775807)%Z → ParseInt (Itoa z) = Some z.
Proof.
  intros Hz. rewrite <-(Atoi_Itoa z Hz). destruct (Itoa_head z) as (c & t & -> & Hc). cbn.
  destruct (Ascii.eqb_spec c "+") as [->|]; [done|reflexivity].
Qed.

Lemma json_of_inj o p : Orders.json_of o = Orders.json_of p → o = p.
Proof. destruct o, p. intros [= Hi ->]. by apply Itoa_inj in Hi as ->. Qed.

(** An order that POST /orders answered with 201 is there to stay.  It has the item that
    was posted, which is not empty, and whatever requests are served afterwards, GET
    with the id it was answered with answers that same order, or 500 when the
    database fails; no later order is answered with its id.  While the database is
    open no request panics. *)
Theorem posted_order_stays body w resp w1 reqs :
  is_Some (storeDB w) → Orders.create ShouldBindJSON body w = (Some resp, w1) → status resp = 201%Z →
  ∃ o p, ShouldBindJSON body = Some o ∧ Orders.Item p = Orders.Item o ∧ Orders.Item o ≠ ""
    ∧ resp = mkResponse 201 (Orders.json_of p) []
    ∧ let w2 := serve_all reqs w1 in
      ((Orders.find (Itoa (Orders.ID p)) w2).1 = Some (mkResponse 200 (Orders.json_of p) [])
       ∨ ∃ errs, (Orders.find (Itoa (Orders.ID p)) w2).1 = Some (failure 500 "could not read the order" errs))
      ∧ (∀ body' q, (Orders.create ShouldBindJSON body' w2).1 = Some (mkResponse 201 (Orders.json_of q) []) →
           Orders.ID q ≠ Orders.ID p)
      ∧ ∀ r, is_Some (serve r w2).1.
Proof.
  intros Hopen Ec Hst. pose proof (create_outcome body w) as Hc. rewrite Ec in Hc. destruct Hc as ([Ho _] & _ & _ & Hr).
  destruct (Hr resp eq_refl Hst) as (o & p & Eo & Hne & Hi & -> & Hp & _ & Hid). exists o, p.
  split; [done|]. split; [done|]. split; [done|]. split; [done|]. cbv zeta.
  destruct (serve_all_kept reqs w1) as [[Ho2 _] Hp2]. specialize (Hp2 p Hp). set (w2 := serve_all reqs w1) in *. clearbody w2.
  split; [|split].
  - pose proof (find_outcome (Itoa (Orders.ID p)) w2) as Hf. destruct (Orders.find _ w2) as [r w3]. destruct Hf as (_ & _ & _ & Hf).
    apply Hf; [done|by apply ParseInt_Itoa].
  - intros body' q Eq. pose proof (create_outcome body' w2) as Hq. destruct (Orders.create _ _ w2) as [r w3]. cbn [fst] in Eq.
    destruct Hq as (_ & _ & _ & Hq). destruct (Hq _ Eq eq_refl) as (o' & p' & _ & _ & _ & [= Hi' Hit'] & _ & Hfree & _).
    apply Itoa_inj in Hi'. rewrite Hi'. intros E. by apply (Hfree p Hp2).
  - intros r. pose proof (serve_kept r w2) as Hk. destruct (serve r w2) as [[resp2|] w3]; [by eexists|].
    destruct Hk as (_ & _ & Hn). specialize (Hn eq_refl). apply Ho, Ho2 in Hopen. rewrite Hn in Hopen. by destruct Hopen.
Qed.
End orders.

(** ** What is mounted, and the one database *)

Section process.
#[local] Set Default Proof Using "Type*".
Context {T : Type} `{OrdersSQL T}.
Context (sqlOpen : option string) (fails performed : nat → nat → bool) (closeError : nat → option string).
#[local] Abbreviation World := (World (T:=T)).
Context (write : string → World → option string * World).
Context `{Unicode} (mount : list route → list route → option (list route)).
Context (builtins : list (Command (W:=World))) (proxies : list string → option string).

#[local] Abbreviation openDB := (openDB sqlOpen fails performed closeError).
#[local] Abbreviation newApp := (newApp sqlOpen fails performed closeError write mount builtins proxies).
#[local] Abbreviation factories := (factories closeError write).
#[local] Abbreviation orders_module := (orders_module closeError openDB).

(** Opening opens one database or none, and leaves none open when it fails. *)
Lemma openDB_one w : let '(r, w') := openDB w in
  storeDB w' = storeDB w ∧ live w' = if is_ok r then S (live w) else live w.
Proof.
  unfold Hello.openDB. destruct sqlOpen; [done|]. destruct (Migrate.Run _ _ _ _) as [[done_ [err|]] d]; cbn; [|done].
  split; [done|lia].
Qed.

Lemma builds_first name b fs (w : World) ms w' m w1 :
  builds (LazyModule (T:=T) name (Some b) :: fs) w (Ok ms) w' → b w = (Ok (Some m), w1) →
  ∃ ms', ms = m :: ms' ∧ builds fs w1 (Ok ms') w'.
Proof.
  intros Hb Em. remember (Ok ms) as r eqn:Er. inversion Hb as [| | | |f b' fs' w0 m' w1' r' w'' Eb Em' _ Hb']; subst; try done.
  cbn in Eb. injection Eb as <-. rewrite Em in Em'. injection Em' as <- <-.
  destruct r' as [ms'|]; [|done]. exists ms'. by split; [congruence|].
Qed.
Lemma builds_none (w : World) (ms : list (Module (T:=T))) w' : builds [] w (Ok ms) w' → ms = [] ∧ w' = w.
Proof. inversion 1. by subst. Qed.

Lemma newApp_modules o w a w' : newApp o w = (Ok a, w') →
  modules (app_registry a)
    = List.filter (λ m, selects (Config.Modules o) (mod_name m)) [greet_module write; clock_module; orders_module]
  ∧ storeDB w' = (if selects (Config.Modules o) "orders" then None else storeDB w) ∧ opens w' = opens w ∧ live w' = live w
  ∧ made w' = made w + (if selects (Config.Modules o) "greet" || selects (Config.Modules o) "clock" then 1 else 0).
Proof.
  unfold Hello.newApp, newAppWithDB, NewFromFactories. set (w0 := mkProcess _ _ _ _ _ _).
  pose proof (buildSelectedModules_spec (factories openDB) (Config.Modules o) w0) as Hb.
  destruct (buildSelectedModules _ _ w0) as [[ms|e] w1]; intros [= Hnew <-].
  destruct Hb as [[_ Hb]|(_ & ? & _)]; [|done]. apply New_registry in Hnew.
  pose proof (newRegistry_spec ms (Config.Modules o)) as Hr. rewrite Hnew in Hr. destruct Hr as (_ & Hreg & _).
  rewrite Hreg. cbn [registry_of modules]. clear Hreg Hnew. revert Hb.
  unfold selected_factories, Hello.factories, LazyModule. cbn [List.filter factory_name mod_name greet_module clock_module Hello.orders_module].
  unfold Greet.Name, Clock.Name, Orders.Name.
  destruct (selects _ "greet") eqn:Eg, (selects _ "clock") eqn:Ec, (selects _ "orders") eqn:Eo; intros Hb; cbn.
  all: repeat (eapply builds_first in Hb; [|reflexivity]; destruct Hb as (ms' & -> & Hb); rename ms' into ms).
  all: apply builds_none in Hb as [-> ->]; cbn; unfold Greet.Name, Clock.Name, Orders.Name; rewrite ?Eg, ?Ec, ?Eo; split_and!; try done; try lia.
Qed.
(** What the server does to the process while it runs: it serves requests, which leave
    the handle open and no other database. *)
Definition serves (srv : Server (W:=World)) : Prop :=
  (∀ a w, same_handle w (listen srv a w).2) ∧ (∀ w, same_handle w (wait srv w).2)
  ∧ (∀ c w, same_handle w (shutdown srv c w).2) ∧ ∀ w, same_handle w (serve_result srv w).2.

Lemma mounted_lifecycles o w a w' : newApp o w = (Ok a, w') →
  lifecycles (modules (app_registry a))
    = if selects (Config.Modules o) "orders"
      then [("orders", {| Start := Start_orders openDB; Stop := Stop_orders closeError |})] else [].
Proof.
  intros Ha. destruct (newApp_modules _ _ _ _ Ha) as [-> _]. cbn. unfold Greet.Name, Clock.Name, Orders.Name.
  by destruct (selects _ "greet"), (selects _ "clock"), (selects _ "orders").
Qed.

(** No database is open beyond [n], or one is, and orders holds it. *)
Definition accounted (o : Options) (n : nat) (w : World) : Prop :=
  storeDB w = None ∧ live w = n ∨ selects (Config.Modules o) "orders" = true ∧ is_Some (storeDB w) ∧ live w = S n.

Lemma accounted_same o n w w' : same_handle w w' → accounted o n w → accounted o n w'.
Proof.
  intros [Hs Hv] [[Hn Hl]|(Hsel & Hs' & Hl)]; [left|right].
  - split; [|congruence]. destruct (storeDB w') as [h|]; [|done]. rewrite Hn in Hs. by destruct (proj1 Hs ltac:(by eexists)).
  - split; [done|]. split; [by apply Hs|congruence].
Qed.

Lemma accounted_start o ctx w w' a err : newApp o w = (Ok a, w') → storeDB w = None →
  ∀ w2, start (app_registry a) ctx w' = (err, w2) →
  match err with
  | Some _ => storeDB w2 = None ∧ live w2 = live w
  | None => accounted o (live w) w2 ∧ (is_Some (storeDB w2) ↔ selects (Config.Modules o) "orders" = true)
  end.
Proof.
  intros Ha Hn0 w2. destruct (newApp_modules _ _ _ _ Ha) as (_ & Hdb & _ & Hl & _). unfold start, accounted.
  rewrite (mounted_lifecycles _ _ _ _ Ha). rewrite Hn0 in Hdb.
  destruct (selects _ "orders"); cbn; [|intros [= <- <-]; rewrite Hdb; split; [by left|by split; [intros []|]]].
  unfold Start_orders. pose proof (openDB_one w') as Hop. destruct (openDB w') as [[db|e] w3]; destruct Hop as [Hs Hlv]; cbn in *;
    intros [= <- <-]; cbn.
  - split; [right|done]. split; [done|]. split; [by eexists|congruence].
  - split; congruence.
Qed.

(** A stop closes what is open. *)
Lemma accounted_stop o ctx w w' a n w2 : newApp o w = (Ok a, w') → accounted o n w2 →
  let w3 := (stop (app_registry a) ctx w2).2 in storeDB w3 = None ∧ live w3 = n.
Proof.
  intros Ha Hacc. unfold stop. rewrite (mounted_lifecycles _ _ _ _ Ha). destruct Hacc as [[Hn Hl]|(-> & [[i d] Hs] & Hl)].
  - destruct (selects _ _); [|done]. unfold stopAll. cbn. unfold Stop_orders. by rewrite Hn.
  - unfold stopAll. cbn. unfold Stop_orders. rewrite Hs. cbn. split; [done|lia].
Qed.

Lemma run_closes o w0 a w1 srv st : newApp o w0 = (Ok a, w1) → storeDB w0 = None → serves srv → app_running st = false →
  let w' := (Run srv a st w1).2 in storeDB w' = None ∧ live w' = live w0.
Proof.
  intros Ha Hn (Sl & Sw & Ss & Sr) Hidle. cbv zeta. unfold Run. rewrite Hidle.
  destruct (start _ _ w1) as [err w2] eqn:E1. pose proof (accounted_start _ _ _ _ _ _ Ha Hn _ E1) as Hacc.
  destruct err as [err|]; [done|]. destruct Hacc as [Hacc _]. pose proof (λ ctx w, accounted_stop o ctx _ _ _ (live w0) w Ha) as Hstop.
  specialize (Sl (Addr (opts a)) w2). destruct (listen srv _ w2) as [[addr|lerr] w3]; apply (accounted_same o (live w0)) in Sl; try done.
  2: { specialize (Hstop (NotifyContext CallerContext) w3 Sl). by destruct (stop _ _ w3). }
  cbn in Sl. specialize (Sw w3). destruct (wait srv w3) as [[serr|] w4]; apply (accounted_same o (live w0)) in Sw; try done.
  { specialize (Hstop (WithoutCancel (NotifyContext CallerContext)) w4 Sw). by destruct (stop _ _ w4). }
  cbn in Sw. set (c := WithTimeout _ _). specialize (Ss c w4). destruct (shutdown srv c w4) as [herr w5].
  apply (accounted_same o (live w0)) in Ss; [|done]. cbn in Ss. specialize (Sr w5). destruct (serve_result srv w5) as [e w6].
  apply (accounted_same o (live w0)) in Sr; [|done]. specialize (Hstop c w6 Sr). by destruct (stop _ c w6).
Qed.

(** C36: the wiring is what it says, and a run leaks no database.  Constructing the
    application mounts exactly the selected modules, in order, makes one clock when
    greet or clock is selected and none otherwise, and opens no database.  Once its
    modules have started, the database is open exactly when orders is mounted; and
    when a run returns, whether a start failed, the address could not be bound, the
    server died or it was told to stop, whatever calls on the database failed, no
    more databases are open than before. *)
Theorem run_leaks_no_database o w0 a w1 srv st :
  storeDB w0 = None → newApp o w0 = (Ok a, w1) → serves srv → app_running st = false →
  map mod_name (modules (app_registry a)) = List.filter (selects (Config.Modules o)) ["greet"; "clock"; "orders"]
  ∧ opens w1 = opens w0 ∧ live w1 = live w0
  ∧ made w1 = made w0 + (if selects (Config.Modules o) "greet" || selects (Config.Modules o) "clock" then 1 else 0)
  ∧ (∀ ctx w2, start (app_registry a) ctx w1 = (None, w2) → (is_Some (storeDB w2) ↔ selects (Config.Modules o) "orders" = true))
  ∧ let w' := (Run srv a st w1).2 in storeDB w' = None ∧ live w' = live w0.
Proof.
  intros Hn0 Ha Hsrv Hidle. destruct (newApp_modules _ _ _ _ Ha) as (Hm & _ & Ho & Hl & Hmade).
  split.
  { rewrite Hm. cbn. unfold Greet.Name, Clock.Name, Orders.Name.
    by destruct (selects _ "greet"), (selects _ "clock"), (selects _ "orders"). }
  split; [done|]. split; [done|]. split; [done|]. split; [|by eapply run_closes].
  intros ctx w2 Es. by destruct (accounted_start _ _ _ _ _ _ Ha Hn0 _ Es).
Qed.
End process.

(** ** An example *)

#[local] Existing Instance identity_tables.

(** A database in memory: the largest id used and the orders, once there is a table. *)
Definition orders_table : Type := option (Z * gmap Z string).
#[export] Instance table_sql : OrdersSQL orders_table := {|
  memory := None;
  ExecContext s t :=
    match t with
    | None => if String.eqb s createOrders then Some (Some (0%Z, ∅)) else None
    | Some _ => if String.eqb s dropOrders then Some None else None
    end;
  insert_order item t :=
    match t with
    | None => None
    | Some (last, m) =>
        let id := (last + 1)%Z in
        if bool_decide (m !! id = None) && ((1 <=? id) && (id <=? 9223372036854775807))%Z
        then Some (id, Some (id, <[id := item]> m)) else None
    end;
  select_order id t := match t with None => None | Some (_, m) => Some (Orders.mkOrder id <$> m !! id) end;
|}.
#[export] Instance table_laws : OrdersSQLLaws orders_table.
Proof.
  split.
  - exists (Some (0%Z, ∅)). split; [done|]. intros id. cbn. by rewrite lookup_empty.
  - intros item [[last m]|] id t'; cbn; [|done]. destruct (_ && _) eqn:E; [|done]. intros [= <- <-].
    apply andb_true_iff in E as [E%bool_decide_eq_true _]. split; [by rewrite E|]. intros j. case_decide as Hj.
    + subst j. by rewrite lookup_insert_eq.
    + by rewrite lookup_insert_ne.
  - intros item [[last m]|] id t'; cbn; [|done]. destruct (_ && _) eqn:E; [|done]. intros [= <- _].
    apply andb_true_iff in E as [_ E]. lia.
Qed.

(** [encoding/json] into an [Order], as Gin decodes a body. *)
Definition dec_order (o : Orders.Order) (v : json) : option Orders.Order :=
  dec_struct false ["id"; "item"] (λ n o v,
    if String.eqb n "id" then z ← dec_int (Orders.ID o) v; Some (Orders.mkOrder z (Orders.Item o))
    else s ← dec_string (Orders.Item o) v; Some (Orders.mkOrder (Orders.ID o) s)) o v.
Definition bind_order (body : string) : option Orders.Order :=
  '(v, _) ← decode_first body; dec_order (Orders.mkOrder 0 "") v.

Definition noon : Time := mkTime (mkCivil 2026 8 2 9 0 0) 7200.
Definition process : World (T:=orders_table) := mkProcess noon false 0 None 0 0.
Definition no_fault (_ _ : nat) : bool := false.
Definition serving : World (T:=orders_table) :=
  match openDB None no_fault no_fault (λ _, None) process with
  | (Ok db, w) => set_storeDB (Some db) w
  | (Err _, w) => w
  end.
Definition post (item : string) : string := "{" +:+ dq +:+ "item" +:+ dq +:+ ": " +:+ dq +:+ item +:+ dq +:+ "}".

Example time_in_zone : Format noon = "2026-08-02T09:00:00+02:00".
Proof. reflexivity. Qed.

Lemma posted_order_stays_witness :
  let answer := Orders.create (H := store no_fault) bind_order (post "widget") serving in
  answer.1 = Some (mkResponse 201 (Orders.json_of (Orders.mkOrder 1 "widget")) [])
  ∧ ∃ p, Orders.Item p = "widget" ∧
      ((Orders.find (H := store no_fault) (Itoa (Orders.ID p)) (serve_all no_fault bind_order [Post (post "gadget"); Get "1"; Get "x"] answer.2)).1
         = Some (mkResponse 200 (Orders.json_of p) [])
       ∨ ∃ errs, (Orders.find (H := store no_fault) (Itoa (Orders.ID p)) (serve_all no_fault bind_order [Post (post "gadget"); Get "1"; Get "x"] answer.2)).1
         = Some (failure 500 "could not read the order" errs)).
Proof.
  split; [vm_compute; reflexivity|].
  destruct (posted_order_stays no_fault bind_order (post "widget") serving
      (mkResponse 201 (Orders.json_of (Orders.mkOrder 1 "widget")) [])
      (Orders.create (H := store no_fault) bind_order (post "widget") serving).2
      [Post (post "gadget"); Get "1"; Get "x"] ltac:(vm_compute; eexists; reflexivity) ltac:(vm_compute; reflexivity) eq_refl)
    as (o & p & Eo & Hp & _ & _ & Hf & _).
  exists p. split; [|exact Hf]. rewrite Hp. vm_compute in Eo. injection Eo as <-. reflexivity.
Defined.

(** A server that answers one request and is told to stop; the last call on the
    database, the one the request makes, fails. *)
Definition last_call_fails (_ n : nat) : bool := n =? 5.
Definition one_request : Server (W:=World (T:=orders_table)) :=
  {| listen := λ a w, (Ok a, w); wait := λ w, (ContextDone, (serve last_call_fails bind_order (Post (post "widget")) w).2);
     shutdown := λ _ w, (None, w); serve_result := λ w, (None, w) |}.
Definition hello (o : Options) : result app_error App * World (T:=orders_table) :=
  newApp None last_call_fails no_fault (λ _, None) (λ _ w, (None, w)) mount_in_order [] (λ _, None) o process.
Definition stopped : run_state := {| app_running := false; app_addr := "" |}.

Lemma run_leaks_no_database_witness :
  ∃ a w1, hello (selecting ["orders"; "greet"]) = (Ok a, w1)
    ∧ map mod_name (modules (app_registry a)) = ["greet"; "orders"]
    ∧ storeDB (Run one_request a stopped w1).2 = None ∧ live (Run one_request a stopped w1).2 = 0.
Proof.
  destruct (hello (selecting ["orders"; "greet"])) as [[a|e] w1] eqn:Eh; [|exfalso; vm_compute in Eh; discriminate Eh].
  exists a, w1. split; [reflexivity|].
  destruct (run_leaks_no_database None last_call_fails no_fault (λ _, None) (λ _ w, (None, w)) mount_in_order [] (λ _, None)
      (selecting ["orders"; "greet"]) process a w1 one_request stopped eq_refl Eh) as (Hm & _ & _ & _ & _ & Hdb & Hl).
  - split; [by intros|split; [|by split; intros]]. intros w. cbn [one_request wait snd].
    pose proof (serve_kept last_call_fails bind_order (Post (post "widget")) w) as Hk.
    destruct (serve _ _ _ w) as [resp w']. exact (proj1 Hk).
  - reflexivity.
  - split; [rewrite Hm; vm_compute; reflexivity|]. split; [exact Hdb|exact Hl].
Defined.

(** The table main.go writes by hand is not the one the generator writes for the model
    that orders declares: in the generated one the id is not assigned by SQLite, and
    an item is bounded. *)
Example generated_table :
  map (λ m, SQLite.Render (Value (Diff.CreateTable m))) Orders.Models
  = [Ok ["CREATE TABLE " +:+ dq +:+ "orders" +:+ dq +:+ " (" +:+ newline
         +:+ "  " +:+ dq +:+ "id" +:+ dq +:+ " BIGINT NOT NULL," +:+ newline
         +:+ "  " +:+ dq +:+ "item" +:+ dq +:+ " VARCHAR(200) NOT NULL," +:+ newline
         +:+ "  CONSTRAINT " +:+ dq +:+ "pk_orders_id_26ba45ccc6454e03" +:+ dq +:+ " PRIMARY KEY (" +:+ dq +:+ "id" +:+ dq +:+ ")" +:+ newline
         +:+ ")"]].
Proof. vm_compute. reflexivity. Qed.
